(* ===== verification/_CoqProject ===== *)
-Q . S2P
Prelude.v
Handlers.v
ChunkBuffer2.v
Bavl.v
BavlSet.v
FlowInterfaces.v
PacketBuffer.v
BufferWriter.v
PacketProto.v
FairQueue.v
DnsName.v
DnsMessage.v
DnsHash.v
DnsCache.v
CacheInv.v
CacheOps.v
CacheGrowth.v
DiskCache.v
DiskLoad.v
DiskRound.v
CacheLock.v
SocksClient.v
DevicePackets.v
TcpClient.v
UdpGateway.v
UdpTree.v
Md5.v
Base64.v
Redsocks.v
RedsocksInv.v
RedsocksSocks.v
RedsocksParser.v
ParserText.v
RedsocksConfig.v
