(* ===== verification/Prelude.v ===== *)
(** * Verification of the native programs of shadowsocks-android

    The application starts native programs that carry its traffic:
    - [tun2socks] (src/src/main/jni/badvpn) reads IP packets from the VPN
      device, opens a SOCKS5 connection per TCP flow, and carries UDP and DNS
      packets through a gateway;
    - [pdnsd] (src/src/main/jni/pdnsd) is the local caching DNS server;
    - [redsocks] (src/src/main/jni/redsocks) redirects TCP connections to a
      proxy when the phone is rooted.
    This library models their core and proves it correct. All source paths
    below are relative to src/src/main/jni.

    ** How C is modelled

    Memory is a list of integers (bytes, unless the code uses other cells) with
    [load], [store] and [get], which fail outside the object. A function
    returns [cres A] (this file): [Ret] for a normal return, [Undef] for an
    access outside an object or a failed assertion, [OutOfFuel] when the bound
    of a loop is exhausted. Theorems state results as equations with [Ret], so
    that they include memory safety and termination. Machine integers are [Z]
    with explicit wrap-around ([u8], [u16], [u32], [u64], [s32]) where the code
    can overflow; sums of times in the cache wrap at 32 bits although C leaves
    their overflow undefined, and the [int] lengths of MD5 are [Undef] when they
    overflow. The targets are 32-bit and little-endian, with assertions
    compiled out; assertions of the source are kept as [assert] in the model
    and proved to hold where stated. Bounds on loops: a loop over a memory
    object gets the length of the object as fuel; other bounds are explained
    where they are defined (512 rounds for compressed names, since a name has at
    most 255 bytes and 255 jumps; three rounds for a byte in the Base64
    encoder; the number of nodes in memory for loops over trees; four rounds
    for each byte of a configuration file and four more, since every round of
    the parser consumes a byte, reads one, grows its buffer or leaves a state).

    ** Files

    - Prelude.v: [cres], integers, memory, byte strings, tactics.
    - Handlers.v: programs over a state, with rules to reason about them.
    - ChunkBuffer2.v: badvpn/structure/ChunkBuffer2.h, the ring buffer of
      packets; implements the interface [PacketStore].
    - FlowInterfaces.v: badvpn/base/BPending.c (the queue of pending jobs that
      the reactor runs, [BPending]) and badvpn/flow/PacketPassInterface.c (the
      protocol by which one component hands a packet to the next).
    - PacketBuffer.v: badvpn/flow/PacketBuffer.c, proved against [PacketStore].
    - PacketProto.v: badvpn/flow/PacketProtoEncoder.c and PacketProtoDecoder.c,
      length-prefixed packets in a byte stream.
    - FairQueue.v: badvpn/flow/PacketPassFairQueue.c, fair scheduling of flows.
    - DnsName.v: the domain name functions of pdnsd/src/helpers.c and helpers.h.
    - DnsMessage.v: pdnsd/src/dns.c, compressed names in DNS messages.
    - SocksClient.v: badvpn/misc/bsize.h ([BSize]) and
      badvpn/socksclient/BSocksClient.c ([BSocksClient]).
    - DevicePackets.v: badvpn/misc/byteorder.h, ipv4_proto.h, ipv6_proto.h,
      udp_proto.h ([ByteOrder], [Checksum], [IpUdp]) and the packet paths of
      badvpn/tun2socks/tun2socks.c ([Device]).
    - Md5.v and Base64.v: redsocks/md5.c and redsocks/base64.c, used for HTTP
      authentication.
    - BufferWriter.v: badvpn/flow/PacketRecvInterface.c and BufferWriter.c, and
      their composition with a packet buffer ([WriterFlow]).
    - DnsHash.v: pdnsd/src/hash.c, the table of cached names.
    - DnsCache.v: pdnsd/src/cache.c, the cache of records; CacheInv.v has its
      invariant and the lemmas on purging, CacheOps.v the operations.
    - CacheGrowth.v, DiskCache.v, DiskLoad.v, DiskRound.v: the cache file of
      pdnsd/src/cache.c: bounds for the list of sets while it is not kept sorted, the
      code, reading any file, and reading what was written.
    - CacheLock.v: the lock of pdnsd/src/cache.c, as steps of threads.
    - TcpClient.v: the TCP clients of badvpn/tun2socks/tun2socks.c, between lwIP
      and the SOCKS client.
    - UdpGateway.v: badvpn/system/BAddr.h (comparison, [Address]) and
      badvpn/tun2socks/SocksUdpGwClient.c ([SocksUdpGwClient]); [ConTable] has
      the lemmas on its table of connections.
    - Bavl.v and BavlSet.v: badvpn/structure/BAVL.h, balanced trees of nodes in
      memory: the code with a small program logic for it, and what it promises.
    - UdpTree.v: the trees implement the tables of UdpGateway.v.
    - Redsocks.v: redsocks/redsocks.c (accepting, relaying, shutting down),
      socks4.c, socks5.c and utils.c, over the part of libevent's
      bufferevent_sock.c that they use; RedsocksInv.v has the invariant of a
      connection, RedsocksSocks.v that both SOCKS subsystems keep it (instances
      of [RelaySubsys]) and the theorems.
    - RedsocksParser.v: redsocks/parser.c; ParserText.v has the reader of text
      it is compared with.
    - RedsocksConfig.v: the sections [redsocks] and [base] of redsocks.c and
      base.c, and main's reading of the file.

    ** What is shown

    The numbers are those of the claims in the doc comments of the theorems.
    - Flow components (C1 to C4, C38): the packet
      interface keeps its protocol under every interleaving of calls and jobs,
      and only cancelling keeps packets back;
      the buffer is a FIFO queue that loses nothing and resumes; the decoder
      implements the stream format and reports an error exactly for a length
      above the MTU, and decoding undoes the encoder's code however the
      stream is cut; writer, receive interface and buffer together always
      accept a packet again when there is room.
    - TCP clients (C5, C6, C36): for all answers of lwIP and all
      events no handler fails, both streams are relayed without loss, and no
      client is ever stuck.
    - SOCKS5 client (C7, C8): with a connector and a connection that
      may fail and memory that may be short at any time, it follows the protocol
      or reports an error, never reads past the reply and frees everything
      exactly once.
    - pdnsd cache (C13 to C16, C19, C40): every sequence of operations
      on well-formed entries,
      with failing allocations and any clock, leaves a consistent cache; lookups
      return nothing that expired but local and permanent records; what is added is found; purging keeps the
      limit; local records are kept; entries are built well-formed.
    - Cache file of pdnsd (C17, C18): reading is safe for every content of
      the file; exactly the entries that are completely in the file are read
      back.
    - Lock of the cache (C20, C21): writers exclude all others, and no wake-up is
      lost while at most one thread waits with a time limit. With it each section of the cache between locking and unlocking is
      one atomic step.
    - Hash table (C22, C39): a finite map keyed by names up to case;
      iteration visits every entry once, also under deletion.
    - Names (C23, C24): decompression is safe and terminates on
      every message and undoes compression.
    - Fair queue (C25, C26, C34): no assertion of the code fails; it delivers every packet exactly once, keeps
      flows within a bounded distance and never overflows its clock.
    - UDP (C27): for packets that fit together with their header, the
      client is a least-recently-used cache of connections.
    - Packets of the device (C28, C29, C35): header
      checks are exact; the packets made of what comes back from the UDP gateway
      are specified byte by byte; the DNS path is address translation with a
      table keyed by port, as long as memory lasts for new ports.
    - Balanced trees (C30): a tree is a sorted sequence of nodes with
      logarithmic height, whose operations change nothing else in memory.
    - redsocks connections (C9 to C11, C33): for all sequences of events
      and failures of checked calls, the proxy is sent a prefix of the
      negotiation and the data of the application, and the application a prefix of what
      followed the replies; the end of a stream is passed on after its data;
      a connection waits for an event that can happen; accepting
      resumes after errors with a random delay below a bound. The exceptions are stated
      in the claims.
    - redsocks configuration (C12, C31, C32): for every file the parser
      with its growing buffer does what a reader of the text does that sees one
      line after the other; tokens written to a file are the ones that are
      read; a configuration that is accepted has usable instances.
    - redsocks authentication (C37): MD5 equals RFC 1321 for every way to cut the
      message into pieces of fewer than 2^28 bytes.
    Other theorems of the files have no number: the job queue as a stack, size
    arithmetic, validation, parsing and printing of names, packets from the
    device, Base64 (equal to RFC 4648), the UDP checksum, queries of trees and the table of connections as a tree, the
    order of the list of record sets, freeing, and the ones that document a
    defect of the code.

    ** What is not modelled

    - badvpn: the event loop and sockets (system/), lwIP (its answers are
      arbitrary in TcpClient.v), option parsing and start-up, the gateway client
      udpgw_client/UdpGwClient.c (the build for Android uses SocksUdpGwClient.c
      instead), and the programs that are not built for the application (ncd,
      client, server and others). Cancelling in the fair queue. Lists of nodes
      (LinkedList1) are sequences, and the tree of the fair queue (SAvl) is the
      set of its flows.
    - pdnsd: reverse records and the dump of the cache,
      configuration files, answering and resolving queries, threads and sockets.
      In the cache, sizes are integers without overflow, and the list of sets is
      a sequence.
    - redsocks: HTTP proxies (http-connect, http-relay, http-auth), the DNS stub
      and the UDP relay, start-up and shut-down of the instances, logging. Of
      libevent, the buffered events are modelled as far as redsocks uses them.
    - ss-local and ss-tunnel are submodules that are not in the repository;
      libev, libevent, openssl, libsodium, ipset, udns and iptables are
      third-party code; the application in Java and Scala and its JNI glue only
      start the programs. *)
From Stdlib Require Export ZArith Lia.
From stdpp Require Export base list numbers.

#[global] Open Scope Z_scope.

(** ** Results of C code

    [Ret a] is a normal return, [Undef] an access outside an object or a
    failed run-time assertion, [OutOfFuel] the exhaustion of the bound given
    to a loop. A safety theorem rules [Undef] out, a termination theorem rules
    [OutOfFuel] out. *)
Inductive cres (A : Type) : Type :=
| Ret (a : A)
| Undef
| OutOfFuel.
Arguments Ret {A} a.
Arguments Undef {A}.
Arguments OutOfFuel {A}.

#[global] Instance cres_ret : MRet cres := fun A a => Ret a.
#[global] Instance cres_bind : MBind cres := fun A B f c =>
  match c with
  | Ret a => f a
  | Undef => Undef
  | OutOfFuel => OutOfFuel
  end.

Definition of_option {A} (o : option A) : cres A :=
  match o with Some a => Ret a | None => Undef end.

(** A run-time assertion ([ASSERT], [PDNSD_ASSERT]). *)
Definition assert (b : bool) : cres unit := if b then Ret tt else Undef.

Lemma bind_Ret {A B} (f : A -> cres B) a : (Ret a ≫= f) = f a.
Proof. reflexivity. Qed.

Lemma bind_Ret_inv {A B} (f : A -> cres B) c b :
  (c ≫= f) = Ret b -> exists a, c = Ret a /\ f a = Ret b.
Proof. destruct c; cbn; try discriminate. eauto. Qed.

(** Step over a check in a hypothesis about a computation that returned. *)
Ltac skip_bind :=
  let H := fresh in let a := fresh "a" in
  intros H; apply bind_Ret_inv in H as (a & _ & H); revert H.

(** ** Automation

    [zcases] splits on every comparison of integers the goal branches on, and
    drops the impossible cases. *)
Ltac zcase a b t :=
  match t with
  | Z.leb => destruct (Z.leb_spec a b)
  | Z.ltb => destruct (Z.ltb_spec a b)
  | Z.eqb => destruct (Z.eqb_spec a b)
  end; try (exfalso; lia).
Ltac zcases :=
  repeat match goal with
  | |- context [Z.leb ?a ?b] => zcase a b Z.leb
  | |- context [Z.ltb ?a ?b] => zcase a b Z.ltb
  | |- context [Z.eqb ?a ?b] => zcase a b Z.eqb
  end.

(** The length of a list as an integer. *)
Abbreviation zlen l := (Z.of_nat (length l)).

(** [zlist] computes lengths, [llia] decides goals about them. *)
Create Rewrite HintDb zlist.
#[export] Hint Rewrite @length_app @length_cons @length_nil @length_rev @length_map
  @length_take @length_drop @repeat_length @length_seq : zlist.
Ltac llia := autorewrite with zlist in *; cbn [length] in *; lia.

(** ** Machine integers *)
Section words.
Definition u8 (x : Z) : Z := x mod 2 ^ 8.
Definition u16 (x : Z) : Z := x mod 2 ^ 16.
Definition u32 (x : Z) : Z := x mod 2 ^ 32.
Definition u64 (x : Z) : Z := x mod 2 ^ 64.
Definition s32 (x : Z) : Z := (x + 2 ^ 31) mod 2 ^ 32 - 2 ^ 31.

Lemma u8_small x : 0 <= x < 2 ^ 8 -> u8 x = x.
Proof. apply Z.mod_small. Qed.
Lemma u16_small x : 0 <= x < 2 ^ 16 -> u16 x = x.
Proof. apply Z.mod_small. Qed.
Lemma u32_small x : 0 <= x < 2 ^ 32 -> u32 x = x.
Proof. apply Z.mod_small. Qed.
Lemma u64_small x : 0 <= x < 2 ^ 64 -> u64 x = x.
Proof. apply Z.mod_small. Qed.
Lemma u8_range x : 0 <= u8 x < 2 ^ 8.
Proof. apply Z.mod_pos_bound. lia. Qed.
Lemma u16_range x : 0 <= u16 x < 2 ^ 16.
Proof. apply Z.mod_pos_bound. lia. Qed.
Lemma u32_range x : 0 <= u32 x < 2 ^ 32.
Proof. apply Z.mod_pos_bound. lia. Qed.
Lemma u64_range x : 0 <= u64 x < 2 ^ 64.
Proof. apply Z.mod_pos_bound. lia. Qed.
Lemma s32_small x : - 2 ^ 31 <= x < 2 ^ 31 -> s32 x = x.
Proof. intros. unfold s32. rewrite Z.mod_small; lia. Qed.
End words.

(** A byte, and a sequence of bytes. *)
Definition is_byte (b : Z) : Prop := 0 <= b < 256.
Definition bytes (l : list Z) : Prop := Forall is_byte l.

Lemma bytes_app l k : bytes (l ++ k) <-> bytes l /\ bytes k.
Proof. apply Forall_app. Qed.
Lemma bytes_take n l : bytes l -> bytes (take n l).
Proof. apply Forall_take. Qed.
Lemma bytes_drop n l : bytes l -> bytes (drop n l).
Proof. apply Forall_drop. Qed.

Lemma bytes_rev l : bytes l -> bytes (rev l).
Proof. apply Forall_rev. Qed.

(** ** Integers in memory *)
Fixpoint le_bytes (n : nat) (v : Z) : list Z :=
  match n with
  | O => []
  | S n => v mod 256 :: le_bytes n (v / 256)
  end.

Fixpoint le_val (l : list Z) : Z :=
  match l with
  | [] => 0
  | b :: l => b + 256 * le_val l
  end.

Definition be_bytes (n : nat) (v : Z) : list Z := rev (le_bytes n v).
Definition be_val (l : list Z) : Z := le_val (rev l).

Lemma length_le_bytes n v : length (le_bytes n v) = n.
Proof. revert v; induction n; cbn; auto. Qed.
Lemma length_be_bytes n v : length (be_bytes n v) = n.
Proof. unfold be_bytes. rewrite length_rev. apply length_le_bytes. Qed.

Lemma bytes_le_bytes n v : bytes (le_bytes n v).
Proof.
  revert v; induction n; cbn; constructor; [|apply IHn].
  apply Z.mod_pos_bound. lia.
Qed.
Lemma bytes_be_bytes n v : bytes (be_bytes n v).
Proof. apply Forall_rev, bytes_le_bytes. Qed.

Lemma le_val_bytes n v : le_val (le_bytes n v) = v mod 256 ^ Z.of_nat n.
Proof.
  revert v; induction n as [|n IH]; intros v; cbn [le_bytes le_val].
  - cbn. rewrite Z.mod_1_r. reflexivity.
  - rewrite IH, Nat2Z.inj_succ, Z.pow_succ_r by lia.
    rewrite Z.rem_mul_r; lia.
Qed.

Lemma be_val_bytes n v : be_val (be_bytes n v) = v mod 256 ^ Z.of_nat n.
Proof. unfold be_val, be_bytes. rewrite rev_involutive. apply le_val_bytes. Qed.

Lemma le_val_range l : bytes l -> 0 <= le_val l < 256 ^ Z.of_nat (length l).
Proof.
  induction 1 as [|b l Hb Hl IH]; [cbn; lia|].
  cbn [le_val length]. rewrite Nat2Z.inj_succ, Z.pow_succ_r by lia.
  unfold is_byte in Hb. nia.
Qed.

Lemma be_val_range l : bytes l -> 0 <= be_val l < 256 ^ Z.of_nat (length l).
Proof.
  intros H. unfold be_val. rewrite <- (length_rev l).
  apply le_val_range, Forall_rev, H.
Qed.

Lemma le_bytes_val l : bytes l -> le_bytes (length l) (le_val l) = l.
Proof.
  induction 1 as [|b l Hb Hl IH]; [reflexivity|].
  cbn [le_val length le_bytes]. unfold is_byte in Hb.
  rewrite (Z.mul_comm 256), Z.mod_add, Z.mod_small, Z.div_add, Z.div_small by lia.
  rewrite Z.add_0_l, IH. reflexivity.
Qed.

Lemma be_bytes_val l : bytes l -> be_bytes (length l) (be_val l) = l.
Proof.
  intros H. unfold be_bytes, be_val.
  rewrite <- (length_rev l), le_bytes_val by apply Forall_rev, H.
  apply rev_involutive.
Qed.

(** [byte_db] proves that what is built from bytes is bytes. *)
Lemma bytes_nil : bytes [].
Proof. constructor. Qed.
Lemma bytes_cons b l : is_byte b -> bytes l -> bytes (b :: l).
Proof. by constructor. Qed.
Lemma bytes_join l k : bytes l -> bytes k -> bytes (l ++ k).
Proof. intros. by apply bytes_app. Qed.
Create HintDb byte_db.
#[export] Hint Resolve bytes_nil bytes_cons bytes_join bytes_take bytes_drop bytes_rev
  bytes_le_bytes bytes_be_bytes : byte_db.

(** Lists taken two elements at a time. *)
Lemma pairs_ind {A} (P : list A -> Prop) :
  P [] -> (forall a, P [a]) -> (forall a b l, P l -> P (a :: b :: l)) -> forall l, P l.
Proof.
  intros H0 H1 H2. fix IH 1. intros [|a [|b l]]; [exact H0|apply H1|apply H2, IH].
Qed.

(** ** Byte memory

    An object of [length m] bytes. [load] and [store] fail outside it. *)
Definition slice {A} (off n : Z) (m : list A) : list A :=
  take (Z.to_nat n) (drop (Z.to_nat off) m).

Definition inside {A} (m : list A) (off n : Z) : bool :=
  (0 <=? off) && (0 <=? n) && (off + n <=? Z.of_nat (length m)).

Definition load {A} (m : list A) (off n : Z) : option (list A) :=
  if inside m off n then Some (slice off n m) else None.

Definition splice {A} (m : list A) (off : Z) (bs : list A) : list A :=
  take (Z.to_nat off) m ++ bs ++ drop (Z.to_nat off + length bs) m.

Definition store {A} (m : list A) (off : Z) (bs : list A) : option (list A) :=
  if inside m off (Z.of_nat (length bs)) then Some (splice m off bs) else None.

(** [m[i]] *)
Definition get {A} (m : list A) (i : Z) : option A :=
  if i <? 0 then None else m !! Z.to_nat i.

Section memory.
Context {A : Type}.
Implicit Types m bs : list A.

Lemma inside_spec m off n :
  inside m off n = true <-> 0 <= off /\ 0 <= n /\ off + n <= Z.of_nat (length m).
Proof. unfold inside. rewrite !andb_true_iff, !Z.leb_le. tauto. Qed.

Lemma load_Some m off n :
  0 <= off -> 0 <= n -> off + n <= Z.of_nat (length m) ->
  load m off n = Some (slice off n m).
Proof.
  intros. unfold load. destruct (inside m off n) eqn:E; [reflexivity|].
  assert (inside m off n = true) by (apply inside_spec; lia). congruence.
Qed.

Lemma store_Some m off bs :
  0 <= off -> off + Z.of_nat (length bs) <= Z.of_nat (length m) ->
  store m off bs = Some (splice m off bs).
Proof.
  intros. unfold store.
  destruct (inside m off (Z.of_nat (length bs))) eqn:E; [reflexivity|].
  assert (inside m off (Z.of_nat (length bs)) = true) by (apply inside_spec; lia).
  congruence.
Qed.

Lemma length_splice m off bs :
  0 <= off -> off + Z.of_nat (length bs) <= Z.of_nat (length m) ->
  length (splice m off bs) = length m.
Proof.
  intros. unfold splice. rewrite !length_app, length_take, length_drop. lia.
Qed.

Lemma length_slice m off n :
  0 <= off -> 0 <= n -> off + n <= Z.of_nat (length m) ->
  Z.of_nat (length (slice off n m)) = n.
Proof. intros. unfold slice. rewrite length_take, length_drop. lia. Qed.

Lemma slice_splice_same m off bs :
  0 <= off -> off + Z.of_nat (length bs) <= Z.of_nat (length m) ->
  slice off (Z.of_nat (length bs)) (splice m off bs) = bs.
Proof.
  intros. unfold slice, splice. rewrite Nat2Z.id.
  rewrite drop_app_length' by (rewrite length_take; lia).
  apply take_app_length'. reflexivity.
Qed.

(** A store leaves what is before it and what is behind it as it was. *)
Lemma slice_splice_disjoint m off bs o n :
  0 <= off -> off + Z.of_nat (length bs) <= Z.of_nat (length m) ->
  0 <= o -> 0 <= n -> o + n <= off \/ off + Z.of_nat (length bs) <= o ->
  slice o n (splice m off bs) = slice o n m.
Proof.
  intros Hoff Hlen Ho Hn Hd. unfold slice.
  apply list_eq. intros i.
  destruct (decide (i < Z.to_nat n)%nat) as [Hi|Hi].
  2:{ rewrite !lookup_take_ge by lia. reflexivity. }
  rewrite !lookup_take_lt by lia. rewrite !lookup_drop.
  unfold splice. destruct Hd as [Hd|Hd].
  - rewrite lookup_app_l by (rewrite length_take; lia).
    rewrite lookup_take_lt by lia. reflexivity.
  - rewrite lookup_app_r by (rewrite length_take; lia).
    rewrite length_take, lookup_app_r by lia. rewrite lookup_drop.
    f_equal. lia.
Qed.

Lemma slice_app m o n1 n2 :
  0 <= o -> 0 <= n1 -> 0 <= n2 ->
  slice o (n1 + n2) m = slice o n1 m ++ slice (o + n1) n2 m.
Proof.
  intros. unfold slice.
  replace (Z.to_nat (n1 + n2)) with (Z.to_nat n1 + Z.to_nat n2)%nat by lia.
  rewrite <- take_take_drop, drop_drop. do 3 f_equal. lia.
Qed.

Lemma slice_slice m o1 n1 o2 n2 :
  0 <= o1 -> 0 <= o2 -> 0 <= n2 -> o2 + n2 <= n1 ->
  slice o2 n2 (slice o1 n1 m) = slice (o1 + o2) n2 m.
Proof.
  intros. unfold slice.
  apply list_eq. intros i.
  destruct (decide (i < Z.to_nat n2)%nat).
  2:{ rewrite !lookup_take_ge by lia. reflexivity. }
  rewrite !lookup_take_lt by lia. rewrite !lookup_drop.
  rewrite lookup_take_lt by lia. rewrite lookup_drop. f_equal. lia.
Qed.

Lemma get_Some m i : 0 <= i < Z.of_nat (length m) -> exists a, get m i = Some a.
Proof.
  intros. unfold get. destruct (Z.ltb_spec i 0); [lia|].
  apply lookup_lt_is_Some. lia.
Qed.

Lemma get_lt m i a : get m i = Some a -> 0 <= i < Z.of_nat (length m).
Proof.
  unfold get. destruct (Z.ltb_spec i 0); [discriminate|].
  intros ?%lookup_lt_Some. lia.
Qed.

Lemma get_app_r m1 m2 i :
  Z.of_nat (length m1) <= i -> get (m1 ++ m2) i = get m2 (i - Z.of_nat (length m1)).
Proof.
  intros. unfold get. destruct (Z.ltb_spec i 0); [lia|].
  destruct (Z.ltb_spec (i - Z.of_nat (length m1)) 0); [lia|].
  rewrite lookup_app_r by lia. f_equal. lia.
Qed.

Lemma get_app_l m1 m2 i :
  i < Z.of_nat (length m1) -> get (m1 ++ m2) i = get m1 i.
Proof.
  intros. unfold get. destruct (Z.ltb_spec i 0); [reflexivity|].
  apply lookup_app_l. lia.
Qed.

Lemma get_cons_0 a m : get (a :: m) 0 = Some a.
Proof. reflexivity. Qed.

Lemma get_cons_succ a m i : 0 < i -> get (a :: m) i = get m (i - 1).
Proof.
  intros. unfold get. destruct (Z.ltb_spec i 0); [lia|].
  destruct (Z.ltb_spec (i - 1) 0); [lia|].
  replace (Z.to_nat i) with (S (Z.to_nat (i - 1))) by lia. reflexivity.
Qed.
Lemma get_app_here m1 a m2 : get (m1 ++ a :: m2) (zlen m1) = Some a.
Proof. rewrite get_app_r by lia. by rewrite Z.sub_diag. Qed.

Lemma get_app_at m1 i a m2 : i = zlen m1 -> get (m1 ++ a :: m2) i = Some a.
Proof. intros ->. apply get_app_here. Qed.

Lemma get_drop m i a : get m i = Some a <-> 0 <= i /\ exists m', drop (Z.to_nat i) m = a :: m'.
Proof.
  unfold get. destruct (Z.ltb_spec i 0); [naive_solver lia|]. split.
  - intros H'. split; [lia|]. eexists. by apply drop_S.
  - intros (_ & m' & E). rewrite <- (Nat.add_0_r (Z.to_nat i)), <- lookup_drop. by rewrite E.
Qed.

(** The front of a memory after a store that ends there. *)
Lemma take_splice m off bs :
  0 <= off -> off + zlen bs <= zlen m ->
  take (Z.to_nat (off + zlen bs)) (splice m off bs) = take (Z.to_nat off) m ++ bs.
Proof.
  intros. unfold splice. rewrite app_assoc. apply take_app_length'. llia.
Qed.

Lemma take_splice_before m off bs n :
  0 <= off -> (n <= Z.to_nat off)%nat -> off <= zlen m -> take n (splice m off bs) = take n m.
Proof.
  intros. unfold splice. rewrite take_app_le by llia. rewrite take_take. f_equal. lia.
Qed.

Lemma splice_splice_adj m off b1 b2 :
  0 <= off -> off + zlen b1 + zlen b2 <= zlen m ->
  splice (splice m off b1) (off + zlen b1) b2 = splice m off (b1 ++ b2).
Proof.
  intros. unfold splice at 1. rewrite take_splice by lia. unfold splice.
  rewrite <- !app_assoc. do 3 f_equal.
  rewrite (app_assoc (take _ m)), drop_app_ge by llia. rewrite drop_drop. f_equal. llia.
Qed.

Lemma splice_nil m off : 0 <= off <= zlen m -> splice m off [] = m.
Proof. intros. unfold splice; cbn. rewrite Nat.add_0_r. apply take_drop. Qed.

Lemma splice_app m1 m2 off bs :
  0 <= off -> off + zlen bs <= zlen m1 -> splice (m1 ++ m2) off bs = splice m1 off bs ++ m2.
Proof.
  intros. unfold splice. rewrite take_app_le, drop_app_le by lia. by rewrite <- !app_assoc.
Qed.

(** Replacing the middle of a memory. *)
Lemma splice_mid m1 old m2 bs :
  length bs = length old -> splice (m1 ++ old ++ m2) (zlen m1) bs = m1 ++ bs ++ m2.
Proof.
  intros E. unfold splice. rewrite Nat2Z.id, take_app_length.
  do 2 f_equal. rewrite app_assoc. apply drop_app_length'. llia.
Qed.
End memory.

Lemma get_byte m i b : bytes m -> get m i = Some b -> is_byte b.
Proof.
  intros Hm. unfold get. destruct (i <? 0); [discriminate|].
  intros H. eapply Forall_lookup_1 in H; eauto.
Qed.
