(* ===== verification/Handlers.v ===== *)
(** * Stateful code

    C functions that work on a shared state are programs [prog S A]: they take
    the state and return a result and the new state, or fail ([cres]). [wp]
    states that a program returns and what then holds; each rule strips one call
    off a program. *)
From stdpp Require Import base list.
From S2P Require Import Prelude.
Local Open Scope Z_scope.

Definition prog (S A : Type) : Type := S -> cres (A * S).
#[global] Instance prog_ret S : MRet (prog S) := fun A a w => Ret (a, w).
#[global] Instance prog_bind S : MBind (prog S) := fun A B f m w => '(a, w) ← m w; f a w.

Section programs.
Context {S : Type}.

Definition lift {A} (x : cres A) : prog S A := fun w => a ← x; Ret (a, w).
Definition ASSERT (b : bool) : prog S unit := lift (assert b).
Definition when (b : bool) (m : prog S unit) : prog S unit := if b then m else mret tt.
Definition gets {A} (f : S -> A) : prog S A := fun w => Ret (f w, w).
Definition sets (f : S -> S) : prog S unit := fun w => Ret (tt, f w).

Definition wp {A} (m : prog S A) (w : S) (Q : A -> S -> Prop) : Prop := exists a w', m w = Ret (a, w') /\ Q a w'.
Lemma wp_ret {A} (a : A) w (Q : A -> S -> Prop) : Q a w -> wp (mret a) w Q.
Proof. intros H. by exists a, w. Qed.
Lemma wp_bind {A B} (m : prog S A) (k : A -> prog S B) w Q : wp m w (fun a w' => wp (k a) w' Q) -> wp (m ≫= k) w Q.
Proof.
  intros (a & w' & E & b & w2 & E2 & H). exists b, w2. split; [|done]. unfold mbind, prog_bind. by rewrite E.
Qed.
Lemma wp_mono {A} (m : prog S A) w (Q Q' : A -> S -> Prop) : wp m w Q -> (forall a w', Q a w' -> Q' a w') -> wp m w Q'.
Proof. intros (a & w' & E & H) HQ. exists a, w'. auto. Qed.
Lemma wp_ASSERT b w (Q : unit -> S -> Prop) : b = true -> Q tt w -> wp (ASSERT b) w Q.
Proof. intros -> H. by exists tt, w. Qed.
Lemma wp_some {A} (x : option A) a w (Q : A -> S -> Prop) : x = Some a -> Q a w -> wp (lift (of_option x)) w Q.
Proof. intros -> H. by exists a, w. Qed.
Lemma wp_gets {A} (f : S -> A) w (Q : A -> S -> Prop) : Q (f w) w -> wp (gets f) w Q.
Proof. intros H. by exists (f w), w. Qed.
Lemma wp_sets f w (Q : unit -> S -> Prop) : Q tt (f w) -> wp (sets f) w Q.
Proof. intros H. by exists tt, (f w). Qed.
Lemma wp_when b m w (Q : unit -> S -> Prop) : (b = true -> wp m w Q) -> (b = false -> Q tt w) -> wp (when b m) w Q.
Proof. intros H1 H2. destruct b; [by apply H1|]. apply wp_ret. by apply H2. Qed.
Lemma wp_when_true b m w (Q : unit -> S -> Prop) : b = true -> wp m w Q -> wp (when b m) w Q.
Proof. by intros ->. Qed.
Lemma wp_when_false b m w (Q : unit -> S -> Prop) : b = false -> Q tt w -> wp (when b m) w Q.
Proof. intros ->. apply wp_ret. Qed.
Lemma wp_noop {A} (m : prog S A) a w (Q : A -> S -> Prop) : m w = Ret (a, w) -> Q a w -> wp m w Q.
Proof. intros E H. by exists a, w. Qed.
(** A program that ignores the result of another. *)
Lemma wp_unit {A} (m : prog S A) w (Q : unit -> S -> Prop) : wp m w (fun _ w' => Q tt w') -> wp (_ ← m; mret tt) w Q.
Proof. intros H. apply wp_bind. eapply wp_mono; [exact H|]. intros ? ? HQ. by apply wp_ret. Qed.
End programs.
