(* ===== verification/ChunkBuffer2.v ===== *)
(** * structure/ChunkBuffer2.h: the circular packet buffer of tun2socks

    The buffer is an array of [int] blocks. A packet is one header block that
    holds its length, followed by the blocks of its data; a packet is never
    split, so the writer wraps to the front when a packet of MTU size no longer
    fits behind the last one. The memory is kept as bytes, little-endian, as
    the build sets [BADVPN_LITTLE_ENDIAN]; pointers into it are byte offsets
    and NULL is [None]. [inv] relates a buffer to the queue of packets it
    holds, and the theorems show that submit and consume are enqueue and
    dequeue on that queue. *)
From S2P Require Import Prelude.

(** misc/balign.h *)
Definition bdivide_up (a b : Z) : Z :=
  let r := a mod b in
  if 0 <? r then a / b + 1 else a / b.

Lemma bdivide_up_spec a :
  0 <= a -> 4 * bdivide_up a 4 - 4 < a <= 4 * bdivide_up a 4 /\ 0 <= bdivide_up a 4.
Proof.
  intros. unfold bdivide_up. pose proof (Z.div_mod a 4).
  pose proof (Z.mod_pos_bound a 4). destruct (Z.ltb_spec 0 (a mod 4)); lia.
Qed.

Module ChunkBuffer2.

(** [sizeof(struct ChunkBuffer2_block)], with [struct ChunkBuffer2_block] one [int]. *)
Definition block_size : Z := 4.
Definition INT_MAX : Z := 2 ^ 31 - 1.

Record ChunkBuffer2 := mkChunkBuffer2 {
  buffer : list Z;
  size : Z;
  wrap : Z;
  start : Z;
  used : Z;
  mtu : Z;
  input_dest : option Z;
  input_avail : Z;
  output_dest : option Z;
  output_avail : Z;
}.

Definition set_buffer (b : ChunkBuffer2) (m : list Z) : ChunkBuffer2 :=
  mkChunkBuffer2 m (size b) (wrap b) (start b) (used b) (mtu b)
    (input_dest b) (input_avail b) (output_dest b) (output_avail b).
Definition set_pos (b : ChunkBuffer2) (w s u : Z) : ChunkBuffer2 :=
  mkChunkBuffer2 (buffer b) (size b) w s u (mtu b)
    (input_dest b) (input_avail b) (output_dest b) (output_avail b).
Definition set_input (b : ChunkBuffer2) (d : option Z) (a : Z) : ChunkBuffer2 :=
  mkChunkBuffer2 (buffer b) (size b) (wrap b) (start b) (used b) (mtu b)
    d a (output_dest b) (output_avail b).
Definition set_output (b : ChunkBuffer2) (d : option Z) (a : Z) : ChunkBuffer2 :=
  mkChunkBuffer2 (buffer b) (size b) (wrap b) (start b) (used b) (mtu b)
    (input_dest b) (input_avail b) d a.

(** [buf->buffer[i].len] *)
Definition block_len (m : list Z) (i : Z) : cres Z :=
  bs ← of_option (load m (block_size * i) block_size); Ret (s32 (le_val bs)).

(** [buf->buffer[i].len = len] *)
Definition set_block_len (m : list Z) (i len : Z) : cres (list Z) :=
  of_option (store m (block_size * i) (le_bytes 4 len)).

Definition end_ (b : ChunkBuffer2) : Z :=
  if wrap b - start b <=? used b then used b - (wrap b - start b)
  else start b + used b.

Definition assert_buffer (b : ChunkBuffer2) : bool :=
  (0 <? size b) && (0 <? wrap b) && (wrap b <=? size b) && (0 <=? start b) &&
  (start b <? wrap b) && (0 <=? used b) && (used b <=? wrap b) &&
  ((wrap b =? size b) || (wrap b - start b <=? used b)) && (0 <=? mtu b).

(** The input pointer and length [_ChunkBuffer2_update_input] computes. *)
Definition input_of (b : ChunkBuffer2) : option Z * Z :=
  let e := end_ b in
  if size b - e - 1 <? mtu b then (None, -1)
  else
    let free := if wrap b - start b <=? used b then start b - e else size b - e in
    if 0 <? free then (Some (block_size * (e + 1)), s32 ((free - 1) * block_size))
    else (None, -1).

Definition update_input (b : ChunkBuffer2) : ChunkBuffer2 :=
  let '(d, a) := input_of b in set_input b d a.

Definition update_output (b : ChunkBuffer2) : cres ChunkBuffer2 :=
  if 0 <? used b then
    datalen ← block_len (buffer b) (start b);
    Ret (set_output b (Some (block_size * (start b + 1))) datalen)
  else Ret (set_output b None (-1)).

Definition assert_io (b : ChunkBuffer2) : cres bool :=
  let '(d, a) := input_of b in
  let in_ok := bool_decide (input_dest b = d) && (input_avail b =? a) in
  if 0 <? used b then
    datalen ← block_len (buffer b) (start b);
    let blocklen := bdivide_up datalen block_size in
    Ret (in_ok && (0 <=? datalen) && (blocklen <=? used b - 1) &&
         (blocklen <=? wrap b - start b - 1) &&
         bool_decide (output_dest b = Some (block_size * (start b + 1))) &&
         (output_avail b =? datalen))
  else
    Ret (in_ok && bool_decide (output_dest b = None) && (output_avail b =? -1)).

Definition calc_blocks (chunk_len num : Z) : Z :=
  let chunk_data_blocks := bdivide_up chunk_len block_size in
  if INT_MAX - 1 <? chunk_data_blocks then -1
  else
    let chunk_blocks := 1 + chunk_data_blocks in
    if INT_MAX - 1 <? num then -1
    else
      let num_chunks := num + 1 in
      if INT_MAX / num_chunks <? chunk_blocks then -1
      else chunk_blocks * num_chunks.

Definition Init (m : list Z) (blocks mtu_ : Z) : cres ChunkBuffer2 :=
  let b := mkChunkBuffer2 m blocks blocks 0 0 (bdivide_up mtu_ block_size)
             None 0 None 0 in
  update_output (update_input b).

Definition SubmitPacket (b : ChunkBuffer2) (len : Z) : cres ChunkBuffer2 :=
  let e := end_ b in
  let blocklen := bdivide_up len block_size in
  m ← set_block_len (buffer b) e len;
  let b := set_buffer b m in
  let b := set_pos b (wrap b) (start b) (used b + (1 + blocklen)) in
  let b :=
    if (used b <=? wrap b - start b) && (size b - (e + 1 + blocklen) - 1 <? mtu b)
    then set_pos b (e + 1 + blocklen) (start b) (used b) else b in
  let b := update_input b in
  if used b =? 1 + blocklen then update_output b else Ret b.

Definition ConsumePacket (b : ChunkBuffer2) : cres ChunkBuffer2 :=
  datalen ← block_len (buffer b) (start b);
  let blocklen := bdivide_up datalen block_size in
  let data_wrapped := wrap b - start b <=? used b in
  let b := set_pos b (wrap b) (start b + (1 + blocklen)) (used b - (1 + blocklen)) in
  let b := if start b =? wrap b then set_pos b (size b) 0 (used b) else b in
  let b := if data_wrapped then update_input b else b in
  update_output b.

(** What the producer does between the two: it writes its packet where
    [input_dest] points. *)
Definition write_input (b : ChunkBuffer2) (data : list Z) : cres ChunkBuffer2 :=
  match input_dest b with
  | None => Undef
  | Some d => m ← of_option (store (buffer b) d data); Ret (set_buffer b m)
  end.

(** What the consumer reads. *)
Definition read_output (b : ChunkBuffer2) : cres (list Z) :=
  match output_dest b with
  | None => Undef
  | Some d => of_option (load (buffer b) d (output_avail b))
  end.

(** ** The queue a buffer stands for *)

(** Blocks a packet occupies. *)
Definition blocks_of (p : list Z) : Z := 1 + bdivide_up (Z.of_nat (length p)) block_size.

(** Packets [ps] lie one behind the other from block [pos] up to block [e],
    each beginning where a packet of MTU size still fits ([pos <= lim]). *)
Fixpoint seg (m : list Z) (lim pos : Z) (ps : list (list Z)) (e : Z) : Prop :=
  match ps with
  | [] => pos = e
  | p :: ps =>
      0 <= pos <= lim /\ pos + blocks_of p <= e /\
      block_len m pos = Ret (Z.of_nat (length p)) /\
      slice (block_size * (pos + 1)) (Z.of_nat (length p)) m = p /\
      seg m lim (pos + blocks_of p) ps e
  end.

Definition lim_of (b : ChunkBuffer2) : Z := size b - 1 - mtu b.

(** Not wrapped: the packets lie between [start] and the end. *)
Definition rep_flat (b : ChunkBuffer2) (ps : list (list Z)) : Prop :=
  used b < wrap b - start b /\ wrap b = size b /\
  start b + used b <= lim_of b /\
  seg (buffer b) (lim_of b) (start b) ps (start b + used b).

(** Wrapped: the first packets lie between [start] and [wrap], the others at
    the front, below [start]. *)
Definition rep_wrapped (b : ChunkBuffer2) (ps : list (list Z)) : Prop :=
  exists p1 p2 e,
    ps = p1 ++ p2 /\ p1 <> [] /\
    used b = wrap b - start b + e /\ 0 <= e <= start b /\
    size b - mtu b <= wrap b <= size b /\
    seg (buffer b) (lim_of b) (start b) p1 (wrap b) /\
    seg (buffer b) (lim_of b) 0 p2 e.

Record inv (b : ChunkBuffer2) (ps : list (list Z)) : Prop := mkInv {
  inv_size : 0 < size b /\ block_size * size b <= INT_MAX;
  inv_mem : Z.of_nat (length (buffer b)) = block_size * size b;
  inv_mtu : 0 <= mtu b /\ mtu b + 1 <= size b;
  inv_start : 0 <= start b /\ 0 <= used b;
  inv_rep : rep_flat b ps \/ rep_wrapped b ps;
  inv_in : (input_dest b, input_avail b) = input_of b;
  inv_out : match ps with
            | [] => output_dest b = None /\ output_avail b = -1
            | p :: _ => output_dest b = Some (block_size * (start b + 1)) /\
                        output_avail b = Z.of_nat (length p)
            end;
}.

(** ** Layout lemmas *)

Lemma blocks_of_bounds p :
  1 <= blocks_of p /\
  4 * (blocks_of p - 2) < Z.of_nat (length p) <= 4 * (blocks_of p - 1).
Proof.
  unfold blocks_of, block_size.
  pose proof (bdivide_up_spec (Z.of_nat (length p))). lia.
Qed.

Lemma seg_le m lim pos ps e : seg m lim pos ps e -> pos <= e.
Proof.
  revert pos; induction ps as [|p ps IH]; intros pos; cbn; [lia|].
  intros (_ & _ & _ & _ & H%IH). pose proof (blocks_of_bounds p). lia.
Qed.

Lemma seg_head_le m lim pos ps e : ps <> [] -> seg m lim pos ps e -> pos <= lim.
Proof. destruct ps; cbn; [done|lia]. Qed.

Lemma seg_snoc m lim pos ps e p :
  0 <= pos ->
  seg m lim pos ps e -> e <= lim -> block_len m e = Ret (Z.of_nat (length p)) ->
  slice (block_size * (e + 1)) (Z.of_nat (length p)) m = p ->
  seg m lim pos (ps ++ [p]) (e + blocks_of p).
Proof.
  revert pos; induction ps as [|q ps IH]; intros pos Hp; cbn.
  - intros -> ???. repeat split; auto; lia.
  - intros (? & ? & ? & ? & H) ???.
    pose proof (blocks_of_bounds p). pose proof (blocks_of_bounds q).
    repeat split; auto; try lia.
    apply IH; auto. lia.
Qed.

(** Storing outside the blocks of a segment leaves it as it was. *)
Lemma seg_splice m lim pos ps e off bs :
  0 <= pos -> 0 <= off -> off + Z.of_nat (length bs) <= Z.of_nat (length m) ->
  block_size * e <= Z.of_nat (length m) ->
  off + Z.of_nat (length bs) <= block_size * pos \/ block_size * e <= off ->
  seg m lim pos ps e -> seg (splice m off bs) lim pos ps e.
Proof.
  unfold block_size. intros Hp Ho Hb He Hd. revert pos Hp Hd.
  induction ps as [|p ps IH]; intros pos Hp Hd; cbn [seg]; [done|].
  intros (? & Hle & Hlen & Hsl & H).
  pose proof (blocks_of_bounds p). pose proof (seg_le _ _ _ _ _ H).
  repeat split; try lia.
  - rewrite <- Hlen. unfold block_len, block_size.
    rewrite !load_Some by (rewrite ?length_splice by lia; lia).
    rewrite slice_splice_disjoint by lia. reflexivity.
  - rewrite <- Hsl at 2. unfold block_size. apply slice_splice_disjoint; lia.
  - apply IH; auto; lia.
Qed.

Lemma set_block_len_ok m i len :
  0 <= i -> block_size * (i + 1) <= Z.of_nat (length m) ->
  set_block_len m i len = Ret (splice m (block_size * i) (le_bytes 4 len)).
Proof.
  unfold block_size. intros. unfold set_block_len, block_size.
  rewrite store_Some; [reflexivity|lia|rewrite length_le_bytes; lia].
Qed.

Lemma block_len_same m i len :
  0 <= i -> block_size * (i + 1) <= Z.of_nat (length m) -> 0 <= len <= INT_MAX ->
  block_len (splice m (block_size * i) (le_bytes 4 len)) i = Ret len.
Proof.
  unfold block_size, INT_MAX. intros. unfold block_len, block_size.
  rewrite load_Some by
    (rewrite ?length_splice by (rewrite ?length_le_bytes; lia); lia).
  cbn [of_option]. rewrite bind_Ret.
  replace 4 with (Z.of_nat (length (le_bytes 4 len))) at 2
    by (rewrite length_le_bytes; reflexivity).
  rewrite slice_splice_same by (rewrite ?length_le_bytes; lia).
  rewrite le_val_bytes. change (256 ^ Z.of_nat 4) with (2 ^ 32).
  rewrite Z.mod_small, s32_small by lia. reflexivity.
Qed.

(** What [inv] says about the geometry of the free space. *)
Lemma inv_end b ps :
  inv b ps ->
  0 <= end_ b <= lim_of b /\
  (used b < wrap b - start b -> end_ b = start b + used b) /\
  (wrap b - start b <= used b -> end_ b = used b - (wrap b - start b) /\ end_ b <= start b).
Proof.
  intros [? ? ? ? Hr _ _]. unfold end_.
  destruct (Z.leb_spec (wrap b - start b) (used b)) as [H|H].
  - destruct Hr as [(? & _)|(p1 & p2 & e & -> & Hne & Hu & He & Hw & H1 & H2)]; [lia|].
    pose proof (seg_head_le _ _ _ _ _ Hne H1). lia.
  - destruct Hr as [(? & ? & ? & _)|(p1 & p2 & e & -> & Hne & Hu & He & _)]; lia.
Qed.

Lemma rep_nonempty b ps :
  inv b ps -> ps <> [] ->
  exists p ps', ps = p :: ps' /\ 0 < used b /\ 0 <= start b <= lim_of b /\
    blocks_of p <= used b /\ blocks_of p <= wrap b - start b /\ wrap b <= size b /\
    block_len (buffer b) (start b) = Ret (Z.of_nat (length p)) /\
    slice (block_size * (start b + 1)) (Z.of_nat (length p)) (buffer b) = p.
Proof.
  intros [? ? ? ? Hr _ _] Hne. destruct ps as [|p ps]; [done|].
  exists p, ps. pose proof (blocks_of_bounds p).
  destruct Hr as [(? & ? & ? & Hs)|(p1 & p2 & e & Hps & Hne1 & Hu & He & Hw & H1 & H2)].
  - cbn in Hs. destruct Hs as (? & ? & ? & ? & _). repeat split; auto; lia.
  - destruct p1 as [|q p1]; [done|]. cbn in Hps. injection Hps as <- ->.
    cbn in H1. destruct H1 as (? & ? & ? & ? & _). repeat split; auto; lia.
Qed.

Lemma rep_empty b : inv b [] -> used b = 0 /\ start b <= lim_of b.
Proof.
  intros [? ? ? ? Hr _ _].
  destruct Hr as [(? & ? & ? & Hs)|(p1 & p2 & e & Hps & Hne1 & _)]; [cbn in Hs; lia|].
  destruct p1; [done|discriminate].
Qed.

(** ** Initialisation *)

Lemma Init_inv m blocks mtu_ :
  0 < blocks -> block_size * blocks <= INT_MAX ->
  Z.of_nat (length m) = block_size * blocks ->
  0 <= mtu_ -> bdivide_up mtu_ block_size + 1 <= blocks ->
  exists b, Init m blocks mtu_ = Ret b /\ inv b [] /\
    size b = blocks /\ mtu b = bdivide_up mtu_ block_size.
Proof.
  intros Hb Hi Hm Hmtu Hfit. pose proof (bdivide_up_spec mtu_ Hmtu) as Hd.
  unfold Init, update_input.
  destruct (input_of _) as [d a] eqn:Ein. eexists. split; [reflexivity|].
  split; [|done]. unfold block_size in *.
  split; cbn; try lia; try done.
  left. unfold rep_flat, lim_of; cbn. lia.
Qed.

(** ** Enqueue *)

(** The input area is free: behind the last packet, below [start] when wrapped. *)
Lemma input_area b ps d :
  inv b ps -> input_dest b = Some d ->
  d = block_size * (end_ b + 1) /\
  exists free, 0 < free /\ input_avail b = (free - 1) * block_size /\
    end_ b + free <= size b /\
    (used b < wrap b - start b /\ free = size b - end_ b \/
     wrap b - start b <= used b /\ free = start b - end_ b).
Proof.
  intros Hinv Hd. pose proof (inv_end _ _ Hinv) as (He & Hflat & Hwr).
  destruct Hinv as [Hs _ Hmt Hst Hr Hin _]. rewrite Hd in Hin.
  unfold input_of in Hin. unfold INT_MAX, block_size, lim_of in *.
  destruct (Z.ltb_spec (size b - end_ b - 1) (mtu b)); [congruence|].
  destruct (Z.leb_spec (wrap b - start b) (used b)) as [Hw|Hw].
  - destruct (Z.ltb_spec 0 (start b - end_ b)) as [Hf|]; [|congruence].
    injection Hin as -> Ha. split; [done|]. exists (start b - end_ b).
    destruct Hr as [(? & _)|(p1 & p2 & e & _ & Hne & _ & _ & Hww & H1 & _)]; [lia|].
    pose proof (seg_head_le _ _ _ _ _ Hne H1). unfold lim_of in *.
    rewrite Ha, s32_small; lia.
  - destruct (Z.ltb_spec 0 (size b - end_ b)) as [Hf|]; [|congruence].
    injection Hin as -> Ha. split; [done|]. exists (size b - end_ b).
    rewrite Ha, s32_small; lia.
Qed.

(** The memory after the producer wrote [data] and submit wrote the header. *)
Definition submitted (b : ChunkBuffer2) (data : list Z) : list Z :=
  splice (splice (buffer b) (block_size * (end_ b + 1)) data)
    (block_size * end_ b) (le_bytes 4 (Z.of_nat (length data))).

Section submit.
Context (b : ChunkBuffer2) (ps : list (list Z)) (d : Z) (data : list Z).
Context (Hinv : inv b ps) (Hd : input_dest b = Some d).
Context (Hlen : Z.of_nat (length data) <= input_avail b).

Lemma submit_fits :
  0 <= end_ b /\ end_ b <= lim_of b /\ end_ b + blocks_of data <= size b /\
  (wrap b - start b <= used b -> end_ b + blocks_of data <= start b).
Proof using Hinv Hd Hlen.
  pose proof (inv_end _ _ Hinv) as (He & _).
  destruct (input_area _ _ _ Hinv Hd) as (_ & free & Hf & Ha & Hs & Hc).
  pose proof (blocks_of_bounds data). unfold block_size in *.
  assert (blocks_of data <= free) by lia. lia.
Qed.

Lemma submitted_length : length (submitted b data) = length (buffer b).
Proof using Hinv Hd Hlen.
  pose proof submit_fits. pose proof (blocks_of_bounds data).
  pose proof (inv_mem _ _ Hinv). unfold submitted, block_size in *.
  rewrite !length_splice; rewrite ?length_splice, ?length_le_bytes; lia.
Qed.

Lemma submitted_seg lim pos qs e :
  0 <= pos -> e <= size b -> end_ b + blocks_of data <= pos \/ e <= end_ b ->
  seg (buffer b) lim pos qs e -> seg (submitted b data) lim pos qs e.
Proof using Hinv Hd Hlen.
  intros Hp He Hor Hseg. pose proof submit_fits. pose proof (blocks_of_bounds data).
  pose proof (inv_mem _ _ Hinv). unfold submitted, block_size in *.
  assert (length (splice (buffer b) (4 * (end_ b + 1)) data) = length (buffer b)) as Hl
    by (apply length_splice; lia).
  apply seg_splice; rewrite ?Hl, ?length_le_bytes; unfold block_size; try lia.
  apply seg_splice; auto; unfold block_size; lia.
Qed.

Lemma submitted_packet :
  block_len (submitted b data) (end_ b) = Ret (Z.of_nat (length data)) /\
  slice (block_size * (end_ b + 1)) (Z.of_nat (length data)) (submitted b data) = data.
Proof using Hinv Hd Hlen.
  pose proof submit_fits. pose proof (blocks_of_bounds data).
  pose proof (inv_mem _ _ Hinv). pose proof (inv_size _ _ Hinv).
  unfold submitted, block_size, INT_MAX in *.
  assert (length (splice (buffer b) (4 * (end_ b + 1)) data) = length (buffer b)) as Hl
    by (apply length_splice; lia).
  split.
  - apply block_len_same; unfold block_size, INT_MAX; rewrite ?Hl; lia.
  - rewrite slice_splice_disjoint; rewrite ?Hl, ?length_le_bytes; try lia.
    apply slice_splice_same; lia.
Qed.
End submit.

Lemma update_input_fields b :
  update_input b = set_input b (fst (input_of b)) (snd (input_of b)).
Proof. unfold update_input. destruct (input_of b); reflexivity. Qed.

(** [update_output] points the consumer at the first packet. *)
Lemma update_output_ok b n :
  0 < used b -> block_len (buffer b) (start b) = Ret n ->
  update_output b = Ret (set_output b (Some (block_size * (start b + 1))) n).
Proof.
  intros Hu Hb. unfold update_output.
  destruct (Z.ltb_spec 0 (used b)); [|lia]. rewrite Hb. done.
Qed.

(** A buffer whose packets and input side are right is completed by [update_output]. *)
Lemma update_output_inv b ps sz mt :
  size b = sz -> mtu b = mt ->
  0 < size b /\ block_size * size b <= INT_MAX ->
  Z.of_nat (length (buffer b)) = block_size * size b ->
  0 <= mtu b /\ mtu b + 1 <= size b -> 0 <= start b /\ 0 <= used b ->
  rep_flat b ps \/ rep_wrapped b ps ->
  (input_dest b, input_avail b) = input_of b ->
  exists b', update_output b = Ret b' /\ inv b' ps /\ size b' = sz /\ mtu b' = mt.
Proof.
  intros <- <- Hs Hm Hmt Hst Hr Hin. destruct ps as [|p ps].
  - assert (used b = 0) as Hu.
    { destruct Hr as [(? & ? & ? & Hsg)|(p1 & ? & ? & E & Hne & _)]; [cbn in Hsg; lia|].
      destruct p1; [done|discriminate]. }
    unfold update_output. rewrite Hu. eexists; split; [reflexivity|]. split; [|done].
    split; auto.
  - assert (block_len (buffer b) (start b) = Ret (Z.of_nat (length p)) /\ 0 < used b) as [Hl Hu].
    { pose proof (blocks_of_bounds p).
      destruct Hr as [(? & ? & ? & Hsg)|(p1 & p2 & e & E & Hne & Hu & He & _ & H1 & _)].
      - cbn in Hsg. destruct Hsg as (? & ? & ? & _). split; [done|lia].
      - destruct p1 as [|q p1]; [done|]. injection E as <- ->. cbn in H1.
        destruct H1 as (? & ? & ? & _). split; [done|lia]. }
    erewrite update_output_ok by eauto. eexists; split; [reflexivity|].
    split; [|done]. split; auto.
Qed.

Lemma update_input_in b :
  (input_dest (update_input b), input_avail (update_input b)) = input_of (update_input b).
Proof.
  rewrite update_input_fields. symmetry. apply (surjective_pairing (input_of b)).
Qed.

(** The position fields submit sets. *)
Definition submit_pos (b : ChunkBuffer2) (data : list Z) : ChunkBuffer2 :=
  let u := used b + blocks_of data in
  let e := end_ b + blocks_of data in
  set_pos (set_buffer b (submitted b data))
    (if (u <=? wrap b - start b) && (size b - e - 1 <? mtu b) then e else wrap b)
    (start b) u.

Lemma submit_rep b ps d data :
  inv b ps -> input_dest b = Some d -> Z.of_nat (length data) <= input_avail b ->
  rep_flat (submit_pos b data) (ps ++ [data]) \/
  rep_wrapped (submit_pos b data) (ps ++ [data]).
Proof.
  intros Hinv Hd Hlen.
  pose proof (submit_fits b ps d data Hinv Hd Hlen) as (H0 & He & Hfit & Hfitw).
  pose proof (submitted_packet b ps d data Hinv Hd Hlen) as (Hhdr & Hdat).
  pose proof (submitted_seg b ps d data Hinv Hd Hlen) as Hseg.
  pose proof (blocks_of_bounds data) as Hbl.
  pose proof (inv_end _ _ Hinv) as (_ & Hef & Hew).
  destruct Hinv as [Hs Hm Hmt Hst Hr _ _].
  unfold submit_pos; cbn zeta.
  destruct Hr as [(Hu & Hw & Hl & Hsg)|(p1 & p2 & e & -> & Hne & Hu & Hee & Hww & H1 & H2)].
  - specialize (Hef Hu).
    assert (seg (submitted b data) (lim_of b) (start b) (ps ++ [data])
              (end_ b + blocks_of data)) as Hnew.
    { apply seg_snoc; auto; [lia|]. apply Hseg; rewrite ?Hef; auto; lia. }
    destruct (Z.leb_spec (used b + blocks_of data) (wrap b - start b)); [|lia].
    destruct (Z.ltb_spec (size b - (end_ b + blocks_of data) - 1) (mtu b)); cbn.
    + right. exists (ps ++ [data]), [], 0. unfold lim_of; cbn.
      rewrite app_nil_r. repeat split; auto; try lia.
      by destruct ps.
    + left. unfold rep_flat, lim_of; cbn.
      rewrite Hef in Hnew. rewrite Z.add_assoc. repeat split; auto; lia.
  - assert (wrap b - start b <= used b) as Hwr by lia.
    destruct (Hew Hwr) as [Hew1 Hew2]. specialize (Hfitw Hwr).
    assert (end_ b = e) as Ee by lia. rewrite Ee in *.
    destruct (Z.leb_spec (used b + blocks_of data) (wrap b - start b)); [lia|]. cbn.
    right. exists p1, (p2 ++ [data]), (e + blocks_of data). cbn.
    rewrite app_assoc. unfold lim_of in *; cbn. repeat split; auto; try lia.
    + apply Hseg; auto; lia.
    + apply seg_snoc; auto; [lia|]. apply Hseg; auto; lia.
Qed.

(** Producer and submit together, in terms of [submit_pos]. *)
Lemma submit_unfold b ps d data :
  inv b ps -> input_dest b = Some d -> Z.of_nat (length data) <= input_avail b ->
  (b1 ← write_input b data; SubmitPacket b1 (Z.of_nat (length data))) =
  let b' := update_input (submit_pos b data) in
  if used b' =? blocks_of data then update_output b' else Ret b'.
Proof.
  intros Hinv Hd Hlen.
  pose proof (submit_fits b ps d data Hinv Hd Hlen) as (H0 & He & Hfit & Hfitw).
  pose proof (blocks_of_bounds data) as Hbl.
  pose proof (inv_mem _ _ Hinv) as Hm.
  destruct (input_area _ _ _ Hinv Hd) as (-> & _).
  unfold write_input. rewrite Hd.
  rewrite store_Some by (unfold block_size in *; lia). cbn [of_option mbind cres_bind].
  unfold SubmitPacket. change (end_ (set_buffer b _)) with (end_ b).
  cbn [buffer set_buffer]. rewrite set_block_len_ok; [|lia|].
  2:{ rewrite length_splice; unfold block_size in *; lia. }
  fold (submitted b data). cbn -[update_input update_output].
  change (1 + bdivide_up (Z.of_nat (length data)) block_size) with (blocks_of data).
  unfold submit_pos.
  replace (end_ b + 1 + bdivide_up (Z.of_nat (length data)) block_size)
    with (end_ b + blocks_of data) by (unfold blocks_of; lia).
  destruct ((used b + blocks_of data <=? wrap b - start b) &&
            (size b - (end_ b + blocks_of data) - 1 <? mtu b)); reflexivity.
Qed.

Lemma used_zero_empty b ps : inv b ps -> used b = 0 <-> ps = [].
Proof.
  intros Hinv. split; [|intros ->; apply rep_empty, Hinv].
  intros Hu. destruct ps as [|p ps]; [done|].
  destruct (rep_nonempty _ _ Hinv) as (? & ? & _ & ? & _); [done|lia].
Qed.

(** Submit is enqueue: the producer's bytes become the last packet. *)
Lemma submit_enqueues b ps d data :
  inv b ps -> input_dest b = Some d -> Z.of_nat (length data) <= input_avail b ->
  exists b2, (b1 ← write_input b data; SubmitPacket b1 (Z.of_nat (length data))) = Ret b2 /\
    inv b2 (ps ++ [data]) /\ size b2 = size b /\ mtu b2 = mtu b.
Proof.
  intros Hinv Hd Hlen. rewrite (submit_unfold b ps d data) by auto. cbn zeta.
  pose proof (submit_rep b ps d data Hinv Hd Hlen) as Hrep.
  pose proof (submitted_length b ps d data Hinv Hd Hlen) as Hl.
  pose proof (blocks_of_bounds data) as Hbl. pose proof (used_zero_empty _ _ Hinv) as Hz.
  pose proof (update_input_in (submit_pos b data)) as Hin'.
  assert (used (update_input (submit_pos b data)) = used b + blocks_of data) as ->
    by (rewrite update_input_fields; done).
  destruct Hinv as [Hs Hm Hmt Hst _ _ Hout].
  destruct (Z.eqb_spec (used b + blocks_of data) (blocks_of data)) as [Hu|Hu].
  - rewrite update_input_fields in *.
    apply update_output_inv; auto; cbn; rewrite ?Hl; auto; lia.
  - eexists; split; [reflexivity|]. rewrite update_input_fields in *. split; [|done].
    split; auto; cbn; rewrite ?Hl; auto; try lia.
    destruct ps as [|p ps]; [|exact Hout]. destruct Hz as [_ Hz]. specialize (Hz eq_refl). lia.
Qed.

(** ** Dequeue *)

(** The position fields consume sets when the first packet is [p]. *)
Definition consume_pos (b : ChunkBuffer2) (p : list Z) : ChunkBuffer2 :=
  let s := start b + blocks_of p in
  let u := used b - blocks_of p in
  if s =? wrap b then set_pos b (size b) 0 u else set_pos b (wrap b) s u.

Lemma consume_rep b p ps :
  inv b (p :: ps) ->
  (rep_flat (consume_pos b p) ps \/ rep_wrapped (consume_pos b p) ps) /\
  0 <= start (consume_pos b p) /\ 0 <= used (consume_pos b p) /\
  (used b < wrap b - start b -> input_of (consume_pos b p) = input_of b).
Proof.
  intros Hinv. pose proof (blocks_of_bounds p).
  destruct Hinv as [Hs Hm Hmt Hst Hr _ _]. unfold consume_pos; cbn zeta.
  destruct Hr as [(Hu & Hw & Hl & Hsg)|(p1 & p2 & e & Hps & Hne & Hu & He & Hww & H1 & H2)].
  - cbn in Hsg. destruct Hsg as (Hp & Hle & _ & _ & Hsg). unfold lim_of in *.
    destruct (Z.eqb_spec (start b + blocks_of p) (wrap b)); [lia|]. cbn.
    repeat split; try lia.
    + left. unfold rep_flat, lim_of; cbn. repeat split; try lia.
      replace (start b + blocks_of p + (used b - blocks_of p))
        with (start b + used b) by lia. exact Hsg.
    + intros _. unfold input_of, end_; cbn.
      destruct (Z.leb_spec (wrap b - (start b + blocks_of p)) (used b - blocks_of p)),
        (Z.leb_spec (wrap b - start b) (used b)); try lia.
      replace (start b + blocks_of p + (used b - blocks_of p))
        with (start b + used b) by lia. reflexivity.
  - destruct p1 as [|q p1]; [done|]. cbn in Hps. injection Hps as <- ->.
    pose proof (seg_head_le _ _ _ _ _ Hne H1) as Hlim.
    cbn in H1. destruct H1 as (Hp & Hle & _ & _ & H1). unfold lim_of in *.
    pose proof (seg_le _ _ _ _ _ H1).
    destruct (Z.eqb_spec (start b + blocks_of p) (wrap b)) as [Heq|Hneq]; cbn.
    + assert (p1 = []) as ->.
      { destruct p1 as [|q p1]; [done|]. cbn in H1. pose proof (blocks_of_bounds q). lia. }
      repeat split; try lia. left. unfold rep_flat, lim_of; cbn.
      repeat split; try lia. replace (used b - blocks_of p) with e by lia. exact H2.
    + repeat split; try lia. right. exists p1, p2, e. unfold lim_of; cbn.
      repeat split; auto; try lia. intros ->. cbn in H1. lia.
Qed.

(** Consume is dequeue: the consumer reads the first packet, and the rest stays. *)
Lemma consume_dequeues b p ps :
  inv b (p :: ps) ->
  read_output b = Ret p /\
  exists b', ConsumePacket b = Ret b' /\ inv b' ps /\ size b' = size b /\ mtu b' = mtu b.
Proof.
  intros Hinv. destruct (rep_nonempty _ _ Hinv) as
    (p' & ps' & E & Hu & Hst & Hbu & Hbw & Hws & Hlen & Hsl); [done|].
  injection E as <- <-. destruct (consume_rep _ _ _ Hinv) as (Hrep & Hs0 & Hu0 & Hin').
  pose proof (blocks_of_bounds p) as Hbl.
  destruct Hinv as [Hs Hm Hmt _ Hr Hin [Hod Hoa]]. split.
  { unfold read_output. rewrite Hod, Hoa.
    rewrite load_Some; [cbn; by rewrite Hsl|unfold block_size in *; lia..]. }
  set (b0 := if wrap b - start b <=? used b then update_input (consume_pos b p)
             else consume_pos b p).
  assert (Hc : ConsumePacket b = update_output b0).
  { unfold ConsumePacket. rewrite Hlen, bind_Ret.
    fold (blocks_of p). unfold b0, consume_pos. cbn zeta.
    cbn [start wrap used size set_pos].
    destruct (start b + blocks_of p =? wrap b); reflexivity. }
  rewrite Hc. clear Hc.
  unfold b0. destruct (Z.leb_spec (wrap b - start b) (used b)).
  - apply update_output_inv; auto using update_input_in; rewrite update_input_fields; cbn; auto.
    all: unfold consume_pos; cbn zeta; destruct (_ =? wrap b); auto.
  - apply update_output_inv; auto.
    all: try (unfold consume_pos; cbn zeta; destruct (_ =? wrap b); by auto).
    rewrite Hin' by lia. rewrite <- Hin. unfold consume_pos; cbn zeta.
    destruct (_ =? wrap b); reflexivity.
Qed.

(** ** Capacity *)

Lemma calc_blocks_spec chunk_len num :
  0 <= chunk_len -> 0 <= num ->
  let c := 1 + bdivide_up chunk_len block_size in
  calc_blocks chunk_len num =
    if (c <=? INT_MAX) && (num + 1 <=? INT_MAX) && (c * (num + 1) <=? INT_MAX)
    then c * (num + 1) else -1.
Proof.
  intros Hc Hn. cbn zeta. unfold calc_blocks.
  pose proof (bdivide_up_spec chunk_len Hc) as Hd. unfold block_size.
  set (k := bdivide_up chunk_len 4) in *.
  destruct (Z.ltb_spec (INT_MAX - 1) k), (Z.leb_spec (1 + k) INT_MAX); try lia; [done|].
  destruct (Z.ltb_spec (INT_MAX - 1) num), (Z.leb_spec (num + 1) INT_MAX); try lia; [done|].
  cbn [andb].
  destruct (Z.ltb_spec (INT_MAX / (num + 1)) (1 + k)) as [Hlt|Hge].
  - destruct (Z.leb_spec ((1 + k) * (num + 1)) INT_MAX) as [Hle|]; [|done].
    pose proof (Z.div_le_lower_bound INT_MAX (num + 1) (1 + k)). lia.
  - destruct (Z.leb_spec ((1 + k) * (num + 1)) INT_MAX) as [|Hgt]; [done|].
    pose proof (Z.mul_div_le INT_MAX (num + 1)). nia.
Qed.

Lemma seg_blocks m lim pos ps e c :
  Forall (fun p => blocks_of p <= c) ps -> seg m lim pos ps e ->
  e - pos <= c * Z.of_nat (length ps).
Proof.
  intros H. revert pos. induction H as [|p ps Hp _ IH]; intros pos; cbn [seg].
  - intros ->. cbn. lia.
  - intros (_ & _ & _ & _ & Hs%IH). cbn [length]. lia.
Qed.

Lemma blocks_of_mono p n :
  Z.of_nat (length p) <= n -> blocks_of p <= 1 + bdivide_up n block_size.
Proof.
  intros. pose proof (blocks_of_bounds p).
  pose proof (bdivide_up_spec n). unfold block_size in *. lia.
Qed.

Lemma inv_geometry b ps :
  inv b ps -> wrap b <= size b /\ start b < wrap b /\ used b <= wrap b /\
    (wrap b = size b \/ wrap b - start b <= used b).
Proof.
  intros [Hs Hm Hmt Hst Hr _ _].
  destruct Hr as [(? & ? & ? & Hsg)|(p1 & p2 & e & -> & Hne & Hu & He & Hw & H1 & H2)];
    [lia|]. pose proof (seg_head_le _ _ _ _ _ Hne H1). unfold lim_of in *. lia.
Qed.

(** A buffer of [c * (num + 1)] blocks always takes another packet while it
    holds fewer than [num]. *)
Lemma room_for_packet b ps c num :
  inv b ps -> c = 1 + mtu b -> size b = c * (num + 1) ->
  Forall (fun p => blocks_of p <= c) ps -> Z.of_nat (length ps) < num ->
  exists d, input_dest b = Some d /\ block_size * mtu b <= input_avail b.
Proof.
  intros Hinv Hc Hsz Hall Hlen. pose proof (inv_geometry _ _ Hinv) as Hg.
  pose proof (inv_end _ _ Hinv) as (He & Hef & Hew).
  destruct Hinv as [Hs Hm Hmt Hst Hr Hin _]. unfold input_of in Hin.
  unfold lim_of, block_size, INT_MAX in *.
  destruct (Z.ltb_spec (size b - end_ b - 1) (mtu b)); [lia|].
  assert (Hfree : mtu b + 1 <=
    (if wrap b - start b <=? used b then start b - end_ b else size b - end_ b)).
  { destruct (Z.leb_spec (wrap b - start b) (used b)); [|lia].
    destruct Hr as [(? & _)|(p1 & p2 & e & -> & Hne & Hu & Hee & Hww & H1 & H2)]; [lia|].
    apply Forall_app in Hall as [Ha1 Ha2].
    apply (seg_blocks _ _ _ _ _ c Ha1) in H1. apply (seg_blocks _ _ _ _ _ c Ha2) in H2.
    rewrite length_app in Hlen. nia. }
  set (free := if wrap b - start b <=? used b then _ else _) in *.
  destruct (Z.ltb_spec 0 free); [|lia]. injection Hin as -> ->.
  eexists; split; [reflexivity|].
  assert (free <= size b) by (subst free; destruct (Z.leb_spec (wrap b - start b) (used b)); lia).
  rewrite s32_small; lia.
Qed.

(** The assertions of the debug build. *)
Lemma asserts_hold b ps : inv b ps -> assert_buffer b = true /\ assert_io b = Ret true.
Proof.
  intros Hinv. pose proof (used_zero_empty _ _ Hinv) as Hz.
  pose proof (inv_geometry _ _ Hinv) as Hg.
  split.
  - destruct Hinv as [Hs Hm Hmt Hst _ _ _].
    unfold assert_buffer. rewrite !andb_true_iff, orb_true_iff. lia.
  - unfold assert_io. destruct ps as [|p ps].
    + destruct Hinv as [_ _ _ _ _ Hin [-> ->]]. rewrite <- Hin.
      rewrite (proj2 Hz eq_refl). cbn. rewrite bool_decide_eq_true_2, Z.eqb_refl by done.
      reflexivity.
    + destruct (rep_nonempty _ _ Hinv) as (p' & ps' & E & Hu & _ & Hb1 & Hb2 & _ & Hl & _);
        [done|]. injection E as <- <-.
      destruct Hinv as [_ _ _ _ _ Hin [-> ->]]. rewrite <- Hin, Hl, bind_Ret.
      unfold blocks_of in *. destruct (Z.ltb_spec 0 (used b)); [|lia].
      rewrite !bool_decide_eq_true_2 by done.
      rewrite !(proj2 (Z.leb_le _ _)), !Z.eqb_refl by lia. reflexivity.
Qed.

(** ** The write pointer under consume

    A receive into [input_dest] may be outstanding while packets are consumed:
    the area it was promised stays where it is and does not shrink. *)
Lemma consume_end b p ps :
  inv b (p :: ps) -> end_ (consume_pos b p) = end_ b.
Proof.
  intros [Hs Hm Hmt Hst Hr _ _]. pose proof (blocks_of_bounds p).
  unfold consume_pos, end_; cbn zeta.
  destruct Hr as [(Hu & Hw & Hl & Hsg)|(p1 & p2 & e & Hps & Hne & Hu & He & Hww & H1 & H2)].
  - cbn in Hsg. destruct Hsg as (Hp & Hle & _ & _ & _). unfold lim_of in *.
    destruct (Z.eqb_spec (start b + blocks_of p) (wrap b)); [lia|]. cbn.
    zcases; lia.
  - destruct p1 as [|q p1]; [done|]. cbn in Hps. injection Hps as <- ->.
    pose proof (seg_head_le _ _ _ _ _ Hne H1) as Hlim. unfold lim_of in *.
    cbn in H1. destruct H1 as (Hp & Hle & _ & _ & H1).
    destruct (Z.eqb_spec (start b + blocks_of p) (wrap b)); cbn;
      zcases; lia.
Qed.

Lemma consume_keeps_input b p ps b' d :
  inv b (p :: ps) -> ConsumePacket b = Ret b' -> input_dest b = Some d ->
  input_dest b' = Some d /\ input_avail b <= input_avail b'.
Proof.
  intros Hinv Hc Hd. pose proof (consume_end _ _ _ Hinv) as Hend.
  pose proof (consume_rep _ _ _ Hinv) as (_ & Hs0 & Hu0 & Hin').
  destruct (consume_dequeues _ _ _ Hinv) as (_ & b2 & Hc2 & Hinv' & Hsz & Hmt).
  rewrite Hc2 in Hc. injection Hc as ->.
  destruct (input_area _ _ _ Hinv Hd) as (-> & free & Hf & Ha & Hfs & Hcase).
  pose proof (inv_end _ _ Hinv) as ((He0 & Hel) & _).
  pose proof (inv_geometry _ _ Hinv) as Hg. pose proof (inv_geometry _ _ Hinv') as Hg'.
  destruct (rep_nonempty _ _ Hinv) as (p' & ps' & E & _ & Hst & Hbu & Hbw & _ & Hlen & _); [done|].
  injection E as <- <-. pose proof (blocks_of_bounds p) as Hbl.
  assert (Hpos : start b' = start (consume_pos b p) /\ used b' = used (consume_pos b p) /\
                 wrap b' = wrap (consume_pos b p)).
  { unfold ConsumePacket in Hc2. rewrite Hlen, bind_Ret in Hc2.
    fold (blocks_of p) in Hc2. revert Hc2. unfold consume_pos, update_output. cbn zeta.
    cbn [start wrap used size set_pos].
    destruct (start b + blocks_of p =? wrap b), (wrap b - start b <=? used b);
      rewrite ?update_input_fields; cbn -[block_len]; destruct (0 <? _);
      try (intros Hc2; injection Hc2 as <-; done);
      intros (n & _ & Hc2)%bind_Ret_inv; injection Hc2 as <-; done. }
  destruct Hpos as (P1 & P2 & P3).
  assert (He' : end_ b' = end_ b).
  { rewrite <- Hend. unfold end_. rewrite P1, P2, P3. reflexivity. }
  destruct (inv_size _ _ Hinv) as [Hs1 Hs2]. destruct (inv_mtu _ _ Hinv) as [Hmt1 Hmt2].
  pose proof (inv_in _ _ Hinv') as Hin''. unfold input_of in Hin''.
  rewrite He', Hsz, Hmt in Hin''. unfold lim_of, block_size, INT_MAX in *.
  destruct (Z.ltb_spec (size b - end_ b - 1) (mtu b)); [lia|].
  set (free' := if wrap b' - start b' <=? used b' then _ else _) in *.
  assert (free <= free' <= size b).
  { subst free'. rewrite P1, P2, P3. unfold consume_pos; cbn zeta.
    destruct (Z.eqb_spec (start b + blocks_of p) (wrap b)); cbn;
      destruct (Z.leb_spec (wrap b - (start b + blocks_of p)) (used b - blocks_of p));
      destruct (Z.leb_spec (size b - 0) (used b - blocks_of p)); lia. }
  destruct (Z.ltb_spec 0 free'); [|lia]. injection Hin'' as -> ->.
  rewrite s32_small by lia. split; [done|lia].
Qed.

End ChunkBuffer2.
