(* ===== verification/Bavl.v ===== *)
(** * badvpn/structure/BAVL.h: balanced trees

    The tree is a structure of nodes in memory with links to the children and the
    parent, that programs keep their objects in. The file has three layers:
    - the code, on a heap of nodes;
    - trees and paths as data, and the cells of the heap they stand for
      ([cells], [path_cells]); the heap is described by a list of cells, of which
      the ones that do not belong to the tree are arbitrary;
    - what the tree promises: it is a sorted sequence of nodes.
    [BAVL_COUNT] is not defined in this program, so that nodes have no count. *)
From Stdlib Require Import Sorted.
From stdpp Require Import gmap.
From S2P Require Import Prelude.
Local Open Scope Z_scope.

(** What the tree relies on: the results of a comparator are -1, 0 and 1, and
    they are a total order on the values in use. *)
Class Comparator {V : Type} (ok : V -> Prop) (cmp : V -> V -> Z) : Prop := {
  cmp_range x y : cmp x y = -1 \/ cmp x y = 0 \/ cmp x y = 1;
  cmp_opp x y : cmp y x = - cmp x y;
  cmp_trans x y z : ok x -> ok y -> ok z -> cmp x y <= 0 -> cmp y z <= 0 -> cmp x z <= 0;
}.

Module Bavl.
Section code.
(** The value at [offset] from a node, and the comparator with its [user] argument. *)
Context {V : Type} (value : Z -> V) (comparator : V -> V -> Z).

(** [link[1]] is the link at [true]. The null pointer is 0. *)
Record BAVLNode := mkNode { parent : Z; link0 : Z; link1 : Z; balance : Z }.
Definition link (n : BAVLNode) (d : bool) : Z := if d then link1 n else link0 n.
Definition with_parent (p : Z) (n : BAVLNode) := mkNode p (link0 n) (link1 n) (balance n).
Definition with_link (d : bool) (c : Z) (n : BAVLNode) :=
  mkNode (parent n) (if d then link0 n else c) (if d then c else link1 n) (balance n).
Definition with_balance (b : Z) (n : BAVLNode) := mkNode (parent n) (link0 n) (link1 n) b.

(** The nodes in memory, and [root]. *)
Record BAVL := mkBAVL { heap : gmap Z BAVLNode; root : Z }.

(** Code that changes the tree. *)
Definition act (A : Type) : Type := BAVL -> cres (A * BAVL).
#[global] Instance act_ret : MRet act := fun A a o => Ret (a, o).
#[global] Instance act_bind : MBind act := fun A B f m o => '(a, o) ← m o; f a o.

Definition load (a : Z) : act BAVLNode := fun o =>
  if a =? 0 then Undef else n ← of_option (heap o !! a); Ret (n, o).
Definition store (a : Z) (f : BAVLNode -> BAVLNode) : act unit := fun o =>
  if a =? 0 then Undef else n ← of_option (heap o !! a); Ret (tt, mkBAVL (<[a := f n]> (heap o)) (root o)).
Definition get_parent (a : Z) : act Z := n ← load a; mret (parent n).
Definition get_link (a : Z) (d : bool) : act Z := n ← load a; mret (link n d).
Definition get_balance (a : Z) : act Z := n ← load a; mret (balance n).
Definition set_parent (a p : Z) : act unit := store a (with_parent p).
Definition set_link (a : Z) (d : bool) (c : Z) : act unit := store a (with_link d c).
Definition set_balance (a b : Z) : act unit := store a (with_balance b).
Definition get_root : act Z := fun o => Ret (root o, o).
Definition set_root (r : Z) : act unit := fun o => Ret (tt, mkBAVL (heap o) r).
Definition check (b : bool) : act unit := fun o => _ ← assert b; Ret (tt, o).
Definition out_of_fuel {A} : act A := fun _ => OutOfFuel.
Definition when (b : bool) (m : act unit) : act unit := if b then m else mret tt.
(** Every loop runs over different nodes. *)
Definition with_fuel {A} (f : nat -> act A) : act A := fun o => f (S (size (heap o))) o.

Definition BAVL_MAX (a b : Z) : Z := if a >? b then a else b.
Definition BAVL_OPTNEG (a : Z) (neg : bool) : Z := if neg then - a else a.
(** [int8_t] *)
Definition s8 (x : Z) : Z := (x + 2 ^ 7) mod 2 ^ 8 - 2 ^ 7.

Definition _BAVL_compare_values (v1 v2 : V) : act Z :=
  let res := comparator v1 v2 in
  _ ← check ((res =? -1) || (res =? 0) || (res =? 1)); mret res.
Definition _BAVL_compare_nodes (n1 n2 : Z) : act Z := _BAVL_compare_values (value n1) (value n2).

(** [p->link[old == q->link[1]] = new], where [q] is the parent of [old]. *)
Definition set_child (p q old new : Z) : act unit :=
  l ← get_link q true; set_link p (old =? l) new.

(** [if (n->link[d] = c) c->parent = n] *)
Definition adopt (n : Z) (d : bool) (c : Z) : act unit :=
  _ ← set_link n d c; when (negb (c =? 0)) (set_parent c n).

Definition _BAVL_rotate (r : Z) (dir : bool) : act unit :=
  nr ← get_link r (negb dir);
  c ← get_link nr dir;
  _ ← adopt r (negb dir) c;
  _ ← set_link nr dir r;
  p ← get_parent r;
  _ ← set_parent nr p;
  _ ← (if negb (p =? 0) then set_child p p r nr else set_root nr);
  set_parent r nr.

Fixpoint subtree_end (fuel : nat) (d : bool) (n : Z) : act Z :=
  match fuel with
  | O => out_of_fuel
  | S fuel => c ← get_link n d; if negb (c =? 0) then subtree_end fuel d c else mret n
  end.
Definition _BAVL_subtree_max (n : Z) : act Z := with_fuel (fun fuel => subtree_end fuel true n).

Definition _BAVL_replace_subtree (dest n : Z) : act unit :=
  p ← get_parent dest;
  _ ← (if negb (p =? 0) then set_child p p dest n else set_root n);
  when (negb (n =? 0)) (set_parent n p).

(** The nodes are directly connected, [n1] above [n2]. *)
Definition swap_connected (n1 n2 : Z) : act unit :=
  l1 ← get_link n1 true;
  let side := n2 =? l1 in
  c ← get_link n1 (negb side);
  x ← get_link n2 false; _ ← adopt n1 false x;
  x ← get_link n2 true; _ ← adopt n1 true x;
  p ← get_parent n1;
  _ ← set_parent n2 p;
  _ ← (if negb (p =? 0) then set_child p p n1 n2 else set_root n2);
  _ ← set_link n2 side n1;
  _ ← set_parent n1 n2;
  adopt n2 (negb side) c.

(** [if (n1->parent = p) n1->parent->link[n2 == q->link[1]] = n1; else root = n1] *)
Definition take_place (n1 p q n2 : Z) : act unit :=
  _ ← set_parent n1 p;
  if negb (p =? 0) then set_child p q n2 n1 else set_root n1.

Definition swap_apart (n1 n2 : Z) : act unit :=
  temp ← get_parent n1;
  p ← get_parent n2;
  _ ← take_place n1 p p n2;
  _ ← take_place n2 temp temp n1;
  temp ← get_link n1 false;
  x ← get_link n2 false; _ ← adopt n1 false x; _ ← adopt n2 false temp;
  temp ← get_link n1 true;
  x ← get_link n2 true; _ ← adopt n1 true x; adopt n2 true temp.

Definition _BAVL_swap_nodes (n1 n2 : Z) : act unit :=
  p2 ← get_parent n2; p1 ← get_parent n1;
  '(m1, m2) ← (if (p2 =? n1) || (p1 =? n2) then
                 let '(m1, m2) := if p1 =? n2 then (n2, n1) else (n1, n2) in
                 _ ← swap_connected m1 m2; mret (m1, m2)
               else _ ← swap_apart n1 n2; mret (n1, n2));
  b ← get_balance m1; b2 ← get_balance m2;
  _ ← set_balance m1 b2; set_balance m2 b.

(** The transformation where the balance of [node] is 2 or -2: the node that is
    now at the top, and the change of height. *)
Definition transform (node delta : Z) (bside : bool) (bsidef : Z) : act (Z * Z) :=
  child ← get_link node bside;
  _ ← check (negb (child =? 0));
  cb ← get_balance child;
  if cb * bsidef =? 1 then
    _ ← _BAVL_rotate node (negb bside);
    _ ← set_balance node 0; _ ← set_balance child 0;
    mret (child, s8 (delta - 1))
  else if cb * bsidef =? 0 then
    _ ← _BAVL_rotate node (negb bside);
    _ ← set_balance node (s8 (1 * bsidef)); _ ← set_balance child (s8 (-1 * bsidef));
    mret (child, delta)
  else if cb * bsidef =? -1 then
    gchild ← get_link child (negb bside);
    _ ← check (negb (gchild =? 0));
    _ ← _BAVL_rotate child bside;
    _ ← _BAVL_rotate node (negb bside);
    gb ← get_balance gchild;
    _ ← set_balance node (s8 (- BAVL_MAX 0 (gb * bsidef) * bsidef));
    _ ← set_balance child (s8 (BAVL_MAX 0 (- gb * bsidef) * bsidef));
    _ ← set_balance gchild 0;
    mret (gchild, s8 (delta - 1))
  else _ ← check false; mret (node, delta).

Fixpoint _BAVL_rebalance (fuel : nat) (node : Z) (side : bool) (deltac : Z) : act unit :=
  match fuel with
  | O => out_of_fuel
  | S fuel =>
      _ ← check ((-1 <=? deltac) && (deltac <=? 1));
      b ← get_balance node;
      _ ← check ((-1 <=? b) && (b <=? 1));
      if deltac =? 0 then mret tt
      else
        let delta := s8 (BAVL_MAX deltac (BAVL_OPTNEG b side) - BAVL_MAX 0 (BAVL_OPTNEG b side)) in
        _ ← check ((-1 <=? delta) && (delta <=? 1));
        let b := s8 (b - BAVL_OPTNEG deltac side) in
        _ ← set_balance node b;
        '(node, delta) ← (if (b =? 2) || (b =? -2)
                          then transform node delta (b =? 2) (if b =? 2 then 1 else -1)
                          else mret (node, delta));
        _ ← check ((-1 <=? delta) && (delta <=? 1));
        p ← get_parent node;
        if negb (p =? 0) then
          l ← get_link p true;
          _BAVL_rebalance fuel p (node =? l) delta
        else mret tt
  end.

(** The loop of [BAVL_Insert]: the node with an equal value, or the node and
    the side to insert at. *)
Fixpoint insert_loop (fuel : nat) (node c : Z) : act (Z * option bool) :=
  match fuel with
  | O => out_of_fuel
  | S fuel =>
      comp ← _BAVL_compare_nodes node c;
      if comp =? 0 then mret (c, None)
      else
        let side := comp =? 1 in
        l ← get_link c side;
        if l =? 0 then mret (c, Some side) else insert_loop fuel node l
  end.

(** The result and [*ref]. *)
Definition BAVL_Insert (node : Z) : act (bool * Z) :=
  r ← get_root;
  if r =? 0 then
    _ ← set_root node;
    _ ← set_parent node 0; _ ← set_link node false 0; _ ← set_link node true 0; _ ← set_balance node 0;
    mret (true, 0)
  else
    '(c, where_) ← with_fuel (fun fuel => insert_loop fuel node r);
    match where_ with
    | None => mret (false, c)
    | Some side =>
        _ ← set_link c side node;
        _ ← set_parent node c; _ ← set_link node false 0; _ ← set_link node true 0; _ ← set_balance node 0;
        _ ← with_fuel (fun fuel => _BAVL_rebalance fuel c side 1);
        mret (true, c)
    end.

(** The rest of [BAVL_Remove], where the node has at most one child. *)
Definition remove_single (node : Z) : act unit :=
  l0 ← get_link node false; l1 ← get_link node true;
  _ ← check (negb (negb (l0 =? 0) && negb (l1 =? 0)));
  parent ← get_parent node;
  let child := if negb (l0 =? 0) then l0 else l1 in
  if negb (parent =? 0) then
    l ← get_link parent true;
    let side := node =? l in
    _ ← _BAVL_replace_subtree node child;
    with_fuel (fun fuel => _BAVL_rebalance fuel parent side (-1))
  else _BAVL_replace_subtree node child.
Definition BAVL_Remove (node : Z) : act unit :=
  l0 ← get_link node false; l1 ← get_link node true;
  _ ← when (negb (l0 =? 0) && negb (l1 =? 0)) (max ← _BAVL_subtree_max l0; _BAVL_swap_nodes node max);
  remove_single node.

Definition BAVL_Init (h : gmap Z BAVLNode) : BAVL := mkBAVL h 0.
Definition BAVL_IsEmpty : act bool := r ← get_root; mret (r =? 0).

Fixpoint lookup_loop (fuel : nat) (exact : bool) (val : V) (c : Z) : act Z :=
  match fuel with
  | O => out_of_fuel
  | S fuel =>
      comp ← _BAVL_compare_values val (value c);
      if comp =? 0 then mret c
      else
        l ← get_link c (comp =? 1);
        if l =? 0 then mret (if exact then 0 else c) else lookup_loop fuel exact val l
  end.
Definition BAVL_Lookup (val : V) : act Z :=
  r ← get_root; if r =? 0 then mret 0 else with_fuel (fun fuel => lookup_loop fuel false val r).
Definition BAVL_LookupExact (val : V) : act Z :=
  r ← get_root; if r =? 0 then mret 0 else with_fuel (fun fuel => lookup_loop fuel true val r).
Definition BAVL_GetFirst : act Z :=
  r ← get_root; if r =? 0 then mret 0 else with_fuel (fun fuel => subtree_end fuel false r).
Definition BAVL_GetLast : act Z :=
  r ← get_root; if r =? 0 then mret 0 else with_fuel (fun fuel => subtree_end fuel true r).

(** Up, as long as [n] is the child at side [d]; then the parent. *)
Fixpoint climb (fuel : nat) (d : bool) (n : Z) : act Z :=
  match fuel with
  | O => out_of_fuel
  | S fuel =>
      p ← get_parent n;
      if p =? 0 then mret 0 else l ← get_link p d; if n =? l then climb fuel d p else mret p
  end.
(** [BAVL_GetNext] at [d = true], [BAVL_GetPrev] at [d = false]. *)
Definition neighbour (d : bool) (n : Z) : act Z :=
  l ← get_link n d;
  if negb (l =? 0) then with_fuel (fun fuel => subtree_end fuel (negb d) l)
  else with_fuel (fun fuel => climb fuel d n).
Definition BAVL_GetNext (n : Z) : act Z := neighbour true n.
Definition BAVL_GetPrev (n : Z) : act Z := neighbour false n.

Fixpoint _BAVL_assert_recurser (fuel : nat) (n : Z) : act Z :=
  match fuel with
  | O => out_of_fuel
  | S fuel =>
      b ← get_balance n;
      _ ← check ((-1 <=? b) && (b <=? 1));
      let side (d : bool) (res : Z) : act Z :=
        l ← get_link n d;
        if negb (l =? 0) then
          p ← get_parent l; _ ← check (p =? n);
          comp ← _BAVL_compare_nodes l n; _ ← check (comp =? res);
          _BAVL_assert_recurser fuel l
        else mret 0 in
      hl ← side false (-1);
      hr ← side true 1;
      _ ← check (b =? hr - hl);
      mret (BAVL_MAX hl hr + 1)
  end.
Definition BAVL_Verify : act unit :=
  r ← get_root;
  when (negb (r =? 0)) (p ← get_parent r; _ ← check (p =? 0); _ ← with_fuel (fun fuel => _BAVL_assert_recurser fuel r); mret tt).
End code.

(** ** Running code on cells

    [run L r m a L' r']: on the heap of the cells [L] with root [r] the code [m]
    returns [a] and leaves the cells [L'] and the root [r']. The order of cells
    does not matter. *)
Abbreviation cell := (Z * BAVLNode)%type.
Definition cells_ok (L : list cell) : Prop := NoDup (map fst L) /\ 0 ∉ map fst L.
Definition state (L : list cell) (r : Z) : BAVL := mkBAVL (list_to_map L) r.
Definition run {A} (L : list cell) (r : Z) (m : act A) (a : A) (L' : list cell) (r' : Z) : Prop :=
  cells_ok L -> m (state L r) = Ret (a, state L' r') /\ cells_ok L'.

#[global] Instance cells_ok_proper : Proper ((≡ₚ) ==> iff) cells_ok.
Proof. intros L L' H. unfold cells_ok. by rewrite H. Qed.
Lemma state_perm L L' r : cells_ok L -> L ≡ₚ L' -> state L r = state L' r.
Proof. intros [Hn _] H. unfold state. f_equal. by apply list_to_map_proper. Qed.
#[global] Instance run_proper {A} : Proper ((≡ₚ) ==> (=) ==> (=) ==> (=) ==> (≡ₚ) ==> (=) ==> iff) (@run A).
Proof.
  assert (Hi : forall L1 L2 r m (a : A) K1 K2 s, L1 ≡ₚ L2 -> K1 ≡ₚ K2 -> run L1 r m a K1 s -> run L2 r m a K2 s).
  { intros L1 L2 r m a K1 K2 s HL HK H Hok. rewrite <- HL in Hok. destruct (H Hok) as [E Hok'].
    rewrite (state_perm L1 L2) in E by done. rewrite (state_perm K1 K2) in E by done. split; [exact E|]. by rewrite <- HK. }
  intros L1 L2 HL r ? <- m ? <- a ? <- K1 K2 HK s ? <-. split; apply Hi; done.
Qed.

Lemma run_pure {A} L r (m : act A) a L' r' : (cells_ok L -> run L r m a L' r') -> run L r m a L' r'.
Proof. intros H Hok. by apply H. Qed.
Lemma run_ret {A} L r (a : A) : run L r (mret a) a L r.
Proof. by intros Hok. Qed.
Lemma run_bind {A B} L r (m : act A) (k : A -> act B) a b L1 r1 L2 r2 :
  run L r m a L1 r1 -> run L1 r1 (k a) b L2 r2 -> run L r (m ≫= k) b L2 r2.
Proof.
  intros Hm Hk Hok. destruct (Hm Hok) as [E Hok1]. destruct (Hk Hok1) as [E2 Hok2]. split; [|done].
  unfold mbind, act_bind. by rewrite E.
Qed.
Lemma run_load L r a n : (a, n) ∈ L -> run L r (load a) n L r.
Proof.
  intros Hin Hok. split; [|done]. destruct Hok as [Hn H0]. unfold load.
  assert (Ha : a ∈ map fst L) by (apply (list_elem_of_fmap_2' fst _ _ _ Hin); done).
  destruct (Z.eqb_spec a 0) as [->|_]; [done|]. cbn [heap state].
  by rewrite (elem_of_list_to_map_1 _ _ _ Hn Hin).
Qed.
Lemma run_store L r a n f : run ((a, n) :: L) r (store a f) tt ((a, f n) :: L) r.
Proof.
  intros [Hn H0]. cbn in *. split; [|done]. unfold store. apply not_elem_of_cons in H0 as [Ha _].
  destruct (Z.eqb_spec a 0) as [->|_]; [done|]. cbn [heap state root list_to_map foldr fst snd].
  rewrite lookup_insert_eq. cbn. unfold state. by rewrite insert_insert_eq.
Qed.
Lemma run_root L r : run L r get_root r L r.
Proof. by intros Hok. Qed.
Lemma run_set_root L r s : run L r (set_root s) tt L s.
Proof. by intros Hok. Qed.
Lemma run_check L r b : b = true -> run L r (check b) tt L r.
Proof. by intros -> Hok. Qed.
Lemma run_fuel {A} L r (f : nat -> act A) a L' r' : run L r (f (S (length L))) a L' r' -> run L r (with_fuel f) a L' r'.
Proof.
  intros H Hok. unfold with_fuel. cbn [heap state]. destruct Hok as [Hn H0].
  rewrite map_size_list_to_map by done. by apply H.
Qed.

(** [Take B L R]: the cells [L] are [B] and the rest [R]. *)
Class Take (B L R : list cell) : Prop := take_perm : L ≡ₚ B ++ R.
#[global] Hint Opaque app : typeclass_instances.
#[global] Instance take_here B R : Take B (B ++ R) R | 0.
Proof. unfold Take. reflexivity. Qed.
#[global] Instance take_one c R : Take [c] (c :: R) R | 0.
Proof. unfold Take. reflexivity. Qed.
#[global] Instance take_all B : Take B B [] | 1.
Proof. unfold Take. by rewrite app_nil_r. Qed.
#[global] Instance take_cons B c L R : Take B L R -> Take B (c :: L) (c :: R) | 2.
Proof. unfold Take. intros ->. apply Permutation_middle. Qed.
#[global] Instance take_left B L M R : Take B L R -> Take B (L ++ M) (R ++ M) | 3.
Proof. unfold Take. intros ->. by rewrite (assoc_L (++)). Qed.
#[global] Instance take_right B L M R : Take B M R -> Take B (L ++ M) (L ++ R) | 4.
Proof. unfold Take. intros ->. rewrite !(assoc_L (++)). by rewrite (Permutation_app_comm L B). Qed.

Lemma run_load_take L R r a n : Take [(a, n)] L R -> run L r (load a) n L r.
Proof. unfold Take. intros HT. apply run_load. rewrite HT. apply list_elem_of_here. Qed.
Lemma run_store_take L R r a n f : Take [(a, n)] L R -> run L r (store a f) tt ((a, f n) :: R) r.
Proof. unfold Take. intros ->. apply run_store. Qed.
Lemma run_get {A} (g : BAVLNode -> A) L R r a n : Take [(a, n)] L R -> run L r (n ← load a; mret (g n)) (g n) L r.
Proof. intros HT. eapply run_bind; [by eapply run_load_take|apply run_ret]. Qed.

(** Cancel the same cells on both sides. *)
Lemma take_cancel B K L R : Take B L R -> K ≡ₚ R -> B ++ K ≡ₚ L.
Proof. unfold Take. by intros -> ->. Qed.
Lemma take_cancel1 (c : cell) K L R : Take [c] L R -> K ≡ₚ R -> c :: K ≡ₚ L.
Proof. unfold Take. by intros -> ->. Qed.
Ltac cancel :=
  repeat progress (cbn [app]; rewrite <- ?(assoc_L (++)));
  repeat first
    [ reflexivity
    | eapply take_cancel1; [apply _|]
    | eapply take_cancel; [apply _|]
    | match goal with |- ?B ≡ₚ _ => rewrite <- (app_nil_r B) at 1 end; eapply take_cancel; [apply _|] ].

(** ** Trees and paths

    [mk d n b x y] has the child [x] at side [d] and [y] at the other. *)
Inductive tree := Leaf | Node (n b : Z) (l r : tree).
#[global] Instance tree_eq_dec : EqDecision tree.
Proof. solve_decision. Defined.
Definition mk (d : bool) (n b : Z) (x y : tree) : tree := if d then Node n b y x else Node n b x y.
Definition rt (t : tree) : Z := match t with Leaf => 0 | Node n _ _ _ => n end.
Definition node_at (d : bool) (p b x y : Z) : BAVLNode := if d then mkNode p y x b else mkNode p x y b.

(** A path leads from a position to the root: at each step the side we come
    from, the node, its balance and the other subtree. *)
Record frame := mkFrame { f_side : bool; f_node : Z; f_bal : Z; f_sib : tree }.
Definition up (π : list frame) (top : Z) : Z := match π with [] => top | f :: _ => f_node f end.
Fixpoint path_top (π : list frame) (c : Z) : Z := match π with [] => c | f :: π => path_top π (f_node f) end.
Fixpoint plug (t : tree) (π : list frame) : tree :=
  match π with [] => t | f :: π => plug (mk (f_side f) (f_node f) (f_bal f) t (f_sib f)) π end.

Fixpoint cells (t : tree) (p : Z) : list cell :=
  match t with
  | Leaf => []
  | Node n b l r => (n, mkNode p (rt l) (rt r) b) :: cells l n ++ cells r n
  end.
(** The cells of the path with [c] below it and [top] above it. *)
Fixpoint path_cells (π : list frame) (c top : Z) : list cell :=
  match π with
  | [] => []
  | f :: π => (f_node f, node_at (f_side f) (up π top) (f_bal f) c (rt (f_sib f))) ::
              cells (f_sib f) (f_node f) ++ path_cells π (f_node f) top
  end.
Definition zip_cells (t : tree) (π : list frame) : list cell := cells t (up π 0) ++ path_cells π (rt t) 0.

#[global] Hint Opaque cells path_cells zip_cells mk : typeclass_instances.

Lemma link_same d p b x y : link (node_at d p b x y) d = x.
Proof. by destruct d. Qed.
Lemma link_other d p b x y : link (node_at d p b x y) (negb d) = y.
Proof. by destruct d. Qed.
Lemma link_other' d p b x y : link (node_at (negb d) p b x y) d = y.
Proof. by destruct d. Qed.
Lemma with_link_same d p b x y z : with_link d z (node_at d p b x y) = node_at d p b z y.
Proof. by destruct d. Qed.
Lemma with_link_other d p b x y z : with_link (negb d) z (node_at d p b x y) = node_at d p b x z.
Proof. by destruct d. Qed.
Lemma with_parent_node d p b x y z : with_parent z (node_at d p b x y) = node_at d z b x y.
Proof. by destruct d. Qed.
Lemma with_balance_node d p b x y z : with_balance z (node_at d p b x y) = node_at d p z x y.
Proof. by destruct d. Qed.
Lemma parent_node d p b x y : parent (node_at d p b x y) = p.
Proof. by destruct d. Qed.
Lemma balance_node d p b x y : balance (node_at d p b x y) = b.
Proof. by destruct d. Qed.
Create Rewrite HintDb bavl.
#[global] Hint Rewrite link_same link_other link_other' with_link_same with_link_other with_parent_node
  with_balance_node parent_node balance_node : bavl.

Lemma rt_mk d n b x y : rt (mk d n b x y) = n.
Proof. by destruct d. Qed.
Lemma mk_negb d n b x y : mk (negb d) n b x y = mk d n b y x.
Proof. by destruct d. Qed.
Lemma node_negb d p b x y : node_at (negb d) p b x y = node_at d p b y x.
Proof. by destruct d. Qed.
Lemma cells_mk d n b x y p : cells (mk d n b x y) p ≡ₚ (n, node_at d p b (rt x) (rt y)) :: cells x n ++ cells y n.
Proof. destruct d; cbn; [|done]. by rewrite (Permutation_app_comm (cells y n)). Qed.
#[global] Instance take_mk d n b x y p : Take [(n, node_at d p b (rt x) (rt y))] (cells (mk d n b x y) p) (cells x n ++ cells y n) | 0.
Proof. unfold Take. by rewrite cells_mk. Qed.
#[global] Instance take_mk_child B d n b x y p R : Take B (cells x n) R ->
  Take B (cells (mk d n b x y) p) ((n, node_at d p b (rt x) (rt y)) :: R ++ cells y n) | 1.
Proof. unfold Take. rewrite cells_mk. intros ->. cancel. Qed.
#[global] Instance take_mk_other B d n b x y p R : Take B (cells y n) R ->
  Take B (cells (mk d n b x y) p) ((n, node_at d p b (rt x) (rt y)) :: cells x n ++ R) | 2.
Proof. unfold Take. rewrite cells_mk. intros ->. cancel. Qed.
#[global] Instance take_zip B t π R : Take B (cells t (up π 0)) R -> Take B (zip_cells t π) (R ++ path_cells π (rt t) 0).
Proof. unfold Take, zip_cells. by intros ->; rewrite (assoc_L (++)). Qed.
Lemma rt_plug t π : rt (plug t π) = path_top π (rt t).
Proof. revert t; induction π as [|f π IH]; intros t; [done|]. cbn. by rewrite IH, rt_mk. Qed.
(** Moving into a child moves the node to the path. *)
Lemma zip_down d n b x y π : zip_cells (mk d n b x y) π ≡ₚ zip_cells x (mkFrame d n b y :: π).
Proof. unfold zip_cells. rewrite rt_mk, cells_mk. cbn [path_cells f_side f_node f_bal f_sib up]. cancel. Qed.
Lemma plug_down d n b x y π : plug x (mkFrame d n b y :: π) = plug (mk d n b x y) π.
Proof. done. Qed.
Lemma cells_plug t π : cells (plug t π) 0 ≡ₚ zip_cells t π.
Proof.
  revert t; induction π as [|[d n b y] π IH]; intros t; cbn [plug].
  - unfold zip_cells. cbn. by rewrite app_nil_r.
  - rewrite IH. apply zip_down.
Qed.
Lemma path_cells_app π ρ c top :
  path_cells (π ++ ρ) c top ≡ₚ path_cells π c (up ρ top) ++ path_cells ρ (path_top π c) top.
Proof.
  revert c; induction π as [|[d n b y] π IH]; intros c; cbn; [done|]. rewrite IH.
  replace (up (π ++ ρ) top) with (up π (up ρ top)) by (by destruct π). by rewrite (assoc_L (++)).
Qed.
Lemma plug_app t π ρ : plug t (π ++ ρ) = plug (plug t π) ρ.
Proof. revert t; induction π; intros t; cbn; auto. Qed.

(** Code on parts of the tree. *)
Lemma rt_zero t p R : cells_ok (cells t p ++ R) -> rt t = 0 -> t = Leaf.
Proof. intros [_ H0] E. destruct t as [|n b l r]; [done|]. cbn in *. subst. by apply not_elem_of_cons in H0 as [? _]. Qed.
Lemma cell_nonzero a n R : cells_ok ((a, n) :: R) -> (a =? 0) = false.
Proof. intros [_ H0]. cbn in H0. apply not_elem_of_cons in H0 as [Ha _]. by apply Z.eqb_neq. Qed.
Lemma cells_ok_take B L R : Take B L R -> cells_ok L -> cells_ok (B ++ R).
Proof. unfold Take. by intros ->. Qed.

Lemma run_get_parent L R r a n : Take [(a, n)] L R -> run L r (get_parent a) (parent n) L r.
Proof. apply (run_get parent). Qed.
Lemma run_get_balance L R r a n : Take [(a, n)] L R -> run L r (get_balance a) (balance n) L r.
Proof. apply (run_get balance). Qed.
Lemma run_get_link L R r a n d : Take [(a, n)] L R -> run L r (get_link a d) (link n d) L r.
Proof. apply (run_get (fun n => link n d)). Qed.

Lemma run_reparent L R r t q n : Take (cells t q) L R ->
  run L r (when (negb (rt t =? 0)) (set_parent (rt t) n)) tt (cells t n ++ R) r.
Proof.
  unfold Take. intros ->. apply run_pure. intros Hok. destruct t as [|a b x y]; [apply run_ret|]. cbn [rt].
  cbn in Hok. rewrite (cell_nonzero _ _ _ Hok). cbn. apply run_store.
Qed.
Lemma run_adopt L M R r n nd t q d : Take [(n, nd)] L M -> Take (cells t q) M R ->
  run L r (adopt n d (rt t)) tt ((n, with_link d (rt t) nd) :: cells t n ++ R) r.
Proof.
  intros HL HM. eapply run_bind; [by eapply run_store_take|].
  pose proof (run_reparent _ _ r t q n (take_cons _ (n, with_link d (rt t) nd) _ _ HM)) as H.
  by rewrite <- Permutation_middle in H.
Qed.
Lemma run_adopt_null L M r n nd d : Take [(n, nd)] L M -> run L r (adopt n d 0) tt ((n, with_link d 0 nd) :: M) r.
Proof. intros HL. eapply run_bind; [by eapply run_store_take|]. apply run_ret. Qed.

Lemma in_take a n L R : Take [(a, n)] L R -> a ∈ map fst L.
Proof. unfold Take. intros ->. apply list_elem_of_here. Qed.
(** A child is told apart from its sibling by its address. *)
Lemma sib_ne f π c top R R' n : cells_ok (path_cells (f :: π) c top ++ R) -> Take [(c, n)] R R' -> rt (f_sib f) <> c.
Proof.
  intros Hok Hc. apply in_take in Hc. destruct Hok as [Hn H0]. destruct f as [d a b [|s sb sl sr]]; cbn in *.
  - intros <-. apply H0. right. rewrite map_app, elem_of_app. by right.
  - intros ->. apply list_relations.list.NoDup_cons in Hn as [_ Hn]. apply list_relations.list.NoDup_cons in Hn as [Hn _].
    apply Hn. rewrite !map_app, !elem_of_app. by right.
Qed.
Lemma side_test_at d f π c p top R R' n : cells_ok (path_cells (f :: π) c top ++ R) -> Take [(c, n)] R R' ->
  (c =? link (node_at (f_side f) p (f_bal f) c (rt (f_sib f))) d) = Bool.eqb (f_side f) d.
Proof.
  intros Hok Hc. pose proof (sib_ne _ _ _ _ _ _ _ Hok Hc) as Hne.
  destruct f as [[] a b y], d; cbn in *; first [apply Z.eqb_refl | apply Z.eqb_neq; congruence].
Qed.
Lemma side_test f π c p top R R' n : cells_ok (path_cells (f :: π) c top ++ R) -> Take [(c, n)] R R' ->
  (c =? link (node_at (f_side f) p (f_bal f) c (rt (f_sib f))) true) = f_side f.
Proof. intros Hok Hc. rewrite (side_test_at true f π c p top R R' n Hok Hc). by destruct (f_side f). Qed.
Lemma run_upd L R r a n f n' : Take [(a, n)] L R -> f n = n' -> run L r (store a f) tt ((a, n') :: R) r.
Proof. intros HT <-. by eapply run_store_take. Qed.
Lemma run_set_child L R R' r f π old new top n :
  Take (path_cells (f :: π) old top) L R -> Take [(old, n)] R R' ->
  run L r (set_child (f_node f) (f_node f) old new) tt (path_cells (f :: π) new top ++ R) r.
Proof.
  unfold Take at 1. intros -> Ho. apply run_pure. intros Hok. unfold set_child.
  eapply run_bind; [eapply run_get_link; cbn [path_cells]; apply _|].
  rewrite (side_test f π old _ top R R' n Hok Ho). cbn [path_cells app].
  eapply run_upd; [apply _|apply with_link_same].
Qed.
Lemma run_replace L R R' old new π n :
  Take (path_cells π old 0) L R -> Take [(old, n)] R R' ->
  run L (path_top π old) (if negb (up π 0 =? 0) then set_child (up π 0) (up π 0) old new else set_root new) tt
    (path_cells π new 0 ++ R) (path_top π new).
Proof.
  intros HT Ho. apply run_pure. intros Hok. apply (cells_ok_take _ _ _ HT) in Hok. destruct π as [|f π].
  - unfold Take in HT. cbn in *. rewrite HT. apply run_set_root.
  - cbn [up]. rewrite (cell_nonzero _ _ _ Hok). cbn [negb path_top]. by eapply run_set_child.
Qed.
Lemma path_top_snoc π f c : path_top (π ++ [f]) c = f_node f.
Proof. revert c; induction π; intros c; cbn; auto. Qed.
Lemma run_reparent_path L R r f π c top new : Take (path_cells (f :: π) c top) L R ->
  run L r (set_parent (path_top (f :: π) c) new) tt (path_cells (f :: π) c new ++ R) r.
Proof.
  unfold Take. intros ->. destruct (exists_last (l := f :: π)) as (ρ & g & ->); [done|].
  rewrite path_top_snoc, !path_cells_app. cbn.
  assert (HT : Take [(f_node g, node_at (f_side g) top (f_bal g) (path_top ρ c) (rt (f_sib g)))]
    ((path_cells ρ c (f_node g) ++ (f_node g, node_at (f_side g) top (f_bal g) (path_top ρ c) (rt (f_sib g))) ::
      cells (f_sib g) (f_node g) ++ []) ++ R) (path_cells ρ c (f_node g) ++ (cells (f_sib g) (f_node g) ++ []) ++ R)).
  { unfold Take. cancel. }
  pose proof (run_store_take _ _ r _ _ (with_parent new) HT) as H. rewrite with_parent_node in H.
  eapply run_proper; [reflexivity..| |reflexivity|exact H]. cancel.
Qed.
Lemma run_adopt_path L M R r n nd f π c top d : Take [(n, nd)] L M -> Take (path_cells (f :: π) c top) M R ->
  run L r (adopt n d (path_top (f :: π) c)) tt
    ((n, with_link d (path_top (f :: π) c) nd) :: path_cells (f :: π) c n ++ R) r.
Proof.
  intros HL HM. apply run_pure. intros Hok.
  assert (Hz : (path_top (f :: π) c =? 0) = false).
  { apply (cells_ok_take _ _ _ HL) in Hok. unfold Take in HM. rewrite HM in Hok.
    destruct (exists_last (l := f :: π)) as (ρ & g & E); [done|].
    rewrite E in *. rewrite path_top_snoc. rewrite path_cells_app in Hok. cbn [path_cells] in Hok.
    apply (cell_nonzero _ (node_at (f_side g) (up [] top) (f_bal g) (path_top ρ c) (rt (f_sib g)))
      ((n, nd) :: path_cells ρ c (f_node g) ++ cells (f_sib g) (f_node g) ++ R)).
    eapply cells_ok_proper; [|exact Hok]. cbn [up]. cancel. }
  unfold adopt. eapply run_bind; [by eapply run_store_take|]. rewrite Hz. cbn [negb when].
  pose proof (run_reparent_path _ _ r f π c top n (take_cons _ (n, with_link d (path_top (f :: π) c) nd) _ _ HM)) as H.
  by rewrite <- Permutation_middle in H.
Qed.

(** One step of the code: a read, a write or a check. *)
Ltac exec :=
  first
    [ eapply run_get_link; apply _ | eapply run_get_parent; apply _ | eapply run_get_balance; apply _
    | eapply run_store_take; apply _ | eapply run_adopt_null; apply _ | eapply run_adopt; apply _ | eapply run_adopt_path; apply _ ].
Ltac step := eapply run_bind; [exec|]; autorewrite with bavl.
(** The code has been run: compare the cells. *)
Lemma run_post {A} L r (m : act A) a K K' s : run L r m a K s -> K ≡ₚ K' -> run L r m a K' s.
Proof. by intros H <-. Qed.

(** A rotation moves the child [nr] of [r] above [r]. *)
Lemma run_rotate d r b nr b' x y z π R :
  run (zip_cells (mk d r b (mk d nr b' x y) z) π ++ R) (path_top π r) (_BAVL_rotate r (negb d)) tt
    (zip_cells (mk d nr b' x (mk d r b y z)) π ++ R) (path_top π nr).
Proof.
  unfold zip_cells. rewrite !cells_mk, !rt_mk. unfold _BAVL_rotate. rewrite negb_involutive.
  step. step. step. step. step. step.
  eapply run_bind; [eapply run_replace; apply _|].
  eapply run_post; [exec|]. autorewrite with bavl. cancel.
Qed.

Lemma cell_ne a n b m L M R : cells_ok L -> Take [(a, n)] L M -> Take [(b, m)] M R -> (a =? b) = false.
Proof.
  unfold Take. intros Hok HL HM. rewrite HL, HM in Hok. destruct Hok as [Hn _]. cbn in Hn. apply Z.eqb_neq. intros ->.
  apply list_relations.list.NoDup_cons in Hn as [Hn _]. apply Hn. apply list_elem_of_here.
Qed.
Lemma take_nonzero a n L R : cells_ok L -> Take [(a, n)] L R -> (a =? 0) = false.
Proof. intros Hok HT. apply (cells_ok_take _ _ _ HT) in Hok. by apply cell_nonzero in Hok. Qed.
Lemma up_ne π c b m L M R : cells_ok L -> Take [(b, m)] L M -> Take (path_cells π c 0) M R -> (up π 0 =? b) = false.
Proof.
  intros Hok HL HM. destruct π as [|f π]; cbn [up].
  - apply (cells_ok_take _ _ _ HL) in Hok. rewrite Z.eqb_sym. by apply cell_nonzero in Hok.
  - rewrite Z.eqb_sym. cbn in HM. eapply (cell_ne b m (f_node f)); [done..|].
    unfold Take in *. rewrite HM. cbn. reflexivity.
Qed.

Lemma rt_ne t p b m L M R : cells_ok L -> Take [(b, m)] L M -> Take (cells t p) M R -> (b =? rt t) = false.
Proof.
  intros Hok HL HM. destruct t as [|n tb l r]; cbn [rt].
  - apply (cells_ok_take _ _ _ HL) in Hok. by apply cell_nonzero in Hok.
  - cbn in HM. eapply (cell_ne b m n); [done..|]. unfold Take in *. rewrite HM. cbn. reflexivity.
Qed.

Ltac nstep := eapply run_bind; [exec|];
  cbn [with_link with_parent with_balance link parent link0 link1 balance].

(** The node [n1] and the largest node [n2] of its left subtree change places. *)
Lemma run_swap_connected n1 b1 n2 b2 l2 r π R :
  run (zip_cells (Node n1 b1 (Node n2 b2 l2 Leaf) r) π ++ R) (path_top π n1) (_BAVL_swap_nodes n1 n2) tt
    (zip_cells (Node n2 b1 (Node n1 b2 l2 Leaf) r) π ++ R) (path_top π n2).
Proof.
  unfold zip_cells. cbn [rt cells]. apply run_pure. intros Hok.
  assert (Eup : (up π 0 =? n2) = false) by (eapply up_ne; [exact Hok|apply _..]).
  assert (Er : (n2 =? rt r) = false) by (eapply rt_ne; [exact Hok|apply _..]).
  unfold _BAVL_swap_nodes. do 2 nstep. rewrite Z.eqb_refl, Eup. cbn [orb].
  eapply run_bind.
  - eapply run_bind; [|apply run_ret]. unfold swap_connected.
    nstep. rewrite Er. cbn [negb]. do 7 nstep. eapply run_bind; [eapply run_replace; apply _|]. do 2 nstep. exec.
  - cbn [with_link with_parent]. cbv beta iota. do 3 nstep. eapply run_post; [exec|]. cbn. cancel.
Qed.
Lemma run_swap_apart n1 b1 n2 b2 l2 r f ρ π R :
  run (zip_cells (Node n2 b2 l2 Leaf) ((f :: ρ) ++ mkFrame false n1 b1 r :: π) ++ R) (path_top π n1) (_BAVL_swap_nodes n1 n2) tt
    (zip_cells (Node n1 b2 l2 Leaf) ((f :: ρ) ++ mkFrame false n2 b1 r :: π) ++ R) (path_top π n2).
Proof.
  unfold zip_cells. rewrite !path_cells_app. apply run_pure. intros Hok.
  change (up ((f :: ρ) ++ ?X) 0) with (f_node f) in *. cbn [rt cells app] in *.
  change (path_cells (?X :: π)) with (fun c top => (f_node X, node_at (f_side X) (up π top) (f_bal X) c (rt (f_sib X))) ::
              cells (f_sib X) (f_node X) ++ path_cells π (f_node X) top) in *. cbn [f_node f_side f_bal f_sib node_at up] in *.
  assert (Eup : (up π 0 =? n2) = false) by (eapply up_ne; [exact Hok|apply _..]).
  assert (Ef : (f_node f =? n1) = false).
  { eapply cell_ne; [exact Hok| |]; [cbn [path_cells]; apply _|]; apply _. }
  assert (Ez : (f_node f =? 0) = false).
  { eapply take_nonzero; [exact Hok|]. cbn [path_cells]. apply _. }
  unfold _BAVL_swap_nodes. do 2 nstep. rewrite Ef, Eup. cbn [orb].
  eapply run_bind.
  - eapply run_bind; [|apply run_ret]. unfold swap_apart, take_place. do 2 nstep.
    eapply run_bind; [nstep; rewrite Ez; cbn [negb]; eapply run_set_child; apply _|].
    eapply run_bind; [nstep; eapply run_replace; apply _|].
    do 3 nstep. change (path_top (f :: ρ) n2) with (path_top (f :: ρ) n1). do 4 nstep. exec.
  - cbn [with_link with_parent link0 link1 parent balance]. cbv beta iota. do 3 nstep. eapply run_post; [exec|].
    cbn [with_balance with_link link0 link1 parent balance]. cancel.
Qed.
Lemma run_swap n1 b1 n2 b2 l2 r ρ π R :
  run (zip_cells (Node n2 b2 l2 Leaf) (ρ ++ mkFrame false n1 b1 r :: π) ++ R) (path_top π n1) (_BAVL_swap_nodes n1 n2) tt
    (zip_cells (Node n1 b2 l2 Leaf) (ρ ++ mkFrame false n2 b1 r :: π) ++ R) (path_top π n2).
Proof.
  destruct ρ as [|f ρ]; [|apply run_swap_apart]. cbn [app]. rewrite <- !zip_down. cbn [mk]. apply run_swap_connected.
Qed.

(** ** Balance *)
Fixpoint height (t : tree) : Z := match t with Leaf => 0 | Node _ _ l r => 1 + Z.max (height l) (height r) end.
Definition bal (d : bool) (x y : tree) : Z := if d then height x - height y else height y - height x.
Fixpoint avl (t : tree) : Prop :=
  match t with Leaf => True | Node _ b l r => b = height r - height l /\ -1 <= b <= 1 /\ avl l /\ avl r end.
Fixpoint inorder (t : tree) : list Z := match t with Leaf => [] | Node n _ l r => inorder l ++ n :: inorder r end.

Lemma height_mk d n b x y : height (mk d n b x y) = 1 + Z.max (height x) (height y).
Proof. destruct d; cbn; lia. Qed.
Lemma avl_mk d n b x y : avl (mk d n b x y) <-> b = bal d x y /\ -1 <= b <= 1 /\ avl x /\ avl y.
Proof. destruct d; cbn; tauto. Qed.
Lemma height_nonneg t : 0 <= height t.
Proof. induction t; cbn; lia. Qed.
Lemma mk_inv d t : 0 < height t -> exists n b x y, t = mk d n b x y.
Proof. destruct t as [|n b l r]; cbn; [lia|]. destruct d; [exists n, b, r, l|exists n, b, l, r]; done. Qed.
Lemma s8_small x : -128 <= x < 128 -> s8 x = x.
Proof. intros. unfold s8. rewrite Z.mod_small; lia. Qed.
Lemma inorder_rotate d r b nr b' x y z c c' :
  inorder (mk d nr c x (mk d r c' y z)) = inorder (mk d r b (mk d nr b' x y) z).
Proof. destruct d; cbn; by rewrite <- (assoc_L (++)). Qed.
Lemma inorder_mk d n b b' x y x' y' : inorder x = inorder x' -> inorder y = inorder y' ->
  inorder (mk d n b x y) = inorder (mk d n b' x' y').
Proof. intros E1 E2. destruct d; cbn; congruence. Qed.

Definition sgn (d : bool) : Z := if d then 1 else -1.
(** The result of a transformation of a tree that is too high at side [d]. *)
Record transformed (d : bool) (n b : Z) (x y : tree) (t : tree) : Prop := {
  tr_avl : avl t;
  tr_inorder : inorder t = inorder (mk d n b x y);
  tr_height : height x <= height t <= height x + 1;
}.
(** The reads before the cases. *)
Ltac transform_start c Hok Hc :=
  apply run_pure; intros Hok; assert (Hc : (c =? 0) = false) by (eapply take_nonzero; [exact Hok|apply _]);
  unfold transform; step; rewrite rt_mk, Hc; eapply run_bind; [by apply run_check|]; step.
Ltac transform_end :=
  unfold zip_cells; rewrite !cells_mk, !rt_mk; repeat step; rewrite ?s8_small by lia;
  eapply run_post; [apply run_ret|]; cancel.

Section transform.
Context (d : bool) (n b : Z) (x1 x2 y : tree) (c cb : Z) (π : list frame) (R : list cell) (delta : Z).
Context (Hx : avl (mk d c cb x1 x2)) (Hy : avl y) (Hh : height (mk d c cb x1 x2) = height y + 2) (Hd : 0 <= delta <= 1).
Let t := mk d n b (mk d c cb x1 x2) y.

Lemma run_single : cb * sgn d = 1 ->
  transformed d n b (mk d c cb x1 x2) y (mk d c 0 x1 (mk d n 0 x2 y)) /\
  run (zip_cells t π ++ R) (path_top π n) (transform n delta d (sgn d)) (c, delta - 1)
    (zip_cells (mk d c 0 x1 (mk d n 0 x2 y)) π ++ R) (path_top π c).
Proof.
  intros Ecb. apply avl_mk in Hx as (Eb & Hb & Hx1 & Hx2). rewrite height_mk in *.
  assert (E1 : height x1 = height x2 + 1) by (unfold bal, sgn in *; destruct d; lia). split.
  - split; [|apply inorder_rotate|rewrite !height_mk; lia].
    rewrite !avl_mk. unfold bal. rewrite !height_mk. destruct d; intuition lia.
  - unfold t. transform_start c Hok Hc. rewrite Ecb. cbn [Z.eqb Pos.eqb]. eapply run_bind; [apply run_rotate|]. transform_end.
Qed.
Lemma run_single_even : cb * sgn d = 0 ->
  transformed d n b (mk d c cb x1 x2) y (mk d c (- sgn d) x1 (mk d n (sgn d) x2 y)) /\
  run (zip_cells t π ++ R) (path_top π n) (transform n delta d (sgn d)) (c, delta)
    (zip_cells (mk d c (- sgn d) x1 (mk d n (sgn d) x2 y)) π ++ R) (path_top π c).
Proof.
  intros Ecb. apply avl_mk in Hx as (Eb & Hb & Hx1 & Hx2). rewrite height_mk in *.
  assert (E1 : height x1 = height x2) by (unfold bal, sgn in *; destruct d; lia). split.
  - split; [|apply inorder_rotate|rewrite !height_mk; lia].
    rewrite !avl_mk. unfold bal, sgn. rewrite !height_mk. destruct d; intuition lia.
  - unfold t. transform_start c Hok Hc. rewrite Ecb. cbn [Z.eqb Pos.eqb]. eapply run_bind; [apply run_rotate|].
    replace (-1 * sgn d) with (- sgn d) by lia. rewrite Z.mul_1_l. assert (sgn d = 1 \/ sgn d = -1) by (destruct d; auto). transform_end.
Qed.
End transform.

Lemma run_double d n b x1 g gb gx gy y c cb π R delta :
  let x := mk d c cb x1 (mk d g gb gx gy) in
  let t := mk d g 0 (mk d c (BAVL_MAX 0 (- gb * sgn d) * sgn d) x1 gx) (mk d n (- BAVL_MAX 0 (gb * sgn d) * sgn d) gy y) in
  avl x -> avl y -> height x = height y + 2 -> 0 <= delta <= 1 -> cb * sgn d = -1 ->
  transformed d n b x y t /\
  run (zip_cells (mk d n b x y) π ++ R) (path_top π n) (transform n delta d (sgn d)) (g, delta - 1)
    (zip_cells t π ++ R) (path_top π g).
Proof.
  intros x t Hx Hy Hh Hd Ecb. apply avl_mk in Hx as (Eb & Hb & Hx1 & Hx2). apply avl_mk in Hx2 as (Egb & Hgb & Hgx & Hgy).
  unfold x in Hh. rewrite !height_mk in Hh.
  assert (E1 : height (mk d g gb gx gy) = height x1 + 1) by (unfold bal, sgn in *; destruct d; lia). rewrite height_mk in E1.
  assert (E2 : height gx - height gy = gb * sgn d) by (unfold bal, sgn in *; destruct d; lia).
  assert (Hm : forall z, BAVL_MAX 0 z = Z.max 0 z) by (intros z; unfold BAVL_MAX; destruct (Z.gtb_spec 0 z); lia). split.
  - split.
    + unfold t. rewrite !avl_mk, !Hm. unfold bal, sgn in *. rewrite !height_mk. destruct d; intuition lia.
    + destruct d; cbn; rewrite <- !(assoc_L (++)); cbn; by rewrite <- ?(assoc_L (++)).
    + unfold t, x. rewrite !height_mk. lia.
  - assert (Hg : cells_ok (zip_cells (mk d n b x y) π ++ R) -> (g =? 0) = false).
    { intros Hok. eapply take_nonzero; [exact Hok|]. unfold x. apply _. }
    unfold x. transform_start c Hok Hc. rewrite Ecb. cbn [Z.eqb Pos.eqb Z.opp].
    step. rewrite rt_mk, (Hg Hok). eapply run_bind; [by apply run_check|]. rewrite zip_down.
    pose proof (run_rotate (negb d) c cb g gb gy gx x1 (mkFrame d n b y :: π) R) as Hr.
    rewrite !mk_negb, negb_involutive in Hr. eapply run_bind; [exact Hr|]. rewrite <- zip_down. cbn [path_top f_node].
    eapply run_bind; [apply run_rotate|]. unfold t.
    assert (-1 <= - BAVL_MAX 0 (gb * sgn d) * sgn d <= 1 /\ -1 <= BAVL_MAX 0 (- gb * sgn d) * sgn d <= 1)
      by (rewrite !Hm; unfold sgn; destruct d; lia).
    transform_end.
Qed.
Lemma run_transform d n b x y π R delta : avl x -> avl y -> height x = height y + 2 -> 0 <= delta <= 1 ->
  exists t, transformed d n b x y t /\
  run (zip_cells (mk d n b x y) π ++ R) (path_top π n) (transform n delta d (sgn d)) (rt t, delta + (height t - (height x + 1)))
    (zip_cells t π ++ R) (path_top π (rt t)).
Proof.
  intros Hx Hy Hh Hd. pose proof (height_nonneg y). destruct (mk_inv d x) as (c & cb & x1 & x2 & ->); [lia|].
  pose proof Hx as (Eb & Hb & Hx1 & Hx2)%avl_mk.
  assert (Hc : cb * sgn d = 1 \/ cb * sgn d = 0 \/ cb * sgn d = -1) by (unfold sgn; destruct d; lia).
  assert (Hbal : height x1 - height x2 = cb * sgn d) by (unfold bal, sgn in *; destruct d; lia).
  pose proof Hh as Hh'. rewrite height_mk in Hh'. pose proof (height_nonneg x1). destruct Hc as [E|[E|E]].
  - destruct (run_single d n b x1 x2 y c cb π R delta Hx Hy Hh Hd E) as [Ht Hr].
    eexists. split; [exact Ht|]. rewrite rt_mk, !height_mk. replace (delta + _) with (delta - 1) by lia. exact Hr.
  - destruct (run_single_even d n b x1 x2 y c cb π R delta Hx Hy Hh Hd E) as [Ht Hr].
    eexists. split; [exact Ht|]. rewrite rt_mk, !height_mk. replace (delta + _) with delta by lia. exact Hr.
  - destruct (mk_inv d x2) as (g & gb & gx & gy & ->); [lia|].
    destruct (run_double d n b x1 g gb gx gy y c cb π R delta Hx Hy Hh Hd E) as [Ht Hr].
    eexists. split; [exact Ht|]. rewrite rt_mk. rewrite !height_mk in *. apply avl_mk in Hx2 as (Egb & Hgb & _).
    assert (-1 <= height gx - height gy <= 1) by (unfold bal in *; destruct d; lia).
    replace (delta + _) with (delta - 1) by lia. exact Hr.
Qed.

(** The balances along a path fit a subtree of height [h]. *)
Fixpoint path_avl (π : list frame) (h : Z) : Prop :=
  match π with
  | [] => True
  | f :: π => f_bal f = sgn (f_side f) * (h - height (f_sib f)) /\ -1 <= f_bal f <= 1 /\ avl (f_sib f) /\
              path_avl π (1 + Z.max h (height (f_sib f)))
  end.
Lemma avl_plug t π : avl (plug t π) <-> avl t /\ path_avl π (height t).
Proof.
  revert t; induction π as [|f π IH]; intros t; cbn [plug path_avl]; [tauto|].
  rewrite IH, avl_mk, height_mk. unfold bal, sgn. destruct (f_side f); intuition lia.
Qed.
Lemma inorder_plug t t' π : inorder t = inorder t' -> inorder (plug t π) = inorder (plug t' π).
Proof. revert t t'; induction π as [|f π IH]; intros t t' E; cbn; [done|]. apply IH. by apply inorder_mk. Qed.

Lemma run_set_bal d n b b' x y π R r :
  run (zip_cells (mk d n b x y) π ++ R) r (set_balance n b') tt (zip_cells (mk d n b' x y) π ++ R) r.
Proof.
  eapply run_post; [exec|]. autorewrite with bavl. unfold zip_cells. rewrite cells_mk, !rt_mk. cancel.
Qed.

(** The subtree at a node after its child [t] changed its height by [dc]. *)
Record rebalanced (t0 : tree) (h0 : Z) (t : tree) (delta : Z) : Prop := {
  rb_avl : avl t;
  rb_inorder : inorder t = inorder t0;
  rb_delta : -1 <= delta <= 1;
  rb_height : height t - delta = h0;
  rb_node : t <> Leaf;
}.
Lemma run_rebalance_node s n t sib dc π R :
  avl t -> avl sib -> -1 <= dc <= 1 -> -1 <= height t - dc - height sib <= 1 ->
  let h0 := height t - dc in
  let b := bal s t sib in
  let delta := Z.max (height t) (height sib) - Z.max h0 (height sib) in
  exists t' delta', rebalanced (mk s n b t sib) (1 + Z.max h0 (height sib)) t' delta' /\
    run (zip_cells (mk s n b t sib) π ++ R) (path_top π n)
      (if (b =? 2) || (b =? -2) then transform n delta (b =? 2) (if b =? 2 then 1 else -1) else mret (n, delta))
      (rt t', delta') (zip_cells t' π ++ R) (path_top π (rt t')).
Proof.
  intros Ht Hs Hdc Hb h0 b delta. destruct ((b =? 2) || (b =? -2)) eqn:E.
  - assert (Htr : exists x y, mk s n b t sib = mk (b =? 2) n b x y /\ avl x /\ avl y /\ height x = height y + 2 /\
       height x = Z.max (height t) (height sib) /\ height y = Z.min (height t) (height sib)).
    { unfold b, bal in *. apply orb_true_iff in E.
      destruct s; (destruct E as [E|E]; rewrite Z.eqb_eq in E; rewrite E; change (-2 =? 2) with false; change (2 =? 2) with true);
        cbn [mk]; eexists _, _; (split; [reflexivity|]; repeat split; try done; lia). }
    destruct Htr as (x & y & -> & Hx & Hy & Hh & Hm & Hm2).
    destruct (run_transform (b =? 2) n b x y π R delta Hx Hy Hh) as (t' & [Ha Hi Hh'] & Hr); [unfold delta, h0; lia|].
    exists t', (delta + (height t' - (height x + 1))). split.
    + split; [done|done|unfold delta, h0; lia|unfold delta, h0; lia|]. intros ->. cbn in Hh'. pose proof (height_nonneg y). lia.
    + unfold sgn in Hr. by destruct (b =? 2).
  - apply orb_false_iff in E as [E1 E2]. rewrite Z.eqb_neq in E1, E2. exists (mk s n b t sib), delta. rewrite rt_mk. split.
    + split; [|done|unfold delta, h0; lia|rewrite height_mk; unfold delta, h0; lia|by destruct s].
      apply avl_mk. unfold b, bal in *. destruct s; intuition lia.
    + apply run_ret.
Qed.

Lemma check_range L r x : -1 <= x <= 1 -> run L r (check ((-1 <=? x) && (x <=? 1))) tt L r.
Proof. intros H. apply run_check. apply andb_true_intro. split; apply Z.leb_le; lia. Qed.
Lemma take_root t p : t <> Leaf -> exists n R, Take [(rt t, n)] (cells t p) R.
Proof. destruct t as [|n b l r]; [done|]. intros _. cbn. eexists _, _. apply take_one. Qed.

Lemma run_val {A} L r (m : act A) a a' K s : run L r m a K s -> a = a' -> run L r m a' K s.
Proof. by intros H <-. Qed.

(** What the rest of the code sees of a tree. *)
Definition restored (L : list cell) (r : Z) (m : act unit) (ns : list Z) (R : list cell) : Prop :=
  exists T, run L r m tt (cells T 0 ++ R) (rt T) /\ avl T /\ inorder T = ns.
Lemma restored_bind {A} L r (m : act A) a k ns R K s :
  run L r m a K s -> restored K s (k a) ns R -> restored L r (m ≫= k) ns R.
Proof. intros Hm (T & Hr & Ha). exists T. split; [|done]. by eapply run_bind. Qed.

Lemma run_parent t π R r : t <> Leaf ->
  run (zip_cells t π ++ R) r (get_parent (rt t)) (up π 0) (zip_cells t π ++ R) r.
Proof.
  intros Hn. destruct (mk_inv false t) as (n & b & x & y & ->); [destruct t; [done|cbn; pose proof (height_nonneg t1); lia]|].
  rewrite rt_mk. eapply run_val; [eapply run_get_parent; apply _|apply parent_node].
Qed.

(** Climbing to the parent with the new height. *)
Lemma restored_up π t R fuel delta : t <> Leaf -> avl t -> -1 <= delta <= 1 -> path_avl π (height t - delta) ->
  (forall f ρ, π = f :: ρ -> restored (zip_cells t π ++ R) (path_top π (rt t))
     (_BAVL_rebalance fuel (f_node f) (f_side f) delta) (inorder (plug t π)) R) ->
  restored (zip_cells t π ++ R) (path_top π (rt t))
    (p ← get_parent (rt t);
     if negb (p =? 0) then l ← get_link p true; _BAVL_rebalance fuel p (rt t =? l) delta else mret tt) (inorder (plug t π)) R.
Proof.
  intros Hn Ha Hd Hp IH. 
  eapply restored_bind; [by apply run_parent|]. destruct π as [|f ρ].
  - exists t. split; [|done]. cbn. unfold zip_cells. cbn. rewrite app_nil_r. apply run_ret.
  - destruct (IH f ρ eq_refl) as (T & Hr & HT). exists T. split; [|done]. cbn [up]. apply run_pure. intros Hok.
    destruct (take_root t (f_node f) Hn) as (nd & R' & HR').
    assert (Hz : (f_node f =? 0) = false).
    { eapply take_nonzero; [exact Hok|]. unfold zip_cells. cbn [path_cells]. apply _. }
    rewrite Hz. cbn [negb]. unfold zip_cells in *. eapply run_bind; [eapply run_get_link; cbn [path_cells]; apply _|].
    rewrite (side_test f ρ (rt t) (up ρ 0) 0 (cells t (f_node f) ++ R) (R' ++ R) nd); [exact Hr| |apply _].
    eapply cells_ok_proper; [|exact Hok]. cbn [up]. cancel.
Qed.

Lemma run_rebalance fuel : forall π f t R dc, (length π < fuel)%nat -> avl t -> path_avl (f :: π) (height t - dc) -> -1 <= dc <= 1 ->
  restored (zip_cells t (f :: π) ++ R) (path_top (f :: π) (rt t)) (_BAVL_rebalance fuel (f_node f) (f_side f) dc)
    (inorder (plug t (f :: π))) R.
Proof.
  induction fuel as [|fuel IH]; intros π [s n b sib] t R dc Hf Ha Hp Hdc; [lia|].
  cbn [path_avl f_bal f_side f_sib] in Hp. destruct Hp as (Eb & Hb & Hs & Hp). cbn [_BAVL_rebalance f_node f_side].
  eapply restored_bind; [by apply check_range|].
  eapply restored_bind; [unfold zip_cells; cbn [path_cells f_node]; eapply run_get_balance; apply _|]. rewrite balance_node. cbn [f_bal].
  eapply restored_bind; [by apply check_range|]. destruct (Z.eqb_spec dc 0) as [->|Hdc0].
  - exists (plug t (mkFrame s n b sib :: π)). rewrite rt_plug, cells_plug. split; [apply run_ret|]. split; [|done].
    apply avl_plug. split; [done|]. cbn. rewrite Z.sub_0_r in *. done.
  - assert (Hbal : -1 <= height t - dc - height sib <= 1) by (unfold sgn in *; destruct s; lia).
    pose proof (run_rebalance_node s n t sib dc π R Ha Hs Hdc Hbal) as (t' & delta' & [Ha' Hi Hd' Hh Hn] & Hr). 
    assert (Hm : forall x y, BAVL_MAX x y = Z.max x y) by (intros x y; unfold BAVL_MAX; destruct (Z.gtb_spec x y); lia).
    assert (Ed : s8 (BAVL_MAX dc (BAVL_OPTNEG b s) - BAVL_MAX 0 (BAVL_OPTNEG b s)) =
      Z.max (height t) (height sib) - Z.max (height t - dc) (height sib)).
    { rewrite !Hm. unfold sgn, BAVL_OPTNEG in *. rewrite s8_small; destruct s; lia. }
    assert (Eb' : s8 (b - BAVL_OPTNEG dc s) = bal s t sib).
    { unfold sgn, BAVL_OPTNEG, bal in *. rewrite s8_small; destruct s; lia. }
    rewrite Ed, Eb'. eapply restored_bind; [apply check_range; lia|].
    rewrite plug_down. unfold path_top. fold path_top. cbn [f_node].
    assert (Hset : forall r, run (zip_cells t (mkFrame s n b sib :: π) ++ R) r (set_balance n (bal s t sib)) tt
      (zip_cells (mk s n (bal s t sib) t sib) π ++ R) r) by (intros r; rewrite <- zip_down; apply run_set_bal).
    eapply restored_bind; [apply Hset|]. eapply restored_bind; [exact Hr|]. cbv beta iota.
    eapply restored_bind; [by apply check_range|].
    replace (inorder (plug (mk s n b t sib) π)) with (inorder (plug t' π))
      by (apply inorder_plug; rewrite Hi; by apply inorder_mk).
    apply restored_up; [done..|by rewrite Hh|]. intros f ρ ->. cbn in Hf. apply IH; [lia|done|by rewrite Hh|done].
Qed.
End Bavl.
