(* ===== verification/BavlSet.v ===== *)
(** * badvpn/structure/BAVL.h: what the trees promise

    The tree is a sorted sequence of nodes: inserting and removing change the
    sequence, looking up and iterating read it, and the height is logarithmic. *)
From Stdlib Require Import Sorted.
From stdpp Require Import gmap.
From S2P Require Import Prelude Bavl.
Local Open Scope Z_scope.
Import Bavl.

Module BavlSet.

(** ** The sequence before and after a position *)
Fixpoint before (π : list frame) : list Z :=
  match π with
  | [] => []
  | f :: π => before π ++ (if f_side f then inorder (f_sib f) ++ [f_node f] else [])
  end.
Fixpoint after (π : list frame) : list Z :=
  match π with
  | [] => []
  | f :: π => (if f_side f then [] else f_node f :: inorder (f_sib f)) ++ after π
  end.
Lemma inorder_at t π : inorder (plug t π) = before π ++ inorder t ++ after π.
Proof.
  revert t; induction π as [|[[] n b y] π IH]; intros t; cbn; [by rewrite app_nil_r|..];
    rewrite IH; cbn; by rewrite <- ?(assoc_L (++)).
Qed.
Lemma before_app π ρ : before (π ++ ρ) = before ρ ++ before π.
Proof. induction π as [|f π IH]; cbn; [by rewrite app_nil_r|]. by rewrite IH, (assoc_L (++)). Qed.
Lemma after_app π ρ : after (π ++ ρ) = after π ++ after ρ.
Proof. induction π as [|f π IH]; cbn; [done|]. by rewrite IH, (assoc_L (++)). Qed.

(** Every node of the tree is at a position. *)
Lemma locate n : forall t, n ∈ inorder t -> exists b l r π, t = plug (Node n b l r) π.
Proof.
  assert (H : forall t π, n ∈ inorder t -> exists b l r ρ, plug t π = plug (Node n b l r) ρ).
  { induction t as [|m b l IHl r IHr]; intros π Hin; cbn in Hin; [by apply elem_of_nil in Hin|].
    apply elem_of_app in Hin as [Hin|Hin]; [by apply (IHl (mkFrame false m b r :: π))|].
    apply elem_of_cons in Hin as [->|Hin]; [by eexists _, _, _, _|by apply (IHr (mkFrame true m b l :: π))]. }
  intros t Hin. by apply (H t []).
Qed.
(** The last node at side [d] of a tree. *)
Lemma locate_end d : forall t, t <> Leaf -> exists m b x ρ,
  t = plug (mk d m b Leaf x) ρ /\ Forall (fun f => f_side f = d) ρ.
Proof.
  induction t as [|m b l IHl r IHr]; [done|]. intros _.
  assert (Hstep : forall x y, Node m b l r = mk d m b x y ->
    (x <> Leaf -> exists k kb z ρ, x = plug (mk d k kb Leaf z) ρ /\ Forall (fun f => f_side f = d) ρ) ->
    exists k kb z ρ, mk d m b x y = plug (mk d k kb Leaf z) ρ /\ Forall (fun f => f_side f = d) ρ).
  { intros x y _ IH. destruct x as [|xn xb xl xr]; [by exists m, b, y, []|].
    destruct IH as (k & kb & z & ρ & E & H); [done|]. exists k, kb, z, (ρ ++ [mkFrame d m b y]).
    rewrite plug_app, <- E. split; [done|]. apply Forall_app. split; [done|]. by repeat constructor. }
  destruct d; [by apply (Hstep r l)|by apply (Hstep l r)].
Qed.
Lemma after_right ρ : Forall (fun f => f_side f = true) ρ -> after ρ = [].
Proof. induction 1 as [|f ρ Hf _ IH]; cbn; [done|]. by rewrite Hf, IH. Qed.
Lemma before_left ρ : Forall (fun f => f_side f = false) ρ -> before ρ = [].
Proof. induction 1 as [|f ρ Hf _ IH]; cbn; [done|]. by rewrite Hf, IH. Qed.
Lemma split_unique (n : Z) A B A' B' : A ++ n :: B = A' ++ n :: B' -> n ∉ A -> n ∉ A' -> A = A' /\ B = B'.
Proof.
  revert A'; induction A as [|a A IH]; intros [|a' A'] E Hn Hn'; simplify_eq/=.
  - done.
  - rewrite not_elem_of_cons in Hn'. tauto.
  - rewrite not_elem_of_cons in Hn. tauto.
  - rewrite not_elem_of_cons in Hn, Hn'. destruct (IH A') as [-> ->]; [done|tauto..|done].
Qed.

(** ** Addresses and bounds *)
Lemma cells_inorder t p : map fst (cells t p) ≡ₚ inorder t.
Proof.
  revert p; induction t as [|n b l IHl r IHr]; intros p; cbn; [done|].
  rewrite map_app, IHl, IHr. by rewrite Permutation_middle.
Qed.
Lemma height_cells t p : height t <= zlen (cells t p).
Proof.
  revert p; induction t as [|n b l IHl r IHr]; intros p; cbn; [lia|].
  specialize (IHl n). specialize (IHr n). rewrite length_app. lia.
Qed.
Lemma length_path π c top : (length π <= length (path_cells π c top))%nat.
Proof. revert c; induction π as [|f π IH]; intros c; cbn; [lia|]. specialize (IH (f_node f)). rewrite length_app. lia. Qed.
Lemma balanced t : avl t -> 2 ^ height t <= (zlen (inorder t) + 1) * (zlen (inorder t) + 1).
Proof.
  induction t as [|n b l IHl r IHr]; cbn [avl height inorder]; [cbn; lia|]. intros (Hb & Hr & Hal & Har).
  specialize (IHl Hal). specialize (IHr Har). rewrite length_app. cbn [length].
  set (a := zlen (inorder l) + 1) in *. set (c := zlen (inorder r) + 1) in *.
  replace (Z.of_nat (length (inorder l) + S (length (inorder r))) + 1) with (a + c) by lia.
  pose proof (height_nonneg l). pose proof (height_nonneg r).
  assert (E : 2 ^ (1 + Z.max (height l) (height r)) <= 4 * 2 ^ Z.min (height l) (height r)).
  { change 4 with (2 ^ 2). rewrite <- Z.pow_add_r by lia. apply Z.pow_le_mono_r; lia. }
  assert (2 ^ Z.min (height l) (height r) <= 2 ^ height l) by (apply Z.pow_le_mono_r; lia).
  assert (2 ^ Z.min (height l) (height r) <= 2 ^ height r) by (apply Z.pow_le_mono_r; lia).
  assert (1 <= a /\ 1 <= c) by lia. nia.
Qed.

(** ** Searching *)
Section set.
Context {V : Type} (ok : V -> Prop) (value : Z -> V) (comparator : V -> V -> Z) `{!Comparator ok comparator}.

Definition less (a b : Z) : Prop := comparator (value a) (value b) = -1.
Definition sorted (ns : list Z) : Prop := StronglySorted less ns.

Lemma cmp_lt_trans x y z : ok x -> ok y -> ok z -> comparator x y = 1 -> comparator z y = -1 -> comparator x z = 1.
Proof.
  intros Hx Hy Hz E1 E2. pose proof (cmp_opp x z). pose proof (cmp_opp x y). pose proof (cmp_opp z y).
  pose proof (cmp_trans x z y Hx Hz Hy). pose proof (cmp_range x z). lia.
Qed.
Lemma cmp_gt_trans x y z : ok x -> ok y -> ok z -> comparator x y = -1 -> comparator y z = -1 -> comparator x z = -1.
Proof.
  intros Hx Hy Hz E1 E2. pose proof (cmp_opp x z). pose proof (cmp_opp x y). pose proof (cmp_opp y z).
  pose proof (cmp_trans x y z Hx Hy Hz). pose proof (cmp_trans z x y Hz Hx Hy). pose proof (cmp_range x z). lia.
Qed.
Lemma sorted_cons a A : sorted (a :: A) <-> Forall (less a) A /\ sorted A.
Proof. split; [intros H; apply StronglySorted_inv in H; tauto|intros [H1 H2]; by constructor]. Qed.
Lemma nodes_sorted_app A B : sorted (A ++ B) <-> sorted A /\ sorted B /\ Forall (fun a => Forall (less a) B) A.
Proof.
  induction A as [|a A IH]; cbn.
  - split; [intros H; repeat split; [constructor|done|constructor]|tauto].
  - rewrite !sorted_cons, IH, Forall_app, List.Forall_cons_iff. tauto.
Qed.

(** The search on trees: the node with an equal value, or where it would be. *)
Fixpoint find (v : V) (t : tree) (π : list frame) : option Z * list frame :=
  match t with
  | Leaf => (None, π)
  | Node n b l r =>
      let comp := comparator v (value n) in
      if comp =? 0 then (Some n, π)
      else if comp =? 1 then find v r (mkFrame true n b l :: π) else find v l (mkFrame false n b r :: π)
  end.

Definition values_ok (ns : list Z) : Prop := Forall (fun n => ok (value n)) ns.
Definition above (v : V) (a : Z) : Prop := comparator v (value a) = 1.
Definition below (v : V) (a : Z) : Prop := comparator v (value a) = -1.
Lemma find_ok v : ok v -> forall t π, values_ok (inorder t) -> sorted (inorder t) -> Forall (above v) (before π) -> Forall (below v) (after π) ->
  match find v t π with
  | (Some n, _) => n ∈ inorder t /\ comparator v (value n) = 0
  | (None, ρ) => plug Leaf ρ = plug t π /\ Forall (above v) (before ρ) /\ Forall (below v) (after ρ)
  end.
Proof.
  intros Hv. induction t as [|n b l IHl r IHr]; intros π Hok Hs Hb Ha; cbn [find]; [done|]. cbn [inorder] in *.
  unfold values_ok in Hok. apply Forall_app in Hok as [Hokl [Hokn Hokr]%Forall_cons_1].
  apply nodes_sorted_app in Hs as (Hl & Hr & Hlr). apply sorted_cons in Hr as [Hnr Hr].
  destruct (Z.eqb_spec (comparator v (value n)) 0) as [E|E].
  { split; [|done]. rewrite elem_of_app. right. apply list_elem_of_here. }
  destruct (Z.eqb_spec (comparator v (value n)) 1) as [E1|E1].
  - assert (Hb' : Forall (above v) (before (mkFrame true n b l :: π))).
    { cbn. rewrite !Forall_app. repeat split; [done| |by repeat constructor]. rewrite list_relations.list.Forall_forall in *.
      intros a Hin. apply Hlr in Hin as Ha'. apply Forall_cons_1 in Ha' as [Ha' _]. by eapply cmp_lt_trans; [|done|apply Hokl|..]. }
    specialize (IHr _ Hokr Hr Hb' Ha). destruct (find v r _) as [[k|] ρ]; [|done].
    rewrite elem_of_app, elem_of_cons. tauto.
  - assert (E2 : comparator v (value n) = -1) by (pose proof (cmp_range v (value n)); lia).
    assert (Ha' : Forall (below v) (after (mkFrame false n b r :: π))).
    { cbn. constructor; [done|]. apply Forall_app. split; [|done]. rewrite list_relations.list.Forall_forall in *.
      intros a Hin. eapply cmp_gt_trans; [done|apply Hokn|by apply Hokr|done|by apply Hnr]. }
    assert (Hb' : Forall (above v) (before (mkFrame false n b r :: π))) by (cbn; by rewrite app_nil_r).
    specialize (IHl _ Hokl Hl Hb' Ha'). destruct (find v l _) as [[k|] ρ]; [|done]. rewrite elem_of_app. tauto.
Qed.

Lemma run_compare L r v w : run L r (_BAVL_compare_values comparator v w) (comparator v w) L r.
Proof.
  unfold _BAVL_compare_values. eapply run_bind; [|apply run_ret]. apply run_check.
  by destruct (cmp_range v w) as [-> | [-> | ->]].
Qed.
(** The child a search goes on with. *)
Lemma find_child v n b l r π : comparator v (value n) <> 0 -> exists d x y,
  d = (comparator v (value n) =? 1) /\ Node n b l r = mk d n b x y /\ find v (Node n b l r) π = find v x (mkFrame d n b y :: π).
Proof.
  intros E. cbn [find]. destruct (Z.eqb_spec (comparator v (value n)) 0); [done|].
  destruct (Z.eqb_spec (comparator v (value n)) 1); [by exists true, r, l|by exists false, l, r].
Qed.
Lemma rt_nonzero t π R : t <> Leaf -> cells_ok (zip_cells t π ++ R) -> (rt t =? 0) = false.
Proof.
  intros Ht Hok. destruct (take_root t (up π 0) Ht) as (n & R' & HT). eapply take_nonzero; [exact Hok|apply _].
Qed.

(** Going down to a child. *)
Lemma run_down {A} d n b x y π R r (k : Z -> act A) a :
  (x = Leaf -> run (zip_cells (mk d n b x y) π ++ R) r (k 0) a (zip_cells (mk d n b x y) π ++ R) r) ->
  (x <> Leaf -> (rt x =? 0) = false ->
   run (zip_cells x (mkFrame d n b y :: π) ++ R) r (k (rt x)) a (zip_cells x (mkFrame d n b y :: π) ++ R) r) ->
  run (zip_cells (mk d n b x y) π ++ R) r (get_link n d ≫= k) a (zip_cells (mk d n b x y) π ++ R) r.
Proof.
  intros Hl Hn. eapply run_bind; [eapply run_get_link; apply _|]. autorewrite with bavl.
  apply run_pure. intros Hok. destruct x as [|xn xb xl xr]; [by apply Hl|]. rewrite zip_down in *.
  apply Hn; [done|]. by eapply rt_nonzero.
Qed.

Definition found (exact : bool) (res : option Z * list frame) : Z :=
  match res with
  | (Some n, _) => n
  | (None, f :: _) => if exact then 0 else f_node f
  | (None, []) => 0
  end.
Lemma run_lookup_loop exact v R r : forall t π fuel, t <> Leaf -> height t <= Z.of_nat fuel ->
  run (zip_cells t π ++ R) r (lookup_loop value comparator fuel exact v (rt t)) (found exact (find v t π)) (zip_cells t π ++ R) r.
Proof.
  intros t π fuel. revert t π. induction fuel as [|fuel IH]; intros [|n b l rr] π Ht Hf; try done.
  { cbn [height] in Hf. pose proof (height_nonneg l). lia. }
  cbn [lookup_loop]. eapply run_bind; [apply run_compare|]. cbn [rt].
  destruct (Z.eqb_spec (comparator v (value n)) 0) as [E|E].
  { cbn [find]. rewrite E. apply run_ret. }
  destruct (find_child v n b l rr π E) as (d & x & y & <- & Et & Ef). rewrite Ef. rewrite Et in *. 
  rewrite height_mk in Hf. apply run_down; [intros ->; cbn; apply run_ret|]. intros Hx ->. apply IH; [done|lia].
Qed.
Definition place (res : option Z * list frame) : Z * option bool :=
  match res with
  | (Some n, _) => (n, None)
  | (None, f :: _) => (f_node f, Some (f_side f))
  | (None, []) => (0, None)
  end.
Lemma run_insert_loop node R r : forall t π fuel, t <> Leaf -> height t <= Z.of_nat fuel ->
  run (zip_cells t π ++ R) r (insert_loop value comparator fuel node (rt t)) (place (find (value node) t π)) (zip_cells t π ++ R) r.
Proof.
  intros t π fuel. revert t π. induction fuel as [|fuel IH]; intros [|n b l rr] π Ht Hf; try done.
  { cbn [height] in Hf. pose proof (height_nonneg l). lia. }
  cbn [insert_loop]. eapply run_bind; [apply run_compare|]. cbn [rt].
  destruct (Z.eqb_spec (comparator (value node) (value n)) 0) as [E|E].
  { cbn [find]. rewrite E. apply run_ret. }
  destruct (find_child (value node) n b l rr π E) as (d & x & y & <- & Et & Ef). rewrite Ef. rewrite Et in *. 
  rewrite height_mk in Hf. apply run_down; [intros ->; cbn; apply run_ret|]. intros Hx ->. apply IH; [done|lia].
Qed.
Lemma run_subtree_end d R r : forall ρ π m b x fuel, height (plug (mk d m b Leaf x) ρ) <= Z.of_nat fuel -> Forall (fun f => f_side f = d) ρ ->
  run (zip_cells (plug (mk d m b Leaf x) ρ) π ++ R) r (subtree_end fuel d (rt (plug (mk d m b Leaf x) ρ))) m
    (zip_cells (plug (mk d m b Leaf x) ρ) π ++ R) r.
Proof.
  intros ρ. induction ρ as [|f ρ IH] using rev_ind; intros π m b x fuel Hf Hs.
  - cbn [plug] in *. rewrite height_mk in Hf. destruct fuel as [|fuel]; [cbn in Hf; pose proof (height_nonneg x); lia|].
    cbn [subtree_end]. rewrite rt_mk. eapply run_bind; [eapply run_get_link; apply _|]. autorewrite with bavl. apply run_ret.
  - rewrite plug_app in *. apply Forall_app in Hs as [Hs [Hd _]%Forall_cons_1]. destruct f as [d' k kb y]. cbn in Hd. subst d'.
    cbn [plug f_side f_node f_bal f_sib] in *. set (t := plug (mk d m b Leaf x) ρ) in *. rewrite height_mk in Hf.
    pose proof (height_nonneg y). destruct fuel as [|fuel]; [lia|]. cbn [subtree_end]. rewrite rt_mk.
    assert (Ht : t <> Leaf).
    { unfold t. intros E. apply (f_equal (fun t => length (inorder t))) in E. rewrite inorder_at in E. destruct d; cbn in E; llia. }
    apply run_down; [done|]. intros _ ->. cbn [negb]. apply IH; [fold t; lia|done].
Qed.

(** ** Inserting *)
Lemma zip_root t : zip_cells t [] ≡ₚ cells t 0.
Proof. unfold zip_cells. cbn. by rewrite app_nil_r. Qed.
Lemma run_rebalance_fuel f π t R dc : avl t -> path_avl (f :: π) (height t - dc) -> -1 <= dc <= 1 ->
  restored (zip_cells t (f :: π) ++ R) (path_top (f :: π) (rt t)) (with_fuel (fun fuel => _BAVL_rebalance fuel (f_node f) (f_side f) dc))
    (inorder (plug t (f :: π))) R.
Proof.
  intros Ha Hp Hd. destruct (run_rebalance (S (length (zip_cells t (f :: π) ++ R))) π f t R dc) as (T & Hr & HT); [|done..|].
  - unfold zip_cells. pose proof (length_path (f :: π) (rt t) 0). cbn [length] in *. rewrite !length_app. lia.
  - exists T. split; [|done]. by apply run_fuel.
Qed.
(** The new node at its place. *)
Lemma run_attach {A} f π node g R (a : A) : avl (plug Leaf (f :: π)) -> exists T,
  run (zip_cells Leaf (f :: π) ++ (node, g) :: R) (path_top (f :: π) 0)
    (_ ← set_link (f_node f) (f_side f) node;
     _ ← set_parent node (f_node f); _ ← set_link node false 0; _ ← set_link node true 0; _ ← set_balance node 0;
     _ ← with_fuel (fun fuel => _BAVL_rebalance fuel (f_node f) (f_side f) 1); mret a) a (cells T 0 ++ R) (rt T) /\
  avl T /\ inorder T = before (f :: π) ++ node :: after (f :: π).
Proof.
  intros Ha. apply avl_plug in Ha as [_ Hp].
  destruct (run_rebalance_fuel f π (Node node 0 Leaf Leaf) R 1) as (T & Hr & HT); [cbn; lia|done|lia|].
  rewrite inorder_at in HT. exists T. split; [|exact HT]. unfold zip_cells. cbn [rt cells app path_cells path_top].
  do 5 (eapply run_bind; [exec|]; autorewrite with bavl; cbn [with_parent with_link with_balance parent link0 link1 balance]).
  eapply run_bind; [|apply run_ret].
  eapply run_proper; [|reflexivity..|exact Hr]. unfold zip_cells. cbn [cells rt up app path_cells]. cancel.
Qed.
Lemma run_insert T R node g : avl T -> sorted (inorder T) -> values_ok (inorder T) -> ok (value node) ->
  let L := cells T 0 ++ (node, g) :: R in
  match find (value node) T [] with
  | (Some c, _) => run L (rt T) (BAVL_Insert value comparator node) (false, c) L (rt T)
  | (None, ρ) => exists T', run L (rt T) (BAVL_Insert value comparator node) (true, up ρ 0) (cells T' 0 ++ R) (rt T') /\
      avl T' /\ inorder T' = before ρ ++ node :: after ρ
  end.
Proof.
  intros Ha Hs Hok Hnode L. destruct (decide (T = Leaf)) as [->|HT].
  - exists (Node node 0 Leaf Leaf). split; [|cbn; split; [lia|done]]. unfold BAVL_Insert, L. cbn [cells app rt].
    eapply run_bind; [apply run_root|]. cbn. eapply run_bind; [apply run_set_root|].
    do 4 (eapply run_bind; [exec|]; cbn [with_parent with_link with_balance parent link0 link1 balance]). apply run_ret.
  - pose proof (find_ok (value node) Hnode T [] Hok Hs ltac:(constructor) ltac:(constructor)) as Hfind.
    assert (Hloop : run L (rt T) (with_fuel (fun fuel => insert_loop value comparator fuel node (rt T)))
      (place (find (value node) T [])) L (rt T)).
    { unfold L. rewrite <- zip_root. apply run_fuel, run_insert_loop; [done|].
      pose proof (height_cells T (up [] 0)). unfold zip_cells. rewrite !length_app. lia. }
    assert (Hz : cells_ok L -> (rt T =? 0) = false).
    { unfold L. rewrite <- zip_root. by apply rt_nonzero. }
    destruct (find (value node) T []) as [[c|] ρ].
    + apply run_pure. intros Hcells. unfold BAVL_Insert. eapply run_bind; [apply run_root|]. rewrite (Hz Hcells).
      eapply run_bind; [exact Hloop|]. apply run_ret.
    + destruct Hfind as [Ep _]. destruct ρ as [|f π]; [by cbn in Ep; subst|]. change (plug T []) with T in Ep.
      destruct (run_attach f π node g R (true, f_node f)) as (T' & Hr & HT'); [by rewrite Ep|].
      exists T'. split; [|done]. apply run_pure. intros Hcells. unfold BAVL_Insert. eapply run_bind; [apply run_root|]. rewrite (Hz Hcells).
      eapply run_bind; [exact Hloop|]. cbn [place]. unfold L. rewrite <- Ep, cells_plug, rt_plug. exact Hr.
Qed.

(** ** Removing *)
Lemma run_replace_subtree node nd t π R : parent nd = up π 0 ->
  run ((node, nd) :: cells t node ++ path_cells π node 0 ++ R) (path_top π node) (_BAVL_replace_subtree node (rt t)) tt
    (zip_cells t π ++ (node, nd) :: R) (path_top π (rt t)).
Proof.
  intros Ep. unfold _BAVL_replace_subtree. eapply run_bind; [exec|]. rewrite Ep.
  eapply run_bind; [eapply run_replace; apply _|]. eapply run_post; [eapply run_reparent; apply _|].
  unfold zip_cells. cancel.
Qed.
(** Removing a node whose only child is [t]. *)
Lemma run_remove_at node nd t π R : parent nd = up π 0 ->
  negb (negb (link nd false =? 0) && negb (link nd true =? 0)) = true ->
  (if negb (link nd false =? 0) then link nd false else link nd true) = rt t ->
  avl t -> path_avl π (height t + 1) -> exists T,
  run ((node, nd) :: cells t node ++ path_cells π node 0 ++ R) (path_top π node) (remove_single node) tt
    (cells T 0 ++ (node, nd) :: R) (rt T) /\ avl T /\ inorder T = before π ++ inorder t ++ after π.
Proof.
  intros Ep Echk Echild Ht Hp.
  assert (Hstart : forall a L s, run ((node, nd) :: cells t node ++ path_cells π node 0 ++ R) (path_top π node)
      (if negb (up π 0 =? 0) then l ← get_link (up π 0) true; _ ← _BAVL_replace_subtree node (rt t);
         with_fuel (fun fuel => _BAVL_rebalance fuel (up π 0) (node =? l) (-1))
       else _BAVL_replace_subtree node (rt t)) a L s ->
    run ((node, nd) :: cells t node ++ path_cells π node 0 ++ R) (path_top π node) (remove_single node) a L s).
  { intros a L s Hr. unfold remove_single. eapply run_bind; [exec|]. eapply run_bind; [exec|].
    eapply run_bind; [by apply run_check|]. eapply run_bind; [exec|]. by rewrite Ep, Echild. }
  destruct π as [|f π].
  - exists t. split; [|split; [done|cbn; by rewrite app_nil_r]]. apply Hstart. cbn [up Z.eqb negb].
    pose proof (run_replace_subtree node nd t [] R Ep) as H. by rewrite zip_root in H.
  - destruct (run_rebalance_fuel f π t ((node, nd) :: R) (-1)) as (T & Hr & HT); [done| |lia|].
    { by replace (height t - -1) with (height t + 1) by lia. }
    rewrite inorder_at in HT. exists T. split; [|done]. apply Hstart. cbn [up]. apply run_pure. intros Hok.
    assert (Hz : (f_node f =? 0) = false) by (eapply take_nonzero; [exact Hok|cbn [path_cells]; apply _]).
    rewrite Hz. cbn [negb]. eapply run_bind; [cbn [path_cells]; exec|].
    rewrite (side_test f π node _ 0 ((node, nd) :: cells t node ++ R) (cells t node ++ R) nd);
      [|eapply cells_ok_proper; [|exact Hok]; cancel|apply _].
    eapply run_bind; [exact (run_replace_subtree node nd t (f :: π) R Ep)|exact Hr].
Qed.
Lemma run_remove_single node b l r π R : l = Leaf \/ r = Leaf -> avl (plug (Node node b l r) π) ->
  exists T nd, run (zip_cells (Node node b l r) π ++ R) (path_top π node) (remove_single node) tt
      (cells T 0 ++ (node, nd) :: R) (rt T) /\
    avl T /\ inorder T = before π ++ (inorder l ++ inorder r) ++ after π.
Proof.
  intros Hlr Ha. apply avl_plug in Ha as [(Eb & Hb & Hl & Hr) Hp]. cbn [height] in Hp.
  pose proof (height_nonneg l). pose proof (height_nonneg r). rewrite Z.add_comm in Hp.
  destruct (decide (l = Leaf)) as [->|Hn].
  - destruct (run_remove_at node (mkNode (up π 0) 0 (rt r) b) r π R) as (T & H'); [done..| |].
    { by replace (height r) with (Z.max (height Leaf) (height r)) by (cbn; lia). }
    exists T, (mkNode (up π 0) 0 (rt r) b). unfold zip_cells. cbn [cells rt app]. by rewrite <- (assoc_L (++)).
  - destruct Hlr as [?| ->]; [done|].
    destruct (run_remove_at node (mkNode (up π 0) (rt l) 0 b) l π R) as (T & H'); [done|..|done| |].
    + cbn. by rewrite andb_false_r.
    + cbn. by destruct (Z.eqb_spec (rt l) 0) as [->|].
    + by replace (height l) with (Z.max (height l) (height Leaf)) by (cbn; lia).
    + exists T, (mkNode (up π 0) (rt l) 0 b). unfold zip_cells. cbn [cells rt app inorder]. rewrite !app_nil_r.
      by rewrite <- (assoc_L (++)).
Qed.
Lemma zip_plug t ρ π : zip_cells (plug t ρ) π ≡ₚ zip_cells t (ρ ++ π).
Proof. rewrite <- !cells_plug, plug_app. done. Qed.
Lemma path_top_app ρ π c : path_top (ρ ++ π) c = path_top π (path_top ρ c).
Proof. revert c; induction ρ; intros c; cbn; auto. Qed.
Lemma path_avl_rename ρ s n m b y π h : path_avl (ρ ++ mkFrame s n b y :: π) h -> path_avl (ρ ++ mkFrame s m b y :: π) h.
Proof. revert h; induction ρ as [|f ρ IH]; intros h; cbn; intuition. Qed.

(** A node with two children changes places with the one before it. *)
Lemma run_swap_max node b l r π R : l <> Leaf ->
  exists m mb x ρ, l = plug (Node m mb x Leaf) ρ /\ after ρ = [] /\
  run (zip_cells (Node node b l r) π ++ R) (path_top π node) (max ← _BAVL_subtree_max (rt l); _BAVL_swap_nodes node max) tt
    (zip_cells (Node node mb x Leaf) (ρ ++ mkFrame false m b r :: π) ++ R) (path_top π m).
Proof.
  intros Hl. destruct (locate_end true l Hl) as (m & mb & x & ρ & E & Hρ). exists m, mb, x, ρ.
  split; [done|]. split; [by apply after_right|]. change (Node node b l r) with (mk false node b l r). rewrite zip_down.
  eapply run_bind.
  - apply run_fuel. rewrite E. apply run_subtree_end; [|done]. rewrite <- E.
    pose proof (height_cells l node). unfold zip_cells. cbn [up f_node]. rewrite !length_app. lia.
  - rewrite zip_plug. cbn [mk path_top f_node]. apply run_swap.
Qed.
Lemma run_remove node b l r π R : avl (plug (Node node b l r) π) ->
  exists T' nd, run (zip_cells (Node node b l r) π ++ R) (path_top π node) (BAVL_Remove node) tt
      (cells T' 0 ++ (node, nd) :: R) (rt T') /\
    avl T' /\ inorder T' = before π ++ (inorder l ++ inorder r) ++ after π.
Proof.
  intros Ha.
  assert (Hlinks : forall L s k, run (zip_cells (Node node b l r) π ++ R) (path_top π node) (k (rt l) (rt r)) tt L s ->
    run (zip_cells (Node node b l r) π ++ R) (path_top π node)
      (l0 ← get_link node false; l1 ← get_link node true; k l0 l1) tt L s).
  { intros L s k Hr. unfold zip_cells in *. cbn [cells] in *. do 2 (eapply run_bind; [exec|]). exact Hr. }
  destruct (decide (l = Leaf \/ r = Leaf)) as [Hlr|Hlr].
  - destruct (run_remove_single node b l r π R Hlr Ha) as (T' & nd & Hr & HT'). exists T', nd. split; [|done].
    apply Hlinks. eapply run_bind; [|exact Hr]. destruct Hlr as [-> | ->]; cbn [rt Z.eqb negb andb]; [apply run_ret|].
    rewrite andb_false_r. apply run_ret.
  - destruct (run_swap_max node b l r π R) as (m & mb & x & ρ & El & Eρ & Hswap); [tauto|].
    assert (Ha' : avl (plug (Node node mb x Leaf) (ρ ++ mkFrame false m b r :: π))).
    { change (Node node b l r) with (mk false node b l r) in Ha. rewrite <- plug_down, El, <- plug_app, avl_plug in Ha.
      apply avl_plug. destruct Ha as [Ha Hp]. split; [exact Ha|]. by eapply path_avl_rename. }
    destruct (run_remove_single node mb x Leaf _ R (or_intror eq_refl) Ha') as (T' & nd & Hr & HT' & Hi).
    rewrite path_top_app in Hr. cbn [path_top f_node] in Hr.
    exists T', nd. split; [|split; [done|]].
    + apply Hlinks. apply run_pure. intros Hok.
      assert (Hz : (rt l =? 0) = false /\ (rt r =? 0) = false).
      { split; [eapply (rt_nonzero l (mkFrame false node b r :: π) R); [tauto|]
               |eapply (rt_nonzero r (mkFrame true node b l :: π) R); [tauto|]]; rewrite <- zip_down; exact Hok. }
      destruct Hz as [-> ->]. cbn [negb andb when]. eapply run_bind; [exact Hswap|exact Hr].
    + rewrite Hi, before_app, after_app, Eρ, El, inorder_at, Eρ. cbn. rewrite !app_nil_r. rewrite <- !(assoc_L (++)). done.
Qed.

(** ** Iterating and checking *)
Fixpoint next (d : bool) (π : list frame) : Z :=
  match π with [] => 0 | f :: π => if Bool.eqb (f_side f) d then next d π else f_node f end.
Lemma run_climb d R r : forall π t fuel, t <> Leaf -> (length π < fuel)%nat ->
  run (zip_cells t π ++ R) r (climb fuel d (rt t)) (next d π) (zip_cells t π ++ R) r.
Proof.
  induction π as [|f π IH]; intros t [|fuel] Ht Hf; cbn [length] in Hf; try lia; cbn [climb].
  - eapply run_bind; [by apply run_parent|]. apply run_ret.
  - eapply run_bind; [by apply run_parent|]. cbn [up]. apply run_pure. intros Hok.
    destruct (take_root t (f_node f) Ht) as (nd & R' & HR').
    assert (Hz : (f_node f =? 0) = false).
    { eapply take_nonzero; [exact Hok|]. unfold zip_cells. cbn [path_cells]. apply _. }
    rewrite Hz. unfold zip_cells in Hok. cbn [next].
    eapply run_bind; [unfold zip_cells; eapply run_get_link; cbn [path_cells]; apply _|].
    rewrite (side_test_at d f π (rt t) (up π 0) 0 (cells t (f_node f) ++ R) (R' ++ R) nd);
      [|eapply cells_ok_proper; [|exact Hok]; cbn [up]; cancel|apply _].
    destruct (Bool.eqb (f_side f) d); [|apply run_ret]. destruct f as [s n b y]. cbn [f_node].
    pose proof (IH (mk s n b t y) fuel) as H. rewrite rt_mk, zip_down in H. apply H; [by destruct s|lia].
Qed.
Lemma last_app_cons A a B : List.last (A ++ a :: B) 0 = List.last (a :: B) 0.
Proof. induction A as [|x A IH]; [done|]. cbn. rewrite IH. by destruct (A ++ a :: B) eqn:E; [destruct A|]. Qed.
Lemma next_after π : next true π = hd 0 (after π).
Proof. induction π as [|[[] n b y] π IH]; cbn; done. Qed.
Lemma next_before π : next false π = List.last (before π) 0.
Proof. induction π as [|[[] n b y] π IH]; cbn; [done| |by rewrite app_nil_r]. by rewrite (assoc_L (++)), List.last_last. Qed.
(** The last node at a side of a subtree. *)
Definition end_of (d : bool) (ns : list Z) : Z := if d then List.last ns 0 else hd 0 ns.
Lemma run_end d t π R r : t <> Leaf ->
  run (zip_cells t π ++ R) r (with_fuel (fun fuel => subtree_end fuel d (rt t))) (end_of d (inorder t)) (zip_cells t π ++ R) r.
Proof.
  intros Ht. apply run_fuel. destruct (locate_end d t Ht) as (m & b & x & ρ & -> & Hρ).
  replace (end_of d _) with m.
  - apply run_subtree_end; [|done]. pose proof (height_cells (plug (mk d m b Leaf x) ρ) (up π 0)). unfold zip_cells.
    rewrite !length_app. lia.
  - rewrite inorder_at. unfold end_of. destruct d; cbn.
    + rewrite (after_right ρ Hρ), app_nil_r, (assoc_L (++)), List.last_last. done.
    + by rewrite (before_left ρ Hρ).
Qed.
Lemma run_neighbour d n b l r π R s :
  run (zip_cells (Node n b l r) π ++ R) s (neighbour d n)
    (if d then hd 0 (inorder r ++ after π) else List.last (before π ++ inorder l) 0)
    (zip_cells (Node n b l r) π ++ R) s.
Proof.
  assert (Hd : forall x y a, Node n b l r = mk d n b x y ->
    (x = Leaf -> a = next d π) -> (x <> Leaf -> a = end_of (negb d) (inorder x)) ->
    run (zip_cells (Node n b l r) π ++ R) s (neighbour d n) a (zip_cells (Node n b l r) π ++ R) s).
  { intros x y a -> Hl Hn. unfold neighbour. apply run_down.
    - intros ->. cbn [Z.eqb negb]. rewrite (Hl eq_refl). apply run_fuel. rewrite <- (rt_mk d n b Leaf y) at 3.
      apply run_climb; [by destruct d|]. unfold zip_cells. pose proof (length_path π (rt (mk d n b Leaf y)) 0).
      rewrite !length_app. lia.
    - intros Hx ->. cbn [negb]. rewrite (Hn Hx). by apply run_end. }
  destruct d.
  - apply (Hd r l); [done| |].
    + intros ->. cbn. by rewrite next_after.
    + intros Hn. destruct r as [|rn rb rl rr]; [done|]. cbn. by destruct (inorder rl).
  - apply (Hd l r); [done| |].
    + intros ->. cbn. by rewrite app_nil_r, next_before.
    + intros Hn. destruct l as [|ln lb ll lr]; [done|]. unfold end_of. cbn [negb inorder]. by rewrite (assoc_L (++)), !last_app_cons.
Qed.

Lemma rt_inorder t : t <> Leaf -> rt t ∈ inorder t.
Proof. destruct t; [done|]. intros _. cbn. rewrite elem_of_app. right. apply list_elem_of_here. Qed.
Lemma sorted_node n b l r : sorted (inorder (Node n b l r)) ->
  sorted (inorder l) /\ sorted (inorder r) /\ (l <> Leaf -> less (rt l) n) /\ (r <> Leaf -> comparator (value (rt r)) (value n) = 1).
Proof.
  cbn [inorder]. intros (Hl & [Hnr Hr]%sorted_cons & Hlr)%nodes_sorted_app. split; [done|]. split; [done|]. split.
  - intros Hn%rt_inorder. rewrite list_relations.list.Forall_forall in Hlr. by apply Hlr in Hn as [? _]%Forall_cons_1.
  - intros Hn%rt_inorder. rewrite list_relations.list.Forall_forall in Hnr. apply Hnr in Hn. unfold less in Hn. rewrite cmp_opp, Hn. done.
Qed.
Lemma run_assert R r : forall fuel t π, t <> Leaf -> avl t -> sorted (inorder t) -> height t <= Z.of_nat fuel ->
  run (zip_cells t π ++ R) r (_BAVL_assert_recurser value comparator fuel (rt t)) (height t) (zip_cells t π ++ R) r.
Proof.
  induction fuel as [|fuel IH]; intros [|n b x y] π Ht Ha Hs Hf; try done; cbn [height] in Hf.
  { pose proof (height_nonneg x). lia. }
  cbn [_BAVL_assert_recurser rt]. destruct Ha as (Eb & Hb & Hx & Hy). destruct (sorted_node n b x y Hs) as (Hsx & Hsy & Hcx & Hcy).
  eapply run_bind; [unfold zip_cells; cbn [cells]; exec|]. cbn [balance].
  change ((n, mkNode (up π 0) (rt x) (rt y) b) :: cells x n ++ cells y n) with (cells (Node n b x y) (up π 0)).
  eapply run_bind; [by apply check_range|].
  assert (Hside : forall d z w res, Node n b x y = mk d n b z w -> avl z -> sorted (inorder z) -> height z <= Z.of_nat fuel ->
    (z <> Leaf -> comparator (value (rt z)) (value n) = res) ->
    run (zip_cells (Node n b x y) π ++ R) r
      (l ← get_link n d; if negb (l =? 0) then p ← get_parent l; _ ← check (p =? n);
         comp ← _BAVL_compare_nodes value comparator l n; _ ← check (comp =? res); _BAVL_assert_recurser value comparator fuel l
       else mret 0) (height z) (zip_cells (Node n b x y) π ++ R) r).
  { intros d z w res -> Hz Hsz Hfz Hres. apply run_down; [intros ->; apply run_ret|]. intros Hn ->. cbn [negb].
    eapply run_bind; [by apply run_parent|]. eapply run_bind; [apply run_check, Z.eqb_refl|].
    eapply run_bind; [apply run_compare|]. eapply run_bind; [apply run_check, Z.eqb_eq; by apply Hres|]. by apply IH. }
  eapply run_bind; [apply (Hside false x y (-1)); [done..|lia|done]|].
  eapply run_bind; [apply (Hside true y x 1); [done..|lia|done]|].
  eapply run_bind; [apply run_check, Z.eqb_eq, Eb|]. eapply run_val; [apply run_ret|].
  unfold BAVL_MAX. cbn [height]. destruct (Z.gtb_spec (height x) (height y)); lia.
Qed.

(** ** The promises

    [represents o ns]: the tree at [o] holds the nodes [ns], in order. [R] are
    the other objects in memory. *)
Definition represents (o : BAVL) (ns : list Z) : Prop :=
  exists T R, o = state (cells T 0 ++ R) (rt T) /\ cells_ok (cells T 0 ++ R) /\ avl T /\ inorder T = ns /\ sorted ns /\ values_ok ns.
Definition unchanged (ns : list Z) (o o' : BAVL) : Prop := forall a, a ∉ ns -> heap o' !! a = heap o !! a.
(** [*ref]: a neighbour of the position, or null in an empty tree. *)
Definition is_ref (ref : Z) (A B : list Z) : Prop :=
  (A = [] /\ B = [] /\ ref = 0) \/ (exists A', A = A' ++ [ref]) \/ (exists B', B = ref :: B').

Lemma frame_unchanged ns L1 L2 R r s : (forall a, a ∈ map fst L1 \/ a ∈ map fst L2 -> a ∈ ns) ->
  unchanged ns (state (L1 ++ R) r) (state (L2 ++ R) s).
Proof.
  intros Hns a Ha. cbn [heap state]. rewrite !list_to_map_app.
  rewrite !lookup_union_r; [done| |]; apply not_elem_of_list_to_map_1; intros H; apply Ha; auto.
Qed.
Lemma path_ref ρ : is_ref (up ρ 0) (before ρ) (after ρ).
Proof.
  destruct ρ as [|[[] n b y] ρ]; cbn; [by left|right..].
  - left. exists (before ρ ++ inorder y). by rewrite (assoc_L (++)).
  - right. by eexists.
Qed.
Lemma insert_represents o ns node : represents o ns -> is_Some (heap o !! node) -> node ∉ ns -> ok (value node) ->
  (exists c, c ∈ ns /\ comparator (value node) (value c) = 0 /\ BAVL_Insert value comparator node o = Ret ((false, c), o)) \/
  (exists A B ref o', ns = A ++ B /\ is_ref ref A B /\ BAVL_Insert value comparator node o = Ret ((true, ref), o') /\
     represents o' (A ++ node :: B) /\ unchanged (node :: ns) o o').
Proof.
  intros (T & R & -> & Hok & Ha & Hi & Hs & Hv) [g Hg] Hn Hnode. cbn [heap state] in Hg.
  apply elem_of_list_to_map_2 in Hg. apply elem_of_app in Hg as [Hg|Hg].
  { exfalso. apply Hn. rewrite <- Hi, <- (cells_inorder T 0). apply (list_elem_of_fmap_2' fst _ _ _ Hg). done. }
  apply list_elem_of_split in Hg as (R1 & R2 & ->). assert (HR : cells T 0 ++ R1 ++ (node, g) :: R2 ≡ₚ cells T 0 ++ (node, g) :: R1 ++ R2).
  { by rewrite Permutation_middle. }
  rewrite (state_perm _ _ _ Hok HR). rewrite HR in Hok. rewrite <- Hi in Hs, Hv.
  pose proof (run_insert T (R1 ++ R2) node g Ha Hs Hv Hnode) as Hrun. cbn zeta in Hrun.
  pose proof (find_ok (value node) Hnode T [] Hv Hs ltac:(constructor) ltac:(constructor)) as Hfind.
  destruct (find (value node) T []) as [[c|] ρ].
  - left. exists c. rewrite <- Hi. destruct Hfind. repeat split; [done..|]. by apply Hrun.
  - right. destruct Hfind as (Ep & Hb & Haf). destruct Hrun as (T' & Hrun & Ha' & Hi'). destruct (Hrun Hok) as [E Hok'].
    assert (Ens : ns = before ρ ++ after ρ) by (rewrite <- Hi; change T with (plug T []); by rewrite <- Ep, inorder_at).
    exists (before ρ), (after ρ), (up ρ 0), (state (cells T' 0 ++ R1 ++ R2) (rt T')).
    split; [done|]. split; [apply path_ref|]. split; [exact E|]. split.
    + exists T', (R1 ++ R2). do 4 (split; [done|]). rewrite Hi, Ens in Hv. apply Forall_app in Hv as [Hv1 Hv2].
      split; [|by apply Forall_app; split; [|constructor]]. rewrite Hi, Ens, nodes_sorted_app in Hs.
      destruct Hs as (H1 & H2 & H3). rewrite nodes_sorted_app, sorted_cons. split; [done|]. split; [split; [|done]|].
      * eapply List.Forall_impl; [|exact Haf]. by intros a Hlt.
      * rewrite list_relations.list.Forall_forall in *. intros a Hin. constructor; [|by apply H3].
        unfold less. rewrite cmp_opp. rewrite (Hb a Hin). done.
    + rewrite (state_perm _ ((cells T 0 ++ [(node, g)]) ++ R1 ++ R2) _ Hok) by (by rewrite <- (assoc_L (++))).
      apply frame_unchanged. intros a. rewrite map_app, elem_of_app, !cells_inorder, Hi, Hi', Ens. cbn.
      rewrite !elem_of_cons, !elem_of_app, elem_of_cons, elem_of_nil. tauto.
Qed.

Lemma nodes_nodup T R : cells_ok (cells T 0 ++ R) -> NoDup (inorder T).
Proof. intros [Hn _]. rewrite <- (cells_inorder T 0). rewrite map_app in Hn. by apply list_relations.list.NoDup_app in Hn as [? _]. Qed.
(** The position of a node of the sequence. *)
Lemma locate_split T R n A B : cells_ok (cells T 0 ++ R) -> inorder T = A ++ n :: B ->
  exists b l r π, T = plug (Node n b l r) π /\ A = before π ++ inorder l /\ B = inorder r ++ after π.
Proof.
  intros Hok E. destruct (locate n T) as (b & l & r & π & ->).
  { rewrite E, elem_of_app. right. apply list_elem_of_here. }
  exists b, l, r, π. split; [done|]. pose proof (nodes_nodup _ _ Hok) as Hnd.
  assert (E' : inorder (plug (Node n b l r) π) = (before π ++ inorder l) ++ n :: inorder r ++ after π)
    by (rewrite inorder_at; cbn; by rewrite <- !(assoc_L (++))).
  assert (Hin : forall C D, NoDup (C ++ n :: D) -> n ∉ C).
  { intros C D (_ & H & _)%list_relations.list.NoDup_app Hc. by eapply H, list_elem_of_here. }
  apply split_unique with (n := n); [congruence|eapply Hin; rewrite <- E; exact Hnd|eapply Hin; rewrite <- E'; exact Hnd].
Qed.
Lemma remove_represents o ns node A B : represents o ns -> ns = A ++ node :: B ->
  exists o', BAVL_Remove node o = Ret (tt, o') /\ represents o' (A ++ B) /\ unchanged ns o o'.
Proof.
  intros (T & R & -> & Hok & Ha & Hi & Hs & Hv) ->. destruct (locate_split T R node A B Hok Hi) as (b & l & r & π & -> & -> & ->).
  destruct (run_remove node b l r π R Ha) as (T' & nd & Hr & Ha' & Hi').
  assert (HL : cells (plug (Node node b l r) π) 0 ++ R ≡ₚ zip_cells (Node node b l r) π ++ R) by (by rewrite cells_plug).
  rewrite (state_perm _ _ _ Hok HL), rt_plug. pose proof Hok as Hok0. rewrite HL in Hok. destruct (Hr Hok) as [E Hok'].
  exists (state (cells T' 0 ++ (node, nd) :: R) (rt T')). split; [exact E|]. split.
  - exists T', ((node, nd) :: R). do 3 (split; [done|]). split; [rewrite Hi'; by rewrite <- !(assoc_L (++))|].
    apply Forall_app in Hv as [Hv1 [_ Hv2]%Forall_cons_1]. split; [|by apply Forall_app].
    apply nodes_sorted_app in Hs as (H1 & [_ H2]%sorted_cons & H3). apply nodes_sorted_app. split; [done|]. split; [done|].
    eapply List.Forall_impl; [|exact H3]. by intros a [_ ?]%Forall_cons_1.
  - rewrite <- (state_perm _ _ _ Hok0 HL).
    rewrite (state_perm (cells T' 0 ++ (node, nd) :: R) ((cells T' 0 ++ [(node, nd)]) ++ R)) by (done || by rewrite <- (assoc_L (++))).
    apply frame_unchanged. intros a. rewrite map_app, elem_of_app, !cells_inorder, inorder_at, Hi'. cbn.
    rewrite !elem_of_app, !elem_of_cons, elem_of_app, elem_of_nil. tauto.
Qed.

(** C30: inserting and removing. The tree [o] stands for the sorted sequence
    [ns] of nodes; an empty tree stands for the empty sequence. Inserting a new
    node either finds a node with an equal value, returns it and changes nothing,
    or puts the node where the sequence stays sorted and returns a neighbour of
    that place. Removing a node takes it out of the sequence. Both keep the tree
    balanced, with correct links, and change no object that is not in the tree. *)
Theorem bavl_updates o ns node : represents o ns ->
  (forall h, h !! 0 = None -> represents (BAVL_Init h) []) /\
  (is_Some (heap o !! node) -> node ∉ ns -> ok (value node) ->
   (exists c, c ∈ ns /\ comparator (value node) (value c) = 0 /\ BAVL_Insert value comparator node o = Ret ((false, c), o)) \/
   (exists A B ref o', ns = A ++ B /\ is_ref ref A B /\ BAVL_Insert value comparator node o = Ret ((true, ref), o') /\
      represents o' (A ++ node :: B) /\ unchanged (node :: ns) o o')) /\
  (forall A B, ns = A ++ node :: B ->
   exists o', BAVL_Remove node o = Ret (tt, o') /\ represents o' (A ++ B) /\ unchanged ns o o').
Proof.
  intros Ho. split; [|split].
  - intros h Hh. exists Leaf, (map_to_list h). unfold BAVL_Init, state. cbn. rewrite list_to_map_to_list.
    split; [done|]. split; [split; [apply NoDup_fst_map_to_list|]|split; [done|split; [done|split; constructor]]].
    intros ([k v] & E & Hin)%list_elem_of_fmap. cbn in E. subst k. apply elem_of_map_to_list in Hin. congruence.
  - by apply insert_represents.
  - intros A B. by apply remove_represents.
Qed.

Lemma lookup_represents o ns v : ok v -> represents o ns ->
  (exists c, c ∈ ns /\ comparator v (value c) = 0 /\
     BAVL_LookupExact value comparator v o = Ret (c, o) /\ BAVL_Lookup value comparator v o = Ret (c, o)) \/
  (exists A B ref, ns = A ++ B /\ Forall (above v) A /\ Forall (below v) B /\ is_ref ref A B /\
     BAVL_LookupExact value comparator v o = Ret (0, o) /\ BAVL_Lookup value comparator v o = Ret (ref, o)).
Proof.
  intros Hv (T & R & -> & Hok & Ha & Hi & Hs & Hvs). rewrite <- Hi in Hs, Hvs.
  pose proof (find_ok v Hv T [] Hvs Hs ltac:(constructor) ltac:(constructor)) as Hfind.
  assert (Hrun : forall exact, (r ← get_root; if r =? 0 then mret 0 else with_fuel (fun fuel => lookup_loop value comparator fuel exact v r))
    (state (cells T 0 ++ R) (rt T)) = Ret (found exact (find v T []), state (cells T 0 ++ R) (rt T))).
  { intros exact. refine (proj1 (run_bind _ _ get_root _ _ _ _ _ _ _ (run_root _ _) _ Hok)). destruct (decide (T = Leaf)) as [->|HT].
    - apply run_ret.
    - apply run_pure. intros _. rewrite <- zip_root in *. rewrite (rt_nonzero _ _ _ HT Hok). apply run_fuel, run_lookup_loop; [done|].
      pose proof (height_cells T (up [] 0)). unfold zip_cells. rewrite !length_app. lia. }
  pose proof (Hrun true) as E1. pose proof (Hrun false) as E2. destruct (find v T []) as [[c|] ρ].
  - left. exists c. rewrite <- Hi. destruct Hfind as [H1 H2]. done.
  - right. destruct Hfind as (Ep & Hb & Haf). exists (before ρ), (after ρ), (up ρ 0).
    split; [rewrite <- Hi; change T with (plug T []); by rewrite <- Ep, inorder_at|]. do 2 (split; [done|]). split; [apply path_ref|].
    by destruct ρ.
Qed.
Lemma ends_represents o ns : represents o ns ->
  BAVL_IsEmpty o = Ret (bool_decide (ns = []), o) /\ BAVL_GetFirst o = Ret (hd 0 ns, o) /\ BAVL_GetLast o = Ret (List.last ns 0, o).
Proof.
  intros (T & R & -> & Hok & Ha & <- & Hs & Hvs). destruct (decide (T = Leaf)) as [->|HT]; [done|].
  pose proof Hok as Hz. rewrite <- zip_root in Hz. apply (rt_nonzero _ _ _ HT) in Hz.
  assert (Hend : forall d, run (cells T 0 ++ R) (rt T) (r ← get_root; if r =? 0 then mret 0 else with_fuel (fun fuel => subtree_end fuel d r))
    (end_of d (inorder T)) (cells T 0 ++ R) (rt T)).
  { intros d. eapply run_bind; [apply run_root|]. rewrite Hz, <- zip_root. by apply run_end. }
  split; [|split; [by apply (Hend false)|by apply (Hend true)]].
  unfold BAVL_IsEmpty, mbind, act_bind. cbn. rewrite Hz. rewrite bool_decide_eq_false_2; [done|]. intros E.
  apply rt_inorder in HT. rewrite E in HT. by apply elem_of_nil in HT.
Qed.
Lemma neighbours_represent o ns A n B : represents o ns -> ns = A ++ n :: B ->
  BAVL_GetNext n o = Ret (hd 0 B, o) /\ BAVL_GetPrev n o = Ret (List.last A 0, o).
Proof.
  intros (T & R & -> & Hok & Ha & Hi & Hs & Hvs) ->. destruct (locate_split T R n A B Hok Hi) as (b & l & r & π & -> & -> & ->).
  assert (Hrun : forall d, run (cells (plug (Node n b l r) π) 0 ++ R) (rt (plug (Node n b l r) π)) (neighbour d n)
    (if d then hd 0 (inorder r ++ after π) else List.last (before π ++ inorder l) 0)
    (cells (plug (Node n b l r) π) 0 ++ R) (rt (plug (Node n b l r) π))) by (intros d; rewrite cells_plug; apply run_neighbour).
  split; [by apply (Hrun true)|by apply (Hrun false)].
Qed.

Lemma verify_represents o ns : represents o ns ->
  BAVL_Verify value comparator o = Ret (tt, o) /\
  (ns <> [] -> exists h, _BAVL_assert_recurser value comparator (S (size (heap o))) (root o) o = Ret (h, o) /\
     2 ^ h <= (zlen ns + 1) * (zlen ns + 1) /\
     forall exact v fuel, h <= Z.of_nat fuel -> exists c, lookup_loop value comparator fuel exact v (root o) o = Ret (c, o)).
Proof.
  intros (T & R & -> & Hok & Ha & <- & Hs & Hvs). destruct (decide (T = Leaf)) as [->|HT]; [split; [done|by cbn]|].
  pose proof Hok as Hz. rewrite <- zip_root in Hz. apply (rt_nonzero _ _ _ HT) in Hz.
  assert (Hrun : run (cells T 0 ++ R) (rt T) (with_fuel (fun fuel => _BAVL_assert_recurser value comparator fuel (rt T))) (height T)
    (cells T 0 ++ R) (rt T)).
  { rewrite <- zip_root. apply run_fuel, run_assert; [done..|]. pose proof (height_cells T (up [] 0)). unfold zip_cells. rewrite !length_app. lia. }
  split.
  - unfold BAVL_Verify. refine (proj1 (run_bind _ _ get_root _ _ _ _ _ _ _ (run_root _ _) _ Hok)). rewrite Hz. cbn [negb when].
    eapply run_bind; [rewrite <- zip_root; by apply run_parent|]. eapply run_bind; [by apply run_check|].
    eapply run_bind; [rewrite zip_root; exact Hrun|apply run_ret].
  - intros _. exists (height T). split; [apply (Hrun Hok)|]. split; [by apply balanced|]. intros exact v fuel Hf.
    exists (found exact (find v T [])). cbn [root state].
    assert (Hl : run (cells T 0 ++ R) (rt T) (lookup_loop value comparator fuel exact v (rt T)) (found exact (find v T [])) (cells T 0 ++ R) (rt T))
      by (rewrite <- zip_root; by apply run_lookup_loop).
    by apply Hl.
Qed.

(** Reading. Looking up a value returns the node with an equal value if
    there is one; otherwise [BAVL_LookupExact] returns null and [BAVL_Lookup] a
    neighbour of the place of the value. Iteration in both directions follows the
    sequence. No reading changes the tree. The checks of [BAVL_Verify] hold, and
    the height [h] it computes is at most twice the logarithm of the number of
    nodes: a search takes at most [h] steps. *)
Theorem bavl_queries o ns : represents o ns ->
  (forall v, ok v ->
   (exists c, c ∈ ns /\ comparator v (value c) = 0 /\
      BAVL_LookupExact value comparator v o = Ret (c, o) /\ BAVL_Lookup value comparator v o = Ret (c, o)) \/
   (exists A B ref, ns = A ++ B /\ Forall (above v) A /\ Forall (below v) B /\ is_ref ref A B /\
      BAVL_LookupExact value comparator v o = Ret (0, o) /\ BAVL_Lookup value comparator v o = Ret (ref, o))) /\
  (BAVL_IsEmpty o = Ret (bool_decide (ns = []), o) /\ BAVL_GetFirst o = Ret (hd 0 ns, o) /\ BAVL_GetLast o = Ret (List.last ns 0, o)) /\
  (forall A n B, ns = A ++ n :: B -> BAVL_GetNext n o = Ret (hd 0 B, o) /\ BAVL_GetPrev n o = Ret (List.last A 0, o)) /\
  BAVL_Verify value comparator o = Ret (tt, o) /\
  (ns <> [] -> exists h, _BAVL_assert_recurser value comparator (S (size (heap o))) (root o) o = Ret (h, o) /\
     2 ^ h <= (zlen ns + 1) * (zlen ns + 1) /\
     forall exact v fuel, h <= Z.of_nat fuel -> exists c, lookup_loop value comparator fuel exact v (root o) o = Ret (c, o)).
Proof.
  intros Ho. split; [intros v Hv; by apply lookup_represents|]. split; [by apply ends_represents|].
  split; [intros A n B; by apply neighbours_represent|]. by apply verify_represents.
Qed.
End set.

(** Only the values of the nodes in the tree matter. *)
Lemma represents_ext {V} (ok : V -> Prop) v v' cmp o ns : (forall n, n ∈ ns -> v n = v' n) ->
  represents ok v cmp o ns -> represents ok v' cmp o ns.
Proof.
  intros Hv (T & R & E & Hok & Ha & Hi & Hs & Hvs). exists T, R. do 4 (split; [done|]). clear Hi E. split.
  - induction Hs as [|n ns Hs IH Hn]; constructor.
    + apply IH; [|by apply Forall_cons_1 in Hvs as [_ ?]]. intros m Hm. apply Hv. by right.
    + rewrite list_relations.list.Forall_forall in *. intros m Hm. unfold less. rewrite <- !Hv by (by left || by right). by apply Hn.
  - unfold values_ok in *. rewrite list_relations.list.Forall_forall in *. intros m Hm. rewrite <- Hv by done. by apply Hvs.
Qed.

(** *** Examples: nodes with the value three times their address *)
Definition demo_cmp (x y : Z) : Z := if x <? y then -1 else if x =? y then 0 else 1.
#[local] Instance demo_comparator : Comparator (fun _ => True) demo_cmp.
Proof. split; [intros x y|intros x y|intros x y z _ _ _]; unfold demo_cmp; zcases; lia. Qed.
Definition demo_value (a : Z) : Z := 3 * a.
Definition demo_node : BAVLNode := mkNode 77 77 77 77.
Fixpoint demo_insert (ns : list Z) (o : BAVL) : BAVL :=
  match ns with
  | [] => o
  | n :: ns => demo_insert ns (match BAVL_Insert demo_value demo_cmp n o with Ret (_, o) => o | _ => o end)
  end.
Definition demo_tree : BAVL := demo_insert [3; 1; 5] (BAVL_Init (list_to_map (map (fun a => (a, demo_node)) [1; 3; 4; 5]))).
Lemma demo_represents : represents (fun _ => True) demo_value demo_cmp demo_tree [1; 3; 5].
Proof.
  exists (Node 3 0 (Node 1 0 Leaf Leaf) (Node 5 0 Leaf Leaf)), [(4, demo_node)].
  split; [vm_compute; reflexivity|]. split; [vm_compute; split; [by apply (bool_decide_unpack _)|]|].
  - intros H. repeat (apply elem_of_cons in H as [H|H]; [done|]). by apply elem_of_nil in H.
  - split; [cbn; lia|]. split; [done|]. split; [|by repeat constructor]. repeat constructor.
Qed.

Lemma bavl_updates_witness :
  (exists ref o', BAVL_Insert demo_value demo_cmp 4 demo_tree = Ret ((true, ref), o')) /\
  (exists o', BAVL_Remove 3 demo_tree = Ret (tt, o') /\ represents (fun _ => True) demo_value demo_cmp o' [1; 5]).
Proof.
  split.
  - destruct (bavl_updates (fun _ => True) demo_value demo_cmp demo_tree [1; 3; 5] 4 demo_represents) as (_ & Hi & _).
    destruct Hi as [(c & Hc & E & _) | (A & B & ref & o' & _ & _ & E & _)]; [vm_compute; eauto|by apply (bool_decide_unpack _)|done| |by eauto].
    exfalso. repeat (apply elem_of_cons in Hc as [-> | Hc]; [done|]). by apply elem_of_nil in Hc.
  - destruct (bavl_updates (fun _ => True) demo_value demo_cmp demo_tree [1; 3; 5] 3 demo_represents) as (_ & _ & Hr).
    destruct (Hr [1] [5] eq_refl) as (o' & E & H & _). exists o'. split; [exact E|exact H].
Defined.
Lemma bavl_queries_witness :
  BAVL_GetFirst demo_tree = Ret (1, demo_tree) /\ BAVL_GetNext 1 demo_tree = Ret (3, demo_tree) /\
  BAVL_Verify demo_value demo_cmp demo_tree = Ret (tt, demo_tree).
Proof.
  destruct (bavl_queries (fun _ => True) demo_value demo_cmp demo_tree [1; 3; 5] demo_represents) as (_ & (_ & Hf & _) & Hn & Hv & _).
  split; [exact Hf|]. split; [exact (proj1 (Hn [] 1 [3; 5] eq_refl))|exact Hv].
Defined.
End BavlSet.
