(* ===== verification/FlowInterfaces.v ===== *)
(** * base/BPending.c, flow/PacketPassInterface and flow/PacketRecvInterface

    The flow layer of badvpn is asynchronous: a user starts an operation, a job
    in the pending group later calls the provider's handler, the provider
    finishes the operation, and another job calls the user's handler back. The
    pending group is a stack: the job set last runs first. The interfaces are
    modelled as state machines over such a stack; [Undef] marks a violated
    assertion of the source. *)
From S2P Require Import Prelude.

(** ** base/BPending.c *)
Module BPending.
Section group.
Context {job : Type} `{EqDecision job}.

(** The jobs list of a [BPendingGroup]; a job is in it at most once. *)
Definition BPendingGroup := list job.

Definition BPendingGroup_Init : BPendingGroup := [].

Definition BPendingGroup_HasJobs (g : BPendingGroup) : bool :=
  match g with [] => false | _ => true end.

Definition List_Remove (o : job) (g : BPendingGroup) : BPendingGroup :=
  filter (fun j => j <> o) g.

Definition BSmallPending_IsSet (o : job) (g : BPendingGroup) : bool :=
  bool_decide (o ∈ g).

Definition BSmallPending_Set (o : job) (g : BPendingGroup) : BPendingGroup :=
  let g := if BSmallPending_IsSet o g then List_Remove o g else g in
  o :: g.

Definition BSmallPending_Unset (o : job) (g : BPendingGroup) : BPendingGroup :=
  if BSmallPending_IsSet o g then List_Remove o g else g.

(** [BPendingGroup_ExecuteJob]: the job taken and the group its handler runs with. *)
Definition BPendingGroup_ExecuteJob (g : BPendingGroup) : cres (job * BPendingGroup) :=
  match g with
  | [] => Undef
  | p :: g => Ret (p, g)
  end.

Lemma elem_of_Set o j g : j ∈ BSmallPending_Set o g <-> j = o \/ j ∈ g.
Proof.
  unfold BSmallPending_Set, BSmallPending_IsSet, List_Remove.
  rewrite elem_of_cons. case_bool_decide; [|tauto].
  rewrite list_elem_of_filter. destruct (decide (j = o)); tauto.
Qed.

Lemma elem_of_Unset o j g : j ∈ BSmallPending_Unset o g <-> j <> o /\ j ∈ g.
Proof.
  unfold BSmallPending_Unset, BSmallPending_IsSet, List_Remove.
  case_bool_decide; [by rewrite list_elem_of_filter|].
  split; [|tauto]. intros Hj. split; [congruence|done].
Qed.

Lemma NoDup_Set o g : NoDup g -> NoDup (BSmallPending_Set o g).
Proof.
  intros Hg. unfold BSmallPending_Set, BSmallPending_IsSet, List_Remove.
  constructor; case_bool_decide; auto.
  - rewrite list_elem_of_filter. tauto.
  - by apply list.NoDup_filter.
Qed.

Lemma NoDup_Unset o g : NoDup g -> NoDup (BSmallPending_Unset o g).
Proof.
  intros Hg. unfold BSmallPending_Unset, List_Remove.
  case_match; [by apply list.NoDup_filter|done].
Qed.

(** The operations a handler performs on a group. *)
Inductive pending_op := OpSet (o : job) | OpUnset (o : job) | OpExecute.

Definition run_op (g : BPendingGroup) (op : pending_op) : BPendingGroup :=
  match op with
  | OpSet o => BSmallPending_Set o g
  | OpUnset o => BSmallPending_Unset o g
  | OpExecute => match BPendingGroup_ExecuteJob g with Ret (_, g') => g' | _ => g end
  end.

Lemma NoDup_run_op g op : NoDup g -> NoDup (run_op g op).
Proof.
  destruct op; cbn; [apply NoDup_Set|apply NoDup_Unset|].
  intros Hg. destruct g; [done|]. by inversion Hg.
Qed.

Lemma NoDup_run ops g : NoDup g -> NoDup (foldl run_op g ops).
Proof. revert g. induction ops; cbn; auto using NoDup_run_op. Qed.

(** The pending group is a stack without duplicates. In every group reached
    from the initial one no job is queued twice; a job that was set is the next
    one to be executed, whatever was pending, and after it ran the group is the
    old one without it; a job that was unset is not executed. *)
Theorem pending_group_stack ops o :
  let g := foldl run_op BPendingGroup_Init ops in
  NoDup g /\
  (exists g', BPendingGroup_ExecuteJob (BSmallPending_Set o g) = Ret (o, g') /\
     (o ∉ g') /\ (forall j, j <> o -> (j ∈ g' <-> j ∈ g))) /\
  (o ∉ BSmallPending_Unset o g).
Proof.
  intros g. assert (NoDup g) as Hg by (apply NoDup_run; constructor).
  split; [done|]. split; [|rewrite elem_of_Unset; tauto].
  pose proof (NoDup_Set o g Hg) as Hs. eexists; split; [reflexivity|].
  split; [by inversion Hs|]. intros j Hj.
  pose proof (elem_of_Set o j g) as He. unfold BSmallPending_Set in He.
  rewrite elem_of_cons in He. tauto.
Qed.
End group.
End BPending.

(** ** flow/PacketPassInterface *)
Module PacketPassInterface.
Import BPending.

Inductive ppi_state :=
| PPI_STATE_NONE
| PPI_STATE_OPERATION_PENDING
| PPI_STATE_BUSY
| PPI_STATE_DONE_PENDING.

Inductive ppi_job := job_operation | job_requestcancel | job_done.

#[global] Instance ppi_state_eq_dec : EqDecision ppi_state.
Proof. solve_decision. Defined.
#[global] Instance ppi_job_eq_dec : EqDecision ppi_job.
Proof. solve_decision. Defined.

Record PacketPassInterface := mkPPI {
  mtu : Z;
  has_cancel : bool;              (* handler_requestcancel *)
  has_done : bool;                (* handler_done *)
  jobs : list ppi_job;            (* the jobs of this interface, set last first *)
  job_operation_data : list Z;    (* the packet, [job_operation_len] its length *)
  state : ppi_state;
  cancel_requested : bool;
}.

(** What the interface calls. *)
Inductive event :=
| handler_operation (data : list Z)
| handler_requestcancel
| handler_done.

Definition set_state (i : PacketPassInterface) (s : ppi_state) (js : list ppi_job) :=
  mkPPI (mtu i) (has_cancel i) (has_done i) js (job_operation_data i) s (cancel_requested i).

Definition Init (m : Z) : PacketPassInterface :=
  mkPPI m false false [] [] PPI_STATE_NONE false.

Definition EnableCancel (i : PacketPassInterface) : cres PacketPassInterface :=
  _ ← assert (negb (has_cancel i)); _ ← assert (negb (has_done i));
  Ret (mkPPI (mtu i) true (has_done i) (jobs i) (job_operation_data i) (state i)
         (cancel_requested i)).

Definition Sender_Init (i : PacketPassInterface) : cres PacketPassInterface :=
  _ ← assert (negb (has_done i));
  Ret (mkPPI (mtu i) (has_cancel i) true (jobs i) (job_operation_data i) (state i)
         (cancel_requested i)).

Definition Done (i : PacketPassInterface) : cres PacketPassInterface :=
  _ ← assert (bool_decide (state i = PPI_STATE_BUSY));
  let js := BSmallPending_Unset job_requestcancel (jobs i) in
  let js := BSmallPending_Set job_done js in
  Ret (set_state i PPI_STATE_DONE_PENDING js).

Definition Sender_Send (i : PacketPassInterface) (data : list Z) : cres PacketPassInterface :=
  _ ← assert (Z.of_nat (length data) <=? mtu i);
  _ ← assert (bool_decide (state i = PPI_STATE_NONE));
  _ ← assert (has_done i);
  Ret (mkPPI (mtu i) (has_cancel i) (has_done i)
         (BSmallPending_Set job_operation (jobs i)) data
         PPI_STATE_OPERATION_PENDING false).

Definition Sender_RequestCancel (i : PacketPassInterface) : cres PacketPassInterface :=
  _ ← assert (negb (bool_decide (state i = PPI_STATE_NONE)));
  _ ← assert (has_cancel i);
  if cancel_requested i then Ret i
  else
    let i := mkPPI (mtu i) (has_cancel i) (has_done i) (jobs i)
               (job_operation_data i) (state i) true in
    match state i with
    | PPI_STATE_OPERATION_PENDING =>
        let js := BSmallPending_Unset job_operation (jobs i) in
        let js := BSmallPending_Set job_done js in
        Ret (set_state i PPI_STATE_DONE_PENDING js)
    | PPI_STATE_BUSY =>
        Ret (set_state i PPI_STATE_BUSY (BSmallPending_Set job_requestcancel (jobs i)))
    | _ => Ret i
    end.

Definition _job_operation (i : PacketPassInterface) : cres (PacketPassInterface * event) :=
  _ ← assert (bool_decide (state i = PPI_STATE_OPERATION_PENDING));
  Ret (set_state i PPI_STATE_BUSY (jobs i), handler_operation (job_operation_data i)).

Definition _job_requestcancel (i : PacketPassInterface) : cres (PacketPassInterface * event) :=
  _ ← assert (bool_decide (state i = PPI_STATE_BUSY));
  _ ← assert (cancel_requested i); _ ← assert (has_cancel i);
  Ret (i, handler_requestcancel).

Definition _job_done (i : PacketPassInterface) : cres (PacketPassInterface * event) :=
  _ ← assert (bool_decide (state i = PPI_STATE_DONE_PENDING));
  Ret (set_state i PPI_STATE_NONE (jobs i), handler_done).

(** The pending group executes the first job of this interface. *)
Definition run_job (i : PacketPassInterface) : cres (PacketPassInterface * event) :=
  '(j, js) ← BPendingGroup_ExecuteJob (jobs i);
  let i := set_state i (state i) js in
  match j with
  | job_operation => _job_operation i
  | job_requestcancel => _job_requestcancel i
  | job_done => _job_done i
  end.

(** ** The protocol between sender and provider *)

(** What happens at the interface. A sender sends when idle, and may cancel
    what it sent; the provider finishes what it was handed; jobs run. *)
Inductive action :=
| ASend (data : list Z)
| ACancel
| ADone
| AJob.

(** An action its caller is allowed to take: the documented duties of the
    sender (one packet at a time, within the MTU, cancel only when supported
    and something was sent) and of the provider (finish only what it has). *)
Definition allowed (i : PacketPassInterface) (a : action) : Prop :=
  match a with
  | ASend data => state i = PPI_STATE_NONE /\ Z.of_nat (length data) <= mtu i
  | ACancel => has_cancel i = true /\ state i <> PPI_STATE_NONE
  | ADone => state i = PPI_STATE_BUSY
  | AJob => jobs i <> []
  end.

Definition act (i : PacketPassInterface) (a : action) :
    cres (PacketPassInterface * list event) :=
  match a with
  | ASend data => i ← Sender_Send i data; Ret (i, [])
  | ACancel => i ← Sender_RequestCancel i; Ret (i, [])
  | ADone => i ← Done i; Ret (i, [])
  | AJob => '(i, e) ← run_job i; Ret (i, [e])
  end.

(** States reached from an idle interface, with the actions taken and the
    handlers called, oldest first. *)
Inductive reach (i0 : PacketPassInterface) :
    list action -> list event -> PacketPassInterface -> Prop :=
| reach_nil : reach i0 [] [] i0
| reach_step acts evs i a i' es :
    reach i0 acts evs i -> allowed i a -> act i a = Ret (i', es) ->
    reach i0 (acts ++ [a]) (evs ++ es) i'.

(** The jobs that are set, by state. *)
Definition jobs_ok (i : PacketPassInterface) : Prop :=
  match state i with
  | PPI_STATE_NONE => jobs i = []
  | PPI_STATE_OPERATION_PENDING => jobs i = [job_operation] /\ cancel_requested i = false
  | PPI_STATE_BUSY => jobs i = [] \/
      jobs i = [job_requestcancel] /\ cancel_requested i = true /\ has_cancel i = true
  | PPI_STATE_DONE_PENDING => jobs i = [job_done]
  end.

Definition idle (i : PacketPassInterface) : Prop :=
  state i = PPI_STATE_NONE /\ jobs i = [] /\ has_done i = true.

Definition ok (i : PacketPassInterface) : Prop := jobs_ok i /\ has_done i = true.

(** The transitions of the interface, as its documentation draws them. *)
Inductive trans (i i' : PacketPassInterface) : action -> list event -> Prop :=
| t_send d : state i = PPI_STATE_NONE -> state i' = PPI_STATE_OPERATION_PENDING ->
    job_operation_data i' = d -> trans i i' (ASend d) []
| t_cancel_early : state i = PPI_STATE_OPERATION_PENDING ->
    state i' = PPI_STATE_DONE_PENDING -> trans i i' ACancel []
| t_cancel : state i <> PPI_STATE_NONE -> state i' = state i ->
    job_operation_data i' = job_operation_data i -> trans i i' ACancel []
| t_done : state i = PPI_STATE_BUSY -> state i' = PPI_STATE_DONE_PENDING ->
    trans i i' ADone []
| t_job_operation : state i = PPI_STATE_OPERATION_PENDING -> state i' = PPI_STATE_BUSY ->
    trans i i' AJob [handler_operation (job_operation_data i)]
| t_job_requestcancel : state i = PPI_STATE_BUSY -> state i' = PPI_STATE_BUSY ->
    trans i i' AJob [handler_requestcancel]
| t_job_done : state i = PPI_STATE_DONE_PENDING -> state i' = PPI_STATE_NONE ->
    trans i i' AJob [handler_done].

Local Ltac run_ppi :=
  eexists _, _; split; [reflexivity|];
  split; [split; cbn; auto 6|
    cbn; first [by apply t_send|by apply t_cancel_early|by apply t_cancel|by apply t_done
          |by apply t_job_operation|by apply t_job_requestcancel|by apply t_job_done]].

(** No allowed action violates an assertion; it makes one of the transitions. *)
Lemma act_ok i a :
  ok i -> allowed i a -> exists i' es, act i a = Ret (i', es) /\ ok i' /\ trans i i' a es.
Proof.
  intros [Hj Hd]. destruct i as [m hc hd js dat st cr]; cbn in *. subst hd.
  unfold jobs_ok in Hj; cbn in Hj.
  destruct a as [data| | |]; cbn.
  - intros [-> Hm]. subst js. unfold Sender_Send, assert; cbn [mtu state has_done].
    rewrite (proj2 (Z.leb_le _ _) Hm). run_ppi.
  - intros [-> Hs]. destruct st; [done|..].
    + destruct Hj as [-> ->]. run_ppi.
    + destruct Hj as [->|(-> & -> & _)]; [destruct cr|]; run_ppi.
    + subst js. destruct cr; run_ppi.
  - intros ->. destruct Hj as [->|(-> & -> & ->)]; run_ppi.
  - intros Hne. destruct st; [by subst js|..].
    + destruct Hj as [-> ->]. run_ppi.
    + destruct Hj as [->|(-> & -> & ->)]; [done|]. run_ppi.
    + subst js. run_ppi.
Qed.

Definition is_send (a : action) : option (list Z) :=
  match a with ASend d => Some d | _ => None end.
Definition is_cancel (a : action) : option unit :=
  match a with ACancel => Some () | _ => None end.
Definition is_done (e : event) : bool :=
  match e with handler_done => true | _ => false end.
Definition delivered (e : event) : option (list Z) :=
  match e with handler_operation d => Some d | _ => None end.

(** The packet of the operation in progress that the provider has not seen. *)
Definition undelivered (i : PacketPassInterface) : list (list Z) :=
  match state i with PPI_STATE_OPERATION_PENDING => [job_operation_data i] | _ => [] end.
Definition in_progress (i : PacketPassInterface) : nat :=
  match state i with PPI_STATE_NONE => 0 | _ => 1 end.

Record history (acts : list action) (evs : list event) (i : PacketPassInterface) : Prop := {
  hist_ok : ok i;
  hist_done : length (omap is_send acts) =
    (length (List.filter is_done evs) + in_progress i)%nat;
  hist_sub : omap delivered evs ++ undelivered i `sublist_of` omap is_send acts;
  hist_lost : (length (omap is_send acts) <=
    length (omap delivered evs) + length (undelivered i) + length (omap is_cancel acts))%nat;
  hist_all : Forall (fun a => a <> ACancel) acts ->
    omap delivered evs ++ undelivered i = omap is_send acts;
}.

Lemma sublist_shrink {A} (l k m : list A) : l ++ k `sublist_of` m -> l `sublist_of` m.
Proof. intros H. etransitivity; [|exact H]. by apply sublist_inserts_r. Qed.

Lemma history_step acts evs i a i' es :
  history acts evs i -> allowed i a -> act i a = Ret (i', es) ->
  history (acts ++ [a]) (evs ++ es) i'.
Proof.
  intros [Hok Hd Hs Hl Ha] Hall Hact.
  destruct (act_ok i a Hok Hall) as (i2 & es2 & E & Hok' & Ht).
  rewrite Hact in E. injection E as <- <-. unfold undelivered, in_progress in *.
  split; [done|..]; unfold undelivered, in_progress;
    rewrite !omap_app, ?List.filter_app, ?length_app, ?Forall_app;
    inversion Ht as [d H1 H2 H3|H1 H2|H1 H2 H3|H1 H2|H1 H2|H1 H2|H1 H2]; subst; cbn;
    rewrite ?H1, ?H2 in *; rewrite ?app_nil_r in *; cbn in *; try lia; auto.
  all: try (intros [Hf Hc]; inversion Hc; subst; specialize (Ha Hf)).
  all: try done.
  - by apply sublist_app.
  - by eapply sublist_shrink.
  - by rewrite H3.
  - rewrite H3. lia.
  - by rewrite Ha.
Qed.

Lemma reach_history i0 acts evs i : idle i0 -> reach i0 acts evs i -> history acts evs i.
Proof.
  intros (Hs & Hj & Hd). induction 1 as [|acts evs i a i' es _ IH Ha He].
  - split; cbn; unfold ok, jobs_ok, in_progress, undelivered; rewrite Hs; auto.
  - eapply history_step; eauto.
Qed.

(** C1: the packet-pass protocol. From an idle interface, whatever its two sides
    do within their duties: no assertion is ever violated; an operation that
    waits for a job has that job set (so the pending group makes progress);
    there is exactly one done notification per packet sent, and one operation at
    most is in progress; the provider is handed the packets in the order they
    were sent, each at most once; every cancellation keeps at most one packet
    from it, and without cancellations it is handed all of them. *)
Theorem packet_pass_protocol i0 acts evs i :
  idle i0 -> reach i0 acts evs i ->
  (forall a, allowed i a -> exists i' es, act i a = Ret (i', es)) /\
  (state i = PPI_STATE_OPERATION_PENDING \/ state i = PPI_STATE_DONE_PENDING ->
     allowed i AJob) /\
  length (omap is_send acts) = (length (List.filter is_done evs) + in_progress i)%nat /\
  omap delivered evs `sublist_of` omap is_send acts /\
  (length (omap is_send acts) <=
     length (omap delivered evs) + length (undelivered i) + length (omap is_cancel acts))%nat /\
  (Forall (fun a => a <> ACancel) acts ->
     omap delivered evs ++ undelivered i = omap is_send acts).
Proof.
  intros Hi Hr. destruct (reach_history _ _ _ _ Hi Hr) as [Hok Hd Hs Hl Ha].
  repeat split; auto.
  - intros a Hall. destruct (act_ok _ _ Hok Hall) as (i' & es & ? & _). eauto.
  - destruct Hok as [Hj _]. unfold jobs_ok in Hj. cbn.
    intros [E|E]; rewrite E in Hj; [destruct Hj as [-> _]|rewrite Hj]; done.
  - by eapply sublist_shrink.
Qed.

(** A packet is sent, handed over, finished and acknowledged. *)
Lemma packet_pass_protocol_witness :
  exists i, reach (mkPPI 10 false true [] [] PPI_STATE_NONE false)
    [ASend [1%Z; 2%Z]; AJob; ADone; AJob] [handler_operation [1%Z; 2%Z]; handler_done] i /\
  length (omap is_send [ASend [1%Z; 2%Z]; AJob; ADone; AJob]) =
    (length (List.filter is_done [handler_operation [1%Z; 2%Z]; handler_done]) + in_progress i)%nat.
Proof.
  assert (H : exists i, reach (mkPPI 10 false true [] [] PPI_STATE_NONE false)
    [ASend [1%Z; 2%Z]; AJob; ADone; AJob] [handler_operation [1%Z; 2%Z]; handler_done] i).
  { eexists.
    eapply (reach_step _ [ASend [1; 2]; AJob; ADone] [handler_operation [1; 2]] _ AJob);
      [eapply (reach_step _ [ASend [1; 2]; AJob] [handler_operation [1; 2]] _ ADone _ []);
        [eapply (reach_step _ [ASend [1; 2]] [] _ AJob);
          [eapply (reach_step _ [] [] _ (ASend [1; 2]) _ []);
             [apply reach_nil|split; [done|cbn; lia]|reflexivity]
          |done|reflexivity]
        |done|reflexivity]
      |done|reflexivity]. }
  destruct H as [i H]. exists i. split; [exact H|].
  refine (proj1 (proj2 (proj2 (packet_pass_protocol _ _ _ _ _ H)))). done.
Defined.

End PacketPassInterface.
