(* ===== verification/PacketBuffer.v ===== *)
(** * flow/PacketBuffer.c: a queue between a packet receiver and a packet sender

    The buffer receives packets from its input interface straight into the
    circular buffer and sends the oldest one to its output interface. It is
    proved against [PacketStore], the contract of the circular buffer;
    [ChunkBuffer2] is its instance. *)
From S2P Require Import Prelude ChunkBuffer2.

(** ** What PacketBuffer relies on *)

(** The fields of [ChunkBuffer2] it reads and the operations it calls. *)
Class PacketStore (B : Type) := {
  st_input_dest : B -> option Z;
  st_input_avail : B -> Z;
  st_output_avail : B -> Z;
  st_write : B -> Z -> list Z -> cres B;   (* a producer writes at a pointer *)
  st_read : B -> cres (list Z);            (* a consumer reads the output area *)
  st_submit : B -> Z -> cres B;
  st_consume : B -> cres B;
}.

(** Its contract: it is a queue, its free area is stable while packets are
    consumed, and it has room below [num] packets of at most [mtu] bytes. *)
Class PacketStoreOk (B : Type) `{PacketStore B} := {
  st_inv : B -> list (list Z) -> Prop;
  st_capacity : B -> Z -> Z -> Prop;
  st_submit_ok : forall b ps d data,
    st_inv b ps -> st_input_dest b = Some d -> Z.of_nat (length data) <= st_input_avail b ->
    exists b', (b1 ← st_write b d data; st_submit b1 (Z.of_nat (length data))) = Ret b' /\
      st_inv b' (ps ++ [data]) /\
      forall mtu num, st_capacity b mtu num -> st_capacity b' mtu num;
  st_write_fields : forall b d data b',
    st_write b d data = Ret b' -> st_output_avail b' = st_output_avail b;
  st_consume_ok : forall b p ps,
    st_inv b (p :: ps) -> st_read b = Ret p /\
    exists b', st_consume b = Ret b' /\ st_inv b' ps /\
      (forall d, st_input_dest b = Some d ->
         st_input_dest b' = Some d /\ st_input_avail b <= st_input_avail b') /\
      (forall mtu num, st_capacity b mtu num -> st_capacity b' mtu num);
  st_avail_dest : forall b ps, st_inv b ps -> 0 <= st_input_avail b ->
    exists d, st_input_dest b = Some d;
  st_output_avail_empty : forall b ps, st_inv b ps -> st_output_avail b < 0 <-> ps = [];
  st_room : forall b ps mtu num, st_inv b ps -> st_capacity b mtu num ->
    Forall (fun p => Z.of_nat (length p) <= mtu) ps -> Z.of_nat (length ps) < num ->
    mtu <= st_input_avail b;
}.

(** ** The circular buffer is such a store *)

#[export] Instance chunk_store : PacketStore ChunkBuffer2.ChunkBuffer2 := {|
  st_input_dest := ChunkBuffer2.input_dest;
  st_input_avail := ChunkBuffer2.input_avail;
  st_output_avail := ChunkBuffer2.output_avail;
  st_write b d data :=
    m ← of_option (store (ChunkBuffer2.buffer b) d data); Ret (ChunkBuffer2.set_buffer b m);
  st_read := ChunkBuffer2.read_output;
  st_submit := ChunkBuffer2.SubmitPacket;
  st_consume := ChunkBuffer2.ConsumePacket;
|}.

(** The geometry [calc_blocks] chooses for [num] packets of [mtu] bytes. *)
Definition chunk_capacity (b : ChunkBuffer2.ChunkBuffer2) (mtu num : Z) : Prop :=
  0 <= mtu /\
  ChunkBuffer2.mtu b = bdivide_up mtu ChunkBuffer2.block_size /\
  ChunkBuffer2.size b = (1 + ChunkBuffer2.mtu b) * (num + 1).

Lemma chunk_avail_dest b ps :
  ChunkBuffer2.inv b ps -> 0 <= ChunkBuffer2.input_avail b ->
  exists d, ChunkBuffer2.input_dest b = Some d.
Proof.
  intros Hinv Ha. pose proof (ChunkBuffer2.inv_in _ _ Hinv) as Hin.
  unfold ChunkBuffer2.input_of in Hin.
  destruct (ChunkBuffer2.input_dest b); [eauto|].
  destruct (_ <? _); [injection Hin; lia|].
  destruct (0 <? _); [discriminate|injection Hin; lia].
Qed.

#[export] Program Instance chunk_store_ok : PacketStoreOk ChunkBuffer2.ChunkBuffer2 := {|
  st_inv := ChunkBuffer2.inv;
  st_capacity := chunk_capacity;
|}.
Next Obligation.
  intros b ps d data Hinv Hd Hlen.
  destruct (ChunkBuffer2.submit_enqueues b ps d data Hinv Hd Hlen)
    as (b' & Hrun & Hinv' & Hs & Hm).
  exists b'. split; [|split; [done|]].
  - rewrite <- Hrun. unfold ChunkBuffer2.write_input. cbn in Hd. rewrite Hd. done.
  - intros mtu num (? & ? & ?). unfold chunk_capacity. rewrite Hs, Hm. auto.
Qed.
Next Obligation.
  cbn. intros b d data b' (m & _ & E)%bind_Ret_inv. by injection E as <-.
Qed.
Next Obligation.
  intros b p ps Hinv.
  destruct (ChunkBuffer2.consume_dequeues b p ps Hinv) as (Hr & b' & Hc & Hinv' & Hs & Hm).
  split; [done|]. exists b'. split; [done|]. split; [done|]. split.
  - intros d Hd. by eapply ChunkBuffer2.consume_keeps_input.
  - intros mtu num (? & ? & ?). unfold chunk_capacity. rewrite Hs, Hm. auto.
Qed.
Next Obligation. intros. by eapply chunk_avail_dest. Qed.
Next Obligation.
  intros b ps Hinv. pose proof (ChunkBuffer2.inv_out _ _ Hinv) as Ho. cbn.
  destruct ps; destruct Ho as [_ ->]; split; intros; try done; lia.
Qed.
Next Obligation.
  intros b ps mtu num Hinv (H0 & Hm & Hs) Hall Hlen.
  destruct (ChunkBuffer2.room_for_packet b ps _ num Hinv eq_refl Hs) as (d & _ & Hr); auto.
  - eapply List.Forall_impl; [|exact Hall]. intros p Hp%ChunkBuffer2.blocks_of_mono. lia.
  - pose proof (bdivide_up_spec mtu H0). unfold ChunkBuffer2.block_size in *. cbn. lia.
Qed.

(** ** The component *)
Module PacketBuffer.
Section buffer.
Context {B : Type} `{PacketStoreOk B}.

(** [input_op] is the pointer of the receive that is outstanding at the input
    interface, [output_op] the packet whose send is outstanding at the output. *)
Record PacketBuffer := mkPacketBuffer {
  input_mtu : Z;
  buf : B;
  input_op : option Z;
  output_op : bool;
}.

(** [PacketRecvInterface_Receiver_Recv(buf->input, dest)]: the interface is idle. *)
Definition Receiver_Recv (b : PacketBuffer) (dest : option Z) : cres PacketBuffer :=
  match input_op b, dest with
  | None, Some d => Ret (mkPacketBuffer (input_mtu b) (buf b) (Some d) (output_op b))
  | _, _ => Undef
  end.

(** [PacketPassInterface_Sender_Send(buf->output, output_dest, output_avail)] *)
Definition Sender_Send (b : PacketBuffer) : cres PacketBuffer :=
  if output_op b then Undef
  else Ret (mkPacketBuffer (input_mtu b) (buf b) (input_op b) true).

Definition set_buf (b : PacketBuffer) (x : B) : PacketBuffer :=
  mkPacketBuffer (input_mtu b) x (input_op b) (output_op b).

Definition input_handler_done (b : PacketBuffer) (in_len : Z) : cres PacketBuffer :=
  let was_empty := st_output_avail (buf b) <? 0 in
  x ← st_submit (buf b) in_len;
  let b := set_buf b x in
  b ← (if input_mtu b <=? st_input_avail (buf b)
       then Receiver_Recv b (st_input_dest (buf b)) else Ret b);
  if was_empty then Sender_Send b else Ret b.

Definition output_handler_done (b : PacketBuffer) : cres PacketBuffer :=
  let was_full := st_input_avail (buf b) <? input_mtu b in
  x ← st_consume (buf b);
  let b := set_buf b x in
  b ← (if was_full && (input_mtu b <=? st_input_avail (buf b))
       then Receiver_Recv b (st_input_dest (buf b)) else Ret b);
  if 0 <=? st_output_avail (buf b) then Sender_Send b else Ret b.

(** [PacketBuffer_Init] on a freshly initialised store. *)
Definition PacketBuffer_Init (mtu : Z) (x : B) : cres PacketBuffer :=
  Receiver_Recv (mkPacketBuffer mtu x None false) (st_input_dest x).

(** ** Running it *)

(** [In data]: the input interface completes the receive with a packet.
    [Out]: the output interface completes the send of the packet it was given. *)
Inductive event := In (data : list Z) | Out.

Definition step (b : PacketBuffer) (e : event) : cres (PacketBuffer * list (list Z)) :=
  match e with
  | In data =>
      d ← of_option (input_op b);
      x ← st_write (buf b) d data;
      b ← input_handler_done (mkPacketBuffer (input_mtu b) x None (output_op b))
            (Z.of_nat (length data));
      Ret (b, [])
  | Out =>
      p ← st_read (buf b);
      b ← output_handler_done (mkPacketBuffer (input_mtu b) (buf b) (input_op b) false);
      Ret (b, [p])
  end.

(** What the two neighbours may do: a receive is completed only when one is
    outstanding and within the MTU, a send only when one is outstanding. *)
Definition enabled (b : PacketBuffer) (e : event) : Prop :=
  match e with
  | In data => input_op b <> None /\ Z.of_nat (length data) <= input_mtu b
  | Out => output_op b = true
  end.

(** Runs with the packets received and the packets sent. *)
Inductive run (b0 : PacketBuffer) : list (list Z) -> list (list Z) -> PacketBuffer -> Prop :=
| run_nil : run b0 [] [] b0
| run_in ins outs b data b' o : run b0 ins outs b -> enabled b (In data) ->
    step b (In data) = Ret (b', o) -> run b0 (ins ++ [data]) (outs ++ o) b'
| run_out ins outs b b' o : run b0 ins outs b -> enabled b Out ->
    step b Out = Ret (b', o) -> run b0 ins (outs ++ o) b'.

Record pb_inv (num : Z) (b : PacketBuffer) (ps : list (list Z)) : Prop := {
  pbi_mtu : 0 <= input_mtu b;
  pbi_store : st_inv (buf b) ps;
  pbi_cap : st_capacity (buf b) (input_mtu b) num;
  pbi_len : Forall (fun p => Z.of_nat (length p) <= input_mtu b) ps;
  pbi_in : match input_op b with
           | Some d => st_input_dest (buf b) = Some d /\ input_mtu b <= st_input_avail (buf b)
           | None => st_input_avail (buf b) < input_mtu b
           end;
  pbi_out : output_op b = true <-> ps <> [];
}.

Lemma step_in num b ps data :
  pb_inv num b ps -> enabled b (In data) ->
  exists b', step b (In data) = Ret (b', []) /\ pb_inv num b' (ps ++ [data]).
Proof.
  intros [Hm Hst Hcap Hlen Hin Hout] [Hop Hd]. cbn [step].
  destruct (input_op b) as [d|] eqn:Ed; [|done]. destruct Hin as [Hdest Hav].
  destruct (st_submit_ok _ ps d data Hst Hdest) as (x & Hx & Hst' & Hcap'); [lia|].
  cbn [of_option]. rewrite bind_Ret.
  apply bind_Ret_inv in Hx as (w & Hw & Hx). rewrite Hw, bind_Ret.
  unfold input_handler_done. cbn [buf input_mtu set_buf input_op output_op].
  rewrite (st_write_fields _ _ _ _ Hw), Hx, bind_Ret.
  assert (Hbi : exists op, (if input_mtu b <=? st_input_avail x
      then Receiver_Recv (set_buf (mkPacketBuffer (input_mtu b) w None (output_op b)) x)
             (st_input_dest x)
      else Ret (set_buf (mkPacketBuffer (input_mtu b) w None (output_op b)) x)) =
      Ret (mkPacketBuffer (input_mtu b) x op (output_op b)) /\
    match op with
    | Some d => st_input_dest x = Some d /\ input_mtu b <= st_input_avail x
    | None => st_input_avail x < input_mtu b
    end).
  { destruct (Z.leb_spec (input_mtu b) (st_input_avail x)) as [Hle|Hgt].
    - destruct (st_avail_dest _ _ Hst') as [d' Hd']; [lia|]. rewrite Hd'.
      by exists (Some d').
    - by exists None. }
  destruct Hbi as (op & Hr & Hop'). cbn [set_buf] in Hr. cbn [buf input_mtu].
  unfold set_buf in *. cbn in Hr |- *. rewrite Hr. cbn.
  pose proof (st_output_avail_empty _ _ Hst) as He.
  assert (Hlen' : Forall (fun p => Z.of_nat (length p) <= input_mtu b) (ps ++ [data]))
    by (apply Forall_app; auto).
  destruct (Z.ltb_spec (st_output_avail (buf b)) 0) as [Hlt|Hge].
  - assert (ps = []) as -> by by apply He.
    destruct (output_op b); [by destruct (proj1 Hout eq_refl)|]. cbn.
    eexists; split; [reflexivity|]. split; cbn; auto. done.
  - eexists; split; [reflexivity|]. split; cbn; auto.
    assert (ps <> []) as Hne by (intros Hps%He; lia).
    split; [|by intros _; apply Hout]. intros _. by destruct ps.
Qed.

Lemma step_out num b ps :
  pb_inv num b ps -> enabled b Out ->
  exists p ps' b', ps = p :: ps' /\ step b Out = Ret (b', [p]) /\ pb_inv num b' ps'.
Proof.
  intros [Hm Hst Hcap Hlen Hin Hout] Hop. cbn in Hop.
  destruct ps as [|p ps]; [by apply Hout in Hop|]. exists p, ps.
  destruct (st_consume_ok _ _ _ Hst) as (Hr & x & Hx & Hst' & Hkeep & Hcap').
  cbn [step]. rewrite Hr, bind_Ret. unfold output_handler_done.
  cbn [buf input_mtu]. rewrite Hx, bind_Ret. cbn [set_buf input_mtu buf input_op output_op].
  assert (Hbi : exists op, (if (st_input_avail (buf b) <? input_mtu b) &&
                               (input_mtu b <=? st_input_avail x)
      then Receiver_Recv (mkPacketBuffer (input_mtu b) x (input_op b) false) (st_input_dest x)
      else Ret (mkPacketBuffer (input_mtu b) x (input_op b) false)) =
      Ret (mkPacketBuffer (input_mtu b) x op false) /\
    match op with
    | Some d => st_input_dest x = Some d /\ input_mtu b <= st_input_avail x
    | None => st_input_avail x < input_mtu b
    end).
  { destruct (input_op b) as [d|].
    - destruct Hin as [Hd Ha]. destruct (Hkeep d Hd) as [Hd' Ha'].
      destruct (Z.ltb_spec (st_input_avail (buf b)) (input_mtu b)); [lia|].
      exists (Some d). repeat split; auto. lia.
    - destruct (Z.ltb_spec (st_input_avail (buf b)) (input_mtu b)); [|lia].
      destruct (Z.leb_spec (input_mtu b) (st_input_avail x)); cbn.
      + destruct (st_avail_dest _ _ Hst') as [d' Hd']; [lia|]. rewrite Hd'. by exists (Some d').
      + by exists None. }
  destruct Hbi as (op & Hrr & Hop'). unfold set_buf; cbn. rewrite Hrr. cbn.
  pose proof (st_output_avail_empty _ _ Hst') as He. inversion Hlen; subst.
  destruct (Z.leb_spec 0 (st_output_avail x)) as [Hge|Hlt].
  - eexists; split; [done|]. split; [reflexivity|]. split; cbn; auto.
    split; [|done]. intros _ Hps. apply He in Hps. lia.
  - eexists; split; [done|]. split; [reflexivity|]. split; cbn; auto.
    split; [done|]. intros Hne. destruct Hne. by apply He.
Qed.

Lemma run_inv num b0 ins outs b :
  pb_inv num b0 [] -> run b0 ins outs b -> exists ps, pb_inv num b ps /\ outs ++ ps = ins.
Proof.
  intros Hi0. induction 1 as [|ins outs b data b' o _ IH Hen Hst|ins outs b b' o _ IH Hen Hst].
  - by exists [].
  - destruct IH as (ps & Hps & Hio).
    destruct (step_in _ _ _ _ Hps Hen) as (b2 & E & Hinv). rewrite Hst in E.
    injection E as <- ->. exists (ps ++ [data]). split; [done|].
    by rewrite app_nil_r, app_assoc, Hio.
  - destruct IH as (ps & Hps & Hio).
    destruct (step_out _ _ _ Hps Hen) as (p & ps' & b2 & -> & E & Hinv). rewrite Hst in E.
    injection E as <- ->. exists ps'. split; [done|]. by rewrite <- app_assoc.
Qed.

Lemma init_inv mtu num x :
  0 <= mtu -> 0 < num -> st_inv x [] -> st_capacity x mtu num ->
  exists b, PacketBuffer_Init mtu x = Ret b /\ pb_inv num b [].
Proof.
  intros Hm Hn Hst Hcap. pose proof (st_room x [] mtu num Hst Hcap) as Hr.
  specialize (Hr ltac:(constructor) ltac:(cbn; lia)).
  destruct (st_avail_dest _ _ Hst) as [d Hd]; [lia|].
  unfold PacketBuffer_Init. rewrite Hd. eexists; split; [reflexivity|].
  split; cbn; auto. done.
Qed.

(** A receive is outstanding whenever fewer than [num] packets are queued. *)
Lemma receiving num b ps :
  pb_inv num b ps -> Z.of_nat (length ps) < num -> input_op b <> None.
Proof.
  intros [Hm Hst Hcap Hlen Hin _] Hn.
  pose proof (st_room _ _ _ _ Hst Hcap Hlen Hn). destruct (input_op b); [done|lia].
Qed.

End buffer.
Arguments PacketBuffer : clear implicits.

(** [PacketBuffer_Init] as the code composes it: the block count for
    [num_packets] packets of the input MTU, an array of that many blocks, the
    circular buffer in it, and the first receive. [mem] is the array
    [BAllocArray] returned; [None] is the failure path. *)
Definition Init (input_mtu num_packets : Z) (mem : Z -> option (list Z)) :
    cres (option (PacketBuffer ChunkBuffer2.ChunkBuffer2)) :=
  let num_blocks := ChunkBuffer2.calc_blocks input_mtu num_packets in
  if num_blocks <? 0 then Ret None
  else match mem num_blocks with
  | None => Ret None
  | Some m =>
      x ← ChunkBuffer2.Init m num_blocks input_mtu;
      b ← PacketBuffer_Init input_mtu x; Ret (Some b)
  end.

(** [BAllocArray(n, sizeof(block))] is [malloc]: it fails or returns an object
    of the size asked for, and an object has at most [PTRDIFF_MAX] bytes, which
    is [INT_MAX] on the 32-bit ABIs the library is built for. *)
Definition alloc_ok (mem : Z -> option (list Z)) : Prop :=
  forall n m, mem n = Some m ->
    Z.of_nat (length m) = ChunkBuffer2.block_size * n /\
    ChunkBuffer2.block_size * n <= ChunkBuffer2.INT_MAX.

Lemma Init_total input_mtu num mem :
  0 <= input_mtu -> 0 < num -> alloc_ok mem ->
  Init input_mtu num mem = Ret None \/ exists b, Init input_mtu num mem = Ret (Some b) /\ pb_inv num b [].
Proof.
  intros Hm Hn Hal. unfold Init.
  rewrite ChunkBuffer2.calc_blocks_spec by lia. cbn zeta.
  set (c := 1 + bdivide_up input_mtu ChunkBuffer2.block_size).
  pose proof (bdivide_up_spec input_mtu Hm) as Hd.
  destruct (_ && _); [|by left]. unfold ChunkBuffer2.block_size in *.
  assert (0 < c) by (subst c; lia).
  destruct (Z.ltb_spec (c * (num + 1)) 0); [by left|].
  destruct (mem _) as [m|] eqn:Em; [|by left]. destruct (Hal _ _ Em) as [Hl Hmax].
  destruct (ChunkBuffer2.Init_inv m (c * (num + 1)) input_mtu) as (x & Hx & Hinv & Hs & Hmt);
    [unfold ChunkBuffer2.block_size in *; subst c; nia..|].
  rewrite Hx, bind_Ret.
  destruct (init_inv input_mtu num x) as (b' & Hb & Hinv'); auto.
  { split; [done|]. rewrite Hs, Hmt. split; [done|]. reflexivity. }
  rewrite Hb. right. exists b'. split; [done|exact Hinv'].
Qed.

Lemma Init_ok input_mtu num mem b :
  0 <= input_mtu -> 0 < num -> alloc_ok mem -> Init input_mtu num mem = Ret (Some b) ->
  pb_inv num b [].
Proof.
  intros Hm Hn Hal E. destruct (Init_total input_mtu num mem Hm Hn Hal) as [E' | (b' & E' & Hb)]; [congruence|].
  rewrite E in E'. by injection E' as <-.
Qed.

(** C2: PacketBuffer is a lossless FIFO that does not stall. From a successful
    [PacketBuffer_Init], after any events its two interfaces may produce: the
    packets sent so far followed by the packets still queued are exactly the
    packets received, bytes and order; every further event the interfaces may
    produce is handled without an assertion failure or an access outside the
    buffer; a receive is outstanding whenever fewer than [num_packets] packets
    are queued, and a send is outstanding exactly when a packet is queued. *)
Theorem packet_buffer_fifo input_mtu num_packets mem b0 ins outs b :
  0 <= input_mtu -> 0 < num_packets -> alloc_ok mem ->
  Init input_mtu num_packets mem = Ret (Some b0) -> run b0 ins outs b ->
  exists queued,
    outs ++ queued = ins /\
    (forall e, enabled b e -> exists b' o, step b e = Ret (b', o)) /\
    (Z.of_nat (length queued) < num_packets -> input_op b <> None) /\
    (output_op b = true <-> queued <> []).
Proof.
  intros Hm Hn Hal Hi Hr. pose proof (Init_ok _ _ _ _ Hm Hn Hal Hi) as H0.
  destruct (run_inv _ _ _ _ _ H0 Hr) as (ps & Hinv & Hio).
  exists ps. split; [done|]. split; [|split; [by eapply receiving|by apply Hinv]].
  intros [data|] He.
  - destruct (step_in _ _ _ _ Hinv He) as (b' & ? & _). eauto.
  - destruct (step_out _ _ _ Hinv He) as (p & ps' & b' & _ & ? & _). eauto.
Qed.

(** Two packets through a buffer for packets of five bytes. *)
Definition demo_mem (n : Z) : option (list Z) :=
  if (0 <=? n) && (n <=? 100) then Some (replicate (Z.to_nat (4 * n)) 0) else None.

Lemma demo_mem_ok : alloc_ok demo_mem.
Proof.
  intros n m. unfold demo_mem, ChunkBuffer2.block_size, ChunkBuffer2.INT_MAX.
  destruct (Z.leb_spec 0 n), (Z.leb_spec n 100); try done. intros E. injection E as <-.
  rewrite length_replicate. lia.
Qed.

Definition demo_start : PacketBuffer ChunkBuffer2.ChunkBuffer2 :=
  match Init 5 2 demo_mem with
  | Ret (Some b) => b
  | _ => mkPacketBuffer 0 (ChunkBuffer2.mkChunkBuffer2 [] 0 0 0 0 0 None 0 None 0) None false
  end.

Definition demo_step (b : PacketBuffer ChunkBuffer2.ChunkBuffer2) (e : event) :=
  match step b e with Ret (b', _) => b' | _ => b end.

Lemma packet_buffer_fifo_witness :
  let b := demo_step (demo_step (demo_step demo_start (In [1; 2; 3; 4; 5])) (In [7])) Out in
  exists queued, [[1; 2; 3; 4; 5]] ++ queued = [[1; 2; 3; 4; 5]; [7]] /\
    (output_op b = true <-> queued <> []).
Proof.
  set (b := demo_step _ _).
  assert (Hr : run demo_start [[1; 2; 3; 4; 5]; [7]] [[1; 2; 3; 4; 5]] b).
  { eapply (run_out _ [[1; 2; 3; 4; 5]; [7]] []);
      [eapply (run_in _ [[1; 2; 3; 4; 5]] [] _ [7] _ []);
         [eapply (run_in _ [] [] _ [1; 2; 3; 4; 5] _ []); [apply run_nil|split; [done|vm_compute; done]|vm_compute; reflexivity]
         |split; [done|vm_compute; done]|vm_compute; reflexivity]
      |reflexivity|vm_compute; reflexivity]. }
  destruct (packet_buffer_fifo 5 2 demo_mem demo_start _ _ b ltac:(lia) ltac:(lia)
              demo_mem_ok eq_refl Hr) as (q & H1 & _ & _ & H2).
  exists q. auto.
Defined.

End PacketBuffer.
