(* ===== verification/BufferWriter.v ===== *)
(** * flow/PacketRecvInterface.c and flow/BufferWriter.c: best-effort writing

    A [BufferWriter] lets code that has a packet write it straight into the free
    area of the [PacketBuffer] behind it, or drop it when there is none. The two
    are connected by a [PacketRecvInterface]: the buffer asks for a packet with a
    pointer, the writer holds the pointer until a packet is written, and the
    completion runs as a job.
    - [PacketRecvInterface]: the interface and its jobs;
    - [BufferWriter]: the writer;
    - [WriterFlow]: writer, interface and buffer together, with the events that
      can happen in any order. While a packet lies in the buffer and waits for
      its job, older packets can be consumed: [PacketStagingOk] states what the
      flow relies on for that. *)
From S2P Require Import Prelude ChunkBuffer2 FlowInterfaces PacketBuffer.

(** ** Packets written but not yet submitted *)

(** A producer may write its packet early: the queue is not changed by it, the
    bytes stay while packets are consumed, and writing them again is no change. *)
Class PacketStagingOk (B : Type) `{PacketStoreOk B} := {
  st_holds : B -> Z -> list Z -> Prop;
  st_write_ok : forall b ps d data,
    st_inv b ps -> st_input_dest b = Some d -> zlen data <= st_input_avail b ->
    exists b', st_write b d data = Ret b' /\ st_inv b' ps /\ st_holds b' d data /\
      st_input_dest b' = Some d /\ st_input_avail b' = st_input_avail b /\
      forall mtu num, st_capacity b mtu num -> st_capacity b' mtu num;
  st_holds_write : forall b d data, st_holds b d data -> st_write b d data = Ret b;
  st_holds_consume : forall b d data b',
    st_holds b d data -> st_consume b = Ret b' -> st_holds b' d data;
}.

Lemma splice_same {A} (m : list A) off n :
  0 <= off -> 0 <= n -> off + n <= zlen m -> splice m off (slice off n m) = m.
Proof.
  intros. unfold splice, slice. rewrite length_take, length_drop.
  rewrite Nat.min_l by lia. rewrite <- drop_drop, take_drop. apply take_drop.
Qed.

Lemma chunk_write_inv b ps d data m :
  ChunkBuffer2.inv b ps -> ChunkBuffer2.input_dest b = Some d -> zlen data <= ChunkBuffer2.input_avail b ->
  store (ChunkBuffer2.buffer b) d data = Some m -> ChunkBuffer2.inv (ChunkBuffer2.set_buffer b m) ps.
Proof.
  intros Hinv Hd Hlen Hm. pose proof (ChunkBuffer2.input_area _ _ _ Hinv Hd) as (-> & free & Hf & Ha & He & Hor).
  pose proof (ChunkBuffer2.inv_end _ _ Hinv) as (He0 & Hfl & Hwr).
  destruct Hinv as [Hs Hmem Hmt Hst Hr Hin Hout].
  unfold ChunkBuffer2.block_size in *.
  rewrite store_Some in Hm by lia. injection Hm as <-.
  split; auto; cbn; [rewrite length_splice; unfold ChunkBuffer2.block_size; lia|].
  destruct Hr as [(Hu & Hw & Hl & Hsg)|(p1 & p2 & e & -> & Hne & Hu & Hee & Hww & H1 & H2)].
  - left. unfold ChunkBuffer2.rep_flat; cbn. repeat split; auto.
    unfold ChunkBuffer2.lim_of in *.
    apply ChunkBuffer2.seg_splice; auto; unfold ChunkBuffer2.block_size; lia.
  - right. exists p1, p2, e. cbn. unfold ChunkBuffer2.lim_of in *. cbn. repeat split; auto; try lia.
    all: apply ChunkBuffer2.seg_splice; auto; unfold ChunkBuffer2.block_size; lia.
Qed.

Lemma consume_buffer b b' :
  ChunkBuffer2.ConsumePacket b = Ret b' -> ChunkBuffer2.buffer b' = ChunkBuffer2.buffer b.
Proof.
  unfold ChunkBuffer2.ConsumePacket. intros (n & _ & E)%bind_Ret_inv. revert E.
  unfold ChunkBuffer2.update_output, ChunkBuffer2.update_input. cbv zeta.
  repeat (match goal with |- context [if ?c then _ else _] => destruct c end; cbn);
    repeat match goal with |- context [let '(_, _) := ?x in _] => destruct x end; cbn;
    intros E; try (injection E as <-; done);
    apply bind_Ret_inv in E as (? & _ & E); injection E as <-; done.
Qed.

#[export] Program Instance chunk_staging_ok : PacketStagingOk ChunkBuffer2.ChunkBuffer2 := {|
  st_holds b d data := load (ChunkBuffer2.buffer b) d (zlen data) = Some data;
|}.
Next Obligation.
  cbn. intros b ps d data Hinv Hd Hlen.
  pose proof (ChunkBuffer2.input_area _ _ _ Hinv Hd) as (-> & free & Hf & Ha & He & _).
  pose proof (ChunkBuffer2.inv_end _ _ Hinv) as (He0 & _).
  pose proof (ChunkBuffer2.inv_mem _ _ Hinv) as Hmem. unfold ChunkBuffer2.block_size in *.
  assert (Hst : store (ChunkBuffer2.buffer b) (4 * (ChunkBuffer2.end_ b + 1)) data =
    Some (splice (ChunkBuffer2.buffer b) (4 * (ChunkBuffer2.end_ b + 1)) data)) by (apply store_Some; lia).
  rewrite Hst. eexists. split; [reflexivity|].
  split; [by eapply chunk_write_inv|]. cbn. repeat split; auto; try tauto.
  - rewrite load_Some by (rewrite ?length_splice; lia). f_equal. apply slice_splice_same; lia.
  - by destruct H.
  - by destruct H as (_ & ? & _).
  - by destruct H as (_ & _ & ?).
Qed.
Next Obligation.
  cbn. intros b d data Hh. unfold load in Hh.
  destruct (inside _ d (zlen data)) eqn:E; [|done]. unfold store. rewrite E. cbn.
  injection Hh as Hh. unfold inside in E. rewrite !andb_true_iff, !Z.leb_le in E.
  rewrite <- Hh at 1. rewrite splice_same by lia. by destruct b.
Qed.
Next Obligation. cbn. intros b d data b' Hh E%consume_buffer. by rewrite E. Qed.

(** ** flow/PacketRecvInterface *)
Module PacketRecvInterface.
Import BPending.

Inductive pri_state :=
| PRI_STATE_NONE
| PRI_STATE_OPERATION_PENDING
| PRI_STATE_BUSY
| PRI_STATE_DONE_PENDING.
Inductive pri_job := job_operation | job_done.

#[global] Instance pri_state_eq_dec : EqDecision pri_state.
Proof. solve_decision. Defined.
#[global] Instance pri_job_eq_dec : EqDecision pri_job.
Proof. solve_decision. Defined.

Record PacketRecvInterface := mkPRI {
  mtu : Z;
  has_done : bool;              (* handler_done *)
  jobs : list pri_job;          (* the jobs of this interface, set last first *)
  job_operation_data : Z;       (* where the receiver wants the packet *)
  job_done_len : Z;
  state : pri_state;
}.

(** What the interface calls. *)
Inductive event :=
| handler_operation (data : Z)
| handler_done (data_len : Z).

Definition Init (m : Z) : PacketRecvInterface := mkPRI m false [] 0 0 PRI_STATE_NONE.

Definition Done (i : PacketRecvInterface) (data_len : Z) : cres PacketRecvInterface :=
  _ ← assert (0 <=? data_len);
  _ ← assert (data_len <=? mtu i);
  _ ← assert (bool_decide (state i = PRI_STATE_BUSY));
  Ret (mkPRI (mtu i) (has_done i) (BSmallPending_Set job_done (jobs i)) (job_operation_data i) data_len
         PRI_STATE_DONE_PENDING).

Definition Receiver_Init (i : PacketRecvInterface) : cres PacketRecvInterface :=
  _ ← assert (negb (has_done i));
  Ret (mkPRI (mtu i) true (jobs i) (job_operation_data i) (job_done_len i) (state i)).

Definition Receiver_Recv (i : PacketRecvInterface) (data : Z) : cres PacketRecvInterface :=
  _ ← assert (bool_decide (state i = PRI_STATE_NONE));
  _ ← assert (has_done i);
  Ret (mkPRI (mtu i) (has_done i) (BSmallPending_Set job_operation (jobs i)) data (job_done_len i)
         PRI_STATE_OPERATION_PENDING).

Definition set_state (i : PacketRecvInterface) (s : pri_state) (js : list pri_job) : PacketRecvInterface :=
  mkPRI (mtu i) (has_done i) js (job_operation_data i) (job_done_len i) s.

Definition _job_operation (i : PacketRecvInterface) : cres (PacketRecvInterface * event) :=
  _ ← assert (bool_decide (state i = PRI_STATE_OPERATION_PENDING));
  Ret (set_state i PRI_STATE_BUSY (jobs i), handler_operation (job_operation_data i)).

Definition _job_done (i : PacketRecvInterface) : cres (PacketRecvInterface * event) :=
  _ ← assert (bool_decide (state i = PRI_STATE_DONE_PENDING));
  Ret (set_state i PRI_STATE_NONE (jobs i), handler_done (job_done_len i)).

Definition run_job (i : PacketRecvInterface) : cres (PacketRecvInterface * event) :=
  '(j, js) ← BPendingGroup_ExecuteJob (jobs i);
  let i := set_state i (state i) js in
  match j with
  | job_operation => _job_operation i
  | job_done => _job_done i
  end.

(** The job that is set, by state. *)
Definition jobs_ok (i : PacketRecvInterface) : Prop :=
  match state i with
  | PRI_STATE_NONE | PRI_STATE_BUSY => jobs i = []
  | PRI_STATE_OPERATION_PENDING => jobs i = [job_operation]
  | PRI_STATE_DONE_PENDING => jobs i = [job_done]
  end.
End PacketRecvInterface.

(** ** flow/BufferWriter *)
Module BufferWriter.
Import PacketRecvInterface.

Record BufferWriter := mkBufferWriter {
  recv_interface : PacketRecvInterface;
  out_have : bool;
  out : Z;
}.

Definition output_handler_recv (o : BufferWriter) (data : Z) : cres BufferWriter :=
  _ ← assert (negb (out_have o));
  Ret (mkBufferWriter (recv_interface o) true data).

(** [BufferWriter_Init]; [out] is not set. *)
Definition Init (mtu : Z) (garbage : Z) : cres BufferWriter :=
  _ ← assert (0 <=? mtu);
  Ret (mkBufferWriter (PacketRecvInterface.Init mtu) false garbage).

(** The pointer, if there is one. *)
Definition StartPacket (o : BufferWriter) : option Z :=
  if negb (out_have o) then None else Some (out o).

Definition EndPacket (o : BufferWriter) (len : Z) : cres BufferWriter :=
  _ ← assert (0 <=? len);
  _ ← assert (out_have o);
  i ← Done (recv_interface o) len;
  Ret (mkBufferWriter i false (out o)).
End BufferWriter.

(** ** A writer in front of a packet buffer *)
Module WriterFlow.
Import PacketRecvInterface BufferWriter.
Section flow.
Context {B : Type} `{PacketStagingOk B}.

(** The buffer's input interface is the writer's. *)
Record flow := mkFlow { writer : BufferWriter; buffer : PacketBuffer.PacketBuffer B }.

(** The receive the buffer has just asked for, if any, reaches the interface. *)
Definition receive (w : BufferWriter) (b : PacketBuffer.PacketBuffer B) : cres flow :=
  match state (recv_interface w), PacketBuffer.input_op b with
  | PRI_STATE_NONE, Some d =>
      i ← Receiver_Recv (recv_interface w) d;
      Ret (mkFlow (mkBufferWriter i (out_have w) (out w)) b)
  | _, _ => Ret (mkFlow w b)
  end.

(** The writer with the buffer that was initialised on its output. *)
Definition connect (w : BufferWriter) (b : PacketBuffer.PacketBuffer B) : cres flow :=
  i ← Receiver_Init (recv_interface w);
  receive (mkBufferWriter i (out_have w) (out w)) b.

(** A user writes a packet: [StartPacket], the copy, [EndPacket]. The result
    tells whether there was a place for it. *)
Definition write (f : flow) (data : list Z) : cres (flow * bool) :=
  match StartPacket (writer f) with
  | None => Ret (f, false)
  | Some d =>
      x ← st_write (PacketBuffer.buf (buffer f)) d data;
      w ← EndPacket (writer f) (zlen data);
      Ret (mkFlow w (PacketBuffer.set_buf (buffer f) x), true)
  end.

(** The next job of the interface: the writer gets its pointer, or the buffer
    gets the packet. *)
Definition job (f : flow) : cres flow :=
  '(i, e) ← run_job (recv_interface (writer f));
  let w := mkBufferWriter i (out_have (writer f)) (out (writer f)) in
  match e with
  | handler_operation d => w ← output_handler_recv w d; Ret (mkFlow w (buffer f))
  | handler_done len =>
      let b := buffer f in
      b ← PacketBuffer.input_handler_done
            (PacketBuffer.mkPacketBuffer (PacketBuffer.input_mtu b) (PacketBuffer.buf b) None
               (PacketBuffer.output_op b)) len;
      receive w b
  end.

(** The output has sent the packet it was given. *)
Definition sent (f : flow) : cres (flow * list Z) :=
  '(b, ps) ← PacketBuffer.step (buffer f) PacketBuffer.Out;
  p ← of_option (head ps);
  f ← receive (writer f) b; Ret (f, p).

Inductive event := Write (data : list Z) | Job | Sent.

Definition enabled (f : flow) (e : event) : Prop :=
  match e with
  | Write data => zlen data <= PacketBuffer.input_mtu (buffer f)
  | Job => jobs (recv_interface (writer f)) <> []
  | Sent => PacketBuffer.output_op (buffer f) = true
  end.

(** Runs, with the packets accepted and the packets sent. *)
Inductive run (f0 : flow) : list (list Z) -> list (list Z) -> flow -> Prop :=
| run_start : run f0 [] [] f0
| run_write ins outs f data f' (ok : bool) :
    run f0 ins outs f -> enabled f (Write data) -> write f data = Ret (f', ok) ->
    run f0 (if ok then ins ++ [data] else ins) outs f'
| run_job ins outs f f' :
    run f0 ins outs f -> enabled f Job -> job f = Ret f' -> run f0 ins outs f'
| run_sent ins outs f f' p :
    run f0 ins outs f -> enabled f Sent -> sent f = Ret (f', p) -> run f0 ins (outs ++ [p]) f'.

(** The queue [ps] and the packet that waits for its job. *)
Record flow_inv (num : Z) (f : flow) (ps : list (list Z)) (staged : option (list Z)) : Prop := {
  fi_buf : PacketBuffer.pb_inv num (buffer f) ps;
  fi_mtu : mtu (recv_interface (writer f)) = PacketBuffer.input_mtu (buffer f);
  fi_done : has_done (recv_interface (writer f)) = true;
  fi_jobs : jobs_ok (recv_interface (writer f));
  fi_state :
    match state (recv_interface (writer f)) with
    | PRI_STATE_NONE => PacketBuffer.input_op (buffer f) = None /\ out_have (writer f) = false /\ staged = None
    | PRI_STATE_OPERATION_PENDING =>
        PacketBuffer.input_op (buffer f) = Some (job_operation_data (recv_interface (writer f))) /\
        out_have (writer f) = false /\ staged = None
    | PRI_STATE_BUSY =>
        PacketBuffer.input_op (buffer f) = Some (out (writer f)) /\ out_have (writer f) = true /\ staged = None
    | PRI_STATE_DONE_PENDING =>
        out_have (writer f) = false /\
        exists d p, PacketBuffer.input_op (buffer f) = Some d /\ staged = Some p /\
          job_done_len (recv_interface (writer f)) = zlen p /\
          zlen p <= PacketBuffer.input_mtu (buffer f) /\ st_holds (PacketBuffer.buf (buffer f)) d p
    end;
}.

Definition pending (staged : option (list Z)) : list (list Z) :=
  match staged with Some p => [p] | None => [] end.

Lemma buffer_recv_mtu (b b' : PacketBuffer.PacketBuffer B) d :
  PacketBuffer.Receiver_Recv b d = Ret b' -> PacketBuffer.input_mtu b' = PacketBuffer.input_mtu b.
Proof. unfold PacketBuffer.Receiver_Recv. destruct (PacketBuffer.input_op b), d; try done. by intros [= <-]. Qed.
Lemma buffer_send_mtu (b b' : PacketBuffer.PacketBuffer B) :
  PacketBuffer.Sender_Send b = Ret b' -> PacketBuffer.input_mtu b' = PacketBuffer.input_mtu b.
Proof. unfold PacketBuffer.Sender_Send. destruct (PacketBuffer.output_op b); try done. by intros [= <-]. Qed.
Lemma handler_mtu (b2 b' : PacketBuffer.PacketBuffer B) (c1 : bool) c2 d :
  (b3 ← (if c1 then PacketBuffer.Receiver_Recv b2 d else Ret b2);
   if (c2 b3 : bool) then PacketBuffer.Sender_Send b3 else Ret b3) = Ret b' ->
  PacketBuffer.input_mtu b' = PacketBuffer.input_mtu b2.
Proof.
  intros (b4 & E1 & E2)%bind_Ret_inv. transitivity (PacketBuffer.input_mtu b4).
  - destruct (c2 b4); [by apply buffer_send_mtu|by injection E2 as <-].
  - destruct c1; [by eapply buffer_recv_mtu|by injection E1 as <-].
Qed.
Lemma input_done_mtu (b b' : PacketBuffer.PacketBuffer B) n :
  PacketBuffer.input_handler_done b n = Ret b' -> PacketBuffer.input_mtu b' = PacketBuffer.input_mtu b.
Proof.
  intros (x & _ & E)%bind_Ret_inv. by apply (handler_mtu _ _ _ (fun _ => st_output_avail (PacketBuffer.buf b) <? 0)) in E.
Qed.
Lemma output_done_mtu (b b' : PacketBuffer.PacketBuffer B) :
  PacketBuffer.output_handler_done b = Ret b' -> PacketBuffer.input_mtu b' = PacketBuffer.input_mtu b.
Proof.
  intros (x & _ & E)%bind_Ret_inv. by apply (handler_mtu _ _ _ (fun b => 0 <=? st_output_avail (PacketBuffer.buf b))) in E.
Qed.

Lemma receive_inv num w b ps :
  PacketBuffer.pb_inv num b ps -> mtu (recv_interface w) = PacketBuffer.input_mtu b ->
  has_done (recv_interface w) = true -> state (recv_interface w) = PRI_STATE_NONE ->
  jobs (recv_interface w) = [] -> out_have w = false ->
  exists f, receive w b = Ret f /\ buffer f = b /\ flow_inv num f ps None.
Proof.
  intros Hb Hm Hd Hs Hj Ho. unfold receive. rewrite Hs. destruct (PacketBuffer.input_op b) as [d|] eqn:Ei.
  - unfold Receiver_Recv. rewrite Hs, Hd. cbn. eexists. split; [reflexivity|]. split; [done|].
    split; cbn; auto. unfold jobs_ok; cbn. rewrite Hj. done.
  - eexists. split; [reflexivity|]. split; [done|]. split; cbn; auto; rewrite ?Hs; auto.
    unfold jobs_ok. by rewrite Hs.
Qed.

Lemma write_inv num f ps staged data :
  flow_inv num f ps staged -> enabled f (Write data) ->
  (out_have (writer f) = false /\ write f data = Ret (f, false)) \/
  (out_have (writer f) = true /\ staged = None /\
   exists f', write f data = Ret (f', true) /\ flow_inv num f' ps (Some data)).
Proof.
  intros [Hb Hm Hd Hj Hs] Hen. cbn in Hen. unfold write, StartPacket.
  destruct (out_have (writer f)) eqn:Ho; cbn [negb]; [right|by left].
  destruct (state (recv_interface (writer f))) eqn:Es;
    [by destruct Hs as (_ & ? & _)|by destruct Hs as (_ & ? & _)| |by destruct Hs].
  destruct Hs as (Hin & _ & ->). split; [done|]. split; [done|].
  destruct Hb as [Hm0 Hst Hcap Hlen Hi Hout]. rewrite Hin in Hi. destruct Hi as [Hdest Hav].
  destruct (st_write_ok _ ps (out (writer f)) data Hst Hdest) as (x & Hx & Hst' & Hh & Hd' & Ha' & Hc'); [lia|].
  rewrite Hx, bind_Ret. unfold EndPacket, Done. rewrite Ho, Es, Hm.
  rewrite !(proj2 (Z.leb_le _ _)) by lia. cbn. eexists. split; [reflexivity|].
  split; cbn; auto.
  - split; cbn; auto.
    + rewrite Hin. split; [done|]. lia.
  - unfold jobs_ok in *. rewrite Es in Hj. cbn. by rewrite Hj.
  - split; [done|]. exists (out (writer f)), data. auto.
Qed.

Lemma job_inv num f ps staged :
  flow_inv num f ps staged -> enabled f Job ->
  exists f', job f = Ret f' /\ flow_inv num f' (ps ++ pending staged) None.
Proof.
  intros [Hb Hm Hd Hj Hs] Hen. cbn in Hen. unfold job, PacketRecvInterface.run_job.
  unfold jobs_ok in Hj. destruct (state (recv_interface (writer f))) eqn:Es; rewrite Hj in *; try done;
    cbn -[PacketBuffer.input_handler_done receive].
  - destruct Hs as (Hin & Ho & ->). unfold _job_operation; cbn.
    unfold output_handler_recv. cbn. rewrite Ho. cbn. eexists. split; [reflexivity|].
    rewrite app_nil_r. split; cbn; auto.
  - destruct Hs as (Ho & d & p & Hin & -> & Hl & Hp & Hh). unfold _job_done; cbn -[PacketBuffer.input_handler_done receive].
    change (bool_decide _) with true. unfold assert. rewrite !bind_Ret.
    destruct (PacketBuffer.step_in num (buffer f) ps p Hb) as (b' & E & Hb').
    { cbn. rewrite Hin. split; [done|]. lia. }
    cbn -[PacketBuffer.input_handler_done] in E. rewrite Hin in E. cbn -[PacketBuffer.input_handler_done] in E. rewrite (st_holds_write _ _ _ Hh) in E. cbn -[PacketBuffer.input_handler_done] in E.
    apply bind_Ret_inv in E as (b2 & E & E2). injection E2 as ->. rewrite Hl, E. cbn -[PacketBuffer.input_handler_done receive].
    destruct (receive_inv num (mkBufferWriter (set_state (set_state (recv_interface (writer f)) PRI_STATE_DONE_PENDING []) PRI_STATE_NONE [])
      (out_have (writer f)) (out (writer f))) b' (ps ++ [p])) as (f' & Ef & _ & Hf'); auto.
    { cbn. rewrite Hm. apply input_done_mtu in E. by rewrite E. }
    exists f'. split; [exact Ef|]. exact Hf'.
Qed.


Lemma receive_idle w b :
  state (recv_interface w) <> PRI_STATE_NONE -> receive w b = Ret (mkFlow w b).
Proof. unfold receive. by destruct (state (recv_interface w)). Qed.

(** An outstanding receive keeps its pointer while packets are consumed. *)
Lemma out_keeps_input num (b b' : PacketBuffer.PacketBuffer B) ps d ps' :
  PacketBuffer.pb_inv num b ps -> PacketBuffer.input_op b = Some d ->
  PacketBuffer.step b PacketBuffer.Out = Ret (b', ps') ->
  PacketBuffer.input_op b' = Some d /\ st_consume (PacketBuffer.buf b) = Ret (PacketBuffer.buf b').
Proof.
  intros [_ _ _ _ Hi _] Hin. rewrite Hin in Hi. destruct Hi as [_ Ha]. cbn.
  intros (q & _ & (b2 & E & E2)%bind_Ret_inv)%bind_Ret_inv. injection E2 as <- _.
  unfold PacketBuffer.output_handler_done in E. cbn in E. apply bind_Ret_inv in E as (x & Hx & E).
  cbn in E. replace (st_input_avail (PacketBuffer.buf b) <? PacketBuffer.input_mtu b) with false in E
    by (symmetry; apply Z.ltb_ge; lia). cbn in E.
  rewrite Hx. destruct (0 <=? st_output_avail x); unfold PacketBuffer.Sender_Send in E; cbn in E;
    injection E as <-; done.
Qed.

Lemma sent_inv num f ps staged :
  flow_inv num f ps staged -> enabled f Sent ->
  exists p ps' f', ps = p :: ps' /\ sent f = Ret (f', p) /\ flow_inv num f' ps' staged.
Proof.
  intros [Hb Hm Hd Hj Hs] Hen. cbn in Hen.
  destruct (PacketBuffer.step_out num _ ps Hb Hen) as (p & ps' & b' & -> & E & Hb').
  exists p, ps'. unfold sent. rewrite E. cbn.
  assert (Hmtu : PacketBuffer.input_mtu b' = PacketBuffer.input_mtu (buffer f)).
  { cbn in E. apply bind_Ret_inv in E as (q & _ & E). apply bind_Ret_inv in E as (b2 & E & E2).
    injection E2 as -> _. by apply output_done_mtu in E. }
  destruct (decide (state (recv_interface (writer f)) = PRI_STATE_NONE)) as [Es|Es].
  - rewrite Es in Hs. destruct Hs as (Hin & Ho & ->).
    destruct (receive_inv num (writer f) b' ps') as (f' & Ef & _ & Hf'); auto; [by rewrite Hmtu| |].
    { unfold jobs_ok in Hj. by rewrite Es in Hj. }
    exists f'. rewrite Ef. done.
  - rewrite receive_idle by done. eexists. split; [done|]. split; [reflexivity|].
    split; cbn; auto; [by rewrite Hmtu|].
    assert (exists d, PacketBuffer.input_op (buffer f) = Some d) as [d Hin].
    { destruct (state _); [done|destruct Hs as (? & _); eauto|destruct Hs as (? & _); eauto|].
      destruct Hs as (_ & d & q & ? & _). eauto. }
    destruct (out_keeps_input _ _ _ _ _ _ Hb Hin E) as [Hin' Hx].
    rewrite Hin'. rewrite Hin in Hs. destruct (state _); auto.
    destruct Hs as (Ho & d' & q & Hq & -> & Hl & Hp & Hh). split; [done|].
    exists d', q. rewrite Hmtu. injection Hq as ->. repeat split; auto. by eapply st_holds_consume.
Qed.

Lemma connect_inv num mtu garbage b :
  PacketBuffer.pb_inv num b [] -> PacketBuffer.input_mtu b = mtu ->
  exists f, (w ← BufferWriter.Init mtu garbage; connect w b) = Ret f /\ flow_inv num f [] None.
Proof.
  intros Hb <-. unfold BufferWriter.Init. rewrite (proj2 (Z.leb_le _ _) (PacketBuffer.pbi_mtu _ _ _ Hb)).
  destruct (receive_inv num (mkBufferWriter (mkPRI (PacketBuffer.input_mtu b) true [] 0 0 PRI_STATE_NONE) false garbage) b [])
    as (f & Ef & _ & Hf); auto.
  exists f. split; [exact Ef|done].
Qed.

Lemma flow_run_inv num f0 ins outs f :
  flow_inv num f0 [] None -> run f0 ins outs f ->
  exists ps staged, flow_inv num f ps staged /\ ins = outs ++ ps ++ pending staged.
Proof.
  intros Hf0. induction 1 as [|ins outs f data f' ok _ IH Hen E|ins outs f f' _ IH Hen E|ins outs f f' p _ IH Hen E].
  - by exists [], None.
  - destruct IH as (ps & staged & Hi & ->).
    destruct (write_inv _ _ _ _ _ Hi Hen) as [(_ & E') | (_ & -> & f2 & E' & Hi')];
      rewrite E in E'; injection E' as -> ->; [by exists ps, staged|].
    exists ps, (Some data). split; [done|]. cbn. by rewrite app_nil_r, app_assoc.
  - destruct IH as (ps & staged & Hi & ->). destruct (job_inv _ _ _ _ Hi Hen) as (f2 & E' & Hi').
    rewrite E in E'. injection E' as ->. exists (ps ++ pending staged), None. split; [done|].
    cbn. by rewrite app_nil_r.
  - destruct IH as (ps & staged & Hi & ->). destruct (sent_inv _ _ _ _ Hi Hen) as (q & ps' & f2 & -> & E' & Hi').
    rewrite E in E'. injection E' as -> ->. exists ps', staged. split; [done|]. by rewrite <- app_assoc.
Qed.

(** With no job left to run, the writer is ready if there is room. *)
Lemma ready num f ps staged :
  flow_inv num f ps staged -> jobs (recv_interface (writer f)) = [] -> zlen ps < num ->
  out_have (writer f) = true.
Proof.
  intros [Hb Hm Hd Hj Hs] Hn Hlen. pose proof (PacketBuffer.receiving _ _ _ Hb Hlen) as Hr.
  unfold jobs_ok in Hj. destruct (state _); rewrite Hn in Hj; try done; destruct Hs as (? & ? & _); congruence.
Qed.

Lemma receive_buffer w b f : receive w b = Ret f -> buffer f = b.
Proof.
  unfold receive. destruct (state _); [|by intros [= <-]..].
  destruct (PacketBuffer.input_op b); [|by intros [= <-]].
  intros (i & _ & [= <-])%bind_Ret_inv. done.
Qed.
(** The MTU never changes. *)
Lemma write_mtu f data f' ok : write f data = Ret (f', ok) ->
  PacketBuffer.input_mtu (buffer f') = PacketBuffer.input_mtu (buffer f).
Proof.
  unfold write. destruct (StartPacket _); [|by intros [= <- _]].
  intros (x & _ & (w & _ & [= <- _])%bind_Ret_inv)%bind_Ret_inv. done.
Qed.
Lemma job_mtu f f' : job f = Ret f' -> PacketBuffer.input_mtu (buffer f') = PacketBuffer.input_mtu (buffer f).
Proof.
  unfold job. intros ([i e] & _ & E)%bind_Ret_inv. destruct e as [d|len].
  - apply bind_Ret_inv in E as (w & _ & [= <-]). done.
  - apply bind_Ret_inv in E as (b & E & E2). apply receive_buffer in E2 as ->. by apply input_done_mtu in E.
Qed.
Lemma sent_mtu f f' p : sent f = Ret (f', p) -> PacketBuffer.input_mtu (buffer f') = PacketBuffer.input_mtu (buffer f).
Proof.
  unfold sent. intros ([b ps] & E & (q & _ & (f2 & E2 & [= <- _])%bind_Ret_inv)%bind_Ret_inv)%bind_Ret_inv.
  apply receive_buffer in E2 as ->. cbn [PacketBuffer.step] in E.
  apply bind_Ret_inv in E as (x & _ & (b2 & E & [= <- _])%bind_Ret_inv). by apply output_done_mtu in E.
Qed.

(** Run the jobs of the interface, [n] at most. *)
Fixpoint run_jobs (n : nat) (f : flow) : cres flow :=
  match n, jobs (recv_interface (writer f)) with
  | S n, _ :: _ => f ← job f; run_jobs n f
  | _, _ => Ret f
  end.

Lemma jobs_state f num ps staged :
  flow_inv num f ps staged ->
  jobs (recv_interface (writer f)) =
  match state (recv_interface (writer f)) with
  | PRI_STATE_OPERATION_PENDING => [job_operation]
  | PRI_STATE_DONE_PENDING => [job_done]
  | _ => []
  end.
Proof. intros [_ _ _ Hj _]. unfold jobs_ok in Hj. by destruct (state _). Qed.

Lemma job_state num f ps staged f' :
  flow_inv num f ps staged -> job f = Ret f' -> state (recv_interface (writer f)) = PRI_STATE_OPERATION_PENDING ->
  state (recv_interface (writer f')) = PRI_STATE_BUSY.
Proof.
  intros Hi E Es. unfold job, PacketRecvInterface.run_job in E. rewrite (jobs_state _ _ _ _ Hi), Es in E.
  cbn in E. unfold _job_operation in E. cbn in E. destruct Hi as [_ _ _ _ Hs].
  rewrite Es in Hs. destruct Hs as (_ & Ho & _). unfold output_handler_recv in E. cbn in E. rewrite Ho in E.
  cbn in E. by injection E as <-.
Qed.

(** Two jobs are enough to become idle. *)
Lemma run_jobs_ok num f ps staged :
  flow_inv num f ps staged -> exists f' ps' staged', run_jobs 2 f = Ret f' /\ flow_inv num f' ps' staged' /\
    ps' ++ pending staged' = ps ++ pending staged /\ jobs (recv_interface (writer f')) = [].
Proof.
  intros Hi. pose proof (jobs_state _ _ _ _ Hi) as Hj. cbn [run_jobs].
  destruct (jobs _) as [|j js] eqn:Ej; [by exists f, ps, staged|].
  destruct (job_inv _ _ _ _ Hi) as (f1 & E1 & Hi1); [cbn; by rewrite Ej|].
  rewrite E1, bind_Ret. pose proof (jobs_state _ _ _ _ Hi1) as Hj1.
  destruct (jobs (recv_interface (writer f1))) as [|j1 js1] eqn:Ej1.
  { exists f1, (ps ++ pending staged), None. rewrite app_nil_r. auto. }
  destruct (job_inv _ _ _ _ Hi1) as (f2 & E2 & Hi2); [cbn; by rewrite Ej1|].
  rewrite E2. exists f2, ((ps ++ pending staged) ++ pending None), None.
  split; [done|]. split; [done|]. split; [by rewrite !app_nil_r|].
  rewrite (jobs_state _ _ _ _ Hi2), (job_state _ _ _ _ _ Hi1 E2); [done|].
  destruct Hi1 as [_ _ _ _ Hs1]. destruct (state (recv_interface (writer f1))); try done.
  by destruct Hs1 as (_ & ? & ? & _ & ? & _).
Qed.

End flow.
Arguments flow : clear implicits.

(** [BufferWriter_Init] and [PacketBuffer_Init] for [num_packets] packets, as
    the users of the two compose them; [None] is the failure path. *)
Definition Init (mtu num_packets garbage : Z) (mem : Z -> option (list Z)) :
    cres (option (flow ChunkBuffer2.ChunkBuffer2)) :=
  w ← BufferWriter.Init mtu garbage;
  r ← PacketBuffer.Init mtu num_packets mem;
  match r with
  | None => Ret None
  | Some b => f ← connect w b; Ret (Some f)
  end.

Lemma buffer_init_mtu mtu num mem b : PacketBuffer.Init mtu num mem = Ret (Some b) -> PacketBuffer.input_mtu b = mtu.
Proof.
  unfold PacketBuffer.Init. destruct (_ <? 0); [done|]. destruct (mem _); [|done].
  intros (x & _ & (b' & E & [= <-])%bind_Ret_inv)%bind_Ret_inv. by apply buffer_recv_mtu in E.
Qed.

Lemma flow_init_total mtu num garbage mem :
  0 <= mtu -> 0 < num -> PacketBuffer.alloc_ok mem ->
  Init mtu num garbage mem = Ret None \/
  exists f, Init mtu num garbage mem = Ret (Some f) /\ flow_inv num f [] None /\
    PacketBuffer.input_mtu (buffer f) = mtu.
Proof.
  intros Hm Hn Hal. unfold Init, BufferWriter.Init. rewrite (proj2 (Z.leb_le _ _) Hm). cbn [assert]. rewrite !bind_Ret.
  destruct (PacketBuffer.Init_total mtu num mem Hm Hn Hal) as [E | (b & E & Hb)]; rewrite E, bind_Ret; [by left|right].
  pose proof (buffer_init_mtu _ _ _ _ E) as Emtu.
  destruct (connect_inv num mtu garbage b Hb Emtu) as (f & Ef & Hf).
  unfold BufferWriter.Init in Ef. rewrite (proj2 (Z.leb_le _ _) Hm) in Ef. cbn [assert] in Ef.
  rewrite !bind_Ret in Ef. rewrite Ef, bind_Ret. exists f. split; [done|]. split; [done|].
  apply bind_Ret_inv in Ef as (i & _ & Ef). apply receive_buffer in Ef. by rewrite Ef.
Qed.
Lemma flow_init_inv mtu num garbage mem f :
  0 <= mtu -> 0 < num -> PacketBuffer.alloc_ok mem -> Init mtu num garbage mem = Ret (Some f) -> flow_inv num f [] None.
Proof.
  intros Hm Hn Hal E. destruct (flow_init_total mtu num garbage mem Hm Hn Hal) as [E' | (f' & E' & Hf & _)]; [congruence|].
  rewrite E in E'. by injection E' as <-.
Qed.

(** C38: a writer in front of a packet buffer. From initialisation, after any
    sequence of writes, jobs and completed sends: the packets accepted are, in
    order, those sent, those queued and at most one that waits for its job; every
    event that can happen is handled without an access outside the buffer or a
    failed assertion; a write is refused exactly when the writer holds no
    pointer. Packets are not refused for ever: after at most two jobs the writer
    accepts every packet of up to the MTU, if fewer than [num_packets] are
    waiting. *)
Theorem writer_flow_live mtu num_packets garbage mem f0 ins outs f :
  0 <= mtu -> 0 < num_packets -> PacketBuffer.alloc_ok mem ->
  Init mtu num_packets garbage mem = Ret (Some f0) -> run f0 ins outs f ->
  exists queued staged, ins = outs ++ queued ++ pending staged /\
    (forall data, enabled f (Write data) -> exists f', write f data = Ret (f', out_have (writer f))) /\
    (enabled f Job -> exists f', job f = Ret f') /\
    (enabled f Sent -> exists p rest f', queued = p :: rest /\ sent f = Ret (f', p)) /\
    exists f', run_jobs 2 f = Ret f' /\
      (zlen queued + zlen (pending staged) < num_packets -> forall data, enabled f' (Write data) ->
       exists f'', write f' data = Ret (f'', true)).
Proof.
  intros Hm Hn Hal Hf0 Hr. pose proof (flow_init_inv _ _ _ _ _ Hm Hn Hal Hf0) as Hi0.
  destruct (flow_run_inv _ _ _ _ _ Hi0 Hr) as (ps & staged & Hi & ->). exists ps, staged.
  split; [done|]. split; [|split; [|split]].
  - intros data Hen. destruct (write_inv _ _ _ _ _ Hi Hen) as [(-> & ->) | (-> & _ & f' & -> & _)]; eauto.
  - intros Hen. destruct (job_inv _ _ _ _ Hi Hen) as (f' & -> & _). eauto.
  - intros Hen. destruct (sent_inv _ _ _ _ Hi Hen) as (p & ps' & f' & -> & -> & _). eauto.
  - destruct (run_jobs_ok _ _ _ _ Hi) as (f' & ps' & staged' & -> & Hi' & Hps & Hj). exists f'. split; [done|].
    intros Hroom data Hen. apply (f_equal length) in Hps. rewrite !length_app in Hps.
    pose proof (ready _ _ _ _ Hi' Hj ltac:(lia)) as Ho.
    destruct (write_inv _ _ _ _ _ Hi' Hen) as [(? & _) | (_ & _ & f'' & -> & _)]; [congruence|eauto].
Qed.

(** A packet is written before the interface job has run: it is refused; after
    the job it is accepted. *)
Definition demo_flow : flow ChunkBuffer2.ChunkBuffer2 :=
  match Init 5 2 0 PacketBuffer.demo_mem with
  | Ret (Some f) => f
  | _ => mkFlow (mkBufferWriter (PacketRecvInterface.Init 0) false 0) PacketBuffer.demo_start
  end.
Definition demo_job (f : flow ChunkBuffer2.ChunkBuffer2) : flow ChunkBuffer2.ChunkBuffer2 :=
  match job f with Ret f => f | _ => f end.
Definition demo_write (f : flow ChunkBuffer2.ChunkBuffer2) (data : list Z) : flow ChunkBuffer2.ChunkBuffer2 :=
  match write f data with Ret (f, _) => f | _ => f end.

Lemma writer_flow_live_witness :
  let f := demo_job (demo_write (demo_job demo_flow) [1; 2; 3]) in
  exists queued staged, [[1; 2; 3]] = [] ++ queued ++ pending staged /\
    exists f', run_jobs 2 f = Ret f' /\
      (zlen queued + zlen (pending staged) < 2 -> forall data, enabled f' (Write data) ->
       exists f'', write f' data = Ret (f'', true)).
Proof.
  cbv zeta. set (f := demo_job _).
  assert (Hr : run demo_flow [[1; 2; 3]] [] f).
  { eapply (run_job _ [[1; 2; 3]] []);
      [eapply (run_write _ [] [] (demo_job demo_flow) [1; 2; 3] _ true);
        [eapply (run_job _ [] []); [apply run_start|done|vm_compute; reflexivity]
        |vm_compute; done|vm_compute; reflexivity]
      |done|vm_compute; reflexivity]. }
  destruct (writer_flow_live 5 2 0 PacketBuffer.demo_mem demo_flow _ _ f ltac:(lia) ltac:(lia)
    PacketBuffer.demo_mem_ok eq_refl Hr) as (q & s & H1 & _ & _ & _ & H2).
  exists q, s. auto.
Defined.

End WriterFlow.
