(* ===== verification/PacketProto.v ===== *)
(** * PacketProto: framing packets into a stream

    flow/PacketProtoEncoder.c, flow/PacketProtoDecoder.c and
    protocol/packetproto.h. The encoder puts a 16-bit little-endian length in
    front of a packet; the decoder reassembles packets from a stream that
    arrives in arbitrary pieces. The decoder is shown to refine [parse], the
    format as protocol/packetproto.h describes it. *)
From S2P Require Import Prelude.

Definition header_size : Z := 2.               (* sizeof(struct packetproto_header) *)
Definition PACKETPROTO_ENCLEN (len : Z) : Z := header_size + len.
Definition PACKETPROTO_MAXPAYLOAD : Z := 65535.

(** ** The format *)

(** A packet on the wire. *)
Definition encode (p : list Z) : list Z := le_bytes 2 (Z.of_nat (length p)) ++ p.

Arguments encode : simpl never.

Inductive parsed :=
| NeedMore
| TooLarge
| Packet (p rest : list Z).

(** What a receiver with MTU [mtu] sees at the front of a stream. *)
Definition parse (mtu : Z) (s : list Z) : parsed :=
  match s with
  | b0 :: b1 :: s =>
      let len := le_val [b0; b1] in
      if mtu <? len then TooLarge
      else if Z.of_nat (length s) <? len then NeedMore
      else Packet (take (Z.to_nat len) s) (drop (Z.to_nat len) s)
  | _ => NeedMore
  end.

Lemma parse_encode mtu p s :
  Z.of_nat (length p) <= mtu -> mtu <= PACKETPROTO_MAXPAYLOAD ->
  parse mtu (encode p ++ s) = Packet p s.
Proof.
  intros Hp Hm. unfold encode, PACKETPROTO_MAXPAYLOAD in *.
  assert (Hl : le_val (le_bytes 2 (Z.of_nat (length p))) = Z.of_nat (length p)).
  { rewrite le_val_bytes. apply Z.mod_small. cbn. lia. }
  cbn [le_bytes app] in *. cbn [parse]. rewrite Hl.
  rewrite length_app. zcases. rewrite Nat2Z.id.
  by rewrite take_app_length, drop_app_length.
Qed.

(** Only the encoding of a packet parses as that packet. *)
Lemma parse_Packet mtu s p r :
  bytes s -> parse mtu s = Packet p r ->
  s = encode p ++ r /\ Z.of_nat (length p) <= mtu.
Proof.
  intros Hs. destruct s as [|b0 [|b1 s]]; cbn [parse]; [done..|].
  assert (Hb : bytes [b0; b1] /\ bytes s) by (apply (bytes_app [b0; b1] s), Hs).
  destruct Hb as [Hb _]. pose proof (le_val_range _ Hb) as Hr.
  set (len := le_val [b0; b1]) in *. zcases; try done.
  intros E. injection E as <- <-.
  assert (Hlen : Z.of_nat (length (take (Z.to_nat len) s)) = len)
    by (rewrite length_take; lia).
  rewrite Hlen. split; [|lia]. unfold encode. rewrite Hlen.
  pose proof (le_bytes_val _ Hb) as Hbv. cbn [length] in Hbv. fold len in Hbv.
  rewrite Hbv. cbn. by rewrite take_drop.
Qed.

(** ** flow/PacketProtoEncoder.c *)
Module PacketProtoEncoder.

(** [output_packet] is the buffer the output interface handed over, if any. *)
Record PacketProtoEncoder := mkEncoder {
  input_mtu : Z;
  output_packet : option (list Z);
}.

(** [PacketProtoEncoder_Init] and the MTU it gives its output. *)
Definition Init (input_mtu : Z) : cres PacketProtoEncoder :=
  _ ← assert (input_mtu <=? PACKETPROTO_MAXPAYLOAD); Ret (mkEncoder input_mtu None).
Definition output_mtu (enc : PacketProtoEncoder) : Z := PACKETPROTO_ENCLEN (input_mtu enc).

(** The offset in the buffer at which the input is asked to put its packet. *)
Definition output_handler_recv (enc : PacketProtoEncoder) (data : list Z) :
    cres (PacketProtoEncoder * Z) :=
  match output_packet enc with
  | Some _ => Undef
  | None => Ret (mkEncoder (input_mtu enc) (Some data), header_size)
  end.

(** The input wrote its packet: the finished buffer and the length reported. *)
Definition input_handler_done (enc : PacketProtoEncoder) (in_len : Z) :
    cres (PacketProtoEncoder * (list Z * Z)) :=
  match output_packet enc with
  | None => Undef
  | Some m =>
      m ← of_option (store m 0 (le_bytes 2 (u16 in_len)));
      Ret (mkEncoder (input_mtu enc) None, (m, PACKETPROTO_ENCLEN in_len))
  end.

(** The provider of the input writes a packet where it was told to. *)
Definition write_packet (enc : PacketProtoEncoder) (off : Z) (p : list Z) :
    cres PacketProtoEncoder :=
  match output_packet enc with
  | None => Undef
  | Some m => m ← of_option (store m off p); Ret (mkEncoder (input_mtu enc) (Some m))
  end.

(** One packet through the encoder. *)
Definition encode_one (enc : PacketProtoEncoder) (data p : list Z) :
    cres (PacketProtoEncoder * (list Z * Z)) :=
  '(enc, off) ← output_handler_recv enc data;
  enc ← write_packet enc off p;
  input_handler_done enc (Z.of_nat (length p)).

Lemma encode_one_ok mtu data p :
  mtu <= PACKETPROTO_MAXPAYLOAD ->
  Z.of_nat (length p) <= mtu -> PACKETPROTO_ENCLEN mtu <= Z.of_nat (length data) ->
  exists m, encode_one (mkEncoder mtu None) data p =
      Ret (mkEncoder mtu None, (m, PACKETPROTO_ENCLEN (Z.of_nat (length p)))) /\
    slice 0 (PACKETPROTO_ENCLEN (Z.of_nat (length p))) m = encode p.
Proof.
  unfold PACKETPROTO_MAXPAYLOAD, PACKETPROTO_ENCLEN, header_size.
  intros Hm Hp Hd. unfold encode_one, output_handler_recv, write_packet; cbn.
  unfold header_size. rewrite store_Some by lia. cbn -[store le_bytes splice].
  unfold input_handler_done; cbn -[store le_bytes splice].
  rewrite store_Some by (rewrite ?length_splice, ?length_le_bytes by lia; lia).
  cbn -[le_bytes splice]. eexists; split; [reflexivity|].
  rewrite u16_small by lia. unfold splice, encode, slice.
  change (Z.to_nat 0) with 0%nat. change (Z.to_nat 2) with 2%nat.
  rewrite !take_0, drop_0, length_le_bytes. change (0 + 2)%nat with 2%nat. rewrite !(app_nil_l (le_bytes _ _ ++ _)).
  rewrite drop_app_length' by (rewrite length_take; lia).
  rewrite app_assoc. apply take_app_length'.
  rewrite length_app, length_le_bytes. lia.
Qed.

(** Packets through the encoder one after the other, each into the next buffer
    of the output: the bytes the output was told it has. *)
Fixpoint encode_all (enc : PacketProtoEncoder) (bufs ps : list (list Z)) : cres (list Z) :=
  match bufs, ps with
  | data :: bufs, p :: ps =>
      '(enc, (m, len)) ← encode_one enc data p;
      rest ← encode_all enc bufs ps;
      Ret (slice 0 len m ++ rest)
  | _, _ => Ret []
  end.

Lemma encode_all_ok mtu bufs ps :
  mtu <= PACKETPROTO_MAXPAYLOAD ->
  Forall (fun p => Z.of_nat (length p) <= mtu) ps -> length bufs = length ps ->
  Forall (fun data => Z.of_nat (length data) = PACKETPROTO_ENCLEN mtu) bufs ->
  (enc ← Init mtu; encode_all enc bufs ps) = Ret (concat (map encode ps)).
Proof.
  intros Hm Hp Hl Hb. unfold Init, assert. rewrite (proj2 (Z.leb_le _ _)) by done.
  rewrite !bind_Ret. revert bufs Hl Hb.
  induction Hp as [|p ps Hp Hps IH]; intros [|data bufs] Hl Hb; try done.
  apply Forall_cons_1 in Hb as [Hd Hb]. injection Hl as Hl. cbn [encode_all].
  destruct (encode_one_ok mtu data p) as (m & -> & Hs); [done..|lia|].
  rewrite bind_Ret, IH by done. cbn. by rewrite Hs.
Qed.

End PacketProtoEncoder.

(** ** flow/PacketProtoDecoder.c *)
Module PacketProtoDecoder.

Record PacketProtoDecoder := mkDecoder {
  output_mtu : Z;
  buf : list Z;
  buf_size : Z;
  buf_start : Z;
  buf_used : Z;
}.

(** What the decoder does to the outside. *)
Inductive effect :=
| Send (data : list Z)        (* PacketPassInterface_Sender_Send *)
| Recv (off len : Z)          (* StreamRecvInterface_Receiver_Recv into the buffer *)
| HandlerError.

Definition set_pos (d : PacketProtoDecoder) (m : list Z) (s u : Z) : PacketProtoDecoder :=
  mkDecoder (output_mtu d) m (buf_size d) s u.

(** The verdict of the [do ... while (0)] block of [process_data]. *)
Inductive verdict := VWait | VError | VPacket (off len : Z).

Definition examine (d : PacketProtoDecoder) : cres verdict :=
  let data := buf_start d in
  let left := buf_used d in
  if left <? header_size then Ret VWait
  else
    hdr ← of_option (load (buf d) data header_size);
    let data := data + header_size in
    let left := left - header_size in
    let data_len := le_val hdr in
    if output_mtu d <? data_len then Ret VError
    else if left <? data_len then Ret VWait
    else Ret (VPacket data data_len).

Definition receive (d : PacketProtoDecoder) : effect :=
  Recv (buf_start d + buf_used d) (buf_size d - (buf_start d + buf_used d)).

Definition process_data (d : PacketProtoDecoder) : cres (PacketProtoDecoder * list effect) :=
  v ← examine d;
  match v with
  | VPacket data data_len =>
      let d := set_pos d (buf d) (buf_start d + (header_size + data_len))
                 (buf_used d - (header_size + data_len)) in
      p ← of_option (load (buf d) data data_len);
      Ret (d, [Send p])
  | VError =>
      let d := set_pos d (buf d) 0 0 in
      Ret (d, [receive d; HandlerError])
  | VWait =>
      d ← (if buf_start d + buf_used d =? buf_size d then
             bs ← of_option (load (buf d) (buf_start d) (buf_used d));
             m ← of_option (store (buf d) 0 bs);
             Ret (set_pos d m 0 (buf_used d))
           else Ret d);
      Ret (d, [receive d])
  end.

Definition input_handler_done (d : PacketProtoDecoder) (data_len : Z) :
    cres (PacketProtoDecoder * list effect) :=
  _ ← assert (0 <? data_len);
  _ ← assert (data_len <=? buf_size d - (buf_start d + buf_used d));
  process_data (set_pos d (buf d) (buf_start d) (buf_used d + data_len)).

Definition output_handler_done (d : PacketProtoDecoder) :
    cres (PacketProtoDecoder * list effect) := process_data d.

(** [mem] is the buffer [malloc] returned. *)
Definition PacketProtoDecoder_Init (mtu : Z) (mem : list Z) : PacketProtoDecoder * list effect :=
  let output_mtu := Z.min mtu PACKETPROTO_MAXPAYLOAD in
  let d := mkDecoder output_mtu mem (PACKETPROTO_ENCLEN output_mtu) 0 0 in
  (d, [Recv 0 (buf_size d)]).

Definition PacketProtoDecoder_Reset (d : PacketProtoDecoder) : PacketProtoDecoder :=
  set_pos d (buf d) (buf_start d + buf_used d) 0.

(** ** Refinement of [parse] *)

(** The stream bytes received and not yet handed on. *)
Definition pending (d : PacketProtoDecoder) : list Z :=
  slice (buf_start d) (buf_used d) (buf d).

Record wf (d : PacketProtoDecoder) : Prop := {
  wf_mtu : 0 <= output_mtu d <= PACKETPROTO_MAXPAYLOAD;
  wf_size : buf_size d = PACKETPROTO_ENCLEN (output_mtu d);
  wf_mem : Z.of_nat (length (buf d)) = buf_size d;
  wf_pos : 0 <= buf_start d /\ 0 <= buf_used d /\ buf_start d + buf_used d <= buf_size d;
}.

Lemma pending_length d : wf d -> Z.of_nat (length (pending d)) = buf_used d.
Proof. intros [_ _ ? ?]. apply length_slice; lia. Qed.

(** The decoder's verdict is that of the format. *)
Lemma examine_parse d :
  wf d -> bytes (buf d) ->
  match parse (output_mtu d) (pending d) with
  | NeedMore => examine d = Ret VWait /\ buf_used d < buf_size d
  | TooLarge => examine d = Ret VError
  | Packet p rest =>
      exists data, examine d = Ret (VPacket data (Z.of_nat (length p))) /\
        header_size + Z.of_nat (length p) <= buf_used d /\
        data = buf_start d + header_size /\
        slice data (Z.of_nat (length p)) (buf d) = p /\
        slice (data + Z.of_nat (length p)) (buf_used d - header_size - Z.of_nat (length p))
          (buf d) = rest
  end.
Proof.
  intros Hwf Hb. pose proof (pending_length d Hwf) as Hl.
  destruct Hwf as [Hmtu Hsz Hmem Hpos]. unfold PACKETPROTO_ENCLEN, header_size in *.
  unfold examine, header_size.
  destruct (Z.ltb_spec (buf_used d) 2) as [Hsmall|Hbig].
  - destruct (pending d) as [|b0 [|b1 s]]; cbn in Hl |- *; [split; [done|lia]..|lia].
  - rewrite load_Some by lia. cbn [of_option]. rewrite bind_Ret.
    assert (Hsplit : pending d = slice (buf_start d) 2 (buf d) ++
                       slice (buf_start d + 2) (buf_used d - 2) (buf d)).
    { unfold pending. replace (buf_used d) with (2 + (buf_used d - 2)) at 1 by lia.
      apply slice_app; lia. }
    assert (Hl2 : Z.of_nat (length (slice (buf_start d) 2 (buf d))) = 2)
      by (apply length_slice; lia).
    assert (Hrest : Z.of_nat (length (slice (buf_start d + 2) (buf_used d - 2) (buf d))) =
      buf_used d - 2) by (apply length_slice; lia).
    destruct (slice (buf_start d) 2 (buf d)) as [|b0 [|b1 [|? ?]]] eqn:Eh; cbn in Hl2; try lia.
    rewrite Hsplit. cbn [app parse].
    assert (Hrange : 0 <= le_val [b0; b1]).
    { apply le_val_range. rewrite <- Eh. apply bytes_take, bytes_drop, Hb. }
    set (len := le_val [b0; b1]) in *. rewrite Hrest.
    destruct (Z.ltb_spec (output_mtu d) len); [done|].
    destruct (Z.ltb_spec (buf_used d - 2) len); [split; [done|lia]|].
    exists (buf_start d + 2).
    assert (Hlp : Z.of_nat (length (take (Z.to_nat len)
        (slice (buf_start d + 2) (buf_used d - 2) (buf d)))) = len)
      by (rewrite length_take; lia).
    rewrite Hlp. split; [done|]. split; [lia|]. split; [done|]. split.
    + unfold slice. rewrite take_take. f_equal. lia.
    + unfold slice. rewrite skipn_firstn_comm, drop_drop.
      f_equal; [lia|]. f_equal. lia.
Qed.

Lemma bytes_splice m off bs : bytes m -> bytes bs -> bytes (splice m off bs).
Proof.
  intros. unfold splice. rewrite !bytes_app. auto using bytes_take, bytes_drop.
Qed.

(** [process_data] does what [parse] says, and asks for at least one byte when
    it waits. *)
Lemma process_data_ok d :
  wf d -> bytes (buf d) ->
  exists d' es, process_data d = Ret (d', es) /\ wf d' /\ bytes (buf d') /\
    output_mtu d' = output_mtu d /\
    match parse (output_mtu d) (pending d) with
    | NeedMore => pending d' = pending d /\ es = [receive d'] /\
        buf_start d' + buf_used d' < buf_size d'
    | TooLarge => pending d' = [] /\ es = [receive d'; HandlerError] /\
        buf_start d' + buf_used d' < buf_size d'
    | Packet p rest => pending d' = rest /\ es = [Send p]
    end.
Proof.
  intros Hwf Hb. pose proof (examine_parse d Hwf Hb) as Hex.
  pose proof Hwf as [Hmtu Hsz Hmem Hpos]. unfold PACKETPROTO_ENCLEN, header_size in *.
  unfold process_data, header_size. destruct (parse _ _) as [| |p rest].
  - destruct Hex as [-> Hlt]. rewrite bind_Ret.
    destruct (Z.eqb_spec (buf_start d + buf_used d) (buf_size d)) as [E|E].
    + rewrite load_Some by lia. cbn [of_option]. rewrite bind_Ret.
      pose proof (pending_length d Hwf) as Hpl. fold (pending d).
      rewrite store_Some by lia. cbn [of_option]. rewrite !bind_Ret.
      eexists _, _. split; [reflexivity|]. cbn.
      assert (Hlen : length (splice (buf d) 0 (pending d)) = length (buf d))
        by (apply length_splice; lia).
      repeat split; cbn; auto; try lia.
      * apply bytes_splice; [done|]. apply bytes_take, bytes_drop, Hb.
      * unfold pending at 1; cbn. rewrite <- Hpl. apply slice_splice_same; lia.
    + rewrite bind_Ret. eexists _, _. split; [reflexivity|]. repeat split; auto; lia.
  - rewrite Hex, bind_Ret. eexists _, _. split; [reflexivity|]. cbn.
    repeat split; cbn; auto; lia.
  - destruct Hex as (data & -> & Hfit & -> & Hp & Hr). rewrite bind_Ret. cbn.
    rewrite load_Some by lia. cbn. eexists _, _. split; [reflexivity|].
    repeat split; cbn; auto; try lia.
    + rewrite <- Hr. unfold pending; cbn. f_equal; lia.
    + by rewrite Hp.
Qed.

(** ** Running it *)

(** Exactly one operation is outstanding: a receive into the buffer, or the
    send of a packet. *)
Inductive mode := Receiving (off len : Z) | Sending.

Definition mode_of (m : mode) (es : list effect) : mode :=
  foldl (fun m e => match e with
                    | Recv off len => Receiving off len
                    | Send _ => Sending
                    | HandlerError => m
                    end) m es.
Definition sent_of (es : list effect) : list (list Z) :=
  omap (fun e => match e with Send p => Some p | _ => None end) es.
Definition failed (es : list effect) : bool :=
  existsb (fun e => match e with HandlerError => true | _ => false end) es.

(** A decoder in operation. [rcvd] and [sent] are the stream bytes that arrived
    and the packets handed on since the stream began or was last abandoned, by
    an error or a reset; [errors] has, for every call of the error handler, the
    bytes that had arrived and the packets that had been handed on by then. *)
Record system := mkSystem {
  dec : PacketProtoDecoder;
  cur : mode;
  rcvd : list Z;
  sent : list (list Z);
  errors : list (list Z * list (list Z));
}.

Inductive event :=
| Data (bs : list Z)       (* bytes arrive where the decoder asked for them *)
| OutputDone               (* the packet was taken *)
| Reset.

Definition enabled (s : system) (e : event) : Prop :=
  match e, cur s with
  | Data bs, Receiving off len => bs <> [] /\ bytes bs /\ Z.of_nat (length bs) <= len
  | OutputDone, Sending => True
  | Reset, _ => True
  | _, _ => False
  end.

Definition after (s : system) (rcvd' : list Z) (r : PacketProtoDecoder * list effect) : system :=
  let '(d, es) := r in
  if failed es
  then mkSystem d (mode_of (cur s) es) [] [] (errors s ++ [(rcvd', sent s ++ sent_of es)])
  else mkSystem d (mode_of (cur s) es) rcvd' (sent s ++ sent_of es) (errors s).

Definition step (s : system) (e : event) : cres system :=
  match e with
  | Data bs =>
      match cur s with
      | Receiving off _ =>
          m ← of_option (store (buf (dec s)) off bs);
          r ← input_handler_done
                (set_pos (dec s) m (buf_start (dec s)) (buf_used (dec s)))
                (Z.of_nat (length bs));
          Ret (after s (rcvd s ++ bs) r)
      | Sending => Undef
      end
  | OutputDone => r ← output_handler_done (dec s); Ret (after s (rcvd s) r)
  | Reset => Ret (mkSystem (PacketProtoDecoder_Reset (dec s)) (cur s) [] [] (errors s))
  end.

Inductive run (s0 : system) : list event -> system -> Prop :=
| run_nil : run s0 [] s0
| run_step es s e s' :
    run s0 es s -> enabled s e -> step s e = Ret s' -> run s0 (es ++ [e]) s'.

Definition start_system (mtu : Z) (mem : list Z) : system :=
  let '(d, es) := PacketProtoDecoder_Init mtu mem in mkSystem d (mode_of Sending es) [] [] [].

(** The stream [r] has the packets [ps] and then one above the MTU. *)
Definition oversized (mtu : Z) (r : list Z) (ps : list (list Z)) : Prop :=
  exists rest, r = concat (map encode ps) ++ rest /\ parse mtu rest = TooLarge /\
    Forall (fun p => Z.of_nat (length p) <= mtu) ps.

Record sys_inv (mtu : Z) (s : system) : Prop := {
  si_wf : wf (dec s);
  si_bytes : bytes (buf (dec s));
  si_mtu : output_mtu (dec s) = mtu;
  si_log : rcvd s = concat (map encode (sent s)) ++ pending (dec s);
  si_fit : Forall (fun p => Z.of_nat (length p) <= mtu) (sent s);
  si_errors : Forall (fun e => oversized mtu e.1 e.2) (errors s);
  si_mode : match cur s with
            | Receiving off len =>
                parse mtu (pending (dec s)) = NeedMore /\
                off = buf_start (dec s) + buf_used (dec s) /\
                len = buf_size (dec s) - off /\ 0 < len
            | Sending => True
            end;
}.

(** Handling [pending d] keeps the invariant. *)
Lemma process_inv mtu s d r :
  wf d -> bytes (buf d) -> bytes (pending d) -> output_mtu d = mtu ->
  r = concat (map encode (sent s)) ++ pending d ->
  Forall (fun p => Z.of_nat (length p) <= mtu) (sent s) ->
  Forall (fun e => oversized mtu e.1 e.2) (errors s) ->
  exists res, process_data d = Ret res /\ sys_inv mtu (after s r res).
Proof.
  intros Hwf Hb Hbp <- -> Hfit Herr.
  destruct (process_data_ok d Hwf Hb) as (d' & es & E & Hwf' & Hb' & Hm & Hcase).
  exists (d', es). split; [done|].
  destruct (parse (output_mtu d) (pending d)) as [| |p rest] eqn:Ep.
  - destruct Hcase as (Hp & -> & Hroom).
    split; cbn; rewrite ?app_nil_r, ?Hp; auto. repeat split; auto; lia.
  - destruct Hcase as (Hp & -> & Hroom).
    split; cbn; rewrite ?Hp; auto; [|repeat split; auto; lia].
    apply Forall_app; split; [done|]. apply Forall_singleton.
    exists (pending d). cbn. by rewrite app_nil_r.
  - destruct Hcase as (Hp & ->). destruct (parse_Packet _ _ _ _ Hbp Ep) as [Hpe Hpl].
    split; cbn; auto.
    + rewrite map_app, concat_app. cbn. by rewrite app_nil_r, <- app_assoc, Hp, Hpe.
    + apply Forall_app; auto.
Qed.

(** Bytes that arrive where the decoder asked for them extend what is pending. *)
Lemma step_Data mtu s bs :
  sys_inv mtu s -> enabled s (Data bs) ->
  exists d, step s (Data bs) = (r ← process_data d; Ret (after s (rcvd s ++ bs) r)) /\
    wf d /\ bytes (buf d) /\ output_mtu d = mtu /\ pending d = pending (dec s) ++ bs.
Proof.
  intros [Hwf Hb Hm _ _ _ Hmode] Hen. cbn in Hen |- *.
  destruct (cur s) as [off len|]; [|done]. destruct Hen as (Hne & Hbs & Hlen).
  destruct Hmode as (Hp & Hoff & Hl & Hpos). pose proof Hwf as [Hmtu Hsz Hmem Hps].
  assert (0 < Z.of_nat (length bs)) by (destruct bs; [done|cbn; lia]).
  rewrite store_Some by lia. cbn [of_option]. rewrite bind_Ret.
  unfold input_handler_done, assert. cbn [buf_size buf_start buf_used set_pos].
  rewrite (proj2 (Z.ltb_lt _ _)), (proj2 (Z.leb_le _ _)) by lia. rewrite !bind_Ret.
  set (d := set_pos _ _ _ _). exists d. split; [done|].
  split; [split; cbn; rewrite ?length_splice by lia; auto; lia|].
  split; [by apply bytes_splice|]. split; [done|].
  unfold d, pending; cbn. subst off.
  rewrite <- (slice_splice_same (buf (dec s)) (buf_start (dec s) + buf_used (dec s)) bs)
    at 3 by lia.
  rewrite <- (slice_splice_disjoint (buf (dec s)) (buf_start (dec s) + buf_used (dec s)) bs
               (buf_start (dec s)) (buf_used (dec s))) by lia.
  apply slice_app; lia.
Qed.

Lemma step_inv mtu s e :
  sys_inv mtu s -> enabled s e -> exists s', step s e = Ret s' /\ sys_inv mtu s'.
Proof.
  intros Hinv Hen. pose proof Hinv as [Hwf Hb Hm Hlog Hfit Herr Hmode].
  destruct e as [bs| |].
  - destruct (step_Data _ _ _ Hinv Hen) as (d & -> & Hd & Hbd & Hmd & Hpend).
    destruct (process_inv mtu s d (rcvd s ++ bs)) as (res & -> & Hres); auto.
    + by apply bytes_take, bytes_drop.
    + by rewrite Hlog, Hpend, app_assoc.
    + cbn. eauto.
  - destruct (process_inv mtu s (dec s) (rcvd s)) as (res & E & Hres); auto.
    { apply bytes_take, bytes_drop, Hb. }
    cbn. unfold output_handler_done. rewrite E. cbn. eauto.
  - eexists; split; [reflexivity|]. destruct Hwf as [Hmtu Hsz Hmem Hps].
    split; cbn; auto.
    + split; cbn; auto. lia.
    + destruct (cur s); [|done]. destruct Hmode as (_ & -> & -> & ?).
      repeat split; cbn; auto; lia.
Qed.

(** Whether an event ends in a call of the error handler. *)
Lemma process_errors mtu s d r :
  wf d -> bytes (buf d) -> output_mtu d = mtu ->
  exists res, process_data d = Ret res /\
    ((length (errors s) < length (errors (after s r res)))%nat <->
     parse mtu (pending d) = TooLarge).
Proof.
  intros Hwf Hb <-.
  destruct (process_data_ok d Hwf Hb) as (d' & es & E & _ & _ & _ & Hcase).
  exists (d', es). split; [done|].
  destruct (parse (output_mtu d) (pending d)) as [| |p rest].
  - destruct Hcase as (_ & -> & _). cbn. split; [lia|done].
  - destruct Hcase as (_ & -> & _). cbn. rewrite length_app. cbn. split; [done|lia].
  - destruct Hcase as (_ & ->). cbn. split; [lia|done].
Qed.

Lemma step_errors mtu s e s' :
  sys_inv mtu s -> enabled s e -> step s e = Ret s' ->
  let seen := match e with Data bs => pending (dec s) ++ bs | _ => pending (dec s) end in
  (length (errors s) < length (errors s'))%nat <-> e <> Reset /\ parse mtu seen = TooLarge.
Proof.
  intros Hinv Hen Hs. pose proof Hinv as [Hwf Hb Hm _ _ _ _]. destruct e as [bs| |].
  - destruct (step_Data _ _ _ Hinv Hen) as (d & E & Hd & Hbd & Hmd & Hpend).
    destruct (process_errors mtu s d (rcvd s ++ bs)) as (res & Ep & Hiff); [done..|].
    rewrite E, Ep in Hs. injection Hs as <-. cbn zeta. rewrite <- Hpend. naive_solver.
  - destruct (process_errors mtu s (dec s) (rcvd s)) as (res & Ep & Hiff); [done..|].
    cbn in Hs. unfold output_handler_done in Hs. rewrite Ep in Hs. injection Hs as <-.
    cbn zeta. naive_solver.
  - injection Hs as <-. cbn. split; [lia|]. by intros [? _].
Qed.

Lemma start_inv mtu mem :
  0 <= mtu -> bytes mem ->
  Z.of_nat (length mem) = PACKETPROTO_ENCLEN (Z.min mtu PACKETPROTO_MAXPAYLOAD) ->
  sys_inv (Z.min mtu PACKETPROTO_MAXPAYLOAD) (start_system mtu mem).
Proof.
  intros Hm Hb Hl. unfold PACKETPROTO_MAXPAYLOAD, PACKETPROTO_ENCLEN, header_size in *.
  split; cbn; auto; unfold PACKETPROTO_ENCLEN, header_size.
  - split; cbn; unfold PACKETPROTO_MAXPAYLOAD, PACKETPROTO_ENCLEN, header_size; lia.
  - repeat split; unfold PACKETPROTO_MAXPAYLOAD; (reflexivity || lia).
Qed.

Lemma run_sys_inv mtu s0 es s : sys_inv mtu s0 -> run s0 es s -> sys_inv mtu s.
Proof.
  intros H0. induction 1 as [|es s e s' _ IH Hen Hst]; [done|].
  destruct (step_inv _ _ _ IH Hen) as (s2 & E & H2). congruence.
Qed.

(** Frames of packets are a prefix code. *)
Lemma encode_prefix_free mtu ps qs r :
  mtu <= PACKETPROTO_MAXPAYLOAD ->
  Forall (fun p => Z.of_nat (length p) <= mtu) ps ->
  Forall (fun p => Z.of_nat (length p) <= mtu) qs ->
  concat (map encode ps) ++ r `prefix_of` concat (map encode qs) ->
  exists qs', qs = ps ++ qs' /\ r `prefix_of` concat (map encode qs').
Proof.
  intros Hm. revert qs. induction ps as [|p ps IH]; intros qs Hp Hq Hpre; [eauto|].
  apply Forall_cons_1 in Hp as [Hp Hps]. destruct Hpre as [t Ht]. cbn in Ht.
  rewrite <- !app_assoc in Ht.
  pose proof (parse_encode mtu p (concat (map encode ps) ++ r ++ t) Hp Hm) as Hparse.
  destruct qs as [|q qs]; [done|].
  apply Forall_cons_1 in Hq as [Hq Hqs]. cbn in Ht.
  pose proof (parse_encode mtu q (concat (map encode qs)) Hq Hm) as Hparse'.
  rewrite Ht, Hparse in Hparse'. injection Hparse' as -> Hrest.
  destruct (IH qs Hps Hqs) as (qs' & -> & Hr).
  { exists t. by rewrite <- app_assoc. }
  exists qs'. auto.
Qed.

(** A stream of frames within the MTU is never oversized, wherever it is cut. *)
Lemma frames_not_oversized mtu ps r qs :
  mtu <= PACKETPROTO_MAXPAYLOAD ->
  Forall (fun p => Z.of_nat (length p) <= mtu) ps ->
  r `prefix_of` concat (map encode ps) -> ~ oversized mtu r qs.
Proof.
  intros Hm Hps Hpre (rest & -> & Hbig & Hqs).
  destruct (encode_prefix_free _ _ _ _ Hm Hqs Hps Hpre) as (tl & -> & Hr).
  apply Forall_app in Hps as [_ Htl]. destruct Hr as [t Ht].
  destruct rest as [|b0 [|b1 rest]]; [done..|].
  destruct tl as [|q tl]; [done|]. apply Forall_cons_1 in Htl as [Hq _].
  pose proof (parse_encode mtu q (concat (map encode tl)) Hq Hm) as Hp. cbn in Ht.
  rewrite Ht in Hp. cbn [app parse] in Hp, Hbig.
  destruct (mtu <? le_val [b0; b1]); [done|]. by destruct (_ <? _).
Qed.

(** The bytes of the stream in a sequence of events. *)
Definition arrived (es : list event) : list Z :=
  concat (map (fun e => match e with Data bs => bs | _ => [] end) es).

Lemma arrived_snoc es e : arrived (es ++ [e]) =
  arrived es ++ match e with Data bs => bs | _ => [] end.
Proof. unfold arrived. rewrite map_app, concat_app. cbn. by rewrite app_nil_r. Qed.

(** Without a reset and before the first error, nothing that arrived is
    forgotten; the first error is about everything that had arrived. *)
Lemma run_arrived s0 es s :
  rcvd s0 = [] -> errors s0 = [] -> Reset ∉ es -> run s0 es s ->
  (errors s = [] /\ rcvd s = arrived es) \/
  exists r ps, (r, ps) ∈ errors s /\ r `prefix_of` arrived es.
Proof.
  intros Hr He Hno. induction 1 as [|es s e s' _ IH Hen Hst]; [by left|].
  apply not_elem_of_app in Hno as [Hno Hne]. rewrite arrived_snoc.
  specialize (IH Hno).
  assert (Hcase : exists r, s' = after s (rcvd s ++
      match e with Data bs => bs | _ => [] end) r).
  { destruct e as [bs| |]; cbn in Hst.
    - destruct (cur s); [|done].
      destruct (of_option _); [cbn in Hst|done..].
      destruct (input_handler_done _ _); [cbn in Hst|done..]. injection Hst as <-. eauto.
    - destruct (output_handler_done _); [cbn in Hst|done..]. injection Hst as <-.
      rewrite app_nil_r. eauto.
    - exfalso. apply Hne, list_elem_of_singleton. done. }
  destruct Hcase as [[d fx] ->]. unfold after.
  destruct IH as [[He' Hr']|(r & ps & Hin & Hp)].
  - destruct (failed fx); [right|left]; cbn; rewrite He', Hr'; [|done].
    eexists _, _. split; [by apply list_elem_of_singleton|done].
  - right. exists r, ps. split; [|by apply prefix_app_r].
    destruct (failed fx); cbn; [|done]. apply elem_of_app. by left.
Qed.

(** C3: the decoder implements the PacketProto format. Started on any output MTU,
    fed with stream bytes in pieces of any size, and reset at any time: the
    bytes received since the stream last began are exactly the frames of the
    packets handed on, in order, followed by the bytes still in the buffer; no
    packet exceeds the MTU; while it waits for input no complete or oversized
    frame is at the front of the buffer, and the outstanding receive is at
    least one byte and inside the buffer; the next event, whatever it is,
    is handled without a failed assertion or an access outside the buffer.
    The error handler is called only when the bytes received since the stream
    began are the frames of the packets handed on and then a header with a
    length above the MTU; and a decoder that comes to such a header does call
    it. *)
Theorem decoder_refines_format mtu mem es s :
  0 <= mtu -> bytes mem ->
  Z.of_nat (length mem) = PACKETPROTO_ENCLEN (Z.min mtu PACKETPROTO_MAXPAYLOAD) ->
  run (start_system mtu mem) es s ->
  let m := Z.min mtu PACKETPROTO_MAXPAYLOAD in
  rcvd s = concat (map encode (sent s)) ++ pending (dec s) /\
  Forall (fun p => Z.of_nat (length p) <= m) (sent s) /\
  Forall (fun e => oversized m e.1 e.2) (errors s) /\
  (forall off len, cur s = Receiving off len ->
     parse m (pending (dec s)) = NeedMore /\
     0 <= off /\ 0 < len /\ off + len <= Z.of_nat (length (buf (dec s)))) /\
  (forall e, enabled s e -> exists s', step s e = Ret s' /\
     let seen := match e with Data bs => pending (dec s) ++ bs | _ => pending (dec s) end in
     (length (errors s) < length (errors s'))%nat <-> e <> Reset /\ parse m seen = TooLarge).
Proof.
  intros Hm Hb Hl Hr m. pose proof (run_sys_inv _ _ _ _ (start_inv _ _ Hm Hb Hl) Hr) as Hinv.
  pose proof Hinv as [Hwf _ Hmt Hlog Hfit Herr Hmode].
  split; [done|]. split; [done|]. split; [done|]. split.
  - intros off len H. rewrite H in Hmode. destruct Hwf. repeat split; try apply Hmode; lia.
  - intros e He. destruct (step_inv _ _ _ Hinv He) as (s' & Hs & _). exists s'.
    split; [done|]. by apply (step_errors m).
Qed.

(** C4: encoder and decoder are inverse. The encoder's code, given packets
    within its MTU and any output buffers of the size it asks for, makes a
    stream; a decoder that is not reset and to which a prefix of this stream
    arrives, cut into pieces in any way, reports no error and hands on a prefix
    of the packets, and all of them once the whole stream has arrived and the
    decoder waits for more. *)
Theorem packetproto_roundtrip mtu mem es s ps bufs :
  0 <= mtu -> bytes mem ->
  Z.of_nat (length mem) = PACKETPROTO_ENCLEN (Z.min mtu PACKETPROTO_MAXPAYLOAD) ->
  run (start_system mtu mem) es s -> Reset ∉ es ->
  Forall (fun p => Z.of_nat (length p) <= Z.min mtu PACKETPROTO_MAXPAYLOAD) ps ->
  length bufs = length ps ->
  Forall (fun data => Z.of_nat (length data) =
            PACKETPROTO_ENCLEN (Z.min mtu PACKETPROTO_MAXPAYLOAD)) bufs ->
  exists stream,
    (enc ← PacketProtoEncoder.Init (Z.min mtu PACKETPROTO_MAXPAYLOAD);
     PacketProtoEncoder.encode_all enc bufs ps) = Ret stream /\
    (arrived es `prefix_of` stream -> errors s = [] /\ sent s `prefix_of` ps /\
       (arrived es = stream -> (exists off len, cur s = Receiving off len) -> sent s = ps)).
Proof.
  intros Hm Hb Hl Hr Hno Hps Hlen Hbufs.
  pose proof (run_sys_inv _ _ _ _ (start_inv _ _ Hm Hb Hl) Hr)
    as [Hwf Hbb Hmt Hlog Hfit Herr Hmode].
  set (m := Z.min mtu PACKETPROTO_MAXPAYLOAD) in *.
  assert (Hmm : m <= PACKETPROTO_MAXPAYLOAD) by (unfold m; lia).
  exists (concat (map encode ps)). split; [by apply PacketProtoEncoder.encode_all_ok|].
  intros Hpre.
  destruct (run_arrived (start_system mtu mem) _ _ eq_refl eq_refl Hno Hr) as [[-> Harr]|(r & qs & Hin & Hrp)].
  2:{ exfalso. apply (proj1 (list.Forall_forall _ _) Herr) in Hin. cbn in Hin.
      eapply (frames_not_oversized m ps r qs); [done|done| |done]. by etrans. }
  split; [done|]. rewrite <- Harr, Hlog in Hpre.
  destruct (encode_prefix_free m _ _ _ Hmm Hfit Hps Hpre) as (qs & Hq & Hrest).
  split; [by exists qs|]. intros Hall (off & len & Hc). rewrite Hc in Hmode.
  destruct qs as [|q qs]; [by rewrite app_nil_r in Hq|].
  rewrite <- Harr, Hlog, Hq, map_app, concat_app in Hall. apply app_inv_head in Hall.
  rewrite Hq in Hps. apply Forall_app in Hps as [_ Hps]. apply Forall_cons_1 in Hps as [Hqm _].
  destruct Hmode as [Hparse _]. rewrite Hall in Hparse. cbn in Hparse.
  pose proof (parse_encode m q (concat (map encode qs)) Hqm Hmm) as Hpe.
  congruence.
Qed.

(** A packet that arrives in two pieces, with its second half behind the wrap. *)
Definition demo_run (s : system) (es : list event) : system :=
  foldl (fun s e => match step s e with Ret s' => s' | _ => s end) s es.
Definition demo_mem : list Z := replicate 6 0.
Definition demo_events : list event :=
  [Data [1; 0; 9; 3]; OutputDone; Data [0; 7]; Data [8; 9]; OutputDone].

Lemma demo_runs : run (start_system 4 demo_mem) demo_events
                    (demo_run (start_system 4 demo_mem) demo_events).
Proof.
  eapply (run_step _ [Data [1; 0; 9; 3]; OutputDone; Data [0; 7]; Data [8; 9]]);
  [eapply (run_step _ [Data [1; 0; 9; 3]; OutputDone; Data [0; 7]]);
   [eapply (run_step _ [Data [1; 0; 9; 3]; OutputDone]);
    [eapply (run_step _ [Data [1; 0; 9; 3]]);
     [eapply (run_step _ []); [apply run_nil|..]|..]|..]|..]|..];
  try (vm_compute; reflexivity);
  try (repeat split; [done|repeat constructor; unfold is_byte; lia|vm_compute; done]); done.
Defined.

Lemma decoder_refines_format_witness :
  let s := demo_run (start_system 4 demo_mem) demo_events in
  rcvd s = concat (map encode (sent s)) ++ pending (dec s) /\ sent s = [[9]; [7; 8; 9]].
Proof.
  intros s. split; [|vm_compute; reflexivity].
  refine (proj1 (decoder_refines_format 4 demo_mem demo_events s ltac:(lia) _ _ demo_runs));
    [repeat constructor; unfold is_byte; lia|reflexivity].
Defined.

Lemma packetproto_roundtrip_witness :
  let s := demo_run (start_system 4 demo_mem) demo_events in
  exists stream,
    (enc ← PacketProtoEncoder.Init 4;
     PacketProtoEncoder.encode_all enc [demo_mem; demo_mem] [[9]; [7; 8; 9]]) = Ret stream /\
    arrived demo_events = stream /\ errors s = [] /\ sent s = [[9]; [7; 8; 9]].
Proof.
  intros s.
  destruct (packetproto_roundtrip 4 demo_mem demo_events s [[9]; [7; 8; 9]] [demo_mem; demo_mem]
            ltac:(lia) ltac:(repeat constructor; unfold is_byte; lia) eq_refl demo_runs)
    as (stream & E & H).
  - intros H. repeat (apply elem_of_cons in H as [H|H]; [done|]). by apply not_elem_of_nil in H.
  - repeat constructor; vm_compute; done.
  - done.
  - repeat constructor.
  - exists stream. split; [exact E|].
    assert (arrived demo_events = stream) as Ha.
    { vm_compute in E. injection E as <-. vm_compute. reflexivity. }
    split; [done|]. destruct H as (He & _ & Hs); [by rewrite Ha|].
    split; [done|]. apply Hs; [done|]. eexists _, _. vm_compute. reflexivity.
Defined.

End PacketProtoDecoder.
