(* ===== verification/FairQueue.v ===== *)
(** * flow/PacketPassFairQueue.c: sharing one output between flows

    tun2socks multiplexes the UDP connections of the gateway client over one
    stream with this queue. Every flow has a virtual time that grows by the
    size of each packet it sends; the queued flow with the smallest time goes
    next. Flows are identified by their addresses, which also break ties.

    [PacketPassFairQueue__Tree] is an AVL tree ordered by [compare_flows]; it
    is represented by the list of its elements in that order, with its insert,
    remove and first operations. *)
From S2P Require Import Prelude.
From stdpp Require Import gmap sorting.
Local Open Scope Z_scope.

Module PacketPassFairQueue.

Definition FAIRQUEUE_MAX_TIME : Z := 2 ^ 64 - 1.

Record PacketPassFairQueueFlow := mkFlow {
  handler_busy : bool;
  time : Z;
  is_queued : bool;
  data : list Z;
}.

Record PacketPassFairQueue := mkQueue {
  mtu : Z;                                  (* PacketPassInterface_GetMTU(m->output) *)
  packet_weight : Z;
  sending_flow : option Z;
  sending_len : Z;
  previous_flow : option Z;
  queued_tree : list Z;
  flows_list : gmap Z PacketPassFairQueueFlow;
  freeing : bool;
  schedule_job : bool;                      (* BPending_IsSet(&m->schedule_job) *)
}.

(** Calls the queue makes. *)
Inductive effect :=
| OutputSend (data : list Z)      (* PacketPassInterface_Sender_Send(m->output, ...) *)
| InputDone (flow : Z)            (* PacketPassInterface_Done(&flow->input) *)
| HandlerBusy (flow : Z).

Definition set_flow_time (f : PacketPassFairQueueFlow) (t : Z) :=
  mkFlow (handler_busy f) t (is_queued f) (data f).
Definition set_flow_queued (f : PacketPassFairQueueFlow) (q : bool) (d : list Z) :=
  mkFlow (handler_busy f) (time f) q d.
Definition set_sending (m : PacketPassFairQueue) (s : option Z) (len : Z) :=
  mkQueue (mtu m) (packet_weight m) s len (previous_flow m) (queued_tree m)
    (flows_list m) (freeing m) (schedule_job m).
Definition set_previous (m : PacketPassFairQueue) (p : option Z) :=
  mkQueue (mtu m) (packet_weight m) (sending_flow m) (sending_len m) p (queued_tree m)
    (flows_list m) (freeing m) (schedule_job m).
Definition set_flows (m : PacketPassFairQueue) (fs : gmap Z PacketPassFairQueueFlow) :=
  mkQueue (mtu m) (packet_weight m) (sending_flow m) (sending_len m) (previous_flow m)
    (queued_tree m) fs (freeing m) (schedule_job m).
Definition set_tree (m : PacketPassFairQueue) (t : list Z) :=
  mkQueue (mtu m) (packet_weight m) (sending_flow m) (sending_len m) (previous_flow m) t
    (flows_list m) (freeing m) (schedule_job m).
Definition set_job (m : PacketPassFairQueue) (j : bool) :=
  mkQueue (mtu m) (packet_weight m) (sending_flow m) (sending_len m) (previous_flow m)
    (queued_tree m) (flows_list m) (freeing m) j.

(** [flow->time], of a live flow. *)
Definition flow_time (fs : gmap Z PacketPassFairQueueFlow) (p : Z) : Z :=
  match fs !! p with Some f => time f | None => 0 end.

(** [compare_flows(f1, f2) < 0]: by time, then by address. *)
Definition flow_before (fs : gmap Z PacketPassFairQueueFlow) (p q : Z) : bool :=
  (flow_time fs p <? flow_time fs q) ||
  ((flow_time fs p =? flow_time fs q) && (p <? q)).

Fixpoint Tree_Insert (fs : gmap Z PacketPassFairQueueFlow) (p : Z) (t : list Z) : list Z :=
  match t with
  | [] => [p]
  | q :: t => if flow_before fs p q then p :: q :: t else q :: Tree_Insert fs p t
  end.
(** The insertion fails if the tree has an element that compares as equal, which
    is the flow itself. *)
Definition Tree_Contains (p : Z) (t : list Z) : bool := existsb (Z.eqb p) t.
Definition Tree_Remove (p : Z) (t : list Z) : list Z := filter (fun q => q <> p) t.
Definition Tree_GetFirst (t : list Z) : option Z := head t.
Definition Tree_IsEmpty (t : list Z) : bool := match t with [] => true | _ => false end.

(** The negation of a pointer. *)
Definition not_set (o : option Z) : bool := match o with None => true | Some _ => false end.

Definition get_flow (m : PacketPassFairQueue) (p : Z) : cres PacketPassFairQueueFlow :=
  of_option (flows_list m !! p).

Definition get_current_time (m : PacketPassFairQueue) : cres Z :=
  match sending_flow m with
  | Some s => f ← get_flow m s; Ret (time f)
  | None =>
      first ← (match Tree_GetFirst (queued_tree m) with
               | Some q => f ← get_flow m q; _ ← assert (is_queued f); Ret (Some (time f))
               | None => Ret None
               end);
      have ← (match previous_flow m with
              | Some p =>
                  f ← get_flow m p;
                  match first with
                  | Some t => Ret (Some (if time f <? t then time f else t))
                  | None => Ret (Some (time f))
                  end
              | None => Ret first
              end);
      Ret (default 0 have)
  end.

(** The subtraction from one flow when the sent flow's time would overflow. *)
Definition subtract_time (sent : Z) (subtract : Z) (p : Z) (f : PacketPassFairQueueFlow) :
    PacketPassFairQueueFlow :=
  if (time f <? subtract) && negb (p =? sent) then set_flow_time f 0
  else set_flow_time f (u64 (time f - subtract)).

(** The assertion of the loop over the flows. *)
Definition may_subtract (sent subtract : Z) (fs : gmap Z PacketPassFairQueueFlow) : bool :=
  forallb (fun x => negb ((time x.2 <? subtract) && negb (x.1 =? sent) && is_queued x.2)) (map_to_list fs).

Definition increment_sent_flow (m : PacketPassFairQueue) (p amount : Z) :
    cres PacketPassFairQueue :=
  f ← get_flow m p;
  _ ← assert (amount <=? FAIRQUEUE_MAX_TIME);
  _ ← assert (negb (is_queued f));
  _ ← assert (not_set (sending_flow m));
  m ← (if FAIRQUEUE_MAX_TIME - time f <? amount then
         subtract ← (match Tree_GetFirst (queued_tree m) with
                     | None => Ret (time f)
                     | Some q => g ← get_flow m q; _ ← assert (is_queued g); Ret (time g)
                     end);
         _ ← assert (may_subtract p subtract (flows_list m));
         Ret (set_flows m (map_imap (fun q g => Some (subtract_time p subtract q g))
                             (flows_list m)))
       else Ret m);
  f ← get_flow m p;
  Ret (set_flows m (<[p := set_flow_time f (u64 (time f + amount))]> (flows_list m))).

Definition schedule (m : PacketPassFairQueue) : cres (PacketPassFairQueue * list effect) :=
  _ ← assert (not_set (sending_flow m));
  _ ← assert (not_set (previous_flow m));
  _ ← assert (negb (freeing m));
  _ ← assert (negb (Tree_IsEmpty (queued_tree m)));
  match Tree_GetFirst (queued_tree m) with
  | None => Undef
  | Some q =>
      f ← get_flow m q;
      _ ← assert (is_queued f);
      let m := set_tree m (Tree_Remove q (queued_tree m)) in
      let m := set_flows m (<[q := set_flow_queued f false (data f)]> (flows_list m)) in
      Ret (set_sending m (Some q) (Z.of_nat (length (data f))), [OutputSend (data f)])
  end.

(** Run by the pending group, which has unset the job. *)
Definition schedule_job_handler (m : PacketPassFairQueue) :
    cres (PacketPassFairQueue * list effect) :=
  let m := set_job m false in
  _ ← assert (not_set (sending_flow m));
  _ ← assert (negb (freeing m));
  let m := set_previous m None in
  if Tree_IsEmpty (queued_tree m) then Ret (m, []) else schedule m.

Definition input_handler_send (m : PacketPassFairQueue) (p : Z) (dat : list Z) :
    cres (PacketPassFairQueue * list effect) :=
  f ← get_flow m p;
  _ ← assert (negb (bool_decide (sending_flow m = Some p)));
  _ ← assert (negb (is_queued f));
  _ ← assert (negb (freeing m));
  '(m, f) ← (if bool_decide (previous_flow m = Some p) then Ret (set_previous m None, f)
             else t ← get_current_time m; Ret (m, set_flow_time f (Z.max (time f) t)));
  let fs := <[p := mkFlow (handler_busy f) (time f) true dat]> (flows_list m) in
  _ ← assert (negb (Tree_Contains p (queued_tree m)));
  let m := set_tree (set_flows m fs) (Tree_Insert fs p (queued_tree m)) in
  if not_set (sending_flow m) && negb (schedule_job m)
  then schedule m else Ret (m, []).

Definition output_handler_done (m : PacketPassFairQueue) :
    cres (PacketPassFairQueue * list effect) :=
  p ← of_option (sending_flow m);
  _ ← assert (not_set (previous_flow m));
  _ ← assert (negb (schedule_job m));
  _ ← assert (negb (freeing m));
  f ← get_flow m p;
  _ ← assert (negb (is_queued f));
  let m := set_previous (set_sending m None (sending_len m)) (Some p) in
  m ← increment_sent_flow m p (packet_weight m + sending_len m);
  let m := set_job m true in
  f ← get_flow m p;
  if handler_busy f then
    let m := set_flows m
      (<[p := mkFlow false (time f) (is_queued f) (data f)]> (flows_list m)) in
    Ret (m, [InputDone p; HandlerBusy p])
  else Ret (m, [InputDone p]).

Definition PacketPassFairQueue_Init (mtu_ packet_weight_ : Z) : option PacketPassFairQueue :=
  if (mtu_ <=? FAIRQUEUE_MAX_TIME) && (packet_weight_ <=? FAIRQUEUE_MAX_TIME - mtu_) then
    Some (mkQueue mtu_ packet_weight_ None 0 None [] ∅ false false)
  else None.

Definition PacketPassFairQueue_PrepareFree (m : PacketPassFairQueue) : PacketPassFairQueue :=
  mkQueue (mtu m) (packet_weight m) (sending_flow m) (sending_len m) (previous_flow m)
    (queued_tree m) (flows_list m) true (schedule_job m).

Definition Flow_Init (m : PacketPassFairQueue) (p : Z) : cres PacketPassFairQueue :=
  _ ← assert (negb (freeing m));
  Ret (set_flows m (<[p := mkFlow false 0 false []]> (flows_list m))).

Definition Flow_Free (m : PacketPassFairQueue) (p : Z) : cres PacketPassFairQueue :=
  f ← get_flow m p;
  _ ← assert (freeing m || negb (bool_decide (sending_flow m = Some p)));
  let m := if bool_decide (sending_flow m = Some p)
           then set_sending m None (sending_len m) else m in
  let m := if bool_decide (previous_flow m = Some p) then set_previous m None else m in
  let m := if is_queued f then set_tree m (Tree_Remove p (queued_tree m)) else m in
  Ret (set_flows m (delete p (flows_list m))).

Definition Flow_IsBusy (m : PacketPassFairQueue) (p : Z) : cres bool :=
  _ ← assert (negb (freeing m)); Ret (bool_decide (sending_flow m = Some p)).

Definition Flow_SetBusyHandler (m : PacketPassFairQueue) (p : Z) (h : bool) :
    cres PacketPassFairQueue :=
  f ← get_flow m p;
  _ ← assert (bool_decide (sending_flow m = Some p));
  _ ← assert (negb (freeing m));
  Ret (set_flows m (<[p := mkFlow h (time f) (is_queued f) (data f)]> (flows_list m))).

(** ** The order of the tree *)

Definition tree_sorted (fs : gmap Z PacketPassFairQueueFlow) (t : list Z) : Prop :=
  StronglySorted (fun p q => flow_before fs p q = true) t.

Lemma flow_before_spec fs p q :
  flow_before fs p q = true <->
  flow_time fs p < flow_time fs q \/ flow_time fs p = flow_time fs q /\ p < q.
Proof.
  unfold flow_before. rewrite orb_true_iff, andb_true_iff, !Z.ltb_lt, Z.eqb_eq. tauto.
Qed.

Lemma flow_before_total fs p q :
  p <> q -> flow_before fs p q = false -> flow_before fs q p = true.
Proof.
  intros Hne. rewrite <- not_true_iff_false, !flow_before_spec. lia.
Qed.

(** The order depends on differences of times only. *)
Lemma tree_sorted_shift fs fs' t c :
  (forall p, p ∈ t -> flow_time fs' p = flow_time fs p - c) ->
  tree_sorted fs t -> tree_sorted fs' t.
Proof.
  intros Ht. induction 1 as [|p t Hs IH Hp]; [constructor|].
  constructor.
  - apply IH. intros q Hq. apply Ht. by right.
  - rewrite Forall_forall in Hp |- *. intros q Hq. specialize (Hp q Hq).
    rewrite flow_before_spec in *.
    rewrite (Ht p), (Ht q) by (first [by left|by right]). lia.
Qed.

Lemma elem_of_Tree_Insert fs p q t : q ∈ Tree_Insert fs p t <-> q = p \/ q ∈ t.
Proof.
  induction t as [|r t IH]; cbn; [set_solver|].
  destruct (flow_before fs p r); set_solver.
Qed.

Lemma Tree_Insert_sorted fs p t :
  p ∉ t -> tree_sorted fs t -> tree_sorted fs (Tree_Insert fs p t).
Proof.
  intros Hp. induction 1 as [|q t Hs IH Hq]; cbn; [by repeat constructor|].
  destruct (flow_before fs p q) eqn:E.
  - constructor; [by constructor|]. constructor; [done|].
    eapply List.Forall_impl; [|exact Hq]. intros r Hr. cbn in Hr.
    rewrite flow_before_spec in *. lia.
  - constructor; [apply IH; set_solver|].
    rewrite Forall_forall in Hq |- *. intros r Hr.
    apply elem_of_Tree_Insert in Hr as [->|Hr]; [|by apply Hq].
    apply flow_before_total; [set_solver|done].
Qed.

Lemma tree_sorted_head fs q t p :
  tree_sorted fs (q :: t) -> p ∈ q :: t -> flow_time fs q <= flow_time fs p.
Proof.
  intros Hs. inversion Hs as [|? ? _ Hq]; subst. intros Hp.
  apply elem_of_cons in Hp as [->|Hp]; [lia|].
  rewrite Forall_forall in Hq. specialize (Hq p Hp). apply flow_before_spec in Hq. lia.
Qed.

Lemma tree_sorted_notin fs q t : tree_sorted fs (q :: t) -> q ∉ t.
Proof.
  intros Hs Hq. inversion Hs as [|? ? _ Hf]; subst.
  rewrite Forall_forall in Hf. specialize (Hf q Hq). apply flow_before_spec in Hf. lia.
Qed.

Lemma Tree_Remove_head fs q t : tree_sorted fs (q :: t) -> Tree_Remove q (q :: t) = t.
Proof.
  intros Hn%tree_sorted_notin. unfold Tree_Remove.
  rewrite filter_cons_False by (intros H; by apply H).
  induction t as [|p t IH]; [done|]. rewrite filter_cons_True by set_solver.
  f_equal. apply IH. set_solver.
Qed.

Lemma Tree_Remove_sorted fs p t : tree_sorted fs t -> tree_sorted fs (Tree_Remove p t).
Proof.
  unfold Tree_Remove. induction 1 as [|q t Hs IH Hq]; [constructor|].
  rewrite filter_cons. case_decide; [|done]. constructor; [done|].
  rewrite Forall_forall in Hq |- *. intros r Hr. apply Hq.
  apply list_elem_of_filter in Hr. apply Hr.
Qed.

(** ** The invariant *)

Record fq_inv (m : PacketPassFairQueue) : Prop := {
  i_par : 0 < packet_weight m /\ 0 <= mtu m /\ packet_weight m + mtu m <= FAIRQUEUE_MAX_TIME;
  i_range : forall p f, flows_list m !! p = Some f ->
    0 <= time f <= FAIRQUEUE_MAX_TIME /\
    (is_queued f = true -> Z.of_nat (length (data f)) <= mtu m);
  i_tree : forall p, p ∈ queued_tree m <->
    exists f, flows_list m !! p = Some f /\ is_queued f = true;
  i_sorted : tree_sorted (flows_list m) (queued_tree m);
  i_sending : match sending_flow m with
    | Some s => exists f, flows_list m !! s = Some f /\ is_queued f = false /\
        (forall q, q ∈ queued_tree m -> time f <= flow_time (flows_list m) q) /\
        previous_flow m = None /\ schedule_job m = false /\ 0 <= sending_len m <= mtu m
    | None => schedule_job m = false -> queued_tree m = []
    end;
  i_prev : match previous_flow m with
    | Some p => exists f, flows_list m !! p = Some f /\ is_queued f = false /\
        schedule_job m = true
    | None => True
    end;
  i_freeing : freeing m = false;
}.

Lemma flow_time_lookup fs p f : fs !! p = Some f -> flow_time fs p = time f.
Proof. unfold flow_time. by intros ->. Qed.
Lemma flow_time_insert_ne fs p q f : p <> q -> flow_time (<[p := f]> fs) q = flow_time fs q.
Proof. intros. unfold flow_time. by rewrite lookup_insert_ne. Qed.
Lemma flow_time_insert fs p f : flow_time (<[p := f]> fs) p = time f.
Proof. unfold flow_time. by rewrite lookup_insert_eq. Qed.

Lemma inv_Init mtu_ w m :
  0 <= mtu_ -> 0 < w -> PacketPassFairQueue_Init mtu_ w = Some m -> fq_inv m.
Proof.
  intros H0 H1. unfold PacketPassFairQueue_Init.
  destruct (Z.leb_spec mtu_ FAIRQUEUE_MAX_TIME); [|done].
  destruct (Z.leb_spec w (FAIRQUEUE_MAX_TIME - mtu_)); [|done]. cbn. intros E.
  injection E as <-. split; cbn; try done; try lia.
  - intros p. split; [by intros ?%elem_of_nil|]. intros (f & Hf & _). done.
  - constructor.
Qed.

Lemma inv_Flow_Init m p :
  fq_inv m -> flows_list m !! p = None ->
  exists m', Flow_Init m p = Ret m' /\ fq_inv m' /\
    flows_list m' !! p = Some (mkFlow false 0 false []).
Proof.
  intros [Hp Hr Ht Hs Hsd Hpv Hfr] Hnew. unfold Flow_Init. rewrite Hfr. cbn.
  eexists; split; [reflexivity|]. split; [|by cbn; rewrite lookup_insert_eq].
  assert (Hnt : p ∉ queued_tree m) by (rewrite Ht; intros (f & Hf & _); congruence).
  split; cbn; auto.
  - intros q f. destruct (decide (p = q)) as [<-|]; [rewrite lookup_insert_eq|
      rewrite lookup_insert_ne by done; apply Hr].
    intros E; injection E as <-. cbn. unfold FAIRQUEUE_MAX_TIME. split; [lia|done].
  - intros q. rewrite Ht. destruct (decide (p = q)) as [<-|].
    + rewrite lookup_insert_eq, Hnew. naive_solver.
    + by rewrite lookup_insert_ne.
  - apply (tree_sorted_shift (flows_list m) _ _ 0); [|done].
    intros q Hq. rewrite flow_time_insert_ne by (intros ->; done). lia.
  - destruct (sending_flow m) as [s|]; [|done].
    destruct Hsd as (f & Hf & Hq & Hmin & Hrest). exists f.
    rewrite lookup_insert_ne by congruence. split; [done|]. split; [done|]. split; [|done].
    intros q Hqt. rewrite flow_time_insert_ne by (intros ->; done). auto.
  - destruct (previous_flow m) as [s|]; [|done].
    destruct Hpv as (f & Hf & ?). exists f. rewrite lookup_insert_ne by congruence. auto.
Qed.

(** ** Scheduling *)

(** What holds when [schedule] is called. *)
Record can_schedule (m : PacketPassFairQueue) : Prop := {
  cs_par : 0 < packet_weight m /\ 0 <= mtu m /\ packet_weight m + mtu m <= FAIRQUEUE_MAX_TIME;
  cs_range : forall p f, flows_list m !! p = Some f ->
    0 <= time f <= FAIRQUEUE_MAX_TIME /\
    (is_queued f = true -> Z.of_nat (length (data f)) <= mtu m);
  cs_tree : forall p, p ∈ queued_tree m <->
    exists f, flows_list m !! p = Some f /\ is_queued f = true;
  cs_sorted : tree_sorted (flows_list m) (queued_tree m);
  cs_idle : sending_flow m = None /\ previous_flow m = None /\ schedule_job m = false /\
    freeing m = false;
}.

(** The flow with the smallest time is chosen, its packet goes out. *)
Lemma schedule_ok m q t :
  can_schedule m -> queued_tree m = q :: t ->
  exists m' f, schedule m = Ret (m', [OutputSend (data f)]) /\ fq_inv m' /\
    flows_list m !! q = Some f /\ is_queued f = true /\
    sending_flow m' = Some q /\ queued_tree m' = t /\
    (forall p, p ∈ queued_tree m -> time f <= flow_time (flows_list m) p) /\
    (forall p, flow_time (flows_list m') p = flow_time (flows_list m) p) /\
    previous_flow m' = None.
Proof.
  intros [Hp Hr Ht Hs (Hsd & Hpv & Hj & Hfr)] Eq.
  assert (exists f, flows_list m !! q = Some f /\ is_queued f = true) as (f & Hf & Hqf).
  { apply Ht. rewrite Eq. by left. }
  unfold schedule, get_flow. rewrite Hsd, Hpv, Hfr, Eq.
  cbn [not_set Tree_IsEmpty negb assert Tree_GetFirst head].
  rewrite !bind_Ret, Hf. cbn [of_option]. rewrite bind_Ret, Hqf. cbn [assert].
  rewrite bind_Ret, Eq in *. rewrite (Tree_Remove_head _ _ _ Hs).
  assert (Hnt : q ∉ t) by (eapply tree_sorted_notin; eauto).
  assert (Hmin : forall p, p ∈ q :: t -> time f <= flow_time (flows_list m) p).
  { intros p. rewrite <- (flow_time_lookup _ _ _ Hf). by apply tree_sorted_head. }
  assert (Htime : forall p, flow_time (<[q := set_flow_queued f false (data f)]>
                              (flows_list m)) p = flow_time (flows_list m) p).
  { intros p. unfold flow_time. destruct (decide (q = p)) as [<-|].
    - by rewrite lookup_insert_eq, Hf.
    - by rewrite lookup_insert_ne. }
  eexists _, f. split; [reflexivity|]. split; [|by auto 9].
  split; cbn; auto; try lia.
  - intros p g. destruct (decide (q = p)) as [<-|]; [rewrite lookup_insert_eq|
      rewrite lookup_insert_ne by done; apply Hr].
    intros E; injection E as <-. cbn. split; [apply (Hr _ _ Hf)|done].
  - intros p. destruct (decide (q = p)) as [<-|].
    + rewrite lookup_insert_eq. split; [done|]. intros (g & E & Hg). injection E as <-. done.
    + rewrite lookup_insert_ne by done. rewrite <- Ht. rewrite elem_of_cons. naive_solver.
  - apply (tree_sorted_shift (flows_list m) _ _ 0).
    + intros p Hpt. rewrite Htime. lia.
    + by inversion Hs.
  - eexists. rewrite lookup_insert_eq. split; [reflexivity|]. split; [done|]. cbn.
    split; [|split; [done|split; [done|]]].
    + intros p Hpt. rewrite Htime. apply Hmin. by right.
    + split; [lia|]. by apply (Hr _ _ Hf).
  - by rewrite Hpv.
Qed.

Lemma schedule_job_handler_ok m :
  fq_inv m -> schedule_job m = true -> sending_flow m = None ->
  exists m' es, schedule_job_handler m = Ret (m', es) /\ fq_inv m' /\
    match queued_tree m with
    | [] => es = [] /\ sending_flow m' = None
    | q :: t => exists f, flows_list m !! q = Some f /\ es = [OutputSend (data f)] /\
        sending_flow m' = Some q /\
        forall p, p ∈ queued_tree m -> time f <= flow_time (flows_list m) p
    end /\
    previous_flow m' = None /\
    forall p, flow_time (flows_list m') p = flow_time (flows_list m) p.
Proof.
  intros [Hp Hr Ht Hs Hsd Hpv Hfr] Hj Hsn. unfold schedule_job_handler.
  cbn [sending_flow set_job freeing]. rewrite Hsn, Hfr. cbn [not_set assert negb]. rewrite !bind_Ret.
  cbn [queued_tree set_previous set_job].
  destruct (queued_tree m) as [|q t] eqn:Eq; cbn [Tree_IsEmpty].
  - eexists _, _. split; [reflexivity|]. split; [|by rewrite <- Hsn].
    split; cbn; auto; rewrite ?Eq, ?Hsn; auto.
  - destruct (schedule_ok (set_previous (set_job m false) None) q t)
      as (m' & f & E & Hinv & Hf & _ & Hsend & _ & Hmin & Hti & Hpp);
      [split; cbn; rewrite ?Eq; auto|done|].
    exists m', [OutputSend (data f)]. split; [done|]. split; [done|]. split; [|done].
    exists f. cbn in Hf, Hmin. rewrite Eq in Hmin. auto.
Qed.

(** [get_current_time]: the sending flow's time, else the least of the first
    queued flow's and the previous flow's. *)
Lemma get_current_time_ok m :
  fq_inv m -> exists t, get_current_time m = Ret t /\ 0 <= t <= FAIRQUEUE_MAX_TIME /\
    (forall s f, sending_flow m = Some s -> flows_list m !! s = Some f -> t = time f).
Proof.
  intros [Hp Hr Ht Hs Hsd Hpv _]. unfold get_current_time, get_flow, FAIRQUEUE_MAX_TIME in *.
  destruct (sending_flow m) as [s|] eqn:Es.
  { destruct Hsd as (f & Hf & _). rewrite Hf. cbn. eexists; split; [reflexivity|].
    split; [by apply (Hr _ _ Hf)|]. intros ? ? E. injection E as <-. congruence. }
  assert (exists first, (match Tree_GetFirst (queued_tree m) with
             | Some q => f ← of_option (flows_list m !! q); _ ← assert (is_queued f); Ret (Some (time f))
             | None => Ret None end) = Ret first /\
           forall t, first = Some t -> 0 <= t <= 2 ^ 64 - 1) as (first & -> & Hfirst).
  { destruct (queued_tree m) as [|q t] eqn:Eq; cbn; [by exists None|].
    destruct (proj1 (Ht q)) as (f & Hf & Hq); [by left|]. rewrite Hf. cbn. rewrite Hq. cbn.
    eexists; split; [reflexivity|]. intros ? E. injection E as <-. by apply (Hr _ _ Hf). }
  rewrite bind_Ret. destruct (previous_flow m) as [p|].
  - destruct Hpv as (f & Hf & _). rewrite Hf. cbn.
    pose proof (proj1 (Hr _ _ Hf)) as Hfr.
    destruct first as [t|]; cbn; (eexists; split; [reflexivity|]; split; [|done]).
    + specialize (Hfirst t eq_refl). destruct (time f <? t); lia.
    + lia.
  - cbn. eexists; split; [reflexivity|]. split; [|done].
    destruct first as [t|]; cbn; [by apply Hfirst|lia].
Qed.

(** ** A flow has a packet *)

(** The queue after flow [p] was queued with [dat] at time [t]. *)
Definition queued (m : PacketPassFairQueue) (p : Z) (f : PacketPassFairQueueFlow)
    (t : Z) (dat : list Z) : PacketPassFairQueue :=
  let fs := <[p := mkFlow (handler_busy f) t true dat]> (flows_list m) in
  set_tree (set_flows m fs) (Tree_Insert fs p (queued_tree m)).

Lemma queued_parts m p f t dat :
  fq_inv m -> flows_list m !! p = Some f -> is_queued f = false ->
  0 <= t <= FAIRQUEUE_MAX_TIME -> Z.of_nat (length dat) <= mtu m ->
  let m' := queued m p f t dat in
  (forall q g, flows_list m' !! q = Some g ->
    0 <= time g <= FAIRQUEUE_MAX_TIME /\
    (is_queued g = true -> Z.of_nat (length (data g)) <= mtu m)) /\
  (forall q, q ∈ queued_tree m' <->
    exists g, flows_list m' !! q = Some g /\ is_queued g = true) /\
  tree_sorted (flows_list m') (queued_tree m').
Proof.
  intros [Hp Hr Ht Hs _ _ _] Hf Hq Htr Hl m'.
  assert (Hnt : p ∉ queued_tree m) by (rewrite Ht; intros (g & Hg & ?); congruence).
  split; [|split].
  - intros q g. cbn. destruct (decide (p = q)) as [<-|]; [rewrite lookup_insert_eq|
      rewrite lookup_insert_ne by done; apply Hr]. intros E; injection E as <-. done.
  - intros q. cbn. rewrite elem_of_Tree_Insert. destruct (decide (p = q)) as [<-|].
    + rewrite lookup_insert_eq. split; [eauto|by left].
    + rewrite lookup_insert_ne by done. rewrite <- Ht. split; [by intros [->|]|auto].
  - cbn. apply Tree_Insert_sorted; [done|].
    apply (tree_sorted_shift (flows_list m) _ _ 0); [|done].
    intros q Hqt. rewrite flow_time_insert_ne by (intros ->; done). lia.
Qed.

(** Queueing behind another flow, or before the scheduling job runs, keeps the
    invariant. [pv] is the previous flow that remains. *)
Lemma queued_inv m p f t dat pv :
  fq_inv m -> flows_list m !! p = Some f -> is_queued f = false ->
  0 <= t <= FAIRQUEUE_MAX_TIME -> Z.of_nat (length dat) <= mtu m ->
  sending_flow m <> Some p ->
  (forall s g, sending_flow m = Some s -> flows_list m !! s = Some g -> time g <= t) ->
  (sending_flow m = None -> schedule_job m = true) ->
  pv = None \/ pv = previous_flow m /\ pv <> Some p ->
  fq_inv (set_previous (queued m p f t dat) pv).
Proof.
  intros Hinv Hf Hq Htr Hl Hns Hts Hjob Hpv.
  destruct (queued_parts m p f t dat Hinv Hf Hq Htr Hl) as (Hr' & Ht' & Hs').
  destruct Hinv as [Hp Hr Ht Hs Hsd Hpr Hfz]. split; auto; cbn.
  - destruct (sending_flow m) as [s|] eqn:Es; [|by rewrite Hjob].
    destruct Hsd as (g & Hg & Hgq & Hmin & Hpn & Hjn & Hsl).
    exists g. rewrite lookup_insert_ne by congruence.
    split; [done|]. split; [done|]. split; [|destruct Hpv as [->|[-> _]]; auto].
    intros q. rewrite elem_of_Tree_Insert. destruct (decide (q = p)) as [->|Hqp].
    + intros _. rewrite flow_time_insert. by apply (Hts s).
    + intros [->|Hqt]; [done|]. rewrite flow_time_insert_ne by done. auto.
  - destruct Hpv as [->|[-> Hne]]; [done|]. destruct (previous_flow m) as [r|]; [|done].
    destruct Hpr as (g & Hg & Hgq & Hj). exists g. rewrite lookup_insert_ne by congruence. auto.
Qed.

(** [input_handler_send] up to the decision to schedule: the time the flow gets
    and the queue it is put in. *)
Lemma input_handler_send_unfold m p f dat :
  fq_inv m -> flows_list m !! p = Some f -> is_queued f = false ->
  sending_flow m <> Some p ->
  exists t pv,
    0 <= t <= FAIRQUEUE_MAX_TIME /\
    (previous_flow m = Some p -> t = time f) /\
    (forall s g, sending_flow m = Some s -> flows_list m !! s = Some g -> time g <= t) /\
    (pv = None \/ pv = previous_flow m /\ pv <> Some p) /\
    input_handler_send m p dat =
      let m2 := set_previous (queued m p f t dat) pv in
      if not_set (sending_flow m) && negb (schedule_job m)
      then schedule m2 else Ret (m2, []).
Proof.
  intros Hinv Hf Hq Hns. destruct (get_current_time_ok m Hinv) as (tc & Htc & Hrc & Hsc).
  pose proof (proj1 (i_range _ Hinv _ _ Hf)) as Hfr.
  assert (Hnt : Tree_Contains p (queued_tree m) = false).
  { apply not_true_iff_false. intros (q & Hin & ->%Z.eqb_eq)%existsb_exists.
    apply list_elem_of_In, (i_tree _ Hinv) in Hin as (g & Hg & ?). congruence. }
  unfold input_handler_send, get_flow. rewrite Hf. cbn [of_option]. rewrite bind_Ret.
  rewrite (bool_decide_eq_false_2 _ Hns), Hq, (i_freeing _ Hinv). cbn [assert negb].
  rewrite !bind_Ret. case_bool_decide as Hpv.
  - exists (time f), None. split; [done|]. split; [done|].
    split; [|split; [auto|by rewrite bind_Ret; cbn [queued_tree set_previous]; rewrite Hnt]].
    intros s g Hs. pose proof (i_sending _ Hinv) as Hx. rewrite Hs in Hx.
    destruct Hx as (? & ? & ? & ? & ? & _). congruence.
  - exists (Z.max (time f) tc), (previous_flow m). split; [lia|]. split; [done|].
    split; [|split; [auto|]].
    + intros s g Hs Hg. rewrite <- (Hsc s g Hs Hg). lia.
    + rewrite Htc, !bind_Ret, Hnt. cbn -[schedule]. unfold queued. by destruct m.
Qed.

Lemma queued_time m p f t dat q :
  flows_list m !! p = Some f -> q <> p \/ t = time f ->
  flow_time (flows_list (queued m p f t dat)) q = flow_time (flows_list m) q.
Proof.
  intros Hf Hq. cbn. destruct (decide (q = p)) as [->|].
  - rewrite flow_time_insert, (flow_time_lookup _ _ _ Hf). cbn. naive_solver.
  - by rewrite flow_time_insert_ne.
Qed.

Lemma input_handler_send_ok m p f dat :
  fq_inv m -> flows_list m !! p = Some f -> is_queued f = false ->
  sending_flow m <> Some p -> Z.of_nat (length dat) <= mtu m ->
  exists m' es, input_handler_send m p dat = Ret (m', es) /\ fq_inv m' /\
    (es = [] /\ p ∈ queued_tree m' /\ sending_flow m' = sending_flow m /\
       (exists g, flows_list m' !! p = Some g /\ data g = dat) \/
     es = [OutputSend dat] /\ sending_flow m' = Some p /\ queued_tree m = []) /\
    (forall q, q <> p \/ previous_flow m = Some p ->
       flow_time (flows_list m') q = flow_time (flows_list m) q).
Proof.
  intros Hinv Hf Hq Hns Hl.
  destruct (input_handler_send_unfold m p f dat) as (t & pv & Htr & Htp & Hts & Hpv & ->); auto.
  assert (Htimes : forall q, q <> p \/ previous_flow m = Some p ->
    flow_time (flows_list (queued m p f t dat)) q = flow_time (flows_list m) q).
  { intros q Hqp. apply queued_time; [done|]. destruct Hqp; auto. }
  cbn zeta. set (m2 := set_previous _ pv).
  destruct (_ && _) eqn:Eidle.
  - assert (sending_flow m = None /\ schedule_job m = false) as [Hsn Hj].
    { destruct (sending_flow m), (schedule_job m); done. }
    pose proof (i_sending _ Hinv) as Hsd. rewrite Hsn in Hsd. specialize (Hsd Hj).
    assert (Hpn : previous_flow m = None).
    { pose proof (i_prev _ Hinv) as Hx. destruct (previous_flow m); [|done].
      destruct Hx as (? & ? & ? & ?). congruence. }
    assert (pv = None) as -> by (destruct Hpv as [->|[-> _]]; done).
    destruct (queued_parts m p f t dat Hinv Hf Hq Htr Hl) as (Hr' & Ht' & Hs').
    destruct (schedule_ok m2 p []) as (m' & g & E & Hinv' & Hg & _ & Hsend & _ & _ & Hti & _).
    + split; auto; cbn; auto using i_par, i_freeing.
    + cbn. by rewrite Hsd.
    + cbn in Hg. rewrite lookup_insert_eq in Hg. injection Hg as <-.
      exists m', [OutputSend dat]. split; [done|]. split; [done|]. split; [by right|].
      intros q Hqp. rewrite Hti. by apply Htimes.
  - eexists _, _. split; [reflexivity|]. split.
    + apply queued_inv; auto. intros Hsn. rewrite Hsn in Eidle. by destruct (schedule_job m).
    + split; [|exact Htimes]. left. cbn. split; [done|]. split; [|split; [done|]].
      * apply elem_of_Tree_Insert. by left.
      * eexists. by rewrite lookup_insert_eq.
Qed.

(** ** A packet was sent *)

(** The flows after flow [p] was charged [amount], all times lowered by [c]. *)
Definition charged (fs : gmap Z PacketPassFairQueueFlow) (p amount c : Z)
    (fs' : gmap Z PacketPassFairQueueFlow) : Prop :=
  forall q, fs' !! q =
    (fun g => set_flow_time g (if q =? p then time g + amount - c
                               else Z.max 0 (time g - c))) <$> fs !! q.

Lemma increment_sent_flow_ok m p f amount :
  (forall q g, flows_list m !! q = Some g -> 0 <= time g <= FAIRQUEUE_MAX_TIME) ->
  (forall q, q ∈ queued_tree m <-> exists g, flows_list m !! q = Some g /\ is_queued g = true) ->
  tree_sorted (flows_list m) (queued_tree m) -> sending_flow m = None ->
  flows_list m !! p = Some f -> is_queued f = false -> 0 < amount <= FAIRQUEUE_MAX_TIME ->
  (forall q, q ∈ queued_tree m -> time f <= flow_time (flows_list m) q) ->
  exists c fs', increment_sent_flow m p amount = Ret (set_flows m fs') /\
    charged (flows_list m) p amount c fs' /\ 0 <= c /\
    0 <= time f + amount - c <= FAIRQUEUE_MAX_TIME /\
    (forall q, q ∈ queued_tree m -> c <= flow_time (flows_list m) q) /\
    (c <> 0 -> FAIRQUEUE_MAX_TIME < time f + amount).
Proof.
  intros Hr Ht Hs Hsn Hf Hq Ha Hmin. pose proof (Hr _ _ Hf) as Hfr.
  unfold increment_sent_flow, get_flow. rewrite Hf. cbn [of_option]. rewrite bind_Ret, Hq, Hsn.
  rewrite (proj2 (Z.leb_le amount FAIRQUEUE_MAX_TIME)) by lia. cbn [assert negb not_set]. rewrite !bind_Ret.
  unfold FAIRQUEUE_MAX_TIME in *.
  destruct (Z.ltb_spec (2 ^ 64 - 1 - time f) amount) as [Hov|Hok].
  - assert (exists c, (match Tree_GetFirst (queued_tree m) with
        | None => Ret (time f)
        | Some q => g ← of_option (flows_list m !! q); _ ← assert (is_queued g); Ret (time g) end) = Ret c /\
        time f <= c <= 2 ^ 64 - 1 /\
        (forall q, q ∈ queued_tree m -> c <= flow_time (flows_list m) q)) as (c & -> & Hc & Hcm).
    { destruct (queued_tree m) as [|q t] eqn:Eq; cbn.
      - exists (time f). repeat split; [lia..|]. intros q Hqn. by apply elem_of_nil in Hqn.
      - destruct (proj1 (Ht q)) as (g & Hg & Hgq); [by left|]. rewrite Hg. cbn. rewrite Hgq. exists (time g).
        split; [reflexivity|].
        pose proof (Hmin q ltac:(by left)). pose proof (Hr _ _ Hg).
        rewrite (flow_time_lookup _ _ _ Hg) in *.
        split; [lia|]. intros r. rewrite <- (flow_time_lookup _ _ _ Hg).
        by apply tree_sorted_head. }
    assert (Hms : may_subtract p c (flows_list m) = true).
    { apply forallb_forall. intros [q g] Hin. apply list_elem_of_In, elem_of_map_to_list in Hin. cbn.
      destruct (is_queued g) eqn:Eg; [|by rewrite andb_false_r]. rewrite andb_true_r.
      specialize (Hcm q (proj2 (Ht q) (ex_intro _ g (conj Hin Eg)))). rewrite (flow_time_lookup _ _ _ Hin) in Hcm.
      by rewrite (proj2 (Z.ltb_ge _ _) Hcm). }
    rewrite bind_Ret, Hms. cbn [assert].
    rewrite !bind_Ret. cbn [flows_list set_flows]. rewrite map_lookup_imap, Hf. cbn.
    eexists c, _. split; [reflexivity|]. split; [|split; [lia|split; [lia|split; [exact Hcm|lia]]]].
    intros q. destruct (Z.eqb_spec q p) as [->|Hqp].
    + rewrite lookup_insert_eq, Hf. unfold subtract_time.
      rewrite Z.eqb_refl, andb_false_r. cbn. f_equal. unfold set_flow_time; cbn. f_equal.
      unfold u64. rewrite Zplus_mod_idemp_l, Z.mod_small; lia.
    + rewrite lookup_insert_ne by done. rewrite map_lookup_imap.
      destruct (flows_list m !! q) as [g|] eqn:Eg; cbn; [|done]. f_equal.
      unfold subtract_time. rewrite (proj2 (Z.eqb_neq q p) Hqp). cbn. rewrite andb_true_r.
      pose proof (Hr _ _ Eg). destruct (Z.ltb_spec (time g) c).
      * f_equal. lia.
      * f_equal. rewrite u64_small; lia.
  - rewrite bind_Ret, Hf. cbn.
    eexists 0, _. split; [reflexivity|]. split; [|repeat split; try lia].
    + intros q. destruct (Z.eqb_spec q p) as [->|Hqp].
      * rewrite lookup_insert_eq, Hf. cbn. do 2 f_equal. rewrite u64_small; lia.
      * rewrite lookup_insert_ne by done. destruct (flows_list m !! q) as [g|] eqn:Eg; [|done].
        cbn. f_equal. pose proof (Hr _ _ Eg). destruct g; unfold set_flow_time; cbn in *.
        f_equal. lia.
    + intros q Hqn. specialize (Hmin q Hqn). lia.
Qed.

(** Charging a flow keeps the tree in order. *)
Lemma charged_sorted fs fs' p amount c t :
  charged fs p amount c fs' -> p ∉ t ->
  (forall q, q ∈ t -> exists g, fs !! q = Some g) ->
  (forall q, q ∈ t -> c <= flow_time fs q) -> tree_sorted fs t -> tree_sorted fs' t.
Proof.
  intros Hch Hp Hl Hc. apply tree_sorted_shift with (c := c).
  intros q Hq. destruct (Hl q Hq) as (g & Hg). specialize (Hc q Hq).
  unfold flow_time in *. rewrite Hch, Hg in *. cbn.
  destruct (Z.eqb_spec q p) as [->|]; [done|]. lia.
Qed.

(** The flows after the packet of [s] has been charged and its busy handler reset. *)
Definition sent_flows (fs : gmap Z PacketPassFairQueueFlow) (s : Z) (f : PacketPassFairQueueFlow) (amount c : Z)
    (fs2 : gmap Z PacketPassFairQueueFlow) : Prop :=
  forall q, fs2 !! q = if q =? s then Some (mkFlow false (time f + amount - c) (is_queued f) (data f))
    else (fun g => set_flow_time g (Z.max 0 (time g - c))) <$> fs !! q.
Lemma busy_cleared fs s f amount c fs' : charged fs s amount c fs' -> fs !! s = Some f ->
  sent_flows fs s f amount c
    (if handler_busy f then <[s := mkFlow false (time f + amount - c) (is_queued f) (data f)]> fs' else fs').
Proof.
  intros Hch Hf q. destruct (Z.eqb_spec q s) as [->|Hqs].
  - destruct (handler_busy f) eqn:Eh; [by rewrite lookup_insert_eq|].
    rewrite Hch, Hf, Z.eqb_refl. cbn. unfold set_flow_time. by rewrite Eh.
  - assert (Hq : fs' !! q = (fun g => set_flow_time g (Z.max 0 (time g - c))) <$> fs !! q).
    { rewrite Hch. by rewrite (proj2 (Z.eqb_neq q s) Hqs). }
    destruct (handler_busy f); [by rewrite lookup_insert_ne|done].
Qed.

Lemma output_handler_done_ok m s f :
  fq_inv m -> sending_flow m = Some s -> flows_list m !! s = Some f ->
  exists m' es, output_handler_done m = Ret (m', es) /\ fq_inv m' /\
    es = InputDone s :: (if handler_busy f then [HandlerBusy s] else []) /\
    sending_flow m' = None /\ schedule_job m' = true /\ queued_tree m' = queued_tree m /\
    previous_flow m' = Some s /\
    exists c, flow_time (flows_list m') s =
        time f + (packet_weight m + sending_len m) - c /\
      forall q, q ∈ queued_tree m ->
        flow_time (flows_list m') q = flow_time (flows_list m) q - c.
Proof.
  intros [Hp Hr Ht Hs Hsd Hpv Hfz] Es Hf. rewrite Es in Hsd.
  destruct Hsd as (f' & Hf' & Hq & Hmin & Hpn & Hj & Hl).
  rewrite Hf in Hf'. injection Hf' as <-.
  unfold output_handler_done. rewrite Es. cbn [of_option]. rewrite bind_Ret, Hpn, Hj, Hfz. cbn [assert negb not_set].
  assert (get_flow m s = Ret f) as -> by (unfold get_flow; by rewrite Hf).
  rewrite !bind_Ret, Hq. cbn [assert negb].
  rewrite !bind_Ret.
  set (m1 := set_previous (set_sending m None (sending_len m)) (Some s)).
  destruct (increment_sent_flow_ok m1 s f (packet_weight m1 + sending_len m1))
    as (c & fs' & -> & Hch & Hc0 & Hrange & Hcm & _); auto; cbn.
  { intros q g Hg. by apply (Hr _ _ Hg). }
  { lia. }
  change (charged (flows_list m) s (packet_weight m + sending_len m) c fs') in Hch.
  cbn in Hrange.
  unfold get_flow; cbn. rewrite Hch, Hf, Z.eqb_refl. cbn.
  assert (Hnt : s ∉ queued_tree m) by (rewrite Ht; intros (g & Hg & ?); congruence).
  set (fx := mkFlow false (time f + (packet_weight m + sending_len m) - c) (is_queued f) (data f)).
  set (fs2 := if handler_busy f then <[s := fx]> fs' else fs').
  assert (Hfs2 : sent_flows (flows_list m) s f (packet_weight m + sending_len m) c fs2) by (by apply busy_cleared).
  assert (Hshift : forall q, q ∈ queued_tree m ->
    flow_time fs2 q = flow_time (flows_list m) q - c).
  { intros q Hqt. assert (q <> s) as Hqs by (intros ->; done).
    destruct (proj1 (Ht q) Hqt) as (g & Hg & _). specialize (Hcm q Hqt).
    unfold flow_time in *. rewrite Hfs2, (proj2 (Z.eqb_neq q s) Hqs).
    cbn in Hcm. rewrite Hg in *. cbn. lia. }
  assert (Hsent : flow_time fs2 s = time f + (packet_weight m + sending_len m) - c).
  { unfold flow_time. by rewrite Hfs2, Z.eqb_refl. }
  assert (Hinv' : fq_inv (set_job (set_flows m1 fs2) true)).
  { split; cbn; auto; try done.
    - intros q g. rewrite Hfs2. destruct (Z.eqb_spec q s) as [->|Hqs].
      + intros E. injection E as <-. cbn. rewrite Hq. split; [lia|done].
      + destruct (flows_list m !! q) as [g'|] eqn:Eg; [|done]. cbn. intros E.
        injection E as <-. cbn. destruct (Hr _ _ Eg). split; [lia|done].
    - intros q. rewrite Ht, Hfs2. destruct (Z.eqb_spec q s) as [->|Hqs].
      + rewrite Hf. naive_solver.
      + destruct (flows_list m !! q) as [g'|]; cbn; naive_solver.
    - by apply tree_sorted_shift with (fs := flows_list m) (c := c).
    - eexists. rewrite Hfs2, Z.eqb_refl. split; [reflexivity|]. done. }
  unfold fs2 in *. destruct (handler_busy f);
    (eexists _, _; split; [reflexivity|]; split; [done|]; do 5 (split; [done|]); by exists c).
Qed.

(** ** Freeing a flow, setting the busy handler *)

Lemma Flow_Free_ok m p f :
  fq_inv m -> flows_list m !! p = Some f -> sending_flow m <> Some p ->
  exists m', Flow_Free m p = Ret m' /\ fq_inv m' /\
    flows_list m' = delete p (flows_list m) /\ sending_flow m' = sending_flow m /\
    (forall q, q ∈ queued_tree m' <-> q ∈ queued_tree m /\ q <> p) /\
    (forall q, q <> p -> previous_flow m = Some q -> previous_flow m' = Some q).
Proof.
  intros [Hp Hr Ht Hs Hsd Hpv Hfz] Hf Hns. unfold Flow_Free, get_flow. rewrite Hf.
  rewrite (bool_decide_eq_false_2 _ Hns), orb_true_r. cbn [assert of_option]. rewrite !bind_Ret.
  set (m1 := if bool_decide (previous_flow m = Some p) then set_previous m None else m).
  set (m2 := if is_queued f then _ else _).
  assert (Ht2 : forall q, q ∈ queued_tree m2 <-> q ∈ queued_tree m /\ q <> p).
  { intros q. unfold m2, m1. destruct (is_queued f) eqn:Ef; case_bool_decide; cbn;
      unfold Tree_Remove; rewrite ?list_elem_of_filter; try tauto;
      (split; [|tauto]; intros Hq; split; [done|intros ->];
       apply Ht in Hq as (g & Hg & ?); congruence). }
  assert (Hs2 : tree_sorted (flows_list m) (queued_tree m2)).
  { unfold m2, m1. destruct (is_queued f); case_bool_decide;
      solve [apply Tree_Remove_sorted; exact Hs | exact Hs]. }
  assert (E2 : m2 = mkQueue (mtu m) (packet_weight m) (sending_flow m) (sending_len m)
    (previous_flow m1) (queued_tree m2) (flows_list m) (freeing m) (schedule_job m)).
  { unfold m2, m1. destruct (is_queued f), m; case_bool_decide; done. }
  clearbody m2. remember (queued_tree m2) as t2 eqn:Et. clear Et. eexists; split; [reflexivity|].
  assert (Hpv1 : forall q, previous_flow m1 = Some q <-> previous_flow m = Some q /\ q <> p).
  { intros q. unfold m1. case_bool_decide; cbn; naive_solver. }
  clearbody m1. subst m2. cbn in *.
  split; [|split; [done|split; [done|split; [exact Ht2|naive_solver]]]].
  assert (Htm : forall q, q ∈ t2 ->
    flow_time (delete p (flows_list m)) q = flow_time (flows_list m) q).
  { intros q [_ Hq]%Ht2. unfold flow_time. by rewrite lookup_delete_ne. }
  split; cbn; auto.
  - intros q g [_ Hg]%lookup_delete_Some. eauto.
  - intros q. rewrite Ht2, Ht. setoid_rewrite lookup_delete_Some. naive_solver.
  - apply (tree_sorted_shift (flows_list m) _ _ 0); [|done]. intros q Hq. rewrite Htm; [lia|done].
  - destruct (sending_flow m) as [s|].
    + destruct Hsd as (g & Hg & Hq & Hmin & Hpn & Hrest). exists g.
      rewrite lookup_delete_ne by congruence. split; [done|]. split; [done|].
      split; [|split; [|done]].
      * intros q Hqt. rewrite Htm by done. apply Hmin. by apply Ht2.
      * destruct (previous_flow m1) as [q|]; [|done].
        destruct (proj1 (Hpv1 q) eq_refl). congruence.
    + intros Hj. specialize (Hsd Hj). destruct t2 as [|q t]; [done|].
      destruct (proj1 (Ht2 q)) as [Hq _]; [by left|]. rewrite Hsd in Hq. by apply elem_of_nil in Hq.
  - destruct (previous_flow m1) as [q|]; [|done].
    destruct (proj1 (Hpv1 q) eq_refl) as [Eq Hqp]. rewrite Eq in Hpv.
    destruct Hpv as (g & Hg & ?). exists g. by rewrite lookup_delete_ne.
Qed.

Lemma Flow_SetBusyHandler_ok m p h :
  fq_inv m -> sending_flow m = Some p ->
  exists m', Flow_SetBusyHandler m p h = Ret m' /\ fq_inv m' /\
    sending_flow m' = Some p /\ queued_tree m' = queued_tree m /\
    previous_flow m' = previous_flow m /\
    (forall q, data <$> flows_list m' !! q = data <$> flows_list m !! q) /\
    forall q, flow_time (flows_list m') q = flow_time (flows_list m) q.
Proof.
  intros [Hp Hr Ht Hs Hsd Hpv Hfz] Es. rewrite Es in Hsd.
  destruct Hsd as (f & Hf & Hq & Hmin & Hpn & Hrest).
  unfold Flow_SetBusyHandler, get_flow. rewrite Hf, Es, Hfz, bool_decide_eq_true_2 by done. cbn.
  set (fs' := <[p := _]> (flows_list m)).
  assert (Hl : forall q, fs' !! q = Some (mkFlow h (time f) (is_queued f) (data f)) /\ q = p \/
      fs' !! q = flows_list m !! q /\ q <> p).
  { intros q. unfold fs'. destruct (decide (q = p)) as [->|].
    - left. by rewrite lookup_insert_eq.
    - right. by rewrite lookup_insert_ne. }
  assert (Htm : forall q, flow_time fs' q = flow_time (flows_list m) q).
  { intros q. unfold flow_time. destruct (Hl q) as [[-> ->]|[-> _]]; [by rewrite Hf|done]. }
  eexists; split; [reflexivity|]. split; [|cbn; repeat split; auto].
  - split; cbn; auto.
    + intros q g. destruct (Hl q) as [[-> ->]|[-> _]]; [|apply Hr].
      intros E; injection E as <-. cbn. by apply (Hr _ _ Hf).
    + intros q. rewrite Ht. destruct (Hl q) as [[-> ->]|[-> _]]; [|done]. rewrite Hf. naive_solver.
    + apply (tree_sorted_shift (flows_list m) _ _ 0); [|done]. intros q Hqt. rewrite Htm. lia.
    + rewrite Es. destruct (Hl p) as [[E _]|[_ ?]]; [|done]. eexists. split; [exact E|].
      split; [done|]. split; [|done]. intros q Hqt. rewrite Htm. auto.
    + by rewrite Hpn.
  - intros q. destruct (Hl q) as [[-> ->]|[-> _]]; [by rewrite Hf|done].
Qed.

(** ** Sequences of events *)

(** What the users of the queue, its output and the pending group call. *)
Inductive event :=
| EInit (p : Z)                     (* PacketPassFairQueueFlow_Init *)
| ESend (p : Z) (dat : list Z)      (* the flow's input receives a packet *)
| EDone                             (* the output finished the packet *)
| EJob                              (* the schedule job runs *)
| EFree (p : Z)                     (* PacketPassFairQueueFlow_Free *)
| EBusy (p : Z) (h : bool).         (* PacketPassFairQueueFlow_SetBusyHandler *)

#[export] Instance event_eq_dec : EqDecision event.
Proof. solve_decision. Defined.

Definition do_event (m : PacketPassFairQueue) (e : event) :
    cres (PacketPassFairQueue * list effect) :=
  match e with
  | EInit p => m' ← Flow_Init m p; Ret (m', [])
  | ESend p dat => input_handler_send m p dat
  | EDone => output_handler_done m
  | EJob => schedule_job_handler m
  | EFree p => m' ← Flow_Free m p; Ret (m', [])
  | EBusy p h => m' ← Flow_SetBusyHandler m p h; Ret (m', [])
  end.

(** When each may happen: a flow sends only after its last packet was taken,
    the output reports only what it was given, the job runs when it is set, a
    flow is not freed while its packet is with the output. *)
Definition enabled (m : PacketPassFairQueue) (e : event) : Prop :=
  match e with
  | EInit p => flows_list m !! p = None
  | ESend p dat => (exists f, flows_list m !! p = Some f /\ is_queued f = false) /\
      sending_flow m <> Some p /\ Z.of_nat (length dat) <= mtu m
  | EDone => exists s, sending_flow m = Some s
  | EJob => schedule_job m = true
  | EFree p => (exists f, flows_list m !! p = Some f) /\ sending_flow m <> Some p
  | EBusy p _ => sending_flow m = Some p
  end.

Lemma sending_lookup m s :
  fq_inv m -> sending_flow m = Some s ->
  exists f, flows_list m !! s = Some f /\ is_queued f = false /\
    previous_flow m = None /\ schedule_job m = false /\ 0 <= sending_len m <= mtu m /\
    forall q, q ∈ queued_tree m -> time f <= flow_time (flows_list m) q.
Proof.
  intros Hinv Es. pose proof (i_sending _ Hinv) as H. rewrite Es in H. naive_solver.
Qed.

Lemma job_idle m : fq_inv m -> schedule_job m = true -> sending_flow m = None.
Proof.
  intros Hinv Hj. destruct (sending_flow m) as [s|] eqn:Es; [|done].
  destruct (sending_lookup _ _ Hinv Es) as (? & _ & _ & _ & ? & _). congruence.
Qed.

(** No enabled event reaches an assertion failure or an invalid access. *)
Lemma do_event_ok m e :
  fq_inv m -> enabled m e ->
  exists m' es, do_event m e = Ret (m', es) /\ fq_inv m'.
Proof.
  intros Hinv. destruct e as [p|p dat| | |p|p h]; cbn [enabled do_event].
  - intros Hn. destruct (inv_Flow_Init _ _ Hinv Hn) as (m' & -> & ? & _). cbn. eauto.
  - intros ((f & Hf & Hq) & Hs & Hl).
    destruct (input_handler_send_ok _ _ _ _ Hinv Hf Hq Hs Hl) as (m' & es & -> & ? & _). eauto.
  - intros (s & Hs). destruct (sending_lookup _ _ Hinv Hs) as (f & Hf & _).
    destruct (output_handler_done_ok _ _ _ Hinv Hs Hf) as (m' & es & -> & ? & _). eauto.
  - intros Hj. destruct (schedule_job_handler_ok _ Hinv Hj (job_idle _ Hinv Hj))
      as (m' & es & -> & ? & _). eauto.
  - intros ((f & Hf) & Hs). destruct (Flow_Free_ok _ _ _ Hinv Hf Hs) as (m' & -> & ? & _).
    cbn. eauto.
  - intros Hs. destruct (Flow_SetBusyHandler_ok _ _ h Hinv Hs) as (m' & -> & ? & _).
    cbn. eauto.
Qed.

(** ** Packets are neither lost nor duplicated *)



(** The packets of flow [p] among the effects of a step that ends in [m]. *)
Definition sent (p : Z) (m : PacketPassFairQueue) (es : list effect) : list (list Z) :=
  concat (map (fun x => match x with
    | OutputSend d => if bool_decide (sending_flow m = Some p) then [d] else []
    | _ => []
    end) es).






(** A run, with every packet given to the queue and every packet it gave to
    its output, with its flow. *)
Inductive run : PacketPassFairQueue -> list event -> PacketPassFairQueue ->
    (Z -> list (list Z)) -> Prop :=
| run_nil m : run m [] m (fun _ => [])
| run_cons m e m1 es evs m' out :
    enabled m e -> do_event m e = Ret (m1, es) -> run m1 evs m' out ->
    run m (e :: evs) m' (fun p => sent p m1 es ++ out p).

Lemma fq_run_inv m evs m' out : fq_inv m -> run m evs m' out -> fq_inv m'.
Proof.
  intros Hinv Hrun. induction Hrun as [|m e m1 es evs m' out He E _ IH]; [done|].
  destruct (do_event_ok _ _ Hinv He) as (m2 & es2 & E2 & ?). rewrite E in E2.
  injection E2 as <- <-. auto.
Qed.


(** ** Fairness *)

(** A flow is backlogged while it waits in the tree, its packet is with the
    output, or it was just sent and may submit its next packet before the job. *)
Definition backlogged (m : PacketPassFairQueue) (p : Z) : Prop :=
  p ∈ queued_tree m \/ sending_flow m = Some p \/ previous_flow m = Some p.

(** The weight a step charges to flow [p]. *)
Definition service (m : PacketPassFairQueue) (p : Z) (e : event) : Z :=
  match e with
  | EDone => if bool_decide (sending_flow m = Some p) then packet_weight m + sending_len m else 0
  | _ => 0
  end.

Definition largest (m : PacketPassFairQueue) : Z := packet_weight m + mtu m.

Definition lead (m : PacketPassFairQueue) (f g : Z) : Z :=
  flow_time (flows_list m) f - flow_time (flows_list m) g.

Lemma do_event_params m e m' es :
  do_event m e = Ret (m', es) -> packet_weight m' = packet_weight m /\ mtu m' = mtu m.
Proof.
  assert (Hsch : forall a b c, schedule a = Ret (b, c) ->
    packet_weight b = packet_weight a /\ mtu b = mtu a).
  { intros a b c. unfold schedule. do 4 skip_bind. destruct (Tree_GetFirst _); [|done].
    do 2 skip_bind. intros E. by injection E as <- <-. }
  destruct e as [q|q dat| | |q|q h]; cbn [do_event].
  - intros (m1 & E & E')%bind_Ret_inv. injection E' as <- <-. revert E.
    unfold Flow_Init. skip_bind. intros E; by injection E as <-.
  - unfold input_handler_send. do 4 skip_bind. intros ([m1 f1] & E1 & E)%bind_Ret_inv.
    assert (packet_weight m1 = packet_weight m /\ mtu m1 = mtu m) as [<- <-].
    { case_bool_decide; [by injection E1 as <- <-|].
      apply bind_Ret_inv in E1 as (? & _ & E1). by injection E1 as <- <-. }
    revert E. skip_bind. destruct (_ && _); [by intros E%Hsch|]. intros E; by injection E as <- <-.
  - unfold output_handler_done. do 6 skip_bind.
    intros (m1 & E1 & (f & _ & E)%bind_Ret_inv)%bind_Ret_inv.
    assert (packet_weight m1 = packet_weight m /\ mtu m1 = mtu m) as [<- <-].
    { revert E1. unfold increment_sent_flow. do 4 skip_bind.
      intros (m2 & E1 & (f2 & _ & E2)%bind_Ret_inv)%bind_Ret_inv. injection E2 as <-. cbn.
      destruct (_ <? _); [|by injection E1 as <-].
      do 2 apply bind_Ret_inv in E1 as (? & _ & E1). by injection E1 as <-. }
    destruct (handler_busy f); by injection E as <- <-.
  - unfold schedule_job_handler. do 2 skip_bind. destruct (Tree_IsEmpty _).
    + intros E; by injection E as <- <-.
    + intros E%Hsch. done.
  - intros (m1 & E & E')%bind_Ret_inv. injection E' as <- <-. revert E.
    unfold Flow_Free. do 2 skip_bind. intros E; injection E as <-.
    cbn. repeat case_bool_decide; destruct (is_queued _); done.
  - intros (m1 & E & E')%bind_Ret_inv. injection E' as <- <-. revert E.
    unfold Flow_SetBusyHandler. do 3 skip_bind. intros E; by injection E as <-.
Qed.

(** A step that is not a completed packet leaves the times of flows that are
    backlogged before and after it alone. *)
Lemma do_event_time m e m' es p :
  fq_inv m -> enabled m e -> do_event m e = Ret (m', es) -> e <> EDone ->
  backlogged m p -> backlogged m' p ->
  flow_time (flows_list m') p = flow_time (flows_list m) p.
Proof.
  intros Hinv He E Hnd Hb Hb'. destruct e as [q|q dat| | |q|q h]; cbn [do_event] in E.
  - apply bind_Ret_inv in E as (m1 & E & E'). injection E' as <- <-.
    unfold Flow_Init in E. apply bind_Ret_inv in E as (_ & _ & E). injection E as <-. cbn in *.
    destruct (decide (q = p)) as [->|]; [|by apply flow_time_insert_ne]. exfalso.
    destruct Hb as [Hb|[Hb|Hb]].
    + apply (i_tree _ Hinv) in Hb as (? & ? & _). congruence.
    + destruct (sending_lookup _ _ Hinv Hb) as (? & ? & _). congruence.
    + pose proof (i_prev _ Hinv) as Hx. rewrite Hb in Hx. destruct Hx as (? & ? & _). congruence.
  - destruct He as ((f & Hf & Hq) & Hs & Hl).
    destruct (input_handler_send_ok _ _ _ _ Hinv Hf Hq Hs Hl) as (m1 & es1 & E1 & _ & _ & Ht).
    rewrite E in E1. injection E1 as <- <-. apply Ht.
    destruct (decide (p = q)) as [->|]; [right|by left].
    destruct Hb as [Hb|[Hb|Hb]]; [|done|done].
    apply (i_tree _ Hinv) in Hb as (? & ? & ?). congruence.
  - done.
  - destruct (schedule_job_handler_ok _ Hinv He (job_idle _ Hinv He))
      as (m1 & es1 & E1 & _ & _ & _ & Ht). rewrite E in E1. by injection E1 as <- <-.
  - apply bind_Ret_inv in E as (m1 & E & E'). injection E' as <- <-.
    destruct He as ((f & Hf) & Hs).
    destruct (Flow_Free_ok _ _ _ Hinv Hf Hs) as (m2 & E2 & Hinv2 & Hfs & Hsd & Htr & _).
    rewrite E in E2. injection E2 as <-. rewrite Hfs. unfold flow_time.
    destruct (decide (q = p)) as [->|]; [|by rewrite lookup_delete_ne]. exfalso.
    destruct Hb' as [Hb'|[Hb'|Hb']].
    + apply Htr in Hb'. naive_solver.
    + congruence.
    + pose proof (i_prev _ Hinv2) as Hx. rewrite Hb' in Hx. destruct Hx as (? & Hx & _).
      by rewrite Hfs, lookup_delete_eq in Hx.
  - apply bind_Ret_inv in E as (m1 & E & E'). injection E' as <- <-.
    destruct (Flow_SetBusyHandler_ok _ _ h Hinv He) as (m2 & E2 & _ & _ & _ & _ & _ & Ht).
    rewrite E in E2. by injection E2 as <-.
Qed.

(** One step moves the lead of [f] over [g] by the service they get, and only
    a flow that is not ahead is served. *)
Lemma do_event_lead m e m' es f g :
  fq_inv m -> enabled m e -> do_event m e = Ret (m', es) -> f <> g ->
  backlogged m f -> backlogged m g -> backlogged m' f -> backlogged m' g ->
  lead m' f g = lead m f g + service m f e - service m g e /\
  lead m' f g <= Z.max (lead m f g) (largest m).
Proof.
  intros Hinv He E Hfg Hf Hg Hf' Hg'.
  destruct (decide (e = EDone)) as [->|Hnd].
  2: { unfold lead. rewrite !(do_event_time _ _ _ _ _ Hinv He E Hnd) by done.
       destruct e; cbn; [lia..|done|lia|lia|lia]. }
  cbn in E. destruct He as (s & Es). unfold service. rewrite Es.
  destruct (sending_lookup _ _ Hinv Es) as (fl & Hfl & Hq & Hpn & Hj & Hlen & Hmin).
  destruct (output_handler_done_ok _ _ _ Hinv Es Hfl)
    as (m1 & es1 & E1 & _ & _ & _ & _ & _ & _ & c & Hts & Htq).
  rewrite E in E1. injection E1 as <- <-.
  assert (Hcase : forall p, backlogged m p -> p = s \/ p <> s /\ p ∈ queued_tree m).
  { intros p. unfold backlogged. rewrite Es, Hpn.
    intros [Hp|[Hp|Hp]]; [|left; congruence|done]. destruct (decide (p = s)); auto. }
  pose proof (i_par _ Hinv). unfold lead, largest.
  rewrite <- (flow_time_lookup _ _ _ Hfl) in *.
  destruct (Hcase f Hf) as [->|[Hfs Hft]], (Hcase g Hg) as [->|[Hgs Hgt]]; [done|..].
  - rewrite Hts, Htq by done. pose proof (Hmin g Hgt).
    rewrite bool_decide_eq_true_2, bool_decide_eq_false_2 by congruence. lia.
  - rewrite Hts, Htq by done. pose proof (Hmin f Hft).
    rewrite bool_decide_eq_false_2, bool_decide_eq_true_2 by congruence. lia.
  - rewrite !Htq by done. rewrite !bool_decide_eq_false_2 by congruence. lia.
Qed.

(** A stretch of events during which [f] and [g] both stay backlogged, with
    the service each got. *)
Inductive contended (f g : Z) : PacketPassFairQueue -> list event -> PacketPassFairQueue ->
    Z -> Z -> Prop :=
| contended_nil m : backlogged m f -> backlogged m g -> contended f g m [] m 0 0
| contended_cons m e m1 es evs m' sf sg :
    backlogged m f -> backlogged m g -> enabled m e -> do_event m e = Ret (m1, es) ->
    contended f g m1 evs m' sf sg ->
    contended f g m (e :: evs) m' (service m f e + sf) (service m g e + sg).

Lemma contended_start f g m evs m' sf sg :
  contended f g m evs m' sf sg -> backlogged m f /\ backlogged m g.
Proof. by destruct 1. Qed.

Lemma contended_lead f g m evs m' sf sg :
  fq_inv m -> f <> g -> contended f g m evs m' sf sg ->
  lead m' f g = lead m f g + sf - sg /\ lead m' f g <= Z.max (lead m f g) (largest m).
Proof.
  intros Hinv Hfg Hc. induction Hc as [m|m e m1 es evs m' sf sg Hf Hg He E Hc IH]; [lia|].
  destruct (do_event_ok _ _ Hinv He) as (m2 & es2 & E2 & Hinv1). rewrite E in E2.
  injection E2 as <- <-. destruct (contended_start _ _ _ _ _ _ _ Hc) as [Hf1 Hg1].
  destruct (do_event_lead _ _ _ _ _ _ Hinv He E Hfg Hf Hg Hf1 Hg1) as [H1 H2].
  destruct (IH Hinv1) as [H3 H4]. destruct (do_event_params _ _ _ _ E) as [Hw Hm].
  unfold largest in *. rewrite Hw, Hm in *. lia.
Qed.

(** ** Executing the relations *)

Definition enabledb (m : PacketPassFairQueue) (e : event) : bool :=
  match e with
  | EInit p => bool_decide (flows_list m !! p = None)
  | ESend p dat =>
      match flows_list m !! p with Some f => negb (is_queued f) | None => false end &&
      bool_decide (sending_flow m <> Some p) && (Z.of_nat (length dat) <=? mtu m)
  | EDone => bool_decide (is_Some (sending_flow m))
  | EJob => schedule_job m
  | EFree p => bool_decide (is_Some (flows_list m !! p)) && bool_decide (sending_flow m <> Some p)
  | EBusy p _ => bool_decide (sending_flow m = Some p)
  end.

#[export] Instance PacketPassFairQueueFlow_eq_dec : EqDecision PacketPassFairQueueFlow.
Proof. solve_decision. Defined.

Lemma enabledb_enabled m e : enabledb m e = true -> enabled m e.
Proof.
  destruct e as [p|p dat| | |p|p h]; cbn; rewrite ?andb_true_iff, ?bool_decide_eq_true; try done.
  - intros [[H1 H2] H3%Z.leb_le]. split; [|done].
    destruct (flows_list m !! p) as [f|]; [|done]. exists f. by destruct (is_queued f).
Qed.

Fixpoint exec (m : PacketPassFairQueue) (evs : list event) :
    option (PacketPassFairQueue * (Z -> list (list Z))) :=
  match evs with
  | [] => Some (m, fun _ => [])
  | e :: evs =>
      if enabledb m e then
        match do_event m e with
        | Ret (m1, es) =>
            match exec m1 evs with
            | Some (m', out) => Some (m', fun p => sent p m1 es ++ out p)
            | None => None
            end
        | _ => None
        end
      else None
  end.

Lemma exec_run evs m m' out : exec m evs = Some (m', out) -> run m evs m' out.
Proof.
  revert m out. induction evs as [|e evs IH]; intros m out; cbn.
  - intros E; injection E as <- <-. constructor.
  - destruct (enabledb m e) eqn:He; [|done]. destruct (do_event m e) as [[m1 es]| |] eqn:E; try done.
    destruct (exec m1 evs) as [[m2 out2]|] eqn:E2; [|done]. intros Ex; injection Ex as <- <-.
    econstructor; eauto using enabledb_enabled.
Qed.

#[export] Instance backlogged_dec m p : Decision (backlogged m p).
Proof. unfold backlogged. apply _. Defined.

Fixpoint exec_contended (f g : Z) (m : PacketPassFairQueue) (evs : list event) :
    option (PacketPassFairQueue * Z * Z) :=
  if bool_decide (backlogged m f) && bool_decide (backlogged m g) then
    match evs with
    | [] => Some (m, 0, 0)
    | e :: evs =>
        if enabledb m e then
          match do_event m e with
          | Ret (m1, es) =>
              match exec_contended f g m1 evs with
              | Some (m', sf, sg) => Some (m', service m f e + sf, service m g e + sg)
              | None => None
              end
          | _ => None
          end
        else None
    end
  else None.

Lemma exec_contended_ok f g evs m m' sf sg :
  exec_contended f g m evs = Some (m', sf, sg) -> contended f g m evs m' sf sg.
Proof.
  revert m sf sg. induction evs as [|e evs IH]; intros m sf sg; cbn;
    (destruct (_ && _) eqn:Hb; [|done]);
    apply andb_true_iff in Hb as [Hf%bool_decide_eq_true Hg%bool_decide_eq_true].
  - intros E; injection E as <- <- <-. by constructor.
  - destruct (enabledb m e) eqn:He; [|done]. destruct (do_event m e) as [[m1 es]| |] eqn:E; try done.
    destruct (exec_contended f g m1 evs) as [[[m2 a] b]|] eqn:E2; [|done].
    intros Ex; injection Ex as <- <- <-.
    econstructor; eauto using enabledb_enabled.
Qed.

(** ** The theorems *)

Lemma Init_params mtu_ weight_ m0 :
  PacketPassFairQueue_Init mtu_ weight_ = Some m0 ->
  packet_weight m0 = weight_ /\ mtu m0 = mtu_ /\ flows_list m0 = ∅.
Proof.
  unfold PacketPassFairQueue_Init. destruct (_ && _); [|done]. intros E; by injection E as <-.
Qed.

Lemma run_params m evs m' out :
  run m evs m' out -> packet_weight m' = packet_weight m /\ mtu m' = mtu m.
Proof.
  induction 1 as [|m e m1 es evs m' out He E _ [IH1 IH2]]; [done|].
  destruct (do_event_params _ _ _ _ E). by rewrite IH1, IH2.
Qed.

Section Reachable.
Context (mtu_ weight_ : Z) (m0 m : PacketPassFairQueue) (evs : list event)
        (out : Z -> list (list Z)).
Context (Hmtu : 0 <= mtu_) (Hw : 0 < weight_).
Context (H0 : PacketPassFairQueue_Init mtu_ weight_ = Some m0) (Hrun : run m0 evs m out).

Lemma reachable_inv : fq_inv m.
Proof. eapply fq_run_inv; [|exact Hrun]. by eapply inv_Init. Qed.

Lemma reachable_params : packet_weight m = weight_ /\ mtu m = mtu_.
Proof using H0 Hrun.
  destruct (Init_params _ _ _ H0) as (E1 & E2 & _). rewrite <- E1, <- E2.
  exact (run_params _ _ _ _ Hrun).
Qed.


(** When the schedule job runs, the output gets the packet of a waiting
    flow whose virtual time is the smallest of all waiting flows, and no time
    changes; when no flow waits, the queue becomes idle. *)
Theorem fair_queue_smallest_first :
  schedule_job m = true ->
  exists m' es, schedule_job_handler m = Ret (m', es) /\
    (queued_tree m = [] /\ es = [] /\ sending_flow m' = None \/
     exists q f, q ∈ queued_tree m /\ flows_list m !! q = Some f /\
       es = [OutputSend (data f)] /\ sending_flow m' = Some q /\
       forall p, p ∈ queued_tree m -> time f <= flow_time (flows_list m) p) /\
    forall p, flow_time (flows_list m') p = flow_time (flows_list m) p.
Proof using Hmtu Hw H0 Hrun.
  pose proof reachable_inv as Hinv. intros Hj.
  destruct (schedule_job_handler_ok _ Hinv Hj (job_idle _ Hinv Hj))
    as (m' & es & E & _ & Hcase & _ & Ht).
  exists m', es. split; [done|]. split; [|done].
  destruct (queued_tree m) as [|q t]; [left; tauto|].
  right. destruct Hcase as (f & ? & ? & ? & ?). exists q, f. set_solver.
Qed.

(** C26: while two flows stay backlogged, their virtual times differ by the
    service they got, and the one served more can be ahead by at most one
    packet of the largest weight (or by what it was ahead at the start). *)
Theorem fair_queue_fairness f g evs' m' sf sg :
  f <> g -> contended f g m evs' m' sf sg ->
  sf - sg = lead m' f g - lead m f g /\
  lead m' f g <= Z.max (lead m f g) (weight_ + mtu_) /\
  sf - sg <= Z.max 0 (weight_ + mtu_ - lead m f g).
Proof using Hmtu Hw H0 Hrun.
  pose proof reachable_inv as Hinv. intros Hfg Hc.
  destruct (contended_lead _ _ _ _ _ _ _ Hinv Hfg Hc) as [H1 H2].
  destruct reachable_params as [E1 E2]. unfold largest in H2. rewrite E1, E2 in H2. lia.
Qed.

(** C34: when a packet is done, its flow is charged its weight (in the state in
    which [output_handler_done] calls [increment_sent_flow]); when the 64-bit
    time would overflow, one amount is first taken off all flows, never more
    than a waiting flow has, so the differences between the waiting flows and
    the charged flow are exact and every time stays within 64 bits. *)
Theorem fair_queue_no_overflow s f :
  sending_flow m = Some s -> flows_list m !! s = Some f ->
  let amount := packet_weight m + sending_len m in
  exists c m', increment_sent_flow (set_previous (set_sending m None (sending_len m)) (Some s)) s amount =
      Ret m' /\
    0 <= c /\ (c <> 0 -> 2 ^ 64 <= time f + amount) /\
    flow_time (flows_list m') s = time f + amount - c /\
    (forall q, q ∈ queued_tree m ->
       flow_time (flows_list m') q = flow_time (flows_list m) q - c) /\
    (forall q, 0 <= flow_time (flows_list m') q < 2 ^ 64).
Proof using Hmtu Hw H0 Hrun.
  pose proof reachable_inv as Hinv. intros Hs Hf amount.
  destruct (sending_lookup _ _ Hinv Hs) as (f' & Hf' & Hq & _ & _ & Hlen & Hmin).
  rewrite Hf in Hf'. injection Hf' as <-.
  pose proof (i_par _ Hinv) as Hpar. pose proof (i_range _ Hinv) as Hr.
  set (m1 := set_previous _ _).
  destruct (increment_sent_flow_ok m1 s f amount) as (c & fs' & E & Hch & H1 & H2 & H3 & H4); auto.
  { intros q g Hg. by apply (Hr _ _ Hg). }
  { apply Hinv. }
  { apply Hinv. }
  { subst amount. lia. }
  change (charged (flows_list m) s amount c fs') in Hch.
  change (forall q, q ∈ queued_tree m -> c <= flow_time (flows_list m) q) in H3.
  exists c, (set_flows m1 fs'). unfold FAIRQUEUE_MAX_TIME in *. cbn.
  split; [done|]. split; [done|]. split; [intros Hc0; specialize (H4 Hc0); lia|].
  assert (Hl : forall q, flow_time fs' q = match flows_list m !! q with
      | Some g => if q =? s then time g + amount - c else Z.max 0 (time g - c) | None => 0 end).
  { intros q. unfold flow_time. rewrite Hch. by destruct (flows_list m !! q). }
  split; [by rewrite Hl, Hf, Z.eqb_refl|]. split.
  - intros q Hqt. specialize (H3 q Hqt). rewrite Hl. unfold flow_time in *.
    apply (i_tree _ Hinv) in Hqt as (g & Hg & Hgq). rewrite Hg in *.
    destruct (Z.eqb_spec q s) as [->|]; [congruence|lia].
  - intros q. rewrite Hl. destruct (flows_list m !! q) as [g|] eqn:Hg; [|lia].
    destruct (Hr _ _ Hg). destruct (Z.eqb_spec q s) as [->|]; [|lia].
    rewrite Hf in Hg. injection Hg as <-. lia.
Qed.

End Reachable.

(** ** Witnesses *)

Definition demo0 : PacketPassFairQueue := mkQueue 10 1 None 0 None [] ∅ false false.

(** Two flows submit packets of 3 and 2 bytes; the first goes out. *)
Definition demo_events : list event :=
  [EInit 100; EInit 200; ESend 100 [1; 2; 3]; ESend 200 [4; 5]].

Definition demo_state (evs : list event) : PacketPassFairQueue * (Z -> list (list Z)) :=
  default (demo0, fun _ => []) (exec demo0 evs).

Lemma demo_run evs :
  match exec demo0 evs with Some _ => True | None => False end ->
  run demo0 evs (demo_state evs).1 (demo_state evs).2.
Proof.
  unfold demo_state. destruct (exec demo0 evs) as [[m out]|] eqn:E; [|done].
  intros _. by apply exec_run.
Qed.


Definition demo_done : list event := demo_events ++ [EDone; ESend 100 [6]].

Lemma fair_queue_smallest_first_witness :
  exists m' es, schedule_job_handler (demo_state demo_done).1 = Ret (m', es) /\
    es = [OutputSend [4; 5]] /\ sending_flow m' = Some 200.
Proof.
  destruct (fair_queue_smallest_first 10 1 demo0 (demo_state demo_done).1 demo_done
    (demo_state demo_done).2 ltac:(lia) ltac:(lia) eq_refl
    (demo_run demo_done ltac:(by vm_compute)) ltac:(by vm_compute)) as (m' & es & E & _ & _).
  exists m', es. split; [exact E|]. vm_compute in E. injection E as <- <-. done.
Defined.

Lemma fair_queue_fairness_witness :
  exists m', exec_contended 100 200 (demo_state demo_events).1
      [EDone; ESend 100 [6]; EJob; EDone; ESend 200 [7]; EJob; EDone] = Some (m', 4, 5) /\
    4 - 5 <= Z.max 0 (1 + 10 - lead (demo_state demo_events).1 100 200).
Proof.
  destruct (exec_contended 100 200 (demo_state demo_events).1
      [EDone; ESend 100 [6]; EJob; EDone; ESend 200 [7]; EJob; EDone]) as [[[m' sf] sg]|] eqn:E;
    [|by vm_compute in E].
  pose proof (exec_contended_ok _ _ _ _ _ _ _ E) as Hc.
  destruct (fair_queue_fairness 10 1 demo0 (demo_state demo_events).1 demo_events
    (demo_state demo_events).2 ltac:(lia) ltac:(lia) eq_refl
    (demo_run demo_events ltac:(by vm_compute)) 100 200 _ _ _ _ ltac:(lia) Hc) as (_ & _ & H).
  exists m'. vm_compute in E. injection E as <- <- <-. split; [done|exact H].
Defined.

Lemma fair_queue_no_overflow_witness :
  let m := (demo_state demo_events).1 in
  exists c m', increment_sent_flow (set_previous (set_sending m None (sending_len m)) (Some 100)) 100 4 =
      Ret m' /\
    flow_time (flows_list m') 100 = 4 - c.
Proof.
  destruct (flows_list (demo_state demo_events).1 !! 100) as [f|] eqn:Hf; [|by vm_compute in Hf].
  destruct (fair_queue_no_overflow 10 1 demo0 (demo_state demo_events).1 demo_events
    (demo_state demo_events).2 ltac:(lia) ltac:(lia) eq_refl
    (demo_run demo_events ltac:(by vm_compute)) 100 f ltac:(by vm_compute) Hf)
    as (c & m' & E & _ & _ & Ht & _).
  exists c, m'. vm_compute in Hf. injection Hf as <-. split; [exact E|exact Ht].
Defined.

(** The overflow branch itself: with 64-bit times near the end of their range
    the waiting flow's time is taken off everybody. *)
Example overflow_branch :
  let fl t q := mkFlow false t q [] in
  let m := mkQueue 10 1 None 9 (Some 1) [2]
    (<[1 := fl (2 ^ 64 - 5) false]> (<[2 := fl (2 ^ 64 - 3) true]> (<[3 := fl 7 false]> ∅)))
    false false in
  match increment_sent_flow m 1 10 with
  | Ret m' => map (flow_time (flows_list m')) [1; 2; 3] = [8; 0; 0]
  | _ => False
  end.
Proof. by vm_compute. Qed.

(** Times are kept while the queue is idle and a new flow starts at zero, so
    the initial lead in [fair_queue_fairness] is needed: flow 100 sends 20
    bytes alone, the queue drains, and then flow 200 is served first. *)
Example idle_lead :
  let evs := [EInit 100; EInit 200;
      ESend 100 (repeat 0 10); EDone; EJob; ESend 100 (repeat 0 10); EDone; EJob;
      ESend 200 [1]; ESend 100 [1]] in
  match exec demo0 evs with
  | Some (m, _) => lead m 100 200 = 22
  | None => False
  end.
Proof. by vm_compute. Qed.

End PacketPassFairQueue.
