(* ===== verification/DnsName.v ===== *)
(** * pdnsd/src/helpers.h, helpers.c: domain names

    A domain name is kept in the transport format: for every label its length
    and its bytes, then a zero. This file models the functions that measure,
    compare, validate and convert such names, and gives the format its
    specification: the list of the labels. *)
From S2P Require Import Prelude.
Local Open Scope Z_scope.

(** dns.h *)
Definition DNSNAMEBUFSIZE : Z := 256.

Definition DOT : Z := 46.
Definition BACKSLASH : Z := 92.
Definition QUOTE : Z := 34.

(** [isgraph] and [tolower] of <ctype.h> in the C locale. *)
Definition isgraph (c : Z) : bool := (33 <=? c) && (c <=? 126).
Definition tolower (c : Z) : Z := if (65 <=? c) && (c <=? 90) then c + 32 else c.

(** ** The functions *)

(** [while((lb=rhn[i++])) i+=lb; return i;] *)
Fixpoint rhnlen_loop (fuel : nat) (rhn : list Z) (i : Z) : cres Z :=
  match fuel with
  | O => OutOfFuel
  | S fuel =>
      lb ← of_option (get rhn i);
      if lb =? 0 then Ret (i + 1) else rhnlen_loop fuel rhn (i + 1 + lb)
  end.
Definition rhnlen (rhn : list Z) : cres Z := rhnlen_loop (S (length rhn)) rhn 0.

(** The pointer is an offset into the object that holds the name. *)
Fixpoint skipsegs (nm : list Z) (pos : Z) (k : nat) : cres Z :=
  match k with
  | O => Ret pos
  | S k =>
      lb ← of_option (get nm pos);
      if lb =? 0 then Ret pos else skipsegs nm (pos + (lb + 1)) k
  end.

Fixpoint skiprhn_loop (fuel : nat) (rhn : list Z) (pos : Z) : cres Z :=
  match fuel with
  | O => OutOfFuel
  | S fuel =>
      lb ← of_option (get rhn pos);
      if lb =? 0 then Ret (pos + 1) else skiprhn_loop fuel rhn (pos + 1 + lb)
  end.
Definition skiprhn (rhn : list Z) (pos : Z) : cres Z :=
  skiprhn_loop (S (length rhn)) rhn pos.

Fixpoint rhnsegcnt_loop (fuel : nat) (rhn : list Z) (pos res : Z) : cres Z :=
  match fuel with
  | O => OutOfFuel
  | S fuel =>
      lb ← of_option (get rhn pos);
      if lb =? 0 then Ret res else rhnsegcnt_loop fuel rhn (pos + (lb + 1)) (res + 1)
  end.
Definition rhnsegcnt (rhn : list Z) : cres Z := rhnsegcnt_loop (S (length rhn)) rhn 0 0.

(** The inner loop of [rhnicmp]: [lb] characters from index [i]. *)
Fixpoint label_icmp (lb : nat) (a b : list Z) (i : Z) : cres bool :=
  match lb with
  | O => Ret true
  | S lb =>
      x ← of_option (get a i);
      y ← of_option (get b i);
      if negb (tolower x =? tolower y) then Ret false else label_icmp lb a b (i + 1)
  end.

Fixpoint rhnicmp_loop (fuel : nat) (a b : list Z) (i : Z) : cres bool :=
  match fuel with
  | O => OutOfFuel
  | S fuel =>
      lb ← of_option (get a i);
      lb' ← of_option (get b i);
      if negb (lb =? lb') then Ret false
      else if lb =? 0 then Ret true
      else same ← label_icmp (Z.to_nat lb) a b (i + 1);
           if negb same then Ret false else rhnicmp_loop fuel a b (i + 1 + lb)
  end.
Definition rhnicmp (a b : list Z) : cres bool := rhnicmp_loop (S (length a)) a b 0.

Fixpoint isnormalencdomname_loop (fuel : nat) (rhn : list Z) (maxlen i : Z) : cres bool :=
  match fuel with
  | O => OutOfFuel
  | S fuel =>
      if maxlen <=? i then Ret false
      else lb ← of_option (get rhn i);
           if lb =? 0 then Ret true
           else if 63 <? lb then Ret false
           else isnormalencdomname_loop fuel rhn maxlen (i + 1 + lb)
  end.
Definition isnormalencdomname (rhn : list Z) (maxlen : Z) : cres bool :=
  let maxlen := if DNSNAMEBUFSIZE <? maxlen then DNSNAMEBUFSIZE else maxlen in
  isnormalencdomname_loop (S (Z.to_nat maxlen)) rhn maxlen 0.

Definition rhncpy (dst src : list Z) : cres (list Z * Z) :=
  len ← rhnlen src;
  _ ← assert (len <=? DNSNAMEBUFSIZE);
  bs ← of_option (load src 0 (if DNSNAMEBUFSIZE <? len then DNSNAMEBUFSIZE else len));
  dst ← of_option (store dst 0 bs);
  Ret (dst, len).

(** [for(j=i; str[j] && str[j]!='.'; ++j) {...}] of [str2rhn] and
    [parsestr2rhn], which differ in how they read the string; [None] is the
    return in the loop. A label has at most 63 characters, so 65 rounds are
    enough. *)
Fixpoint copy_label (fuel : nat) (read : Z -> cres Z) (rhn : list Z) (j jlim : Z) :
    cres (option (list Z * Z)) :=
  match fuel with
  | O => OutOfFuel
  | S fuel =>
      c ← read j;
      if (c =? 0) || (c =? DOT) then Ret (Some (rhn, j))
      else if jlim <=? j then Ret None
      else rhn ← of_option (store rhn (j + 1) [c]);
           copy_label fuel read rhn (j + 1) jlim
  end.

(** [str[j]] *)
Definition char_at (str : list Z) (j : Z) : cres Z := of_option (get str j).

Fixpoint str2rhn_loop (fuel : nat) (str rhn : list Z) (i : Z) : cres (option (list Z)) :=
  match fuel with
  | O => OutOfFuel
  | S fuel =>
      let jlim := i + 63 in
      let jlim := if DNSNAMEBUFSIZE - 2 <? jlim then DNSNAMEBUFSIZE - 2 else jlim in
      r ← copy_label 65 (char_at str) rhn i jlim;
      match r with
      | None => Ret None
      | Some (rhn, j) =>
          c ← char_at str j;
          if c =? 0 then
            rhn ← of_option (store rhn i [0]);
            if (i <? j) || (i =? 0) then Ret None else Ret (Some rhn)
          else if j <=? i then Ret None
          else rhn ← of_option (store rhn i [u8 (j - i)]);
               str2rhn_loop fuel str rhn (j + 1)
      end
  end.

(** [None] is a return of 0. Every round takes at least two bytes of the
    buffer, so 129 rounds are enough. *)
Definition str2rhn (str rhn : list Z) : cres (option (list Z)) :=
  c ← of_option (get str 0);
  root ← (if c =? DOT then c1 ← of_option (get str 1); Ret (c1 =? 0) else Ret false);
  if (root : bool) then rhn ← of_option (store rhn 0 [0]); Ret (Some rhn)
  else str2rhn_loop 129 str rhn 0.

(** The messages of [parsestr2rhn]. *)
Inductive name_error :=
| ElementTooLong        (* "Domain name element too long" *)
| EmptyElement          (* "Empty name element in domain name" *)
| EmptyName.            (* "Empty domain name not allowed" *)

(** [j<len && str[j]], the character or 0. *)
Definition char_before (str : list Z) (len j : Z) : cres Z :=
  if j <? len then char_at str j else Ret 0.

Fixpoint parsestr2rhn_loop (fuel : nat) (str : list Z) (len : Z) (rhn : list Z) (i : Z) :
    cres (name_error + list Z) :=
  match fuel with
  | O => OutOfFuel
  | S fuel =>
      let jlim := i + 63 in
      let jlim := if DNSNAMEBUFSIZE - 2 <? jlim then DNSNAMEBUFSIZE - 2 else jlim in
      let finish rhn i :=
        rhn ← of_option (store rhn i [0]);
        if i =? 0 then Ret (inl EmptyName) else Ret (inr rhn) in
      r ← copy_label 65 (char_before str len) rhn i jlim;
      match r with
      | None => Ret (inl ElementTooLong)
      | Some (rhn, j) =>
          c ← char_before str len j;
          if j <=? i then
            if negb (c =? 0) then Ret (inl EmptyElement) else finish rhn i
          else
            rhn ← of_option (store rhn i [u8 (j - i)]);
            if negb (c =? 0) then parsestr2rhn_loop fuel str len rhn (j + 1)
            else finish rhn (j + 1)
      end
  end.

(** [inl] is a returned message, [inr] the buffer after a return of NULL. *)
Definition parsestr2rhn (str : list Z) (len : Z) (rhn : list Z) :
    cres (name_error + list Z) :=
  c ← char_before str len 0;
  root ← (if (0 <? len) && (c =? DOT) then
            if len =? 1 then Ret true else c1 ← char_at str 1; Ret (c1 =? 0)
          else Ret false);
  if (root : bool) then rhn ← of_option (store rhn 0 [0]); Ret (inr rhn)
  else parsestr2rhn_loop 129 str len rhn 0.

(** [snprintf(&str[j], rem, ...)] of a text: at most [rem] bytes are written,
    the last of them a zero. *)
Definition snprintf_at (str : list Z) (j rem : Z) (txt : list Z) : option (list Z) :=
  if rem <=? 0 then Some str else store str j (take (Z.to_nat (rem - 1)) txt ++ [0]).

(** "\\%03o" *)
Definition octal_escape (c : Z) : list Z :=
  [BACKSLASH; 48 + c / 64; 48 + c / 8 mod 8; 48 + c mod 8].

(** The state of [rhn2str] after a piece of output, or at its label
    [overflow]. *)
Inductive emitted :=
| Emitted (str : list Z) (j : Z)
| Overflow (str : list Z).

(** The body of the loop of [rhn2str] after [c=rhn[i++]]. *)
Definition emit_char (str : list Z) (size j c : Z) : cres emitted :=
  if isgraph c then
    if (c =? DOT) || (c =? BACKSLASH) || (c =? QUOTE) then
      str ← of_option (store str j [BACKSLASH]);
      let j := j + 1 in
      if size <=? j + 2 then Ret (Overflow str)
      else str ← of_option (store str j [c]); Ret (Emitted str (j + 1))
    else str ← of_option (store str j [c]); Ret (Emitted str (j + 1))
  else
    let rem := size - 1 - j in
    str ← of_option (snprintf_at str j rem (octal_escape c));
    let n := zlen (octal_escape c) in
    if rem <=? n then str ← of_option (store str j [DOT]); Ret (Overflow str)
    else Ret (Emitted str (j + n)).

Fixpoint emit_label (lb : nat) (rhn : list Z) (i : Z) (str : list Z) (size j : Z) : cres emitted :=
  match lb with
  | O => Ret (Emitted str j)
  | S lb =>
      if size <=? j + 2 then Ret (Overflow str)
      else
        c ← of_option (get rhn i);
        r ← emit_char str size j c;
        match r with
        | Emitted str j => emit_label lb rhn (i + 1) str size j
        | Overflow str => Ret (Overflow str)
        end
  end.

Fixpoint emit_labels (fuel : nat) (lb : Z) (rhn : list Z) (i : Z) (str : list Z) (size j : Z) :
    cres emitted :=
  match fuel with
  | O => OutOfFuel
  | S fuel =>
      r ← emit_label (Z.to_nat lb) rhn i str size j;
      match r with
      | Overflow str => Ret (Overflow str)
      | Emitted str j =>
          str ← of_option (store str j [DOT]);
          let i := i + lb in
          lb ← of_option (get rhn i);
          if lb =? 0 then Ret (Emitted str (j + 1))
          else emit_labels fuel lb rhn (i + 1) str size (j + 1)
      end
  end.

(** The code at the label [overflow]: a zero at the end, up to three dots
    before it. *)
Definition overflow_end (str : list Z) (size : Z) : cres (list Z) :=
  let j := size - 1 in
  str ← of_option (store str j [0]);
  if 0 <? j then
    str ← of_option (store str (j - 1) [DOT]);
    if 0 <? j - 1 then
      str ← of_option (store str (j - 2) [DOT]);
      if 0 <? j - 2 then of_option (store str (j - 3) [DOT]) else Ret str
    else Ret str
  else Ret str.

(** [None] is a return of NULL. *)
Definition rhn2str (rhn str : list Z) (size : Z) : cres (option (list Z)) :=
  if size =? 0 then Ret None
  else
    lb ← of_option (get rhn 0);
    r ← (if lb =? 0 then
           if 2 <=? size then str ← of_option (store str 0 [DOT]); Ret (Emitted str 1)
           else Ret (Emitted str 0)
         else emit_labels (S (length rhn)) lb rhn 1 str size 0);
    match r with
    | Emitted str j => str ← of_option (store str j [0]); Ret (Some str)
    | Overflow str => str ← overflow_end str size; Ret (Some str)
    end.

(** ** The format *)

Definition label_ok (l : list Z) : Prop := bytes l /\ 1 <= zlen l <= 63.

Definition wire_label (l : list Z) : list Z := zlen l :: l.
Definition wire_labels (ls : list (list Z)) : list Z := concat (map wire_label ls).
Definition wire (ls : list (list Z)) : list Z := wire_labels ls ++ [0].

(** A name the program handles: labels of 1 to 63 bytes, at most
    [DNSNAMEBUFSIZE] bytes with the terminating zero. *)
Record name_ok (ls : list (list Z)) : Prop := {
  nm_labels : Forall label_ok ls;
  nm_size : zlen (wire ls) <= DNSNAMEBUFSIZE;
}.

Definition same_label (a b : list Z) : Prop := map tolower a = map tolower b.
Definition same_name : list (list Z) -> list (list Z) -> Prop := Forall2 same_label.

#[export] Instance same_label_dec a b : Decision (same_label a b).
Proof. unfold same_label. apply _. Defined.
#[export] Instance same_name_dec a b : Decision (same_name a b).
Proof. unfold same_name. apply _. Defined.

#[export] Instance same_label_equiv : Equivalence same_label.
Proof.
  split; unfold same_label; [done|by intros a b ->|].
  intros a b c -> ->. done.
Qed.
#[export] Instance same_name_equiv : Equivalence same_name.
Proof. unfold same_name. split; apply _. Qed.

Lemma wire_labels_cons l ls : wire_labels (l :: ls) = zlen l :: l ++ wire_labels ls.
Proof. reflexivity. Qed.
Lemma wire_cons l ls : wire (l :: ls) = zlen l :: l ++ wire ls.
Proof. unfold wire. rewrite wire_labels_cons. cbn. by rewrite app_assoc. Qed.
Lemma wire_labels_app a b : wire_labels (a ++ b) = wire_labels a ++ wire_labels b.
Proof. unfold wire_labels. by rewrite map_app, concat_app. Qed.
Lemma wire_app a b : wire (a ++ b) = wire_labels a ++ wire b.
Proof. unfold wire. by rewrite wire_labels_app, app_assoc. Qed.
Lemma length_wire ls : length (wire ls) = S (length (wire_labels ls)).
Proof. unfold wire. rewrite length_app. cbn. lia. Qed.

Lemma label_ok_len ls l : Forall label_ok (l :: ls) -> 1 <= zlen l <= 63.
Proof. by intros [[_ H] _]%Forall_cons_1. Qed.

Lemma same_label_len a b : same_label a b -> length a = length b.
Proof. intros E. by rewrite <- (length_map tolower a), E, length_map. Qed.

Lemma bytes_wire_labels ls : Forall label_ok ls -> bytes (wire_labels ls).
Proof.
  induction 1 as [|l ls [Hb Hl] _ IH]; [constructor|].
  rewrite wire_labels_cons. constructor; [unfold is_byte; lia|]. by apply bytes_app.
Qed.

Lemma bytes_wire ls : Forall label_ok ls -> bytes (wire ls).
Proof.
  intros H. apply bytes_app. split; [by apply bytes_wire_labels|].
  constructor; [unfold is_byte; lia|constructor].
Qed.

(** ** Measuring names *)

(** Walking over a name by its length bytes. *)
Lemma get_wire_nil pre rest : get (pre ++ wire [] ++ rest) (zlen pre) = Some 0.
Proof. apply get_app_here. Qed.
Lemma get_wire_cons pre l ls rest :
  get (pre ++ wire (l :: ls) ++ rest) (zlen pre) = Some (zlen l).
Proof. rewrite wire_cons. apply get_app_here. Qed.
Lemma get_wire_nil_at pre i rest : i = zlen pre -> get (pre ++ wire [] ++ rest) i = Some 0.
Proof. intros ->. apply get_wire_nil. Qed.
Lemma get_wire_cons_at pre i l ls rest :
  i = zlen pre -> get (pre ++ wire (l :: ls) ++ rest) i = Some (zlen l).
Proof. intros ->. apply get_wire_cons. Qed.
Lemma wire_step pre l ls rest :
  pre ++ wire (l :: ls) ++ rest = (pre ++ wire_label l) ++ wire ls ++ rest.
Proof. rewrite wire_cons. rewrite <- app_assoc. cbn. by rewrite <- app_assoc. Qed.
Lemma zlen_wire_label pre l : zlen (pre ++ wire_label l) = zlen pre + 1 + zlen l.
Proof. unfold wire_label. llia. Qed.

Lemma rhnlen_loop_ok ls rest pre fuel :
  Forall label_ok ls -> (length ls < fuel)%nat ->
  rhnlen_loop fuel (pre ++ wire ls ++ rest) (zlen pre) = Ret (zlen pre + zlen (wire ls)).
Proof.
  intros Hls. revert pre fuel. induction ls as [|l ls IH]; intros pre fuel Hf;
    (destruct fuel as [|fuel]; [cbn in Hf; lia|]); cbn [rhnlen_loop].
  - rewrite get_wire_nil. cbn. f_equal.
  - pose proof (label_ok_len _ _ Hls). apply Forall_cons_1 in Hls as [_ Hls].
    rewrite get_wire_cons. cbn [of_option]. rewrite bind_Ret. zcases. rewrite wire_step.
    replace (zlen pre + 1 + zlen l) with (zlen (pre ++ wire_label l)) by (rewrite zlen_wire_label; lia).
    rewrite IH by (auto; llia). f_equal. rewrite ?wire_cons, zlen_wire_label. llia.
Qed.

Lemma wire_length_ge ls : (length ls < length (wire ls))%nat.
Proof.
  induction ls as [|l ls IH]; [cbn; lia|]. rewrite wire_cons. llia.
Qed.

(** [rhnlen] is the length of the format. *)
Lemma rhnlen_wire ls rest :
  Forall label_ok ls -> rhnlen (wire ls ++ rest) = Ret (zlen (wire ls)).
Proof.
  intros Hls. unfold rhnlen. pose proof (wire_length_ge ls).
  apply (rhnlen_loop_ok ls rest []); [done|]. llia.
Qed.

Lemma skiprhn_is_rhnlen fuel rhn pos : skiprhn_loop fuel rhn pos = rhnlen_loop fuel rhn pos.
Proof. revert pos. induction fuel; intros; cbn; [done|]. by destruct (get rhn pos); cbn; rewrite ?IHfuel. Qed.

Lemma skiprhn_wire pre ls rest :
  Forall label_ok ls ->
  skiprhn (pre ++ wire ls ++ rest) (zlen pre) = Ret (zlen pre + zlen (wire ls)).
Proof.
  intros Hls. unfold skiprhn. rewrite skiprhn_is_rhnlen. pose proof (wire_length_ge ls).
  apply rhnlen_loop_ok; [done|]. llia.
Qed.

Lemma skipsegs_wire pre ls rest k :
  Forall label_ok ls ->
  skipsegs (pre ++ wire ls ++ rest) (zlen pre) k = Ret (zlen pre + zlen (wire_labels (take k ls))).
Proof.
  revert pre ls. induction k as [|k IH]; intros pre ls Hls; cbn [skipsegs].
  { f_equal. rewrite take_0. cbn. lia. }
  destruct ls as [|l ls].
  - rewrite get_wire_nil. cbn. f_equal. rewrite ?take_nil. cbn. lia.
  - pose proof (label_ok_len _ _ Hls). apply Forall_cons_1 in Hls as [_ Hls].
    rewrite get_wire_cons. cbn [of_option]. rewrite bind_Ret. zcases. rewrite wire_step.
    replace (zlen pre + (zlen l + 1)) with (zlen (pre ++ wire_label l)) by (rewrite zlen_wire_label; lia).
    rewrite IH by done. f_equal. cbn [take]. rewrite wire_labels_cons, zlen_wire_label. llia.
Qed.

Lemma rhnsegcnt_loop_ok ls rest pre fuel res :
  Forall label_ok ls -> (length ls < fuel)%nat ->
  rhnsegcnt_loop fuel (pre ++ wire ls ++ rest) (zlen pre) res = Ret (res + zlen ls).
Proof.
  intros Hls. revert pre fuel res. induction ls as [|l ls IH]; intros pre fuel res Hf;
    (destruct fuel as [|fuel]; [cbn in Hf; lia|]); cbn [rhnsegcnt_loop].
  - rewrite get_wire_nil. cbn. f_equal. lia.
  - pose proof (label_ok_len _ _ Hls). apply Forall_cons_1 in Hls as [_ Hls].
    rewrite get_wire_cons. cbn [of_option]. rewrite bind_Ret. zcases. rewrite wire_step.
    replace (zlen pre + (zlen l + 1)) with (zlen (pre ++ wire_label l)) by (rewrite zlen_wire_label; lia).
    rewrite IH by (auto; llia). f_equal. llia.
Qed.

Lemma rhnsegcnt_wire ls rest :
  Forall label_ok ls -> rhnsegcnt (wire ls ++ rest) = Ret (zlen ls).
Proof.
  intros Hls. unfold rhnsegcnt. pose proof (wire_length_ge ls).
  rewrite (rhnsegcnt_loop_ok ls rest []); [done|done|]. llia.
Qed.

(** ** Comparing names *)

Lemma label_icmp_ok l l' p p' s s' :
  length p = length p' -> length l = length l' ->
  label_icmp (length l) (p ++ l ++ s) (p' ++ l' ++ s') (zlen p) =
  Ret (bool_decide (same_label l l')).
Proof.
  revert l' p p'. induction l as [|x l IH]; intros [|y l'] p p' Hp Hl; try done; cbn [label_icmp length].
  cbn [app]. rewrite get_app_here. cbn [of_option]. rewrite bind_Ret.
  rewrite (get_app_at p' (zlen p) y) by lia. cbn [of_option]. rewrite bind_Ret.
  destruct (Z.eqb_spec (tolower x) (tolower y)) as [E|E]; cbn [negb].
  - replace (p ++ x :: l ++ s) with ((p ++ [x]) ++ l ++ s) by (by rewrite <- app_assoc).
    replace (p' ++ y :: l' ++ s') with ((p' ++ [y]) ++ l' ++ s') by (by rewrite <- app_assoc).
    replace (zlen p + 1) with (zlen (p ++ [x])) by llia.
    rewrite IH by llia. f_equal. apply bool_decide_ext. unfold same_label. cbn. rewrite E.
    split; [by intros ->|by intros [= ->]].
  - f_equal. symmetry. apply bool_decide_eq_false_2. unfold same_label. cbn. by intros [= ? ?].
Qed.

Lemma rhnicmp_loop_ok a b p p' s s' fuel :
  Forall label_ok a -> Forall label_ok b -> length p = length p' -> (length a < fuel)%nat ->
  rhnicmp_loop fuel (p ++ wire a ++ s) (p' ++ wire b ++ s') (zlen p) =
  Ret (bool_decide (same_name a b)).
Proof.
  intros Ha. revert b p p' fuel. induction a as [|l a IH]; intros b p p' fuel Hb Hp Hf;
    (destruct fuel as [|fuel]; [cbn in Hf; lia|]); cbn [rhnicmp_loop].
  - rewrite get_wire_nil, Hp. destruct b as [|l' b].
    + by rewrite get_wire_nil.
    + pose proof (label_ok_len _ _ Hb). rewrite get_wire_cons. cbn [of_option]. rewrite !bind_Ret.
      by zcases.
  - pose proof (label_ok_len _ _ Ha). apply Forall_cons_1 in Ha as [_ Ha].
    rewrite get_wire_cons. cbn [of_option]. rewrite bind_Ret. destruct b as [|l' b].
    + rewrite (get_wire_nil_at p') by lia. cbn [of_option]. rewrite !bind_Ret. by zcases.
    + apply Forall_cons_1 in Hb as [_ Hb].
      rewrite (get_wire_cons_at p') by lia.
      cbn [of_option]. rewrite bind_Ret.
      destruct (Z.eqb_spec (zlen l) (zlen l')) as [E|E]; cbn [negb].
      2: { f_equal. symmetry. apply bool_decide_eq_false_2. intros H'.
           apply Forall2_cons_1 in H' as [Hl _]. apply same_label_len in Hl. lia. }
      zcases. rewrite Nat2Z.id.
      replace (label_icmp _ _ _ _) with (Ret (A := bool) (bool_decide (same_label l l'))).
      2: { rewrite !wire_cons. replace (zlen p + 1) with (zlen (p ++ [zlen l])) by llia.
           rewrite <- (label_icmp_ok l l' (p ++ [zlen l]) (p' ++ [zlen l'])
             (wire a ++ s) (wire b ++ s')) by llia.
           f_equal; rewrite <- !app_assoc; cbn; by rewrite <- app_assoc. }
      rewrite bind_Ret. case_bool_decide as Hl; cbn [negb].
      * rewrite !wire_step. replace (zlen p + 1 + zlen l) with (zlen (p ++ wire_label l))
          by (rewrite zlen_wire_label; lia).
        rewrite IH by (auto; unfold wire_label; llia). f_equal. apply bool_decide_ext.
        unfold same_name. split; [by constructor|by intros [_ ?]%Forall2_cons_1].
      * f_equal. symmetry. apply bool_decide_eq_false_2. intros [? _]%Forall2_cons_1. done.
Qed.

(** [rhnicmp] decides equality of names up to upper and lower case. *)
Lemma rhnicmp_wire a b s s' :
  Forall label_ok a -> Forall label_ok b ->
  rhnicmp (wire a ++ s) (wire b ++ s') = Ret (bool_decide (same_name a b)).
Proof.
  intros Ha Hb. unfold rhnicmp. pose proof (wire_length_ge a).
  apply (rhnicmp_loop_ok a b [] []); auto. llia.
Qed.

(** ** Validating names *)

Lemma wire_uncons lb tl ls rest :
  lb <> 0 -> lb :: tl = wire ls ++ rest -> Forall label_ok ls ->
  exists l ls', ls = l :: ls' /\ lb = zlen l /\ tl = l ++ wire ls' ++ rest.
Proof.
  intros H0 E Hls. destruct ls as [|l ls]; [by injection E as -> _|].
  rewrite wire_cons in E. injection E as -> ->. rewrite <- app_assoc. eauto.
Qed.

Lemma isnormalencdomname_loop_ok fuel pre tl maxlen :
  bytes tl -> maxlen <= zlen (pre ++ tl) -> (Z.to_nat (maxlen - zlen pre) < fuel)%nat ->
  exists b, isnormalencdomname_loop fuel (pre ++ tl) maxlen (zlen pre) = Ret b /\
    (b = true <-> exists ls rest, tl = wire ls ++ rest /\ Forall label_ok ls /\
                    zlen pre + zlen (wire ls) <= maxlen).
Proof.
  revert pre tl. induction fuel as [|fuel IH]; intros pre tl Hb Hm Hf; [lia|].
  cbn [isnormalencdomname_loop]. destruct (Z.leb_spec maxlen (zlen pre)) as [Hle|Hlt].
  { exists false. split; [done|]. split; [done|]. intros (ls & rest & _ & _ & H).
    rewrite length_wire in H. lia. }
  destruct tl as [|lb tl]; [llia|]. rewrite get_app_here. cbn [of_option]. rewrite bind_Ret.
  apply Forall_cons_1 in Hb as [Hlb Hb]. unfold is_byte in Hlb.
  destruct (Z.eqb_spec lb 0) as [->|H0].
  { exists true. split; [done|]. split; [|done]. intros _. exists [], tl. cbn.
    split; [done|]. split; [constructor|lia]. }
  destruct (Z.ltb_spec 63 lb) as [Hbig|Hsmall].
  { exists false. split; [done|]. split; [done|]. intros (ls & rest & E & Hls & _).
    destruct (wire_uncons _ _ _ _ H0 E Hls) as (l & ls' & -> & -> & _).
    pose proof (label_ok_len _ _ Hls). lia. }
  destruct (Z.leb_spec lb (zlen tl)) as [Hfit|Hshort].
  - set (l := take (Z.to_nat lb) tl).
    assert (Hl : zlen l = lb) by (subst l; llia).
    assert (Et : lb :: tl = wire_label l ++ drop (Z.to_nat lb) tl).
    { unfold wire_label, l. rewrite length_take. cbn. rewrite take_drop. f_equal. lia. }
    rewrite Et, app_assoc in *. replace (zlen pre + 1 + lb) with (zlen (pre ++ wire_label l))
      by (rewrite zlen_wire_label; lia).
    destruct (IH (pre ++ wire_label l) (drop (Z.to_nat lb) tl)) as (b & -> & Hb').
    { by apply bytes_drop. } { done. } { rewrite zlen_wire_label. lia. }
    exists b. split; [done|]. rewrite Hb', zlen_wire_label. split.
    + intros (ls & rest & E & Hls & Hz). exists (l :: ls), rest. rewrite wire_cons, E.
      split; [cbn; by rewrite <- app_assoc|]. split; [|llia].
      constructor; [|done]. split; [by apply bytes_take|lia].
    + intros (ls & rest & E & Hls & Hz). rewrite <- Et in E.
      destruct (wire_uncons _ _ _ _ H0 E Hls) as (l' & ls' & -> & Hl' & Etl).
      exists ls', rest. apply Forall_cons_1 in Hls as [_ Hls]. rewrite wire_cons in Hz.
      split; [|split; [done|llia]]. rewrite Etl. apply drop_app_length'. lia.
  - exists false. destruct fuel as [|fuel]; [lia|]. cbn [isnormalencdomname_loop].
    split; [|split; [done|]].
    + destruct (Z.leb_spec maxlen (zlen pre + 1 + lb)); [done|]. llia.
    + intros (ls & rest & E & Hls & _).
      destruct (wire_uncons _ _ _ _ H0 E Hls) as (l' & ls' & -> & Hl' & ->). llia.
Qed.

(** ** Names as text *)

(** A label that can be written without escapes. *)
Definition plain_char (c : Z) : Prop := c <> 0 /\ c <> DOT.
Definition plain_label (l : list Z) : Prop := label_ok l /\ Forall plain_char l.

(** The dotted notation: every label is followed by a dot, the root is a dot. *)
Definition labels_text (ls : list (list Z)) : list Z := concat (map (fun l => l ++ [DOT]) ls).
Definition dotted (ls : list (list Z)) : list Z :=
  match ls with [] => [DOT] | _ => labels_text ls end.

Lemma labels_text_cons l ls : labels_text (l :: ls) = l ++ DOT :: labels_text ls.
Proof. unfold labels_text. cbn. by rewrite <- app_assoc. Qed.
Lemma labels_text_app a b : labels_text (a ++ b) = labels_text a ++ labels_text b.
Proof. unfold labels_text. by rewrite map_app, concat_app. Qed.
Lemma length_labels_text ls : length (labels_text ls) = length (wire_labels ls).
Proof.
  induction ls as [|l ls IH]; [done|]. rewrite labels_text_cons, wire_labels_cons. llia.
Qed.

(** A string up to its first dot. *)
Lemma split_dot (s : list Z) :
  Forall (fun c => c <> 0) s ->
  exists l, Forall plain_char l /\ (s = l \/ exists s', s = l ++ DOT :: s').
Proof.
  induction 1 as [|c s Hc _ (l & Hl & IH)]; [exists []; split; [constructor|by left]|].
  destruct (decide (c = DOT)) as [->|Hd].
  - exists []. split; [constructor|]. right. by exists s.
  - exists (c :: l). split; [by constructor|]. destruct IH as [->|(s' & ->)]; [by left|].
    right. by exists s'.
Qed.

Lemma split_dot_unique l l' s s' :
  Forall plain_char l -> Forall plain_char l' -> l ++ DOT :: s = l' ++ DOT :: s' ->
  l = l' /\ s = s'.
Proof.
  intros Hl. revert l'. induction Hl as [|c l [_ Hc] Hl IH]; intros [|c' l'] Hl' E; cbn in E.
  - by injection E as ->.
  - injection E as <- _. by apply Forall_cons_1 in Hl' as [[_ ?] _].
  - by injection E as -> _.
  - injection E as <- E. apply Forall_cons_1 in Hl' as [_ Hl'].
    by destruct (IH _ Hl' E) as [-> ->].
Qed.

Lemma plain_no_dot l s : Forall plain_char l -> l <> s ++ [DOT].
Proof. intros H ->. apply Forall_app in H as [_ [[_ H] _]%Forall_cons_1]. done. Qed.

(** ** From text to the format *)

(** The reader returns the characters of [str]. *)
Definition reads_from (read : Z -> cres Z) (str : list Z) : Prop :=
  forall j c, get str j = Some c -> read j = Ret c.

Lemma copy_label_ok read l pre c post rhn jlim fuel :
  reads_from read (pre ++ l ++ c :: post) ->
  Forall plain_char l -> c = 0 \/ c = DOT -> Z.max 0 (jlim - zlen pre) + 1 < Z.of_nat fuel ->
  jlim < zlen rhn -> zlen pre < zlen rhn ->
  copy_label fuel read rhn (zlen pre) jlim =
  Ret (if zlen l <=? Z.max 0 (jlim - zlen pre)
       then Some (splice rhn (zlen pre + 1) l, zlen pre + zlen l) else None).
Proof.
  intros Hrd Hl Hc. revert pre rhn fuel Hrd. induction Hl as [|x l [Hx0 Hxd] Hl IH];
    intros pre rhn fuel Hrd Hf Hj Hp; (destruct fuel as [|fuel]; [lia|]); cbn [copy_label app].
  - rewrite (Hrd _ c) by apply get_app_here. rewrite bind_Ret.
    assert ((c =? 0) || (c =? DOT) = true) as -> by (unfold DOT in *; zcases; done).
    cbn [length]. zcases. by rewrite Z.add_0_r, splice_nil by lia.
  - rewrite (Hrd _ x) by apply get_app_here. rewrite bind_Ret.
    rewrite (proj2 (Z.eqb_neq x 0) Hx0), (proj2 (Z.eqb_neq x DOT) Hxd). cbn [orb].
    destruct (Z.leb_spec jlim (zlen pre)); [cbn [length]; by zcases|].
    rewrite store_Some by llia. cbn [of_option]. rewrite bind_Ret.
    replace (zlen pre + 1) with (zlen (pre ++ [x])) at 2 by llia.
    rewrite IH; [|by rewrite <- app_assoc|llia|rewrite length_splice; llia|rewrite length_splice; llia].
    replace (zlen (pre ++ [x])) with (zlen pre + 1) by llia. cbn [length].
    destruct (Z.leb_spec (zlen l) (Z.max 0 (jlim - (zlen pre + 1)))); zcases; [|done].
    do 3 f_equal; [|lia]. replace (zlen pre + 1 + 1) with (zlen pre + 1 + zlen [x]) by (cbn; lia).
    rewrite splice_splice_adj; [done|llia|llia].
Qed.

Lemma reads_char_at str : reads_from (char_at str) str.
Proof. intros j c H. unfold char_at. by rewrite H. Qed.

(** What [str2rhn] finds when [ls0] was read and [s] is left. *)
Definition reads (ls0 : list (list Z)) (s : list Z) (ls : list (list Z)) : Prop :=
  s = labels_text ls /\ Forall plain_label ls /\ ls0 ++ ls <> [] /\
  zlen (wire (ls0 ++ ls)) <= DNSNAMEBUFSIZE.

Lemma reads_cons ls0 l s ls :
  Forall plain_char l -> reads ls0 (l ++ DOT :: s) ls ->
  exists ls', ls = l :: ls' /\ plain_label l /\ reads (ls0 ++ [l]) s ls'.
Proof.
  intros Hl (E & Hls & Hne & Hsz). destruct ls as [|l' ls].
  { by destruct l. }
  apply Forall_cons_1 in Hls as [Hl' Hls]. rewrite labels_text_cons in E.
  destruct (split_dot_unique _ _ _ _ Hl (proj2 Hl') E) as [<- ->].
  exists ls. split; [done|]. split; [done|]. unfold reads. rewrite <- (app_assoc ls0). repeat split; auto.
Qed.

Lemma reads_plain ls0 l ls : Forall plain_char l -> reads ls0 l ls -> l = [] /\ ls = [].
Proof.
  intros Hl (E & Hls & _). destruct ls as [|l' ls]; [done|]. exfalso.
  apply Forall_cons_1 in Hls as [Hl' _]. rewrite labels_text_cons in E. subst l.
  apply Forall_app in Hl as [_ [[_ ?] _]%Forall_cons_1]. done.
Qed.

Lemma wire_labels_snoc ls l : wire_labels (ls ++ [l]) = wire_labels ls ++ wire_label l.
Proof. rewrite wire_labels_app. unfold wire_labels at 2. cbn. by rewrite app_nil_r. Qed.

(** The length byte is stored before a copied label. *)
Lemma store_label rhn l off front :
  take (Z.to_nat off) rhn = front -> 0 <= off -> off + 1 + zlen l <= zlen rhn ->
  take (Z.to_nat (off + 1 + zlen l)) (splice (splice rhn (off + 1) l) off [zlen l]) =
  front ++ wire_label l.
Proof.
  intros Hd H0 Hl. rewrite <- (take_drop (Z.to_nat off) rhn), Hd.
  assert (Hlen : zlen front = off) by (subst front; llia).
  destruct (drop (Z.to_nat off) rhn) as [|x tl] eqn:E.
  { apply (f_equal length) in E. rewrite length_drop in E. cbn in E. lia. }
  assert (Hlt : zlen l <= zlen tl).
  { apply (f_equal length) in E. rewrite length_drop in E. cbn in E. lia. }
  rewrite <- (take_drop (length l) tl).
  replace (front ++ x :: take (length l) tl ++ drop (length l) tl)
    with ((front ++ [x]) ++ take (length l) tl ++ drop (length l) tl) by (by rewrite <- app_assoc).
  replace (off + 1) with (zlen (front ++ [x])) at 2 by llia.
  rewrite splice_mid by llia. rewrite <- Hlen, <- app_assoc.
  rewrite (splice_mid front [x]) by reflexivity.
  change ([zlen l] ++ l ++ drop (length l) tl) with (wire_label l ++ drop (length l) tl).
  rewrite app_assoc, take_app_length'; [reflexivity|]. unfold wire_label. llia.
Qed.

(** What the loop must return. *)
Definition loop_result (ls0 : list (list Z)) (s rhn : list Z) (r : option (list Z)) : Prop :=
  match r with
  | Some rhn' => length rhn' = length rhn /\ exists ls, reads ls0 s ls /\
      take (length (wire (ls0 ++ ls))) rhn' = wire (ls0 ++ ls)
  | None => forall ls, ~ reads ls0 s ls
  end.

(** The state at the head of the loop. *)
Record loop_state (ls0 : list (list Z)) (rhn : list Z) : Prop := {
  st_labels : Forall plain_label ls0;
  st_size : zlen (wire ls0) <= DNSNAMEBUFSIZE;
  st_buf : DNSNAMEBUFSIZE <= zlen rhn;
  st_front : take (length (wire_labels ls0)) rhn = wire_labels ls0;
}.

Lemma loop_index ls0 rhn :
  loop_state ls0 rhn ->
  let i := zlen (labels_text ls0) in
  i = zlen (wire_labels ls0) /\ 0 <= i <= 255 /\
  (if DNSNAMEBUFSIZE - 2 <? i + 63 then DNSNAMEBUFSIZE - 2 else i + 63) = Z.min (i + 63) 254 /\
  256 <= zlen rhn.
Proof.
  intros [_ H1 H2 _] i. rewrite length_wire in H1. unfold DNSNAMEBUFSIZE in *.
  unfold i. rewrite length_labels_text. zcases; lia.
Qed.

(** The string ends without a further dot. *)
Lemma str2rhn_loop_end fuel ls0 l post rhn :
  loop_state ls0 rhn -> Forall plain_char l ->
  exists r, str2rhn_loop (S fuel) (labels_text ls0 ++ l ++ 0 :: post) rhn
      (zlen (labels_text ls0)) = Ret r /\ loop_result ls0 l rhn r.
Proof.
  intros Hst Hl. pose proof (loop_index _ _ Hst) as (Hi & Hi0 & Hjl & Hbuf).
  destruct Hst as [Hls0 Hsz _ Htk]. cbn [str2rhn_loop]. cbv zeta. rewrite Hjl.
  set (i := zlen (labels_text ls0)) in *. set (jlim := Z.min (i + 63) 254).
  rewrite (copy_label_ok (char_at (labels_text ls0 ++ l ++ 0 :: post)) l (labels_text ls0) _ _ _ _ _
    (reads_char_at _)) by (auto; fold i; lia). fold i. rewrite bind_Ret.
  destruct (Z.leb_spec (zlen l) (Z.max 0 (jlim - i))) as [Hle|Hgt].
  2: { exists None. split; [done|]. intros ls Hr%reads_plain; [|done].
       destruct Hr as [-> _]. cbn in Hgt. lia. }
  unfold char_at. rewrite app_assoc, get_app_at by (unfold i; llia).
  cbn [of_option]. rewrite bind_Ret. cbn [Z.eqb].
  rewrite store_Some by (rewrite ?length_splice; cbn; lia). cbn [of_option]. rewrite bind_Ret.
  destruct ((i <? i + zlen l) || (i =? 0)) eqn:E.
  + exists None. split; [done|]. intros ls Hr.
    destruct (reads_plain _ _ _ Hl Hr) as [-> ->]. destruct Hr as (_ & _ & Hne & _).
    cbn in E. rewrite Z.add_0_r, Z.ltb_irrefl in E. cbn in E. apply Z.eqb_eq in E.
    destruct ls0 as [|l0 ls0]; [done|]. rewrite wire_labels_cons in Hi. llia.
  + apply orb_false_iff in E as [E1%Z.ltb_ge E2%Z.eqb_neq].
    assert (l = []) as -> by (destruct l; [done|]; cbn in E1; lia).
    eexists (Some _). split; [reflexivity|].
    split; [by rewrite !length_splice by (rewrite ?length_splice; cbn; lia)|]. exists []. rewrite app_nil_r. split.
    * repeat split; [constructor| |rewrite app_nil_r, length_wire; unfold DNSNAMEBUFSIZE; lia].
      rewrite app_nil_r. intros ->. cbn in Hi. lia.
    * rewrite splice_nil by lia. rewrite length_wire. unfold wire. rewrite <- Htk at 2.
      replace (S (length (wire_labels ls0))) with (Z.to_nat (i + zlen [0])) by (cbn; lia).
      rewrite take_splice by (cbn; lia). do 2 f_equal. lia.
Qed.

Lemma loop_state_next ls0 rhn l i :
  loop_state ls0 rhn -> i = zlen (labels_text ls0) -> bytes l -> Forall plain_char l ->
  1 <= zlen l <= 63 -> i + zlen l <= 254 ->
  loop_state (ls0 ++ [l]) (splice (splice rhn (i + 1) l) i [zlen l]).
Proof.
  intros Hst Ei Hb Hl Hlen Hfit. pose proof (loop_index _ _ Hst) as (Hi & Hi0 & _ & Hbuf).
  destruct Hst as [Hls0 Hsz Hbuf' Htk]. rewrite <- Ei in *. split.
  - apply Forall_app. split; [done|]. constructor; [|constructor]. repeat split; auto; lia.
  - rewrite wire_app, wire_cons. unfold DNSNAMEBUFSIZE. cbn. llia.
  - by rewrite !length_splice by (rewrite ?length_splice; cbn; lia).
  - rewrite wire_labels_snoc.
    rewrite <- (store_label rhn l i (wire_labels ls0)) at 2; [|by rewrite Hi, Nat2Z.id|lia|lia].
    f_equal. pose proof (zlen_wire_label (wire_labels ls0) l). lia.
Qed.

Lemma str2rhn_loop_ok fuel ls0 s post rhn :
  loop_state ls0 rhn -> Forall (fun c => c <> 0) s -> bytes s ->
  DNSNAMEBUFSIZE - zlen (wire_labels ls0) < 2 * Z.of_nat fuel ->
  exists r, str2rhn_loop fuel (labels_text ls0 ++ s ++ 0 :: post) rhn
      (zlen (labels_text ls0)) = Ret r /\ loop_result ls0 s rhn r.
Proof.
  revert ls0 s rhn. induction fuel as [|fuel IH]; intros ls0 s rhn Hst Hs Hb Hf.
  { pose proof (st_size _ _ Hst) as Hsz. rewrite length_wire in Hsz. lia. }
  destruct (split_dot s Hs) as (l & Hl & [->|(s' & ->)]); [by apply str2rhn_loop_end|].
  pose proof (loop_index _ _ Hst) as (Hi & Hi0 & Hjl & Hbuf).
  cbn [str2rhn_loop]. cbv zeta. rewrite Hjl. set (i := zlen (labels_text ls0)) in *.
  set (jlim := Z.min (i + 63) 254).
  rewrite <- app_assoc. cbn [app].
  rewrite (copy_label_ok (char_at (labels_text ls0 ++ l ++ DOT :: s' ++ 0 :: post)) l (labels_text ls0) _ _ _ _ _
    (reads_char_at _)) by (auto; fold i; lia). fold i. rewrite bind_Ret.
  destruct (Z.leb_spec (zlen l) (Z.max 0 (jlim - i))) as [Hle|Hgt].
  2: { exists None. split; [done|]. intros ls Hr.
       destruct (reads_cons _ _ _ _ Hl Hr) as (ls' & -> & [[_ Hlen] _] & (_ & _ & _ & Hr')).
       rewrite <- app_assoc, wire_app, length_app in Hr'. cbn [app] in Hr'.
       rewrite wire_cons in Hr'. pose proof (length_wire ls'). unfold DNSNAMEBUFSIZE in *. llia. }
  unfold char_at. rewrite app_assoc, get_app_at by (unfold i; llia).
  cbn [of_option]. rewrite bind_Ret.
  change (DOT =? 0) with false. cbv iota. rewrite <- app_assoc.
  destruct (Z.leb_spec (i + zlen l) i) as [He|Hne].
  { exists None. split; [done|]. intros ls Hr.
    destruct (reads_cons _ _ _ _ Hl Hr) as (ls' & -> & [[_ Hlen] _] & _). lia. }
  rewrite u8_small by lia. replace (i + zlen l - i) with (zlen l) by lia.
  rewrite store_Some by (rewrite ?length_splice; cbn; lia). cbn [of_option]. rewrite bind_Ret.
  apply Forall_app in Hs as [_ [_ Hs]%Forall_cons_1].
  apply bytes_app in Hb as [Hbl [_ Hb]%Forall_cons_1].
  destruct (IH (ls0 ++ [l]) s' (splice (splice rhn (i + 1) l) i [zlen l])) as (r & E & Hr).
  { apply loop_state_next; auto; lia. }
  { done. } { done. }
  { rewrite wire_labels_snoc. pose proof (zlen_wire_label (wire_labels ls0) l). lia. }
  replace (labels_text (ls0 ++ [l]) ++ s' ++ 0 :: post)
    with (labels_text ls0 ++ l ++ DOT :: s' ++ 0 :: post) in E.
  2: { rewrite labels_text_app, labels_text_cons. cbn. by rewrite <- !app_assoc. }
  replace (zlen (labels_text (ls0 ++ [l]))) with (i + zlen l + 1) in E
    by (rewrite labels_text_app, labels_text_cons; cbn; unfold i; llia).
  exists r. split; [exact E|]. destruct r as [rhn'|].
  + destruct Hr as (Hlen & ls & (-> & Hls & Hne' & Hz) & Ht).
    rewrite !length_splice in Hlen by (rewrite ?length_splice; cbn; lia).
    split; [done|]. exists (l :: ls). rewrite <- app_assoc in *. cbn [app] in *.
    split; [|done]. unfold reads. rewrite labels_text_cons. repeat split; auto.
    constructor; [|done]. repeat split; auto; lia.
  + intros ls Hls. destruct (reads_cons _ _ _ _ Hl Hls) as (ls' & -> & _ & Hr'). by eapply Hr.
Qed.

(** [parsestr2rhn] also accepts a last label without its dot. *)
Definition reads_lax (ls0 : list (list Z)) (s : list Z) (ls : list (list Z)) : Prop :=
  reads ls0 s ls \/ (ls <> [] /\ reads ls0 (s ++ [DOT]) ls).

Definition lax_result (ls0 : list (list Z)) (s rhn : list Z) (r : name_error + list Z) : Prop :=
  match r with
  | inr rhn' => length rhn' = length rhn /\ exists ls, reads_lax ls0 s ls /\
      take (length (wire (ls0 ++ ls))) rhn' = wire (ls0 ++ ls)
  | inl _ => forall ls, ~ reads_lax ls0 s ls
  end.

Lemma reads_lax_cons ls0 l s ls :
  Forall plain_char l -> reads_lax ls0 (l ++ DOT :: s) ls ->
  exists ls', ls = l :: ls' /\ plain_label l /\ reads_lax (ls0 ++ [l]) s ls'.
Proof.
  intros Hl [H|[Hne H]].
  - destruct (reads_cons _ _ _ _ Hl H) as (ls' & -> & ? & ?). exists ls'.
    split; [done|]. split; [done|]. by left.
  - rewrite <- app_assoc in H. cbn in H.
    destruct (reads_cons _ _ _ _ Hl H) as (ls' & -> & Hpl & H'). exists ls'.
    split; [done|]. split; [done|]. right. split; [|done].
    intros ->. destruct H' as (E & _). by destruct s.
Qed.

Lemma reads_lax_plain ls0 l ls :
  Forall plain_char l -> reads_lax ls0 l ls ->
  l = [] /\ ls = [] \/ ls = [l] /\ plain_label l.
Proof.
  intros Hl [H|[Hne H]]; [left; by eapply reads_plain|]. right.
  destruct (reads_cons _ _ _ _ Hl H) as (ls' & -> & Hpl & (E & _)).
  destruct ls' as [|x ls']; [done|]. rewrite labels_text_cons in E. by destruct x.
Qed.

Lemma reads_lax_size ls0 s ls : reads_lax ls0 s ls -> zlen (wire (ls0 ++ ls)) <= DNSNAMEBUFSIZE.
Proof. by intros [(_ & _ & _ & H)|[_ (_ & _ & _ & H)]]. Qed.

(** A label that does not fit cannot be the first of what is left. *)
Lemma reads_lax_fits ls0 l s ls :
  Forall plain_char l -> s = l \/ (exists s', s = l ++ DOT :: s') -> l <> [] -> reads_lax ls0 s ls ->
  exists ls', ls = l :: ls' /\ 1 <= zlen l <= 63 /\ zlen (wire_labels ls0) + zlen l <= 254.
Proof.
  intros Hl Hs Hne Hr. pose proof (reads_lax_size _ _ _ Hr) as Hsz.
  assert (exists ls', ls = l :: ls' /\ plain_label l) as (ls' & -> & [[_ Hlen] _]).
  { destruct Hs as [->|(s' & ->)].
    - destruct (reads_lax_plain _ _ _ Hl Hr) as [[-> _]|[-> ?]]; [done|eauto].
    - destruct (reads_lax_cons _ _ _ _ Hl Hr) as (ls' & -> & ? & _). eauto. }
  exists ls'. split; [done|]. split; [done|].
  rewrite wire_app, wire_cons, length_app in Hsz. pose proof (length_wire ls').
  unfold DNSNAMEBUFSIZE in Hsz. llia.
Qed.

(** Writing the terminating zero completes the name. *)
Lemma store_end ls0 rhn :
  loop_state ls0 rhn ->
  exists rhn', store rhn (zlen (labels_text ls0)) [0] = Some rhn' /\
    length rhn' = length rhn /\ take (length (wire ls0)) rhn' = wire ls0.
Proof.
  intros Hst. pose proof (loop_index _ _ Hst) as (Hi & Hi0 & _ & Hbuf).
  destruct Hst as [_ _ _ Htk]. rewrite store_Some by (cbn; lia). eexists. split; [done|].
  rewrite length_splice by (cbn; lia). split; [done|].
  rewrite length_wire. unfold wire. rewrite <- Htk at 2.
  replace (S (length (wire_labels ls0))) with (Z.to_nat (zlen (labels_text ls0) + zlen [0]))
    by (cbn; lia).
  rewrite take_splice by (cbn; lia). do 2 f_equal. lia.
Qed.

Lemma lax_result_cons ls0 l s rhn rhn1 r :
  Forall plain_char l -> bytes l -> 1 <= zlen l <= 63 -> length rhn1 = length rhn ->
  lax_result (ls0 ++ [l]) s rhn1 r -> lax_result ls0 (l ++ DOT :: s) rhn r.
Proof.
  intros Hl Hb Hlen Hlen1. destruct r as [e|rhn']; cbn.
  - intros Hr ls Hls. destruct (reads_lax_cons _ _ _ _ Hl Hls) as (ls' & _ & _ & H). by eapply Hr.
  - intros (E & ls & Hr & Ht). split; [congruence|]. exists (l :: ls).
    rewrite <- app_assoc in Ht. split; [|done].
    assert (Hpl : plain_label l) by (repeat split; auto; lia).
    destruct Hr as [(-> & Hls & Hne & Hz)|[Hne (Es & Hls & _ & Hz)]]; [left|right; split; [done|]];
      rewrite <- app_assoc in *; (split; [|split; [by constructor|split; [by destruct ls0|done]]]).
    + by rewrite labels_text_cons.
    + rewrite labels_text_cons. cbn. by rewrite Es.
Qed.

(** The text ends: after the last dot, in the root, and after a label. *)
Lemma lax_stop ls0 rhn rhn' : loop_state ls0 rhn -> ls0 <> [] -> take (length (wire ls0)) rhn' = wire ls0 ->
  exists ls, reads_lax ls0 [] ls /\ take (length (wire (ls0 ++ ls))) rhn' = wire (ls0 ++ ls).
Proof.
  intros Hst Hne Ht. exists []. rewrite app_nil_r. split; [|done]. left. split; [done|]. split; [constructor|].
  rewrite app_nil_r. split; [done|apply Hst].
Qed.
Lemma lax_nothing ls : ~ reads_lax [] [] ls.
Proof.
  intros Hr. destruct (reads_lax_plain [] [] ls ltac:(constructor) Hr) as [[_ ->]|[_ [[_ ?] _]]]; [|cbn in *; lia].
  by destruct Hr as [(_ & _ & ? & _)|[? _]].
Qed.
Lemma lax_last ls0 l rhn rhn' : loop_state (ls0 ++ [l]) rhn -> Forall plain_char l -> bytes l -> 1 <= zlen l <= 63 ->
  take (length (wire (ls0 ++ [l]))) rhn' = wire (ls0 ++ [l]) ->
  exists ls, reads_lax ls0 l ls /\ take (length (wire (ls0 ++ ls))) rhn' = wire (ls0 ++ ls).
Proof.
  intros Hst Hl Hb Hlen Ht. exists [l]. split; [|done]. right. split; [done|]. repeat split.
  - by rewrite labels_text_cons.
  - constructor; [|constructor]. repeat split; auto; lia.
  - by destruct ls0.
  - apply Hst.
Qed.

(** The next label of a text and the character after it. *)
Lemma next_label front s post : Forall (fun c => c <> 0) s ->
  exists l c post', Forall plain_char l /\ front ++ s ++ 0 :: post = front ++ l ++ c :: post' /\
    (c = 0 /\ s = l \/ c = DOT /\ exists s', s = l ++ DOT :: s').
Proof.
  intros Hs. destruct (split_dot s Hs) as (l & Hl & [->|(s' & ->)]); [exists l, 0, post; auto|].
  exists l, DOT, (s' ++ 0 :: post). split; [done|]. split; [by rewrite <- app_assoc|]. eauto.
Qed.

Lemma parsestr2rhn_loop_ok fuel ls0 s post rhn str len :
  reads_from (char_before str len) (labels_text ls0 ++ s ++ 0 :: post) ->
  loop_state ls0 rhn -> Forall (fun c => c <> 0) s -> bytes s ->
  DNSNAMEBUFSIZE - zlen (wire_labels ls0) < 2 * Z.of_nat fuel ->
  exists r, parsestr2rhn_loop fuel str len rhn (zlen (labels_text ls0)) = Ret r /\
    lax_result ls0 s rhn r.
Proof.
  revert ls0 s rhn. induction fuel as [|fuel IH]; intros ls0 s rhn Hrd Hst Hs Hb Hf.
  { pose proof (st_size _ _ Hst) as Hsz. rewrite length_wire in Hsz. lia. }
  pose proof (loop_index _ _ Hst) as (Hi & Hi0 & Hjl & Hbuf).
  cbn [parsestr2rhn_loop]. cbv zeta. rewrite Hjl. set (i := zlen (labels_text ls0)) in *.
  set (jlim := Z.min (i + 63) 254).
  destruct (next_label (labels_text ls0) s post Hs) as (l & c & post' & Hl & Estr & Hc).
  rewrite Estr in Hrd.
  rewrite (copy_label_ok _ l (labels_text ls0) _ _ _ _ _ Hrd) by
    (try tauto; fold i; unfold jlim; lia). fold i. rewrite bind_Ret.
  destruct (Z.leb_spec (zlen l) (Z.max 0 (jlim - i))) as [Hle|Hgt].
  2: { eexists; split; [reflexivity|]. intros ls Hr.
       destruct (reads_lax_fits ls0 l s ls) as (ls' & _ & ? & ?); [done|tauto| |done|unfold jlim in *; lia].
       intros ->. cbn in Hgt. lia. }
  rewrite (Hrd (i + zlen l) c) by (rewrite app_assoc; apply get_app_at; unfold i; llia).
  rewrite bind_Ret. destruct (Z.leb_spec (i + zlen l) i) as [He|Hne].
  - assert (l = []) as -> by (destruct l; [done|cbn in He; lia]).
    destruct Hc as [[-> ->]|[-> (s' & ->)]]; cbn [Z.eqb negb].
    + rewrite splice_nil by lia. destruct (store_end _ _ Hst) as (rhn' & Est & Hlen & Ht).
      fold i in Est. rewrite Est. cbn [of_option]. rewrite bind_Ret. destruct (Z.eqb_spec i 0) as [E0|E0].
      * eexists; split; [reflexivity|]. assert (ls0 = []) as -> by (destruct ls0 as [|l0 ls0]; [done|rewrite wire_labels_cons in Hi; llia]).
        exact lax_nothing.
      * eexists (inr _); split; [reflexivity|]. split; [done|]. apply (lax_stop _ rhn); [done|by intros ->|done].
    + eexists; split; [reflexivity|]. intros ls Hr.
      destruct (reads_lax_cons _ _ _ _ Hl Hr) as (? & _ & [[_ ?] _] & _). cbn in *; lia.
  - assert (Hfit : 1 <= zlen l <= 63 /\ i + zlen l <= 254) by (unfold jlim in *; lia).
    assert (Hbl : bytes l).
    { destruct Hc as [[_ <-]|[_ (s' & ->)]]; [done|]. by apply bytes_app in Hb as [? _]. }
    rewrite u8_small by lia. replace (i + zlen l - i) with (zlen l) by lia.
    rewrite store_Some by (rewrite ?length_splice; cbn; lia). cbn [of_option]. rewrite bind_Ret.
    pose proof (loop_state_next _ _ _ _ Hst eq_refl Hbl Hl (proj1 Hfit) (proj2 Hfit)) as Hst'.
    fold i in Hst'. set (rhn1 := splice _ _ _) in *.
    assert (Hlen1 : length rhn1 = length rhn)
      by (unfold rhn1; by rewrite !length_splice by (rewrite ?length_splice; cbn; lia)).
    assert (Hi1 : i + zlen l + 1 = zlen (labels_text (ls0 ++ [l])))
      by (rewrite labels_text_app, labels_text_cons; cbn; unfold i; llia).
    rewrite Hi1. destruct Hc as [[-> ->]|[-> (s' & ->)]]; cbn [Z.eqb negb].
    + destruct (store_end _ _ Hst') as (rhn' & -> & Hlen & Ht).
      cbn [of_option]. rewrite bind_Ret. zcases. eexists (inr _); split; [reflexivity|].
      split; [congruence|]. apply (lax_last _ _ rhn1); auto; tauto.
    + apply Forall_app in Hs as [_ [_ Hs]%Forall_cons_1].
      apply bytes_app in Hb as [_ [_ Hb]%Forall_cons_1].
      destruct (IH (ls0 ++ [l]) s' rhn1) as (r & E & Hr); auto.
      { rewrite labels_text_app, labels_text_cons. cbn. rewrite <- !app_assoc. cbn.
        rewrite <- Estr, <- (app_assoc l) in Hrd. exact Hrd. }
      { rewrite wire_labels_snoc. pose proof (zlen_wire_label (wire_labels ls0) l). lia. }
      exists r. split; [exact E|]. apply (lax_result_cons _ _ _ _ rhn1); auto; tauto.
Qed.

(** ** From the format to text *)

Definition esc (c : Z) : list Z :=
  if isgraph c then
    if (c =? DOT) || (c =? BACKSLASH) || (c =? QUOTE) then [BACKSLASH; c] else [c]
  else octal_escape c.
Definition esc_label (l : list Z) : list Z := concat (map esc l).
Definition esc_labels (ls : list (list Z)) : list Z :=
  concat (map (fun l => esc_label l ++ [DOT]) ls).
Definition esc_name (ls : list (list Z)) : list Z :=
  match ls with [] => [DOT] | _ => esc_labels ls end.

(** Nothing beyond the first [size] bytes is touched. *)
Definition frame (size : Z) (str str' : list Z) : Prop :=
  length str' = length str /\ drop (Z.to_nat size) str' = drop (Z.to_nat size) str.

#[export] Instance frame_preorder size : PreOrder (frame size).
Proof. split; [done|]. intros a b c [H1 H2] [H3 H4]. split; congruence. Qed.

Lemma frame_splice size str off bs :
  0 <= off -> off + zlen bs <= size -> size <= zlen str -> frame size str (splice str off bs).
Proof.
  intros. split; [apply length_splice; lia|]. unfold splice.
  rewrite app_assoc, drop_app_ge by llia. rewrite drop_drop. f_equal. llia.
Qed.

Lemma store_frame size str off bs :
  0 <= off -> off + zlen bs <= size -> size <= zlen str ->
  exists str', store str off bs = Some str' /\ frame size str str' /\
    take (Z.to_nat (off + zlen bs)) str' = take (Z.to_nat off) str ++ bs.
Proof.
  intros. rewrite store_Some by lia. eexists. split; [done|].
  split; [by apply frame_splice|]. apply take_splice; lia.
Qed.

(** What a piece of code that appends [txt] at [j] does. *)
Definition emit_post (size j : Z) (str txt : list Z) (r : emitted) : Prop :=
  match r with
  | Emitted str' j' => j' = j + zlen txt /\ j' + 2 <= size /\ frame size str str' /\
      take (Z.to_nat j') str' = take (Z.to_nat j) str ++ txt
  | Overflow str' => size < j + zlen txt + 2 /\ frame size str str'
  end.

Lemma emit_char_ok str size j c :
  0 <= j -> j + 2 < size -> size <= zlen str -> is_byte c ->
  exists r, emit_char str size j c = Ret r /\ emit_post size j str (esc c) r.
Proof.
  intros Hj H2 Hs Hc. unfold emit_char, esc. destruct (isgraph c).
  - destruct (_ || _ || _).
    + destruct (store_frame size str j [BACKSLASH]) as (s1 & -> & Hf1 & Ht1); [cbn; lia..|].
      cbn [of_option]. rewrite bind_Ret. destruct (Z.leb_spec size (j + 1 + 2)).
      * eexists; split; [reflexivity|]. cbn. split; [lia|done].
      * destruct (store_frame size s1 (j + 1) [c]) as (s2 & -> & Hf2 & Ht2);
          [lia|cbn; lia|rewrite (proj1 Hf1); lia|].
        eexists; split; [reflexivity|]. split; [cbn; lia|]. split; [lia|].
        split; [by etrans|]. change (j + 1) with (j + zlen [BACKSLASH]) in Ht2.
        rewrite Ht1 in Ht2. change (j + 1 + 1) with (j + zlen [BACKSLASH] + zlen [c]).
        rewrite Ht2. by rewrite <- app_assoc.
    + destruct (store_frame size str j [c]) as (s1 & -> & Hf1 & Ht1); [cbn; lia..|].
      eexists; split; [reflexivity|]. cbn in *. split; [lia|]. split; [lia|]. done.
  - unfold snprintf_at. destruct (Z.leb_spec (size - 1 - j) 0); [lia|].
    change (zlen (octal_escape c)) with 4.
    destruct (store_frame size str j (take (Z.to_nat (size - 1 - j - 1)) (octal_escape c) ++ [0]))
      as (s1 & -> & Hf1 & Ht1); [lia|cbn [length octal_escape]; llia|lia|].
    cbn [of_option]. rewrite bind_Ret. destruct (Z.leb_spec (size - 1 - j) 4).
    + destruct (store_frame size s1 j [DOT]) as (s2 & -> & Hf2 & Ht2);
        [cbn; lia|cbn; lia|rewrite (proj1 Hf1); lia|].
      eexists; split; [reflexivity|].
      split; [change (zlen (octal_escape c)) with 4; lia|by etrans].
    + eexists; split; [reflexivity|].
      split; [change (zlen (octal_escape c)) with 4; lia|]. split; [lia|]. split; [done|].
      rewrite (take_ge (octal_escape c)) in Ht1 by (change (length (octal_escape c)) with 4%nat; lia). change (zlen (octal_escape c)) with 4.
      apply (f_equal (take (Z.to_nat (j + 4)))) in Ht1. rewrite take_take in Ht1.
      rewrite Nat.min_l in Ht1
        by (rewrite length_app; change (length (octal_escape c)) with 4%nat; cbn; lia). rewrite Ht1, app_assoc.
      apply take_app_length'. rewrite length_app.
      change (length (octal_escape c)) with 4%nat. llia.
Qed.

Lemma emit_label_ok l pre post str size j :
  bytes l -> 0 <= j -> j + 2 <= size \/ l <> [] -> size <= zlen str ->
  exists r, emit_label (length l) (pre ++ l ++ post) (zlen pre) str size j = Ret r /\
    emit_post size j str (esc_label l) r.
Proof.
  intros Hl. revert pre str j. induction Hl as [|c l Hc Hl IH]; intros pre str j Hj Hroom Hs;
    cbn [emit_label length].
  { eexists; split; [reflexivity|]. cbn. rewrite app_nil_r, Z.add_0_r.
    destruct Hroom as [?|?]; [|done]. repeat split; lia. }
  destruct (Z.leb_spec size (j + 2)) as [Hfull|Hroom'].
  { eexists; split; [reflexivity|]. split; [|done]. unfold esc_label. cbn [map concat].
    assert (1 <= zlen (esc c)) by (unfold esc; repeat destruct (_ : bool); cbn; lia). llia. }
  cbn [app]. rewrite get_app_here. cbn [of_option]. rewrite bind_Ret.
  destruct (emit_char_ok str size j c) as (r & -> & Hr); [lia..|done|]. rewrite bind_Ret.
  unfold esc_label. cbn [map concat]. destruct r as [s1 j1|s1].
  - destruct Hr as (-> & Hj1 & Hf1 & Ht1).
    replace (pre ++ c :: l ++ post) with ((pre ++ [c]) ++ l ++ post) by (by rewrite <- app_assoc).
    replace (zlen pre + 1) with (zlen (pre ++ [c])) by llia.
    destruct (IH (pre ++ [c]) s1 (j + zlen (esc c))) as (r & -> & Hr);
      [lia|by left|rewrite (proj1 Hf1); lia|].
    exists r. split; [done|]. fold (esc_label l). destruct r as [s2 j2|s2]; cbn in Hr |- *.
    + destruct Hr as (-> & Hj2 & Hf2 & Ht2). split; [llia|]. split; [done|].
      split; [by etrans|]. by rewrite Ht2, Ht1, app_assoc.
    + destruct Hr as (Hov & Hf2). split; [llia|by etrans].
  - destruct Hr as (Hov & Hf1). eexists; split; [reflexivity|]. split; [llia|done].
Qed.

Lemma esc_labels_cons l ls : esc_labels (l :: ls) = esc_label l ++ DOT :: esc_labels ls.
Proof. unfold esc_labels. cbn. by rewrite <- app_assoc. Qed.

(** The label loop: the whole text and a zero fit, or it overflows. *)
Definition name_post (size j : Z) (str txt : list Z) (r : emitted) : Prop :=
  match r with
  | Emitted str' j' => j' = j + zlen txt /\ j' + 1 <= size /\ frame size str str' /\
      take (Z.to_nat j') str' = take (Z.to_nat j) str ++ txt
  | Overflow str' => size < j + zlen txt + 1 /\ frame size str str'
  end.

Lemma emit_labels_ok fuel l ls pre post str size j :
  Forall label_ok (l :: ls) -> (length ls < fuel)%nat -> 0 <= j -> size <= zlen str ->
  exists r, emit_labels fuel (zlen l) (pre ++ l ++ wire ls ++ post) (zlen pre) str size j = Ret r /\
    name_post size j str (esc_labels (l :: ls)) r.
Proof.
  revert l ls pre str j. induction fuel as [|fuel IH]; intros l ls pre str j Hls Hf Hj Hs; [lia|].
  cbn [emit_labels]. rewrite Nat2Z.id, esc_labels_cons.
  apply Forall_cons_1 in Hls as [[Hb Hlen] Hls].
  destruct (emit_label_ok l pre (wire ls ++ post) str size j) as (r & -> & Hr);
    [done|done| |done|]. { right. intros ->. cbn in Hlen. lia. }
  rewrite bind_Ret. destruct r as [s1 j1|s1].
  2: { destruct Hr as (Hov & Hf1). eexists; split; [reflexivity|]. split; [llia|done]. }
  destruct Hr as (-> & Hj1 & Hf1 & Ht1). set (j1 := j + zlen (esc_label l)) in *.
  destruct (store_frame size s1 j1 [DOT]) as (s2 & -> & Hf2 & Ht2);
    [lia|cbn; lia|rewrite (proj1 Hf1); lia|].
  cbn [of_option]. rewrite bind_Ret, app_assoc.
  change (zlen [DOT]) with 1 in Ht2. rewrite Ht1 in Ht2.
  destruct ls as [|l' ls].
  - rewrite get_wire_nil_at by llia. cbn [of_option]. rewrite bind_Ret. cbn [Z.eqb].
    eexists; split; [reflexivity|]. split; [unfold j1; llia|]. split; [lia|].
    split; [by etrans|]. by rewrite Ht2, <- app_assoc.
  - rewrite get_wire_cons_at by llia. cbn [of_option]. rewrite bind_Ret.
    pose proof (label_ok_len _ _ Hls). destruct (Z.eqb_spec (zlen l') 0); [lia|].
    replace ((pre ++ l) ++ wire (l' :: ls) ++ post)
      with ((pre ++ l ++ [zlen l']) ++ l' ++ wire ls ++ post)
      by (rewrite wire_cons, <- !app_assoc; cbn; by rewrite <- app_assoc).
    replace (zlen pre + zlen l + 1) with (zlen (pre ++ l ++ [zlen l'])) by llia.
    destruct (IH l' ls (pre ++ l ++ [zlen l']) s2 (j1 + 1)) as (r & -> & Hr);
      [done|cbn in Hf; lia|lia|rewrite (proj1 Hf2), (proj1 Hf1); lia|].
    exists r. split; [done|]. destruct r as [s3 j3|s3]; cbn in Hr |- *.
    + destruct Hr as (-> & Hj3 & Hf3 & Ht3). split; [unfold j1; llia|]. split; [done|].
      split; [by do 2 (etrans; [eassumption|])|].
      rewrite Ht3, Ht2, <- !app_assoc. done.
    + destruct Hr as (Hov & Hf3). split; [unfold j1 in *; llia|by do 2 (etrans; [eassumption|])].
Qed.

(** The end of the first [size] bytes after a truncation. *)
Definition truncated (size : Z) (str : list Z) : Prop :=
  let n := Z.min 3 (size - 1) in
  slice (size - 1 - n) (n + 1) str = repeat DOT (Z.to_nat n) ++ [0].

Lemma store_mid (pre : list Z) x post y i :
  i = zlen pre -> store (pre ++ x :: post) i [y] = Some (pre ++ y :: post).
Proof.
  intros ->. rewrite store_Some by llia. f_equal. apply (splice_mid pre [x] post [y]). done.
Qed.

Lemma slice_mid (pre mid post : list Z) i n :
  i = zlen pre -> n = zlen mid -> slice i n (pre ++ mid ++ post) = mid.
Proof.
  intros -> ->. unfold slice. rewrite !Nat2Z.id, drop_app_length. apply take_app_length.
Qed.

Lemma frame_front size a b rest :
  length a = length b -> zlen a <= size -> frame size (a ++ rest) (b ++ rest).
Proof.
  intros E Hs. split; [llia|]. rewrite !drop_app_ge by lia. by rewrite E.
Qed.

Lemma overflow_end_ok str size :
  1 <= size <= zlen str ->
  exists str', overflow_end str size = Ret str' /\ frame size str str' /\ truncated size str'.
Proof.
  intros Hs. unfold overflow_end, truncated.
  destruct (Z.leb_spec 4 size) as [H4|H4].
  - assert (exists pre a b c d rest, str = (pre ++ [a; b; c; d]) ++ rest /\ size = zlen pre + 4)
      as (pre & a & b & c & d & rest & -> & ->).
    { exists (take (Z.to_nat (size - 4)) str).
      destruct (drop (Z.to_nat (size - 4)) str) as [|a [|b [|c [|d rest]]]] eqn:E;
        try (apply (f_equal length) in E; rewrite length_drop in E; cbn in E; lia).
      exists a, b, c, d, rest. split; [|llia]. rewrite <- app_assoc. cbn [app]. rewrite <- E.
      by rewrite take_drop. }
    rewrite Z.min_l by lia. zcases.
    rewrite <- app_assoc. cbn [app].
    change (pre ++ a :: b :: c :: d :: rest) with (pre ++ [a; b; c] ++ d :: rest).
    rewrite app_assoc, store_mid by llia. cbn [of_option]. rewrite bind_Ret, <- app_assoc.
    change ([a; b; c] ++ 0 :: rest) with ([a; b] ++ c :: 0 :: rest).
    rewrite app_assoc, store_mid by llia. cbn [of_option]. rewrite bind_Ret, <- app_assoc.
    change ([a; b] ++ DOT :: 0 :: rest) with ([a] ++ b :: DOT :: 0 :: rest).
    rewrite app_assoc, store_mid by llia. cbn [of_option]. rewrite bind_Ret, <- app_assoc.
    cbn [app]. rewrite store_mid by lia. cbn [of_option]. eexists. split; [reflexivity|].
    split.
    + pose proof (frame_front (zlen pre + 4) (pre ++ [a; b; c; d]) (pre ++ [DOT; DOT; DOT; 0])
        rest ltac:(llia) ltac:(llia)) as Hfr.
      rewrite <- app_assoc. rewrite <- !app_assoc in Hfr. exact Hfr.
    + apply (slice_mid pre [DOT; DOT; DOT; 0] rest); cbn; lia.
  - assert (size = 1 \/ size = 2 \/ size = 3) as [-> | [-> | ->]] by lia.
    + destruct str as [|a rest]; [cbn in Hs; lia|]. cbn [Z.ltb Z.sub].
      change (1 - 1) with 0. rewrite (store_mid [] a rest) by done.
      eexists. split; [reflexivity|]. split; [|done].
      by apply (frame_front 1 [a] [0] rest).
    + destruct str as [|a [|b rest]]; [cbn in Hs; lia..|].
      rewrite (store_mid [a] b rest) by done. cbn [of_option]. rewrite bind_Ret.
      rewrite (store_mid [] a (0 :: rest)) by done.
      eexists. split; [reflexivity|]. split; [|done].
      by apply (frame_front 2 [a; b] [DOT; 0] rest).
    + destruct str as [|a [|b [|c rest]]]; [cbn in Hs; lia..|].
      rewrite (store_mid [a; b] c rest) by done. cbn [of_option]. rewrite bind_Ret.
      rewrite (store_mid [a] b (0 :: rest)) by done. cbn [of_option]. rewrite bind_Ret.
      rewrite (store_mid [] a (DOT :: 0 :: rest)) by done.
      eexists. split; [reflexivity|]. split; [|done].
      by apply (frame_front 3 [a; b; c] [DOT; DOT; 0] rest).
Qed.

(** ** The theorems *)

(** On a name in the transport format the functions of helpers.h agree
    with its list of labels: its length, the position behind it, the number of
    its labels, the position of a label; copying it copies exactly the name,
    and comparing decides equality up to upper and lower case. *)
Theorem transport_format ls other rest rest' dst k :
  name_ok ls -> name_ok other -> DNSNAMEBUFSIZE <= zlen dst ->
  rhnlen (wire ls ++ rest) = Ret (zlen (wire ls)) /\
  skiprhn (wire ls ++ rest) 0 = Ret (zlen (wire ls)) /\
  rhnsegcnt (wire ls ++ rest) = Ret (zlen ls) /\
  skipsegs (wire ls ++ rest) 0 k = Ret (zlen (wire_labels (take k ls))) /\
  rhncpy dst (wire ls ++ rest) =
    Ret (wire ls ++ drop (length (wire ls)) dst, zlen (wire ls)) /\
  rhnicmp (wire ls ++ rest) (wire other ++ rest') = Ret (bool_decide (same_name ls other)).
Proof.
  intros [Hls Hsz] [Hot _] Hd. unfold DNSNAMEBUFSIZE in *.
  split; [by apply rhnlen_wire|]. split; [by apply (skiprhn_wire [])|].
  split; [by apply rhnsegcnt_wire|]. split; [by apply (skipsegs_wire [])|].
  split; [|by apply rhnicmp_wire].
  unfold rhncpy, DNSNAMEBUFSIZE. rewrite rhnlen_wire by done. rewrite bind_Ret.
  destruct (Z.leb_spec (zlen (wire ls)) 256); [|lia]. cbn [assert]. rewrite bind_Ret.
  destruct (Z.ltb_spec 256 (zlen (wire ls))); [lia|].
  rewrite load_Some by llia. cbn [of_option]. rewrite bind_Ret.
  replace (slice 0 (zlen (wire ls)) (wire ls ++ rest)) with (wire ls)
    by (symmetry; by apply (slice_mid [])).
  rewrite store_Some by lia. cbn [of_option]. rewrite bind_Ret. unfold splice. by rewrite take_0.
Qed.

(** The validator reads only the given bytes and accepts exactly the
    names in the transport format (labels of 1 to 63 bytes, at most
    [DNSNAMEBUFSIZE] bytes in all) that end within [maxlen]. *)
Theorem isnormalencdomname_exact rhn maxlen :
  bytes rhn -> 0 <= maxlen -> Z.min maxlen DNSNAMEBUFSIZE <= zlen rhn ->
  exists b, isnormalencdomname rhn maxlen = Ret b /\
    (b = true <-> exists ls rest, rhn = wire ls ++ rest /\ name_ok ls /\ zlen (wire ls) <= maxlen).
Proof.
  intros Hb H0 Hm. unfold isnormalencdomname, DNSNAMEBUFSIZE in *.
  replace (if 256 <? maxlen then 256 else maxlen) with (Z.min maxlen 256) by (zcases; lia).
  destruct (isnormalencdomname_loop_ok (S (Z.to_nat (Z.min maxlen 256))) [] rhn
    (Z.min maxlen 256)) as (b & E & Hb'); [done|done|cbn; lia|].
  exists b. split; [exact E|]. rewrite Hb'. cbn [length].
  split; intros (ls & rest & -> & H); exists ls, rest; (split; [done|]).
  - destruct H as [Hls Hz]. split; [split; [done|]|]; unfold DNSNAMEBUFSIZE; lia.
  - destruct H as [[Hls Hz1] Hz2]. unfold DNSNAMEBUFSIZE in *. split; [done|lia].
Qed.

(** A dotted string as [str2rhn] accepts it. *)
Definition dotted_name (s : list Z) (ls : list (list Z)) : Prop :=
  s = dotted ls /\ Forall plain_label ls /\ zlen (wire ls) <= DNSNAMEBUFSIZE.

Lemma dotted_name_reads s ls :
  s <> [DOT] -> dotted_name s ls <-> reads [] s ls.
Proof.
  intros Hs. unfold dotted_name, reads. destruct ls as [|l ls]; cbn [dotted app].
  - split; [by intros [-> _]|by intros (_ & _ & ? & _)].
  - naive_solver.
Qed.

Lemma loop_state_nil rhn : DNSNAMEBUFSIZE <= zlen rhn -> loop_state [] rhn.
Proof. intros H. split; [constructor| |done|done]. unfold DNSNAMEBUFSIZE. cbn. lia. Qed.

Lemma str2rhn_spec s post rhn :
  bytes s -> Forall (fun c => c <> 0) s -> DNSNAMEBUFSIZE <= zlen rhn ->
  exists r, str2rhn (s ++ 0 :: post) rhn = Ret r /\
    match r with
    | Some rhn' => length rhn' = length rhn /\
        exists ls, dotted_name s ls /\ take (length (wire ls)) rhn' = wire ls
    | None => forall ls, ~ dotted_name s ls
    end.
Proof.
  intros Hb Hs Hd. unfold str2rhn. destruct (decide (s = [DOT])) as [->|Hroot].
  - cbn -[store]. rewrite store_Some by (unfold DNSNAMEBUFSIZE in Hd; cbn; lia). cbn [of_option].
    eexists (Some _). split; [reflexivity|].
    rewrite length_splice by (unfold DNSNAMEBUFSIZE in Hd; cbn; lia). split; [done|].
    exists []. split; [|by destruct rhn]. split; [done|]. split; [constructor|].
    unfold DNSNAMEBUFSIZE; cbn; lia.
  - assert (Hnr : forall c, get (s ++ 0 :: post) 0 = Some c ->
      (if c =? DOT then c1 ← of_option (get (s ++ 0 :: post) 1); Ret (c1 =? 0) else Ret false)
      = Ret (A := bool) false).
    { intros c. destruct s as [|x s]; [by intros [= <-]|]. cbn. intros [= <-].
      destruct (Z.eqb_spec x DOT) as [->|]; [|done]. destruct s as [|y s]; [done|]. cbn.
      apply Forall_cons_1 in Hs as [_ [Hy _]%Forall_cons_1].
      change (Z.to_nat 1) with 1%nat. cbn. f_equal. by apply Z.eqb_neq. }
    destruct (get_Some (s ++ 0 :: post) 0) as (c & Hc); [llia|].
    rewrite Hc. cbn [of_option]. rewrite bind_Ret, (Hnr c Hc), bind_Ret.
    destruct (str2rhn_loop_ok 129 [] s post rhn (loop_state_nil _ Hd) Hs Hb) as (r & E & Hr).
    { unfold DNSNAMEBUFSIZE. cbn. lia. }
    exists r. split; [exact E|]. destruct r as [rhn'|]; cbn in Hr.
    + destruct Hr as (Hlen & ls & Hr & Ht). split; [done|]. exists ls.
      by rewrite dotted_name_reads.
    + intros ls. by rewrite dotted_name_reads.
Qed.

(** The dotted notation determines the labels. *)
Lemma labels_text_inj a b :
  Forall plain_label a -> Forall plain_label b -> labels_text a = labels_text b -> a = b.
Proof.
  intros Ha. revert b. induction Ha as [|l a [_ Hl] _ IH]; intros [|l' b] Hb E.
  - done.
  - rewrite labels_text_cons in E. by destruct l'.
  - rewrite labels_text_cons in E. by destruct l.
  - apply Forall_cons_1 in Hb as [[_ Hl'] Hb]. rewrite !labels_text_cons in E.
    destruct (split_dot_unique _ _ _ _ Hl Hl' E) as [-> E']. f_equal. auto.
Qed.

Lemma dotted_not_root l ls : plain_label l -> labels_text (l :: ls) <> [DOT].
Proof.
  intros [[_ Hl] Hp] E. rewrite labels_text_cons in E. destruct l as [|x l]; [cbn in Hl; lia|].
  injection E as -> E. by destruct l.
Qed.

Lemma dotted_inj a b :
  Forall plain_label a -> Forall plain_label b -> dotted a = dotted b -> a = b.
Proof.
  intros Ha Hb. destruct a as [|l a], b as [|l' b]; cbn [dotted]; intros E.
  - done.
  - symmetry in E. apply dotted_not_root in E; [done|]. by apply Forall_cons_1 in Hb as [? _].
  - apply dotted_not_root in E; [done|]. by apply Forall_cons_1 in Ha as [? _].
  - by apply labels_text_inj.
Qed.

(** [str2rhn] never reads behind the string's zero nor writes behind the
    buffer; it succeeds exactly on the dotted names whose labels have 1 to 63
    characters and whose transport format fits into [DNSNAMEBUFSIZE] bytes,
    and then the buffer starts with the format of the only such name. *)
Theorem str2rhn_exact s post rhn :
  bytes s -> Forall (fun c => c <> 0) s -> DNSNAMEBUFSIZE <= zlen rhn ->
  exists r, str2rhn (s ++ 0 :: post) rhn = Ret r /\
    match r with
    | Some rhn' => length rhn' = length rhn /\
        exists ls, dotted_name s ls /\ take (length (wire ls)) rhn' = wire ls /\
          forall ls', dotted_name s ls' -> ls' = ls
    | None => forall ls, ~ dotted_name s ls
    end.
Proof.
  intros Hb Hs Hd. destruct (str2rhn_spec s post rhn Hb Hs Hd) as (r & E & Hr).
  exists r. split; [done|]. destruct r as [rhn'|]; [|done].
  destruct Hr as (Hl & ls & Hn & Ht). split; [done|]. exists ls. split; [done|]. split; [done|].
  intros ls' (E' & Hp' & _). destruct Hn as (-> & Hp & _). by apply dotted_inj.
Qed.

(** The text that [parsestr2rhn] looks at: up to [len] characters, up to a
    zero. *)
Definition text_of (str : list Z) (len : Z) (s : list Z) : Prop :=
  bytes s /\ Forall (fun c => c <> 0) s /\ exists tail, str = s ++ tail /\
  (zlen s = len \/ zlen s < len /\ exists tail', tail = 0 :: tail').

Lemma text_of_reads str len s : text_of str len s -> reads_from (char_before str len) (s ++ [0]).
Proof.
  intros (_ & _ & tail & -> & Hlen) j c Hj. unfold char_before, char_at.
  pose proof (get_lt _ _ _ Hj) as Hr. rewrite length_app in Hr. cbn in Hr.
  destruct (decide (j < zlen s)) as [Hlt|Hge].
  - rewrite get_app_l in Hj by lia. destruct (Z.ltb_spec j len); [|lia].
    by rewrite get_app_l, Hj by lia.
  - assert (j = zlen s) as -> by lia. rewrite get_app_here in Hj. injection Hj as <-.
    destruct (Z.ltb_spec (zlen s) len); [|done].
    destruct Hlen as [?|[_ (t & ->)]]; [lia|]. by rewrite get_app_here.
Qed.

(** A name with or without its last dot. *)
Definition lax_name (s : list Z) (ls : list (list Z)) : Prop :=
  (s = dotted ls \/ ls <> [] /\ s ++ [DOT] = dotted ls) /\
  Forall plain_label ls /\ zlen (wire ls) <= DNSNAMEBUFSIZE.

Lemma lax_name_reads s ls : s <> [DOT] -> lax_name s ls <-> reads_lax [] s ls.
Proof.
  intros Hs. unfold lax_name, reads_lax, reads. destruct ls as [|l ls]; cbn [dotted app].
  - naive_solver.
  - naive_solver.
Qed.

(** The test for the root domain. *)
Lemma parsestr_root str len s :
  text_of str len s ->
  exists c, char_before str len 0 = Ret c /\
    (if (0 <? len) && (c =? DOT) then
       if len =? 1 then Ret true else c1 ← char_at str 1; Ret (c1 =? 0)
     else Ret false) = Ret (bool_decide (s = [DOT])).
Proof.
  intros Ht. pose proof (text_of_reads _ _ _ Ht) as Hrd.
  destruct Ht as (_ & Hs & tail & -> & Hlen). destruct s as [|x [|y s]].
  - exists 0. split; [by apply Hrd|]. by rewrite andb_false_r.
  - exists x. split; [by apply Hrd|]. cbn [length] in Hlen.
    destruct (Z.ltb_spec 0 len); [|lia]. cbn [andb].
    destruct (Z.eqb_spec x DOT) as [->|Hx].
    2: { f_equal. symmetry. apply bool_decide_eq_false_2. congruence. }
    rewrite bool_decide_eq_true_2 by done. destruct (Z.eqb_spec len 1); [done|].
    destruct Hlen as [?|[_ (t & ->)]]; [lia|done].
  - exists x. split; [by apply Hrd|]. cbn [length] in Hlen.
    rewrite bool_decide_eq_false_2 by done. destruct (_ && _); [|done].
    destruct (Z.eqb_spec len 1); [lia|]. unfold char_at.
    apply Forall_cons_1 in Hs as [_ [Hy _]%Forall_cons_1].
    change (get ((x :: y :: s) ++ tail) 1) with (Some y). cbn [of_option].
    rewrite bind_Ret. f_equal. by apply Z.eqb_neq.
Qed.

(** [parsestr2rhn] looks at no more than [len] characters; it succeeds
    exactly on dotted names, with or without the last dot, that fit, and then
    the buffer starts with the transport format; otherwise it returns one of
    its messages. *)
Theorem parsestr2rhn_exact str len s rhn :
  text_of str len s -> DNSNAMEBUFSIZE <= zlen rhn ->
  exists r, parsestr2rhn str len rhn = Ret r /\
    match r with
    | inr rhn' => length rhn' = length rhn /\
        exists ls, lax_name s ls /\ take (length (wire ls)) rhn' = wire ls
    | inl _ => forall ls, ~ lax_name s ls
    end.
Proof.
  intros Ht Hd. unfold parsestr2rhn.
  destruct (parsestr_root _ _ _ Ht) as (c & -> & Eroot). rewrite bind_Ret, Eroot, bind_Ret.
  pose proof (text_of_reads _ _ _ Ht) as Hrd. destruct Ht as (Hb & Hs & _).
  case_bool_decide as Hroot; [subst s|].
  - rewrite store_Some by (unfold DNSNAMEBUFSIZE in Hd; cbn; lia).
    eexists (inr _). split; [reflexivity|].
    rewrite length_splice by (unfold DNSNAMEBUFSIZE in Hd; cbn; lia). split; [done|].
    exists []. split; [|by destruct rhn]. split; [by left|]. split; [constructor|].
    unfold DNSNAMEBUFSIZE; cbn; lia.
  - destruct (parsestr2rhn_loop_ok 129 [] s [] rhn str len Hrd (loop_state_nil _ Hd) Hs Hb)
      as (r & E & Hr). { unfold DNSNAMEBUFSIZE. cbn. lia. }
    exists r. split; [exact E|]. destruct r as [e|rhn']; cbn in Hr.
    + intros ls. by rewrite lax_name_reads.
    + destruct Hr as (Hlen & ls & Hr & Ht). split; [done|]. exists ls. by rewrite lax_name_reads.
Qed.

Lemma rhn2str_spec ls rest str size :
  Forall label_ok ls -> 1 <= size <= zlen str ->
  exists str', rhn2str (wire ls ++ rest) str size = Ret (Some str') /\ frame size str str' /\
    if zlen (esc_name ls) <? size
    then take (S (length (esc_name ls))) str' = esc_name ls ++ [0]
    else truncated size str'.
Proof.
  intros Hls Hs. unfold rhn2str. destruct (Z.eqb_spec size 0); [lia|].
  assert (exists r, (lb ← of_option (get (wire ls ++ rest) 0);
    if lb =? 0 then
      if 2 <=? size then str ← of_option (store str 0 [DOT]); Ret (Emitted str 1)
      else Ret (Emitted str 0)
    else emit_labels (S (length (wire ls ++ rest))) lb (wire ls ++ rest) 1 str size 0) = Ret r /\
    (name_post size 0 str (esc_name ls) r \/ ls = [] /\ size = 1 /\ r = Emitted str 0))
    as (r & E & Hr).
  { destruct ls as [|l ls].
    - change (get (wire [] ++ rest) 0) with (Some 0). cbn [of_option]. rewrite bind_Ret. cbn [Z.eqb].
      destruct (Z.leb_spec 2 size).
      + destruct (store_frame size str 0 [DOT]) as (s1 & -> & Hf & Ht); [lia|cbn; lia|lia|].
        eexists; split; [reflexivity|]. left. split; [done|]. split; [lia|]. by split.
      + eexists; split; [reflexivity|]. right. repeat split; lia.
    - pose proof (get_wire_cons [] l ls rest) as Hg. change (zlen []) with 0 in Hg.
      cbn [app] in Hg. rewrite Hg. cbn [of_option]. rewrite bind_Ret.
      pose proof (label_ok_len _ _ Hls). destruct (Z.eqb_spec (zlen l) 0); [lia|].
      destruct (emit_labels_ok (S (length (wire (l :: ls) ++ rest))) l ls [zlen l] rest str size 0)
        as (r & E & Hr); [done| |lia|lia|].
      { pose proof (wire_length_ge (l :: ls)). llia. }
      exists r. split; [|by left]. rewrite <- E. f_equal. rewrite wire_cons. cbn.
      by rewrite <- app_assoc. }
  apply bind_Ret_inv in E as (lb & -> & E). rewrite bind_Ret, E, bind_Ret.
  destruct Hr as [Hr|(-> & -> & ->)].
  - destruct r as [s1 j1|s1].
    + destruct Hr as (-> & Hj & Hf & Ht). rewrite Z.add_0_l in *.
      destruct (store_frame size s1 (zlen (esc_name ls)) [0]) as (s2 & -> & Hf2 & Ht2);
        [lia|cbn; lia|rewrite (proj1 Hf); lia|].
      eexists. split; [reflexivity|]. split; [by etrans|]. zcases.
      rewrite Ht in Ht2. change (Z.to_nat 0) with 0%nat in Ht2. rewrite take_0 in Ht2.
      cbn [app] in Ht2. rewrite <- Ht2. f_equal. cbn [length]. lia.
    + destruct Hr as (Hov & Hf). destruct (overflow_end_ok s1 size) as (s2 & -> & Hf2 & Ht2);
        [rewrite (proj1 Hf); lia|].
      eexists. split; [reflexivity|]. split; [by etrans|]. by zcases.
  - destruct (store_frame 1 str 0 [0]) as (s2 & -> & Hf2 & Ht2); [lia|cbn; lia|lia|].
    eexists. split; [reflexivity|]. split; [done|]. cbn. exact Ht2.
Qed.

(** A character that [rhn2str] writes as it is. *)
Definition clean_char (c : Z) : Prop :=
  isgraph c = true /\ c <> DOT /\ c <> BACKSLASH /\ c <> QUOTE.

Lemma esc_clean l : Forall clean_char l -> esc_label l = l.
Proof.
  induction 1 as [|c l (Hg & H1 & H2 & H3) _ IH]; [done|].
  unfold esc_label in *. cbn. rewrite IH. unfold esc. rewrite Hg.
  by rewrite (proj2 (Z.eqb_neq _ _) H1), (proj2 (Z.eqb_neq _ _) H2), (proj2 (Z.eqb_neq _ _) H3).
Qed.

Lemma esc_name_clean ls : Forall (Forall clean_char) ls -> esc_name ls = dotted ls.
Proof.
  intros H. assert (E : esc_labels ls = labels_text ls).
  { induction H as [|l ls Hl _ IH]; [done|].
    by rewrite esc_labels_cons, labels_text_cons, esc_clean, IH. }
  by destruct ls.
Qed.

Lemma dotted_props ls :
  name_ok ls -> Forall (Forall clean_char) ls ->
  dotted_name (dotted ls) ls /\ bytes (dotted ls) /\ Forall (fun c => c <> 0) (dotted ls) /\
  zlen (dotted ls) < DNSNAMEBUFSIZE.
Proof.
  intros [Hls Hsz] Hc.
  assert (Hch : forall c, clean_char c -> plain_char c /\ is_byte c).
  { intros c (Hg & Hd & _). unfold isgraph in Hg. unfold plain_char, is_byte, DOT in *. lia. }
  assert (Hp : Forall plain_label ls).
  { induction Hls as [|l ls Hl Hls IH]; [constructor|]. apply Forall_cons_1 in Hc as [Hcl Hc].
    rewrite wire_cons in Hsz. constructor; [|apply IH; [llia|done]]. split; [done|].
    eapply List.Forall_impl; [|exact Hcl]. intros c Hcc. by apply Hch. }
  assert (Hb : Forall (fun c => is_byte c /\ c <> 0) (labels_text ls)).
  { clear Hsz Hp. induction Hc as [|l ls Hl _ IH]; [constructor|].
    apply Forall_cons_1 in Hls as [_ Hls]. rewrite labels_text_cons. apply Forall_app. split.
    - eapply List.Forall_impl; [|exact Hl]. intros c [[? ?] ?]%Hch. done.
    - constructor; [unfold is_byte, DOT; lia|auto]. }
  assert (Hb' : Forall (fun c => is_byte c /\ c <> 0) (dotted ls)).
  { destruct ls; [|done]. repeat constructor; unfold is_byte, DOT; lia. }
  split; [done|]. split; [|split].
  - eapply List.Forall_impl; [|exact Hb']. by intros ? [].
  - eapply List.Forall_impl; [|exact Hb']. by intros ? [].
  - rewrite length_wire in Hsz. rewrite <- length_labels_text in Hsz. unfold DNSNAMEBUFSIZE in *.
    destruct ls; cbn [dotted]; [cbn; lia|lia].
Qed.

(** [rhn2str] writes only into the first [size] bytes of its buffer. When
    the escaped text and its zero fit, the buffer holds them; otherwise it ends
    in a zero after (up to) three dots. A name of printable characters that
    need no escape always fits into [DNSNAMEBUFSIZE] bytes, and [str2rhn] maps
    its text back to the same name. *)
Theorem rhn2str_roundtrip ls rest str size rhn :
  name_ok ls -> 1 <= size <= zlen str ->
  exists str', rhn2str (wire ls ++ rest) str size = Ret (Some str') /\ frame size str str' /\
    (if zlen (esc_name ls) <? size
     then take (S (length (esc_name ls))) str' = esc_name ls ++ [0]
     else truncated size str') /\
    (DNSNAMEBUFSIZE <= size -> Forall (Forall clean_char) ls -> DNSNAMEBUFSIZE <= zlen rhn ->
     exists rhn', str2rhn str' rhn = Ret (Some rhn') /\ take (length (wire ls)) rhn' = wire ls).
Proof.
  intros Hok Hs. destruct (rhn2str_spec ls rest str size (nm_labels _ Hok) Hs)
    as (str' & E & Hf & Hcase).
  exists str'. split; [done|]. split; [done|]. split; [done|]. intros Hsz Hc Hd.
  destruct (dotted_props ls Hok Hc) as (Hn & Hb & H0 & Hlt).
  rewrite (esc_name_clean ls Hc) in Hcase. destruct (Z.ltb_spec (zlen (dotted ls)) size); [|lia].
  rewrite <- (take_drop (S (length (dotted ls))) str'), Hcase, <- app_assoc. cbn [app].
  destruct (str2rhn_spec (dotted ls) (drop (S (length (dotted ls))) str') rhn Hb H0 Hd)
    as (r & -> & Hr).
  destruct r as [rhn'|]; [|by apply Hr in Hn]. exists rhn'. split; [done|].
  destruct Hr as (_ & ls' & (E' & Hp' & _) & Ht). destruct Hn as (_ & Hp & _).
  by rewrite (dotted_inj _ _ Hp Hp' E').
Qed.

(** ** Witnesses *)

(** "www.ab" *)
Definition demo_name : list (list Z) := [[119; 119; 119]; [97; 98]].
Definition demo_upper : list (list Z) := [[87; 119; 87]; [97; 66]].
Definition demo_buf : list Z := repeat 255 256.

Lemma demo_label_ok l : forallb (fun c => (0 <=? c) && (c <? 256)) l = true ->
  (1 <=? zlen l) && (zlen l <=? 63) = true -> label_ok l.
Proof.
  intros H1 H2. split; [|lia]. apply List.Forall_forall. intros c Hc.
  rewrite forallb_forall in H1. specialize (H1 c Hc). unfold is_byte. lia.
Qed.

Lemma demo_name_ok : name_ok demo_name.
Proof. split; [do 2 (constructor; [by apply demo_label_ok|]); constructor|by vm_compute]. Qed.
Lemma demo_upper_ok : name_ok demo_upper.
Proof. split; [do 2 (constructor; [by apply demo_label_ok|]); constructor|by vm_compute]. Qed.
Lemma demo_clean : Forall (Forall clean_char) demo_name.
Proof. repeat constructor; done. Qed.

Lemma transport_format_witness :
  rhncpy demo_buf (wire demo_name ++ [7]) = Ret (wire demo_name ++ repeat 255 248, 8) /\
  rhnicmp (wire demo_name ++ [7]) (wire demo_upper ++ []) = Ret true.
Proof.
  destruct (transport_format demo_name demo_upper [7] [] demo_buf 1 demo_name_ok demo_upper_ok
    ltac:(by vm_compute)) as (_ & _ & _ & _ & H1 & H2).
  split; [exact H1|exact H2].
Defined.

Lemma isnormalencdomname_exact_witness :
  isnormalencdomname (wire demo_name ++ [7]) 9 = Ret true /\
  exists ls rest, wire demo_name ++ [7] = wire ls ++ rest /\ name_ok ls /\ zlen (wire ls) <= 9.
Proof.
  destruct (isnormalencdomname_exact (wire demo_name ++ [7]) 9) as (b & E & Hb).
  - apply bytes_app. split; [apply bytes_wire, demo_name_ok|]. repeat constructor; done.
  - lia.
  - by vm_compute.
  - vm_compute in E. injection E as <-. split; [reflexivity|]. by apply Hb.
Defined.

Lemma str2rhn_exact_witness :
  exists rhn', str2rhn (dotted demo_name ++ 0 :: []) demo_buf = Ret (Some rhn') /\
    exists ls, dotted_name (dotted demo_name) ls /\ take (length (wire ls)) rhn' = wire ls.
Proof.
  destruct (dotted_props demo_name demo_name_ok demo_clean) as (Hn & Hb & H0 & _).
  destruct (str2rhn_exact (dotted demo_name) [] demo_buf Hb H0 ltac:(by vm_compute))
    as (r & E & Hr).
  destruct r as [rhn'|]; [|by vm_compute in E]. exists rhn'. split; [exact E|].
  destruct Hr as (_ & ls & H1 & H2 & _). by exists ls.
Defined.

(** "a.b" of 3 characters, followed by others. *)
Lemma parsestr2rhn_exact_witness :
  exists rhn', parsestr2rhn [97; DOT; 98; 99] 3 demo_buf = Ret (inr rhn') /\
    take 5 rhn' = wire [[97]; [98]] /\ exists ls, lax_name [97; DOT; 98] ls.
Proof.
  destruct (parsestr2rhn_exact [97; DOT; 98; 99] 3 [97; DOT; 98] demo_buf) as (r & E & Hr).
  - repeat split; [repeat constructor; done|repeat constructor; done|].
    exists [99]. split; [done|by left].
  - by vm_compute.
  - destruct r as [e|rhn']; [by vm_compute in E|]. exists rhn'. split; [exact E|].
    destruct Hr as (_ & ls & H & _). split; [|by exists ls].
    vm_compute in E. injection E as <-. reflexivity.
Defined.

Lemma rhn2str_roundtrip_witness :
  exists str' rhn', rhn2str (wire demo_name ++ []) demo_buf 256 = Ret (Some str') /\
    str2rhn str' demo_buf = Ret (Some rhn') /\ take (length (wire demo_name)) rhn' = wire demo_name.
Proof.
  destruct (rhn2str_roundtrip demo_name [] demo_buf 256 demo_buf demo_name_ok ltac:(by vm_compute))
    as (str' & E & _ & _ & H).
  destruct (H ltac:(by vm_compute) demo_clean ltac:(by vm_compute)) as (rhn' & H1 & H2).
  by exists str', rhn'.
Defined.
