(* ===== verification/DnsMessage.v ===== *)
(** * pdnsd/src/dns.c: names in DNS messages

    A name in a message may end in a pointer to an earlier name (RFC 1035,
    4.1.4). [decompress_name] reads such a name, [compress_name] writes one
    with the help of the list of the names written so far. [name_at] is the
    meaning of a compressed name. *)
From S2P Require Import Prelude DnsName.
Local Open Scope Z_scope.

(** dns.h *)
Definition RC_OK : Z := 0.
Definition RC_FORMAT : Z := 1.
Definition RC_TRUNC : Z := 65534.

Module Decompress.

(** What [decompress_name] returns: the advanced source position and the
    remaining size, the target buffer and the length of the name; or an error
    code. *)
Inductive result :=
| Decompressed (src sz : Z) (tgt : list Z) (len : Z)
| Failed (rc : Z).

(** [do { tgt[tpos++]=*lptr++; } while(--lb);] *)
Fixpoint copy_bytes (lb : nat) (msg : list Z) (lptr : Z) (tgt : list Z) (tpos : Z) :
    cres (list Z) :=
  match lb with
  | O => Ret tgt
  | S lb =>
      c ← of_option (get msg lptr);
      tgt ← of_option (store tgt tpos [c]);
      copy_bytes lb msg (lptr + 1) tgt (tpos + 1)
  end.

(** [((lb&0x3f)<<8)|lo], where [lo] is the byte at [lptr]. *)
Definition pointer_offset (lb lo : Z) : Z := Z.lor (Z.shiftl (Z.land lb 63) 8) lo.

(** The loop at the label [jumped]; [inl] is an error, [inr] the buffer and
    its used length. *)
Fixpoint jumped (fuel : nat) (msg : list Z) (msgsz lptr hops : Z) (tgt : list Z) (tpos : Z) :
    cres (Z + list Z * Z) :=
  match fuel with
  | O => OutOfFuel
  | S fuel =>
      lb ← of_option (get msg lptr);
      let lptr := lptr + 1 in
      if 63 <? lb then
        if lb <? 192 then Ret (inl RC_FORMAT)
        else if msgsz <=? lptr then Ret (inl RC_FORMAT)
        else if 255 <? hops + 1 then Ret (inl RC_FORMAT)
        else
          lo ← of_option (get msg lptr);
          let offs := pointer_offset lb lo in
          if msgsz <=? offs then Ret (inl RC_FORMAT)
          else jumped fuel msg msgsz offs (hops + 1) tgt tpos
      else
        tgt ← of_option (store tgt tpos [lb]);
        let tpos := tpos + 1 in
        if lb =? 0 then Ret (inr (tgt, tpos))
        else if msgsz <=? lptr + lb then Ret (inl RC_FORMAT)
        else if DNSNAMEBUFSIZE - 1 <? tpos + lb then Ret (inl RC_FORMAT)
        else
          tgt ← copy_bytes (Z.to_nat lb) msg lptr tgt tpos;
          jumped fuel msg msgsz (lptr + lb) hops tgt (tpos + lb)
  end.

(** Every label takes two bytes of the target and there are at most 255
    jumps, so 512 rounds are enough. *)
Definition ROUNDS : nat := 512.

(** The first loop: the part of the name at the source position. *)
Fixpoint direct (fuel : nat) (msg : list Z) (msgsz lptr newsz : Z) (tgt : list Z) (tpos : Z) :
    cres (Z + list Z * Z * Z) :=
  match fuel with
  | O => OutOfFuel
  | S fuel =>
      let newsz := newsz - 1 in
      lb ← of_option (get msg lptr);
      let lptr := lptr + 1 in
      if 63 <? lb then
        if lb <? 192 then Ret (inl RC_FORMAT)
        else if newsz =? 0 then Ret (inl RC_TRUNC)
        else if msgsz <=? lptr then Ret (inl RC_FORMAT)
        else
          let newsz := newsz - 1 in
          lo ← of_option (get msg lptr);
          let offs := pointer_offset lb lo in
          if msgsz <=? offs then Ret (inl RC_FORMAT)
          else
            r ← jumped ROUNDS msg msgsz offs 1 tgt tpos;
            match r with
            | inl rc => Ret (inl rc)
            | inr (tgt, tpos) => Ret (inr (tgt, tpos, newsz))
            end
      else
        tgt ← of_option (store tgt tpos [lb]);
        let tpos := tpos + 1 in
        if lb =? 0 then Ret (inr (tgt, tpos, newsz))
        else if newsz <=? lb then Ret (inl RC_TRUNC)
        else if msgsz <=? lptr + lb then Ret (inl RC_FORMAT)
        else if DNSNAMEBUFSIZE - 1 <? tpos + lb then Ret (inl RC_FORMAT)
        else
          tgt ← copy_bytes (Z.to_nat lb) msg lptr tgt tpos;
          direct fuel msg msgsz (lptr + lb) (newsz - lb) tgt (tpos + lb)
  end.

Definition decompress_name (msg : list Z) (msgsz src sz : Z) (tgt : list Z) : cres result :=
  if sz =? 0 then Ret (Failed RC_TRUNC)
  else if msgsz <=? src then Ret (Failed RC_FORMAT)
  else
    r ← direct ROUNDS msg msgsz src sz tgt 0;
    match r with
    | inl rc => Ret (Failed rc)
    | inr (tgt, tpos, newsz) => Ret (Decompressed (src + (sz - newsz)) newsz tgt tpos)
    end.

(** ** The meaning of a compressed name

    [name_at msg p ls h n]: the labels [ls] are read at position [p] of [msg]
    by following [h] pointers, and the name occupies [n] bytes there. *)
Inductive name_at (msg : list Z) : Z -> list (list Z) -> Z -> Z -> Prop :=
| name_end p : get msg p = Some 0 -> name_at msg p [] 0 1
| name_label p l ls h n :
    get msg p = Some (zlen l) -> label_ok l -> load msg (p + 1) (zlen l) = Some l ->
    name_at msg (p + 1 + zlen l) ls h n ->
    name_at msg p (l :: ls) h (1 + zlen l + n)
| name_pointer p lb lo ls h n :
    get msg p = Some lb -> 192 <= lb -> get msg (p + 1) = Some lo ->
    name_at msg (pointer_offset lb lo) ls h n ->
    name_at msg p ls (h + 1) 2.

Lemma name_at_bounds msg p ls h n :
  name_at msg p ls h n -> 0 <= p < zlen msg /\ 0 <= h /\ 1 <= n /\ Forall label_ok ls.
Proof.
  induction 1 as [p Hg|p l ls h n Hg Hl _ _ IH|p lb lo ls h n Hg _ _ _ IH];
    apply get_lt in Hg; (split; [done|]).
  - split; [lia|]. split; [lia|constructor].
  - destruct IH as (_ & ? & ? & ?). split; [lia|]. split; [lia|by constructor].
  - destruct IH as (_ & ? & ? & ?). split; [lia|]. split; [lia|done].
Qed.

(** A name is read in one way only. *)
Lemma name_at_det msg p ls h n ls' h' n' :
  name_at msg p ls h n -> name_at msg p ls' h' n' -> ls = ls' /\ h = h' /\ n = n'.
Proof.
  intros H. revert ls' h' n'.
  induction H as [p Hg|p l ls h n Hg [_ Hl] Hld _ IH|p lb lo ls h n Hg Hlb Hlo _ IH];
    intros ls' h' n' H'; inversion H' as [? Hg'|? l' ls1 h1 n1 Hg' [_ Hl'] Hld' Hn'|
      ? lb' lo' ls1 h1 n1 Hg' Hlb' Hlo' Hn']; subst; rewrite Hg in Hg';
    try (injection Hg' as Hg'; lia).
  - done.
  - assert (zlen l = zlen l') as E by congruence. rewrite <- E in *.
    assert (l = l') as <- by congruence. destruct (IH _ _ _ Hn') as (-> & -> & ->). done.
  - assert (lo = lo') as <- by congruence.
    injection Hg' as <-. destruct (IH _ _ _ Hn') as (-> & -> & ->). done.
Qed.

(** Appending to a message does not change its names. *)
Lemma name_at_app msg more p ls h n : name_at msg p ls h n -> name_at (msg ++ more) p ls h n.
Proof.
  assert (Hget : forall i c, get msg i = Some c -> get (msg ++ more) i = Some c).
  { intros i c H. rewrite get_app_l; [done|]. apply get_lt in H. lia. }
  induction 1 as [p Hg|p l ls h n Hg Hl Hld _ IH|p lb lo ls h n Hg Hlb Hlo _ IH].
  - constructor. auto.
  - constructor; auto. unfold load in *. destruct (inside msg (p + 1) (zlen l)) eqn:E; [|done].
    apply inside_spec in E. injection Hld as Hld.
    replace (inside (msg ++ more) (p + 1) (zlen l)) with true
      by (symmetry; apply inside_spec; llia).
    rewrite <- Hld at 2. unfold slice. rewrite drop_app_le, take_app_le by llia. done.
  - econstructor; eauto.
Qed.
(** ** [decompress_name] computes that meaning *)

Lemma load_cons (msg : list Z) p c l :
  load msg p (zlen (c :: l)) = Some (c :: l) ->
  get msg p = Some c /\ load msg (p + 1) (zlen l) = Some l.
Proof.
  unfold load. destruct (inside msg p (zlen (c :: l))) eqn:E; [|done].
  apply inside_spec in E as (Hp & _ & Hle). cbn [length] in Hle. intros H. injection H as H.
  unfold slice in H. rewrite Nat2Z.id in H.
  destruct (drop (Z.to_nat p) msg) as [|x m] eqn:Ed; [done|]. cbn in H. injection H as -> H.
  split; [apply get_drop; eauto|].
  replace (inside msg (p + 1) (zlen l)) with true by (symmetry; apply inside_spec; lia).
  f_equal. unfold slice. rewrite Nat2Z.id. replace (Z.to_nat (p + 1)) with (Z.to_nat p + 1)%nat by lia.
  rewrite <- drop_drop, Ed. cbn. done.
Qed.

Lemma copy_bytes_ok l msg p tgt tpos :
  load msg p (zlen l) = Some l -> 0 <= tpos -> tpos + zlen l <= zlen tgt ->
  copy_bytes (length l) msg p tgt tpos = Ret (splice tgt tpos l).
Proof.
  revert p tgt tpos. induction l as [|c l IH]; intros p tgt tpos Hld H0 Hl; cbn [copy_bytes length].
  { rewrite splice_nil by llia. done. }
  destruct (load_cons _ _ _ _ Hld) as [-> Hld']. cbn [of_option]. rewrite bind_Ret.
  rewrite store_Some by llia. cbn [of_option]. rewrite bind_Ret.
  rewrite IH; [|done|lia|rewrite length_splice; llia].
  change (tpos + 1) with (tpos + zlen [c]). by rewrite splice_splice_adj by llia.
Qed.

(** The target holds the labels read so far. *)
Record target (ls0 : list (list Z)) (tgt : list Z) (tpos : Z) : Prop := {
  t_pos : tpos = zlen (wire_labels ls0);
  t_max : tpos <= DNSNAMEBUFSIZE - 1;
  t_buf : DNSNAMEBUFSIZE <= zlen tgt;
  t_front : take (Z.to_nat tpos) tgt = wire_labels ls0;
}.

Lemma target_nil tgt : DNSNAMEBUFSIZE <= zlen tgt -> target [] tgt 0.
Proof. intros H. split; [done|unfold DNSNAMEBUFSIZE; lia|done|done]. Qed.

Lemma target_end ls0 tgt tpos :
  target ls0 tgt tpos ->
  exists tgt', store tgt tpos [0] = Some tgt' /\ length tgt' = length tgt /\
    tpos + 1 = zlen (wire ls0) /\ take (Z.to_nat (tpos + 1)) tgt' = wire ls0.
Proof.
  intros [Hp Hm Hb Hf]. unfold DNSNAMEBUFSIZE in *. rewrite store_Some by (cbn; lia).
  eexists. split; [done|]. rewrite length_splice by (cbn; lia). split; [done|].
  rewrite length_wire. split; [lia|]. change (tpos + 1) with (tpos + zlen [0]).
  rewrite take_splice by (cbn; lia). by rewrite Hf.
Qed.

(** A label is appended to the target. *)
Lemma target_label ls0 tgt tpos msg p l :
  target ls0 tgt tpos -> load msg p (zlen l) = Some l ->
  tpos + 1 + zlen l <= DNSNAMEBUFSIZE - 1 ->
  exists tgt' tgt'', store tgt tpos [zlen l] = Some tgt' /\
    copy_bytes (Z.to_nat (zlen l)) msg p tgt' (tpos + 1) = Ret tgt'' /\
    length tgt'' = length tgt /\ target (ls0 ++ [l]) tgt'' (tpos + 1 + zlen l).
Proof.
  intros [Hp Hm Hb Hf] Hld Hfit. unfold DNSNAMEBUFSIZE in *.
  rewrite store_Some by (cbn; lia). eexists _, _. split; [done|].
  rewrite Nat2Z.id, copy_bytes_ok; [|done|lia|rewrite length_splice; cbn; lia].
  change (tpos + 1) with (tpos + zlen [zlen l]) at 1.
  rewrite splice_splice_adj by (cbn; lia). split; [done|].
  change ([zlen l] ++ l) with (wire_label l).
  assert (Hlen : zlen (wire_label l) = 1 + zlen l) by (unfold wire_label; llia).
  rewrite length_splice by lia. split; [done|]. split; unfold DNSNAMEBUFSIZE.
  - rewrite wire_labels_snoc, zlen_wire_label. lia.
  - lia.
  - rewrite length_splice; lia.
  - replace (tpos + 1 + zlen l) with (tpos + zlen (wire_label l)) by lia.
    rewrite take_splice by lia. by rewrite Hf, wire_labels_snoc.
Qed.

Lemma target_room ls0 ls l tgt tpos :
  target ls0 tgt tpos -> zlen (wire (ls0 ++ l :: ls)) <= DNSNAMEBUFSIZE ->
  tpos + 1 + zlen l <= DNSNAMEBUFSIZE - 1.
Proof.
  intros [-> _ _ _]. rewrite wire_app, wire_cons, length_app. pose proof (length_wire ls).
  unfold DNSNAMEBUFSIZE. llia.
Qed.

(** The label at a position, from its length byte. *)
Lemma load_label msg p lb :
  bytes msg -> 0 <= p -> 0 < lb <= 63 -> p + lb < zlen msg ->
  exists l, load msg p (zlen l) = Some l /\ lb = zlen l /\ label_ok l.
Proof.
  intros Hb Hp Hlb Hin. exists (slice p lb msg).
  rewrite (length_slice msg p lb) by lia. split; [apply load_Some; lia|]. split; [done|].
  split; [by apply bytes_take, bytes_drop|]. rewrite length_slice; lia.
Qed.

(** The ways to read a name, by its first byte. *)
Lemma name_at_inv msg p lb ls h n :
  get msg p = Some lb -> name_at msg p ls h n ->
  lb = 0 /\ ls = [] /\ h = 0 /\ n = 1 \/
  0 < lb <= 63 /\ (exists l ls' n', ls = l :: ls' /\ lb = zlen l /\ label_ok l /\
    load msg (p + 1) lb = Some l /\ name_at msg (p + 1 + lb) ls' h n' /\ n = 1 + lb + n') \/
  192 <= lb /\ (exists lo h' n', get msg (p + 1) = Some lo /\
    name_at msg (pointer_offset lb lo) ls h' n' /\ h = h' + 1 /\ n = 2).
Proof.
  intros Hlb Hn. destruct Hn as [p Hg|p l ls h n Hg Hl Hld Hn|p lb' lo ls h n Hg Hlb' Hlo Hn];
    rewrite Hlb in Hg; injection Hg as ->.
  - left. done.
  - right. left. pose proof (proj2 Hl). split; [lia|]. eauto 10.
  - right. right. split; [done|]. eauto 10.
Qed.

(** What a loop of [decompress_name] that starts at [p] with [ls0] read must
    return: [ok] relates the pointers followed and the bytes occupied to the
    limits. *)
Definition read_result (msg : list Z) (p : Z) (ls0 : list (list Z)) (tgt : list Z)
    (fits : Z -> Z -> Prop) (r : Z + list Z * Z) : Prop :=
  match r with
  | inr (tgt', len) => exists ls h n, name_at msg p ls h n /\ fits h n /\
      len = zlen (wire (ls0 ++ ls)) /\ len <= DNSNAMEBUFSIZE /\
      take (Z.to_nat len) tgt' = wire (ls0 ++ ls) /\ length tgt' = length tgt
  | inl _ => forall ls h n, name_at msg p ls h n -> fits h n ->
      DNSNAMEBUFSIZE < zlen (wire (ls0 ++ ls))
  end.

Lemma read_stop msg p ls0 tgt fits rc :
  (forall ls h n, name_at msg p ls h n -> fits h n ->
     zlen (wire (ls0 ++ ls)) <= DNSNAMEBUFSIZE -> False) ->
  read_result msg p ls0 tgt fits (inl rc).
Proof. intros H ls h n Hn Hf. apply Z.nle_gt. eauto. Qed.

Lemma read_zero msg p ls0 tgt tpos fits :
  get msg p = Some 0 -> target ls0 tgt tpos -> (fits 0 1 : Prop) ->
  exists tgt', store tgt tpos [0] = Some tgt' /\
    read_result msg p ls0 tgt fits (inr (tgt', tpos + 1)).
Proof.
  intros Hg Ht Hf. destruct (target_end _ _ _ Ht) as (tgt' & -> & Hlen & Hpos & Hfr).
  exists tgt'. split; [done|]. exists [], 0, 1. rewrite app_nil_r.
  pose proof (t_max _ _ _ Ht). split; [by constructor|]. repeat split; auto; lia.
Qed.

Lemma read_pointer msg p lb lo ls0 tgt (fits fits' : Z -> Z -> Prop) r :
  get msg p = Some lb -> 192 <= lb -> get msg (p + 1) = Some lo ->
  (forall h n, fits (h + 1) 2 <-> fits' h n) ->
  read_result msg (pointer_offset lb lo) ls0 tgt fits' r -> read_result msg p ls0 tgt fits r.
Proof.
  intros Hlb H192 Hlo Hfit Hr. destruct r as [rc|[tgt' len]].
  - intros ls h n Hn Hf. apply (name_at_inv _ _ _ _ _ _ Hlb) in Hn.
    destruct Hn as [?|[?|(_ & lo' & h' & n' & Hg & Hn & -> & ->)]]; [lia..|].
    rewrite Hlo in Hg. injection Hg as <-. eapply Hr; [exact Hn|]. by apply Hfit.
  - destruct Hr as (ls & h & n & Hn & Hle & Hr). exists ls, (h + 1), 2.
    split; [by econstructor|]. split; [by apply (Hfit h n)|done].
Qed.

Lemma read_label msg p l ls0 tgt tgt1 (fits fits' : Z -> Z -> Prop) r :
  get msg p = Some (zlen l) -> label_ok l -> load msg (p + 1) (zlen l) = Some l ->
  length tgt1 = length tgt -> (forall h n, fits h (1 + zlen l + n) <-> fits' h n) ->
  read_result msg (p + 1 + zlen l) (ls0 ++ [l]) tgt1 fits' r -> read_result msg p ls0 tgt fits r.
Proof.
  intros Hlb Hl Hld Hlen Hfit Hr. destruct r as [rc|[tgt' len]].
  - intros ls h n Hn Hf. pose proof (proj2 Hl). apply (name_at_inv _ _ _ _ _ _ Hlb) in Hn.
    destruct Hn as [?|[(_ & l' & ls' & n' & -> & _ & _ & Hld' & Hn & ->)|?]]; [lia| |lia].
    assert (l = l') as <- by congruence. specialize (Hr _ _ _ Hn (proj1 (Hfit _ _) Hf)).
    by rewrite <- app_assoc in Hr.
  - destruct Hr as (ls & h & n & Hn & Hle & Hr). rewrite <- app_assoc in Hr.
    exists (l :: ls), h, (1 + zlen l + n). split; [by constructor|].
    split; [by apply Hfit|]. rewrite <- Hlen. exact Hr.
Qed.

(** The checks both loops make before they follow a pointer or copy a label. *)
Section Checks.
Context (msg : list Z) (p lb : Z) (ls0 : list (list Z)) (tgt : list Z) (tpos : Z).
Context (Hb : bytes msg) (Hlb : get msg p = Some lb) (Ht : target ls0 tgt tpos).

Lemma read_bad fits rc : 63 < lb < 192 -> read_result msg p ls0 tgt fits (inl rc).
Proof using Hlb.
  intros H. apply read_stop. intros ls h n Hn _ _.
  apply (name_at_inv _ _ _ _ _ _ Hlb) in Hn. lia.
Qed.

Lemma read_pointer_outside fits rc :
  192 <= lb -> zlen msg <= p + 1 -> read_result msg p ls0 tgt fits (inl rc).
Proof using Hlb.
  intros H Ho. apply read_stop. intros ls h n Hn _ _.
  apply (name_at_inv _ _ _ _ _ _ Hlb) in Hn.
  destruct Hn as [?|[?|(_ & lo & ? & ? & Hg & _)]]; [lia..|]. apply get_lt in Hg. lia.
Qed.

Lemma read_offset_outside fits rc lo :
  192 <= lb -> get msg (p + 1) = Some lo -> zlen msg <= pointer_offset lb lo ->
  read_result msg p ls0 tgt fits (inl rc).
Proof using Hlb.
  intros H Hlo Ho. apply read_stop. intros ls h n Hn _ _.
  apply (name_at_inv _ _ _ _ _ _ Hlb) in Hn.
  destruct Hn as [?|[?|(_ & lo' & ? & ? & Hg & Hn & _)]]; [lia..|].
  rewrite Hlo in Hg. injection Hg as <-. apply name_at_bounds in Hn. lia.
Qed.

Lemma read_label_outside fits rc :
  0 < lb <= 63 -> zlen msg <= p + 1 + lb -> read_result msg p ls0 tgt fits (inl rc).
Proof using Hlb.
  intros H Ho. apply read_stop. intros ls h n Hn _ _.
  apply (name_at_inv _ _ _ _ _ _ Hlb) in Hn.
  destruct Hn as [?|[(_ & l & ls' & n' & _ & _ & _ & _ & Hn & _)|?]]; [lia| |lia].
  apply name_at_bounds in Hn. lia.
Qed.

Lemma read_full fits rc :
  0 < lb <= 63 -> DNSNAMEBUFSIZE - 1 < tpos + 1 + lb -> read_result msg p ls0 tgt fits (inl rc).
Proof using Hlb Ht.
  intros H Ho. apply read_stop. intros ls h n Hn _ Hle.
  apply (name_at_inv _ _ _ _ _ _ Hlb) in Hn.
  destruct Hn as [?|[(_ & l & ls' & n' & -> & E & _)|?]]; [lia| |lia].
  pose proof (target_room _ _ _ _ _ Ht Hle). lia.
Qed.

(** Storing the length byte and copying the label. *)
Lemma step_label :
  0 < lb <= 63 -> 0 <= p -> p + 1 + lb < zlen msg -> tpos + 1 + lb <= DNSNAMEBUFSIZE - 1 ->
  exists l t1 t2, lb = zlen l /\ label_ok l /\ load msg (p + 1) (zlen l) = Some l /\
    store tgt tpos [lb] = Some t1 /\ copy_bytes (Z.to_nat lb) msg (p + 1) t1 (tpos + 1) = Ret t2 /\
    length t2 = length tgt /\ target (ls0 ++ [l]) t2 (tpos + 1 + lb).
Proof using Hb Hlb Ht.
  intros Hr Hp Hin Hroom. destruct (load_label msg (p + 1) lb) as (l & Hld & -> & Hl); [done|lia..|].
  destruct (target_label _ _ _ _ _ _ Ht Hld Hroom) as (t1 & t2 & E1 & E2 & Hlen & Ht2).
  by exists l, t1, t2.
Qed.

Lemma store_length : exists t, store tgt tpos [lb] = Some t.
Proof using Ht.
  destruct Ht as [Hp Hm Hbuf _]. unfold DNSNAMEBUFSIZE in *. rewrite store_Some by (cbn; lia). eauto.
Qed.
End Checks.

Lemma pointer_offset_nonneg msg i lb lo :
  bytes msg -> 0 <= lb -> get msg i = Some lo -> 0 <= pointer_offset lb lo.
Proof.
  intros Hb H Hlo. pose proof (get_byte _ _ _ Hb Hlo) as Hlob. unfold is_byte in Hlob.
  apply Z.lor_nonneg. split; [|lia]. apply Z.shiftl_nonneg, Z.land_nonneg. lia.
Qed.

Lemma jumped_ok fuel msg p hops ls0 tgt tpos :
  bytes msg -> target ls0 tgt tpos -> 0 <= p < zlen msg -> 0 <= hops <= 255 ->
  (255 - hops) + (DNSNAMEBUFSIZE - tpos) < Z.of_nat fuel ->
  exists r, jumped fuel msg (zlen msg) p hops tgt tpos = Ret r /\
    read_result msg p ls0 tgt (fun h _ => hops + h <= 255) r.
Proof.
  intros Hb. revert p hops ls0 tgt tpos.
  induction fuel as [|fuel IH]; intros p hops ls0 tgt tpos Ht Hp Hh Hf.
  { pose proof (t_max _ _ _ Ht). lia. }
  cbn [jumped]. destruct (get_Some msg p Hp) as (lb & Hlb). rewrite Hlb. cbn [of_option].
  rewrite bind_Ret. pose proof (get_byte _ _ _ Hb Hlb) as Hlbb. unfold is_byte in Hlbb.
  destruct (Z.ltb_spec 63 lb) as [Hptr|Hlab].
  - destruct (Z.ltb_spec lb 192) as [Hbad|Hok]; [eauto using read_bad|].
    destruct (Z.leb_spec (zlen msg) (p + 1)) as [Hout|Hin]; [eauto using read_pointer_outside|].
    destruct (get_Some msg (p + 1)) as (lo & Hlo); [lia|]. rewrite Hlo. cbn [of_option].
    destruct (Z.ltb_spec 255 (hops + 1)) as [Hmany|Hfew].
    { eexists; split; [reflexivity|]. apply read_stop. intros ls h n Hn Hle _.
      apply (name_at_inv _ _ _ _ _ _ Hlb) in Hn.
      destruct Hn as [?|[?|(_ & lo' & h' & n' & _ & Hn & -> & _)]]; [lia..|].
      apply name_at_bounds in Hn. lia. }
    rewrite bind_Ret. pose proof (pointer_offset_nonneg _ _ lb lo Hb ltac:(lia) Hlo).
    destruct (Z.leb_spec (zlen msg) (pointer_offset lb lo)); [eauto using read_offset_outside|].
    destruct (IH (pointer_offset lb lo) (hops + 1) ls0 tgt tpos) as (r & -> & Hr); [done|lia..|].
    exists r. split; [done|]. eapply read_pointer; [eassumption..| |exact Hr]. intros; cbn; lia.
  - destruct (Z.eqb_spec lb 0) as [->|Hne].
    { destruct (read_zero msg p ls0 tgt tpos (fun h _ => hops + h <= 255) Hlb Ht)
        as (tgt' & -> & Hr); [lia|]. cbn [of_option]. rewrite bind_Ret. eauto. }
    destruct (store_length lb ls0 tgt tpos Ht) as (t0 & E0). rewrite E0. cbn [of_option].
    rewrite bind_Ret.
    destruct (Z.leb_spec (zlen msg) (p + 1 + lb)); [eauto using read_label_outside with lia|].
    destruct (Z.ltb_spec (DNSNAMEBUFSIZE - 1) (tpos + 1 + lb)); [eauto using read_full with lia|].
    destruct (step_label msg p lb ls0 tgt tpos Hb Hlb Ht) as
      (l & t1 & t2 & -> & Hl & Hld & E1 & E2 & Hlen & Ht2); [lia..|].
    rewrite E0 in E1. injection E1 as <-. rewrite E2, bind_Ret.
    destruct (IH (p + 1 + zlen l) hops (ls0 ++ [l]) t2 (tpos + 1 + zlen l)) as (r & -> & Hr);
      [done|lia..|]. exists r. split; [done|].
    eapply read_label; [eassumption..| |exact Hr]. intros; cbn; lia.
Qed.

Lemma jumped_rc fuel msg msgsz p hops tgt tpos rc :
  jumped fuel msg msgsz p hops tgt tpos = Ret (inl rc) -> rc = RC_FORMAT.
Proof.
  revert p hops tgt tpos. induction fuel as [|fuel IH]; intros p hops tgt tpos; cbn [jumped]; [done|].
  intros (lb & _ & E)%bind_Ret_inv. revert E.
  repeat (match goal with
    | |- (if ?b then _ else _) = _ -> _ => destruct b
    | |- Ret _ = Ret _ -> _ => intros E; injection E as <-; done
    | |- (_ ≫= _) = _ -> _ => intros (? & _ & E)%bind_Ret_inv; revert E
    | |- Ret _ = Ret _ -> _ => intros E; discriminate E
    end; try apply IH); done.
Qed.

Lemma direct_rc fuel msg msgsz p newsz tgt tpos rc :
  direct fuel msg msgsz p newsz tgt tpos = Ret (inl rc) -> rc = RC_FORMAT \/ rc = RC_TRUNC.
Proof.
  revert p newsz tgt tpos. induction fuel as [|fuel IH]; intros p newsz tgt tpos; cbn [direct]; [done|].
  intros (lb & _ & E)%bind_Ret_inv. revert E.
  repeat (match goal with
    | |- (if ?b then _ else _) = _ -> _ => destruct b
    | |- Ret _ = Ret _ -> _ => intros E; injection E as <-; tauto
    | |- (jumped _ _ _ _ _ _ _ ≫= _) = _ -> _ =>
        intros ([?|[? ?]] & E1 & E)%bind_Ret_inv; [apply jumped_rc in E1; subst|]; revert E
    | |- (_ ≫= _) = _ -> _ => intros (? & _ & E)%bind_Ret_inv; revert E
    end; try apply IH); done.
Qed.

Definition direct_result (msg : list Z) (p newsz : Z) (ls0 : list (list Z)) (tgt : list Z)
    (r : Z + list Z * Z * Z) : Prop :=
  match r with
  | inl rc => read_result msg p ls0 tgt (fun h n => h <= 255 /\ n <= newsz) (inl rc)
  | inr (tgt', len, rest) =>
      read_result msg p ls0 tgt (fun h n => h <= 255 /\ n <= newsz /\ rest = newsz - n)
        (inr (tgt', len))
  end.

Lemma direct_label msg p newsz l ls0 tgt tgt1 r :
  get msg p = Some (zlen l) -> label_ok l -> load msg (p + 1) (zlen l) = Some l ->
  length tgt1 = length tgt ->
  direct_result msg (p + 1 + zlen l) (newsz - 1 - zlen l) (ls0 ++ [l]) tgt1 r ->
  direct_result msg p newsz ls0 tgt r.
Proof.
  intros Hlb Hl Hld Hlen Hr. destruct r as [rc|[[t len] rest]];
    (eapply read_label; [eassumption..| |exact Hr]); intros; cbn; lia.
Qed.

Lemma direct_jump msg p newsz lb lo ls0 tgt tpos :
  bytes msg -> get msg p = Some lb -> 192 <= lb -> get msg (p + 1) = Some lo ->
  target ls0 tgt tpos -> pointer_offset lb lo < zlen msg -> 2 <= newsz ->
  exists r, (r ← jumped ROUNDS msg (zlen msg) (pointer_offset lb lo) 1 tgt tpos;
     match r with
     | inl rc => Ret (inl rc)
     | inr (tgt, tpos) => Ret (inr (tgt, tpos, newsz - 1 - 1))
     end) = Ret r /\ direct_result msg p newsz ls0 tgt r.
Proof.
  intros Hb Hlb H192 Hlo Ht Hin Hsz.
  pose proof (pointer_offset_nonneg _ _ lb lo Hb ltac:(lia) Hlo).
  destruct (jumped_ok ROUNDS msg (pointer_offset lb lo) 1 ls0 tgt tpos) as (r & -> & Hr);
    [done|done|lia|lia| |].
  { pose proof (t_pos _ _ _ Ht). unfold DNSNAMEBUFSIZE, ROUNDS. lia. }
  rewrite bind_Ret. destruct r as [rc|[t len]]; eexists; (split; [reflexivity|]);
    (eapply read_pointer; [eassumption..| |exact Hr]); intros; cbn; lia.
Qed.

Lemma direct_ok fuel msg p newsz ls0 tgt tpos :
  bytes msg -> target ls0 tgt tpos -> 0 <= p < zlen msg -> 1 <= newsz ->
  DNSNAMEBUFSIZE - tpos < Z.of_nat fuel ->
  exists r, direct fuel msg (zlen msg) p newsz tgt tpos = Ret r /\
    direct_result msg p newsz ls0 tgt r.
Proof.
  intros Hb. revert p newsz ls0 tgt tpos.
  induction fuel as [|fuel IH]; intros p newsz ls0 tgt tpos Ht Hp Hsz Hf.
  { pose proof (t_max _ _ _ Ht). lia. }
  cbn [direct]. destruct (get_Some msg p Hp) as (lb & Hlb). rewrite Hlb. cbn [of_option].
  rewrite bind_Ret. pose proof (get_byte _ _ _ Hb Hlb) as Hlbb. unfold is_byte in Hlbb.
  destruct (Z.ltb_spec 63 lb) as [Hptr|Hlab].
  - destruct (Z.ltb_spec lb 192); [eexists; split; [reflexivity|]; unfold direct_result; eauto using read_bad|].
    destruct (Z.eqb_spec (newsz - 1) 0) as [Hz|Hnz].
    { eexists; split; [reflexivity|]. apply read_stop. intros ls h n Hn [_ Hle] _.
      apply (name_at_inv _ _ _ _ _ _ Hlb) in Hn.
      destruct Hn as [?|[?|(_ & ? & ? & ? & _ & _ & _ & ->)]]; lia. }
    destruct (Z.leb_spec (zlen msg) (p + 1));
      [eexists; split; [reflexivity|]; unfold direct_result; eauto using read_pointer_outside|].
    destruct (get_Some msg (p + 1)) as (lo & Hlo); [lia|]. rewrite Hlo. cbn [of_option].
    rewrite bind_Ret. destruct (Z.leb_spec (zlen msg) (pointer_offset lb lo));
      [eexists; split; [reflexivity|]; unfold direct_result; eauto using read_offset_outside|].
    eapply direct_jump; eauto; lia.
  - destruct (Z.eqb_spec lb 0) as [->|Hne].
    { destruct (read_zero msg p ls0 tgt tpos
        (fun h n => h <= 255 /\ n <= newsz /\ newsz - 1 = newsz - n) Hlb Ht) as (tgt' & -> & Hr); [lia|].
      cbn [of_option]. rewrite bind_Ret. eauto. }
    destruct (store_length lb ls0 tgt tpos Ht) as (t0 & E0). rewrite E0. cbn [of_option].
    rewrite bind_Ret. destruct (Z.leb_spec (newsz - 1) lb).
    { eexists; split; [reflexivity|]. apply read_stop. intros ls h n Hn [_ Hle] _.
      apply (name_at_inv _ _ _ _ _ _ Hlb) in Hn.
      destruct Hn as [?|[(_ & l & ls' & n' & _ & _ & _ & _ & Hn & ->)|?]]; [lia| |lia].
      apply name_at_bounds in Hn. lia. }
    destruct (Z.leb_spec (zlen msg) (p + 1 + lb));
      [eexists; split; [reflexivity|]; unfold direct_result; eauto using read_label_outside with lia|].
    destruct (Z.ltb_spec (DNSNAMEBUFSIZE - 1) (tpos + 1 + lb));
      [eexists; split; [reflexivity|]; unfold direct_result; eauto using read_full with lia|].
    destruct (step_label msg p lb ls0 tgt tpos Hb Hlb Ht) as
      (l & t1 & t2 & -> & Hl & Hld & E1 & E2 & Hlen & Ht2); [lia..|].
    rewrite E0 in E1. injection E1 as <-. rewrite E2, bind_Ret.
    destruct (IH (p + 1 + zlen l) (newsz - 1 - zlen l) (ls0 ++ [l]) t2 (tpos + 1 + zlen l))
      as (r & -> & Hr); [done|lia..|]. exists r. split; [done|]. by eapply direct_label.
Qed.

Lemma decompress_spec msg src sz tgt :
  bytes msg -> 0 <= src <= zlen msg -> 0 <= sz -> DNSNAMEBUFSIZE <= zlen tgt ->
  exists r, decompress_name msg (zlen msg) src sz tgt = Ret r /\
    match r with
    | Decompressed src' sz' tgt' len => exists ls h n,
        name_at msg src ls h n /\ h <= 255 /\ n <= sz /\ name_ok ls /\
        src' = src + n /\ sz' = sz - n /\ len = zlen (wire ls) /\
        take (Z.to_nat len) tgt' = wire ls /\ length tgt' = length tgt
    | Failed rc => rc <> RC_OK /\
        forall ls h n, name_at msg src ls h n -> h <= 255 -> n <= sz -> ~ name_ok ls
    end.
Proof.
  intros Hb Hsrc Hsz Htgt. unfold decompress_name.
  destruct (Z.eqb_spec sz 0) as [->|Hne].
  { eexists; split; [reflexivity|]. split; [done|]. intros ls h n Hn _ Hle _.
    apply name_at_bounds in Hn. lia. }
  destruct (Z.leb_spec (zlen msg) src).
  { eexists; split; [reflexivity|]. split; [done|]. intros ls h n Hn _ Hle _.
    apply name_at_bounds in Hn. lia. }
  destruct (direct_ok ROUNDS msg src sz [] tgt 0 Hb (target_nil _ Htgt)) as (r & E & Hr); [lia|lia| |].
  { unfold DNSNAMEBUFSIZE, ROUNDS. lia. }
  rewrite E, bind_Ret. destruct r as [rc|[[t len] rest]]; eexists; (split; [reflexivity|]).
  - split; [by destruct (direct_rc _ _ _ _ _ _ _ _ E) as [-> | ->]|]. intros ls h n Hn Hh Hle [_ Hok].
    specialize (Hr ls h n Hn (conj Hh Hle)). cbn [app] in Hr. lia.
  - destruct Hr as (ls & h & n & Hn & (Hh & Hle & ->) & -> & Hlen & Ht & Hl). cbn [app] in *.
    pose proof (name_at_bounds _ _ _ _ _ Hn). exists ls, h, n.
    split; [done|]. split; [done|]. split; [done|]. split; [split; [tauto|done]|].
    split; [lia|]. split; [lia|]. done.
Qed.

(** C23: [decompress_name] on any message: every access stays inside the
    message and the buffer and the loops end; it succeeds exactly when the
    position holds a compressed name that is read with at most 255 jumps, fits
    into [DNSNAMEBUFSIZE] bytes and whose part at the position lies in the
    given [sz] bytes. Then the buffer starts with that (only) name and the
    source moves behind its part. *)
Theorem decompress_exact msg src sz tgt :
  bytes msg -> 0 <= src <= zlen msg -> 0 <= sz -> DNSNAMEBUFSIZE <= zlen tgt ->
  exists r, decompress_name msg (zlen msg) src sz tgt = Ret r /\
    match r with
    | Decompressed src' sz' tgt' len => exists ls h n,
        name_at msg src ls h n /\ h <= 255 /\ n <= sz /\ name_ok ls /\
        (forall ls' h' n', name_at msg src ls' h' n' -> ls' = ls) /\
        src' = src + n /\ sz' = sz - n /\ len = zlen (wire ls) /\
        take (Z.to_nat len) tgt' = wire ls /\ length tgt' = length tgt
    | Failed rc => rc <> RC_OK /\
        forall ls h n, name_at msg src ls h n -> h <= 255 -> n <= sz -> ~ name_ok ls
    end.
Proof.
  intros Hb Hs Hz Ht. destruct (decompress_spec msg src sz tgt Hb Hs Hz Ht) as (r & E & Hr).
  exists r. split; [done|]. destruct r as [src' sz' tgt' len|rc]; [|done].
  destruct Hr as (ls & h & n & Hn & H1 & H2 & H3 & Hrest). exists ls, h, n.
  split; [done|]. split; [done|]. split; [done|]. split; [done|]. split; [|done].
  intros ls' h' n' Hn'. by destruct (name_at_det _ _ _ _ _ _ _ _ Hn' Hn).
Qed.

(** "ab." at 0, then at 4 the name "c" followed by a pointer to 0. *)
Definition demo_msg : list Z := [2; 97; 98; 0; 1; 99; 192; 0].

Lemma decompress_exact_witness :
  exists src' sz' tgt' len, decompress_name demo_msg 8 4 4 demo_buf =
      Ret (Decompressed src' sz' tgt' len) /\ src' = 8 /\ sz' = 0 /\
    take (Z.to_nat len) tgt' = wire [[99]; [97; 98]].
Proof.
  destruct (decompress_exact demo_msg 4 4 demo_buf) as (r & E & Hr).
  - repeat constructor; done.
  - by vm_compute.
  - lia.
  - by vm_compute.
  - destruct r as [src' sz' tgt' len|rc]; [|by vm_compute in E].
    exists src', sz', tgt', len. split; [exact E|].
    vm_compute in E. injection E as <- <- <- <-. done.
Defined.

End Decompress.

(** * Compression *)
Module Compress.
Import Decompress.

(** An element of the compression list: where the name was put, the name. *)
Record compel_t := mkCompel { index : Z; s : list Z }.

(** The first two loops of [domain_match]: the length bytes of a name, and the
    offset of its final zero. *)
Fixpoint collect (fuel : nat) (m : list Z) (i : Z) (ls : list Z) : cres (list Z * Z) :=
  match fuel with
  | O => OutOfFuel
  | S fuel =>
      lb ← of_option (get m i);
      if lb =? 0 then Ret (ls, i)
      else _ ← assert (zlen ls <? 128);
           collect fuel m (i + (lb + 1)) (ls ++ [lb])
  end.

(** [for(;lb;--lb) if(tolower(ms[--i]) != tolower(md[--j])) goto mismatch;] *)
Fixpoint match_label (lb : nat) (ms md : list Z) (i j : Z) : cres bool :=
  match lb with
  | O => Ret true
  | S lb =>
      x ← of_option (get ms (i - 1));
      y ← of_option (get md (j - 1));
      if negb (tolower x =? tolower y) then Ret false
      else match_label lb ms md (i - 1) (j - 1)
  end.

(** The third loop; [rounds] counts [n-k+1]. The result is [k-1], [offs] and
    [offd]. *)
Fixpoint match_loop (rounds : nat) (ms md ls ld : list Z) (k i j : Z) : cres (Z * Z * Z) :=
  match rounds with
  | O => Ret (k - 1, i, j)
  | S rounds =>
      lb ← of_option (get ls (zlen ls - k));
      lb' ← of_option (get ld (zlen ld - k));
      if negb (lb =? lb') then Ret (k - 1, i, j)
      else same ← match_label (Z.to_nat lb) ms md i j;
           if negb same then Ret (k - 1, i, j)
           else match_loop rounds ms md ls ld (k + 1) (i - lb - 1) (j - lb - 1)
  end.

Definition domain_match (ms md : list Z) : cres (Z * Z * Z) :=
  '(ls, i) ← collect (S (length ms)) ms 0 [];
  '(ld, j) ← collect (S (length md)) md 0 [];
  match_loop (Nat.min (length ls) (length ld)) ms md ls ld 1 i j.

(** Part 1 of [compress_name]: the longest match with an offset that fits into
    a pointer; the state is [longest], [lrem], [coffs]. *)
Fixpoint best_match (cb : list compel_t) (inp : list Z) (longest lrem coffs : Z) :
    cres (Z * Z * Z) :=
  match cb with
  | [] => Ret (longest, lrem, coffs)
  | ci :: cb =>
      '(rv, rem, to) ← domain_match inp (s ci);
      let newoffs := index ci + to in
      if (longest <? rv) && (newoffs <=? 16383)
      then best_match cb inp rv rem newoffs
      else best_match cb inp longest lrem coffs
  end.

(** [out] is the memory behind the output pointer; [grows] is whether
    [dlist_grow] gets its memory. The result is the returned length, 0 for an
    error, the output and the list, which is freed on an error. *)
Definition compress_name (inp out : list Z) (offs : Z) (cb : list compel_t) (grows : bool) :
    cres (Z * list Z * list compel_t) :=
  ilen ← rhnlen inp;
  _ ← assert (ilen <=? DNSNAMEBUFSIZE);
  '(longest, lrem, coffs) ← best_match cb inp 0 0 0;
  '(out, rl, add) ←
    (if 0 <? longest then
       _ ← assert (lrem + 2 <=? ilen);
       bs ← of_option (load inp 0 lrem);
       out ← of_option (store out 0 bs);
       out ← of_option (store out lrem
               [u8 (Z.lor 192 (Z.shiftr (Z.land coffs 16128) 8)); u8 (Z.land coffs 255)]);
       Ret (out, lrem + 2, negb (lrem =? 0))
     else
       bs ← of_option (load inp 0 ilen);
       out ← of_option (store out 0 bs);
       Ret (out, ilen, true));
  if add : bool then
    if grows then
      bs ← of_option (load inp 0 ilen);
      Ret (rl, out, cb ++ [mkCompel offs bs])
    else Ret (0, out, [])
  else Ret (rl, out, cb).

(** ** The longest common end of two names *)

Fixpoint common (ra rb : list (list Z)) : nat :=
  match ra, rb with
  | x :: ra, y :: rb => if decide (same_label x y) then S (common ra rb) else O
  | _, _ => O
  end.
Definition match_count (a b : list (list Z)) : nat := common (rev a) (rev b).

Lemma common_le ra rb : (common ra rb <= length ra /\ common ra rb <= length rb)%nat.
Proof.
  revert rb. induction ra as [|x ra IH]; intros [|y rb]; cbn; try lia.
  destruct (decide (same_label x y)); cbn; [|lia]. specialize (IH rb). lia.
Qed.

Lemma match_count_le a b : (match_count a b <= length a /\ match_count a b <= length b)%nat.
Proof. unfold match_count. pose proof (common_le (rev a) (rev b)) as H. by rewrite !length_rev in H. Qed.

Lemma match_count_snoc a x b y :
  match_count (a ++ [x]) (b ++ [y]) =
  if decide (same_label x y) then S (match_count a b) else O.
Proof. unfold match_count. by rewrite !rev_app_distr. Qed.

Lemma match_count_nil_l b : match_count [] b = O.
Proof. done. Qed.
Lemma match_count_nil_r a : match_count a [] = O.
Proof. unfold match_count. cbn. by destruct (rev a). Qed.

(** The ends of that length are the same name, and no longer ends are. *)
Lemma match_count_same a b :
  same_name (drop (length a - match_count a b) a) (drop (length b - match_count a b) b).
Proof.
  revert b. induction a as [|x a IH] using rev_ind; intros b.
  { rewrite match_count_nil_l, Nat.sub_0_r, !drop_ge by (cbn; lia). constructor. }
  destruct b as [|y b _] using rev_ind.
  { rewrite match_count_nil_r, !Nat.sub_0_r, !drop_ge by (cbn; lia). constructor. }
  rewrite match_count_snoc. destruct (decide (same_label x y)) as [Hxy|].
  - rewrite !length_app. cbn [length]. specialize (IH b). pose proof (match_count_le a b).
    rewrite !Nat.add_1_r, !Nat.sub_succ, !drop_app_le by lia.
    apply Forall2_app; [exact IH|]. by constructor.
  - rewrite !Nat.sub_0_r, !drop_ge by lia. constructor.
Qed.

Lemma match_count_max a b i j :
  same_name (drop i a) (drop j b) -> (i <= length a)%nat -> (length a - i <= match_count a b)%nat.
Proof.
  revert b i j. induction a as [|x a IH] using rev_ind; intros b i j H Hi.
  { cbn in *. lia. }
  destruct (decide (i = length (a ++ [x]))) as [->|Hne]; [lia|].
  rewrite length_app in *. cbn [length] in *. rewrite drop_app_le in H by lia.
  apply Forall2_app_inv_l in H as (k1 & k2 & H1 & H2 & E).
  apply Forall2_cons_inv_l in H2 as (y & k & Hxy & Hnil & ->).
  apply Forall2_nil_inv_l in Hnil as ->.
  assert (exists b', b = b' ++ [y]) as (b' & ->).
  { exists (take (j + length k1) b). rewrite <- (take_drop j b) at 1. rewrite E, app_assoc. f_equal.
    rewrite <- take_take_drop, E, take_app_length. done. }
  rewrite match_count_snoc. destruct (decide (same_label x y)) as [_|]; [|done].
  enough (length a - i <= match_count a b')%nat by lia. apply (IH b' i j); [|lia].
  assert (Hj : (j <= length b')%nat).
  { apply (f_equal length) in E. rewrite length_drop, !length_app in E. cbn in E. lia. }
  rewrite drop_app_le in E by lia. by apply app_inj_tail in E as [-> _].
Qed.

(** ** [domain_match] finds it *)

Lemma collect_ok a rest pre acc fuel :
  Forall label_ok a -> zlen acc + zlen a <= 128 -> (length a < fuel)%nat ->
  collect fuel (pre ++ wire a ++ rest) (zlen pre) acc =
  Ret (acc ++ map (fun l => zlen l) a, zlen pre + zlen (wire_labels a)).
Proof.
  intros Ha. revert pre acc fuel. induction a as [|l a IH]; intros pre acc fuel Hn Hf;
    (destruct fuel as [|fuel]; [cbn in Hf; lia|]); cbn [collect].
  - rewrite get_wire_nil. cbn. by rewrite app_nil_r, Z.add_0_r.
  - pose proof (label_ok_len _ _ Ha). apply Forall_cons_1 in Ha as [_ Ha].
    rewrite get_wire_cons. cbn [of_option]. rewrite bind_Ret. cbn [length] in *.
    destruct (Z.eqb_spec (zlen l) 0); [lia|]. destruct (Z.ltb_spec (zlen acc) 128); [|lia].
    cbn [assert]. rewrite bind_Ret, wire_step.
    replace (zlen pre + (zlen l + 1)) with (zlen (pre ++ wire_label l))
      by (rewrite zlen_wire_label; lia).
    rewrite IH; [|done|llia|lia]. rewrite <- app_assoc, wire_labels_cons, zlen_wire_label.
    cbn. do 2 f_equal. llia.
Qed.

Lemma match_label_ok x y p p' q q' :
  length x = length y ->
  match_label (length x) (p ++ x ++ q) (p' ++ y ++ q') (zlen p + zlen x) (zlen p' + zlen y) =
  Ret (bool_decide (same_label x y)).
Proof.
  revert y q q'. induction x as [|c x IH] using rev_ind; intros y q q' E.
  { by destruct y. }
  destruct y as [|d y _] using rev_ind; [by rewrite length_app in E; cbn in E; lia|].
  rewrite !length_app in *. cbn [length] in *. rewrite Nat.add_1_r. cbn [match_label].
  replace (p ++ (x ++ [c]) ++ q) with ((p ++ x) ++ c :: q) by (by rewrite <- !app_assoc).
  replace (p' ++ (y ++ [d]) ++ q') with ((p' ++ y) ++ d :: q') by (by rewrite <- !app_assoc).
  rewrite !get_app_at by llia. cbn [of_option]. rewrite !bind_Ret.
  destruct (Z.eqb_spec (tolower c) (tolower d)) as [Ecd|Ecd]; cbn [negb].
  - rewrite <- !app_assoc.
    replace (zlen p + Z.of_nat (S (length x)) - 1) with (zlen p + zlen x) by lia.
    replace (zlen p' + Z.of_nat (length y + 1) - 1) with (zlen p' + zlen y) by lia.
    rewrite IH by lia. f_equal. apply bool_decide_ext. unfold same_label. rewrite !map_app. cbn [map].
    rewrite Ecd. split.
    + by intros ->.
    + by intros [? _]%app_inj_tail.
  - f_equal. symmetry. apply bool_decide_eq_false_2. unfold same_label. rewrite !map_app.
    by intros [_ ?]%app_inj_tail.
Qed.

(** Where the last [n] labels of a name start. *)
Definition end_offset (a : list (list Z)) (n : nat) : Z :=
  zlen (wire_labels (take (length a - n) a)).

Lemma wire_mid a1 x a2 rest :
  wire (a1 ++ [x] ++ a2) ++ rest = (wire_labels a1 ++ [zlen x]) ++ x ++ wire a2 ++ rest.
Proof.
  rewrite wire_app. cbn [app]. rewrite wire_cons, <- !app_assoc. cbn. by rewrite <- app_assoc.
Qed.

Lemma get_length a1 x a2 k :
  k = 1 + zlen a2 ->
  get (map (fun l => zlen l) (a1 ++ [x] ++ a2)) (zlen (map (fun l : list Z => zlen l) (a1 ++ [x] ++ a2)) - k)
  = Some (zlen x).
Proof. intros ->. rewrite length_map, map_app. cbn [map app]. apply get_app_at. llia. Qed.

Lemma end_offset_snoc a x n :
  (n <= length a)%nat -> end_offset (a ++ [x]) (S n) = end_offset a n.
Proof.
  intros H. unfold end_offset. rewrite length_app. cbn [length].
  rewrite Nat.add_1_r, Nat.sub_succ, take_app_le by lia. done.
Qed.

Lemma end_offset_0 a : end_offset a 0 = zlen (wire_labels a).
Proof. unfold end_offset. by rewrite Nat.sub_0_r, take_ge by lia. Qed.

Lemma match_loop_ok a1 b1 a2 b2 rest rest' :
  length a2 = length b2 ->
  match_loop (Nat.min (length a1) (length b1)) (wire (a1 ++ a2) ++ rest) (wire (b1 ++ b2) ++ rest')
    (map (fun l => zlen l) (a1 ++ a2)) (map (fun l => zlen l) (b1 ++ b2)) (1 + zlen a2)
    (zlen (wire_labels a1)) (zlen (wire_labels b1)) =
  let n := match_count a1 b1 in
  Ret (zlen a2 + Z.of_nat n, end_offset a1 n, end_offset b1 n).
Proof.
  revert b1 a2 b2. induction a1 as [|x a1 IH] using rev_ind; intros b1 a2 b2 E; cbv zeta.
  { rewrite match_count_nil_l, !end_offset_0. cbn. do 3 f_equal. lia. }
  destruct b1 as [|y b1 _] using rev_ind.
  { rewrite match_count_nil_r, !end_offset_0, Nat.min_0_r. cbn. do 3 f_equal. lia. }
  rewrite !length_app. cbn [length]. rewrite !Nat.add_1_r, <- Nat.succ_min_distr.
  cbn [match_loop]. rewrite <- !app_assoc.
  rewrite (get_length a1 x a2), (get_length b1 y b2) by lia. cbn [of_option]. rewrite !bind_Ret.
  rewrite match_count_snoc. pose proof (match_count_le a1 b1).
  destruct (Z.eqb_spec (zlen x) (zlen y)) as [El|El]; cbn [negb].
  2: { destruct (decide (same_label x y)) as [Hs%same_label_len|_]; [lia|].
       rewrite !end_offset_0. do 3 f_equal. lia. }
  rewrite Nat2Z.id, !wire_labels_snoc, !zlen_wire_label, !wire_mid.
  replace (match_label _ _ _ _ _) with (Ret (bool_decide (same_label x y))).
  2: { rewrite <- (match_label_ok x y (wire_labels a1 ++ [zlen x]) (wire_labels b1 ++ [zlen y])
         (wire a2 ++ rest) (wire b2 ++ rest')) by lia. f_equal; llia. }
  rewrite bind_Ret. destruct (decide (same_label x y)) as [Hs|Hs].
  - rewrite bool_decide_eq_true_2 by done. cbn [negb]. rewrite <- !wire_mid.
    replace (1 + zlen a2 + 1) with (1 + zlen ([x] ++ a2)) by llia.
    replace (zlen (wire_labels a1) + 1 + zlen x - zlen x - 1) with (zlen (wire_labels a1)) by lia.
    replace (zlen (wire_labels b1) + 1 + zlen y - zlen x - 1) with (zlen (wire_labels b1)) by lia.
    rewrite IH by (cbn; lia). cbv zeta. rewrite !end_offset_snoc by lia. do 3 f_equal. llia.
  - rewrite bool_decide_eq_false_2 by done. cbn [negb].
    rewrite !end_offset_0, !wire_labels_snoc, !zlen_wire_label. do 3 f_equal. lia.
Qed.

Lemma name_ok_labels a : name_ok a -> zlen a <= 127.
Proof.
  intros [Ha Hs]. unfold DNSNAMEBUFSIZE in Hs. rewrite length_wire in Hs.
  enough (2 * zlen a <= zlen (wire_labels a)) by lia. clear Hs.
  induction Ha as [|l a [_ Hl] _ IH]; [cbn; lia|]. rewrite wire_labels_cons. llia.
Qed.

Lemma domain_match_ok a b rest rest' :
  name_ok a -> name_ok b ->
  domain_match (wire a ++ rest) (wire b ++ rest') =
  let n := match_count a b in Ret (Z.of_nat n, end_offset a n, end_offset b n).
Proof.
  intros Ha Hb. unfold domain_match.
  pose proof (name_ok_labels _ Ha). pose proof (name_ok_labels _ Hb).
  pose proof (wire_length_ge a). pose proof (wire_length_ge b).
  pose proof (collect_ok a rest [] [] (S (length (wire a ++ rest))) (nm_labels _ Ha)) as Ea.
  pose proof (collect_ok b rest' [] [] (S (length (wire b ++ rest'))) (nm_labels _ Hb)) as Eb.
  cbn [app] in Ea, Eb. change (zlen []) with 0 in Ea, Eb.
  rewrite Ea by llia. rewrite bind_Ret. rewrite Eb by llia. rewrite bind_Ret.
  rewrite !length_map, !Z.add_0_l.
  pose proof (match_loop_ok a b [] [] rest rest' eq_refl) as E. rewrite !app_nil_r in E. exact E.
Qed.

(** ** The bytes of a pointer *)

Definition pointer_hi (coffs : Z) : Z := u8 (Z.lor 192 (Z.shiftr (Z.land coffs 16128) 8)).
Definition pointer_lo (coffs : Z) : Z := u8 (Z.land coffs 255).

Lemma pointer_bytes coffs :
  0 <= coffs <= 16383 ->
  192 <= pointer_hi coffs < 256 /\ 0 <= pointer_lo coffs < 256 /\
  pointer_offset (pointer_hi coffs) (pointer_lo coffs) = coffs.
Proof.
  intros H.
  assert (Hall : forallb (fun c => (192 <=? pointer_hi c) &&
    (pointer_offset (pointer_hi c) (pointer_lo c) =? c)) (seqZ 0 16384) = true) by by vm_compute.
  rewrite forallb_forall in Hall.
  assert (Hin : coffs ∈ seqZ 0 16384) by (apply elem_of_seqZ; lia).
  apply list_elem_of_In in Hin. specialize (Hall coffs Hin).
  apply andb_true_iff in Hall as [H1%Z.leb_le H2%Z.eqb_eq].
  pose proof (u8_range (Z.lor 192 (Z.shiftr (Z.land coffs 16128) 8))).
  pose proof (u8_range (Z.land coffs 255)). unfold pointer_hi, pointer_lo in *.
  split; [lia|]. split; [lia|done].
Qed.

(** ** The choice of the match *)

Definition elem_of_name (w : Z * list (list Z)) : compel_t := mkCompel w.1 (wire w.2).

(** Where the end that a written name shares with [ls] stands. *)
Definition match_at (ls : list (list Z)) (w : Z * list (list Z)) : Z :=
  w.1 + end_offset w.2 (match_count ls w.2).

(** The first of the written names with a longest usable match. *)
Definition chosen (ls : list (list Z)) (before : list (Z * list (list Z)))
    (w : Z * list (list Z)) (n : nat) : Prop :=
  n = match_count ls w.2 /\ match_at ls w <= 16383 /\
  forall w', w' ∈ before -> match_at ls w' <= 16383 -> (match_count ls w'.2 < n)%nat.

Lemma best_match_ok ws ls rest L lrem coffs :
  name_ok ls -> Forall (fun w : Z * list (list Z) => name_ok w.2) ws ->
  best_match (map elem_of_name ws) (wire ls ++ rest) (Z.of_nat L) lrem coffs =
    Ret (Z.of_nat L, lrem, coffs) \/
  exists ws1 w ws2 n, ws = ws1 ++ w :: ws2 /\ (L < n)%nat /\ chosen ls ws1 w n /\
    best_match (map elem_of_name ws) (wire ls ++ rest) (Z.of_nat L) lrem coffs =
    Ret (Z.of_nat n, end_offset ls n, match_at ls w).
Proof.
  intros Hls Hws. revert L lrem coffs. induction Hws as [|w ws Hw Hws IH]; intros L lrem coffs.
  { by left. }
  cbn [map best_match elem_of_name s index]. rewrite <- (app_nil_r (wire w.2)).
  rewrite domain_match_ok by done. cbv zeta. rewrite bind_Ret. cbn [fst snd].
  fold (match_at ls w). set (n := match_count ls w.2).
  destruct (Z.ltb_spec (Z.of_nat L) (Z.of_nat n)) as [HL|HL]; cbn [andb].
  1: destruct (Z.leb_spec (match_at ls w) 16383) as [Hm|Hm].
  - right. destruct (IH n (end_offset ls n) (match_at ls w)) as [E|(ws1 & w1 & ws2 & n1 & -> & Hn & Hc & E)].
    + exists [], w, ws, n. split; [done|]. split; [lia|]. split; [|done].
      split; [done|]. split; [done|]. intros w' Hw'. by apply elem_of_nil in Hw'.
    + exists (w :: ws1), w1, ws2, n1. split; [done|]. split; [lia|]. split; [|done].
      destruct Hc as (H1 & H2 & H3). split; [done|]. split; [done|].
      intros w' [->|Hw']%elem_of_cons; auto.
  - destruct (IH L lrem coffs) as [E|(ws1 & w1 & ws2 & n1 & -> & Hn & Hc & E)]; [by left|right].
    exists (w :: ws1), w1, ws2, n1. split; [done|]. split; [lia|]. split; [|done].
    destruct Hc as (H1 & H2 & H3). split; [done|]. split; [done|].
    intros w' [->|Hw']%elem_of_cons; [lia|auto].
  - destruct (IH L lrem coffs) as [E|(ws1 & w1 & ws2 & n1 & -> & Hn & Hc & E)]; [by left|right].
    exists (w :: ws1), w1, ws2, n1. split; [done|]. split; [lia|]. split; [|done].
    destruct Hc as (H1 & H2 & H3). split; [done|]. split; [done|].
    intros w' [->|Hw']%elem_of_cons; [fold n; lia|auto].
Qed.

(** ** The names of a packet *)

(** A name that was put into the packet and into the list: where, the name,
    and how many of its labels stand there before the zero or the pointer. *)
Record written := mkWritten { w_at : Z; w_name : list (list Z); w_inline : nat }.

Definition w_elem (w : written) : Z * list (list Z) := (w_at w, w_name w).
Definition inline_end (w : written) : Z :=
  w_at w + zlen (wire_labels (take (w_inline w) (w_name w))).
Definition label_at (w : written) (m : nat) : Z :=
  w_at w + zlen (wire_labels (take m (w_name w))).

(** The rest of the name: a zero, or a pointer to a label of an earlier one. *)
Definition rest_ok (msg : list Z) (earlier : list written) (w : written) : Prop :=
  if decide (w_inline w = length (w_name w)) then get msg (inline_end w) = Some 0
  else (0 < w_inline w)%nat /\ exists w0 m, w0 ∈ earlier /\ (m < w_inline w0)%nat /\
    same_name (drop m (w_name w0)) (drop (w_inline w) (w_name w)) /\
    label_at w0 m <= 16383 /\
    get msg (inline_end w) = Some (pointer_hi (label_at w0 m)) /\
    get msg (inline_end w + 1) = Some (pointer_lo (label_at w0 m)).

Record entry_ok (msg : list Z) (earlier : list written) (w : written) : Prop := {
  e_name : name_ok (w_name w);
  e_inline : (w_inline w <= length (w_name w))%nat;
  e_at : 0 <= w_at w;
  e_labels : let ks := wire_labels (take (w_inline w) (w_name w)) in
    load msg (w_at w) (zlen ks) = Some ks;
  e_after : forall w', w' ∈ earlier -> inline_end w' < w_at w;
  e_rest : rest_ok msg earlier w;
}.

Inductive packet_ok (msg : list Z) : list written -> Prop :=
| packet_nil : packet_ok msg []
| packet_snoc G w : packet_ok msg G -> entry_ok msg G w -> packet_ok msg (G ++ [w]).

Lemma get_app_some (msg more : list Z) i c : get msg i = Some c -> get (msg ++ more) i = Some c.
Proof. intros H. rewrite get_app_l; [done|]. apply get_lt in H. lia. Qed.

Lemma load_app_some (msg more : list Z) i n bs :
  load msg i n = Some bs -> load (msg ++ more) i n = Some bs.
Proof.
  unfold load. destruct (inside msg i n) eqn:E; [|done]. apply inside_spec in E. intros [= <-].
  replace (inside (msg ++ more) i n) with true by (symmetry; apply inside_spec; llia).
  f_equal. unfold slice. by rewrite drop_app_le, take_app_le by llia.
Qed.

Lemma entry_ok_app msg more G w : entry_ok msg G w -> entry_ok (msg ++ more) G w.
Proof.
  intros [H1 H2 H3 H4 H5 H6]. split; auto; [by apply load_app_some|].
  unfold rest_ok in *. destruct (decide _); [by apply get_app_some|].
  destruct H6 as (Hk & w0 & m & ? & ? & ? & ? & ? & ?). split; [done|].
  exists w0, m. eauto 10 using get_app_some.
Qed.

Lemma packet_ok_app msg more G : packet_ok msg G -> packet_ok (msg ++ more) G.
Proof. induction 1; constructor; auto using entry_ok_app. Qed.

(** Labels in place, then a name. *)
Lemma inline_name_at msg ks p ls h n :
  Forall label_ok ks -> load msg p (zlen (wire_labels ks)) = Some (wire_labels ks) ->
  name_at msg (p + zlen (wire_labels ks)) ls h n ->
  name_at msg p (ks ++ ls) h (zlen (wire_labels ks) + n).
Proof.
  intros Hks. revert p. induction Hks as [|l ks Hl Hks IH]; intros p Hld Hn.
  { cbn in *. by rewrite Z.add_0_r in Hn. }
  rewrite wire_labels_cons in *. destruct (load_cons _ _ _ _ Hld) as [Hg Hld'].
  assert (Hparts : load msg (p + 1) (zlen l) = Some l /\
    load msg (p + 1 + zlen l) (zlen (wire_labels ks)) = Some (wire_labels ks)).
  { unfold load in *. destruct (inside msg (p + 1) _) eqn:E in Hld'; [|done].
    apply inside_spec in E. rewrite length_app in E. injection Hld' as Hsl.
    replace (inside msg (p + 1) (zlen l)) with true by (symmetry; apply inside_spec; lia).
    replace (inside msg (p + 1 + zlen l) (zlen (wire_labels ks))) with true
      by (symmetry; apply inside_spec; lia).
    rewrite length_app, Nat2Z.inj_add, slice_app in Hsl by lia.
    apply app_inj_1 in Hsl as [-> ->]; [done|].
    pose proof (length_slice msg (p + 1) (zlen l)). lia. }
  destruct Hparts as [H1 H2]. cbn [app].
  replace (zlen (zlen l :: l ++ wire_labels ks) + n)
    with (1 + zlen l + (zlen (wire_labels ks) + n)) by llia.
  constructor; [done|done|done|]. apply IH; [done|].
  replace (p + 1 + zlen l + zlen (wire_labels ks))
    with (p + zlen (zlen l :: l ++ wire_labels ks)) by llia.
  done.
Qed.

(** A later part of labels in place. *)
Lemma load_labels_drop msg p ks m :
  load msg p (zlen (wire_labels ks)) = Some (wire_labels ks) ->
  load msg (p + zlen (wire_labels (take m ks))) (zlen (wire_labels (drop m ks))) =
  Some (wire_labels (drop m ks)).
Proof.
  intros H. rewrite <- (take_drop m ks) in H. rewrite wire_labels_app in H.
  set (x := wire_labels (take m ks)) in *. set (y := wire_labels (drop m ks)) in *.
  unfold load in *. destruct (inside msg p _) eqn:E in H; [|done].
  apply inside_spec in E. rewrite length_app in E. injection H as H.
  replace (inside msg (p + zlen x) (zlen y)) with true by (symmetry; apply inside_spec; lia).
  rewrite length_app, Nat2Z.inj_add, slice_app in H by lia.
  apply app_inj_1 in H as [_ ->]; [done|]. pose proof (length_slice msg p (zlen x)). lia.
Qed.

Lemma same_name_length a b : same_name a b -> length a = length b.
Proof. apply Forall2_length. Qed.

Lemma name_at_pointer msg p coffs ls h n :
  0 <= coffs <= 16383 -> get msg p = Some (pointer_hi coffs) ->
  get msg (p + 1) = Some (pointer_lo coffs) -> name_at msg coffs ls h n ->
  name_at msg p ls (h + 1) 2.
Proof.
  intros Hc H1 H2 Hn. destruct (pointer_bytes coffs Hc) as (Hhi & _ & E).
  econstructor; [exact H1|lia|exact H2|]. rewrite E. exact Hn.
Qed.

(** Reading from a label in place of an entry gives the rest of its name. *)
Lemma entry_name_step msg earlier w m :
  entry_ok msg earlier w -> (m <= w_inline w)%nat ->
  (forall w0 m0, w0 ∈ earlier -> (m0 < w_inline w0)%nat ->
     exists ls h n, name_at msg (label_at w0 m0) ls h n /\
       same_name ls (drop m0 (w_name w0)) /\ h < zlen (drop m0 (w_name w0))) ->
  (forall w0, w0 ∈ earlier -> 0 <= w_at w0) ->
  exists ls h, name_at msg (label_at w m) ls h
      (inline_end w - label_at w m +
       if decide (w_inline w = length (w_name w)) then 1 else 2) /\
    same_name ls (drop m (w_name w)) /\ h <= zlen (drop (w_inline w) (w_name w)).
Proof.
  intros [H1 H2 H3 H4 H5 H6] Hm IH Hat. set (k := w_inline w) in *. cbv zeta in H4.
  pose proof (load_labels_drop _ _ _ m H4) as Hld. rewrite take_take, Nat.min_l in Hld by lia.
  set (ks := drop m (take k (w_name w))) in *.
  assert (Hks : Forall label_ok ks) by (apply Forall_drop, Forall_take, H1).
  assert (Epos : label_at w m + zlen (wire_labels ks) = inline_end w).
  { unfold label_at, inline_end, ks. fold k. rewrite <- (take_drop m (take k (w_name w))) at 2.
    rewrite wire_labels_app, take_take, Nat.min_l by lia. llia. }
  assert (Edrop : drop m (w_name w) = ks ++ drop k (w_name w)).
  { unfold ks. rewrite <- (take_drop k (w_name w)) at 1. apply drop_app_le. llia. }
  unfold rest_ok in H6. fold k in H6. destruct (decide (k = length (w_name w))) as [Ek|Ek].
  - exists (ks ++ []), 0. rewrite <- Epos, Z.add_simpl_l.
    split; [apply inline_name_at; [done|done|]; constructor; by rewrite Epos|].
    rewrite Edrop, Ek, drop_ge by lia. split; [reflexivity|cbn; lia].
  - destruct H6 as (_ & w0 & m0 & Hw0 & Hm0 & Hsame & Hoff & Hhi & Hlo).
    destruct (IH w0 m0 Hw0 Hm0) as (ls & h & n & Hn & Hs & Hh).
    exists (ks ++ ls), (h + 1). split.
    + rewrite <- Epos, Z.add_simpl_l. apply inline_name_at; [done|done|]. rewrite Epos.
      eapply name_at_pointer; eauto. split; [|done].
      unfold label_at. specialize (Hat _ Hw0). lia.
    + rewrite Edrop. apply same_name_length in Hsame as Hl. split; [|lia].
      apply Forall2_app; [reflexivity|]. by etrans.
Qed.

Lemma entry_name msg G :
  packet_ok msg G ->
  (forall w0, w0 ∈ G -> 0 <= w_at w0) /\
  forall w m, w ∈ G -> (m < w_inline w)%nat ->
  exists ls h n, name_at msg (label_at w m) ls h n /\ same_name ls (drop m (w_name w)) /\
    h < zlen (drop m (w_name w)).
Proof.
  induction 1 as [|G w HG [IHat IH] Hw].
  { split; intros w; [intros Hw|intros m Hw]; by apply elem_of_nil in Hw. }
  split.
  - intros w0 [Hw0|Hw0%list_elem_of_singleton]%elem_of_app; [auto|subst; apply Hw].
  - intros w' m [Hw'|Hw'%list_elem_of_singleton]%elem_of_app Hm; [auto|subst w'].
    destruct (entry_name_step msg G w m Hw ltac:(lia) IH IHat) as (ls & h & Hn & Hs & Hh).
    eexists ls, h, _. split; [exact Hn|]. split; [done|].
    pose proof (e_inline _ _ _ Hw). rewrite length_drop in *. lia.
Qed.

(** ** The first occurrence is in place *)

Lemma packet_ok_split msg G1 w G2 :
  packet_ok msg (G1 ++ w :: G2) -> packet_ok msg G1 /\ entry_ok msg G1 w.
Proof.
  revert G1 w. induction G2 as [|x G2 IH] using rev_ind; intros G1 w H.
  - inversion H as [E|G w' HG Hw E]; [by destruct G1|]. by apply app_inj_tail in E as [-> ->].
  - apply IH. rewrite app_comm_cons, app_assoc in H.
    inversion H as [E|G w' HG Hw E]; [by destruct G1|]. by apply app_inj_tail in E as [-> _].
Qed.

Lemma same_name_wire a b : same_name a b -> length (wire_labels a) = length (wire_labels b).
Proof.
  induction 1 as [|x y a b Hxy _ IH]; [done|]. apply same_label_len in Hxy.
  rewrite !wire_labels_cons. llia.
Qed.

Lemma wire_labels_take_le a i j :
  (i <= j)%nat -> zlen (wire_labels (take i a)) <= zlen (wire_labels (take j a)).
Proof.
  intros H. replace i with (Nat.min i j) by lia. rewrite <- take_take.
  rewrite <- (take_drop i (take j a)) at 2. rewrite wire_labels_app. llia.
Qed.

Lemma wire_labels_take_add a i d :
  zlen (wire_labels (take (i + d) a)) =
  zlen (wire_labels (take i a)) + zlen (wire_labels (take d (drop i a))).
Proof. rewrite <- take_take_drop, wire_labels_app. llia. Qed.

(** The comment in [compress_name]: "the first occurence can't be compressed". *)
Lemma first_occurrence msg G1 w ls n :
  entry_ok msg G1 w -> chosen ls (map w_elem G1) (w_elem w) n -> (0 < n)%nat ->
  (length (w_name w) - n < w_inline w)%nat.
Proof.
  intros [_ Hk _ _ Hafter Hrest] (En & Hoff & Hfirst) Hn. cbn in En.
  destruct (decide (length (w_name w) - n < w_inline w)%nat) as [|Hge]; [done|exfalso].
  pose proof (match_count_le ls (w_name w)) as [Hn1 Hn2].
  pose proof (match_count_same ls (w_name w)) as Hsame. rewrite <- En in Hn1, Hn2, Hsame.
  unfold rest_ok in Hrest. destruct (decide _) as [Ek|Ek]; [lia|].
  destruct Hrest as (_ & w0 & m0 & Hw0 & Hm0 & Hs0 & _).
  set (k := w_inline w) in *. set (m := (length (w_name w) - n)%nat) in *.
  assert (Hdrop : same_name (drop (length ls - n) ls) (drop (m0 + (m - k)) (w_name w0))).
  { rewrite <- drop_drop. etrans; [exact Hsame|]. symmetry.
    replace m with (k + (m - k))%nat at 2 by lia. rewrite <- drop_drop. by apply Forall2_drop. }
  pose proof (match_count_max _ _ _ _ Hdrop ltac:(lia)) as Hmax.
  assert (Hl0 : (length (w_name w0) - n = m0 + (m - k))%nat).
  { apply same_name_length in Hdrop. rewrite !length_drop in Hdrop. lia. }
  specialize (Hfirst (w_elem w0) (list_elem_of_fmap_2 w_elem G1 w0 Hw0)). cbn in Hfirst.
  enough (match_at ls (w_elem w0) <= 16383) by (specialize (Hfirst H); lia).
  etrans; [|exact Hoff]. unfold match_at, end_offset. cbn [w_elem fst snd]. rewrite <- En. fold m.
  etrans. { apply Z.add_le_mono_l, (wire_labels_take_le _ _ (m0 + (m - k))). lia. }
  replace m with (k + (m - k))%nat at 2 by lia. rewrite !wire_labels_take_add.
  assert (E : zlen (wire_labels (take (m - k) (drop m0 (w_name w0)))) =
              zlen (wire_labels (take (m - k) (drop k (w_name w))))).
  { f_equal. apply same_name_wire. by apply Forall2_take. }
  specialize (Hafter w0 Hw0). unfold inline_end in Hafter.
  pose proof (wire_labels_take_le (w_name w0) m0 (w_inline w0) ltac:(lia)). lia.
Qed.

(** ** [compress_name] keeps the packet readable *)

Definition list_of (G : list written) : list compel_t := map elem_of_name (map w_elem G).

Lemma inline_end_inside msg G w : packet_ok msg G -> w ∈ G -> inline_end w < zlen msg.
Proof.
  intros HG (G1 & G2 & ->)%list_elem_of_split. apply packet_ok_split in HG as [_ [_ _ _ _ _ Hr]].
  unfold rest_ok in Hr. destruct (decide _); [apply get_lt in Hr; lia|].
  destruct Hr as (_ & w0 & m & _ & _ & _ & _ & Hg & _). apply get_lt in Hg. lia.
Qed.

Lemma packet_names msg G :
  packet_ok msg G -> Forall (fun w : Z * list (list Z) => name_ok w.2) (map w_elem G).
Proof.
  induction 1 as [|G w _ IH Hw]; [constructor|]. rewrite map_app. apply Forall_app.
  split; [done|]. constructor; [apply Hw|constructor].
Qed.

(** A name put at the end of the packet: [k] labels, then [tail]. *)
Lemma new_entry msg G ls k tail :
  packet_ok msg G -> name_ok ls -> (k <= length ls)%nat ->
  let bs := wire_labels (take k ls) ++ tail in
  let w := mkWritten (zlen msg) ls k in
  rest_ok (msg ++ bs) G w -> entry_ok (msg ++ bs) G w.
Proof.
  intros HG Hls Hk bs w Hr. split; auto; cbn [w_at w_name w_inline w].
  - lia.
  - unfold bs. rewrite load_Some by llia. f_equal. by apply slice_mid.
  - intros w' Hw'. by eapply inline_end_inside.
Qed.

Lemma rest_get msg ls k tail i :
  (k <= length ls)%nat -> 0 <= i ->
  get (msg ++ wire_labels (take k ls) ++ tail) (inline_end (mkWritten (zlen msg) ls k) + i) =
  get tail i.
Proof.
  intros Hk Hi. unfold inline_end. cbn [w_at w_name w_inline]. rewrite app_assoc, get_app_r by llia. f_equal. llia.
Qed.

(** What a call leaves: [bs] was appended to the packet. *)
Definition appended (msg : list Z) (G : list written) (ls : list (list Z)) (bs : list Z)
    (G' : list written) : Prop :=
  packet_ok (msg ++ bs) G' /\ bytes bs /\ 1 <= zlen bs <= zlen (wire ls) /\
  exists ls' h, name_at (msg ++ bs) (zlen msg) ls' h (zlen bs) /\ same_name ls' ls /\ h <= zlen ls.

Lemma append_entry msg G ls k tail :
  packet_ok msg G -> name_ok ls -> (k <= length ls)%nat ->
  (0 < k \/ k = length ls)%nat -> bytes tail ->
  zlen tail = (if decide (k = length ls) then 1 else 2) ->
  let bs := wire_labels (take k ls) ++ tail in
  let w := mkWritten (zlen msg) ls k in
  rest_ok (msg ++ bs) G w -> appended msg G ls bs (G ++ [w]).
Proof.
  intros HG Hls Hk Hk0 Hbt Htail bs w Hr.
  pose proof (new_entry msg G ls k tail HG Hls Hk Hr) as Hw. fold bs w in Hw.
  pose proof (packet_ok_app _ bs _ HG) as HG'. split; [by constructor|].
  split; [apply bytes_app; split; [by apply bytes_wire_labels, Forall_take, Hls|done]|].
  assert (Hbs : zlen bs = zlen (wire_labels (take k ls)) + zlen tail) by (unfold bs; llia).
  split.
  - assert (Hsum : length (wire_labels ls) =
      (length (wire_labels (take k ls)) + length (wire_labels (drop k ls)))%nat)
      by (by rewrite <- length_app, <- wire_labels_app, take_drop).
    rewrite length_wire. destruct (decide (k = length ls)); [lia|].
    destruct (drop k ls) as [|l r] eqn:Ed.
    { apply (f_equal length) in Ed. rewrite length_drop in Ed. cbn in Ed. lia. }
    rewrite wire_labels_cons in Hsum. llia.
  - destruct (entry_name _ _ HG') as [Hat Hen].
    destruct (entry_name_step _ _ _ 0 Hw ltac:(cbn; lia) Hen Hat) as (ls' & h & Hn & Hs & Hh).
    exists ls', h. cbn [w_name w_inline w] in *. rewrite drop_0 in Hs.
    split; [|split; [done|rewrite length_drop in Hh; lia]].
    unfold label_at, inline_end in Hn. cbn [w_at w_name w_inline w] in Hn.
    rewrite take_0 in Hn. cbn in Hn. rewrite !Z.add_0_r in Hn.
    replace (zlen bs) with (zlen msg + zlen (wire_labels (take k ls)) - zlen msg +
      (if decide (k = length ls) then 1 else 2)) by lia. exact Hn.
Qed.

(** The output of the pointer branch. *)
Lemma pointer_out ls k out coffs rest :
  (k < length ls)%nat -> zlen (wire ls) <= zlen out ->
  let ks := wire_labels (take k ls) in
  exists out1 out2, load (wire ls ++ rest) 0 (zlen ks) = Some ks /\
    store out 0 ks = Some out1 /\
    store out1 (zlen ks) [pointer_hi coffs; pointer_lo coffs] = Some out2 /\
    zlen ks + 2 <= zlen (wire ls) /\
    take (Z.to_nat (zlen ks + 2)) out2 = ks ++ [pointer_hi coffs; pointer_lo coffs].
Proof.
  intros Hk Hout ks.
  assert (Ew : exists tl, wire ls = ks ++ tl /\ 2 <= zlen tl).
  { exists (wire (drop k ls)). split; [unfold ks; by rewrite <- wire_app, take_drop|].
    destruct (drop k ls) as [|l r] eqn:Ed.
    - apply (f_equal length) in Ed. rewrite length_drop in Ed. cbn in Ed. lia.
    - rewrite wire_cons. pose proof (length_wire r). llia. }
  destruct Ew as (tl & Ew & Htl).
  assert (Hlen : zlen ks + 2 <= zlen (wire ls)) by (rewrite Ew; llia).
  rewrite load_Some by llia. rewrite store_Some by lia.
  eexists _, _. split; [|split; [done|]].
  - f_equal. rewrite Ew, <- app_assoc. by apply (slice_mid []).
  - rewrite store_Some by (rewrite ?length_splice; cbn; lia). split; [done|]. split; [done|].
    change (zlen ks) with (0 + zlen ks) at 2. rewrite splice_splice_adj by (cbn; lia).
    change (zlen ks + 2) with (0 + zlen ks + zlen [pointer_hi coffs; pointer_lo coffs]).
    replace (0 + zlen ks + zlen [pointer_hi coffs; pointer_lo coffs])
      with (0 + zlen (ks ++ [pointer_hi coffs; pointer_lo coffs])) by llia.
    rewrite take_splice by llia. done.
Qed.

Lemma lrem_zero ls k :
  (k <= length ls)%nat -> (zlen (wire_labels (take k ls)) =? 0) = (k =? 0)%nat.
Proof.
  intros Hk. destruct k as [|k]; [by rewrite take_0|].
  destruct ls as [|l ls]; [cbn in Hk; lia|]. cbn [take]. rewrite wire_labels_cons. done.
Qed.

(** A name put at the end of the packet with a pointer into an earlier one. *)
Lemma append_pointer msg G ls k w m :
  packet_ok msg G -> name_ok ls -> (k < length ls)%nat -> w ∈ G -> (m < w_inline w)%nat ->
  same_name (drop k ls) (drop m (w_name w)) -> label_at w m <= 16383 ->
  appended msg G ls
    (wire_labels (take k ls) ++ [pointer_hi (label_at w m); pointer_lo (label_at w m)])
    (if (k =? 0)%nat then G else G ++ [mkWritten (zlen msg) ls k]).
Proof.
  intros HG Hls Hk Hw Hm Hsame Hoff. set (bs := wire_labels (take k ls) ++ _).
  assert (Hget : forall i, 0 <= i -> get (msg ++ bs)
    (inline_end (mkWritten (zlen msg) ls k) + i) =
    get [pointer_hi (label_at w m); pointer_lo (label_at w m)] i)
    by (intros i Hi; apply rest_get; lia).
  assert (Hpb : bytes [pointer_hi (label_at w m); pointer_lo (label_at w m)]).
  { destruct (entry_name _ _ HG) as [Hat _]. specialize (Hat _ Hw).
    destruct (pointer_bytes (label_at w m)) as (? & ? & _); [unfold label_at in *; lia|].
    repeat constructor; unfold is_byte; lia. }
  destruct (Nat.eqb_spec k 0) as [->|Hk0].
  - pose proof (packet_ok_app _ bs _ HG) as HG'. split; [done|].
    split; [apply bytes_app; split; [by constructor|apply Hpb]|].
    destruct (entry_name _ _ HG') as [Hat Hen].
    destruct (Hen w m Hw Hm) as (ls' & h & n & Hn & Hs & Hh).
    apply same_name_length in Hsame as Hl. rewrite drop_0 in Hsame, Hl.
    split; [|exists ls', (h + 1); split; [|split; [by etrans|lia]]].
    + unfold bs. cbn. destruct ls as [|l ls]; [cbn in Hk; lia|]. rewrite wire_cons.
      pose proof (length_wire ls). llia.
    + change (zlen bs) with 2. unfold inline_end in Hget. cbn [w_at w_name w_inline] in Hget.
      rewrite take_0 in Hget. change (zlen (wire_labels [])) with 0 in Hget.
      pose proof (Hget 0 ltac:(lia)) as H0. pose proof (Hget 1 ltac:(lia)) as H1.
      rewrite !Z.add_0_r in H0. rewrite Z.add_0_r in H1.
      eapply name_at_pointer; [|exact H0|exact H1|exact Hn].
      split; [|done]. unfold label_at. specialize (Hat _ Hw). lia.
  - apply append_entry; [done|done|lia|lia|done|destruct (decide (k = length ls)); [lia|done]|].
    unfold rest_ok. cbn [w_inline w_name]. destruct (decide _); [lia|]. split; [lia|].
    exists w, m. split; [done|]. split; [done|]. split; [by symmetry|]. split; [done|].
    split; [|by apply (Hget 1)].
    pose proof (Hget 0 ltac:(lia)) as H0. by rewrite Z.add_0_r in H0.
Qed.

(** A name without compression. *)
Lemma append_whole msg G ls : packet_ok msg G -> name_ok ls ->
  appended msg G ls (wire ls) (G ++ [mkWritten (zlen msg) ls (length ls)]).
Proof.
  intros HG Hls. pose proof (append_entry msg G ls (length ls) [0] HG Hls) as Ha. cbv zeta in Ha.
  rewrite take_ge in Ha by lia. apply Ha; auto; [repeat constructor; done|by destruct (decide _)|].
  pose proof (rest_get msg ls (length ls) [0] 0) as Hg. rewrite take_ge, Z.add_0_r in Hg by lia.
  unfold rest_ok. cbn [w_inline w_name]. destruct (decide _); [|done]. by rewrite Hg by lia.
Qed.

Lemma compress_ok msg G ls rest out :
  packet_ok msg G -> name_ok ls -> zlen (wire ls) <= zlen out ->
  exists rl out' G',
    compress_name (wire ls ++ rest) out (zlen msg) (list_of G) true = Ret (rl, out', list_of G') /\
    rl = zlen (take (Z.to_nat rl) out') /\ appended msg G ls (take (Z.to_nat rl) out') G'.
Proof.
  intros HG Hls Hout. unfold compress_name, list_of.
  rewrite rhnlen_wire by apply Hls. rewrite bind_Ret.
  destruct (Z.leb_spec (zlen (wire ls)) DNSNAMEBUFSIZE); [|by destruct Hls; lia].
  cbn [assert]. rewrite bind_Ret.
  assert (Hloadall : load (wire ls ++ rest) 0 (zlen (wire ls)) = Some (wire ls)).
  { rewrite load_Some by llia. f_equal. by apply (slice_mid []). }
  destruct (best_match_ok (map w_elem G) ls rest 0 0 0 Hls (packet_names _ _ HG))
    as [E|(ws1 & we & ws2 & n & EG & Hn & Hch & E)];
    change (Z.of_nat 0) with 0 in E; rewrite E, bind_Ret.
  - (* no match: the whole name is written *)
    cbn [Z.ltb]. change (0 <? 0) with false. cbv iota.
    rewrite Hloadall. cbn [of_option]. rewrite bind_Ret, store_Some by lia. cbn [of_option].
    rewrite !bind_Ret. eexists _, _, (G ++ [mkWritten (zlen msg) ls (length ls)]).
    split; [by rewrite !map_app|].
    replace (zlen (wire ls)) with (0 + zlen (wire ls)) by lia. rewrite take_splice by lia.
    change (take (Z.to_nat 0) out) with (@nil Z). cbn [app]. split; [done|].
    by apply append_whole.
  - (* a pointer to the first of the longest matches *)
    destruct (Z.ltb_spec 0 (Z.of_nat n)); [|lia].
    apply map_eq_app in EG as (G1 & G2' & -> & <- & EG).
    apply map_eq_cons in EG as (w & G2 & -> & <- & <-).
    destruct (packet_ok_split _ _ _ _ HG) as [_ Hw].
    pose proof (first_occurrence _ _ _ _ _ Hw Hch Hn) as Hin.
    destruct Hch as (En & Hoff & _). cbn in En.
    set (m := (length (w_name w) - n)%nat) in *. set (k := (length ls - n)%nat).
    pose proof (match_count_le ls (w_name w)) as [Hn1 Hn2].
    pose proof (match_count_same ls (w_name w)) as Hsame. rewrite <- En in Hn1, Hn2, Hsame.
    fold k m in Hsame.
    assert (Ecoffs : match_at ls (w_elem w) = label_at w m)
      by (unfold match_at, end_offset; cbn [w_elem fst snd]; by rewrite <- En).
    rewrite Ecoffs in *. change (end_offset ls n) with (zlen (wire_labels (take k ls))).
    destruct (pointer_out ls k out (label_at w m) rest) as (o1 & o2 & E1 & E2 & E3 & Hfit & Hout2);
      [unfold k; lia|done|].
    destruct (Z.leb_spec (zlen (wire_labels (take k ls)) + 2) (zlen (wire ls))); [|lia].
    cbn [assert]. rewrite bind_Ret, E1. cbn [of_option]. rewrite bind_Ret, E2. cbn [of_option].
    unfold pointer_hi, pointer_lo in E3. rewrite bind_Ret, E3. cbn [of_option]. rewrite !bind_Ret.
    pose proof (append_pointer msg (G1 ++ w :: G2) ls k w m HG Hls ltac:(unfold k; lia)
      ltac:(apply elem_of_app; right; by left) Hin Hsame Hoff) as Happ. rewrite <- Hout2 in Happ.
    assert (Erl : zlen (wire_labels (take k ls)) + 2 =
      zlen (take (Z.to_nat (zlen (wire_labels (take k ls)) + 2)) o2)) by (rewrite Hout2; llia).
    exists (zlen (wire_labels (take k ls)) + 2), o2,
      (if (k =? 0)%nat then G1 ++ w :: G2 else (G1 ++ w :: G2) ++ [mkWritten (zlen msg) ls k]).
    split; [|done]. rewrite (lrem_zero ls k) by (unfold k; lia).
    destruct (k =? 0)%nat; cbn [negb]; [done|].
    rewrite Hloadall. cbn [of_option]. rewrite bind_Ret. by rewrite !map_app.
Qed.

(** ** The theorem *)

(** A packet under assembly: the bytes so far, the compression list, and the
    names put into it with their positions. *)
Inductive assembled : list Z -> list compel_t -> list (Z * list (list Z)) -> Prop :=
| assemble_start : assembled [] [] []
| assemble_data msg cb names data :
    assembled msg cb names -> bytes data -> assembled (msg ++ data) cb names
| assemble_name msg cb names ls rest out rl out' cb' :
    assembled msg cb names -> name_ok ls -> zlen (wire ls) <= zlen out ->
    compress_name (wire ls ++ rest) out (zlen msg) cb true = Ret (rl, out', cb') ->
    assembled (msg ++ take (Z.to_nat rl) out') cb' (names ++ [(zlen msg, ls)]).

(** A name that was put stays readable. *)
Definition readable (msg : list Z) (x : Z * list (list Z)) : Prop :=
  name_ok x.2 /\ exists ls h n, name_at msg x.1 ls h n /\ same_name ls x.2 /\ h <= zlen x.2.

Lemma readable_app msg more x : readable msg x -> readable (msg ++ more) x.
Proof.
  intros (Hx & ls & h & n & Hn & H). split; [done|]. exists ls, h, n. split; [|done].
  by apply name_at_app.
Qed.

Lemma assembled_ok msg cb names :
  assembled msg cb names ->
  bytes msg /\ (exists G, packet_ok msg G /\ cb = list_of G) /\ Forall (readable msg) names.
Proof.
  induction 1 as [|msg cb names data H (Hb & (G & HG & ->) & IH) Hd
                  |msg cb names ls rest out rl out' cb' H (Hb & (G & HG & ->) & IH) Hls Hout E].
  - split; [constructor|]. split; [exists []; split; [constructor|done]|constructor].
  - split; [by apply bytes_app|]. split; [exists G; split; [by apply packet_ok_app|done]|].
    eapply List.Forall_impl; [|exact IH]. apply readable_app.
  - destruct (compress_ok msg G ls rest out HG Hls Hout)
      as (rl1 & out1 & G' & E1 & _ & (HG' & Hbs & _ & ls' & h & Hn & Hs & Hh)).
    rewrite E in E1. injection E1 as <- <- ->.
    split; [by apply bytes_app|]. split; [by exists G'|]. apply Forall_app. split.
    + eapply List.Forall_impl; [|exact IH]. apply readable_app.
    + constructor; [|constructor]. split; [done|]. by eexists ls', h, _.
Qed.

Lemma name_at_extent msg p ls h n : name_at msg p ls h n -> p + n <= zlen msg.
Proof.
  induction 1 as [p Hg|p l ls h n _ _ _ _ IH|p lb lo ls h n _ _ Hg _ _].
  - apply get_lt in Hg. lia.
  - lia.
  - apply get_lt in Hg. lia.
Qed.

Lemma same_name_ok a b : Forall label_ok a -> same_name a b -> name_ok b -> name_ok a.
Proof.
  intros Ha Hs [_ Hb]. split; [done|]. apply same_name_wire in Hs.
  rewrite length_wire in *. by rewrite Hs.
Qed.

(** C24: names survive compression. However a packet is put together from
    names written by [compress_name] and other data, [compress_name] returns
    without a failed assertion and writes between 1 and [rhnlen] bytes, and
    afterwards [decompress_name] reads every name that was written, at its
    position, back as the same name up to upper and lower case. *)
Theorem compress_roundtrip msg cb names :
  assembled msg cb names ->
  (forall ls rest out, name_ok ls -> zlen (wire ls) <= zlen out ->
     exists rl out' cb',
       compress_name (wire ls ++ rest) out (zlen msg) cb true = Ret (rl, out', cb') /\
       1 <= rl <= zlen (wire ls)) /\
  forall pos ls tgt, (pos, ls) ∈ names -> DNSNAMEBUFSIZE <= zlen tgt ->
    exists src' sz' tgt' len ls',
      decompress_name msg (zlen msg) pos (zlen msg - pos) tgt =
        Ret (Decompressed src' sz' tgt' len) /\
      take (Z.to_nat len) tgt' = wire ls' /\ same_name ls' ls.
Proof.
  intros H. destruct (assembled_ok _ _ _ H) as (Hb & (G & HG & ->) & Hnames). split.
  - intros ls rest out Hls Hout.
    destruct (compress_ok msg G ls rest out HG Hls Hout) as (rl & out' & G' & E & Hrl & Ha).
    exists rl, out', (list_of G'). split; [done|]. destruct Ha as (_ & _ & Hlen & _). lia.
  - intros pos ls tgt Hin%list_elem_of_In Htgt. rewrite Forall_forall in Hnames.
    destruct (Hnames _ Hin) as (Hok & ls' & h & n & Hn & Hs & Hh). cbn [fst snd] in *.
    destruct (name_at_bounds _ _ _ _ _ Hn) as (Hpos & _ & Hn1 & Hl').
    pose proof (name_at_extent _ _ _ _ _ Hn). pose proof (name_ok_labels _ Hok).
    destruct (decompress_spec msg pos (zlen msg - pos) tgt) as (r & E & Hr); [done|lia|lia|done|].
    destruct r as [src' sz' tgt' len|rc].
    + destruct Hr as (ls1 & h1 & n1 & Hn' & _ & _ & _ & _ & _ & _ & Ht & _).
      destruct (name_at_det _ _ _ _ _ _ _ _ Hn Hn') as (<- & _ & _).
      by exists src', sz', tgt', len, ls'.
    + destruct Hr as [_ Hr]. exfalso. eapply Hr; [exact Hn|lia|lia|]. by eapply same_name_ok.
Qed.

(** "www.ab" and then "WWW.ab", written as a pointer. *)
Lemma compress_roundtrip_witness :
  exists rl out' cb' rl2 out2 cb2,
    compress_name (wire demo_name ++ []) demo_buf 0 [] true = Ret (rl, out', cb') /\
    compress_name (wire demo_upper ++ []) demo_buf 8 cb' true = Ret (rl2, out2, cb2) /\
    rl = 8 /\ rl2 = 2 /\
    let msg := take (Z.to_nat rl) out' ++ take (Z.to_nat rl2) out2 in
    exists src' sz' tgt' len ls',
      decompress_name msg 10 8 2 demo_buf = Ret (Decompressed src' sz' tgt' len) /\
      take (Z.to_nat len) tgt' = wire ls' /\ same_name ls' demo_upper.
Proof.
  destruct (compress_name (wire demo_name ++ []) demo_buf 0 [] true) as [[[rl out'] cb']| |] eqn:E1;
    [|by vm_compute in E1..].
  pose proof (assemble_name [] [] [] demo_name [] demo_buf rl out' cb' assemble_start
    demo_name_ok ltac:(by vm_compute) E1) as H1.
  pose proof E1 as E1'. vm_compute in E1'. injection E1' as <- <- <-.
  set (msg1 := [] ++ take _ _) in H1.
  destruct (compress_name (wire demo_upper ++ []) demo_buf (zlen msg1)
    [mkCompel 0 (wire demo_name)] true) as [[[rl2 out2] cb2]| |] eqn:E2; [|by vm_compute in E2..].
  pose proof (assemble_name _ _ _ demo_upper [] demo_buf rl2 out2 cb2 H1
    demo_upper_ok ltac:(by vm_compute) E2) as H2.
  pose proof E2 as E2'. vm_compute in E2'. injection E2' as <- <- <-.
  eexists _, _, _, _, _, _. split; [reflexivity|]. split; [exact E2|]. split; [done|]. split; [done|].
  destruct (compress_roundtrip _ _ _ H2) as [_ H]. cbv zeta.
  exact (H 8 demo_upper demo_buf ltac:(by right; left) ltac:(by vm_compute)).
Defined.

End Compress.
