(* ===== verification/DnsHash.v ===== *)
(** * pdnsd/src/hash.c: the table of cached names

    The cache is a hash table of 1024 chains. A name has two hashes: one selects
    the chain, the other orders the chain and is compared before the names. The
    table is proved to be a finite map keyed by names up to upper and lower case.
    - an entry has an address, since iteration keeps pointers to entries;
    - a location ([dns_hash_loc_t], a pointer to a pointer) is a chain and a
      position in it;
    - [dns_cent_t] (cache.h) has the name and other fields, which the table does
      not look at; they are a parameter. *)
From Stdlib Require Import Sorted.
From stdpp Require Import gmap.
From S2P Require Import Prelude DnsName DnsMessage.
Local Open Scope Z_scope.

Module DnsHash.
Section hash.
Context {P : Type}.

Definition HASH_SZ : Z := 10.
Definition HASH_NUM_BUCKETS : Z := Z.shiftl 1 HASH_SZ.
Definition HASH_BITMASK : Z := HASH_NUM_BUCKETS - 1.

Definition toupper (c : Z) : Z := if (97 <=? c) && (c <=? 122) then c - 32 else c.

(** [s+=c<<(i%(HASH_SZ-5)); r+=((unsigned long)c)<<(i%(8*sizeof(unsigned long)-7)); ++i;] *)
Definition mix (c i : Z) (sr : Z * Z) : Z * Z :=
  (u32 (fst sr + u32 (Z.shiftl c (i mod (HASH_SZ - 5)))), u32 (snd sr + u32 (Z.shiftl c (i mod (8 * 4 - 7))))).

(** The inner loop, for [lb] characters. *)
Fixpoint hash_label (lb : nat) (str : list Z) (i : Z) (sr : Z * Z) : cres (Z * Z) :=
  match lb with
  | O => Ret sr
  | S lb => c ← of_option (get str i); hash_label lb str (i + 1) (mix (toupper c) i sr)
  end.
Fixpoint hash_loop (fuel : nat) (str : list Z) (i : Z) (sr : Z * Z) : cres (Z * Z) :=
  match fuel with
  | O => OutOfFuel
  | S fuel =>
      lb ← of_option (get str i);
      if lb =? 0 then Ret sr
      else sr ← hash_label (Z.to_nat lb) str (i + 1) (mix lb i sr);
           hash_loop fuel str (i + 1 + lb) sr
  end.
Definition fold_hash (s : Z) : Z :=
  u32 (Z.land s HASH_BITMASK + Z.shiftr (Z.land s (u32 (Z.lnot HASH_BITMASK))) HASH_SZ).
(** The chain and [*rhash]. *)
Definition dns_hash (str : list Z) : cres (Z * Z) :=
  '(s, r) ← hash_loop (S (length str)) str 0 (0, 0);
  Ret (Z.land (fold_hash (fold_hash s)) HASH_BITMASK, r).

Record dns_cent_t := mkCent { qname : list Z; other : P }.
Record dns_hash_ent_t := mkEnt { addr : Z; rhash : Z; data : dns_cent_t }.
Record dns_hash_loc_t := mkLoc { l_bucket : Z; l_pos : nat; l_rhash : Z }.
Record dns_hash_pos_t := mkPos { bucket : Z; ent : option Z }.

(** The table holds one list per chain. *)
Definition mk_dns_hash : list (list dns_hash_ent_t) := replicate (Z.to_nat HASH_NUM_BUCKETS) [].

(** The walk along a chain: where it stops, and the entry if it has the name. *)
Fixpoint walk (key : list Z) (rh : Z) (ch : list dns_hash_ent_t) (n : nat) : cres (option dns_cent_t * nat) :=
  match ch with
  | [] => Ret (None, n)
  | he :: ch =>
      if rhash he <=? rh then
        same ← (if rhash he =? rh then rhnicmp key (qname (data he)) else Ret false);
        if same : bool then Ret (Some (data he), n) else walk key rh ch (S n)
      else Ret (None, n)
  end.
Definition dns_lookup (t : list (list dns_hash_ent_t)) (key : list Z) : cres (option dns_cent_t * dns_hash_loc_t) :=
  '(idx, rh) ← dns_hash key;
  ch ← of_option (get t idx);
  '(retval, n) ← walk key rh ch 0;
  Ret (retval, mkLoc idx n rh).

(** [*(loc->pos) = he]; [a] is what [malloc] returned. *)
Definition add_dns_hash (t : list (list dns_hash_ent_t)) (d : dns_cent_t) (loc : dns_hash_loc_t) (a : option Z) : cres (list (list dns_hash_ent_t) * bool) :=
  match a with
  | None => Ret (t, false)
  | Some a =>
      ch ← of_option (get t (l_bucket loc));
      _ ← assert (l_pos loc <=? length ch)%nat;
      let ch := take (l_pos loc) ch ++ mkEnt a (l_rhash loc) d :: drop (l_pos loc) ch in
      Ret (<[Z.to_nat (l_bucket loc) := ch]> t, true)
  end.

Definition del_dns_hash_ent (t : list (list dns_hash_ent_t)) (loc : dns_hash_loc_t) : cres (list (list dns_hash_ent_t) * dns_cent_t) :=
  ch ← of_option (get t (l_bucket loc));
  he ← of_option (ch !! l_pos loc);
  Ret (<[Z.to_nat (l_bucket loc) := take (l_pos loc) ch ++ drop (S (l_pos loc)) ch]> t, data he).

(** The loop is the one of [dns_lookup]; the entry is taken out where it stops. *)
Definition del_dns_hash (t : list (list dns_hash_ent_t)) (key : list Z) : cres (list (list dns_hash_ent_t) * option dns_cent_t) :=
  '(idx, rh) ← dns_hash key;
  ch ← of_option (get t idx);
  '(retval, n) ← walk key rh ch 0;
  match retval with
  | Some d => Ret (<[Z.to_nat idx := take n ch ++ drop (S n) ch]> t, Some d)
  | None => Ret (t, None)
  end.

(** The table and the cache entries that were deleted, in order. *)
Definition free_dns_hash_bucket (t : list (list dns_hash_ent_t)) (i : Z) : cres (list (list dns_hash_ent_t) * list dns_cent_t) :=
  ch ← of_option (get t i);
  Ret (<[Z.to_nat i := []]> t, map data ch).

Record slist_t := mkSlist { domain : list Z; exact : bool; rule_included : bool }.

(** The inner loop over the list: does the name match to be deleted? *)
Fixpoint selected (name : list Z) (sla : list slist_t) : cres bool :=
  match sla with
  | [] => Ret false
  | sl :: sla =>
      '(_, nrem, lrem) ← Compress.domain_match name (domain sl);
      if (lrem =? 0) && (negb (exact sl) || (nrem =? 0)) then Ret (rule_included sl) else selected name sla
  end.
Fixpoint free_selected_loop (ch : list dns_hash_ent_t) (sla : list slist_t) : cres (list dns_hash_ent_t * list dns_cent_t) :=
  match ch with
  | [] => Ret ([], [])
  | he :: ch =>
      del ← selected (qname (data he)) sla;
      '(ch, ds) ← free_selected_loop ch sla;
      if del : bool then Ret (ch, data he :: ds) else Ret (he :: ch, ds)
  end.
Definition free_dns_hash_selected (t : list (list dns_hash_ent_t)) (i : Z) (sla : list slist_t) : cres (list (list dns_hash_ent_t) * list dns_cent_t) :=
  ch ← of_option (get t i);
  '(ch, ds) ← free_selected_loop ch sla;
  Ret (<[Z.to_nat i := ch]> t, ds).

Definition free_dns_hash (t : list (list dns_hash_ent_t)) : list (list dns_hash_ent_t) * list dns_cent_t := (map (fun _ => []) t, map data (concat t)).

(** The first non-empty chain from [i] on. *)
Fixpoint first_from (t : list (list dns_hash_ent_t)) (i : Z) : option (dns_cent_t * dns_hash_pos_t) :=
  match t with
  | [] => None
  | [] :: t => first_from t (i + 1)
  | (he :: ch) :: t => Some (data he, mkPos i (addr <$> head ch))
  end.
Definition fetch_first (t : list (list dns_hash_ent_t)) : option (dns_cent_t * dns_hash_pos_t) := first_from t 0.

(** The entry at an address and what follows it; the address must be in the chain. *)
Fixpoint at_addr (ch : list dns_hash_ent_t) (a : Z) : option (list dns_hash_ent_t) :=
  match ch with
  | [] => None
  | he :: ch' => if addr he =? a then Some ch else at_addr ch' a
  end.
Definition fetch_next (t : list (list dns_hash_ent_t)) (pos : dns_hash_pos_t) : cres (option (dns_cent_t * dns_hash_pos_t)) :=
  match ent pos with
  | Some a =>
      ch ← of_option (get t (bucket pos));
      s ← of_option (at_addr ch a);
      match s with
      | he :: s => Ret (Some (data he, mkPos (bucket pos) (addr <$> head s)))
      | [] => Undef
      end
  | None => Ret (first_from (drop (Z.to_nat (bucket pos + 1)) t) (bucket pos + 1))
  end.

(** ** The hashes of a name *)

Fixpoint mix_all (cs : list Z) (i : Z) (sr : Z * Z) : Z * Z :=
  match cs with [] => sr | c :: cs => mix_all cs (i + 1) (mix c i sr) end.
(** Both hashes are sums over the bytes in upper case. *)
Definition hashes (ls : list (list Z)) : Z * Z :=
  let '(s, r) := mix_all (map toupper (wire_labels ls)) 0 (0, 0) in
  (Z.land (fold_hash (fold_hash s)) HASH_BITMASK, r).

Lemma mix_all_app a b i sr : mix_all (a ++ b) i sr = mix_all b (i + zlen a) (mix_all a i sr).
Proof.
  revert i sr. induction a as [|c a IH]; intros i sr; cbn [mix_all app length].
  - by rewrite Z.add_0_r.
  - rewrite IH. f_equal. lia.
Qed.
Lemma hash_label_ok l pre s sr :
  hash_label (length l) (pre ++ l ++ s) (zlen pre) sr = Ret (mix_all (map toupper l) (zlen pre) sr).
Proof.
  revert pre sr. induction l as [|c l IH]; intros pre sr; [done|]. cbn [length hash_label app map mix_all].
  rewrite get_app_here. cbn [of_option]. rewrite bind_Ret.
  replace (pre ++ c :: l ++ s) with ((pre ++ [c]) ++ l ++ s) by (by rewrite <- app_assoc).
  replace (zlen pre + 1) with (zlen (pre ++ [c])) by llia. apply IH.
Qed.
Lemma hash_loop_ok ls : forall fuel pre rest sr,
  Forall label_ok ls -> (length ls < fuel)%nat ->
  hash_loop fuel (pre ++ wire ls ++ rest) (zlen pre) sr =
  Ret (mix_all (map toupper (wire_labels ls)) (zlen pre) sr).
Proof.
  induction ls as [|l ls IH]; intros [|fuel] pre rest sr Hls Hf; cbn [length] in Hf; try lia; cbn [hash_loop].
  - by rewrite get_wire_nil.
  - pose proof (label_ok_len _ _ Hls) as Hl. apply Forall_cons_1 in Hls as [_ Hls].
    rewrite get_wire_cons. cbn [of_option]. rewrite bind_Ret. zcases. rewrite Nat2Z.id.
    rewrite wire_cons. replace (pre ++ (zlen l :: l ++ wire ls) ++ rest) with ((pre ++ [zlen l]) ++ l ++ wire ls ++ rest)
      by (rewrite <- !app_assoc; cbn; by rewrite <- app_assoc).
    replace (zlen pre + 1) with (zlen (pre ++ [zlen l])) by llia. rewrite hash_label_ok, bind_Ret.
    replace ((pre ++ [zlen l]) ++ l ++ wire ls ++ rest) with ((pre ++ wire_label l) ++ wire ls ++ rest)
      by (unfold wire_label; rewrite <- !app_assoc; done).
    replace (zlen (pre ++ [zlen l]) + zlen l) with (zlen (pre ++ wire_label l)) by (rewrite zlen_wire_label; llia).
    rewrite IH by (auto; lia). f_equal. rewrite wire_labels_cons. cbn [map mix_all]. rewrite map_app, mix_all_app.
    replace (toupper (zlen l)) with (zlen l) by (unfold toupper; zcases; done).
    rewrite length_map, zlen_wire_label. replace (zlen (pre ++ [zlen l])) with (zlen pre + 1) by llia. done.
Qed.
Lemma dns_hash_wire ls rest : Forall label_ok ls -> dns_hash (wire ls ++ rest) = Ret (hashes ls).
Proof.
  intros Hls. unfold dns_hash, hashes. pose proof (wire_length_ge ls).
  rewrite (hash_loop_ok ls _ [] rest) by (auto; llia). rewrite bind_Ret. by destruct (mix_all _ _ _).
Qed.
Lemma hashes_range ls : 0 <= fst (hashes ls) < HASH_NUM_BUCKETS.
Proof.
  unfold hashes. destruct (mix_all _ _ _) as [s r]. cbn [fst]. change HASH_BITMASK with (Z.ones 10).
  rewrite Z.land_ones by lia. apply Z.mod_pos_bound. done.
Qed.

(** Names that differ in case have the same hashes. *)
Lemma toupper_tolower c : toupper (tolower c) = toupper c.
Proof.
  unfold toupper, tolower. destruct (Z.leb_spec 65 c), (Z.leb_spec c 90); cbn [andb]; try done.
  destruct (Z.leb_spec 97 (c + 32)), (Z.leb_spec (c + 32) 122), (Z.leb_spec 97 c); cbn [andb]; lia.
Qed.
Lemma upper_same_label a b : same_label a b -> map toupper a = map toupper b.
Proof.
  unfold same_label. intros E. transitivity (map toupper (map tolower a)); [|rewrite E];
    rewrite map_map; apply map_ext; intros; by rewrite toupper_tolower.
Qed.
Lemma hashes_same a b : same_name a b -> hashes a = hashes b.
Proof.
  intros H. unfold hashes.
  assert (E : map toupper (wire_labels a) = map toupper (wire_labels b)); [|by rewrite E].
  induction H as [|x y a b Hl _ IH]; [done|]. rewrite !wire_labels_cons. cbn [map]. rewrite !map_app, IH.
  by rewrite (upper_same_label _ _ Hl), (same_label_len _ _ Hl).
Qed.

(** The labels of a name in memory, and its key: the labels in lower case. *)
Fixpoint labels_loop (fuel : nat) (nm : list Z) : list (list Z) :=
  match fuel, nm with
  | S fuel, lb :: nm => if lb =? 0 then [] else take (Z.to_nat lb) nm :: labels_loop fuel (drop (Z.to_nat lb) nm)
  | _, _ => []
  end.
Definition labels (nm : list Z) : list (list Z) := labels_loop (length nm) nm.
Definition canon (ls : list (list Z)) : list (list Z) := map (map tolower) ls.

Lemma labels_wire ls rest : Forall label_ok ls -> labels (wire ls ++ rest) = ls.
Proof.
  intros Hls. unfold labels.
  assert (H : forall fuel, (length ls < fuel)%nat -> labels_loop fuel (wire ls ++ rest) = ls).
  { induction ls as [|l ls IH]; intros [|fuel] Hf; cbn [length] in Hf; try lia; [done|].
    pose proof (label_ok_len _ _ Hls) as Hl. apply Forall_cons_1 in Hls as [_ Hls].
    rewrite wire_cons. cbn [app labels_loop]. zcases. rewrite Nat2Z.id, <- app_assoc.
    rewrite take_app_length, drop_app_length. f_equal. apply IH; [done|lia]. }
  apply H. pose proof (wire_length_ge ls). llia.
Qed.
Lemma canon_same a b : canon a = canon b <-> same_name a b.
Proof.
  unfold canon, same_name, same_label. revert b.
  induction a as [|x a IH]; intros [|y b]; cbn [map]; [split; [constructor|done]| | |split];
    try (split; [done|intros H; inversion H]).
  - intros [= E1 E2]. constructor; [done|]. by apply IH.
  - intros [E1 E2]%Forall2_cons_1. f_equal; [done|]. by apply IH.
Qed.

(** ** The invariant *)

Definition ekey (he : dns_hash_ent_t) : list (list Z) := canon (labels (qname (data he))).
(** The memory holds a name. *)
Definition names (nm : list Z) (ls : list (list Z)) : Prop := name_ok ls /\ exists rest, nm = wire ls ++ rest.

Lemma names_labels nm ls : names nm ls -> labels nm = ls.
Proof. intros [Hok (rest & ->)]. apply labels_wire, Hok. Qed.

(** An entry of chain [i]. *)
Definition ent_ok (i : Z) (he : dns_hash_ent_t) : Prop :=
  exists ls, names (qname (data he)) ls /\ hashes ls = (i, rhash he).

Record chain_ok (i : Z) (ch : list dns_hash_ent_t) : Prop := {
  ck_ents : forall he, he ∈ ch -> ent_ok i he;
  ck_sorted : StronglySorted (fun a b => rhash a <= rhash b) ch;
  ck_keys : NoDup (map ekey ch);
  ck_addrs : NoDup (map addr ch);
}.
Record table_ok (t : list (list dns_hash_ent_t)) : Prop := {
  tk_length : zlen t = HASH_NUM_BUCKETS;
  tk_chains : forall i ch, t !! i = Some ch -> chain_ok (Z.of_nat i) ch;
}.

(** The finite map a table stands for. *)
Definition holds (t : list (list dns_hash_ent_t)) (he : dns_hash_ent_t) : Prop := exists i ch, t !! i = Some ch /\ he ∈ ch.
Definition models (t : list (list dns_hash_ent_t)) (m : gmap (list (list Z)) dns_cent_t) : Prop :=
  forall k d, m !! k = Some d <-> exists he, holds t he /\ ekey he = k /\ data he = d.

(** Two entries for names that are equal up to case are in the same chain, with
    the same hash. *)
Lemma ekey_hashes i he ls :
  ent_ok i he -> Forall label_ok ls -> ekey he = canon ls -> hashes ls = (i, rhash he).
Proof.
  intros (ls' & Hn & E) Hls Hk. unfold ekey in Hk. rewrite (names_labels _ _ Hn) in Hk.
  apply canon_same in Hk. by rewrite <- (hashes_same _ _ Hk).
Qed.

Lemma compare_entry ls rest he i :
  name_ok ls -> ent_ok i he -> rhnicmp (wire ls ++ rest) (qname (data he)) = Ret (bool_decide (ekey he = canon ls)).
Proof.
  intros Hls (ls' & [Hn (rest' & E)] & _). unfold ekey.
  rewrite (names_labels (qname (data he)) ls') by (split; eauto). rewrite E.
  rewrite rhnicmp_wire by (apply Hls || apply Hn). f_equal. apply bool_decide_ext.
  rewrite canon_same. split; by intros ?.
Qed.

(** Where the walk stops. *)
Lemma walk_ok ls rest i ch : forall n,
  name_ok ls -> hashes ls = (i, snd (hashes ls)) -> (forall he, he ∈ ch -> ent_ok i he) ->
  StronglySorted (fun a b => rhash a <= rhash b) ch ->
  let rh := snd (hashes ls) in
  exists k, (k <= length ch)%nat /\
  ((exists he, ch !! k = Some he /\ ekey he = canon ls /\
     walk (wire ls ++ rest) rh ch n = Ret (Some (data he), (n + k)%nat)) \/
   ((forall he, he ∈ ch -> ekey he <> canon ls) /\ walk (wire ls ++ rest) rh ch n = Ret (None, (n + k)%nat) /\
    (forall he, he ∈ take k ch -> rhash he <= rh) /\ (forall he, he ∈ drop k ch -> rh < rhash he))).
Proof.
  intros n Hls Hh Hents Hs rh. revert n. induction ch as [|he ch IH]; intros n; cbn [walk].
  - exists 0%nat. split; [done|]. right. rewrite Nat.add_0_r. repeat split; intros he H; by apply elem_of_nil in H.
  - inversion Hs as [|? ? Hs' Hall]; subst.
    assert (He : ent_ok i he) by (apply Hents; left).
    assert (Hgt : rh < rhash he -> forall x, x ∈ he :: ch -> rh < rhash x).
    { intros Hlt x [-> | Hx]%elem_of_cons; [done|]. rewrite List.Forall_forall in Hall.
      specialize (Hall x (proj1 (list_elem_of_In _ _) Hx)). lia. }
    destruct (Z.leb_spec (rhash he) rh) as [Hle|Hlt].
    2: { exists 0%nat. split; [lia|]. right. rewrite Nat.add_0_r. split; [|split; [done|split]].
         - intros x Hx E. specialize (Hgt Hlt x Hx). pose proof (ekey_hashes i x ls (Hents x Hx) (nm_labels _ Hls) E) as E2.
           assert (rh = rhash x) by (unfold rh; by rewrite E2). lia.
         - intros x Hx. by apply elem_of_nil in Hx.
         - by apply Hgt. }
    assert (Ecmp : (if rhash he =? rh then rhnicmp (wire ls ++ rest) (qname (data he)) else Ret false) =
      Ret (bool_decide (ekey he = canon ls))).
    { destruct (Z.eqb_spec (rhash he) rh) as [E|E]; [by eapply compare_entry|].
      f_equal. symmetry. apply bool_decide_eq_false_2. intros Hk.
      pose proof (ekey_hashes i he ls He (nm_labels _ Hls) Hk) as E2. apply E. unfold rh. by rewrite E2. }
    rewrite Ecmp, bind_Ret. case_bool_decide as Hk.
    + exists 0%nat. split; [lia|]. left. exists he. rewrite Nat.add_0_r. done.
    + destruct (IH (fun x Hx => Hents x (proj2 (elem_of_cons _ _ _) (or_intror Hx))) Hs' (S n)) as (k & Hk' & Hcase).
      exists (S k). split; [cbn; lia|]. replace (n + S k)%nat with (S n + k)%nat by lia.
      destruct Hcase as [(x & Hx & Ex & Ew) | (Hno & Ew & Hb & Ha)]; [left; eauto|right].
      split; [intros x [-> | Hx]%elem_of_cons; auto|]. split; [done|]. split; [|done].
      intros x [-> | Hx]%elem_of_cons; auto.
Qed.

(** ** Changing a chain *)

Lemma nodup_map_eq {A B} (f : A -> B) (l : list A) x y :
  NoDup (map f l) -> x ∈ l -> y ∈ l -> f x = f y -> x = y.
Proof.
  induction l as [|z l IH]; intros Hn Hx Hy E; [by apply elem_of_nil in Hx|].
  cbn in Hn. apply list_relations.list.NoDup_cons in Hn as [Hz Hn].
  assert (Hin : forall w, w ∈ l -> f w ∈ map f l) by (intros w Hw; by apply list_elem_of_fmap_2).
  apply elem_of_cons in Hx as [-> | Hx], Hy as [-> | Hy]; auto.
  - destruct Hz. rewrite E. auto.
  - destruct Hz. rewrite <- E. auto.
Qed.
Lemma sorted_app {A} (R : A -> A -> Prop) (l1 l2 : list A) :
  StronglySorted R (l1 ++ l2) <->
  StronglySorted R l1 /\ StronglySorted R l2 /\ forall a b, a ∈ l1 -> b ∈ l2 -> R a b.
Proof.
  induction l1 as [|x l1 IH]; cbn [app].
  - split; [|tauto]. intros H. split; [constructor|]. split; [done|]. intros a b Ha. by apply elem_of_nil in Ha.
  - split.
    + intros H. inversion H as [|? ? Hs Hall]; subst. apply IH in Hs as (H1 & H2 & H3).
      apply List.Forall_app in Hall as [Ha1 Ha2]. rewrite List.Forall_forall in Ha2.
      split; [by constructor|]. split; [done|]. intros a b [-> | Ha]%elem_of_cons Hb; [|by apply H3].
      apply Ha2. by apply list_elem_of_In.
    + intros (H1 & H2 & H3). inversion H1 as [|? ? Hs Hall]; subst. constructor.
      * apply IH. split; [done|]. split; [done|]. intros a b Ha Hb. apply H3; [by right|done].
      * apply List.Forall_app. split; [done|]. apply List.Forall_forall. intros b Hb. apply H3; [left|by apply list_elem_of_In].
Qed.
(** An element is put in, or taken out, at position [k]. *)
Lemma put_perm {A} (l : list A) k x : take k l ++ x :: drop k l ≡ₚ x :: l.
Proof. by rewrite <- Permutation_middle, take_drop. Qed.
Lemma out_perm {A} (l : list A) k x : l !! k = Some x -> x :: (take k l ++ drop (S k) l) ≡ₚ l.
Proof. intros H. rewrite <- (take_drop_middle l k x H) at 3. by rewrite Permutation_middle. Qed.

Lemma chain_put i ch k he :
  chain_ok i ch -> ent_ok i he -> ekey he ∉ map ekey ch -> addr he ∉ map addr ch ->
  (forall x, x ∈ take k ch -> rhash x <= rhash he) -> (forall x, x ∈ drop k ch -> rhash he < rhash x) ->
  chain_ok i (take k ch ++ he :: drop k ch).
Proof.
  intros [He Hs Hk Ha] Hhe Hnk Hna Hb Hd. pose proof (put_perm ch k he) as Hp. split.
  - intros x. rewrite Hp, elem_of_cons. intros [-> | Hx]; auto.
  - rewrite <- (take_drop k ch) in Hs. apply sorted_app in Hs as (H1 & H2 & H3). apply sorted_app.
    split; [done|]. split.
    + constructor; [done|]. apply List.Forall_forall. intros x Hx%list_elem_of_In. specialize (Hd x Hx). lia.
    + intros a b Hin [-> | Hin']%elem_of_cons; [by apply Hb|by apply H3].
  - rewrite (Permutation_map ekey Hp). by constructor.
  - rewrite (Permutation_map addr Hp). by constructor.
Qed.
Lemma chain_out i ch k he : chain_ok i ch -> ch !! k = Some he -> chain_ok i (take k ch ++ drop (S k) ch).
Proof.
  intros [He Hs Hk Ha] Hl. pose proof (out_perm ch k he Hl) as Hp. split.
  - intros x Hx. apply He. rewrite <- Hp. by right.
  - rewrite <- (take_drop_middle ch k he Hl) in Hs. apply sorted_app in Hs as (H1 & H2 & H3).
    inversion H2 as [|? ? H2' _]; subst. apply sorted_app. split; [done|]. split; [done|].
    intros a b Hin Hin'. apply H3; [done|by right].
  - rewrite <- (Permutation_map ekey Hp) in Hk. cbn in Hk. by apply list_relations.list.NoDup_cons in Hk as [_ ?].
  - rewrite <- (Permutation_map addr Hp) in Ha. cbn in Ha. by apply list_relations.list.NoDup_cons in Ha as [_ ?].
Qed.

Lemma holds_set t n ch ch' he :
  t !! n = Some ch ->
  holds (<[n := ch']> t) he <-> he ∈ ch' \/ exists i c, i <> n /\ t !! i = Some c /\ he ∈ c.
Proof.
  intros Hn. assert (Hlt : (n < length t)%nat) by (by apply lookup_lt_Some in Hn). unfold holds. split.
  - intros (i & c & Hi & Hin). destruct (decide (i = n)) as [->|Hne].
    + rewrite list_lookup_insert_eq in Hi by done. injection Hi as <-. by left.
    + rewrite list_lookup_insert_ne in Hi by done. right. eauto.
  - intros [Hin | (i & c & Hne & Hi & Hin)].
    + exists n, ch'. by rewrite list_lookup_insert_eq.
    + exists i, c. by rewrite list_lookup_insert_ne by done.
Qed.
Lemma table_set t n ch ch' :
  table_ok t -> t !! n = Some ch -> chain_ok (Z.of_nat n) ch' -> table_ok (<[n := ch']> t).
Proof.
  intros [Hl Hc] Hn Hch. assert (Hlt : (n < length t)%nat) by (by apply lookup_lt_Some in Hn). split.
  - by rewrite length_insert.
  - intros i c Hi. destruct (decide (i = n)) as [->|Hne].
    + rewrite list_lookup_insert_eq in Hi by done. by injection Hi as <-.
    + rewrite list_lookup_insert_ne in Hi by done. eauto.
Qed.

(** An entry is in one chain only. *)
Lemma same_chain t i j c c' x :
  table_ok t -> t !! i = Some c -> t !! j = Some c' -> x ∈ c -> x ∈ c' -> i = j.
Proof.
  intros Ht Hi Hj Hx Hx'. destruct (ck_ents _ _ (tk_chains _ Ht _ _ Hi) x Hx) as (l1 & N1 & E1).
  destruct (ck_ents _ _ (tk_chains _ Ht _ _ Hj) x Hx') as (l2 & N2 & E2).
  apply names_labels in N1, N2. rewrite N1 in N2. subst l2. rewrite E1 in E2. injection E2 as E2. lia.
Qed.
(** Keeping only some of the entries of a chain. *)
Lemma keep_holds t n ch (p : dns_hash_ent_t -> bool) x :
  table_ok t -> t !! n = Some ch ->
  holds (<[n := List.filter p ch]> t) x <-> holds t x /\ (x ∈ ch -> p x = true).
Proof.
  intros Ht Hch. rewrite (holds_set _ _ _ _ _ Hch), list_elem_of_In, filter_In, <- list_elem_of_In. split.
  - intros [[Hx Hp] | (j & c & Hne & Hj & Hx)]; [split; [by exists n, ch|done]|].
    split; [by exists j, c|]. intros Hx'. destruct Hne. by apply (same_chain t j n c ch x).
  - intros [(j & c & Hj & Hx) Hp]. destruct (decide (j = n)) as [->|Hne]; [|right; eauto].
    rewrite Hch in Hj. injection Hj as <-. left. auto.
Qed.

(** Entries with the same key are one entry. *)
Lemma holds_unique t he he' : table_ok t -> holds t he -> holds t he' -> ekey he = ekey he' -> he = he'.
Proof.
  intros Ht (i & c & Hi & Hin) (j & c' & Hj & Hin') E.
  pose proof (tk_chains _ Ht _ _ Hi) as Hc. pose proof (tk_chains _ Ht _ _ Hj) as Hc'.
  destruct (ck_ents _ _ Hc' he' Hin') as (ls & Hn & Hh). unfold ekey in E at 2. rewrite (names_labels _ _ Hn) in E.
  pose proof (ekey_hashes _ _ _ (ck_ents _ _ Hc he Hin) (nm_labels _ (proj1 Hn)) E) as Hh2.
  rewrite Hh in Hh2. injection Hh2 as Hij _. apply Nat2Z.inj in Hij as ->. rewrite Hi in Hj. injection Hj as <-.
  apply (nodup_map_eq ekey c); auto; [apply Hc|]. unfold ekey at 2. by rewrite (names_labels _ _ Hn).
Qed.

Lemma models_add t t' m he :
  models t m -> m !! ekey he = None -> (forall x, holds t' x <-> x = he \/ holds t x) ->
  models t' (<[ekey he := data he]> m).
Proof.
  intros Hm Hnone Hh k d. destruct (decide (k = ekey he)) as [->|Hne].
  - rewrite lookup_insert_eq. split.
    + intros [= <-]. exists he. split; [apply Hh; by left|done].
    + intros (x & [-> | Hx]%Hh & E & <-); [done|].
      assert (m !! ekey he = Some (data x)) by (apply Hm; eauto). congruence.
  - rewrite lookup_insert_ne by done. rewrite (Hm k d). split.
    + intros (x & Hx & E & Ed). exists x. split; [apply Hh; by right|done].
    + intros (x & [-> | Hx]%Hh & E & Ed); [done|eauto].
Qed.
Lemma models_del t t' m he :
  table_ok t -> models t m -> holds t he -> (forall x, holds t' x <-> holds t x /\ x <> he) ->
  models t' (delete (ekey he) m).
Proof.
  intros Ht Hm Hin Hh k d. destruct (decide (k = ekey he)) as [->|Hne].
  - rewrite lookup_delete_eq. split; [done|]. intros (x & [Hx Hne]%Hh & E & _).
    destruct Hne. by apply (holds_unique t).
  - rewrite lookup_delete_ne by done. rewrite (Hm k d). split.
    + intros (x & Hx & E & Ed). exists x. split; [|done]. apply Hh. split; [done|]. intros ->. congruence.
    + intros (x & [Hx _]%Hh & E & Ed). eauto.
Qed.

(** ** The operations *)

Lemma find_chain t ls :
  table_ok t -> exists ch, get t (fst (hashes ls)) = Some ch /\ t !! Z.to_nat (fst (hashes ls)) = Some ch /\
    chain_ok (fst (hashes ls)) ch /\ Z.of_nat (Z.to_nat (fst (hashes ls))) = fst (hashes ls).
Proof.
  intros [Hl Hc]. pose proof (hashes_range ls) as Hr.
  assert (is_Some (t !! Z.to_nat (fst (hashes ls)))) as [ch Hch] by (apply lookup_lt_is_Some_2; lia).
  exists ch. pose proof (Hc _ _ Hch) as Hck. rewrite Z2Nat.id in Hck by lia.
  split; [|split; [done|split; [done|lia]]]. unfold get. by rewrite (proj2 (Z.ltb_ge _ _)) by lia.
Qed.

(** The position of a name, or the place for it. *)
Record found (t : list (list dns_hash_ent_t)) (m : gmap (list (list Z)) dns_cent_t) (ls : list (list Z))
    (ch : list dns_hash_ent_t) (k : nat) : Prop := {
  fd_chain : get t (fst (hashes ls)) = Some ch;
  fd_ok : chain_ok (fst (hashes ls)) ch;
  fd_index : t !! Z.to_nat (fst (hashes ls)) = Some ch;
  fd_walk : forall rest, walk (wire ls ++ rest) (snd (hashes ls)) ch 0 = Ret (m !! canon ls, k);
  fd_case : (exists he, ch !! k = Some he /\ ekey he = canon ls /\ m !! canon ls = Some (data he)) \/
    (m !! canon ls = None /\ (k <= length ch)%nat /\ (forall x, x ∈ ch -> ekey x <> canon ls) /\
     (forall x, x ∈ take k ch -> rhash x <= snd (hashes ls)) /\ (forall x, x ∈ drop k ch -> snd (hashes ls) < rhash x));
}.
(** The walk does not depend on what lies behind the name. *)
Lemma walk_rest ls rest rest' i ch : forall rh n,
  name_ok ls -> (forall he, he ∈ ch -> ent_ok i he) -> walk (wire ls ++ rest) rh ch n = walk (wire ls ++ rest') rh ch n.
Proof.
  induction ch as [|he ch IH]; intros rh n Hls He; [done|]. cbn [walk].
  rewrite !(compare_entry ls _ he i) by (done || (apply He; left)).
  rewrite IH; [done..|]. intros x Hx. apply He. by right.
Qed.
Lemma find_name t m ls : table_ok t -> models t m -> name_ok ls -> exists ch k, found t m ls ch k.
Proof.
  intros Ht Hm Hls. destruct (find_chain t ls Ht) as (ch & Hg & Hch & Hck & Hidx). destruct (hashes ls) as [i rh] eqn:Eh.
  cbn [fst] in *. destruct (walk_ok ls [] i ch 0) as (k & Hk & Hcase);
    [done|by rewrite Eh|apply Hck|apply Hck|]. rewrite Eh in Hcase. cbn [snd Nat.add] in Hcase.
  assert (Hhold : forall x, x ∈ ch -> holds t x) by (intros x Hx; exists (Z.to_nat i), ch; auto).
  exists ch, k. split; rewrite ?Eh; cbn [fst snd]; auto.
  - intros rest. rewrite (walk_rest ls rest [] i) by (done || apply Hck).
    destruct Hcase as [(he & Hl & Ek & ->) | (Hno & -> & _)].
    + do 2 f_equal. symmetry. apply Hm. exists he. split; [|done]. apply Hhold. by eapply list_elem_of_lookup_2.
    + do 2 f_equal. symmetry. destruct (m !! canon ls) as [d|] eqn:E; [|done].
      apply Hm in E as (x & (j & c & Hj & Hx) & Ek & _). pose proof (tk_chains _ Ht _ _ Hj) as Hc.
      pose proof (ekey_hashes _ _ _ (ck_ents _ _ Hc x Hx) (nm_labels _ Hls) Ek) as E2. rewrite Eh in E2.
      injection E2 as -> _. rewrite Nat2Z.id in Hch. rewrite Hch in Hj. injection Hj as <-. by destruct (Hno x).
  - destruct Hcase as [(he & Hl & Ek & _) | (Hno & Hw & Hb & Ha)]; [left|right].
    + exists he. split; [done|]. split; [done|]. apply Hm. exists he. split; [|done]. apply Hhold. by eapply list_elem_of_lookup_2.
    + split; [|done]. destruct (m !! canon ls) as [d|] eqn:E; [|done].
      apply Hm in E as (x & (j & c & Hj & Hx) & Ek & _). pose proof (tk_chains _ Ht _ _ Hj) as Hc.
      pose proof (ekey_hashes _ _ _ (ck_ents _ _ Hc x Hx) (nm_labels _ Hls) Ek) as E2. rewrite Eh in E2.
      injection E2 as -> _. rewrite Nat2Z.id in Hch. rewrite Hch in Hj. injection Hj as <-. by destruct (Hno x).
Qed.

(** Taking an entry out of its chain. *)
Lemma out_holds t n ch k he :
  table_ok t -> t !! n = Some ch -> ch !! k = Some he ->
  forall x, holds (<[n := take k ch ++ drop (S k) ch]> t) x <-> holds t x /\ x <> he.
Proof.
  intros Ht Hch Hl x. pose proof (tk_chains _ Ht _ _ Hch) as Hck. rewrite (holds_set _ _ _ _ _ Hch).
  pose proof (out_perm ch k he Hl) as Hp. assert (Hin : he ∈ ch) by (by eapply list_elem_of_lookup_2).
  assert (Hnd : he ∉ take k ch ++ drop (S k) ch).
  { pose proof (ck_keys _ _ Hck) as Hnd. rewrite <- (Permutation_map ekey Hp) in Hnd. cbn in Hnd.
    apply list_relations.list.NoDup_cons in Hnd as [Hnot _]. intros Hx. apply Hnot. by apply list_elem_of_fmap_2. }
  split.
  - intros [Hx | (i & c & Hne & Hi & Hx)].
    + split; [|by intros ->]. exists n, ch. split; [done|]. rewrite <- Hp. by right.
    + split; [by exists i, c|]. intros ->. apply Hne. by apply (same_chain t i n c ch he).
  - intros [(i & c & Hi & Hx) Hne]. destruct (decide (i = n)) as [->|Hi'].
    + rewrite Hch in Hi. injection Hi as <-. left. rewrite <- Hp in Hx. by apply elem_of_cons in Hx as [-> | ?].
    + right. eauto.
Qed.
Lemma remove_at t m ls ch k he :
  table_ok t -> models t m -> found t m ls ch k -> ch !! k = Some he -> ekey he = canon ls ->
  let t' := <[Z.to_nat (fst (hashes ls)) := take k ch ++ drop (S k) ch]> t in
  table_ok t' /\ models t' (delete (canon ls) m).
Proof.
  intros Ht Hm [_ Hck Hch _ _] Hl Ek t'. pose proof (hashes_range ls) as Hr.
  assert (Hin : he ∈ ch) by (by eapply list_elem_of_lookup_2). split.
  - eapply table_set; [done|exact Hch|]. rewrite Z2Nat.id by lia. by eapply chain_out.
  - rewrite <- Ek. eapply models_del; [done..| |by apply out_holds]. by exists (Z.to_nat (fst (hashes ls))), ch.
Qed.
Lemma insert_at t m ls ch k d a :
  table_ok t -> models t m -> found t m ls ch k -> m !! canon ls = None -> names (qname d) ls ->
  (forall he, holds t he -> addr he <> a) ->
  let t' := <[Z.to_nat (fst (hashes ls)) := take k ch ++ mkEnt a (snd (hashes ls)) d :: drop k ch]> t in
  table_ok t' /\ models t' (<[canon ls := d]> m).
Proof.
  intros Ht Hm [_ Hck Hch _ [(he & _ & _ & E) | (_ & Hk & Hno & Hb & Ha)]] Hnone Hn Hfresh t'; [congruence|].
  pose proof (hashes_range ls) as Hr. set (he := mkEnt a (snd (hashes ls)) d).
  assert (Ekey : ekey he = canon ls) by (unfold ekey; cbn; by rewrite (names_labels _ _ Hn)).
  assert (Hhold : forall x, x ∈ ch -> holds t x) by (intros x Hx; exists (Z.to_nat (fst (hashes ls))), ch; auto).
  split.
  - eapply table_set; [done|exact Hch|]. rewrite Z2Nat.id by lia. apply chain_put; auto.
    + exists ls. split; [done|]. cbn. by destruct (hashes ls).
    + change (ekey he ∉ map ekey ch). rewrite Ekey. intros (x & E & Hx)%list_elem_of_fmap. by destruct (Hno x).
    + intros (x & E & Hx)%list_elem_of_fmap. by destruct (Hfresh x (Hhold x Hx)).
  - rewrite <- Ekey. change d with (data he). apply models_add with t; [done|by rewrite Ekey|].
    intros x. unfold t'. rewrite (holds_set _ _ _ _ _ Hch). fold he. rewrite (put_perm ch k he), elem_of_cons.
    split.
    + intros [[-> | Hx] | (i & c & _ & Hi & Hx)]; [by left|right; auto|right; by exists i, c].
    + intros [-> | (i & c & Hi & Hx)]; [by left; left|].
      destruct (decide (i = Z.to_nat (fst (hashes ls)))) as [->|Hne]; [|right; eauto].
      rewrite Hch in Hi. injection Hi as <-. left. by right.
Qed.

(** A new table is empty. *)
Lemma mk_table_ok : table_ok mk_dns_hash /\ models mk_dns_hash ∅.
Proof.
  assert (H : forall i ch, mk_dns_hash !! i = Some ch -> ch = []).
  { intros i ch Hi. unfold mk_dns_hash in Hi. by apply lookup_replicate_1 in Hi as [-> _]. }
  split.
  - split; [unfold mk_dns_hash; by rewrite length_replicate|]. intros i ch ->%H.
    split; [|constructor..]. intros he Hin. by apply elem_of_nil in Hin.
  - intros k d. rewrite lookup_empty. split; [done|]. intros (he & (i & ch & ->%H & Hin) & _). by apply elem_of_nil in Hin.
Qed.

(** C22: the hash table is a finite map keyed by names up to upper and lower
    case. For a table that stands for the map [m] and a key in memory:
    [dns_lookup] returns what [m] has for the key; at the location it returns,
    [add_dns_hash] adds a new entry for the name (and changes nothing if it gets
    no memory) and [del_dns_hash_ent] deletes the entry; [del_dns_hash] deletes
    it by key. Every result is again a well-formed table (chains ordered by their
    hashes, entries in the chain of their name) that stands for the changed map,
    and nothing is read outside the names. *)
Theorem dns_hash_refines_map t m ls rest d a :
  table_ok t -> models t m -> name_ok ls -> names (qname d) ls -> (forall he, holds t he -> addr he <> a) ->
  let key := wire ls ++ rest in
  exists loc, dns_lookup t key = Ret (m !! canon ls, loc) /\
    add_dns_hash t d loc None = Ret (t, false) /\
    (m !! canon ls = None -> exists t', add_dns_hash t d loc (Some a) = Ret (t', true) /\
       table_ok t' /\ models t' (<[canon ls := d]> m)) /\
    (forall x, m !! canon ls = Some x -> exists t', del_dns_hash_ent t loc = Ret (t', x) /\
       table_ok t' /\ models t' (delete (canon ls) m)) /\
    (exists t', del_dns_hash t key = Ret (t', m !! canon ls) /\
       table_ok t' /\ models t' (delete (canon ls) m)).
Proof.
  intros Ht Hm Hls Hn Hfresh key. destruct (find_name t m ls Ht Hm Hls) as (ch & k & Hf).
  pose proof (fd_walk _ _ _ _ _ Hf rest) as Hw. pose proof (fd_chain _ _ _ _ _ Hf) as Hg.
  fold key in Hw. exists (mkLoc (fst (hashes ls)) k (snd (hashes ls))).
  assert (Eh : dns_hash key = Ret (fst (hashes ls), snd (hashes ls))).
  { unfold key. rewrite dns_hash_wire by apply Hls. by destruct (hashes ls). }
  split; [|split; [done|split; [|split]]].
  - unfold dns_lookup. rewrite Eh, bind_Ret, Hg. cbn [of_option]. by rewrite bind_Ret, Hw, bind_Ret.
  - intros Hnone. destruct (insert_at t m ls ch k d a Ht Hm Hf Hnone Hn Hfresh) as [Ht' Hm'].
    eexists. split; [|done]. unfold add_dns_hash. cbn [l_bucket l_pos l_rhash]. rewrite Hg. cbn [of_option]. rewrite bind_Ret.
    destruct (fd_case _ _ _ _ _ Hf) as [(he & _ & _ & E) | (_ & Hk & _)]; [congruence|].
    by rewrite (proj2 (Nat.leb_le _ _) Hk).
  - intros x Hx. destruct (fd_case _ _ _ _ _ Hf) as [(he & Hl & Ek & E) | (E & _)]; [|congruence].
    rewrite Hx in E. injection E as ->. destruct (remove_at t m ls ch k he Ht Hm Hf Hl Ek) as [Ht' Hm'].
    eexists. split; [|done]. unfold del_dns_hash_ent. cbn [l_bucket l_pos]. rewrite Hg. cbn [of_option].
    rewrite bind_Ret, Hl. done.
  - unfold del_dns_hash. rewrite Eh, bind_Ret, Hg. cbn [of_option]. rewrite bind_Ret, Hw, bind_Ret.
    destruct (fd_case _ _ _ _ _ Hf) as [(he & Hl & Ek & E) | (E & _)]; rewrite E.
    + destruct (remove_at t m ls ch k he Ht Hm Hf Hl Ek) as [Ht' Hm']. eauto.
    + exists t. split; [done|]. split; [done|]. by rewrite delete_id.
Qed.


(** ** Iterating *)

(** The entry at an address, with what is behind it. *)
Lemma at_addr_Some ch a s :
  at_addr ch a = Some s <-> exists l he s', ch = l ++ s /\ s = he :: s' /\ addr he = a /\ a ∉ map addr l.
Proof.
  revert s. induction ch as [|he ch IH]; intros s; cbn [at_addr].
  - split; [done|]. intros (l & he & s' & E & -> & _). by destruct l.
  - destruct (Z.eqb_spec (addr he) a) as [E|E].
    + split.
      * intros [= <-]. exists [], he, ch. repeat split; auto. intros H. by apply elem_of_nil in H.
      * intros (l & x & s' & El & -> & Ex & Hn). destruct l as [|y l]; [by rewrite El|]. injection El as <- _.
        destruct Hn. cbn. rewrite E. left.
    + rewrite IH. split.
      * intros (l & x & s' & -> & -> & Ex & Hn). exists (he :: l), x, s'. repeat split; auto.
        cbn. rewrite elem_of_cons. intros [-> | ?]; auto.
      * intros (l & x & s' & El & -> & Ex & Hn). destruct l as [|y l]; [by injection El as <- <-|].
        injection El as <- ->. exists l, x, s'. repeat split; auto. intros H. apply Hn. cbn. by right.
Qed.

(** What an iteration at a position has still to visit. *)
Definition chain_at (t : list (list dns_hash_ent_t)) (i : Z) : list dns_hash_ent_t := default [] (get t i).
Definition rem (t : list (list dns_hash_ent_t)) (pos : dns_hash_pos_t) : list dns_hash_ent_t :=
  match ent pos with
  | None => []
  | Some a => default [] (at_addr (chain_at t (bucket pos)) a)
  end ++ concat (drop (Z.to_nat (bucket pos + 1)) t).
Record pos_ok (t : list (list dns_hash_ent_t)) (pos : dns_hash_pos_t) : Prop := {
  po_bucket : 0 <= bucket pos < zlen t;
  po_ent : forall a, ent pos = Some a -> exists s, at_addr (chain_at t (bucket pos)) a = Some s;
}.
Definition addrs_ok (t : list (list dns_hash_ent_t)) : Prop := forall i ch, t !! i = Some ch -> NoDup (map addr ch).

Lemma chain_at_lookup t i ch : 0 <= i -> t !! Z.to_nat i = Some ch -> get t i = Some ch /\ chain_at t i = ch.
Proof. intros Hi H. unfold chain_at, get. rewrite (proj2 (Z.ltb_ge _ _)) by lia. by rewrite H. Qed.

(** The position behind an entry of a chain. *)
Lemma pos_after t i l he s :
  addrs_ok t -> 0 <= i -> t !! Z.to_nat i = Some (l ++ he :: s) ->
  pos_ok t (mkPos i (addr <$> head s)) /\ rem t (mkPos i (addr <$> head s)) = s ++ concat (drop (Z.to_nat (i + 1)) t).
Proof.
  intros Ha Hi Hch. destruct (chain_at_lookup t i _ Hi Hch) as [_ Hc]. pose proof (Ha _ _ Hch) as Hnd.
  assert (Hlt : (Z.to_nat i < length t)%nat) by (by apply lookup_lt_Some in Hch).
  unfold rem. cbn [bucket ent]. destruct s as [|h2 s]; cbn [head fmap option_fmap option_map].
  - split; [|done]. split; [cbn; lia|done].
  - assert (E : at_addr (chain_at t i) (addr h2) = Some (h2 :: s)).
    { apply at_addr_Some. exists (l ++ [he]), h2, s. rewrite Hc, <- app_assoc. repeat split; auto.
      intros Hin. rewrite map_app in Hnd. change (he :: h2 :: s) with ([he] ++ h2 :: s) in Hnd.
      rewrite map_app, app_assoc, <- map_app in Hnd. apply list_relations.list.NoDup_app in Hnd as (_ & Hnd & _).
      apply (Hnd _ Hin). left. }
    rewrite E. split; [|done]. split; [cbn; lia|]. cbn. intros a [= <-]. eauto.
Qed.
Lemma first_from_ok t0 t :
  addrs_ok (t0 ++ t) ->
  match concat t with
  | [] => first_from t (zlen t0) = None
  | he :: es => exists pos, first_from t (zlen t0) = Some (data he, pos) /\ pos_ok (t0 ++ t) pos /\ rem (t0 ++ t) pos = es
  end.
Proof.
  revert t0. induction t as [|ch t IH]; intros t0 Ha; [done|]. destruct ch as [|he ch]; cbn [concat app first_from].
  - replace (zlen t0 + 1) with (zlen (t0 ++ [[]])) by llia. specialize (IH (t0 ++ [[]])).
    rewrite <- app_assoc in IH. by apply IH.
  - eexists. split; [reflexivity|].
    destruct (pos_after (t0 ++ (he :: ch) :: t) (zlen t0) [] he ch Ha) as [Hp Hr]; [lia| |].
    { rewrite Nat2Z.id. by apply list_lookup_middle. }
    split; [done|]. rewrite Hr. f_equal. f_equal.
    replace (Z.to_nat (zlen t0 + 1)) with (length t0 + 1)%nat by lia. by rewrite drop_app_add.
Qed.
Lemma fetch_next_ok t pos :
  addrs_ok t -> pos_ok t pos ->
  match rem t pos with
  | [] => fetch_next t pos = Ret None
  | he :: es => exists pos', fetch_next t pos = Ret (Some (data he, pos')) /\ pos_ok t pos' /\ rem t pos' = es
  end.
Proof.
  intros Ha [Hb He]. unfold fetch_next, rem at 1.
  assert (is_Some (t !! Z.to_nat (bucket pos))) as [ch Hch] by (apply lookup_lt_is_Some_2; lia).
  destruct (chain_at_lookup t (bucket pos) ch) as [Hg Hc]; [lia|done|].
  destruct (ent pos) as [a|].
  - rewrite Hg. cbn [of_option]. rewrite bind_Ret. destruct (He a eq_refl) as [s Hs]. rewrite Hs. rewrite Hc in Hs. rewrite Hs. cbn [of_option default]. rewrite bind_Ret.
    apply at_addr_Some in Hs as (l & he & s' & El & -> & _). cbn [app]. eexists. split; [reflexivity|].
    apply (pos_after t (bucket pos) l he s'); [done|lia|]. by rewrite Hch, El.
  - cbn [app]. pose proof (first_from_ok (take (Z.to_nat (bucket pos + 1)) t) (drop (Z.to_nat (bucket pos + 1)) t)) as Hf.
    rewrite take_drop in Hf. specialize (Hf Ha). rewrite length_take in Hf.
    replace (Z.of_nat (Z.to_nat (bucket pos + 1) `min` length t)) with (bucket pos + 1) in Hf by lia.
    destruct (concat _) as [|he es]; [by rewrite Hf|]. destruct Hf as (pos' & -> & Hp & Hr). eauto.
Qed.

(** Entries that have been visited can be deleted. *)
Lemma rem_out t pos n ch k he :
  pos_ok t pos -> t !! n = Some ch -> ch !! k = Some he -> he ∉ rem t pos ->
  let t' := <[n := take k ch ++ drop (S k) ch]> t in pos_ok t' pos /\ rem t' pos = rem t pos.
Proof.
  intros [Hb He] Hn Hk Hnot t'. assert (Hlt : (n < length t)%nat) by (by apply lookup_lt_Some in Hn).
  assert (Hle : (n <= Z.to_nat (bucket pos))%nat).
  { destruct (Nat.le_gt_cases n (Z.to_nat (bucket pos))) as [H|H]; [done|]. destruct Hnot. unfold rem.
    apply elem_of_app. right. apply list_elem_of_In, in_concat. exists ch. split; apply list_elem_of_In.
    - apply (list_elem_of_lookup_2 _ (n - Z.to_nat (bucket pos + 1))). rewrite lookup_drop, <- Hn. f_equal. lia.
    - by eapply list_elem_of_lookup_2. }
  assert (Hdrop : drop (Z.to_nat (bucket pos + 1)) t' = drop (Z.to_nat (bucket pos + 1)) t)
    by (unfold t'; rewrite drop_insert_lt by lia; done).
  assert (Hat : forall a, ent pos = Some a -> at_addr (chain_at t' (bucket pos)) a = at_addr (chain_at t (bucket pos)) a).
  { intros a Ea. destruct (He a Ea) as [s Hs]. destruct (decide (n = Z.to_nat (bucket pos))) as [->|Hne].
    - destruct (chain_at_lookup t (bucket pos) ch) as [_ Hc]; [lia|done|].
      destruct (chain_at_lookup t' (bucket pos) (take k ch ++ drop (S k) ch)) as [_ Hc'];
        [lia|by apply list_lookup_insert_eq|].
      assert (Hns : he ∉ s).
      { intros Hin. apply Hnot. unfold rem. rewrite Ea, Hs. cbn. apply elem_of_app. by left. }
      rewrite Hs, Hc'. rewrite Hc in Hs. apply at_addr_Some in Hs as (l & x & s' & -> & -> & Ex & Hna).
      assert (Hkl : (k < length l)%nat).
      { destruct (Nat.lt_ge_cases k (length l)) as [H|H]; [done|]. rewrite lookup_app_r in Hk by done.
        destruct Hns. by eapply list_elem_of_lookup_2. }
      apply at_addr_Some. exists (take k l ++ drop (S k) l), x, s'.
      rewrite take_app_le, drop_app_le, app_assoc by lia. repeat split; auto.
      intros Hin. apply Hna. rewrite map_app, elem_of_app in Hin. rewrite <- (take_drop k l), map_app, elem_of_app.
      destruct Hin as [Hin | Hin]; [by left|right]. destruct (drop k l) as [|y l'] eqn:El.
      + rewrite <- Nat.add_1_r, <- drop_drop, El in Hin. by apply elem_of_nil in Hin.
      + rewrite <- Nat.add_1_r, <- drop_drop, El in Hin. cbn in *. by right.
    - unfold t', chain_at, get. by rewrite list_lookup_insert_ne. }
  split.
  - split; [unfold t'; by rewrite length_insert|]. intros a Ea. rewrite (Hat a Ea). auto.
  - unfold rem. rewrite Hdrop. destruct (ent pos) as [a|]; [|done]. by rewrite (Hat a eq_refl).
Qed.

Lemma nodup_concat {A} (t : list (list A)) :
  (forall i ch, t !! i = Some ch -> NoDup ch) ->
  (forall i j ci cj x, t !! i = Some ci -> t !! j = Some cj -> x ∈ ci -> x ∈ cj -> i = j) -> NoDup (concat t).
Proof.
  induction t as [|ch t IH]; intros Hn Hd; [constructor|]. cbn [concat].
  apply list_relations.list.NoDup_app. split; [by apply (Hn 0%nat)|]. split.
  - intros x Hx Hin. apply list_elem_of_In, in_concat in Hin as (c & Hc & Hin).
    apply list_elem_of_In, list_elem_of_lookup_1 in Hc as [j Hj]. apply list_elem_of_In in Hin.
    by specialize (Hd 0%nat (S j) ch c x eq_refl Hj Hx Hin).
  - apply IH.
    + intros i c Hi. by apply (Hn (S i)).
    + intros i j ci cj x Hi Hj H1 H2. specialize (Hd (S i) (S j) ci cj x Hi Hj H1 H2). lia.
Qed.
Lemma table_nodup t : table_ok t -> NoDup (concat t).
Proof.
  intros Ht. apply nodup_concat.
  - intros i ch Hi. pose proof (ck_keys _ _ (tk_chains _ Ht _ _ Hi)) as Hk. by apply NoDup_fmap_1 in Hk.
  - intros i j ci cj x. by apply same_chain.
Qed.
Lemma holds_concat t he : holds t he <-> he ∈ concat t.
Proof.
  rewrite list_elem_of_In, in_concat. split.
  - intros (i & ch & Hi & Hin). exists ch. split; apply list_elem_of_In; [by eapply list_elem_of_lookup_2|done].
  - intros (ch & Hc & Hin). apply list_elem_of_In, list_elem_of_lookup_1 in Hc as [i Hi]. exists i, ch.
    split; [done|]. by apply list_elem_of_In.
Qed.
(** Every well-formed table stands for a map. *)
Lemma models_exists t : table_ok t -> exists m, models t m.
Proof.
  intros Ht. set (kvs := map (fun he => (ekey he, data he)) (concat t)).
  assert (Hnd : NoDup (kvs.*1)).
  { unfold kvs. rewrite <- list_fmap_compose. apply NoDup_fmap_2_strong; [|by apply table_nodup].
    intros x y Hx Hy E. apply (holds_unique t); auto; by apply holds_concat. }
  exists (list_to_map kvs). intros k d. rewrite <- elem_of_list_to_map by done. unfold kvs.
  rewrite list_elem_of_fmap. split.
  - intros (he & [= -> ->] & Hin). exists he. split; [by apply holds_concat|done].
  - intros (he & Hin & <- & <-). exists he. split; [done|]. by apply holds_concat.
Qed.

(** Deleting an entry by its name. *)
Lemma del_entry t he :
  table_ok t -> holds t he ->
  exists n ch k, t !! n = Some ch /\ ch !! k = Some he /\
    del_dns_hash t (qname (data he)) = Ret (<[n := take k ch ++ drop (S k) ch]> t, Some (data he)) /\
    table_ok (<[n := take k ch ++ drop (S k) ch]> t).
Proof.
  intros Ht Hin. destruct (models_exists t Ht) as [m Hm].
  assert (Hn : exists ls, names (qname (data he)) ls).
  { destruct Hin as (i & ch & Hi & Hx). destruct (ck_ents _ _ (tk_chains _ Ht _ _ Hi) he Hx) as (ls & Hn & _). eauto. }
  destruct Hn as (ls & Hn). assert (Ek : ekey he = canon ls) by (unfold ekey; by rewrite (names_labels _ _ Hn)).
  destruct Hn as [Hls (rest & Eq)]. destruct (find_name t m ls Ht Hm Hls) as (ch & k & Hf).
  assert (Hsome : m !! canon ls = Some (data he)) by (apply Hm; eauto).
  destruct (fd_case _ _ _ _ _ Hf) as [(x & Hl & Ex & _) | (E & _)]; [|congruence].
  pose proof (fd_index _ _ _ _ _ Hf) as Hch.
  assert (x = he) as ->.
  { apply (holds_unique t); [done| |done|congruence]. exists (Z.to_nat (fst (hashes ls))), ch.
    split; [done|]. by eapply list_elem_of_lookup_2. }
  exists (Z.to_nat (fst (hashes ls))), ch, k. split; [done|]. split; [done|].
  split; [|by apply (remove_at t m ls ch k he)].
  unfold del_dns_hash. rewrite Eq, dns_hash_wire by apply Hls.
  pose proof (fd_walk _ _ _ _ _ Hf rest) as Hw. pose proof (fd_chain _ _ _ _ _ Hf) as Hg.
  destruct (hashes ls) as [i rh]. cbn [fst snd] in *. rewrite bind_Ret, Hg. cbn [of_option].
  by rewrite bind_Ret, Hw, bind_Ret, Hsome.
Qed.

(** An iteration whose user deletes some of the entries it gets. *)
Fixpoint visit_loop (fuel : nat) (del : dns_cent_t -> bool) (t : list (list dns_hash_ent_t))
    (r : option (dns_cent_t * dns_hash_pos_t)) : cres (list (list dns_hash_ent_t) * list dns_cent_t) :=
  match r with
  | None => Ret (t, [])
  | Some (d, pos) =>
      match fuel with
      | O => OutOfFuel
      | S fuel =>
          t ← (if del d then '(t, _) ← del_dns_hash t (qname d); Ret t else Ret t);
          r ← fetch_next t pos;
          '(t, ds) ← visit_loop fuel del t r;
          Ret (t, d :: ds)
      end
  end.
Definition visit (del : dns_cent_t -> bool) (t : list (list dns_hash_ent_t)) :=
  visit_loop (length (concat t)) del t (fetch_first t).

Lemma table_addrs t : table_ok t -> addrs_ok t.
Proof. intros Ht i ch Hi. apply (tk_chains _ Ht _ _ Hi). Qed.

(** One round: the entry may be deleted, the rest of the iteration stays. *)
Lemma visit_step del t he pos :
  table_ok t -> holds t he -> pos_ok t pos -> he ∉ rem t pos ->
  exists t', (if del (data he) : bool then '(t, _) ← del_dns_hash t (qname (data he)); Ret t else Ret t) = Ret t' /\
    table_ok t' /\ pos_ok t' pos /\ rem t' pos = rem t pos /\
    forall x, holds t' x <-> holds t x /\ (x = he -> del (data he) = false).
Proof.
  intros Ht Hh Hp Hnot. destruct (del (data he)) eqn:Ed.
  - destruct (del_entry t he Ht Hh) as (n & ch & k & Hn & Hk & -> & Ht'). rewrite bind_Ret.
    eexists. split; [reflexivity|]. split; [done|].
    destruct (rem_out t pos n ch k he Hp Hn Hk Hnot) as [Hp' Hr']. split; [done|]. split; [done|].
    intros x. rewrite (out_holds t n ch k he Ht Hn Hk). split; intros [H1 H2]; (split; [done|]); intros E; [by destruct H2|].
    by specialize (H2 E).
  - exists t. split; [done|]. split; [done|]. split; [done|]. split; [done|]. intros x. tauto.
Qed.
Lemma visit_loop_ok del : forall fuel t he pos,
  table_ok t -> holds t he -> pos_ok t pos -> NoDup (he :: rem t pos) -> (forall x, x ∈ rem t pos -> holds t x) ->
  (length (rem t pos) < fuel)%nat ->
  exists t', visit_loop fuel del t (Some (data he, pos)) = Ret (t', map data (he :: rem t pos)) /\ table_ok t' /\
    forall x, holds t' x <-> holds t x /\ (x ∈ he :: rem t pos -> del (data x) = false).
Proof.
  induction fuel as [|fuel IH]; intros t he pos Ht Hh Hp Hnd Hin Hf; [lia|]. cbn [visit_loop].
  apply list_relations.list.NoDup_cons in Hnd as [Hnot Hnd].
  destruct (visit_step del t he pos Ht Hh Hp Hnot) as (t1 & -> & Ht1 & Hp1 & Hr1 & Hh1). rewrite bind_Ret.
  pose proof (fetch_next_ok t1 pos (table_addrs _ Ht1) Hp1) as Hnext. rewrite Hr1 in Hnext.
  destruct (rem t pos) as [|h2 es] eqn:Er.
  - rewrite Hnext, bind_Ret. destruct fuel; cbn [visit_loop]; rewrite bind_Ret;
      (exists t1; split; [done|]; split; [done|]; intros x; rewrite Hh1, list_elem_of_singleton; naive_solver).
  - destruct Hnext as (pos' & -> & Hp' & Hr'). rewrite bind_Ret.
    assert (Hh2 : forall x, x ∈ h2 :: es -> holds t1 x).
    { intros x Hx. apply Hh1. split; [by apply Hin|]. intros ->. by destruct Hnot. }
    destruct (IH t1 h2 pos' Ht1) as (t2 & -> & Ht2 & Hholds); auto.
    { apply Hh2. left. }
    { by rewrite Hr'. }
    { intros x Hx. rewrite Hr' in Hx. apply Hh2. by right. }
    { rewrite Hr'. cbn in Hf. lia. }
    rewrite bind_Ret, Hr'. exists t2. split; [done|]. split; [done|]. intros x. rewrite Hholds, Hh1, Hr'.
    rewrite (elem_of_cons (h2 :: es)). naive_solver.
Qed.

(** C39: iterating over the table ends after visiting every entry exactly once,
    also if the user deletes any of the entries it is given: afterwards the table
    is well-formed and holds exactly the entries that were not deleted. *)
Theorem dns_hash_iteration del t :
  table_ok t ->
  exists t', visit del t = Ret (t', map data (concat t)) /\ table_ok t' /\ NoDup (concat t) /\
    forall he, holds t' he <-> holds t he /\ del (data he) = false.
Proof.
  intros Ht. unfold visit, fetch_first. pose proof (table_nodup _ Ht) as Hnd.
  pose proof (first_from_ok [] t (table_addrs _ Ht)) as Hf. cbn [app] in Hf. change (zlen []) with 0 in Hf.
  destruct (concat t) as [|he es] eqn:Ec.
  - rewrite Hf. exists t. split; [done|]. split; [done|]. split; [done|]. intros x.
    rewrite holds_concat, Ec, elem_of_nil. tauto.
  - destruct Hf as (pos & -> & Hp & Hr).
    destruct (visit_loop_ok del (length (he :: es)) t he pos) as (t' & E & Ht' & Hh); auto.
    + apply holds_concat. rewrite Ec. left.
    + by rewrite Hr.
    + intros x Hx. apply holds_concat. rewrite Ec, <- Hr. by right.
    + rewrite Hr. cbn. lia.
    + rewrite Hr in *. exists t'. split; [done|]. split; [done|]. split; [done|]. intros x. rewrite Hh.
      rewrite <- Ec, <- holds_concat. tauto.
Qed.

(** ** Freeing *)

(** A list entry matches a name: the name is in the domain, and is the domain
    itself if an exact match is asked for. *)
Definition matches (ls : list (list Z)) (sl : slist_t) : bool :=
  let dl := labels (domain sl) in
  bool_decide (same_name (drop (length ls - length dl) ls) dl) && (negb (exact sl) || (length ls =? length dl)%nat).
(** The first entry that matches decides. *)
Definition to_delete (sla : list slist_t) (he : dns_hash_ent_t) : bool :=
  match List.find (matches (labels (qname (data he)))) sla with Some sl => rule_included sl | None => false end.
Definition slist_ok (sla : list slist_t) : Prop := Forall (fun sl => names (domain sl) (labels (domain sl))) sla.

Lemma end_offset_zero a n : Forall label_ok a -> Compress.end_offset a n = 0 <-> (length a <= n)%nat.
Proof.
  intros Ha. unfold Compress.end_offset. split.
  - intros E. destruct (Nat.le_gt_cases (length a) n) as [H|H]; [done|]. exfalso.
    destruct a as [|x a]; [cbn in H; lia|]. destruct (length (x :: a) - n)%nat eqn:El; [lia|].
    cbn [take] in E. rewrite wire_labels_cons in E. cbn [length] in E. lia.
  - intros H. by replace (length a - n)%nat with 0%nat by lia.
Qed.
Lemma match_count_domain a b :
  Compress.match_count a b = length b <-> same_name (drop (length a - length b) a) b.
Proof.
  pose proof (Compress.match_count_le a b) as [H1 H2]. split.
  - intros E. pose proof (Compress.match_count_same a b) as H. by rewrite E, Nat.sub_diag, drop_0 in H.
  - intros H. pose proof (Compress.match_count_max a b (length a - length b) 0) as Hm. rewrite drop_0 in Hm.
    specialize (Hm H ltac:(lia)). apply Compress.same_name_length in H. rewrite length_drop in H. lia.
Qed.
Lemma selected_ok ls rest sla :
  name_ok ls -> slist_ok sla ->
  selected (wire ls ++ rest) sla =
  Ret (match List.find (matches ls) sla with Some sl => rule_included sl | None => false end).
Proof.
  intros Hls. induction 1 as [|sl sla [Hdl (rest' & E)] _ IH]; [done|]. cbn [selected List.find].
  rewrite E at 1. rewrite Compress.domain_match_ok by done. cbv zeta. rewrite bind_Ret.
  set (dl := labels (domain sl)) in *. pose proof (Compress.match_count_le ls dl) as [H1 H2].
  assert (Em : matches ls sl = (Compress.end_offset dl (Compress.match_count ls dl) =? 0) &&
    (negb (exact sl) || (Compress.end_offset ls (Compress.match_count ls dl) =? 0))).
  { unfold matches. fold dl. apply Bool.eq_iff_eq_true.
    rewrite !andb_true_iff, !orb_true_iff, bool_decide_eq_true, !Z.eqb_eq, Nat.eqb_eq.
    rewrite !end_offset_zero by (apply Hls || apply Hdl). rewrite <- match_count_domain.
    split; intros [Ha [Hb | Hb]]; (split; [lia|]); auto; right; lia. }
  rewrite <- Em. by destruct (matches ls sl).
Qed.

Lemma chain_filter i ch (p : dns_hash_ent_t -> bool) : chain_ok i ch -> chain_ok i (List.filter p ch).
Proof.
  intros [He Hs Hk Ha]. induction ch as [|he ch IH]; [by split|]. cbn [List.filter].
  inversion Hs as [|? ? Hs' Hall]; subst. cbn in Hk, Ha.
  apply list_relations.list.NoDup_cons in Hk as [Hk0 Hk], Ha as [Ha0 Ha].
  destruct IH as [He' Hs2 Hk2 Ha2]; auto; [intros x Hx; apply He; by right|].
  assert (Hsub : forall x, x ∈ List.filter p ch -> x ∈ ch).
  { intros x Hx. apply list_elem_of_In in Hx. apply filter_In in Hx as [Hx _]. by apply list_elem_of_In. }
  destruct (p he); [|by split]. split.
  - intros x [-> | Hx]%elem_of_cons; [apply He; left|auto].
  - constructor; [done|]. apply List.Forall_forall. intros x Hx. rewrite List.Forall_forall in Hall.
    apply Hall. apply list_elem_of_In, Hsub. by apply list_elem_of_In.
  - cbn. constructor; [|done]. intros (x & E & Hx)%list_elem_of_fmap. apply Hk0. rewrite E. by apply list_elem_of_fmap_2, Hsub.
  - cbn. constructor; [|done]. intros (x & E & Hx)%list_elem_of_fmap. apply Ha0. rewrite E. by apply list_elem_of_fmap_2, Hsub.
Qed.
Lemma free_selected_loop_ok i ch sla :
  (forall he, he ∈ ch -> ent_ok i he) -> slist_ok sla ->
  free_selected_loop ch sla =
  Ret (List.filter (fun he => negb (to_delete sla he)) ch, map data (List.filter (to_delete sla) ch)).
Proof.
  intros He Hsl. induction ch as [|he ch IH]; [done|]. cbn [free_selected_loop List.filter].
  destruct (He he) as (ls & Hn & _); [left|]. pose proof (names_labels _ _ Hn) as El. destruct Hn as [Hls (rest & E)].
  assert (Es : selected (qname (data he)) sla = Ret (to_delete sla he)).
  { unfold to_delete. rewrite El, E. by apply selected_ok. }
  rewrite Es, bind_Ret, IH, bind_Ret by (intros x Hx; apply He; by right). by destruct (to_delete sla he).
Qed.

(** Freeing. For every chain: [free_dns_hash_bucket] deletes its entries;
    [free_dns_hash_selected] deletes exactly those whose name an include rule of
    the list is the first to match; in both cases the entries are handed to
    [del_cent] once each, the rest of the table stays, and the table is
    well-formed. [free_dns_hash] does this for the whole table. *)
Theorem dns_hash_free t i sla :
  table_ok t -> slist_ok sla -> 0 <= i < HASH_NUM_BUCKETS ->
  exists ch, get t i = Some ch /\
  (exists t', free_dns_hash_bucket t i = Ret (t', map data ch) /\ table_ok t' /\
     forall he, holds t' he <-> holds t he /\ he ∉ ch) /\
  (exists t', free_dns_hash_selected t i sla = Ret (t', map data (List.filter (to_delete sla) ch)) /\ table_ok t' /\
     forall he, holds t' he <-> holds t he /\ ~ (he ∈ ch /\ to_delete sla he = true)) /\
  (table_ok (fst (free_dns_hash t)) /\ snd (free_dns_hash t) = map data (concat t) /\
   forall he, ~ holds (fst (free_dns_hash t)) he).
Proof.
  intros Ht Hsl Hi. assert (is_Some (t !! Z.to_nat i)) as [ch Hch].
  { apply lookup_lt_is_Some_2. pose proof (tk_length _ Ht). lia. }
  destruct (chain_at_lookup t i ch) as [Hg _]; [lia|done|]. exists ch. split; [done|].
  pose proof (tk_chains _ Ht _ _ Hch) as Hck.
  split; [|split].
  - eexists. split; [unfold free_dns_hash_bucket; by rewrite Hg|].
    replace (@nil dns_hash_ent_t) with (List.filter (fun _ => false) ch) by (clear; induction ch; done).
    split; [eapply table_set; [done..|by apply chain_filter]|]. intros he. rewrite (keep_holds t _ ch) by done. naive_solver.
  - eexists. split; [unfold free_dns_hash_selected; rewrite Hg; cbn [of_option];
      rewrite bind_Ret, (free_selected_loop_ok _ _ _ (ck_ents _ _ Hck) Hsl); done|].
    split; [eapply table_set; [done..|by apply chain_filter]|]. intros he. rewrite (keep_holds t _ ch) by done.
    destruct (to_delete sla he); cbn [negb]; naive_solver.
  - assert (Hempty : forall j c, map (fun _ => []) t !! j = Some c -> c = @nil dns_hash_ent_t).
    { intros j c Hj. rewrite list_lookup_fmap in Hj. destruct (t !! j); [by injection Hj as <-|done]. }
    split; [|split; [done|]]; cbn [free_dns_hash fst].
    + split; [rewrite length_map; apply Ht|]. intros j c ->%Hempty. split; [|constructor..].
      intros he H. by apply elem_of_nil in H.
    + intros he (j & c & ->%Hempty & H). by apply elem_of_nil in H.
Qed.
End hash.
Arguments dns_cent_t : clear implicits.

(** *** Examples: a table with one entry *)

Definition demo_ent : dns_cent_t Z := mkCent (wire demo_name) 42.
Definition demo_table : list (list (@dns_hash_ent_t Z)) :=
  match dns_lookup (P := Z) mk_dns_hash (wire demo_name) with
  | Ret (_, loc) => match add_dns_hash mk_dns_hash demo_ent loc (Some 100) with Ret (t, _) => t | _ => [] end
  | _ => []
  end.
Lemma demo_names : names (qname demo_ent) demo_name.
Proof. split; [apply demo_name_ok|]. exists []. by rewrite app_nil_r. Qed.
Lemma demo_table_ok : table_ok demo_table /\ models demo_table {[canon demo_name := demo_ent]}.
Proof.
  destruct (@mk_table_ok Z) as [Ht Hm]. destruct (find_name _ _ demo_name Ht Hm demo_name_ok) as (ch & k & Hf).
  destruct (insert_at _ _ demo_name ch k demo_ent 100 Ht Hm Hf (lookup_empty _) demo_names) as [Ht' Hm'].
  { intros he (i & c & Hi & Hin). unfold mk_dns_hash in Hi. apply lookup_replicate_1 in Hi as [-> _]. by apply elem_of_nil in Hin. }
  assert (E : demo_table = <[Z.to_nat (fst (hashes demo_name)) := take k ch ++ mkEnt 100 (snd (hashes demo_name)) demo_ent :: drop k ch]> mk_dns_hash).
  { unfold demo_table, dns_lookup. rewrite <- (app_nil_r (wire demo_name)), dns_hash_wire by apply demo_name_ok.
    pose proof (fd_walk _ _ _ _ _ Hf []) as Hw. pose proof (fd_chain _ _ _ _ _ Hf) as Hg.
    destruct (fd_case _ _ _ _ _ Hf) as [(he & _ & _ & E) | (_ & Hk & _)]; [by rewrite lookup_empty in E|].
    destruct (hashes demo_name) as [i rh]. cbn [fst snd] in *. rewrite bind_Ret, Hg. cbn [of_option].
    rewrite bind_Ret, Hw, bind_Ret. unfold add_dns_hash. cbn [l_bucket l_pos l_rhash]. rewrite Hg. cbn [of_option].
    by rewrite bind_Ret, (proj2 (Nat.leb_le _ _) Hk). }
  rewrite E. split; [exact Ht'|]. rewrite <- (insert_empty (M := gmap (list (list Z)))). exact Hm'.
Qed.

Lemma dns_hash_refines_map_witness :
  exists loc, dns_lookup demo_table (wire demo_upper ++ [7]) = Ret (Some demo_ent, loc) /\
  exists t', del_dns_hash demo_table (wire demo_upper ++ [7]) = Ret (t', Some demo_ent) /\ models t' ∅.
Proof.
  destruct demo_table_ok as [Ht Hm]. assert (Ek : canon demo_upper = canon demo_name) by reflexivity.
  destruct (dns_hash_refines_map demo_table {[canon demo_name := demo_ent]} demo_upper [7] (mkCent (wire demo_upper) 1) 200
    Ht Hm demo_upper_ok) as (loc & E1 & _ & _ & _ & t' & E2 & _ & Hm').
  - split; [apply demo_upper_ok|]. exists []. by rewrite app_nil_r.
  - intros he Hh. apply holds_concat in Hh. assert (Ea : map addr (concat demo_table) = [100]) by (vm_compute; reflexivity).
    assert (Hin : addr he ∈ map addr (concat demo_table)) by (by apply list_elem_of_fmap_2).
    rewrite Ea in Hin. apply list_elem_of_singleton in Hin. lia.
  - rewrite Ek, lookup_singleton_eq in *. exists loc. split; [done|]. exists t'. split; [done|].
    by rewrite delete_singleton_eq in Hm'.
Defined.

Lemma dns_hash_iteration_witness :
  exists t', visit (fun _ => true) demo_table = Ret (t', [demo_ent]) /\ table_ok t' /\ forall he, ~ holds t' he.
Proof.
  destruct (dns_hash_iteration (fun _ => true) demo_table (proj1 demo_table_ok)) as (t' & E & Ht & _ & Hh).
  exists t'. split; [exact E|]. split; [done|]. intros he H. by apply Hh in H as [_ ?].
Defined.

Lemma dns_hash_free_witness :
  exists ch, get demo_table 5 = Some ch /\ exists t', free_dns_hash_bucket demo_table 5 = Ret (t', map data ch) /\ table_ok t'.
Proof.
  destruct (dns_hash_free demo_table 5 [] (proj1 demo_table_ok) (List.Forall_nil _) ltac:(vm_compute; split; [discriminate|reflexivity]))
    as (ch & Hg & (t' & E & Ht & _) & _). exists ch. split; [done|]. eauto.
Defined.
End DnsHash.
