(* ===== verification/DnsCache.v ===== *)
(** * pdnsd/src/cache.c: the cache of DNS records

    The entries of the cache ([dns_cent_t], one per name) own sets of records
    ([rr_set_t]); a list of all sets that may be purged, from the oldest to the
    newest, keeps the cache within its size.
    - A name is the sequence of its labels: DnsName.v shows that the helpers of
      names in transport format compute the length, the number of labels and the
      rest of a name. The hash table is a finite map keyed by names up to case:
      DnsHash.v shows that hash.c is one.
    - The two arrays of an entry, [rrmu] and [rrext], are one sequence, as the
      macros [RRARR_*] treat them: of length [NRRMU] while [rrext] is not
      allocated and [NRRTOT] when it is.
    - An entry of the list refers to its set by the entry and the index. Reading a
      set that was freed, or removing what is not in the list, is undefined.
    - [time(NULL)] and whether [malloc] succeeds are arbitrary sequences. A
      [time_t] has 32 bits; sums of times that do not fit wrap around, as the
      generated code does, although C leaves signed overflow undefined.
    - Each section between locking and unlocking is an atomic step. *)
From stdpp Require Import gmap.
From S2P Require Import Prelude Handlers DnsName DnsHash.
Local Open Scope Z_scope.

Module DnsCache.
#[local] Abbreviation canon := DnsHash.DnsHash.canon.

Definition NRRMU : nat := 8.
Definition NRREXT : nat := 39.
Definition NRRTOT : nat := 47.
Definition CF_NEGATIVE : Z := 1.
Definition CF_LOCAL : Z := 2.
Definition CF_AUTH : Z := 4.
Definition CF_NOCACHE : Z := 8.
Definition CF_ADDITIONAL : Z := 16.
Definition CF_NOPURGE : Z := 32.
Definition CF_ROOTSERV : Z := 64.
Definition DF_NEGATIVE : Z := 1.
Definition DF_LOCAL : Z := 2.
Definition DF_AUTH : Z := 4.
Definition DF_NOCACHE : Z := 8.
Definition DF_WILD : Z := 16.
Definition cundef : Z := 255.
Definition CACHE_LAT : Z := 120.
Definition MCSZ : Z := 10240.
Definition CLAT_ADJ (ttl : Z) : Z := if ttl <? CACHE_LAT then CACHE_LAT else ttl.
(** The sum in [timedout] and [timedout_nxdom]. *)
Definition expiry (ts ttl : Z) : Z := s32 (ts + CLAT_ADJ ttl).
Lemma expiry_exact ts ttl : - 2 ^ 31 <= ts + CLAT_ADJ ttl < 2 ^ 31 -> expiry ts ttl = ts + CLAT_ADJ ttl.
Proof. apply s32_small. Qed.
(** The sizes of the structures with 32-bit pointers and times. *)
Definition sizeof_rr_bucket_t : Z := 8.
Definition sizeof_rr_set_t : Z := 20.
Definition sizeof_dns_cent_t : Z := 52.
Definition sizeof_rrext : Z := 4 * Z.of_nat NRREXT.

Definition has (flags bit : Z) : bool := negb (Z.land flags bit =? 0).
Definition clear (flags bit : Z) : Z := Z.land flags (Z.lnot bit).

(** The classes of the types and which classes they exclude, by index. *)
Definition RRCL_ALIAS : Z := 1.
Definition RRCL_RECORD : Z := 2.
Definition RRCL_IDEM : Z := 4.
Definition RRCL_PTR : Z := 8.
Definition alias_info := (RRCL_ALIAS, Z.lor RRCL_RECORD RRCL_PTR).
Definition record_info := (RRCL_RECORD, Z.lor RRCL_ALIAS RRCL_PTR).
Definition idem_info := (RRCL_IDEM, 0).
Definition ptr_info := (RRCL_PTR, Z.lor RRCL_ALIAS RRCL_RECORD).
Definition rr_info : list (Z * Z) :=
  [record_info; idem_info; alias_info; idem_info; ptr_info; idem_info; idem_info; record_info; idem_info; idem_info;
   idem_info; idem_info; idem_info; idem_info; record_info; record_info; idem_info; record_info; record_info; record_info;
   record_info; record_info; record_info; ptr_info; idem_info; idem_info; idem_info; record_info; record_info; idem_info;
   record_info; record_info; record_info; record_info; record_info; record_info; record_info; idem_info; idem_info; idem_info;
   idem_info; idem_info; idem_info; idem_info; idem_info; idem_info; idem_info].
Definition excludes_ (i j : nat) : bool :=
  let a := default (0, 0) (rr_info !! i) in let b := default (0, 0) (rr_info !! j) in
  has (fst a) (snd b) || has (snd a) (fst b).

(** [rrlkuptab]: the index of a type, from [T_MIN]. *)
Definition T_MIN : Z := 1.
Definition T_PTR : Z := 12.
Definition rrlkuptab : list nat :=
  [0; 1; 8; 9; 2; 3; 10; 11; 12; 13; 14; 4; 15; 16; 5; 6; 17; 18; 19; 20; 21; 22; 23; 24; 25; 26; 27; 7; 28; 29; 30; 31; 32; 33;
   34; 35; 36; 47; 48; 49; 50; 37; 38; 39; 40; 41; 42; 43; 44; 45; 46]%nat.

(** A set of records, each the bytes of its data. *)
Record rr_set_t := mkRRset {
  lent : option nat;
  ttl : Z; ts : Z;
  flags : Z;
  rrs : list (list Z);
}.
(** The union: [neg] or [rr]. *)
Inductive cent_body :=
| Neg (neg_lent : option nat) (neg_ttl neg_ts : Z)
| RR (arr : list (option rr_set_t)).
Record dns_cent_t := mkCent {
  qname : list (list Z);
  cs : Z;
  num_rrs : Z;
  dflags : Z;
  body : cent_body;
  c_ns : Z; c_soa : Z;
}.
(** [le_idx] is [None] for the entry of a negative domain ([rrset] is NULL, [idx] -1). *)
Record rr_lent_t := mkLent { le_id : nat; le_cent : Z; le_idx : option nat }.

Record cache := mkCache {
  cents : gmap Z dns_cent_t;
  table : gmap (list (list Z)) Z;
  rrset_l : list rr_lent_t;
  cache_size : Z;
  ent_num : Z;
  insert_sort : bool;
  next_id : nat;                (* the address of the next list entry *)
  ticks : nat;                  (* calls of time and malloc so far *)
}.
Record globals := mkGlobals { perm_cache : Z; min_ttl : Z; max_ttl : Z; g_neg_ttl : Z }.

Definition with_cents m w := mkCache m (table w) (rrset_l w) (cache_size w) (ent_num w) (insert_sort w) (next_id w) (ticks w).
Definition with_table t w := mkCache (cents w) t (rrset_l w) (cache_size w) (ent_num w) (insert_sort w) (next_id w) (ticks w).
Definition with_list l w := mkCache (cents w) (table w) l (cache_size w) (ent_num w) (insert_sort w) (next_id w) (ticks w).
Definition with_size s w := mkCache (cents w) (table w) (rrset_l w) s (ent_num w) (insert_sort w) (next_id w) (ticks w).
Definition with_num n w := mkCache (cents w) (table w) (rrset_l w) (cache_size w) n (insert_sort w) (next_id w) (ticks w).
Definition with_sort b w := mkCache (cents w) (table w) (rrset_l w) (cache_size w) (ent_num w) b (next_id w) (ticks w).
Definition with_next n w := mkCache (cents w) (table w) (rrset_l w) (cache_size w) (ent_num w) (insert_sort w) n (ticks w).
Definition with_ticks n w := mkCache (cents w) (table w) (rrset_l w) (cache_size w) (ent_num w) (insert_sort w) (next_id w) n.

Definition set_flags f (c : dns_cent_t) := mkCent (qname c) (cs c) (num_rrs c) f (body c) (c_ns c) (c_soa c).
Definition set_c_ns n (c : dns_cent_t) := mkCent (qname c) (cs c) (num_rrs c) (dflags c) (body c) n (c_soa c).
Definition set_c_soa n (c : dns_cent_t) := mkCent (qname c) (cs c) (num_rrs c) (dflags c) (body c) (c_ns c) n.
Definition set_body b (c : dns_cent_t) := mkCent (qname c) (cs c) (num_rrs c) (dflags c) b (c_ns c) (c_soa c).
Definition set_cs s (c : dns_cent_t) := mkCent (qname c) s (num_rrs c) (dflags c) (body c) (c_ns c) (c_soa c).
Definition set_num n (c : dns_cent_t) := mkCent (qname c) (cs c) n (dflags c) (body c) (c_ns c) (c_soa c).
Definition set_lent o (r : rr_set_t) := mkRRset o (ttl r) (ts r) (flags r) (rrs r).
Definition set_ttl t (r : rr_set_t) := mkRRset (lent r) t (ts r) (flags r) (rrs r).
Definition set_rrs l (r : rr_set_t) := mkRRset (lent r) (ttl r) (ts r) (flags r) l.

(** ** Access *)
Section code.
Context (malloc_ok : nat -> bool) (clock : nat -> Z) (global : globals).
#[local] Abbreviation act := (prog cache).

Definition tick : act nat := fun w => Ret (ticks w, with_ticks (S (ticks w)) w).
Definition time : act Z := n ← tick; mret (clock n).
Definition malloc : act bool := n ← tick; mret (malloc_ok n).
Definition cent_at (a : Z) : act dns_cent_t := fun w => lift (of_option (cents w !! a)) w.
Definition put (a : Z) (c : dns_cent_t) : act unit := sets (fun w => with_cents (<[a := c]> (cents w)) w).
(** Call a function with a pointer to an entry of the cache. *)
Definition on {A} (a : Z) (f : dns_cent_t -> act (A * dns_cent_t)) : act A :=
  c ← cent_at a; '(r, c) ← f c; _ ← put a c; mret r.
Definition modify (a : Z) (f : dns_cent_t -> dns_cent_t) : act unit := c ← cent_at a; put a (f c).
Definition add_size (n : Z) : act unit := sets (fun w => with_size (cache_size w + n) w).

Definition negative (c : dns_cent_t) : bool := has (dflags c) DF_NEGATIVE.
(** [RRARR_LEN] and [RRARR_INDEX] *)
Definition RRARR (c : dns_cent_t) : cres (list (option rr_set_t)) :=
  if negative c then Ret [] else match body c with RR arr => Ret arr | Neg _ _ _ => Undef end.
Definition RRARR_INDEX (c : dns_cent_t) (i : nat) : cres (option rr_set_t) := arr ← RRARR c; of_option (arr !! i).
Definition RRARR_INDEX_TESTEXT (c : dns_cent_t) (i : nat) : cres (option rr_set_t) := arr ← RRARR c; Ret (mjoin (arr !! i)).
Definition getrrset_NS (c : dns_cent_t) : cres (option rr_set_t) := RRARR_INDEX_TESTEXT c 1.
Definition getrrset_SOA (c : dns_cent_t) : cres (option rr_set_t) := RRARR_INDEX_TESTEXT c 3.
Definition getrrset (c : dns_cent_t) (type : Z) : cres (option rr_set_t) :=
  if negative c then Ret None
  else if (0 <=? type - T_MIN) && (type - T_MIN <? zlen rrlkuptab) then
    idx ← of_option (rrlkuptab !! Z.to_nat (type - T_MIN)); RRARR_INDEX_TESTEXT c idx
  else Ret None.
Definition set_slot (i : nat) (x : option rr_set_t) (c : dns_cent_t) : cres dns_cent_t :=
  arr ← RRARR c; _ ← of_option (arr !! i); Ret (set_body (RR (<[i := x]> arr)) c).

Definition timedout (r : rr_set_t) : act bool := t ← time; mret (expiry (ts r) (ttl r) <? t).
Definition the_neg (c : dns_cent_t) : cres (option nat * Z * Z) :=
  match body c with Neg l t s => Ret (l, t, s) | RR _ => Undef end.
Definition timedout_nxdom (c : dns_cent_t) : act bool :=
  '(_, nttl, nts) ← lift (the_neg c); t ← time; mret (expiry nts nttl <? t).

(** ** The list of sets *)
Definition remove_rrl (id : nat) : act unit :=
  l ← gets rrset_l;
  _ ← ASSERT (existsb (fun le => Nat.eqb (le_id le) id) l);
  sets (with_list (filter (fun le => le_id le <> id) l)).
(** [le->rrset] *)
Definition le_rrset (le : rr_lent_t) (i : nat) : act rr_set_t :=
  c ← cent_at (le_cent le);
  x ← lift (RRARR_INDEX c i); r ← lift (of_option x);
  _ ← ASSERT (bool_decide (lent r = Some (le_id le))); mret r.
Definition get_rrlent_ts (le : rr_lent_t) : act Z :=
  match le_idx le with
  | Some i => r ← le_rrset le i; mret (ts r)
  | None => c ← cent_at (le_cent le); '(_, _, s) ← lift (the_neg c); mret s
  end.
(** The search from the end of the list, which is given in reverse. *)
Fixpoint insert_from_tail (t : Z) (ne : rr_lent_t) (l : list rr_lent_t) : act (list rr_lent_t) :=
  match l with
  | [] => mret [ne]
  | le :: l' =>
      t' ← get_rrlent_ts le;
      if t' <=? t then mret (ne :: l) else r ← insert_from_tail t ne l'; mret (le :: r)
  end.
(** For the set with index [i] of an entry, or the entry itself. *)
Definition insert_rrl (a : Z) (i : option nat) : act bool :=
  c ← cent_at a;
  '(fl, t) ← (match i with
              | Some i => x ← lift (RRARR_INDEX c i); r ← lift (of_option x); mret (flags r, ts r)
              | None => '(_, _, s) ← lift (the_neg c); mret (0, s)
              end);
  if has fl CF_LOCAL || has (dflags c) DF_LOCAL then mret true
  else
    ok ← malloc;
    if negb ok then mret false
    else
      id ← gets next_id; _ ← sets (with_next (S id));
      let ne := mkLent id a i in
      l ← gets rrset_l; sorted ← gets insert_sort;
      l' ← (if sorted : bool then r ← insert_from_tail t ne (reverse l); mret (reverse r) else mret (l ++ [ne]));
      _ ← sets (with_list l');
      _ ← (match i with
           | Some i => on a (fun c => x ← lift (RRARR_INDEX c i); r ← lift (of_option x);
                                      c ← lift (set_slot i (Some (set_lent (Some id) r)) c); mret (tt, c))
           | None => on a (fun c => '(_, nttl, nts) ← lift (the_neg c); mret (tt, set_body (Neg (Some id) nttl nts) c))
           end);
      mret true.

(** [listmerge] on the sequences of entries with their time stamps. *)
Fixpoint listmerge (p : list (Z * rr_lent_t)) : list (Z * rr_lent_t) -> list (Z * rr_lent_t) :=
  fix go q :=
    match p, q with
    | [], _ => q
    | _, [] => p
    | x :: p', y :: q' => if fst x <=? fst y then x :: listmerge p' q else y :: go q'
    end.
(** [tmp] up to [fill]; an empty list is NULL. *)
Definition NTMPSORT : nat := 32.
Fixpoint carry_in (carry : list (Z * rr_lent_t)) (tmp : list (list (Z * rr_lent_t))) : list (list (Z * rr_lent_t)) :=
  match tmp with
  | [] => [carry]
  | [] :: tmp => carry :: tmp
  | x :: tmp => [] :: carry_in (listmerge x carry) tmp
  end.
Fixpoint sort_fill (rem : list (Z * rr_lent_t)) (tmp : list (list (Z * rr_lent_t))) : cres (list (list (Z * rr_lent_t))) :=
  match rem with
  | [] => Ret tmp
  | x :: rem => let tmp := carry_in [x] tmp in _ ← assert (length tmp <=? NTMPSORT)%nat; sort_fill rem tmp
  end.
Definition merge_all (tmp : list (list (Z * rr_lent_t))) : list (Z * rr_lent_t) :=
  match tmp with [] => [] | carry :: tmp => fold_left (fun carry x => listmerge x carry) tmp carry end.
Fixpoint read_ts (l : list rr_lent_t) : act (list (Z * rr_lent_t)) :=
  match l with [] => mret [] | le :: l => t ← get_rrlent_ts le; r ← read_ts l; mret ((t, le) :: r) end.
Definition sort_rrl : act unit :=
  l ← gets rrset_l;
  if (length l <? 2)%nat then mret tt
  else r ← read_ts l; tmp ← lift (sort_fill r []); sets (with_list (map snd (merge_all tmp))).

(** ** Entries *)
Definition rr_size (data : list Z) : Z := sizeof_rr_bucket_t + zlen data.
Definition records_size (l : list (list Z)) : Z := foldr (fun d n => rr_size d + n) 0 l.
Definition rrset_size (r : rr_set_t) : Z := sizeof_rr_set_t + records_size (rrs r).
(** Returns the size of the memory freed. *)
Definition del_rrset (r : rr_set_t) : act Z :=
  _ ← (match lent r with Some id => remove_rrl id | None => mret tt end);
  mret (rrset_size r).
Definition del_cent_rrset_by_index (i : nat) (c : dns_cent_t) : act (Z * dns_cent_t) :=
  x ← lift (RRARR_INDEX_TESTEXT c i);
  match x with
  | None => mret (0, c)
  | Some r =>
      rv ← del_rrset r;
      c ← lift (set_slot i None c);
      mret (rv, set_flags (clear (dflags c) DF_AUTH) (set_cs (cs c - rv) (set_num (num_rrs c - 1) c)))
  end.

Definition init_cent (name : list (list Z)) (nttl nts : Z) (fl : Z) : act (option dns_cent_t) :=
  ok ← malloc;
  mret (if ok : bool then
    Some (mkCent name (sizeof_dns_cent_t + zlen (wire name)) 0 fl
      (if has fl DF_NEGATIVE then Neg None nttl nts else RR (replicate NRRMU None)) cundef cundef)
  else None).

(** A set replaces what its slot holds, as in the code. *)
Definition make_positive (c : dns_cent_t) : act dns_cent_t :=
  if negative c then
    '(l, _, _) ← lift (the_neg c);
    _ ← (match l with Some id => remove_rrl id | None => mret tt end);
    mret (set_body (RR (replicate NRRMU None)) (set_flags (clear (dflags c) DF_NEGATIVE) c))
  else mret c.
(** The array for the index, allocated if necessary. *)
Definition make_room (i : nat) (c : dns_cent_t) : act (bool * dns_cent_t) :=
  if (i <? NRRMU)%nat then mret (true, c)
  else
    _ ← ASSERT (i <? NRRTOT)%nat;
    arr ← lift (RRARR c);
    if (length arr <=? NRRMU)%nat then
      ok ← malloc;
      mret (if ok : bool then (true, set_cs (cs c + sizeof_rrext) (set_body (RR (arr ++ replicate NRREXT None)) c)) else (false, c))
    else mret (true, c).
Definition add_cent_rrset_by_index (i : nat) (t s : Z) (fl : Z) (c : dns_cent_t) : act (bool * dns_cent_t) :=
  c ← make_positive c;
  '(ok, c) ← make_room i c;
  if negb ok then mret (false, c)
  else
    ok ← malloc;
    if negb ok then c ← lift (set_slot i None c); mret (false, c)
    else
      c ← lift (set_slot i (Some (mkRRset None t s fl [])) c);
      mret (true, set_num (num_rrs c + 1) (set_cs (cs c + sizeof_rr_set_t) c)).
Definition add_cent_rrset_by_type (type : Z) (t s : Z) (fl : Z) (c : dns_cent_t) : act (bool * dns_cent_t) :=
  _ ← ASSERT ((0 <=? type - T_MIN) && (type - T_MIN <? zlen rrlkuptab));
  i ← lift (of_option (rrlkuptab !! Z.to_nat (type - T_MIN)));
  add_cent_rrset_by_index i t s fl c.
(** Appends a record behind the last one ([rtail]; NULL if the set is empty). *)
Definition append_rr (i : nat) (data : list Z) (c : dns_cent_t) : cres dns_cent_t :=
  x ← RRARR_INDEX c i; r ← of_option x;
  c ← set_slot i (Some (set_rrs (rrs r ++ [data]) r)) c;
  Ret (set_cs (cs c + rr_size data) c).
Definition add_cent_rr_int (i : nat) (t s : Z) (fl : Z) (data : list Z) (c : dns_cent_t) : act (bool * dns_cent_t) :=
  ok ← malloc;
  if negb ok then mret (false, c)
  else
    x ← lift (RRARR_INDEX_TESTEXT c i);
    '(ok, c) ← (match x with
                | Some _ => mret (true, c)
                | None => add_cent_rrset_by_index i t s fl c
                end);
    if negb ok then mret (false, c) else c ← lift (append_rr i data c); mret (true, c).
Definition add_cent_rr (type : Z) (t s : Z) (fl : Z) (data : list Z) (c : dns_cent_t) : act (bool * dns_cent_t) :=
  if has (dflags c) DF_LOCAL && negb (has fl CF_LOCAL) then mret (true, c)
  else
    _ ← ASSERT ((0 <=? type - T_MIN) && (type - T_MIN <? zlen rrlkuptab));
    i ← lift (of_option (rrlkuptab !! Z.to_nat (type - T_MIN)));
    _ ← ASSERT (i <? NRRTOT)%nat;
    x ← lift (RRARR_INDEX_TESTEXT c i);
    match x with
    | Some r =>
        c ← (if t <? ttl r then lift (set_slot i (Some (set_ttl t r)) c) else mret c);
        if bool_decide (data ∈ rrs r) then mret (true, c)
        else add_cent_rr_int i t s fl data c
    | None => add_cent_rr_int i t s fl data c
    end.

(** Frees the sets, from the first to the last. *)
Fixpoint del_rrsets (arr : list (option rr_set_t)) : act Z :=
  match arr with
  | [] => mret 0
  | None :: arr => del_rrsets arr
  | Some r :: arr => rv ← del_rrset r; n ← del_rrsets arr; mret (rv + n)
  end.
Definition free_cent (c : dns_cent_t) : act unit :=
  if negative c then
    '(l, _, _) ← lift (the_neg c);
    match l with Some id => remove_rrl id | None => mret tt end
  else arr ← lift (RRARR c); _ ← del_rrsets arr; mret tt.
Definition negate_cent (nttl nts : Z) (c : dns_cent_t) : act dns_cent_t :=
  if negative c then '(l, _, _) ← lift (the_neg c); mret (set_body (Neg l nttl nts) c)
  else
    arr ← lift (RRARR c);
    n ← del_rrsets arr;
    mret (mkCent (qname c) (cs c - n - (if (NRRMU <? length arr)%nat then sizeof_rrext else 0)) 0 (Z.lor (dflags c) DF_NEGATIVE)
            (Neg None nttl nts) (c_ns c) (c_soa c)).

(** Copies are made of records, sets and entries; [None] if memory runs out. *)
Fixpoint copy_rrs (l : list (list Z)) : act bool :=
  match l with [] => mret true | _ :: l => ok ← malloc; if ok : bool then copy_rrs l else mret false end.
Definition copy_rrset (r : rr_set_t) : act (option rr_set_t) :=
  ok ← malloc;
  if negb ok then mret None
  else ok ← copy_rrs (rrs r); mret (if ok : bool then Some (set_lent None r) else None).
Fixpoint copy_arr (arr : list (option rr_set_t)) : act (option (list (option rr_set_t))) :=
  match arr with
  | [] => mret (Some [])
  | None :: arr => o ← copy_arr arr; mret (option_map (cons None) o)
  | Some r :: arr =>
      x ← copy_rrset r;
      match x with None => mret None | Some r => o ← copy_arr arr; mret (option_map (cons (Some r)) o) end
  end.
Definition copy_cent (c : dns_cent_t) : act (option dns_cent_t) :=
  ok ← malloc;
  if negb ok then mret None
  else
    ok ← malloc;
    if negb ok then mret None
    else if negative c then
      '(_, nttl, nts) ← lift (the_neg c); mret (Some (set_body (Neg None nttl nts) c))
    else
      arr ← lift (RRARR c);
      ok ← (if (NRRMU <? length arr)%nat then malloc else mret true);
      if negb ok then mret None
      else o ← copy_arr arr; mret (option_map (fun arr => set_body (RR arr) c) o).

(** ** The hash table *)
Definition dns_lookup (name : list (list Z)) : act (option Z) := gets (fun w => table w !! canon name).
(** Can fail for lack of memory. *)
Definition add_dns_hash (a : Z) : act bool :=
  c ← cent_at a;
  ok ← malloc;
  if negb ok then mret false
  else _ ← sets (fun w => with_table (<[canon (qname c) := a]> (table w)) w); mret true.
Definition del_dns_hash (name : list (list Z)) : act (option Z) :=
  o ← dns_lookup name; _ ← sets (fun w => with_table (delete (canon name) (table w)) w); mret o.

Definition del_cent (a : Z) : act unit :=
  c ← cent_at a;
  _ ← add_size (- cs c);
  _ ← free_cent c;
  _ ← sets (fun w => with_cents (delete a (cents w)) w);
  sets (fun w => with_num (ent_num w - 1) w).
(** By name or by location, which is the same entry. *)
Definition del_cache_ent (a : Z) : act unit :=
  c ← cent_at a; _ ← del_dns_hash (qname c); del_cent a.
Definition del_cache (name : list (list Z)) : act unit :=
  o ← del_dns_hash name; match o with Some a => del_cent a | None => mret tt end.

(** ** Purging *)
Definition purgeable (r : rr_set_t) : bool := negb (has (flags r) CF_NOPURGE || has (flags r) CF_LOCAL).
Definition expired (r : rr_set_t) : act bool := if purgeable r then timedout r else mret false.
(** [cache_size -= del_cent_rrset_by_index(cent,idx)] *)
Definition drop_rrset (a : Z) (i : nat) : act unit := rv ← on a (del_cent_rrset_by_index i); add_size (- rv).
Definition purge_rrset (a : Z) (i : nat) (test : bool) : act bool :=
  c ← cent_at a;
  x ← lift (RRARR_INDEX_TESTEXT c i);
  match x with
  | None => mret false
  | Some r => e ← expired r; if e : bool then _ ← when (negb test) (drop_rrset a i); mret true else mret false
  end.
(** For the indices [js]: how many were deleted, how many remain, how many of these in [rrext]. *)
Fixpoint purge_slots (a : Z) (test : bool) (js : list nat) : act (Z * Z * Z) :=
  match js with
  | [] => mret (0, 0, 0)
  | i :: js =>
      c ← cent_at a;
      x ← lift (RRARR_INDEX c i);
      e ← (match x with Some r => expired r | None => mret false end);
      _ ← when (e && negb test) (drop_rrset a i);
      '(rv, n, next) ← purge_slots a test js;
      mret (match x with
            | None => (rv, n, next)
            | Some _ => if e : bool then (rv + 1, n, next) else (rv, n + 1, if (NRRMU <=? i)%nat then next + 1 else next)
            end)
  end.
(** What is deleted and how many sets remain. *)
Definition purge_all_rrsets (a : Z) (test : bool) : act (Z * Z) :=
  c ← cent_at a;
  if negative c then mret (0, 0)
  else
    arr ← lift (RRARR c);
    '(rv, n, next) ← purge_slots a test (seq 0 (length arr));
    if (NRRMU <? length arr)%nat && (next =? 0) then
      _ ← when (negb test)
            (_ ← on a (fun c => arr ← lift (RRARR c);
                        mret (tt, set_cs (cs c - sizeof_rrext) (set_body (RR (take NRRMU arr)) c)));
             add_size (- sizeof_rrext));
      mret (rv + 1, n)
    else mret (rv, n).
(** Whether the set that a reference to the NS or SOA records of a domain names is stale. *)
Definition stale (a : Z) (get : dns_cent_t -> cres (option rr_set_t)) (n : Z) : act bool :=
  c ← cent_at a;
  let scnt := zlen (qname c) in
  x ← (if n =? scnt then lift (get c)
       else if n <? scnt then
         o ← dns_lookup (drop (Z.to_nat (scnt - n)) (qname c));
         match o with Some b => c' ← cent_at b; lift (get c') | None => mret None end
       else mret None);
  match x with
  | None => mret true
  | Some r =>
      if bool_decide (rrs r = []) then mret true
      else if has (flags r) CF_LOCAL then mret false else timedout r
  end.
Definition purge_reference (a : Z) (test : bool) (field : dns_cent_t -> Z) (reset : Z -> dns_cent_t -> dns_cent_t)
    (get : dns_cent_t -> cres (option rr_set_t)) : act Z :=
  c ← cent_at a;
  if field c =? cundef then mret 0
  else s ← stale a get (field c); if s : bool then _ ← when (negb test) (modify a (reset cundef)); mret 1 else mret 0.
(** -1 if the entry is removed. *)
Definition purge_cent (a : Z) (delete test : bool) : act Z :=
  '(npurge, numrrs) ← purge_all_rrsets a test;
  c ← cent_at a;
  gone ← (if delete && (numrrs =? 0) then
            if negb (negative c) then mret true
            else if has (dflags c) DF_LOCAL then mret false else timedout_nxdom c
          else mret false);
  if gone : bool then _ ← when (negb test) (del_cache_ent a); mret (-1)
  else if has (dflags c) DF_LOCAL then mret npurge
  else
    n1 ← purge_reference a test c_ns set_c_ns getrrset_NS;
    n2 ← purge_reference a test c_soa set_c_soa getrrset_SOA;
    mret (npurge + n1 + n2).

(** The list entry with an address and the one behind it. *)
Fixpoint find_le (id : nat) (l : list rr_lent_t) : option (rr_lent_t * option nat) :=
  match l with
  | [] => None
  | le :: l => if Nat.eqb (le_id le) id then Some (le, le_id <$> head l) else find_le id l
  end.
(** [(le->rrset && (le->rrset->flags&CF_LOCAL)) || (le->cent->flags&DF_LOCAL)] *)
Definition le_local (le : rr_lent_t) : act bool :=
  fl ← (match le_idx le with Some i => r ← le_rrset le i; mret (flags r) | None => mret 0 end);
  if has fl CF_LOCAL then mret true else c ← cent_at (le_cent le); mret (has (dflags c) DF_LOCAL).
(** The first walk deletes what has timed out. *)
Definition purge_expired (le : rr_lent_t) : act unit :=
  local ← le_local le;
  if local : bool then mret tt
  else
    let a := le_cent le in
    _ ← (match le_idx le with Some i => _ ← purge_rrset a i false; mret tt | None => mret tt end);
    c ← cent_at a;
    if num_rrs c =? 0 then
      gone ← (if negb (negative c) then mret true
              else if has (dflags c) DF_LOCAL then mret false else timedout_nxdom c);
      when gone (del_cache_ent a)
    else mret tt.
(** The second one deletes everything. *)
Definition purge_oldest (le : rr_lent_t) : act unit :=
  local ← le_local le;
  if local : bool then mret tt
  else
    let a := le_cent le in
    _ ← (match le_idx le with Some i => drop_rrset a i | None => mret tt end);
    c ← cent_at a;
    when (num_rrs c =? 0) (del_cache_ent a).
Fixpoint walk_list (fuel : nat) (visit : rr_lent_t -> act unit) (continue : cache -> bool) (le : option nat) : act unit :=
  match le with
  | None => mret tt
  | Some id =>
      match fuel with
      | O => fun _ => OutOfFuel
      | S fuel =>
          go ← gets continue;
          if go : bool then
            l ← gets rrset_l; '(le, next) ← lift (of_option (find_le id l));
            _ ← visit le; walk_list fuel visit continue next
          else mret tt
      end
  end.
Definition walk_all (visit : rr_lent_t -> act unit) (continue : cache -> bool) : act unit :=
  l ← gets rrset_l; walk_list (length l) visit continue (le_id <$> head l).
Definition purge_cache (sz : Z) (lazy : bool) : act unit :=
  _ ← walk_all purge_expired (fun w => negb lazy || (sz <? cache_size w));
  s ← gets cache_size;
  if s <=? sz then mret tt
  else
    sorted ← gets insert_sort;
    _ ← when (negb sorted) (_ ← sort_rrl; sets (with_sort true));
    walk_all purge_oldest (fun w => sz <? cache_size w).

(** ** Adding *)
Definition adjust_ttl (r : rr_set_t) : rr_set_t :=
  if has (flags r) CF_NOCACHE then mkRRset (lent r) 0 (ts r) (clear (flags r) CF_NOCACHE) (rrs r)
  else
    let min := if has (flags r) CF_NEGATIVE && (g_neg_ttl global <? min_ttl global) then g_neg_ttl global else min_ttl global in
    if ttl r <? min then set_ttl min r else if max_ttl global <? ttl r then set_ttl (max_ttl global) r else r.
Definition adjust_dom_ttl (c : dns_cent_t) : cres dns_cent_t :=
  '(l, nttl, nts) ← the_neg c;
  Ret (if has (dflags c) DF_NOCACHE then set_body (Neg l 0 nts) (set_flags (clear (dflags c) DF_NOCACHE) c)
       else
         let min := if g_neg_ttl global <? min_ttl global then g_neg_ttl global else min_ttl global in
         set_body (Neg l (if nttl <? min then min else if max_ttl global <? nttl then max_ttl global else nttl) nts) c).

(** The sets that conflict with index [i]. *)
Definition conflicts (i j : nat) (r : rr_set_t) : bool := negb (has (flags r) CF_NEGATIVE) && excludes_ i j.
(** The number of conflicts and the sum of their remaining times; [None] if one is local. *)
Fixpoint count_conflicts (a : Z) (i : nat) (js : list nat) (ncf nttl : Z) : act (option (Z * Z)) :=
  match js with
  | [] => mret (Some (ncf, nttl))
  | j :: js =>
      c ← cent_at a; x ← lift (RRARR_INDEX c j);
      match x with
      | Some r =>
          if conflicts i j r then
            if has (flags r) CF_LOCAL then mret None
            else now ← time;
                 let rttl := s32 (ttl r + ts r - now) in
                 count_conflicts a i js (ncf + 1) (if 0 <? rttl then s32 (nttl + rttl) else nttl)
          else count_conflicts a i js ncf nttl
      | None => count_conflicts a i js ncf nttl
      end
  end.
Fixpoint remove_conflicts (a : Z) (i : nat) (js : list nat) : act unit :=
  match js with
  | [] => mret tt
  | j :: js =>
      c ← cent_at a; x ← lift (RRARR_INDEX c j);
      _ ← (match x with
           | Some r => if conflicts i j r then _ ← on a (del_cent_rrset_by_index j); mret tt else mret tt
           | None => mret tt
           end);
      remove_conflicts a i js
  end.
Definition cr_check_add (a : Z) (i : nat) (t : Z) (fl : Z) : act bool :=
  if has fl CF_NEGATIVE then mret true
  else
    c ← cent_at a;
    arr ← lift (RRARR c);
    let js := seq 0 (length arr) in
    if has fl CF_LOCAL then _ ← remove_conflicts a i js; mret true
    else if has (dflags c) DF_LOCAL then mret false
    else
      o ← count_conflicts a i js 0 0;
      match o with
      | None => mret false
      | Some (ncf, nttl) =>
          if ncf =? 0 then mret true
          else if Z.quot nttl ncf <? t then _ ← remove_conflicts a i js; mret true
          else mret false
      end.

(** Adding the sets of a new entry to the list. *)
Fixpoint link_slots (a : Z) (js : list nat) : act bool :=
  match js with
  | [] => mret true
  | i :: js =>
      c ← cent_at a; x ← lift (RRARR_INDEX c i);
      match x with
      | None => link_slots a js
      | Some r =>
          c ← lift (set_slot i (Some (adjust_ttl r)) c); _ ← put a c;
          ok ← insert_rrl a (Some i);
          if ok : bool then link_slots a js else mret false
      end
  end.
(** The name is not in the cache. False if memory ran out. *)
Definition add_new (c : dns_cent_t) : act bool :=
  o ← copy_cent c;
  match o with
  | None => mret false
  | Some ce =>
      a ← gets (fun w => fresh (dom (cents w)));
      _ ← put a ce;
      ok ← (if negative ce then ce ← lift (adjust_dom_ttl ce); _ ← put a ce; insert_rrl a None
            else arr ← lift (RRARR ce); link_slots a (seq 0 (length arr)));
      ok ← (if ok : bool then add_dns_hash a else mret false);
      if ok : bool then
        _ ← sets (fun w => with_num (ent_num w + 1) w);
        ce ← cent_at a; _ ← add_size (cs ce); mret true
      else
        ce ← cent_at a; _ ← free_cent ce;
        _ ← sets (fun w => with_cents (delete a (cents w)) w); mret false
  end.

(** Whether the old set has precedence over the new one. *)
Definition precedes (old new : rr_set_t) : act bool :=
  if negb (has (flags new) CF_LOCAL) && has (flags old) CF_LOCAL then mret true
  else if has (flags new) CF_ADDITIONAL &&
          (negb (has (flags old) CF_ADDITIONAL) || (negb (has (flags new) CF_ROOTSERV) && has (flags old) CF_ROOTSERV)) then
    t ← timedout old; mret (negb t)
  else mret false.
Fixpoint add_records (a : Z) (i : nat) (r : rr_set_t) (l : list (list Z)) : act bool :=
  match l with
  | [] => mret true
  | d :: l => ok ← on a (add_cent_rr_int i (ttl r) (ts r) (flags r) d); if ok : bool then add_records a i r l else mret false
  end.
Inductive added := Done | NoMemory | Cleanup.
(** One set of the new entry. *)
Definition add_slot (a : Z) (i : nat) (r : rr_set_t) : act added :=
  ce ← cent_at a; x ← lift (RRARR_INDEX_TESTEXT ce i);
  keep ← (match x with Some old => precedes old r | None => mret false end);
  if keep : bool then mret Done
  else
    _ ← on a (del_cent_rrset_by_index i);
    ok ← cr_check_add a i (ttl r) (flags r);
    if negb ok then mret Done
    else
      ok ← on a (add_cent_rrset_by_index i (ttl r) (ts r) (flags r));
      if negb ok then mret NoMemory
      else
        ok ← add_records a i r (rrs r);
        if negb ok then mret Cleanup
        else
          _ ← on a (fun ce => x ← lift (RRARR_INDEX ce i); r ← lift (of_option x);
                              ce ← lift (set_slot i (Some (adjust_ttl r)) ce); mret (tt, ce));
          ok ← insert_rrl a (Some i);
          mret (if ok : bool then Done else Cleanup).
(** The sets of the new entry from index [i]. False if memory ran out. *)
Fixpoint add_slots (a : Z) (i : nat) (arr : list (option rr_set_t)) : act bool :=
  match arr with
  | [] => mret true
  | None :: arr => add_slots a (S i) arr
  | Some r :: arr =>
      res ← add_slot a i r;
      match res with
      | Done => add_slots a (S i) arr
      | NoMemory => mret false
      | Cleanup => _ ← on a (del_cent_rrset_by_index i); mret false
      end
  end.
Definition merge_fields (c ce : dns_cent_t) : dns_cent_t :=
  let newer f := if negb (f c =? cundef) && ((f ce =? cundef) || (f ce <? f c)) then f c else f ce in
  set_c_soa (newer c_soa) (set_c_ns (newer c_ns) (set_flags (Z.lor (dflags ce) (Z.land (dflags c) (Z.lor DF_AUTH DF_WILD))) ce)).
(** The name is in the cache and the new entry is not negative. *)
Definition add_to (a : Z) (c : dns_cent_t) : act bool :=
  _ ← purge_cent a false false;
  ce ← cent_at a; _ ← add_size (- cs ce);
  arr ← lift (RRARR c);
  ok ← add_slots a 0 arr;
  _ ← when ok (modify a (merge_fields c));
  ce ← cent_at a; _ ← add_size (cs ce);
  mret ok.
Definition cache_limit : Z := perm_cache global * 1024 + MCSZ.
Definition has_local (ce : dns_cent_t) : cres bool :=
  arr ← RRARR ce; Ret (existsb (fun x => match x with Some r => has (flags r) CF_LOCAL | None => false end) arr).
Fixpoint add_cache_loop (fuel : nat) (c : dns_cent_t) : act unit :=
  match fuel with
  | O => fun _ => OutOfFuel
  | S fuel =>
      o ← dns_lookup (qname c);
      match o with
      | None =>
          if (num_rrs c =? 0) && negb (negative c) then purge_cache cache_limit true
          else ok ← add_new c; when ok (purge_cache cache_limit true)
      | Some a =>
          if negative c then
            ce ← cent_at a; local ← lift (has_local ce);
            if local : bool then mret tt else _ ← del_cache_ent a; add_cache_loop fuel c
          else ok ← add_to a c; when ok (purge_cache cache_limit true)
      end
  end.
(** After the deletion of an entry the name is not in the cache any more. *)
Definition add_cache (c : dns_cent_t) : act unit := add_cache_loop 2 c.

(** ** Looking up *)
(** The type is one of the table. *)
Definition getrrset_eff (c : dns_cent_t) (type : Z) : cres (option rr_set_t) :=
  _ ← assert (0 <=? type - T_MIN); idx ← of_option (rrlkuptab !! Z.to_nat (type - T_MIN)); RRARR_INDEX_TESTEXT c idx.
Definition have_rr (c : dns_cent_t) (type : Z) : cres bool :=
  if negative c then Ret false
  else x ← getrrset_eff c type; Ret (match x with Some r => negb (bool_decide (rrs r = [])) | None => false end).
(** [nm] is the name without its first label. *)
Fixpoint getlocalowner_loop (nm : list (list Z)) (type : Z) : act (option (list (list Z))) :=
  match nm with
  | [] => mret None
  | _ :: rest =>
      o ← dns_lookup nm;
      match o with
      | None => getlocalowner_loop rest type
      | Some a =>
          c ← cent_at a;
          if negb (has (dflags c) DF_LOCAL) then mret None
          else h ← lift (have_rr c type); if h : bool then mret (Some nm) else getlocalowner_loop rest type
      end
  end.
Definition getlocalowner (name : list (list Z)) (type : Z) : act (option (list (list Z))) := getlocalowner_loop (tail name) type.

Inductive wildness := w_none | w_wild | w_neg | w_locnerr.
(** The search up the hierarchy, from the name without its first label. *)
Fixpoint search_up (nm : list (list Z)) : act (option Z * wildness) :=
  match nm with
  | [] => mret (None, w_none)
  | _ :: rest =>
      o ← dns_lookup nm;
      match o with
      | None => search_up rest
      | Some a =>
          c ← cent_at a;
          if negative c then mret (Some a, w_neg)
          else if has (dflags c) DF_WILD then
            o ← dns_lookup ([42] :: nm);
            mret (o, match o with Some _ => w_wild | None => w_none end)
          else if has (dflags c) DF_LOCAL then mret (Some a, w_locnerr)
          else mret (None, w_none)
      end
  end.
Definition find_entry (name : list (list Z)) (wild : bool) : act (option Z * wildness) :=
  o ← dns_lookup name;
  match o with
  | Some a => mret (Some a, w_none)
  | None => if wild then search_up (tail name) else mret (None, w_none)
  end.
(** With the lock for reading: a copy, or that something is to be purged first. *)
Definition lookup_read (name : list (list Z)) (wild : bool) : act (option dns_cent_t * wildness * bool) :=
  '(o, wl) ← find_entry name wild;
  match o with
  | None => mret (None, wl, false)
  | Some a =>
      purge ← purge_cent a true true;
      if purge =? 0 then c ← cent_at a; r ← copy_cent c; mret (r, wl, false) else mret (None, wl, true)
  end.
(** With the lock for writing. *)
Definition lookup_purge (name : list (list Z)) (wild : bool) : act (option dns_cent_t * wildness) :=
  '(o, wl) ← find_entry name wild;
  match o with
  | None => mret (None, wl)
  | Some a =>
      n ← purge_cent a true false;
      if n <? 0 then mret (None, wl) else c ← cent_at a; r ← copy_cent c; mret (r, wl)
  end.
Definition lookup_cache (name : list (list Z)) (wild : bool) : act (option dns_cent_t * wildness) :=
  '(r, wl, purge) ← lookup_read name wild;
  if purge : bool then lookup_purge name wild else mret (r, wl).
Definition lookup_cache_local_rrset (name : list (list Z)) (type : Z) : act (option rr_set_t) :=
  o ← dns_lookup name;
  match o with
  | None => mret None
  | Some a =>
      c ← cent_at a; x ← lift (getrrset c type);
      match x with Some r => if has (flags r) CF_LOCAL then copy_rrset r else mret None | None => mret None end
  end.

(** ** Other operations *)
Definition invalidate_rrset (r : rr_set_t) : rr_set_t := mkRRset (lent r) (ttl r) 0 (clear (flags r) CF_AUTH) (rrs r).
Definition invalidate_cent (c : dns_cent_t) : cres dns_cent_t :=
  c ← (if negative c then '(l, nttl, _) ← the_neg c; Ret (set_body (Neg l nttl 0) c)
       else arr ← RRARR c; Ret (set_body (RR (map (option_map invalidate_rrset) arr)) c));
  Ret (set_flags (clear (dflags c) DF_AUTH) c).
Definition invalidate_record (name : list (list Z)) : act unit :=
  o ← dns_lookup name;
  match o with Some a => on a (fun c => c ← lift (invalidate_cent c); (mret (tt, c) : act (unit * dns_cent_t))) | None => mret tt end.
Definition set_cent_flags (name : list (list Z)) (fl : Z) : act bool :=
  o ← dns_lookup name;
  match o with Some a => _ ← modify a (fun c => set_flags (Z.lor (dflags c) fl) c); mret true | None => mret false end.

(** ** Steps: the sections under a lock *)
Inductive op :=
| OpAdd (c : dns_cent_t)
| OpLookupRead (name : list (list Z)) (wild : bool)
| OpLookupPurge (name : list (list Z)) (wild : bool)
| OpLookupLocal (name : list (list Z)) (type : Z)
| OpLocalOwner (name : list (list Z)) (type : Z)
| OpDel (name : list (list Z))
| OpInvalidate (name : list (list Z))
| OpSetFlags (name : list (list Z)) (fl : Z)
| OpPurge (sz : Z).
Definition step (o : op) : act unit :=
  match o with
  | OpAdd c => add_cache c
  | OpLookupRead name wild => _ ← lookup_read name wild; mret tt
  | OpLookupPurge name wild => _ ← lookup_purge name wild; mret tt
  | OpLookupLocal name type => _ ← lookup_cache_local_rrset name type; mret tt
  | OpLocalOwner name type => _ ← getlocalowner name type; mret tt
  | OpDel name => del_cache name
  | OpInvalidate name => invalidate_record name
  | OpSetFlags name fl => _ ← set_cent_flags name fl; mret tt
  | OpPurge sz => purge_cache sz false
  end.
Fixpoint run (os : list op) : act unit := match os with [] => mret tt | o :: os => _ ← step o; run os end.
Definition init : cache := mkCache ∅ ∅ [] 0 0 true 0 0.
End code.
End DnsCache.
