(* ===== verification/CacheInv.v ===== *)
(** * The invariant of the cache, and purging

    Lemmas about the functions of DnsCache.v that delete, add and link single sets,
    the invariant [wf] of the whole cache, and the functions that purge. Each lemma
    about a function states, with [wp], that it returns and how the cache is
    then related to the one before: [changed] for one entry outside the counters,
    [updated] for one that counts, [forgotten] for a deleted one. *)
From stdpp Require Import gmap.
From S2P Require Import Prelude Handlers DnsName DnsHash DnsCache.
Import DnsCache.
Local Open Scope Z_scope.

Module CacheInv.
#[local] Abbreviation canon := DnsHash.DnsHash.canon.

(** ** Flags *)
Lemma has_clear f b b' : Z.land b' b = 0 -> has (clear f b) b' = has f b'.
Proof.
  intros H. unfold has, clear. f_equal. f_equal. apply Z.bits_inj'. intros n Hn. rewrite !Z.land_spec, Z.lnot_spec by done.
  assert (Hb : Z.testbit (Z.land b' b) n = false) by by rewrite H, Z.bits_0. rewrite Z.land_spec in Hb.
  destruct (Z.testbit f n), (Z.testbit b n), (Z.testbit b' n); done.
Qed.
Lemma has_lor f g b : has (Z.lor f g) b = has f b || has g b.
Proof.
  unfold has. rewrite <- negb_andb. f_equal. rewrite Z.land_lor_distr_l.
  destruct (Z.eqb_spec (Z.lor (Z.land f b) (Z.land g b)) 0) as [E|E].
  - apply Z.lor_eq_0_iff in E as [-> ->]. done.
  - destruct (Z.eqb_spec (Z.land f b) 0) as [E1|]; [|done]. destruct (Z.eqb_spec (Z.land g b) 0) as [E2|]; [|done]. by rewrite E1, E2 in E.
Qed.
Lemma has_cleared f b : has (clear f b) b = false.
Proof.
  unfold has, clear. apply negb_false_iff, Z.eqb_eq. apply Z.bits_inj'. intros n Hn.
  rewrite !Z.land_spec, Z.lnot_spec, Z.bits_0 by done. by destruct (Z.testbit f n), (Z.testbit b n).
Qed.

(** ** Entries *)
Definition slots (c : dns_cent_t) : list (option rr_set_t) := match body c with RR arr => arr | Neg _ _ _ => [] end.
Definition slot (c : dns_cent_t) (i : nat) : option rr_set_t := mjoin (slots c !! i).
Definition is_neg (c : dns_cent_t) : bool := match body c with Neg _ _ _ => true | RR _ => false end.
Definition lent_in (c : dns_cent_t) (oi : option nat) : option nat :=
  match oi, body c with
  | None, Neg l _ _ => l
  | Some i, RR arr => mjoin (arr !! i) ≫= lent
  | _, _ => None
  end.
Definition size_of (x : option rr_set_t) : Z := match x with Some r => rrset_size r | None => 0 end.
Definition one_of (x : option rr_set_t) : Z := match x with Some _ => 1 | None => 0 end.
Fixpoint arr_size (arr : list (option rr_set_t)) : Z := match arr with [] => 0 | x :: arr => size_of x + arr_size arr end.
Fixpoint arr_count (arr : list (option rr_set_t)) : Z := match arr with [] => 0 | x :: arr => one_of x + arr_count arr end.
Definition ext_size (arr : list (option rr_set_t)) : Z := if (NRRMU <? length arr)%nat then sizeof_rrext else 0.
Record cent_ok (c : dns_cent_t) : Prop := {
  co_tag : negative c = is_neg c;
  co_len : is_neg c = false -> length (slots c) = NRRMU \/ length (slots c) = NRRTOT;
  co_cs : cs c = sizeof_dns_cent_t + zlen (wire (qname c)) + arr_size (slots c) + ext_size (slots c);
  co_num : num_rrs c = arr_count (slots c);
}.
(** Exactly what is not local is in the list. *)
Definition local_in (c : dns_cent_t) (oi : option nat) : bool :=
  has (dflags c) DF_LOCAL || match oi with Some i => match slot c i with Some r => has (flags r) CF_LOCAL | None => false end | None => false end.
Definition present (c : dns_cent_t) (oi : option nat) : bool :=
  match oi with Some i => match slot c i with Some _ => true | None => false end | None => is_neg c end.
Definition linked_at (c : dns_cent_t) (oi : option nat) : Prop :=
  present c oi = true -> (lent_in c oi = None <-> local_in c oi = true).
Definition linked (c : dns_cent_t) : Prop := forall oi, linked_at c oi.

(** Replacing a slot *)
Lemma arr_size_insert arr i x y : arr !! i = Some y ->
  arr_size (<[i := x]> arr) = arr_size arr - size_of y + size_of x.
Proof.
  revert i. induction arr as [|z arr IH]; intros [|i]; cbn; intros E; try done; [injection E as <-; lia|]. rewrite IH by done. lia.
Qed.
Lemma arr_count_insert arr i x y : arr !! i = Some y ->
  arr_count (<[i := x]> arr) = arr_count arr - one_of y + one_of x.
Proof.
  revert i. induction arr as [|z arr IH]; intros [|i]; cbn; intros E; try done; [injection E as <-; lia|]. rewrite IH by done. lia.
Qed.
Lemma arr_size_app a b : arr_size (a ++ b) = arr_size a + arr_size b.
Proof. induction a as [|x a IH]; cbn; [done|]. rewrite IH. lia. Qed.
Lemma arr_count_app a b : arr_count (a ++ b) = arr_count a + arr_count b.
Proof. induction a as [|x a IH]; cbn; [done|]. rewrite IH. lia. Qed.
Lemma arr_size_none n : arr_size (replicate n None) = 0.
Proof. induction n as [|n IH]; cbn; [done|]. by rewrite IH. Qed.
Lemma arr_count_none n : arr_count (replicate n None) = 0.
Proof. induction n as [|n IH]; cbn; [done|]. by rewrite IH. Qed.
Lemma arr_count_nonneg arr : 0 <= arr_count arr.
Proof. induction arr as [|[r|] arr IH]; cbn; lia. Qed.
Lemma arr_count_zero arr : arr_count arr = 0 -> forall i, mjoin (arr !! i) = None.
Proof.
  induction arr as [|x arr IH]; intros H i; [done|]. pose proof (arr_count_nonneg arr).
  destruct x as [r|]; cbn in H; [lia|]. destruct i; [done|]. apply IH. done.
Qed.
Lemma mjoin_insert {A} (l : list (option A)) i j x : (i < length l)%nat -> mjoin (<[i := x]> l !! j) = if decide (i = j) then x else mjoin (l !! j).
Proof. intros H. destruct (decide (i = j)) as [->|]; [by rewrite list_lookup_insert_eq|by rewrite list_lookup_insert_ne]. Qed.
Lemma slot_lt c i r : slot c i = Some r -> (i < length (slots c))%nat.
Proof. unfold slot. intros H. apply lookup_lt_is_Some. destruct (slots c !! i); [eauto|done]. Qed.
Lemma neg_slot c j : is_neg c = true -> slot c j = None.
Proof. unfold is_neg, slot, slots. by destruct (body c). Qed.
Lemma RRARR_ok c : cent_ok c -> RRARR c = Ret (slots c).
Proof. intros [H _ _ _]. unfold RRARR, is_neg, slots in *. destruct (negative c), (body c); done. Qed.
Lemma RRARR_INDEX_ok c i : cent_ok c -> (i < length (slots c))%nat -> RRARR_INDEX c i = Ret (slot c i).
Proof.
  intros Hc Hi. unfold RRARR_INDEX, slot. rewrite RRARR_ok by done. cbn. apply lookup_lt_is_Some_2 in Hi as [x Hx]. by rewrite Hx.
Qed.
Lemma RRARR_TESTEXT_ok c i : cent_ok c -> RRARR_INDEX_TESTEXT c i = Ret (slot c i).
Proof. intros Hc. unfold RRARR_INDEX_TESTEXT. by rewrite RRARR_ok. Qed.
(** An entry with another set in slot [i]. *)
Definition upd (i : nat) (x : option rr_set_t) (c : dns_cent_t) : dns_cent_t := set_body (RR (<[i := x]> (slots c))) c.
Lemma set_slot_ok c i x : cent_ok c -> (i < length (slots c))%nat -> set_slot i x c = Ret (upd i x c).
Proof.
  intros Hc Hi. unfold set_slot. rewrite RRARR_ok by done. cbn. apply lookup_lt_is_Some_2 in Hi as [y Hy]. by rewrite Hy.
Qed.
Lemma slot_upd c i x j : (i < length (slots c))%nat -> slot (upd i x c) j = if decide (i = j) then x else slot c j.
Proof. intros H. unfold slot, upd. cbn. by apply mjoin_insert. Qed.
Lemma slots_pos c i : cent_ok c -> (i < length (slots c))%nat -> is_neg c = false /\ body c = RR (slots c).
Proof. intros Hc Hi. unfold is_neg, slots in *. destruct (body c); cbn in *; [lia|done]. Qed.

(** ** The list and the entries agree *)
Definition lent_at (w : cache) (a : Z) (oi : option nat) : option nat :=
  match cents w !! a with Some c => lent_in c oi | None => None end.
Record list_ok (w : cache) : Prop := {
  lo_nodup : NoDup (map le_id (rrset_l w));
  lo_in : forall id a oi, mkLent id a oi ∈ rrset_l w <-> lent_at w a oi = Some id;
  lo_fresh : forall le, le ∈ rrset_l w -> (le_id le < next_id w)%nat;
}.
Record sound (w : cache) : Prop := {
  so_cents : forall a c, cents w !! a = Some c -> cent_ok c;
  so_list : list_ok w;
}.
Lemma same_id (l : list rr_lent_t) x y : NoDup (map le_id l) -> x ∈ l -> y ∈ l -> le_id x = le_id y -> x = y.
Proof.
  induction l as [|z l IH]; intros Hn Hx Hy E; [by apply elem_of_nil in Hx|].
  apply list_relations.list.NoDup_cons in Hn as [Hz Hn]. apply elem_of_cons in Hx, Hy.
  destruct Hx as [->|Hx], Hy as [->|Hy]; [done| | |by apply IH].
  - destruct Hz. rewrite E. by apply list_elem_of_fmap_2.
  - destruct Hz. rewrite <- E. by apply list_elem_of_fmap_2.
Qed.
Lemma lent_unique w a oi b oj id : list_ok w -> lent_at w a oi = Some id -> lent_at w b oj = Some id -> a = b /\ oi = oj.
Proof.
  intros [H1 H2 _] Ha Hb. apply H2 in Ha, Hb. by pose proof (same_id _ _ _ H1 Ha Hb eq_refl) as [= -> ->].
Qed.
Lemma nodup_filter_map (P : rr_lent_t -> Prop) `{!forall x, Decision (P x)} l : NoDup (map le_id l) -> NoDup (map le_id (filter P l)).
Proof.
  induction l as [|z l IH]; intros Hn; [done|]. apply list_relations.list.NoDup_cons in Hn as [Hz Hn]. rewrite filter_cons.
  destruct (decide (P z)); [|by apply IH]. cbn. apply list_relations.list.NoDup_cons. split; [|by apply IH]. intros Hin. apply Hz.
  apply list_elem_of_fmap in Hin as (y & E & Hy). apply list_elem_of_filter in Hy as [_ Hy]. rewrite E. by apply list_elem_of_fmap_2.
Qed.
Lemma list_same w w' : list_ok w -> rrset_l w' = rrset_l w -> (forall a oi, lent_at w' a oi = lent_at w a oi) ->
  (next_id w <= next_id w')%nat -> list_ok w'.
Proof.
  intros [H1 H2 H3] El Ea En. constructor; rewrite El; [done| |].
  - intros id a oi. by rewrite Ea.
  - intros le Hle. specialize (H3 le Hle). lia.
Qed.
Lemma list_unlink w w' a oi id : list_ok w -> lent_at w a oi = Some id -> rrset_l w' = filter (fun le => le_id le <> id) (rrset_l w) ->
  (forall b oj, lent_at w' b oj = if decide (b = a /\ oj = oi) then None else lent_at w b oj) -> next_id w' = next_id w -> list_ok w'.
Proof.
  intros Hl Ha El Ea En. pose proof Hl as [H1 H2 H3]. constructor; rewrite El.
  - by apply nodup_filter_map.
  - intros id' b oj. rewrite list_elem_of_filter, H2, Ea. cbn. destruct (decide (b = a /\ oj = oi)) as [[-> ->]|Hne].
    + rewrite Ha. split; [intros [E [= <-]]; done|done].
    + split; [by intros []|]. intros Hb. split; [|done]. intros ->. apply Hne. by eapply lent_unique.
  - intros le [_ Hle]%list_elem_of_filter. rewrite En. by apply H3.
Qed.
Lemma list_link w w' a oi : list_ok w -> lent_at w a oi = None -> rrset_l w' ≡ₚ mkLent (next_id w) a oi :: rrset_l w ->
  (forall b oj, lent_at w' b oj = if decide (b = a /\ oj = oi) then Some (next_id w) else lent_at w b oj) -> next_id w' = S (next_id w) -> list_ok w'.
Proof.
  intros [H1 H2 H3] Ha El Ea En. constructor.
  - rewrite El. cbn. apply list_relations.list.NoDup_cons. split; [|done]. intros (x & E & Hx)%list_elem_of_fmap. apply H3 in Hx. cbn in E. lia.
  - intros id b oj. rewrite El, elem_of_cons, Ea, H2. destruct (decide (b = a /\ oj = oi)) as [[-> ->]|Hne].
    + rewrite Ha. split; [intros [[= ->]|?]; done|intros [= <-]; by left].
    + split; [intros [[= -> -> ->]|?]; [by destruct Hne|done]|by right].
  - intros le. rewrite El, elem_of_cons, En. intros [->|Hle]; cbn; [lia|]. specialize (H3 le Hle). lia.
Qed.
Lemma list_forget w w' a : list_ok w -> rrset_l w' = filter (fun le => le_cent le <> a) (rrset_l w) -> cents w' = delete a (cents w) ->
  next_id w' = next_id w -> list_ok w'.
Proof.
  intros Hl El Ec En. pose proof Hl as [H1 H2 H3]. constructor; rewrite El.
  - by apply nodup_filter_map.
  - intros id b oj. rewrite list_elem_of_filter, H2. cbn. unfold lent_at. rewrite Ec. destruct (decide (b = a)) as [->|].
    + rewrite lookup_delete_eq. split; [by intros []|done].
    + rewrite lookup_delete_ne by done. tauto.
  - intros le [_ Hle]%list_elem_of_filter. rewrite En. by apply H3.
Qed.

(** ** Running the functions *)
Lemma wp_cent_at w a c (Q : dns_cent_t -> cache -> Prop) : cents w !! a = Some c -> Q c w -> wp (cent_at a) w Q.
Proof. intros E H. exists c, w. split; [|done]. unfold cent_at, lift. by rewrite E. Qed.
Lemma wp_lift_ret {S A} (x : cres A) a (w : S) (Q : A -> S -> Prop) : x = Ret a -> Q a w -> wp (lift x) w Q.
Proof. intros -> H. by exists a, w. Qed.
Lemma wp_tick (Q : nat -> cache -> Prop) w : Q (ticks w) (with_ticks (S (ticks w)) w) -> wp tick w Q.
Proof. intros H. by exists (ticks w), (with_ticks (S (ticks w)) w). Qed.
Lemma wp_on {A} (f : dns_cent_t -> prog cache (A * dns_cent_t)) w a c (Q : A -> cache -> Prop) : cents w !! a = Some c ->
  wp (f c) w (fun '(r, c') w' => Q r (with_cents (<[a := c']> (cents w')) w')) -> wp (on a f) w Q.
Proof.
  intros E H. unfold on. apply wp_bind. eapply wp_cent_at; [done|]. apply wp_bind. eapply wp_mono; [exact H|].
  intros [r c'] w' HQ. apply wp_bind, wp_sets, wp_ret, HQ.
Qed.
Lemma wp_remove w id (Q : unit -> cache -> Prop) : (exists le, le ∈ rrset_l w /\ le_id le = id) ->
  Q tt (with_list (filter (fun le => le_id le <> id) (rrset_l w)) w) -> wp (remove_rrl id) w Q.
Proof.
  intros (le & Hin & Hid) H. unfold remove_rrl. apply wp_bind, wp_gets, wp_bind, wp_ASSERT.
  - apply existsb_exists. exists le. split; [by apply list_elem_of_In|by apply Nat.eqb_eq].
  - by apply wp_sets.
Qed.

(** ** Changes of one entry *)
Record keeps (a : Z) (w w' : cache) : Prop := {
  kp_table : table w' = table w;
  kp_num : ent_num w' = ent_num w;
  kp_sort : insert_sort w' = insert_sort w;
  kp_size : cache_size w' = cache_size w;
  kp_other : forall b, b <> a -> cents w' !! b = cents w !! b;
  kp_ticks : (ticks w <= ticks w')%nat;
}.
Lemma keeps_refl a w : keeps a w w.
Proof. by constructor. Qed.
Lemma keeps_trans a w1 w2 w3 : keeps a w1 w2 -> keeps a w2 w3 -> keeps a w1 w3.
Proof. intros [] []. constructor; try congruence; [|lia]. intros b Hb. rewrite kp_other1, kp_other0; done. Qed.
Definition same_cent (c c' : dns_cent_t) : Prop := qname c' = qname c /\ has (dflags c') DF_LOCAL = has (dflags c) DF_LOCAL.
(** The entry [c] at [a] became one with the property [P], nothing else changed. *)
Definition changed (a : Z) (c : dns_cent_t) (w w' : cache) (P : dns_cent_t -> Prop) : Prop :=
  keeps a w w' /\ sound w' /\ exists c', cents w' !! a = Some c' /\ same_cent c c' /\ P c'.
Lemma changed_mono a c w w' (P P' : dns_cent_t -> Prop) : changed a c w w' P -> (forall c', P c' -> P' c') -> changed a c w w' P'.
Proof. intros (H1 & H2 & c' & H3 & H4 & H5) HP. split; [done|]. split; [done|]. exists c'. auto. Qed.
Lemma changed_trans a c w w1 w2 P (P' : dns_cent_t -> Prop) : changed a c w w1 P ->
  (forall c1, P c1 -> cents w1 !! a = Some c1 -> sound w1 -> changed a c1 w1 w2 P') -> changed a c w w2 P'.
Proof.
  intros (H1 & H2 & c1 & H3 & [H4 H4'] & H5) H. destruct (H c1 H5 H3 H2) as (K1 & K2 & c2 & K3 & [K4 K4'] & K5).
  split; [by eapply keeps_trans|]. split; [done|]. exists c2. split_and!; try done. split; congruence.
Qed.
(** The next step of a function starts where the last one ended. *)
Lemma wp_changed {A B} (m : prog cache A) (k : A -> prog cache B) a c w (P : A -> dns_cent_t -> Prop) (R : B -> dns_cent_t -> Prop) :
  wp m w (fun r w' => changed a c w w' (P r)) ->
  (forall r c1 w1, P r c1 -> same_cent c c1 -> cents w1 !! a = Some c1 -> sound w1 -> wp (k r) w1 (fun b w2 => changed a c1 w1 w2 (R b))) ->
  wp (m ≫= k) w (fun b w2 => changed a c w w2 (R b)).
Proof.
  intros Hm Hk. apply wp_bind. eapply wp_mono; [exact Hm|]. intros r w1 Hc. pose proof Hc as (H1 & H2 & c1 & H3 & H4 & H5).
  eapply wp_mono; [by apply (Hk r c1 w1)|]. intros b w2 (K1 & K2 & c2 & K3 & [K4 K4'] & K5). destruct H4 as [H4 H4'].
  split; [by eapply keeps_trans|]. split; [done|]. exists c2. split_and!; try done. split; congruence.
Qed.
Lemma wp_unchanged {A} (r : A) a c w (R : A -> dns_cent_t -> Prop) : cents w !! a = Some c -> sound w -> R r c ->
  wp (mret r) w (fun b w2 => changed a c w w2 (R b)).
Proof. intros Hc Hs HR. apply wp_ret. split; [apply keeps_refl|]. split; [done|]. by exists c. Qed.

Lemma lent_in_slot c i : lent_in c (Some i) = slot c i ≫= lent.
Proof. unfold lent_in, slot, slots. by destruct (body c). Qed.
Lemma lent_at_put w a c b oi : lent_at (with_cents (<[a := c]> (cents w)) w) b oi = if decide (b = a) then lent_in c oi else lent_at w b oi.
Proof. unfold lent_at. cbn. destruct (decide (b = a)) as [->|]; [by rewrite lookup_insert_eq|by rewrite lookup_insert_ne]. Qed.
Lemma lent_at_here w a c oi : cents w !! a = Some c -> lent_at w a oi = lent_in c oi.
Proof. unfold lent_at. by intros ->. Qed.
(** A change that leaves the list as it is. *)
Lemma changed_put a c c' w n (P : dns_cent_t -> Prop) : (ticks w <= n)%nat -> sound w -> cents w !! a = Some c -> cent_ok c' -> same_cent c c' ->
  (forall oi, lent_in c' oi = lent_in c oi) -> P c' -> changed a c w (with_ticks n (with_cents (<[a := c']> (cents w)) w)) P.
Proof.
  intros Hn [S1 S2] Hc Ho Hs Hl HP. split; [constructor; cbn; try done; intros b Hb; by apply lookup_insert_ne|]. split.
  - constructor; cbn.
    + intros b x. destruct (decide (b = a)) as [->|]; [rewrite lookup_insert_eq; by intros [= <-]|rewrite lookup_insert_ne by done; apply S1].
    + eapply list_same; [exact S2|done| |done]. intros b oi. change (lent_at (with_cents (<[a := c']> (cents w)) w) b oi = lent_at w b oi).
      rewrite lent_at_put. destruct (decide (b = a)) as [->|]; [|done]. by rewrite Hl, (lent_at_here w a c).
  - exists c'. split; [apply lookup_insert_eq|]. done.
Qed.
Lemma ticks_id w : with_ticks (ticks w) w = w.
Proof. by destruct w. Qed.
Lemma changed_ticks a c w n (P : dns_cent_t -> Prop) : (ticks w <= n)%nat -> sound w -> cents w !! a = Some c -> P c -> changed a c w (with_ticks n w) P.
Proof.
  intros Hn [S1 S2] Hc HP. split; [by constructor|]. split; [|by exists c]. constructor; [done|]. by eapply list_same.
Qed.
Lemma sound_ticks w n : sound w -> sound (with_ticks n w).
Proof. intros [S1 S2]. constructor; [done|]. by eapply list_same. Qed.

(** Reduce the members of an entry that was built by assignments. *)
Ltac cfields := cbn [cs num_rrs dflags body qname c_ns c_soa set_flags set_cs set_num set_body set_c_ns set_c_soa upd slots is_neg].

(** *** A set is deleted *)
Definition cleared (i : nat) (c : dns_cent_t) : dns_cent_t :=
  set_flags (clear (dflags c) DF_AUTH) (set_cs (cs c - size_of (slot c i)) (set_num (num_rrs c - 1) (upd i None c))).
Lemma length_upd i x c : length (slots (upd i x c)) = length (slots c).
Proof. unfold upd. cbn. apply length_insert. Qed.
Lemma cent_ok_upd c i x d e : cent_ok c -> (i < length (slots c))%nat -> d = size_of x - size_of (slot c i) -> e = one_of x - one_of (slot c i) ->
  forall f, has f DF_NEGATIVE = has (dflags c) DF_NEGATIVE -> cent_ok (set_flags f (set_cs (cs c + d) (set_num (num_rrs c + e) (upd i x c)))).
Proof.
  intros Hc Hi -> -> f Hf. destruct (slots_pos c i Hc Hi) as [Hn Hb]. pose proof Hc as [C1 C2 C3 C4].
  apply lookup_lt_is_Some_2 in Hi as [y Hy]. assert (Hsl : slot c i = y) by (unfold slot; by rewrite Hy).
  constructor; cfields.
  - unfold negative in *. cfields. rewrite Hf. by rewrite C1.
  - intros _. rewrite length_insert. by apply C2.
  - rewrite C3, (arr_size_insert _ _ _ y Hy), Hsl. unfold ext_size. rewrite length_insert. lia.
  - rewrite C4, (arr_count_insert _ _ _ y Hy), Hsl. lia.
Qed.
Lemma with_nothing w a c : cents w !! a = Some c -> with_cents (<[a := c]> (cents w)) w = w.
Proof. intros H. destruct w. unfold with_cents. cbn in *. by rewrite insert_id. Qed.
Lemma cleared_ok c i r : cent_ok c -> slot c i = Some r -> cent_ok (cleared i c).
Proof.
  intros Hc Hr. pose proof (slot_lt _ _ _ Hr) as Hi. unfold cleared.
  replace (cs c - size_of (slot c i)) with (cs c + - size_of (slot c i)) by lia.
  replace (num_rrs c - 1) with (num_rrs c + - one_of (slot c i)) by (rewrite Hr; cbn; lia).
  apply cent_ok_upd; [done..|cbn; lia|cbn; lia|]. by apply has_clear.
Qed.
(** What the deletion of slot [i] does to the other slots. *)
Definition without (i : nat) (c c' : dns_cent_t) : Prop :=
  (forall j, slot c' j = if decide (i = j) then None else slot c j) /\ length (slots c') = length (slots c) /\ is_neg c' = is_neg c /\
  (forall k l t, body c' = Neg k l t -> body c = Neg k l t).
Lemma cleared_without i c r : cent_ok c -> slot c i = Some r -> without i c (cleared i c).
Proof.
  intros Hc Hr. pose proof (slot_lt _ _ _ Hr) as Hi. destruct (slots_pos c i Hc Hi) as [Hn Hb]. split_and!.
  - intros j. change (slot (cleared i c) j) with (slot (upd i None c) j). by rewrite slot_upd.
  - apply length_upd.
  - by rewrite Hn.
  - done.
Qed.
Lemma lent_without i c c' oi : without i c c' -> is_neg c = false -> lent_in c' oi = if decide (oi = Some i) then None else lent_in c oi.
Proof.
  intros (H1 & _ & H2 & _) Hn. destruct oi as [j|].
  - rewrite !lent_in_slot, H1. destruct (decide (i = j)) as [->|]; [by rewrite decide_True|by rewrite decide_False by congruence].
  - rewrite decide_False by done. unfold is_neg in *. cbn. by destruct (body c), (body c').
Qed.
Definition not_at (a : Z) (i : option nat) (le : rr_lent_t) : Prop := ~ (le_cent le = a /\ le_idx le = i).
#[global] Instance not_at_dec a i le : Decision (not_at a i le).
Proof. unfold not_at. apply _. Defined.
Lemma filter_ext_in {A} (P Q : A -> Prop) `{!forall x, Decision (P x)} `{!forall x, Decision (Q x)} (l : list A) :
  (forall x, x ∈ l -> P x <-> Q x) -> filter P l = filter Q l.
Proof.
  induction l as [|x l IH]; intros Hx; [done|]. rewrite !filter_cons, IH by (intros y Hy; apply Hx; by right).
  destruct (Hx x (list_elem_of_here _ _)). destruct (decide (P x)), (decide (Q x)); tauto || done.
Qed.
Lemma filter_all_in {A} (P : A -> Prop) `{!forall x, Decision (P x)} (l : list A) : (forall x, x ∈ l -> P x) -> filter P l = l.
Proof.
  induction l as [|x l IH]; intros Hx; [done|]. rewrite filter_cons, decide_True by (apply Hx; by left). f_equal. apply IH. intros y Hy. apply Hx. by right.
Qed.
(** The nodes with a given address are those of one slot. *)
Lemma filter_id w a i id : list_ok w -> lent_at w a i = Some id ->
  filter (fun le => le_id le <> id) (rrset_l w) = filter (not_at a i) (rrset_l w).
Proof.
  intros Hl Ha. apply filter_ext_in. intros [id' b oj] Hin. cbn. apply (lo_in w Hl) in Hin. split.
  - intros Hne [E1 E2]. cbn in *. subst. congruence.
  - intros Hna ->. apply Hna. cbn. by eapply lent_unique.
Qed.
Lemma filter_none w a i : list_ok w -> lent_at w a i = None -> filter (not_at a i) (rrset_l w) = rrset_l w.
Proof.
  intros Hl Ha. apply filter_all_in. intros [id b oj] Hin [E1 E2]. cbn in *. subst. apply (lo_in w Hl) in Hin. congruence.
Qed.
Lemma del_ok a c i w : sound w -> cents w !! a = Some c ->
  wp (on a (del_cent_rrset_by_index i)) w (fun rv w' => changed a c w w' (fun c' =>
    rv = size_of (slot c i) /\ cs c' = cs c - rv /\ without i c c') /\ rrset_l w' = filter (not_at a (Some i)) (rrset_l w)).
Proof.
  intros Hs Hc. pose proof Hs as [S1 S2]. pose proof (S1 a c Hc) as Ho. eapply wp_on; [done|]. unfold del_cent_rrset_by_index.
  apply wp_bind. eapply wp_lift_ret; [by apply RRARR_TESTEXT_ok|]. destruct (slot c i) as [r|] eqn:Hr.
  - pose proof (slot_lt _ _ _ Hr) as Hi. pose proof (cleared_ok c i r Ho Hr) as Ho'. destruct (slots_pos c i Ho Hi) as [Hn Hb].
    pose proof (cleared_without i c r Ho Hr) as Hwo.
    assert (Hl : forall b oj, lent_at (with_cents (<[a := cleared i c]> (cents w)) w) b oj =
      if decide (b = a /\ oj = Some i) then None else lent_at w b oj).
    { intros b oj. rewrite lent_at_put. destruct (decide (b = a)) as [->|]; [|by rewrite decide_False by tauto].
      rewrite (lent_without i c _ oj Hwo Hn), (lent_at_here w a c oj Hc).
      destruct (decide (oj = Some i)); [by rewrite decide_True|by rewrite decide_False by tauto]. }
    apply wp_bind. unfold del_rrset. apply wp_bind. eapply (wp_mono _ _ (fun _ w' => exists l', w' = with_list l' w /\
      l' = filter (not_at a (Some i)) (rrset_l w) /\ list_ok (with_cents (<[a := cleared i c]> (cents w)) (with_list l' w)))).
    { destruct (lent r) as [id|] eqn:El.
      - assert (Hid : lent_at w a (Some i) = Some id) by (rewrite (lent_at_here w a c _ Hc), lent_in_slot, Hr; done).
        eapply wp_remove; [by exists (mkLent id a (Some i)); split; [apply (lo_in w S2)|]|]. eexists. split; [done|].
        split; [by apply filter_id|]. by eapply list_unlink.
      - assert (Hnone : lent_at w a (Some i) = None) by by rewrite (lent_at_here w a c _ Hc), lent_in_slot, Hr.
        apply wp_ret. exists (rrset_l w). split; [by destruct w|]. split; [by rewrite filter_none|]. eapply list_same; [exact S2|done| |done]. intros b oj.
        etransitivity; [apply Hl|]. destruct (decide (b = a /\ oj = Some i)) as [[-> ->]|]; [|done].
        by rewrite (lent_at_here w a c _ Hc), lent_in_slot, Hr. }
    intros _ w' (l' & -> & Hl' & Hok). apply wp_ret, wp_bind. eapply wp_lift_ret; [by apply set_slot_ok|]. apply wp_ret. cbn [cents with_list].
    split; [|done].
    replace (set_flags _ _) with (cleared i c) by (unfold cleared; by rewrite Hr).
    split; [constructor; cbn; try done; intros b Hb'; by apply lookup_insert_ne|]. split.
    + constructor; [|done]. cbn. intros b x. destruct (decide (b = a)) as [->|]; [rewrite lookup_insert_eq; by intros [= <-]|].
      rewrite lookup_insert_ne by done. apply S1.
    + exists (cleared i c). split; [apply lookup_insert_eq|]. split; [split; [done|by apply has_clear]|].
      split; [done|]. split; [unfold cleared; by rewrite Hr|done].
  - assert (Hnone : lent_at w a (Some i) = None) by by rewrite (lent_at_here w a c _ Hc), lent_in_slot, Hr.
    apply wp_ret. rewrite with_nothing by done. split; [|by rewrite filter_none]. split; [apply keeps_refl|]. split; [done|]. exists c. split; [done|]. split; [done|].
    split; [done|]. split; [cbn; lia|]. split_and!; try done. intros j. by destruct (decide (i = j)) as [->|].
Qed.

(** *** An entry is freed *)
Definition not_below (a : Z) (k : nat) (le : rr_lent_t) : Prop :=
  ~ (le_cent le = a /\ match le_idx le with Some i => (i < k)%nat | None => False end).
#[local] Instance not_below_dec a k le : Decision (not_below a k le).
Proof. unfold not_below. destruct (le_idx le); apply _. Defined.
Lemma not_below_S w a c k : list_ok w -> cents w !! a = Some c -> lent_in c (Some k) = None ->
  filter (not_below a (S k)) (rrset_l w) = filter (not_below a k) (rrset_l w).
Proof.
  intros Hl Hc Hk. apply filter_ext_in. intros [id b oj] Hin. apply (lo_in w Hl) in Hin. unfold not_below. cbn. destruct oj as [j|]; [|tauto].
  split; [intros H [-> Hj]; apply H; split; [done|lia]|]. intros H [-> Hj]. destruct (decide (j = k)) as [->|]; [|apply H; split; [done|lia]].
  rewrite (lent_at_here w a c _ Hc) in Hin. congruence.
Qed.
Lemma not_below_remove w a c k id : list_ok w -> cents w !! a = Some c -> lent_in c (Some k) = Some id ->
  filter (fun le => le_id le <> id) (filter (not_below a k) (rrset_l w)) = filter (not_below a (S k)) (rrset_l w).
Proof.
  intros Hl Hc Hk. rewrite list_filter_filter. apply filter_ext_in. intros [id' b oj] Hin. apply (lo_in w Hl) in Hin. cbn.
  assert (Hid : lent_at w a (Some k) = Some id) by by rewrite (lent_at_here w a c _ Hc).
  unfold not_below. cbn. split.
  - intros [Hne H] [-> Hj]. destruct oj as [j|]; [|done]. destruct (decide (j = k)) as [->|]; [congruence|]. apply H. split; [done|lia].
  - intros H. split; [|intros [-> Hj]; apply H; split; [done|destruct oj; [lia|done]]]. intros ->.
    destruct (lent_unique w _ _ _ _ id Hl Hid Hin) as [<- <-]. apply H. split; [done|lia].
Qed.
Lemma del_rrsets_ok w a c : sound w -> cents w !! a = Some c -> forall arr k, drop k (slots c) = arr ->
  wp (del_rrsets arr) (with_list (filter (not_below a k) (rrset_l w)) w)
    (fun _ w' => w' = with_list (filter (not_below a (k + length arr)) (rrset_l w)) w).
Proof.
  intros Hs Hc. pose proof Hs as [S1 S2]. induction arr as [|x arr IH]; intros k Hk; cbn [del_rrsets].
  { apply wp_ret. cbn. by rewrite Nat.add_0_r. }
  assert (Hx : slot c k = x). { unfold slot. rewrite <- (Nat.add_0_r k), <- lookup_drop, Hk. done. }
  assert (Hnext : drop (S k) (slots c) = arr). { rewrite <- Nat.add_1_r, <- drop_drop, Hk. done. }
  replace (k + length (x :: arr))%nat with (S k + length arr)%nat by (cbn; lia).
  destruct x as [r|].
  - unfold del_rrset. apply wp_bind, wp_bind. destruct (lent r) as [id|] eqn:El.
    + assert (Hid : lent_in c (Some k) = Some id) by (rewrite lent_in_slot, Hx; done). eapply wp_remove.
      * exists (mkLent id a (Some k)). split; [|done]. cbn. apply list_elem_of_filter. split; [unfold not_below; cbn; lia|].
        apply (lo_in w S2). by rewrite (lent_at_here w a c _ Hc).
      * apply wp_ret, wp_bind. cbn [rrset_l with_list]. rewrite (not_below_remove w a c) by done.
        eapply wp_mono; [by apply (IH (S k))|]. intros ? w' ->. by apply wp_ret.
    + apply wp_ret, wp_ret, wp_bind. rewrite <- (not_below_S w a c) by (try done; rewrite lent_in_slot, Hx; done).
      eapply wp_mono; [by apply (IH (S k))|]. intros ? w' ->. by apply wp_ret.
  - rewrite <- (not_below_S w a c) by (try done; rewrite lent_in_slot, Hx; done). by apply (IH (S k)).
Qed.
Lemma free_cent_ok w a c : sound w -> cents w !! a = Some c ->
  wp (free_cent c) w (fun _ w' => w' = with_list (filter (fun le => le_cent le <> a) (rrset_l w)) w).
Proof.
  intros Hs Hc. pose proof Hs as [S1 S2]. pose proof (S1 a c Hc) as Ho. unfold free_cent. rewrite (co_tag _ Ho). unfold is_neg.
  destruct (body c) as [l nt ns|arr] eqn:Eb.
  - unfold the_neg. rewrite Eb. apply wp_bind. eapply wp_lift_ret; [done|].
    assert (Hf : filter (not_at a None) (rrset_l w) = filter (fun le => le_cent le <> a) (rrset_l w)).
    { apply filter_ext_in. intros [id b oj] Hin. apply (lo_in w S2) in Hin. unfold not_at. cbn. split; [|tauto].
      intros H ->. rewrite (lent_at_here w a c _ Hc) in Hin. unfold lent_in in Hin. rewrite Eb in Hin. destruct oj; [done|]. by apply H. }
    destruct l as [id|].
    + assert (Hid : lent_at w a None = Some id) by (rewrite (lent_at_here w a c _ Hc); cbn; by rewrite Eb).
      eapply wp_remove; [by exists (mkLent id a None); split; [apply (lo_in w S2)|]|]. by rewrite (filter_id w a None), Hf.
    + apply wp_ret. rewrite <- Hf, filter_none; [by destruct w|done|]. rewrite (lent_at_here w a c _ Hc). cbn. by rewrite Eb.
  - apply wp_bind. eapply wp_lift_ret; [by apply RRARR_ok|]. apply wp_bind. pose proof (del_rrsets_ok w a c Hs Hc _ 0%nat eq_refl) as H.
    rewrite (filter_all_in (not_below a 0)) in H by (intros le Hle [_ Hx]; destruct (le_idx le); [lia|done]).
    replace (with_list (rrset_l w) w) with w in H by by destruct w. eapply wp_mono; [exact H|]. intros ? w' ->. apply wp_ret.
    f_equal. apply filter_ext_in. intros [id b oj] Hin. apply (lo_in w S2) in Hin. unfold not_below. cbn. split; [|tauto].
    intros Hn ->. apply Hn. split; [done|]. rewrite (lent_at_here w a c _ Hc) in Hin. destruct oj as [j|].
    + rewrite lent_in_slot in Hin. destruct (slot c j) eqn:Hj; [|done]. by apply slot_lt in Hj.
    + cbn in Hin. by rewrite Eb in Hin.
Qed.

(** *** A set is added *)
Section entry.
Context {malloc_ok : nat -> bool} {clock : nat -> Z}.
Set Default Proof Using "Type".
Lemma wp_malloc w (Q : bool -> cache -> Prop) : (forall b, Q b (with_ticks (S (ticks w)) w)) -> wp (malloc malloc_ok) w Q.
Proof. intros H. unfold malloc. apply wp_bind, wp_tick, wp_ret, H. Qed.
Definition no_memory : Prop := exists t, malloc_ok t = false.
Lemma wp_malloc_or w (Q : bool -> cache -> Prop) : (forall b, (b = true \/ no_memory) -> Q b (with_ticks (S (ticks w)) w)) -> wp (malloc malloc_ok) w Q.
Proof.
  intros H. unfold malloc. apply wp_bind, wp_tick, wp_ret, H. destruct (malloc_ok (ticks w)) eqn:E; [by left|right; by exists (ticks w)].
Qed.
Lemma wp_time w (Q : Z -> cache -> Prop) : Q (clock (ticks w)) (with_ticks (S (ticks w)) w) -> wp (time clock) w Q.
Proof. intros H. unfold time. by apply wp_bind, wp_tick, wp_ret. Qed.

Definition with_slot (i : nat) (x : option rr_set_t) (c c' : dns_cent_t) : Prop :=
  is_neg c' = false /\ forall j, slot c' j = if decide (i = j) then x else slot c j.
Lemma slot_none n i : mjoin (replicate n (None : option rr_set_t) !! i) = None.
Proof. destruct (replicate n None !! i) as [x|] eqn:E; [|done]. by apply lookup_replicate in E as [-> _]. Qed.
Lemma make_positive_ok a c w : sound w -> cents w !! a = Some c ->
  wp (make_positive c) w (fun c1 w1 => exists l1, w1 = with_list l1 w /\
    changed a c w (with_cents (<[a := c1]> (cents w)) w1) (fun c' => c' = c1 /\ is_neg c1 = false /\ (forall j, slot c1 j = slot c j))).
Proof.
  intros Hs Hc. pose proof Hs as [S1 S2]. pose proof (S1 a c Hc) as Ho. unfold make_positive. pose proof Ho as [C1 C2 C3 C4]. rewrite C1.
  destruct (is_neg c) eqn:Hn.
  2:{ apply wp_ret. exists (rrset_l w). split; [by destruct w|]. rewrite with_nothing by done. split; [apply keeps_refl|]. split; [done|]. by exists c. }
  unfold is_neg in Hn. destruct (body c) as [l nt ns|arr] eqn:Eb; [|done]. unfold the_neg. rewrite Eb.
  apply wp_bind. eapply wp_lift_ret; [done|]. apply wp_bind. set (c1 := set_body _ _).
  assert (Hsl : slots c = []) by (unfold slots; by rewrite Eb). rewrite Hsl in *.
  assert (Ho1 : cent_ok c1).
  { unfold c1. constructor; cfields; [apply has_cleared|by left|rewrite C3; done|rewrite C4; done]. }
  assert (Hl : forall b oj, lent_at (with_cents (<[a := c1]> (cents w)) w) b oj = if decide (b = a /\ oj = None) then None else lent_at w b oj).
  { intros b oj. rewrite lent_at_put. destruct (decide (b = a)) as [->|]; [|by rewrite decide_False by tauto].
    rewrite (lent_at_here w a c _ Hc). destruct oj as [j|]; [rewrite decide_False by (intros [_ [=]])|by rewrite decide_True].
    rewrite !lent_in_slot. unfold slot at 2. rewrite Hsl. unfold slot, c1. cfields. by rewrite slot_none. }
  eapply (wp_mono _ _ (fun _ w' => exists l', w' = with_list l' w /\ list_ok (with_cents (<[a := c1]> (cents w)) (with_list l' w)))).
  - destruct l as [id|].
    + assert (Hid : lent_at w a None = Some id) by (rewrite (lent_at_here w a c _ Hc); cbn; by rewrite Eb).
      eapply wp_remove; [by exists (mkLent id a None); split; [apply (lo_in w S2)|]|]. eexists. split; [done|]. eapply list_unlink; [exact S2|exact Hid|done| |done].
      intros b oj. etransitivity; [apply Hl|]. by repeat case_decide.
    + apply wp_ret. exists (rrset_l w). split; [by destruct w|]. eapply list_same; [exact S2|done| |done]. intros b oj.
      etransitivity; [apply Hl|]. destruct (decide (b = a /\ oj = None)) as [[-> ->]|]; [|done].
      rewrite (lent_at_here w a c _ Hc). cbn. by rewrite Eb.
  - intros _ w' (l' & -> & Hok). apply wp_ret. exists l'. split; [done|].
    split; [constructor; cbn; try done; intros b Hb; by apply lookup_insert_ne|]. split.
    + constructor; [|done]. cbn. intros b x. destruct (decide (b = a)) as [->|]; [rewrite lookup_insert_eq; by intros [= <-]|].
      rewrite lookup_insert_ne by done. apply S1.
    + exists c1. split; [apply lookup_insert_eq|]. split; [split; [done|by apply has_clear]|]. split_and!; try done.
      intros j. unfold slot. rewrite Hsl. unfold c1. cfields. by rewrite slot_none.
Qed.
Lemma make_room_ok c i w : cent_ok c -> is_neg c = false -> (i < NRRTOT)%nat ->
  wp (make_room malloc_ok i c) w (fun '(ok, c') w' => exists n, w' = with_ticks n w /\ (ticks w <= n)%nat /\ cent_ok c' /\ same_cent c c' /\
    is_neg c' = false /\ (forall j, slot c' j = slot c j) /\ (ok = true -> (i < length (slots c'))%nat)).
Proof.
  intros Ho Hn Hi. pose proof Ho as [C1 C2 C3 C4]. specialize (C2 Hn). unfold make_room.
  assert (Hsame : forall b : bool, (b = true -> (i < length (slots c))%nat) -> wp (mret (b, c)) w (fun '(ok, c') w' =>
    exists n, w' = with_ticks n w /\ (ticks w <= n)%nat /\ cent_ok c' /\ same_cent c c' /\ is_neg c' = false /\ (forall j, slot c' j = slot c j) /\
      (ok = true -> (i < length (slots c'))%nat))).
  { intros b Hb. apply wp_ret. exists (ticks w). by rewrite ticks_id. }
  destruct (Nat.ltb_spec i NRRMU); [apply Hsame; unfold NRRMU, NRRTOT in *; lia|]. apply wp_bind, wp_ASSERT; [by apply Nat.ltb_lt|].
  apply wp_bind. eapply wp_lift_ret; [by apply RRARR_ok|]. destruct (Nat.leb_spec (length (slots c)) NRRMU).
  2:{ apply Hsame. unfold NRRMU, NRRTOT in *. lia. }
  apply wp_bind, wp_malloc. intros ok. apply wp_ret. destruct ok; eexists; (split; [done|]); (split; [cbn; lia|]); [|done].
  assert (Hlen : length (slots c) = NRRMU) by (unfold NRRMU, NRRTOT in *; lia).
  split_and!; try done.
  - constructor; cfields; [by rewrite <- Hn, <- C1| | |].
    + intros _. right. rewrite length_app, length_replicate, Hlen. done.
    + rewrite C3, arr_size_app, arr_size_none. unfold ext_size. rewrite length_app, length_replicate, Hlen. cbn [Nat.ltb Nat.leb NRRMU NRREXT Nat.add]. lia.
    + by rewrite C4, arr_count_app, arr_count_none, Z.add_0_r.
  - intros j. unfold slot. cfields. destruct (decide (j < length (slots c))%nat).
    + by rewrite lookup_app_l.
    + rewrite lookup_app_r by lia. rewrite slot_none. by rewrite lookup_ge_None_2 by lia.
  - intros _. cfields. rewrite length_app, length_replicate, Hlen. unfold NRRMU, NRREXT, NRRTOT in *. lia.
Qed.
Lemma lent_same c c' : is_neg c' = false -> is_neg c = false -> (forall j, slot c' j ≫= lent = slot c j ≫= lent) -> forall oi, lent_in c' oi = lent_in c oi.
Proof. intros H1 H2 H [j|]; [by rewrite !lent_in_slot, H|]. unfold is_neg in *. cbn. by destruct (body c), (body c'). Qed.
Lemma put_after w l1 n a c1 c2 : with_cents (<[a := c2]> (cents w)) (with_ticks n (with_list l1 w)) =
  with_ticks n (with_cents (<[a := c2]> (cents (with_cents (<[a := c1]> (cents w)) (with_list l1 w)))) (with_cents (<[a := c1]> (cents w)) (with_list l1 w))).
Proof. unfold with_cents, with_ticks, with_list. cbn. by rewrite insert_insert_eq. Qed.
(** An empty set is put into an empty slot. *)
Lemma fill_ok c i t s fl : cent_ok c -> (i < length (slots c))%nat -> slot c i = None ->
  cent_ok (let c := upd i (Some (mkRRset None t s fl [])) c in set_num (num_rrs c + 1) (set_cs (cs c + sizeof_rr_set_t) c)).
Proof.
  intros Ho Hlt Hi. pose proof (cent_ok_upd c i (Some (mkRRset None t s fl [])) sizeof_rr_set_t 1 Ho Hlt) as H. rewrite Hi in H. cbn in H.
  specialize (H eq_refl eq_refl (dflags c) eq_refl). by destruct c.
Qed.
Lemma refill_ok c i : cent_ok c -> (i < length (slots c))%nat -> slot c i = None -> cent_ok (upd i None c).
Proof.
  intros Ho Hlt Hi. pose proof (cent_ok_upd c i None 0 0 Ho Hlt) as H. rewrite Hi in H.
  specialize (H eq_refl eq_refl (dflags c) eq_refl). rewrite !Z.add_0_r in H. by destruct c.
Qed.
Lemma addset_ok a c i t s fl w : sound w -> cents w !! a = Some c -> (i < NRRTOT)%nat -> slot c i = None ->
  wp (on a (add_cent_rrset_by_index malloc_ok i t s fl)) w (fun ok w' => changed a c w w'
    (with_slot i (if ok : bool then Some (mkRRset None t s fl []) else None) c)).
Proof.
  intros Hs Hc Hi Hsi. eapply wp_on; [done|]. unfold add_cent_rrset_by_index. apply wp_bind.
  eapply wp_mono; [by eapply make_positive_ok|]. intros c1 w1 (l1 & -> & Hch). apply wp_bind.
  assert (Hfin : forall (ok : bool) c2 n, (ticks w <= n)%nat -> cent_ok c2 -> same_cent c1 c2 -> is_neg c2 = false ->
    (forall j, slot c2 j = if decide (i = j) then (if ok then Some (mkRRset None t s fl []) else None) else slot c1 j) ->
    changed a c w (with_cents (<[a := c2]> (cents w)) (with_ticks n (with_list l1 w))) (with_slot i (if ok then Some (mkRRset None t s fl []) else None) c)).
  { intros ok c2 n Hle Ho2 Hsame Hn2 Hsl. rewrite (put_after _ _ _ _ c1). eapply changed_trans; [exact Hch|].
    intros cx (-> & Hn1 & Hs1) Hcx Hsx. eapply changed_put; try done.
    - apply lent_same; [done..|]. intros j. rewrite Hsl, Hs1. destruct (decide (i = j)) as [<-|]; [|done]. rewrite Hsi. by destruct ok.
    - split; [done|]. intros j. rewrite Hsl, Hs1. done. }
  pose proof Hch as (_ & [S1 _] & cx & Hcx & _ & -> & Hn1 & Hs1). pose proof (S1 a c1 Hcx) as Ho1.
  eapply wp_mono; [by apply make_room_ok|]. intros [ok c2] w2 (n & -> & Hle & Ho2 & Hsame & Hn2 & Hsl2 & Hlt). destruct ok; cbn [negb].
  2:{ apply wp_ret. apply (Hfin false c2 n); try done. intros j. rewrite Hsl2. destruct (decide (i = j)) as [<-|]; [|done]. by rewrite Hs1. }
  specialize (Hlt eq_refl). assert (Hsi2 : slot c2 i = None) by by rewrite Hsl2, Hs1.
  apply wp_bind, wp_malloc. intros ok. destruct ok; cbn [negb]; apply wp_bind; (eapply wp_lift_ret; [by apply set_slot_ok|]); apply wp_ret.
  - apply (Hfin true _ (S n)); [cbn in Hle; lia|by apply fill_ok|done|done|intros j; change (slot (set_num _ _) j) with (slot (upd i (Some (mkRRset None t s fl [])) c2) j); rewrite slot_upd, Hsl2; done].
  - apply (Hfin false _ (S n)); [cbn in Hle; lia|by apply refill_ok|done|done|intros j; rewrite slot_upd, Hsl2; done].
Qed.
(** The set in a slot is replaced by another one. *)
Lemma replace_ok a c i r r' d w n : (ticks w <= n)%nat -> sound w -> cents w !! a = Some c -> slot c i = Some r -> lent r' = lent r -> d = rrset_size r' - rrset_size r ->
  changed a c w (with_ticks n (with_cents (<[a := set_cs (cs c + d) (upd i (Some r') c)]> (cents w)) w)) (with_slot i (Some r') c).
Proof.
  intros Hle Hs Hc Hr Hl Hd. pose proof (slot_lt _ _ _ Hr) as Hi. pose proof (so_cents _ Hs a c Hc) as Ho.
  destruct (slots_pos c i Ho Hi) as [Hn Hb].
  assert (Hsl : forall j, slot (set_cs (cs c + d) (upd i (Some r') c)) j = if decide (i = j) then Some r' else slot c j).
  { intros j. change (slot (set_cs _ _) j) with (slot (upd i (Some r') c) j). by apply slot_upd. }
  eapply changed_put; try done.
  - pose proof (cent_ok_upd c i (Some r') d 0 Ho Hi) as H. rewrite Hr in H. specialize (H Hd eq_refl (dflags c) eq_refl).
    rewrite Z.add_0_r in H. by destruct c.
  - apply lent_same; [done..|]. intros j. rewrite Hsl. destruct (decide (i = j)) as [<-|]; [|done]. rewrite Hr. cbn. by rewrite Hl.
Qed.
Lemma records_size_app l1 l2 : records_size (l1 ++ l2) = records_size l1 + records_size l2.
Proof. induction l1 as [|d l1 IH]; [done|]. change (rr_size d + records_size (l1 ++ l2) = rr_size d + records_size l1 + records_size l2). rewrite IH. lia. Qed.
Lemma addrr_ok a c i r t s fl d w : sound w -> cents w !! a = Some c -> slot c i = Some r ->
  wp (on a (add_cent_rr_int malloc_ok i t s fl d)) w (fun ok w' => changed a c w w'
    (with_slot i (Some (if ok : bool then set_rrs (rrs r ++ [d]) r else r)) c)).
Proof.
  intros Hs Hc Hr. pose proof (slot_lt _ _ _ Hr) as Hi. pose proof (so_cents _ Hs a c Hc) as Ho. destruct (slots_pos c i Ho Hi) as [Hn Hb].
  eapply wp_on; [done|]. unfold add_cent_rr_int. apply wp_bind, wp_malloc. intros ok. destruct ok; cbn [negb].
  - apply wp_bind. eapply wp_lift_ret; [by apply RRARR_TESTEXT_ok|]. rewrite Hr. apply wp_bind, wp_ret. cbn [negb].
    apply wp_bind. unfold append_rr. eapply wp_lift_ret.
    { rewrite RRARR_INDEX_ok, Hr by done. cbn. rewrite set_slot_ok by done. done. }
    apply wp_ret. apply (replace_ok a c i r (set_rrs (rrs r ++ [d]) r) (rr_size d) w (S (ticks w))); try done; [lia|]. unfold rrset_size. cbn [rrs set_rrs]. rewrite records_size_app. cbn. lia.
  - apply wp_ret. change (cents (with_ticks _ w)) with (cents w).
    change (with_cents (<[a := c]> (cents w)) (with_ticks (S (ticks w)) w)) with (with_ticks (S (ticks w)) (with_cents (<[a := c]> (cents w)) w)).
    rewrite with_nothing by done. apply changed_ticks; try done; [lia|]. split; [done|]. intros j. by destruct (decide (i = j)) as [<-|].
Qed.

(** *** A set is put on the list *)
Lemma le_rrset_ok w le i : sound w -> le ∈ rrset_l w -> le_idx le = Some i ->
  exists c r, cents w !! le_cent le = Some c /\ slot c i = Some r /\ lent r = Some (le_id le) /\
    forall Q : rr_set_t -> cache -> Prop, Q r w -> wp (le_rrset le i) w Q.
Proof.
  intros [S1 S2] Hin Hi. destruct le as [id a oi]. cbn in *. subst oi. apply (lo_in w S2) in Hin. unfold lent_at in Hin.
  destruct (cents w !! a) as [c|] eqn:Hc; [|done]. rewrite lent_in_slot in Hin. destruct (slot c i) as [r|] eqn:Hr; [|done]. cbn in Hin.
  exists c, r. split_and!; try done. intros Q HQ. pose proof (slot_lt _ _ _ Hr) as Hlt. unfold le_rrset. apply wp_bind.
  eapply wp_cent_at; [exact Hc|]. apply wp_bind. eapply wp_lift_ret; [apply RRARR_INDEX_ok; [by eapply S1|done]|]. rewrite Hr.
  apply wp_bind. eapply wp_some; [done|]. apply wp_bind, wp_ASSERT; [by apply bool_decide_eq_true_2|]. by apply wp_ret.
Qed.
Lemma le_neg_ok w le : sound w -> le ∈ rrset_l w -> le_idx le = None ->
  exists c nt ns, cents w !! le_cent le = Some c /\ body c = Neg (Some (le_id le)) nt ns.
Proof.
  intros [S1 S2] Hin Hi. destruct le as [id a oi]. cbn in *. subst oi. apply (lo_in w S2) in Hin. unfold lent_at in Hin.
  destruct (cents w !! a) as [c|] eqn:Hc; [|done]. cbn in Hin. destruct (body c) eqn:Eb; [|done]. subst. by eexists _, _, _.
Qed.
Lemma ts_ok w le : sound w -> le ∈ rrset_l w -> exists t, forall Q : Z -> cache -> Prop, Q t w -> wp (get_rrlent_ts le) w Q.
Proof.
  intros Hs Hin. unfold get_rrlent_ts. destruct (le_idx le) as [i|] eqn:Ei.
  - destruct (le_rrset_ok w le i Hs Hin Ei) as (c & r & _ & _ & _ & Hr). exists (ts r). intros Q HQ. apply wp_bind, Hr. by apply wp_ret.
  - destruct (le_neg_ok w le Hs Hin Ei) as (c & nt & ns & Hc & Hb). exists ns. intros Q HQ. apply wp_bind. eapply wp_cent_at; [exact Hc|].
    apply wp_bind. unfold the_neg. rewrite Hb. eapply wp_lift_ret; [done|]. by apply wp_ret.
Qed.
Lemma insert_from_tail_ok w t ne : sound w -> forall l, (forall le, le ∈ l -> le ∈ rrset_l w) ->
  wp (insert_from_tail t ne l) w (fun r w' => w' = w /\ r ≡ₚ ne :: l).
Proof.
  intros Hs. induction l as [|le l IH]; intros Hin; cbn [insert_from_tail]; [by apply wp_ret|].
  destruct (ts_ok w le Hs (Hin le (list_elem_of_here _ _))) as [t' Ht]. apply wp_bind, Ht.
  destruct (t' <=? t); [by apply wp_ret|]. apply wp_bind. eapply wp_mono; [apply IH; intros x Hx; apply Hin; by right|].
  intros r w' [-> Hr]. apply wp_ret. split; [done|]. rewrite Hr. apply Permutation_swap.
Qed.
(** A set that is not in the list is put there unless it is local. *)
Definition link_pre (c : dns_cent_t) (oi : option nat) : Prop := present c oi = true /\ lent_in c oi = None.
(** What is not in the sets. *)
Definition rest_of (c : dns_cent_t) := (c_ns c, c_soa c, dflags c, match body c with Neg _ t s => Some (t, s) | RR _ => None end).
Definition link_res (oi : option nat) (c c' : dns_cent_t) : Prop :=
  is_neg c' = is_neg c /\ cs c' = cs c /\ length (slots c') = length (slots c) /\ linked_at c' oi /\
  (forall j, Some j <> oi -> slot c' j = slot c j) /\
  (forall j r, slot c j = Some r -> exists id, slot c' j = Some (set_lent id r)) /\ rest_of c' = rest_of c.
Lemma link_res_refl c oi : link_pre c oi -> local_in c oi = true -> link_res oi c c.
Proof.
  intros [H1 H2] Hl. unfold link_res, linked_at. split_and!; try done.
  intros j r Hj. exists (lent r). rewrite Hj. by destruct r.
Qed.
Definition relent (id : nat) (oi : option nat) (c : dns_cent_t) : dns_cent_t :=
  match oi with
  | Some i => match slot c i with Some r => upd i (Some (set_lent (Some id) r)) c | None => c end
  | None => match body c with Neg _ nt ns => set_body (Neg (Some id) nt ns) c | RR _ => c end
  end.
Lemma relent_ok id oi c : cent_ok c -> link_pre c oi -> local_in c oi = false ->
  cent_ok (relent id oi c) /\ same_cent c (relent id oi c) /\ link_res oi c (relent id oi c) /\
  (forall oj, lent_in (relent id oi c) oj = if decide (oj = oi) then Some id else lent_in c oj).
Proof.
  intros Ho [H1 H2] Hl. destruct oi as [i|]; cbn [present relent] in *.
  - rewrite lent_in_slot in H2. destruct (slot c i) as [r|] eqn:Hr; [|done]. pose proof (slot_lt _ _ _ Hr) as Hi.
    destruct (slots_pos c i Ho Hi) as [Hn Hb]. cbn in H2.
    assert (Hsl := fun j => slot_upd c i (Some (set_lent (Some id) r)) j Hi).
    assert (Hlent : forall oj, lent_in (upd i (Some (set_lent (Some id) r)) c) oj = if decide (oj = Some i) then Some id else lent_in c oj).
    { intros [j|]; [|cbn; by rewrite Hb]. rewrite !lent_in_slot, Hsl.
      destruct (decide (i = j)) as [<-|]; [by rewrite decide_True|by rewrite decide_False by congruence]. }
    split; [|split; [done|split; [|done]]]; [|unfold link_res; split_and!; try done].
    + pose proof (cent_ok_upd c i (Some (set_lent (Some id) r)) 0 0 Ho Hi) as H. rewrite Hr in H.
      assert (E : 0 = size_of (Some (set_lent (Some id) r)) - size_of (Some r)) by (unfold size_of, rrset_size; cbn [rrs set_lent]; lia).
      specialize (H E eq_refl (dflags c) eq_refl). rewrite !Z.add_0_r in H. by destruct c.
    + apply length_upd.
    + intros _. rewrite Hlent, decide_True by done. split; [done|]. unfold local_in. rewrite Hsl, decide_True by done. cbn. intros E. exfalso.
      unfold local_in in Hl. rewrite Hr in Hl. congruence.
    + intros j Hj. rewrite Hsl. by rewrite decide_False by congruence.
    + intros j x Hx. rewrite Hsl. destruct (decide (i = j)) as [<-|]; [exists (Some id); congruence|]. exists (lent x). rewrite Hx. by destruct x.
    + unfold rest_of, upd. cbn. by rewrite Hb.
  - unfold is_neg in H1. cbn in H2. destruct (body c) as [l nt ns|] eqn:Eb; [|done]. subst l.
    assert (Hsl : forall j, slot (set_body (Neg (Some id) nt ns) c) j = slot c j) by (intros j; unfold slot, slots; by rewrite Eb).
    destruct Ho as [C1 C2 C3 C4]. unfold is_neg, slots in *. rewrite Eb in *.
    split; [constructor; cfields; done|]. split; [done|]. split; [unfold link_res; split_and!; try done; try (unfold is_neg, slots; by rewrite Eb)|].
    + intros _. cbn. split; [done|]. intros E. exfalso. unfold local_in in *. cbn in E. congruence.
    + intros j x Hx. rewrite Hsl. exists (lent x). rewrite Hx. by destruct x.
    + unfold rest_of. cbn. by rewrite Eb.
    + intros [j|]; [|done]. cbn. by rewrite Eb.
Qed.
Lemma set_lent_ok a c oi id w (Q : unit -> cache -> Prop) : cents w !! a = Some c -> cent_ok c -> link_pre c oi ->
  Q tt (with_cents (<[a := relent id oi c]> (cents w)) w) ->
  wp (match oi with
      | Some i => on a (fun c => x ← lift (RRARR_INDEX c i); r ← lift (of_option x);
                                 c ← lift (set_slot i (Some (set_lent (Some id) r)) c); mret (tt, c))
      | None => on a (fun c => '(_, nttl, nts) ← lift (the_neg c); mret (tt, set_body (Neg (Some id) nttl nts) c))
      end) w Q.
Proof.
  intros Hc Ho [H1 H2] HQ. destruct oi as [i|]; cbn [present relent] in *; (eapply wp_on; [done|]).
  - destruct (slot c i) as [r|] eqn:Hr; [|done]. pose proof (slot_lt _ _ _ Hr) as Hi. apply wp_bind.
    eapply wp_lift_ret; [by apply RRARR_INDEX_ok|]. rewrite Hr. apply wp_bind. eapply wp_some; [done|]. apply wp_bind.
    eapply wp_lift_ret; [by apply set_slot_ok|]. by apply wp_ret.
  - unfold is_neg, the_neg in *. destruct (body c) eqn:Eb; [|done]. apply wp_bind. eapply wp_lift_ret; [done|]. by apply wp_ret.
Qed.
Lemma insert_ok a c oi w : sound w -> cents w !! a = Some c -> link_pre c oi ->
  wp (insert_rrl malloc_ok a oi) w (fun ok w' => changed a c w w' (fun c' => if ok : bool then link_res oi c c' else c' = c /\ no_memory)).
Proof.
  intros Hs Hc Hpre. pose proof Hs as [S1 S2]. pose proof (S1 a c Hc) as Ho. pose proof Hpre as [H1 H2]. unfold insert_rrl.
  apply wp_bind. eapply wp_cent_at; [done|]. apply wp_bind.
  eapply (wp_mono _ _ (fun '(fl, t) w' => w' = w /\ has fl CF_LOCAL || has (dflags c) DF_LOCAL = local_in c oi)).
  { destruct oi as [i|]; cbn [present] in H1; unfold local_in.
    - destruct (slot c i) as [r|] eqn:Hr; [|done]. pose proof (slot_lt _ _ _ Hr) as Hi. apply wp_bind.
      eapply wp_lift_ret; [by apply RRARR_INDEX_ok|]. rewrite Hr. apply wp_bind. eapply wp_some; [done|]. apply wp_ret. split; [done|apply orb_comm].
    - unfold is_neg, the_neg in *. destruct (body c); [|done]. apply wp_bind. eapply wp_lift_ret; [done|]. apply wp_ret. split; [done|]. by rewrite orb_false_r. }
  intros [fl t] w' [-> ->]. destruct (local_in c oi) eqn:Hl.
  { apply wp_ret. split; [apply keeps_refl|]. split; [done|]. exists c. split; [done|]. split; [done|]. by apply link_res_refl. }
  apply wp_bind, wp_malloc_or. intros ok Hm. destruct ok; cbn [negb]; [|apply wp_ret, changed_ticks; try done; [lia|]; split; [done|by destruct Hm]].
  apply wp_bind, wp_gets, wp_bind, wp_sets, wp_bind, wp_gets, wp_bind, wp_gets, wp_bind. cbn [next_id rrset_l insert_sort with_next with_ticks].
  set (w1 := with_next _ _). assert (Hs1 : sound w1).
  { constructor; [done|]. eapply list_same; [exact S2|done|done|]. unfold w1. cbn. lia. }
  eapply (wp_mono _ _ (fun l' w' => w' = w1 /\ l' ≡ₚ mkLent (next_id w) a oi :: rrset_l w)).
  { destruct (insert_sort w).
    - apply wp_bind. eapply wp_mono; [apply insert_from_tail_ok; [exact Hs1|]|].
      + intros le. rewrite elem_of_reverse. done.
      + intros r w' [-> Hr]. apply wp_ret. split; [done|]. rewrite (reverse_Permutation r), Hr. by rewrite reverse_Permutation.
    - apply wp_ret. split; [done|]. by rewrite Permutation_app_comm. }
  intros l' w' [-> Hl']. apply wp_bind, wp_sets, wp_bind. eapply set_lent_ok; [exact Hc|done|done|]. apply wp_ret.
  destruct (relent_ok (next_id w) oi c Ho Hpre Hl) as (R1 & R2 & R3 & R4).
  split; [constructor; cbn; try done; [intros b Hb; by apply lookup_insert_ne|lia]|]. split.
  - constructor; cbn.
    + intros b x. destruct (decide (b = a)) as [->|]; [rewrite lookup_insert_eq; by intros [= <-]|rewrite lookup_insert_ne by done; apply S1].
    + eapply (list_link w); [exact S2|by rewrite (lent_at_here w a c _ Hc)|exact Hl'| |done]. intros b oj.
      etransitivity; [apply (lent_at_put w)|]. destruct (decide (b = a)) as [->|]; [|by rewrite decide_False by tauto].
      rewrite R4, (lent_at_here w a c _ Hc). destruct (decide (oj = oi)); [by rewrite decide_True|by rewrite decide_False by tauto].
  - exists (relent (next_id w) oi c). split; [apply lookup_insert_eq|]. done.
Qed.


(** ** The invariant *)
Definition total (m : gmap Z dns_cent_t) : Z := map_fold (fun _ c n => cs c + n) 0 m.
Lemma total_insert m a c : m !! a = None -> total (<[a := c]> m) = cs c + total m.
Proof. intros H. unfold total. rewrite map_fold_insert_L; [done| |done]. intros. lia. Qed.
Lemma total_delete m a c : m !! a = Some c -> total (delete a m) = total m - cs c.
Proof. intros H. rewrite <- (insert_delete_id m a c H) at 2. rewrite total_insert by apply lookup_delete_eq. lia. Qed.
Lemma total_update m a c c' : m !! a = Some c -> total (<[a := c']> m) = total m - cs c + cs c'.
Proof.
  intros H. rewrite <- (insert_delete_eq m). rewrite total_insert by apply lookup_delete_eq. rewrite (total_delete m a c) by done. lia.
Qed.
(** The table, the entries, the list and the counters agree. *)
Record wf (w : cache) : Prop := {
  wf_sound : sound w;
  wf_linked : forall a c, cents w !! a = Some c -> linked c;
  wf_table : forall k a, table w !! k = Some a <-> exists c, cents w !! a = Some c /\ canon (qname c) = k;
  wf_size : cache_size w = total (cents w);
  wf_num : ent_num w = Z.of_nat (size (cents w));
}.
Lemma keeps_cents a w w' c c' : keeps a w w' -> cents w !! a = Some c -> cents w' !! a = Some c' -> cents w' = <[a := c']> (cents w).
Proof.
  intros [_ _ _ _ H] Hc Hc'. apply map_eq. intros b. destruct (decide (b = a)) as [->|]; [by rewrite lookup_insert_eq|].
  rewrite lookup_insert_ne by done. by apply H.
Qed.
(** One entry was changed. *)
Lemma wf_changed a c c' w w' s : wf w -> cents w !! a = Some c -> keeps a w w' -> sound w' -> cents w' !! a = Some c' ->
  qname c' = qname c -> linked c' -> s = cs c' - cs c ->
  wf (with_size (cache_size w' + s) w').
Proof.
  intros [W1 W2 W3 W4 W5] Hc Hk Hs Hc' Hq Hl Hsz. pose proof (keeps_cents _ _ _ _ _ Hk Hc Hc') as Ec. destruct Hk as [K1 K2 K3 K4 K5].
  constructor; cbn.
  - destruct Hs as [S1 S2]. constructor; [done|]. by eapply list_same.
  - intros b y Hb. destruct (decide (b = a)) as [->|]; [rewrite Hc' in Hb; by injection Hb as <-|].
    rewrite K5 in Hb by done. by eapply W2.
  - intros k b. rewrite K1, W3. destruct (decide (b = a)) as [->|]; [|by rewrite K5].
    rewrite Hc, Hc'. split; intros (y & [= <-] & Hy); eexists; (split; [done|]); congruence.
  - rewrite K4, W4, Ec, (total_update _ _ c) by done. lia.
  - rewrite K2, W5, Ec. rewrite map_size_insert_Some by eauto. done.
Qed.
Lemma size_add_0 w : with_size (cache_size w + 0) w = w.
Proof. destruct w. unfold with_size. cbn. by rewrite Z.add_0_r. Qed.
Definition linked_but (i : nat) (c : dns_cent_t) : Prop := forall oi, oi <> Some i -> linked_at c oi.
Lemma linked_but_without i c c' : linked_but i c -> same_cent c c' -> without i c c' -> linked c'.
Proof.
  intros Hl [_ Hs] (H1 & _ & H2 & H3) oi. destruct oi as [j|].
  - intros Hp. cbn [present] in Hp. specialize (Hl (Some j)). unfold linked_at, local_in in *. rewrite lent_in_slot in *. cbn [present] in Hl.
    rewrite H1 in *. destruct (decide (i = j)); [done|]. rewrite Hs. apply Hl; [congruence|done].
  - specialize (Hl None ltac:(done)). unfold linked_at, local_in, present in *. rewrite Hs, H2 in *. intros Hp. specialize (Hl Hp). cbn in *.
    unfold is_neg in *. destruct (body c') as [l t n|] eqn:Eb; [|destruct (body c); done]. rewrite (H3 _ _ _ eq_refl) in Hl. done.
Qed.
Lemma linked_without i c c' : linked c -> same_cent c c' -> without i c c' -> linked c'.
Proof. intros Hl. apply linked_but_without. by intros oi _. Qed.
(** An entry that counts became [c']; the rest of the cache is as it was. *)
Record updated (a : Z) (c c' : dns_cent_t) (w w' : cache) : Prop := {
  up_wf : wf w';
  up_sort : insert_sort w' = insert_sort w;
  up_table : table w' = table w;
  up_ticks : (ticks w <= ticks w')%nat;
  up_cents : cents w' = <[a := c']> (cents w);
  up_same : same_cent c c';
}.
Lemma updated_at a c c' w w' : updated a c c' w w' -> cents w' !! a = Some c'.
Proof. intros [_ _ _ _ -> _]. apply lookup_insert_eq. Qed.
Lemma updated_trans a c c1 c2 w w1 w2 : updated a c c1 w w1 -> updated a c1 c2 w1 w2 -> updated a c c2 w w2.
Proof.
  intros [A1 A2 A3 A4 A5 [A6 A6']] [B1 B2 B3 B4 B5 [B6 B6']]. constructor; try done; try congruence; [lia| |split; congruence].
  by rewrite B5, A5, insert_insert_eq.
Qed.
Lemma wf_ticks n w : wf w -> wf (with_ticks n w).
Proof. intros [W1 W2 W3 W4 W5]. constructor; try done. by apply sound_ticks. Qed.
Lemma updated_ticks a c w n : wf w -> cents w !! a = Some c -> (ticks w <= n)%nat -> updated a c c w (with_ticks n w).
Proof. intros Hw Hc Hn. constructor; try done; [by apply wf_ticks|]. cbn. by rewrite insert_id. Qed.
Lemma updated_refl a c w : wf w -> cents w !! a = Some c -> updated a c c w w.
Proof. intros Hw Hc. constructor; try done. by rewrite insert_id. Qed.
(** An entry of which one set is deleted. *)
Lemma drop_ok a c i w : wf w -> cents w !! a = Some c -> wp (drop_rrset a i) w (fun _ w' => exists c', updated a c c' w w' /\ without i c c' /\
  rrset_l w' = filter (not_at a (Some i)) (rrset_l w) /\ cache_size w' = cache_size w - size_of (slot c i)).
Proof.
  intros Hw Hc. unfold drop_rrset. apply wp_bind. eapply wp_mono; [apply del_ok; [apply Hw|done]|].
  intros rv w' [(Hk & Hs & c' & Hc' & Hsame & Hrv & Hcs & Hwo) Hl]. apply wp_sets. exists c'.
  pose proof (keeps_cents _ _ _ _ _ Hk Hc Hc') as Ec. pose proof Hk as [K1 K2 K3 K4 K5 K6]. split; [constructor; try done|].
  - eapply wf_changed; try done; [by destruct Hsame| |lia]. eapply linked_without; [|done..]. by eapply (wf_linked _ Hw).
  - cbn. split_and!; try done. lia.
Qed.

(** ** Purging *)
(** [r] may stay: it had not timed out at some time since call [n]. *)
Definition fresh_since (n : nat) (r : rr_set_t) : Prop :=
  purgeable r = true -> exists t, (n <= t)%nat /\ clock t <= expiry (ts r) (ttl r).
(** [r] cannot time out. *)
Definition stays (r : rr_set_t) : Prop := purgeable r = true -> forall t, clock t <= expiry (ts r) (ttl r).
Lemma fresh_since_le m n r : (n <= m)%nat -> fresh_since m r -> fresh_since n r.
Proof. intros H Hf Hp. destruct (Hf Hp) as (t & Ht & E). exists t. split; [lia|done]. Qed.
Lemma timedout_ok r w (Q : bool -> cache -> Prop) :
  (forall b, (b = false -> clock (ticks w) <= expiry (ts r) (ttl r)) -> (b = true -> expiry (ts r) (ttl r) < clock (ticks w)) -> Q b (with_ticks (S (ticks w)) w)) -> wp (timedout clock r) w Q.
Proof. intros H. unfold timedout. apply wp_bind, wp_time, wp_ret, H; intros E; [by apply Z.ltb_ge|by apply Z.ltb_lt]. Qed.
Lemma expired_ok r w (Q : bool -> cache -> Prop) :
  (forall b n, (ticks w <= n)%nat -> (b = false -> fresh_since (ticks w) r) -> (b = true -> ~ stays r) -> Q b (with_ticks n w)) ->
  wp (expired clock r) w Q.
Proof.
  intros H. unfold expired. destruct (purgeable r) eqn:Hp.
  - apply timedout_ok. intros b Hb Hb'. apply H; [lia| |]; [intros E _; exists (ticks w); auto|]. intros E Hst. specialize (Hb' E). specialize (Hst Hp (ticks w)). lia.
  - apply wp_ret. specialize (H false (ticks w)). rewrite ticks_id in H. apply H; try done. intros _. unfold fresh_since. congruence.
Qed.
(** What became of the slots [js]. *)
Record purged (test : bool) (js : list nat) (w : cache) (c c' : dns_cent_t) (rv n next : Z) : Prop := {
  pg_neg : is_neg c' = is_neg c;
  pg_len : length (slots c') = length (slots c);
  pg_test : test = true -> c' = c;
  pg_count : 0 <= rv /\ 0 <= n /\ 0 <= next;
  pg_slot : forall j, slot c' j = None \/ slot c' j = slot c j;
  pg_keep : forall j r, slot c j = Some r -> stays r -> slot c' j = Some r;
  pg_other : forall j, j ∉ js -> slot c' j = slot c j;
  pg_fresh : (test = true -> rv = 0) -> forall j r, j ∈ js -> slot c' j = Some r -> fresh_since (ticks w) r;
  pg_num : (exists j r, j ∈ js /\ slot c j = Some r /\ stays r) -> 0 < n;
  pg_next : test = false -> next = 0 -> forall j, j ∈ js -> (NRRMU <= j)%nat -> slot c' j = None;
}.
Lemma purged_fresh_slot test js w c c' rv n next : purged test js w c c' rv n next -> forall j r, slot c' j = Some r -> slot c j = Some r.
Proof. intros H j r E. destruct (pg_slot _ _ _ _ _ _ _ _ H j) as [E'|E']; congruence. Qed.
Definition counted (x : option rr_set_t) (e : bool) (i : nat) (res : Z * Z * Z) : Z * Z * Z :=
  let '(rv, n, next) := res in
  match x with
  | None => (rv, n, next)
  | Some _ => if e then (rv + 1, n, next) else (rv, n + 1, if (NRRMU <=? i)%nat then next + 1 else next)
  end.
Lemma purged_cons test i js w w2 c c2 c3 rv n next (e : bool) rv' n' next' : (ticks w <= ticks w2)%nat -> i ∉ js ->
  (if e && negb test then without i c c2 else c2 = c) -> (forall r, slot c i = Some r -> (e = false -> fresh_since (ticks w) r) /\ (e = true -> ~ stays r)) ->
  purged test js w2 c2 c3 rv n next -> (rv', n', next') = counted (slot c i) e i (rv, n, next) -> purged test (i :: js) w c c3 rv' n' next'.
Proof.
  intros Ht Hi Hc2 Hf [P1 P2 P3 P4 P5 PK P6 P7 PN P8] Hcnt. destruct P4 as (P4 & P4' & P4'').
  assert (Hsl2 : forall j, slot c2 j = slot c j \/ j = i /\ slot c2 j = None).
  { intros j. destruct (e && negb test); [|subst; by left]. destruct Hc2 as (Hs & _). rewrite Hs. destruct (decide (i = j)) as [->|]; [by right|by left]. }
  assert (Hi2 : slot c2 i = if e && negb test then None else slot c i).
  { destruct (e && negb test); [|by subst]. destruct Hc2 as (Hs & _). rewrite Hs. by rewrite decide_True. }
  assert (Hlen2 : length (slots c2) = length (slots c) /\ is_neg c2 = is_neg c). { destruct (e && negb test); [by destruct Hc2 as (_ & ? & ? & _)|by subst]. }
  pose proof (P6 i Hi) as Hi3. assert (Hcount : 0 <= rv' /\ 0 <= n' /\ 0 <= next' /\ (rv' = 0 -> rv = 0) /\ (next' = 0 -> next = 0)).
  { unfold counted in Hcnt. destruct (slot c i), e, (NRRMU <=? i)%nat; injection Hcnt as -> -> ->; lia. }
  constructor; try lia; try (destruct Hlen2; congruence).
  - intros ->. rewrite P3 by done. rewrite andb_false_r in Hc2. done.
  - intros j. destruct (P5 j) as [E|E]; [by left|]. rewrite E. destruct (Hsl2 j) as [E'|[_ E']]; [right|left]; done.
  - intros j r Hj Hst. apply PK; [|done]. destruct (decide (j = i)) as [->|].
    + rewrite Hi2. destruct e; [|done]. by destruct (Hf r Hj) as [_ Hx]; destruct Hx.
    + destruct (Hsl2 j) as [E'|[? _]]; [congruence|done].
  - intros j Hj. rewrite P6 by (intros H; apply Hj; by right). destruct (Hsl2 j) as [E'|[-> _]]; [done|]. destruct Hj. by left.
  - intros Hrv j r Hj Hr. apply elem_of_cons in Hj as [->|Hj].
    + rewrite Hi3, Hi2 in Hr. destruct e; [|by apply (Hf r)]. destruct test; [|done]. specialize (Hrv eq_refl). cbn in Hr. rewrite Hr in Hcnt.
      injection Hcnt as -> -> ->. lia.
    + eapply fresh_since_le; [exact Ht|]. eapply P7; [|done..]. intros E. apply Hcount. by apply Hrv.
  - intros (j & r & Hj & Hr & Hst). apply elem_of_cons in Hj as [->|Hj].
    + unfold counted in Hcnt. rewrite Hr in Hcnt. destruct e; [by destruct (Hf r Hr) as [_ Hx]; destruct Hx|]. injection Hcnt as -> -> ->. lia.
    + assert (0 < n); [|unfold counted in Hcnt; destruct (slot c i), e; injection Hcnt as -> -> ->; lia]. apply PN. exists j, r. split_and!; try done.
      destruct (Hsl2 j) as [E'|[-> _]]; [congruence|done].
  - intros Htest Hnx j Hj Hge. apply elem_of_cons in Hj as [->|Hj]; [|apply P8; [done|by apply Hcount|done..]].
    rewrite Hi3, Hi2, Htest, andb_true_r. destruct e; [done|]. destruct (slot c i); [|done]. unfold counted in Hcnt.
    rewrite (proj2 (Nat.leb_le _ _) Hge) in Hcnt. injection Hcnt as -> -> ->. lia.
Qed.
Lemma purge_slots_ok test a js : NoDup js -> forall w c, wf w -> cents w !! a = Some c -> (forall j, j ∈ js -> (j < length (slots c))%nat) ->
  wp (purge_slots clock a test js) w (fun '(rv, n, next) w' => exists c', updated a c c' w w' /\ purged test js w c c' rv n next).
Proof.
  induction js as [|i js IH]; intros Hnd w c Hw Hc Hlt; cbn [purge_slots].
  { apply wp_ret. exists c. split; [by apply updated_refl|]. constructor; try done; [auto|by intros _ ? ? ?%elem_of_nil|by intros (? & ? & ?%elem_of_nil & _)|by intros _ _ ? ?%elem_of_nil]. }
  apply list_relations.list.NoDup_cons in Hnd as [Hi Hnd]. pose proof (so_cents _ (wf_sound _ Hw) a c Hc) as Ho.
  apply wp_bind. eapply wp_cent_at; [done|]. apply wp_bind. eapply wp_lift_ret; [apply RRARR_INDEX_ok; [done|apply Hlt; by left]|]. apply wp_bind.
  set (x := slot c i).
  eapply (wp_mono _ _ (fun e w' => exists n, w' = with_ticks n w /\ (ticks w <= n)%nat /\ (forall r, x = Some r -> (e = false -> fresh_since (ticks w) r) /\ (e = true -> ~ stays r)))).
  { destruct x as [r|].
    - apply expired_ok. intros b n Hn Hf Hf'. exists n. split_and!; try done. intros r' [= <-]. done.
    - apply wp_ret. exists (ticks w). by rewrite ticks_id. }
  intros e w1 (n1 & -> & Hn1 & Hf). pose proof (updated_ticks a c w n1 Hw Hc Hn1) as U1. apply wp_bind.
  eapply (wp_mono _ _ (fun _ w2 => exists c2, updated a c c2 w w2 /\ (if e && negb test then without i c c2 else c2 = c))).
  { destruct (e && negb test) eqn:E; [|apply wp_ret; by exists c]. cbn [when]. eapply wp_mono; [eapply drop_ok; [by apply wf_ticks|done]|].
    intros ? w2 (c2 & U2 & Hwo & _). exists c2. split; [|done]. by eapply updated_trans. }
  intros ? w2 (c2 & U2 & Hc2). apply wp_bind. pose proof (updated_at _ _ _ _ _ U2) as Hat2.
  eapply wp_mono; [apply (IH Hnd w2 c2); [apply U2|done|]|].
  { intros j Hj. assert (Hlen : length (slots c2) = length (slots c)) by (destruct (e && negb test); [by destruct Hc2 as (_ & ? & _)|by subst]).
    rewrite Hlen. apply Hlt. by right. }
  intros [[rv n] next] w3 (c3 & U3 & Hp). apply wp_ret. change (match x with Some _ => _ | None => _ end) with (counted x e i (rv, n, next)).
  destruct (counted x e i (rv, n, next)) as [[rv' n'] next'] eqn:Ecnt. exists c3. split; [by eapply updated_trans|].
  eapply purged_cons; [apply U2|done|done|exact Hf|exact Hp|done].
Qed.
Definition shrunk (c : dns_cent_t) : dns_cent_t := set_cs (cs c - sizeof_rrext) (set_body (RR (take NRRMU (slots c))) c).
Lemma shrunk_slot c j : (forall i, (NRRMU <= i)%nat -> slot c i = None) -> slot (shrunk c) j = slot c j.
Proof.
  intros H. unfold slot. unfold shrunk. cfields. destruct (decide (j < NRRMU)%nat); [by rewrite lookup_take_lt|].
  rewrite lookup_take_ge by lia. symmetry. apply H. lia.
Qed.
Lemma arr_none_tail arr : (forall i, mjoin (arr !! i) = None) -> arr_size arr = 0 /\ arr_count arr = 0.
Proof.
  induction arr as [|x arr IH]; intros H; [done|]. cbn. destruct (IH (fun i => H (S i))) as [-> ->]. specialize (H 0%nat). cbn in H. by subst.
Qed.
Lemma shrunk_ok c : cent_ok c -> is_neg c = false -> (NRRMU < length (slots c))%nat -> (forall i, (NRRMU <= i)%nat -> slot c i = None) -> cent_ok (shrunk c).
Proof.
  intros [C1 C2 C3 C4] Hn Hlen Hnone. specialize (C2 Hn). assert (Hl : length (take NRRMU (slots c)) = NRRMU) by (rewrite length_take; lia).
  destruct (arr_none_tail (drop NRRMU (slots c))) as [E1 E2]. { intros i. rewrite lookup_drop. apply Hnone. lia. }
  assert (Es : arr_size (slots c) = arr_size (take NRRMU (slots c))) by (rewrite <- (take_drop NRRMU (slots c)) at 1; rewrite arr_size_app; lia).
  assert (En : arr_count (slots c) = arr_count (take NRRMU (slots c))) by (rewrite <- (take_drop NRRMU (slots c)) at 1; rewrite arr_count_app; lia).
  unfold shrunk. constructor; cfields.
  - rewrite <- Hn, <- C1. done.
  - by left.
  - rewrite C3, Es. unfold ext_size. rewrite Hl. rewrite (proj2 (Nat.ltb_lt _ _) Hlen). rewrite Nat.ltb_irrefl. lia.
  - by rewrite C4, En.
Qed.
Lemma linked_slots c c' : is_neg c' = false -> is_neg c = false -> same_cent c c' -> (forall j, slot c' j = slot c j) -> linked c -> linked c'.
Proof.
  intros Hn Hn' [_ Hs] Hsl Hl [j|].
  - specialize (Hl (Some j)). unfold linked_at, local_in, present in *. rewrite !lent_in_slot, Hsl, Hs in *. done.
  - unfold linked_at, present. by rewrite Hn.
Qed.
(** A change of the counted entry that keeps its sets. *)
Lemma put_updated a c c' w : wf w -> cents w !! a = Some c -> cent_ok c' -> same_cent c c' -> is_neg c' = is_neg c ->
  (forall oi, lent_in c' oi = lent_in c oi) -> linked c' ->
  updated a c c' w (with_size (cache_size w + (cs c' - cs c)) (with_cents (<[a := c']> (cents w)) w)).
Proof.
  intros Hw Hc Ho Hs Hn Hl Hk. pose proof (changed_put a c c' w (ticks w) (fun x => x = c') (le_n _) (wf_sound _ Hw) Hc Ho Hs Hl eq_refl) as (K & S & x & Hx & _ & ->).
  change (with_ticks (ticks w) (with_cents (<[a := c']> (cents w)) w)) with (with_cents (<[a := c']> (cents w)) w) in *.
  constructor; try done. change (cache_size w) with (cache_size (with_cents (<[a := c']> (cents w)) w)) at 1. eapply wf_changed; try done. by destruct Hs.
Qed.
Lemma purge_all_ok test a w c : wf w -> cents w !! a = Some c ->
  wp (purge_all_rrsets clock a test) w (fun '(rv, n) w' => exists c', updated a c c' w w' /\ is_neg c' = is_neg c /\ 0 <= rv /\
    (is_neg c = true -> n = 0) /\ ((exists j r, slot c j = Some r /\ stays r) -> 0 < n) /\ (test = true \/ is_neg c = true -> c' = c) /\ (forall j, slot c' j = None \/ slot c' j = slot c j) /\ (forall j r, slot c j = Some r -> stays r -> slot c' j = Some r) /\
    ((test = true -> rv = 0) -> forall j r, slot c' j = Some r -> fresh_since (ticks w) r)).
Proof.
  intros Hw Hc. pose proof (so_cents _ (wf_sound _ Hw) a c Hc) as Ho. unfold purge_all_rrsets. apply wp_bind. eapply wp_cent_at; [done|].
  rewrite (co_tag _ Ho). destruct (is_neg c) eqn:Hn.
  { apply wp_ret. exists c. split; [by apply updated_refl|]. split_and!; try done; [|auto|]; [intros (j & r & Hr & _)|intros _ j r Hr]; by rewrite neg_slot in Hr. }
  apply wp_bind. eapply wp_lift_ret; [by apply RRARR_ok|]. apply wp_bind.
  eapply wp_mono; [eapply (purge_slots_ok test a _ (NoDup_seq _ _) w c Hw Hc); intros j Hj%elem_of_seq; lia|].
  intros [[rv n] next] w' (c' & U & Hp). pose proof Hp as [P1 P2 P3 P4 P5 PK P6 P7 PN P8].
  assert (Hnum : (exists j r, slot c j = Some r /\ stays r) -> 0 < n).
  { intros (j & r & Hr & Hst). apply PN. exists j, r. split_and!; try done. apply elem_of_seq. apply slot_lt in Hr. lia. }
  assert (Hfresh : (test = true -> rv = 0) -> forall j r, slot c' j = Some r -> fresh_since (ticks w) r).
  { intros Hrv j r Hr. eapply P7; [done| |done]. apply elem_of_seq. apply slot_lt in Hr. lia. }
  destruct ((NRRMU <? length (slots c))%nat && (next =? 0)) eqn:E.
  2:{ apply wp_ret. exists c'. split_and!; try done; [congruence|lia|]. intros [E'|[=]]. by apply P3. }
  apply andb_true_iff in E as [E1%Nat.ltb_lt E2%Z.eqb_eq]. apply wp_bind. destruct test; cbn [negb when].
  { apply wp_ret, wp_ret. exists c'. split_and!; try done; [congruence|lia|intros _; by apply P3|]. intros Hrv. specialize (Hrv eq_refl). lia. }
  assert (Hnone : forall i, (NRRMU <= i)%nat -> slot c' i = None).
  { intros i Hi. destruct (decide (i < length (slots c'))%nat); [apply P8; try done; apply elem_of_seq; lia|].
    unfold slot. by rewrite lookup_ge_None_2 by lia. }
  pose proof (updated_at _ _ _ _ _ U) as Hat. pose proof (so_cents _ (wf_sound _ (up_wf _ _ _ _ _ U)) a c' Hat) as Ho'.
  assert (Hn' : is_neg c' = false) by congruence. rewrite <- P2 in E1.
  apply wp_bind. eapply wp_on; [exact Hat|]. apply wp_bind. eapply wp_lift_ret; [by apply RRARR_ok|]. apply wp_ret. apply wp_sets, wp_ret.
  exists (shrunk c'). assert (Hsl := fun j => shrunk_slot c' j Hnone). split.
  - eapply updated_trans; [exact U|]. pose proof (put_updated a c' (shrunk c') w' (up_wf _ _ _ _ _ U) Hat) as H.
    replace (cs (shrunk c') - cs c') with (- sizeof_rrext) in H by (unfold shrunk; cfields; lia). apply H; try done.
    + by apply shrunk_ok.
    + apply lent_same; try done. intros j. by rewrite Hsl.
    + eapply linked_slots; try done. by eapply (wf_linked _ (up_wf _ _ _ _ _ U)).
  - split_and!; try done; [lia|by intros [[=]|[=]]| | |]; [intros j; rewrite Hsl; apply P5|intros j r; rewrite Hsl; apply PK|intros Hrv j r; rewrite Hsl; by apply Hfresh].
Qed.
(** *** An entry is removed *)
Record forgotten (a : Z) (c : dns_cent_t) (w w' : cache) : Prop := {
  fg_wf : wf w';
  fg_sort : insert_sort w' = insert_sort w;
  fg_table : table w' = delete (canon (qname c)) (table w);
  fg_cents : cents w' = delete a (cents w);
  fg_list : rrset_l w' = filter (fun le => le_cent le <> a) (rrset_l w);
  fg_size : cache_size w' = cache_size w - cs c;
  fg_ticks : ticks w' = ticks w;
}.
Lemma del_cent_ok a c w w0 : wf w0 -> cents w0 !! a = Some c -> w = with_table (delete (canon (qname c)) (table w0)) w0 ->
  wp (del_cent a) w (fun _ => forgotten a c w0).
Proof.
  intros [W1 W2 W3 W4 W5] Hc ->. unfold del_cent. apply wp_bind. eapply wp_cent_at; [exact Hc|]. apply wp_bind, wp_sets, wp_bind.
  set (w1 := with_size _ _). assert (Hs1 : sound w1). { destruct W1 as [S1 S2]. constructor; [done|]. by eapply list_same. }
  eapply wp_mono; [by apply (free_cent_ok w1 a c Hs1)|]. intros ? w2 ->. apply wp_bind, wp_sets, wp_sets.
  assert (Ht : table w0 !! canon (qname c) = Some a) by (apply W3; eauto).
  constructor; cbn; try done. constructor; cbn.
  - destruct W1 as [S1 S2]. constructor; cbn; [intros b x [_ Hb]%lookup_delete_Some; by eapply S1|]. by eapply (list_forget w0).
  - intros b x [_ Hb]%lookup_delete_Some. by eapply W2.
  - intros k b. rewrite lookup_delete_Some, W3. split.
    + intros [Hk (x & Hb & Hx)]. exists x. split; [|done]. rewrite lookup_delete_ne; [done|]. intros ->. congruence.
    + intros (x & [Hb Hx]%lookup_delete_Some & Hk). split; [|eauto]. intros <-. assert (H : table w0 !! canon (qname x) = Some b) by (apply W3; eauto).
      congruence.
  - rewrite (total_delete _ _ c) by done. lia.
  - rewrite map_size_delete_Some by eauto. assert (size (cents w0) <> 0%nat) by (apply map_size_ne_0_lookup; eauto). lia.
Qed.
Lemma del_ent_ok a c w : wf w -> cents w !! a = Some c -> wp (del_cache_ent a) w (fun _ => forgotten a c w).
Proof.
  intros Hw Hc. unfold del_cache_ent, del_dns_hash, dns_lookup. apply wp_bind. eapply wp_cent_at; [done|]. apply wp_bind, wp_bind, wp_gets, wp_bind, wp_sets, wp_ret.
  by apply del_cent_ok.
Qed.
(** *** References to NS and SOA records *)
Lemma stale_ok a c w get n : wf w -> cents w !! a = Some c -> (forall c, cent_ok c -> exists x, get c = Ret x) ->
  wp (stale clock a get n) w (fun _ w' => exists m, w' = with_ticks m w /\ (ticks w <= m)%nat).
Proof.
  intros Hw Hc Hget. unfold stale. apply wp_bind. eapply wp_cent_at; [done|]. apply wp_bind. pose proof (so_cents _ (wf_sound _ Hw)) as Hok.
  eapply (wp_mono _ _ (fun _ w' => w' = w)).
  - destruct (n =? zlen (qname c)); [destruct (Hget c) as [x Hx]; [by eapply Hok|]; by eapply wp_lift_ret|].
    destruct (n <? zlen (qname c)); [|by apply wp_ret]. unfold dns_lookup. apply wp_bind, wp_gets. destruct (table w !! _) as [b|] eqn:Et; [|by apply wp_ret].
    apply (wf_table _ Hw) in Et as (x & Hb & _). apply wp_bind. eapply wp_cent_at; [done|]. destruct (Hget x) as [y Hy]; [by eapply Hok|]. by eapply wp_lift_ret.
  - intros x w' ->. assert (Hr : forall b, wp (mret b) w (fun (_ : bool) w' => exists m, w' = with_ticks m w /\ (ticks w <= m)%nat)).
    { intros b. apply wp_ret. exists (ticks w). by rewrite ticks_id. }
    destruct x as [r|]; [|apply Hr]. destruct (bool_decide (rrs r = [])); [apply Hr|]. destruct (has (flags r) CF_LOCAL); [apply Hr|].
    apply timedout_ok. intros b _ _. eexists. split; [done|lia].
Qed.
(** An entry with other references. *)
Definition same_sets (c c' : dns_cent_t) : Prop := body c' = body c /\ dflags c' = dflags c /\ qname c' = qname c /\ cs c' = cs c /\ num_rrs c' = num_rrs c.
Lemma put_same_size a c c' w : wf w -> cents w !! a = Some c -> cent_ok c' -> same_cent c c' -> is_neg c' = is_neg c ->
  (forall oi, lent_in c' oi = lent_in c oi) -> linked c' -> cs c' = cs c -> updated a c c' w (with_cents (<[a := c']> (cents w)) w).
Proof.
  intros Hw Hc Ho Hs Hn Hl Hk E. pose proof (put_updated a c c' w Hw Hc Ho Hs Hn Hl Hk) as H. rewrite E, Z.sub_diag in H.
  change (with_size (cache_size w + 0)) with (with_size (cache_size (with_cents (<[a := c']> (cents w)) w) + 0)) in H. by rewrite size_add_0 in H.
Qed.
Lemma same_sets_put a c c' w : wf w -> cents w !! a = Some c -> same_sets c c' -> updated a c c' w (with_cents (<[a := c']> (cents w)) w).
Proof.
  intros Hw Hc (E1 & E2 & E3 & E4 & E5). pose proof (so_cents _ (wf_sound _ Hw) a c Hc) as [C1 C2 C3 C4].
  pose proof (wf_linked _ Hw a c Hc) as Hl. apply put_same_size; try done.
  - constructor; unfold negative, is_neg, slots in *; rewrite ?E1, ?E2, ?E3, ?E4, ?E5; done.
  - split; congruence.
  - unfold is_neg. by rewrite E1.
  - intros oi. unfold lent_in. by rewrite E1.
  - intros oi. specialize (Hl oi). unfold linked_at, present, local_in, slot, slots, lent_in, is_neg in *. by rewrite E1, E2.
Qed.
Lemma same_sets_refl c : same_sets c c.
Proof. done. Qed.
Lemma same_sets_trans c1 c2 c3 : same_sets c1 c2 -> same_sets c2 c3 -> same_sets c1 c3.
Proof. intros (?&?&?&?&?) (?&?&?&?&?). repeat split; congruence. Qed.
Lemma reference_ok a c w test field reset get : wf w -> cents w !! a = Some c -> (forall c, cent_ok c -> exists x, get c = Ret x) ->
  (forall n c, same_sets c (reset n c)) ->
  wp (purge_reference clock a test field reset get) w (fun n w' => exists c', updated a c c' w w' /\ same_sets c c' /\ (test = true -> c' = c) /\ 0 <= n).
Proof.
  intros Hw Hc Hget Hres. unfold purge_reference. apply wp_bind. eapply wp_cent_at; [done|].
  destruct (field c =? cundef); [apply wp_ret; exists c; split; [by apply updated_refl|]; split_and!; try done; apply same_sets_refl|].
  apply wp_bind. eapply wp_mono; [by eapply stale_ok|]. intros s w1 (m & -> & Hm). pose proof (updated_ticks a c w m Hw Hc Hm) as U.
  destruct s; [|apply wp_ret; exists c; split_and!; try done; apply same_sets_refl]. apply wp_bind. destruct test; cbn [negb when].
  - apply wp_ret, wp_ret. exists c. split_and!; try done; apply same_sets_refl.
  - unfold modify. apply wp_bind. eapply wp_cent_at; [exact Hc|]. apply wp_sets, wp_ret. exists (reset cundef c). split; [|split_and!; try done; apply Hres].
    eapply updated_trans; [exact U|]. apply same_sets_put; [apply U|done|apply Hres].
Qed.
(** *** An entry is purged *)
Definition neg_fresh (n : nat) (c : dns_cent_t) : Prop :=
  forall l nt ns, body c = Neg l nt ns -> has (dflags c) DF_LOCAL = true \/ exists t, (n <= t)%nat /\ clock t <= expiry ns nt.
Definition all_fresh (n : nat) (c : dns_cent_t) : Prop := forall j r, slot c j = Some r -> fresh_since n r.
Record kept (del test : bool) (a : Z) (c c' : dns_cent_t) (w w' : cache) (n : Z) : Prop := {
  kt_up : updated a c c' w w';
  kt_n : 0 <= n;
  kt_test : test = true -> c' = c;
  kt_neg : is_neg c = true -> body c' = body c;
  kt_slot : forall j, slot c' j = None \/ slot c' j = slot c j;
  kt_keep : forall j r, slot c j = Some r -> stays r -> slot c' j = Some r;
  kt_fresh : (test = true -> n = 0) -> all_fresh (ticks w) c';
  kt_nfresh : del = true -> neg_fresh (ticks w) c';
}.
Lemma same_sets_slot c c' j : same_sets c c' -> slot c' j = slot c j.
Proof. intros (E & _). unfold slot, slots. by rewrite E. Qed.
Lemma getrrset_NS_ok c : cent_ok c -> exists x, getrrset_NS c = Ret x.
Proof. intros Ho. eexists. by apply RRARR_TESTEXT_ok. Qed.
Lemma getrrset_SOA_ok c : cent_ok c -> exists x, getrrset_SOA c = Ret x.
Proof. intros Ho. eexists. by apply RRARR_TESTEXT_ok. Qed.
Lemma timedout_nxdom_ok c w (Q : bool -> cache -> Prop) : cent_ok c -> is_neg c = true ->
  (forall b, (b = false -> neg_fresh (ticks w) c) -> Q b (with_ticks (S (ticks w)) w)) -> wp (timedout_nxdom clock c) w Q.
Proof.
  intros Ho Hn H. unfold timedout_nxdom, the_neg, is_neg in *. destruct (body c) as [l nt ns|] eqn:Eb; [|done]. apply wp_bind.
  eapply wp_lift_ret; [done|]. apply wp_bind, wp_time, wp_ret, H. intros E l' nt' ns' Eb'. rewrite Eb in Eb'. injection Eb' as <- <- <-. right.
  exists (ticks w). split; [done|]. by apply Z.ltb_ge.
Qed.
(** The test whether an empty entry goes. *)
Definition goes (del : bool) (numrrs : Z) (c : dns_cent_t) : prog cache bool :=
  if del && (numrrs =? 0) then
    if negb (negative c) then mret true
    else if has (dflags c) DF_LOCAL then mret false else timedout_nxdom clock c
  else mret false.
Lemma goes_ok del n c w (Q : bool -> cache -> Prop) : cent_ok c -> (is_neg c = true -> n = 0) ->
  (forall b m, (ticks w <= m)%nat -> (b = true -> del = true /\ n = 0) -> (b = false -> del = true -> neg_fresh (ticks w) c) -> Q b (with_ticks m w)) -> wp (goes del n c) w Q.
Proof.
  intros Ho Hn H. unfold goes. rewrite (co_tag _ Ho).
  assert (Hret : forall b : bool, (b = true -> del = true /\ n = 0) -> (b = false -> del = true -> neg_fresh (ticks w) c) -> wp (mret b) w Q).
  { intros b Hb' Hb. apply wp_ret. specialize (H b (ticks w)). rewrite ticks_id in H. by apply H. }
  destruct (is_neg c) eqn:En.
  - rewrite Hn by done. destruct del; cbn [andb Z.eqb negb]; [|by apply Hret].
    destruct (has (dflags c) DF_LOCAL) eqn:El; [apply Hret; [done|]; intros _ _ l nt ns _; by left|]. apply timedout_nxdom_ok; [done..|]. intros b Hb. apply H; [lia|auto|auto].
  - assert (neg_fresh (ticks w) c) by (intros l nt ns Eb; unfold is_neg in En; by rewrite Eb in En).
    destruct del; cbn [andb]; [|by apply Hret]. destruct (Z.eqb_spec n 0); by apply Hret.
Qed.
Lemma purge_cent_ok del test a c w : wf w -> cents w !! a = Some c ->
  wp (purge_cent clock a del test) w (fun n w' =>
    n = -1 /\ del = true /\ (forall j r, slot c j = Some r -> ~ stays r) /\ (if test then updated a c c w w' else exists c1 w1, updated a c c1 w w1 /\ forgotten a c1 w1 w') \/
    exists c', kept del test a c c' w w' n).
Proof.
  intros Hw Hc. unfold purge_cent. apply wp_bind. eapply wp_mono; [by apply purge_all_ok|].
  intros [npurge numrrs] w1 (c1 & U1 & Hn1 & Hnp & Hnum & Hpos & Htest & Hslot & Hkeep & Hfresh).
  pose proof (updated_at _ _ _ _ _ U1) as Hc1. pose proof (up_wf _ _ _ _ _ U1) as Hw1. pose proof (so_cents _ (wf_sound _ Hw1) a c1 Hc1) as Ho1.
  apply wp_bind. eapply wp_cent_at; [done|]. apply wp_bind. apply goes_ok; [done|by rewrite Hn1|]. intros b m Hm Hgo Hnf.
  pose proof (updated_ticks a c1 w1 m Hw1 Hc1 Hm) as U2. pose proof (updated_trans _ _ _ _ _ _ _ U1 U2) as U.
  assert (Hneg : is_neg c = true -> body c1 = body c) by (intros Hn; by rewrite Htest by auto).
  destruct b.
  { assert (forall j r, slot c j = Some r -> ~ stays r).
    { intros j r Hr Hst. destruct (Hgo eq_refl) as [_ ->]. assert (0 < 0) by (apply Hpos; by exists j, r). lia. }
    apply wp_bind. destruct test; cbn [negb when].
    - apply wp_ret, wp_ret. left. split; [done|]. split; [by apply Hgo|]. split; [done|]. by rewrite Htest in U by auto.
    - eapply wp_mono; [eapply del_ent_ok; [apply U2|done]|]. intros ? w3 Hf. apply wp_ret. left. split; [done|]. split; [by apply Hgo|]. split; [done|]. by exists c1, (with_ticks m w1). }
  assert (Hkept : forall c' w', updated a c1 c' (with_ticks m w1) w' -> same_sets c1 c' -> (test = true -> c' = c1) -> forall n, 0 <= n ->
    (test = true -> npurge + n = 0 -> npurge = 0) -> kept del test a c c' w w' (npurge + n)).
  { intros c' w' U3 Hss Ht n Hn Hz. assert (Hsl := fun j => same_sets_slot c1 c' j Hss). destruct Hss as (E1 & E2 & _).
    constructor; [by eapply updated_trans|lia| | | | | |].
    - intros E. rewrite Ht, Htest by auto. done.
    - intros E. rewrite E1. by apply Hneg.
    - intros j. rewrite Hsl. apply Hslot.
    - intros j r. rewrite Hsl. apply Hkeep.
    - intros Hz' j r. rewrite Hsl. apply Hfresh. intros E. by apply Hz, Hz'.
    - intros Hdel l nt ns. rewrite E1, E2. intros Eb. destruct (Hnf eq_refl Hdel l nt ns Eb) as [?|(t & Ht' & ?)]; [by left|right; exists t].
      pose proof (up_ticks _ _ _ _ _ U1). split; [lia|done]. }
  destruct (has (dflags c1) DF_LOCAL).
  { apply wp_ret. right. exists c1. replace npurge with (npurge + 0) by lia. apply Hkept; try done; [by apply updated_refl; [apply U2|]|lia]. }
  apply wp_bind. eapply wp_mono; [eapply reference_ok; [apply U2|exact Hc1|apply getrrset_NS_ok|done]|]. intros n1 w3 (c3 & U3 & E3 & T3 & N3).
  apply wp_bind. eapply wp_mono; [eapply reference_ok; [apply U3|by apply (updated_at _ _ _ _ _ U3)|apply getrrset_SOA_ok|done]|].
  intros n2 w4 (c4 & U4 & E4 & T4 & N4). apply wp_ret. right. exists c4. rewrite <- Z.add_assoc.
  apply Hkept; [by eapply updated_trans|by eapply same_sets_trans| |lia|lia]. intros E. rewrite T4, T3 by done. done.
Qed.
(** *** The walks along the list *)
Lemma listed w le : wf w -> le ∈ rrset_l w -> exists c, cents w !! le_cent le = Some c /\ cent_ok c /\ lent_in c (le_idx le) = Some (le_id le) /\
  present c (le_idx le) = true /\ local_in c (le_idx le) = false.
Proof.
  intros Hw Hin. destruct le as [id a oi]. pose proof (wf_sound _ Hw) as [S1 S2]. cbn. apply (lo_in w S2) in Hin. unfold lent_at in Hin.
  destruct (cents w !! a) as [c|] eqn:Hc; [|done]. exists c. assert (Hp : present c oi = true).
  { destruct oi as [i|]; cbn in *; [|unfold is_neg; by destruct (body c)]. pose proof (lent_in_slot c i) as E. cbn in E. rewrite E in Hin. by destruct (slot c i). }
  split_and!; try done; [by eapply S1|]. pose proof (wf_linked _ Hw a c Hc oi Hp) as Hl. destruct (local_in c oi); [|done].
  rewrite (proj2 Hl eq_refl) in Hin. done.
Qed.
Lemma le_local_ok w le (Q : bool -> cache -> Prop) : wf w -> le ∈ rrset_l w -> Q false w -> wp (le_local le) w Q.
Proof.
  intros Hw Hin HQ. destruct (listed w le Hw Hin) as (c & Hc & Ho & _ & Hp & Hl). unfold le_local, local_in in *. apply orb_false_iff in Hl as [Hl1 Hl2].
  apply wp_bind. destruct (le_idx le) as [i|] eqn:Ei.
  - destruct (le_rrset_ok w le i (wf_sound _ Hw) Hin Ei) as (c' & r & Hc' & Hr & _ & Hrr). rewrite Hc in Hc'. injection Hc' as <-. rewrite Hr in Hl2.
    apply wp_bind, Hrr, wp_ret. rewrite Hl2. apply wp_bind. eapply wp_cent_at; [done|]. apply wp_ret. by rewrite Hl1.
  - apply wp_ret. change (has 0 CF_LOCAL) with false. cbn iota. apply wp_bind. eapply wp_cent_at; [done|]. apply wp_ret. by rewrite Hl1.
Qed.
(** An entry without sets is not in the list. *)
Lemma empty_unlisted w a c : sound w -> cents w !! a = Some c -> is_neg c = false -> num_rrs c = 0 ->
  filter (fun le => le_cent le <> a) (rrset_l w) = rrset_l w.
Proof.
  intros [S1 S2] Hc Hn Hz. apply filter_all_in. intros [id b oi] Hin E. cbn in E. subst b. apply (lo_in w S2) in Hin. rewrite (lent_at_here w a c _ Hc) in Hin.
  destruct oi as [i|]; [|cbn in Hin; unfold is_neg in Hn; by destruct (body c)]. rewrite lent_in_slot in Hin.
  rewrite (co_num _ (S1 a c Hc)) in Hz. unfold slot in Hin. by rewrite arr_count_zero in Hin.
Qed.
Lemma neg_listed w a c : sound w -> cents w !! a = Some c -> is_neg c = true ->
  filter (fun le => le_cent le <> a) (rrset_l w) = filter (not_at a None) (rrset_l w).
Proof.
  intros [S1 S2] Hc Hn. apply filter_ext_in. intros [id b oi] Hin. apply (lo_in w S2) in Hin. unfold not_at. cbn. split; [intros Hne [E _]; by apply Hne|]. intros H ->.
  rewrite (lent_at_here w a c _ Hc) in Hin. apply H. split; [done|]. unfold lent_in, is_neg in *. by destruct oi, (body c).
Qed.
(** After a visit the entry that was visited may be gone from the list. *)
Record visited (strict : bool) (le : rr_lent_t) (w w' : cache) : Prop := {
  vs_wf : wf w';
  vs_sort : insert_sort w' = insert_sort w;
  vs_list : rrset_l w' = filter (not_at (le_cent le) (le_idx le)) (rrset_l w) \/ strict = false /\ rrset_l w' = rrset_l w;
}.
(** Deleting an entry that has become empty. *)
Lemma reap_ok strict le w w1 c1 : cents w1 !! le_cent le = Some c1 -> wf w1 -> insert_sort w1 = insert_sort w -> num_rrs c1 = 0 ->
  (is_neg c1 = false /\ (rrset_l w1 = filter (not_at (le_cent le) (le_idx le)) (rrset_l w) \/ strict = false /\ rrset_l w1 = rrset_l w) \/
   is_neg c1 = true /\ le_idx le = None /\ rrset_l w1 = rrset_l w) ->
  wp (del_cache_ent (le_cent le)) w1 (fun _ => visited strict le w).
Proof.
  intros Hc Hw Hs Hz Hcase. eapply wp_mono; [by eapply del_ent_ok|]. intros ? w' [F1 F2 F3 F4 F5 F6 F7]. constructor; [done|congruence|]. rewrite F5.
  destruct Hcase as [(Hn & Hl)|(Hn & Hi & Hl)].
  - rewrite (empty_unlisted w1 _ c1) by (try done; apply Hw). done.
  - left. rewrite (neg_listed w1 _ c1), Hl, Hi by (try done; apply Hw). done.
Qed.
Lemma purge_oldest_ok w le : wf w -> le ∈ rrset_l w -> wp (purge_oldest le) w (fun _ => visited true le w).
Proof.
  intros Hw Hin. destruct (listed w le Hw Hin) as (c & Hc & Ho & _ & Hp & _). unfold purge_oldest. apply wp_bind, le_local_ok; [done..|].
  destruct (le_idx le) as [i|] eqn:Ei.
  - apply wp_bind. eapply wp_mono; [by eapply drop_ok|]. intros ? w1 (c1 & U & Hwo & Hl & _). pose proof (updated_at _ _ _ _ _ U) as Hc1.
    pose proof (up_wf _ _ _ _ _ U) as Hw1. apply wp_bind. eapply wp_cent_at; [done|].
    assert (Hn : is_neg c1 = false). { destruct Hwo as (_ & _ & -> & _). cbn in Hp. destruct (slot c i) eqn:Hr; [|done]. apply slot_lt in Hr. by eapply slots_pos. }
    destruct (num_rrs c1 =? 0) eqn:Ez; cbn [when].
    + eapply reap_ok; try done; [apply U|lia|]. left. split; [done|]. left. by rewrite Ei.
    + apply wp_ret. constructor; [done|apply U|]. left. by rewrite Ei.
  - apply wp_bind, wp_ret, wp_bind. eapply wp_cent_at; [done|]. cbn in Hp.
    assert (Hz : num_rrs c = 0) by (rewrite (co_num _ Ho); unfold slots, is_neg in *; by destruct (body c)). rewrite Hz. cbn [Z.eqb when].
    eapply reap_ok; try done. right. done.
Qed.
Lemma purge_rrset_ok a c i w : wf w -> cents w !! a = Some c ->
  wp (purge_rrset clock a i false) w (fun _ w' => exists c', updated a c c' w w' /\ is_neg c' = is_neg c /\
    (rrset_l w' = filter (not_at a (Some i)) (rrset_l w) \/ rrset_l w' = rrset_l w)).
Proof.
  intros Hw Hc. pose proof (so_cents _ (wf_sound _ Hw) a c Hc) as Ho. unfold purge_rrset. apply wp_bind. eapply wp_cent_at; [done|]. apply wp_bind.
  eapply wp_lift_ret; [by apply RRARR_TESTEXT_ok|]. destruct (slot c i) as [r|]; [|apply wp_ret; exists c; split_and!; try done; [by apply updated_refl|by right]].
  apply wp_bind, expired_ok. intros b n Hn _ _. pose proof (updated_ticks a c w n Hw Hc Hn) as U. destruct b.
  - apply wp_bind. cbn [negb when]. eapply wp_mono; [eapply drop_ok; [apply U|done]|]. intros ? w1 (c1 & U1 & Hwo & Hl & _). apply wp_ret. exists c1.
    split; [by eapply updated_trans|]. split; [by destruct Hwo as (_ & _ & ? & _)|by left].
  - apply wp_ret. exists c. split_and!; try done. by right.
Qed.
Lemma purge_expired_ok w le : wf w -> le ∈ rrset_l w -> wp (purge_expired clock le) w (fun _ => visited false le w).
Proof.
  intros Hw Hin. destruct (listed w le Hw Hin) as (c & Hc & Ho & _ & Hp & _). unfold purge_expired. apply wp_bind, le_local_ok; [done..|]. apply wp_bind.
  eapply (wp_mono _ _ (fun _ w1 => exists c1, updated (le_cent le) c c1 w w1 /\ is_neg c1 = is_neg c /\
    (rrset_l w1 = filter (not_at (le_cent le) (le_idx le)) (rrset_l w) \/ rrset_l w1 = rrset_l w) /\ (is_neg c = true -> rrset_l w1 = rrset_l w))).
  { destruct (le_idx le) as [i|] eqn:Ei.
    - apply wp_unit. eapply wp_mono; [by eapply purge_rrset_ok|]. intros ? w1 (c1 & U & Hn & Hl). exists c1. split_and!; try done.
      intros Hn'. cbn in Hp. destruct (slot c i) eqn:Hr; [|done]. apply slot_lt in Hr. destruct (slots_pos c i Ho Hr). congruence.
    - apply wp_ret. exists c. split_and!; try done; [by apply updated_refl|by right]. }
  intros ? w1 (c1 & U & Hn & Hl & Hl'). pose proof (updated_at _ _ _ _ _ U) as Hc1. pose proof (up_wf _ _ _ _ _ U) as Hw1.
  assert (Hdone : forall n, wp (mret tt) (with_ticks n w1) (fun _ => visited false le w)).
  { intros n. apply wp_ret. constructor; [by apply wf_ticks|apply U|]. destruct Hl as [?|?]; [by left|by right]. }
  apply wp_bind. eapply wp_cent_at; [done|]. pose proof (Hdone (ticks w1)) as Hdone1. rewrite ticks_id in Hdone1.
  destruct (num_rrs c1 =? 0) eqn:Ez; [|done]. apply wp_bind.
  change (wp (goes true 0 c1) w1 (fun b w2 => wp (when b (del_cache_ent (le_cent le))) w2 (fun _ => visited false le w))).
  apply goes_ok; [by apply (so_cents _ (wf_sound _ Hw1) (le_cent le))|done|]. intros b m Hm _ _. destruct b; [|apply Hdone]. cbn [when].
  eapply reap_ok; [exact Hc1|by apply wf_ticks|apply U|lia|]. destruct (is_neg c1) eqn:Hn1.
  - right. split_and!; try done; [|apply Hl'; congruence]. destruct (le_idx le) as [i|] eqn:Ei; [|done]. cbn in Hp. destruct (slot c i) eqn:Hr; [|done].
    apply slot_lt in Hr. destruct (slots_pos c i Ho Hr). congruence.
  - left. split; [done|]. cbn. destruct Hl as [?|?]; [by left|by right].
Qed.
Lemma find_le_app pre le suf : NoDup (map le_id (pre ++ le :: suf)) -> find_le (le_id le) (pre ++ le :: suf) = Some (le, le_id <$> head suf).
Proof.
  induction pre as [|x pre IH]; cbn; intros Hn.
  - by rewrite Nat.eqb_refl.
  - apply list_relations.list.NoDup_cons in Hn as [Hx Hn]. rewrite IH by done. destruct (Nat.eqb_spec (le_id x) (le_id le)) as [E|]; [|done].
    destruct Hx. rewrite E. apply list_elem_of_fmap_2. rewrite elem_of_app, elem_of_cons. auto.
Qed.
Lemma filter_visited w pre le suf : list_ok w -> rrset_l w = pre ++ le :: suf -> filter (not_at (le_cent le) (le_idx le)) (rrset_l w) = pre ++ suf.
Proof.
  intros Hl El. assert (Hne : forall x, x ∈ rrset_l w -> x <> le -> not_at (le_cent le) (le_idx le) x).
  { intros [id b oj] Hx Hne [E1 E2]. cbn in *. subst. apply Hne. assert (Hle : le ∈ rrset_l w) by (rewrite El, elem_of_app, elem_of_cons; auto).
    destruct le as [id' b' oj']. cbn in *. apply (lo_in w Hl) in Hx, Hle. congruence. }
  pose proof (lo_nodup _ Hl) as Hn. rewrite El in *. rewrite list_basics.list.filter_app, filter_cons. rewrite (decide_False (P := not_at _ _ le)) by (intros H; by apply H).
  rewrite map_app in Hn. apply list_relations.list.NoDup_app in Hn as (_ & Hd & Hs). cbn in Hs. apply list_relations.list.NoDup_cons in Hs as [Hs _].
  rewrite !filter_all_in; [done| |].
  - intros x Hx. apply Hne; [rewrite elem_of_app, elem_of_cons; auto|]. intros ->. apply Hs. by apply list_elem_of_fmap_2.
  - intros x Hx. apply Hne; [rewrite elem_of_app; auto|]. intros ->. apply (Hd (le_id le)); [by apply list_elem_of_fmap_2|]. cbn. by left.
Qed.
Lemma walk_list_ok strict visit continue : (forall w le, wf w -> le ∈ rrset_l w -> wp (visit le) w (fun _ => visited strict le w)) ->
  forall fuel w pre suf, wf w -> rrset_l w = pre ++ suf -> (length suf <= fuel)%nat ->
  wp (walk_list fuel visit continue (le_id <$> head suf)) w (fun _ w' => wf w' /\ insert_sort w' = insert_sort w /\
    (continue w' = false \/ (strict = true -> rrset_l w' = pre))).
Proof.
  intros Hv. induction fuel as [|fuel IH]; intros w pre suf Hw El Hf.
  { destruct suf; [|cbn in Hf; lia]. apply wp_ret. rewrite app_nil_r in El. split_and!; auto. }
  destruct suf as [|le suf]; cbn [head fmap option_fmap option_map].
  { apply wp_ret. rewrite app_nil_r in El. split_and!; auto. }
  cbn [walk_list]. apply wp_bind, wp_gets. destruct (continue w) eqn:Eg; [|apply wp_ret; split_and!; auto].
  pose proof (so_list _ (wf_sound _ Hw)) as Hlo. apply wp_bind, wp_gets, wp_bind. eapply wp_some.
  { rewrite El. apply find_le_app. rewrite <- El. apply Hlo. }
  apply wp_bind. eapply wp_mono; [apply Hv; [done|]; rewrite El, elem_of_app, elem_of_cons; auto|]. intros ? w1 [V1 V2 V3]. cbn in Hf. rewrite <- V2.
  destruct V3 as [V3|[-> V3]].
  - rewrite (filter_visited w pre le suf) in V3 by done. apply (IH w1 pre suf); [done|done|lia].
  - rewrite El in V3. eapply wp_mono; [apply (IH w1 (pre ++ [le]) suf); [done|by rewrite <- app_assoc|lia]|].
    intros ? w2 (W1 & W2 & W3). split_and!; try done. destruct W3; [by left|by right].
Qed.
Lemma walk_all_ok strict visit continue w : (forall w le, wf w -> le ∈ rrset_l w -> wp (visit le) w (fun _ => visited strict le w)) -> wf w ->
  wp (walk_all visit continue) w (fun _ w' => wf w' /\ insert_sort w' = insert_sort w /\ (continue w' = false \/ (strict = true -> rrset_l w' = []))).
Proof. intros Hv Hw. unfold walk_all. apply wp_bind, wp_gets. by apply (walk_list_ok strict visit continue Hv _ w []). Qed.
(** The cache is brought down to its limit, or nothing is left to be purged. *)
Lemma purge_cache_ok sz lazy w : wf w -> insert_sort w = true ->
  wp (purge_cache clock sz lazy) w (fun _ w' => wf w' /\ insert_sort w' = true /\ (cache_size w' <= sz \/ rrset_l w' = [])).
Proof.
  intros Hw Hs. unfold purge_cache. apply wp_bind. eapply wp_mono; [apply (walk_all_ok false); [apply purge_expired_ok|done]|].
  intros ? w1 (W1 & W2 & _). apply wp_bind, wp_gets. destruct (Z.leb_spec (cache_size w1) sz); [apply wp_ret; split_and!; try done; [congruence|by left]|].
  apply wp_bind, wp_gets. rewrite W2, Hs. cbn [negb when]. apply wp_bind, wp_ret.
  eapply wp_mono; [apply (walk_all_ok true); [apply purge_oldest_ok|done]|]. intros ? w2 (V1 & V2 & V3). split_and!; try done; [congruence|].
  destruct V3 as [V3|V3]; [left; by apply Z.ltb_ge|right; by apply V3].
Qed.
End entry.
End CacheInv.
