(* ===== verification/CacheOps.v ===== *)
(** * The operations of the cache

    The functions of DnsCache.v that add, copy, look up and sort, the steps of the
    cache, and the properties of the cache. *)
From Stdlib Require Import Sorting.Sorted.
From stdpp Require Import gmap.
From S2P Require Import Prelude Handlers DnsName DnsHash DnsCache CacheInv.
Import DnsCache CacheInv.
Local Open Scope Z_scope.

Module CacheOps.
#[local] Abbreviation canon := DnsHash.DnsHash.canon.
Section entry.
Context {malloc_ok : nat -> bool} {clock : nat -> Z}.
Set Default Proof Using "Type".
#[local] Abbreviation no_memory := (@no_memory malloc_ok).
#[local] Abbreviation fresh_since := (@fresh_since clock).
#[local] Abbreviation stays := (@stays clock).
#[local] Abbreviation all_fresh := (@all_fresh clock).
#[local] Abbreviation neg_fresh := (@neg_fresh clock).
#[local] Abbreviation kept := (@kept clock).


(** ** Adding *)
Lemma with_slot_but i x c c' : linked c -> same_cent c c' -> with_slot i x c c' -> linked_but i c'.
Proof.
  intros Hl [_ Hs] [Hn Hsl] [j|] Hne; [|unfold linked_at, present; by rewrite Hn]. specialize (Hl (Some j)).
  unfold linked_at, present, local_in in *. rewrite !lent_in_slot, Hsl, decide_False, Hs in * by congruence. done.
Qed.
Lemma linked_but_at i c : linked_but i c -> linked_at c (Some i) -> linked c.
Proof. intros H1 H2 oi. destruct (decide (oi = Some i)) as [->|]; [done|by apply H1]. Qed.
Lemma linked_none i c : linked_but i c -> slot c i = None -> linked c.
Proof. intros H E. apply (linked_but_at i); [done|]. unfold linked_at, present. by rewrite E. Qed.
(** No two sets exclude each other. *)
Definition conflict_free (c : dns_cent_t) : Prop := forall i j x y, i <> j -> slot c i = Some x -> slot c j = Some y ->
  has (flags x) CF_NEGATIVE = false -> has (flags y) CF_NEGATIVE = false -> excludes_ i j = false.
Lemma has_comm a b : has a b = has b a.
Proof. unfold has. by rewrite Z.land_comm. Qed.
Lemma excludes_sym i j : excludes_ i j = excludes_ j i.
Proof. unfold excludes_. rewrite orb_comm. f_equal; apply has_comm. Qed.
(** Some sets were deleted, [i] and those that conflict with it among them. *)
Record fewer (c c' : dns_cent_t) : Prop := {
  fw_slot : forall j, slot c' j = None \/ slot c' j = slot c j;
  fw_linked : linked c';
  fw_len : length (slots c') = length (slots c);
}.
Lemma fewer_some c c' j r : fewer c c' -> slot c' j = Some r -> slot c j = Some r.
Proof. intros [H _ _] E. destruct (H j); congruence. Qed.
Lemma fewer_free c c' : fewer c c' -> conflict_free c -> conflict_free c'.
Proof. intros Hf H i j x y Hne Hx Hy. apply (H i j x y Hne); by eapply fewer_some. Qed.
Lemma fewer_trans c1 c2 c3 : fewer c1 c2 -> fewer c2 c3 -> fewer c1 c3.
Proof.
  intros [A1 A2 A3] [B1 B2 B3]. constructor; [|done|congruence]. intros j. destruct (B1 j) as [|E]; [by left|]. rewrite E. apply A1.
Qed.
Lemma fewer_refl c : linked c -> fewer c c.
Proof. intros H. constructor; auto. Qed.
Lemma fewer_without i c c' : linked c -> same_cent c c' -> without i c c' -> fewer c c'.
Proof.
  intros Hl Hs Hwo. constructor; [|by eapply linked_without|by destruct Hwo as (_ & ? & _)]. intros j. destruct Hwo as (H & _). rewrite H.
  destruct (decide (i = j)); auto.
Qed.
Lemma del_fewer a c i w : sound w -> cents w !! a = Some c -> linked c ->
  wp (on a (del_cent_rrset_by_index i)) w (fun _ w' => changed a c w w' (fun c' => fewer c c' /\ without i c c')).
Proof.
  intros Hs Hc Hl. eapply wp_mono; [by eapply del_ok|]. intros rv w' [(K & S & c' & Hc' & Hsm & _ & _ & Hwo) _]. split; [done|]. split; [done|].
  exists c'. split_and!; try done. by eapply fewer_without.
Qed.
Lemma count_ok a c i w : sound w -> cents w !! a = Some c -> forall js ncf nttl n, (forall j, j ∈ js -> (j < length (slots c))%nat) -> (ticks w <= n)%nat ->
  wp (count_conflicts clock a i js ncf nttl) (with_ticks n w) (fun o w' => exists m, w' = with_ticks m w /\ (ticks w <= m)%nat /\
    match o with
    | None => True
    | Some (k, _) => ncf <= k /\ forall j r, j ∈ js -> slot c j = Some r -> conflicts i j r = true -> has (flags r) CF_LOCAL = false /\ ncf < k
    end).
Proof.
  intros Hs Hc. pose proof (so_cents _ Hs a c Hc) as Ho. induction js as [|j js IH]; intros ncf nttl n Hlt Hn; cbn [count_conflicts].
  { apply wp_ret. exists n. split_and!; try done. by intros ? ? ?%elem_of_nil. }
  apply wp_bind. eapply wp_cent_at; [exact Hc|]. apply wp_bind. eapply wp_lift_ret; [apply RRARR_INDEX_ok; [done|apply Hlt; by left]|].
  assert (Hlt' : forall j, j ∈ js -> (j < length (slots c))%nat) by (intros j' Hj'; apply Hlt; by right).
  assert (Hskip : (forall r, slot c j = Some r -> conflicts i j r = false) -> wp (count_conflicts clock a i js ncf nttl) (with_ticks n w)
    (fun o w' => exists m, w' = with_ticks m w /\ (ticks w <= m)%nat /\ match o with None => True | Some (k, _) => ncf <= k /\
      forall j' r, j' ∈ j :: js -> slot c j' = Some r -> conflicts i j' r = true -> has (flags r) CF_LOCAL = false /\ ncf < k end)).
  { intros Hno. eapply wp_mono; [by apply IH|]. intros o w' (m & -> & Hm & Hk). exists m. split_and!; try done. destruct o as [[k ?]|]; [|done].
    destruct Hk as [Hk1 Hk2]. split; [done|]. intros j' r [->|Hj']%elem_of_cons Hr Hcf; [|by eapply Hk2]. rewrite Hno in Hcf; done. }
  destruct (slot c j) as [r|] eqn:Hr; [|by apply Hskip]. destruct (conflicts i j r) eqn:Ec; [|apply Hskip; congruence].
  destruct (has (flags r) CF_LOCAL) eqn:El; [apply wp_ret; exists n; done|]. apply wp_bind, wp_time. cbv zeta.
  eapply wp_mono; [apply (IH (ncf + 1) _ (S n)); [done|lia]|]. intros o w' (m & -> & Hm & Hk). exists m. split_and!; try done.
  destruct o as [[k ?]|]; [|done]. destruct Hk as [Hk1 Hk2]. split; [lia|]. intros j' r' [->|Hj']%elem_of_cons Hr' Hcf.
  - rewrite Hr in Hr'. injection Hr' as <-. split; [done|lia].
  - destruct (Hk2 j' r' Hj' Hr' Hcf). split; [done|lia].
Qed.
Lemma remove_ok a i js : forall c w, sound w -> cents w !! a = Some c -> linked c -> (forall j, j ∈ js -> (j < length (slots c))%nat) ->
  wp (remove_conflicts a i js) w (fun _ w' => changed a c w w' (fun c' => fewer c c' /\
    (forall j r, j ∈ js -> slot c' j = Some r -> conflicts i j r = false) /\ (forall j r, slot c j = Some r -> conflicts i j r = false -> slot c' j = Some r))).
Proof.
  induction js as [|j js IH]; intros c w Hs Hc Hl Hlt; cbn [remove_conflicts].
  { apply wp_unchanged; try done. split; [by apply fewer_refl|]. split; [by intros ? ? ?%elem_of_nil|done]. }
  pose proof (so_cents _ Hs a c Hc) as Ho. apply wp_bind. eapply wp_cent_at; [done|]. apply wp_bind.
  eapply wp_lift_ret; [apply RRARR_INDEX_ok; [done|apply Hlt; by left]|].
  eapply (wp_changed _ _ a c w (fun _ c1 => fewer c c1 /\ (forall r, slot c1 j = Some r -> conflicts i j r = false) /\
    (forall j' r, slot c j' = Some r -> conflicts i j' r = false -> slot c1 j' = Some r))).
  { destruct (slot c j) as [r|] eqn:Hr; [|apply wp_unchanged; try done; split; [by apply fewer_refl|]; split; [congruence|done]].
    destruct (conflicts i j r) eqn:Ec; [|apply wp_unchanged; try done; split; [by apply fewer_refl|]; split; [congruence|done]].
    apply wp_unit. eapply wp_mono; [by apply del_fewer|]. intros ? w' Hch. eapply changed_mono; [exact Hch|]. intros c1 [Hf (Hsl & _)].
    split; [done|]. split; [intros r'; rewrite Hsl, decide_True by done; done|]. intros j' r' Hr' Hc'. rewrite Hsl. destruct (decide (j = j')); congruence. }
  intros _ c1 w1 (F1 & F2 & F3) _ Hc1 Hs1. eapply wp_mono; [apply IH; try done; [apply F1|]|].
  { intros j' Hj'. rewrite (fw_len _ _ F1). apply Hlt. by right. }
  intros ? w2 Hch. eapply changed_mono; [exact Hch|]. intros c2 (G1 & G2 & G3). split; [by eapply fewer_trans|]. split.
  - intros j' r [->|Hj']%elem_of_cons Hr; [|by eapply G2]. apply F2. by eapply fewer_some.
  - intros j' r Hr Hcf. auto.
Qed.
(** The new set with index [i] may be added, or not. *)
Lemma check_ok a c i t fl w : sound w -> cents w !! a = Some c -> linked c ->
  wp (cr_check_add clock a i t fl) w (fun ok w' => changed a c w w' (fun c' => fewer c c' /\
    (has fl CF_LOCAL = false -> forall j r, slot c j = Some r -> has (flags r) CF_LOCAL = true -> slot c' j = Some r) /\
    (ok = true -> has fl CF_NEGATIVE = false -> forall j r, slot c' j = Some r -> conflicts i j r = false))).
Proof.
  intros Hs Hc Hl. pose proof (so_cents _ Hs a c Hc) as Ho. unfold cr_check_add.
  assert (Hsame : forall ok : bool, (ok = true -> has fl CF_NEGATIVE = true) -> wp (mret ok) w (fun ok w' => changed a c w w' (fun c' => fewer c c' /\
    (has fl CF_LOCAL = false -> forall j r, slot c j = Some r -> has (flags r) CF_LOCAL = true -> slot c' j = Some r) /\
    (ok = true -> has fl CF_NEGATIVE = false -> forall j r, slot c' j = Some r -> conflicts i j r = false)))).
  { intros ok Hok. apply (wp_unchanged (A := bool) ok a c w (fun ok c' => fewer c c' /\
      (has fl CF_LOCAL = false -> forall j r, slot c j = Some r -> has (flags r) CF_LOCAL = true -> slot c' j = Some r) /\
      (ok = true -> has fl CF_NEGATIVE = false -> forall j r, slot c' j = Some r -> conflicts i j r = false))); try done.
    split; [by apply fewer_refl|]. split; [done|]. intros E. rewrite Hok by done. done. }
  destruct (has fl CF_NEGATIVE) eqn:En; [by apply Hsame|]. apply wp_bind. eapply wp_cent_at; [done|]. apply wp_bind. eapply wp_lift_ret; [by apply RRARR_ok|].
  assert (Hlt : forall j, j ∈ seq 0 (length (slots c)) -> (j < length (slots c))%nat) by (intros j Hj%elem_of_seq; lia).
  destruct (has fl CF_LOCAL) eqn:El.
  { apply wp_bind. eapply wp_mono; [by apply remove_ok|]. intros ? w' Hch. apply wp_ret. eapply changed_mono; [exact Hch|]. intros c' (F1 & F2 & F3).
    split; [done|]. split; [done|]. intros _ _ j r Hr. eapply F2; [|done]. apply elem_of_seq. rewrite <- (fw_len _ _ F1). apply slot_lt in Hr. lia. }
  destruct (has (dflags c) DF_LOCAL); [by apply Hsame|]. apply wp_bind. pose proof (count_ok a c i w Hs Hc _ 0 0 (ticks w) Hlt (le_n _)) as Hcnt.
  rewrite ticks_id in Hcnt. eapply wp_mono; [exact Hcnt|]. intros o w' (m & -> & Hm & Ho').
  assert (Hch : changed a c w (with_ticks m w) (fun c' => c' = c)) by by apply changed_ticks.
  assert (Hfree : forall ok : bool, (ok = true -> forall j r, slot c j = Some r -> conflicts i j r = false) -> wp (mret ok) (with_ticks m w)
    (fun ok w' => changed a c w w' (fun c' => fewer c c' /\
      (false = false -> forall j r, slot c j = Some r -> has (flags r) CF_LOCAL = true -> slot c' j = Some r) /\
      (ok = true -> false = false -> forall j r, slot c' j = Some r -> conflicts i j r = false)))).
  { intros ok Hok. apply wp_ret. eapply changed_mono; [exact Hch|]. intros c' ->. split; [by apply fewer_refl|]. split; [done|]. intros E _. by apply Hok. }
  destruct o as [[ncf nttl]|]; [|by apply Hfree]. destruct Ho' as [Hk1 Hk2].
  destruct (Z.eqb_spec ncf 0) as [->|Hne].
  { apply Hfree. intros _ j r Hr. destruct (conflicts i j r) eqn:E; [|done]. destruct (Hk2 j r); [|done|done|lia]. apply elem_of_seq. apply slot_lt in Hr. lia. }
  destruct (Z.quot nttl ncf <? t); [|by apply Hfree]. apply wp_bind.
  eapply wp_mono; [apply (remove_ok a i _ c (with_ticks m w)); try done; by apply sound_ticks|]. intros ? w' Hch'. apply wp_ret.
  eapply changed_trans; [exact Hch|]. intros c1 -> _ _. eapply changed_mono; [exact Hch'|]. intros c' (F1 & F2 & F3). split; [done|]. split.
  - intros _ j r Hr Hloc. apply F3; [done|]. destruct (conflicts i j r) eqn:E; [|done]. destruct (Hk2 j r) as [E' _]; [|done|done|congruence].
    apply elem_of_seq. apply slot_lt in Hr. lia.
  - intros _ _ j r Hr. eapply F2; [|done]. apply elem_of_seq. rewrite <- (fw_len _ _ F1). apply slot_lt in Hr. lia.
Qed.
Lemma with_slot_trans i x y c c1 c2 : with_slot i x c c1 -> with_slot i y c1 c2 -> with_slot i y c c2.
Proof. intros [_ H1] [H2 H3]. split; [done|]. intros j. rewrite H3, H1. by destruct (decide (i = j)). Qed.
Lemma with_slot_at i x c c' : with_slot i x c c' -> slot c' i = x.
Proof. intros [_ H]. by rewrite H, decide_True. Qed.
Lemma records_ok a i r l : forall c x w, sound w -> cents w !! a = Some c -> slot c i = Some x ->
  wp (add_records malloc_ok a i r l) w (fun ok w' => changed a c w w' (fun c' => exists l', with_slot i (Some (set_rrs l' x)) c c' /\ (ok = true -> l' = rrs x ++ l))).
Proof.
  induction l as [|d l IH]; intros c x w Hs Hc Hx; cbn [add_records]; pose proof (so_cents _ Hs a c Hc) as Ho; pose proof (slot_lt _ _ _ Hx) as Hi;
    destruct (slots_pos c i Ho Hi) as [Hn _].
  - apply wp_unchanged; try done. exists (rrs x). split; [|intros _; by rewrite app_nil_r]. split; [done|]. intros j. destruct (decide (i = j)) as [<-|]; [|done].
    rewrite Hx. by destruct x.
  - eapply (wp_changed _ _ a c w (fun ok => with_slot i (Some (if ok : bool then set_rrs (rrs x ++ [d]) x else x)) c)); [by apply addrr_ok|].
    intros ok c1 w1 Hsl _ Hc1 Hs1. destruct ok.
    + eapply wp_mono; [apply (IH c1 (set_rrs (rrs x ++ [d]) x)); [done|done|by apply (with_slot_at _ _ _ _ Hsl)]|]. intros ok w2 Hch.
      eapply changed_mono; [exact Hch|]. intros c2 (l' & Hsl2 & Hl'). exists l'. split; [by eapply with_slot_trans|].
      intros E. rewrite Hl' by done. cbn. by rewrite <- app_assoc.
    + apply (wp_unchanged false a c1 w1 (fun ok c' => exists l', with_slot i (Some (set_rrs l' x)) c c' /\ (ok = true -> l' = rrs x ++ d :: l))); try done.
      exists (rrs x). split; [|done]. by destruct x.
Qed.
Lemma precedes_ok old new w (Q : bool -> cache -> Prop) :
  (forall b n, (ticks w <= n)%nat -> (b = false -> has (flags new) CF_LOCAL = false -> has (flags old) CF_LOCAL = false) -> Q b (with_ticks n w)) ->
  wp (precedes clock old new) w Q.
Proof.
  intros H. unfold precedes. assert (Hret : forall b : bool, (b = false -> has (flags new) CF_LOCAL = false -> has (flags old) CF_LOCAL = false) -> Q b w).
  { intros b Hb. specialize (H b (ticks w)). rewrite ticks_id in H. by apply H. }
  destruct (has (flags new) CF_LOCAL) eqn:E1, (has (flags old) CF_LOCAL) eqn:E2; cbn [negb andb]; try (by apply wp_ret, Hret).
  all: destruct (_ && _); [|by apply wp_ret, Hret].
  all: apply wp_bind, timedout_ok; intros b _ _; apply wp_ret, H; [lia|done].
Qed.
(** What adding the set [r] with index [i] does to the others. *)
Definition keeps_local (r : rr_set_t) (c c' : dns_cent_t) : Prop :=
  has (flags r) CF_LOCAL = false -> forall j x, slot c j = Some x -> has (flags x) CF_LOCAL = true -> slot c' j = Some x.
Record slot_added (res : added) (i : nat) (r : rr_set_t) (c c' : dns_cent_t) : Prop := {
  sa_linked : match res with Cleanup => linked_but i c' | _ => linked c' end;
  sa_local : keeps_local r c c';
  sa_here : res <> Done -> has (flags r) CF_LOCAL = false -> forall x, slot c i = Some x -> has (flags x) CF_LOCAL = false;
  sa_free : conflict_free c -> conflict_free c';
}.
Lemma adjust_flags global r b : Z.land b CF_NOCACHE = 0 -> has (flags (adjust_ttl global r)) b = has (flags r) b.
Proof.
  intros Hb. unfold adjust_ttl. destruct (has (flags r) CF_NOCACHE); [by apply has_clear|].
  destruct (ttl r <? _); [done|]. by destruct (max_ttl global <? ttl r).
Qed.
Lemma adjust_lent global r : lent (adjust_ttl global r) = lent r /\ rrs (adjust_ttl global r) = rrs r.
Proof.
  unfold adjust_ttl. destruct (has (flags r) CF_NOCACHE); [done|]. destruct (ttl r <? _); [done|]. by destruct (max_ttl global <? ttl r).
Qed.
(** The set in slot [i] is negative if the new one is. *)
Lemma free_with i r c c' : conflict_free c -> (has (flags r) CF_NEGATIVE = false -> forall j y, slot c j = Some y -> conflicts i j y = false) ->
  (forall j, j <> i -> slot c' j = slot c j) -> (forall y, slot c' i = Some y -> has (flags y) CF_NEGATIVE = has (flags r) CF_NEGATIVE) -> conflict_free c'.
Proof.
  intros Hf Hc Hsl Hi. assert (Hone : forall j y z, j <> i -> slot c' i = Some z -> slot c' j = Some y -> has (flags z) CF_NEGATIVE = false ->
    has (flags y) CF_NEGATIVE = false -> excludes_ i j = false).
  { intros j y z Hj Hz Hy Nz Ny. rewrite (Hi z Hz) in Nz. rewrite Hsl in Hy by done. specialize (Hc Nz j y Hy). unfold conflicts in Hc.
    by rewrite Ny in Hc. }
  intros j k y z Hne Hy Hz Ny Nz. destruct (decide (j = i)) as [->|]; [by eapply Hone|]. destruct (decide (k = i)) as [->|].
  - rewrite excludes_sym. by eapply Hone.
  - rewrite Hsl in Hy, Hz by done. by eapply Hf.
Qed.
Lemma adjusted global a c i x w : sound w -> cents w !! a = Some c -> slot c i = Some x ->
  changed a c w (with_cents (<[a := upd i (Some (adjust_ttl global x)) c]> (cents w)) w)
    (fun c' => c' = upd i (Some (adjust_ttl global x)) c /\ with_slot i (Some (adjust_ttl global x)) c c').
Proof.
  intros Hs Hc Hx. destruct (adjust_lent global x) as [E1 E2].
  pose proof (replace_ok a c i x (adjust_ttl global x) 0 w (ticks w) (le_n _) Hs Hc Hx E1) as H.
  replace (set_cs (cs c + 0) (upd i (Some (adjust_ttl global x)) c)) with (upd i (Some (adjust_ttl global x)) c) in H by (unfold upd, set_cs, set_body; cbn; by rewrite Z.add_0_r).
  change (with_ticks (ticks w) (with_cents ?m w)) with (with_cents m w) in H.
  destruct H as (K & S & c' & Hc' & E & Hw); [unfold rrset_size; rewrite E2; lia|]. split; [done|]. split; [done|]. exists c'. split_and!; try done.
  cbn in Hc'. rewrite lookup_insert_eq in Hc'. congruence.
Qed.
Lemma adjust_ok global a c i x w : sound w -> cents w !! a = Some c -> slot c i = Some x ->
  wp (on a (fun ce => y ← lift (RRARR_INDEX ce i); r ← lift (of_option y); ce ← lift (set_slot i (Some (adjust_ttl global r)) ce); mret (tt, ce))) w
    (fun _ w' => changed a c w w' (with_slot i (Some (adjust_ttl global x)) c)).
Proof.
  intros Hs Hc Hx. pose proof (so_cents _ Hs a c Hc) as Ho. pose proof (slot_lt _ _ _ Hx) as Hi. eapply wp_on; [done|]. apply wp_bind.
  eapply wp_lift_ret; [by apply RRARR_INDEX_ok|]. rewrite Hx. apply wp_bind. eapply wp_some; [done|]. apply wp_bind.
  eapply wp_lift_ret; [by apply set_slot_ok|]. apply wp_ret. eapply changed_mono; [by apply adjusted|]. by intros c' [_ ?].
Qed.
Lemma same_cent_trans c1 c2 c3 : same_cent c1 c2 -> same_cent c2 c3 -> same_cent c1 c3.
Proof. intros [] []. split; congruence. Qed.
(** The entry in the middle: [c2] is what is left, slot [i] holds the new set. *)
Lemma slot_added_but res i r c c2 c' x : (res = Cleanup \/ linked_at c' (Some i)) -> keeps_local r c c2 -> (conflict_free c -> conflict_free c2) -> slot c2 i = None ->
  linked c2 -> same_cent c2 c' -> with_slot i x c2 c' -> (has (flags r) CF_NEGATIVE = false -> forall j y, slot c2 j = Some y -> conflicts i j y = false) ->
  (forall y, x = Some y -> has (flags y) CF_NEGATIVE = has (flags r) CF_NEGATIVE) -> slot_added res i r c c'.
Proof.
  intros Hres Hk Hf Hi Hl Hs Hws Hno Hx. pose proof (with_slot_but i x c2 c' Hl Hs Hws) as Hb. constructor.
  - destruct Hres as [->|Hat]; [done|]. pose proof (linked_but_at i c' Hb Hat). by destruct res.
  - intros Hloc j y Hy Hly. destruct Hws as [_ Hsl]. rewrite Hsl. specialize (Hk Hloc j y Hy Hly). destruct (decide (i = j)) as [<-|]; congruence.
  - intros _ Hloc y Hy. destruct (has (flags y) CF_LOCAL) eqn:E; [|done]. rewrite (Hk Hloc i y Hy E) in Hi. done.
  - intros Hcf. eapply (free_with i r c2); [by apply Hf|done| |].
    + intros j Hj. destruct Hws as [_ Hsl]. rewrite Hsl. by rewrite decide_False by congruence.
    + intros y. rewrite (with_slot_at _ _ _ _ Hws). apply Hx.
Qed.
Lemma link_with_slot i x c c' : slot c i = Some x -> is_neg c = false -> link_res (Some i) c c' -> exists id, with_slot i (Some (set_lent id x)) c c'.
Proof.
  intros Hx Hn (L1 & L2 & L3 & L4 & L5 & L6 & _). destruct (L6 i x Hx) as [id Hid]. exists id. split; [congruence|]. intros j.
  destruct (decide (i = j)) as [<-|]; [done|]. apply L5. congruence.
Qed.
Lemma add_slot_ok global a c i r w : sound w -> cents w !! a = Some c -> linked c -> (i < NRRTOT)%nat ->
  wp (add_slot malloc_ok clock global a i r) w (fun res w' => changed a c w w' (slot_added res i r c)).
Proof.
  intros Hs Hc Hl Hi. pose proof (so_cents _ Hs a c Hc) as Ho. unfold add_slot. apply wp_bind. eapply wp_cent_at; [done|]. apply wp_bind.
  eapply wp_lift_ret; [by apply RRARR_TESTEXT_ok|].
  eapply (wp_changed _ _ a c w (fun keep c1 => c1 = c /\ (keep = false -> has (flags r) CF_LOCAL = false -> forall x, slot c i = Some x -> has (flags x) CF_LOCAL = false))).
  { destruct (slot c i) as [x|].
    - apply precedes_ok. intros b n Hn Hb. apply changed_ticks; try done. split; [done|]. intros E1 E2 y [= <-]. by apply Hb.
    - apply (wp_unchanged false a c w (fun keep c1 => c1 = c /\ (keep = false -> has (flags r) CF_LOCAL = false -> forall x, None = Some x -> has (flags x) CF_LOCAL = false))); done. }
  intros keep c1 w1 [-> Hkeep] _ Hc1 Hs1. destruct keep; [apply wp_unchanged; try done; constructor; [done| |done|done]; by intros ? j x|]. specialize (Hkeep eq_refl).
  eapply (wp_changed _ _ a c w1 (fun _ c2 => fewer c c2 /\ without i c c2)); [by apply del_fewer|]. intros _ c2 w2 [F2 W2] E2 Hc2 Hs2.
  eapply wp_changed; [apply (check_ok a c2 i (ttl r) (flags r)); [done|done|apply F2]|]. intros ok c3 w3 (F3 & L3 & N3) E3 Hc3 Hs3.
  assert (Hk3 : keeps_local r c c3).
  { intros Hloc j x Hx Hlx. apply L3; [done| |done]. destruct W2 as [-> _]. destruct (decide (i = j)) as [<-|]; [|done]. rewrite (Hkeep Hloc x Hx) in Hlx. done. }
  assert (Hf3 : conflict_free c -> conflict_free c3) by (intros Hcf; by eapply fewer_free; [|eapply fewer_free]).
  destruct ok; cbn [negb]; [|by apply wp_unchanged; try done; constructor; [apply F3|..]].
  assert (Hi3 : slot c3 i = None). { destruct (fw_slot _ _ F3 i) as [|E]; [done|]. rewrite E. destruct W2 as [-> _]. by rewrite decide_True. }
  specialize (N3 eq_refl). eapply wp_changed; [by apply (addset_ok a c3 i)|]. intros ok c4 w4 A4 E4 Hc4 Hs4. destruct ok; cbn [negb].
  2:{ apply wp_unchanged; try done. eapply (slot_added_but _ _ _ _ c3); try done; [right; unfold linked_at, present; by rewrite (with_slot_at _ _ _ _ A4)|apply F3]. }
  pose proof (with_slot_at _ _ _ _ A4) as H4. eapply wp_changed; [by eapply (records_ok a i r (rrs r) c4)|]. intros ok c5 w5 (l' & A5 & _) E5 Hc5 Hs5.
  pose proof (with_slot_trans _ _ _ _ _ _ A4 A5) as A5'. pose proof (same_cent_trans _ _ _ E4 E5) as E5'. destruct ok; cbn [negb].
  2:{ apply wp_unchanged; try done. eapply (slot_added_but _ _ _ _ c3); try done; [by left|apply F3|]. by intros y [= <-]. }
  eapply wp_changed; [eapply (adjust_ok global a c5 i); [done|done|by eapply with_slot_at]|]. intros ? c6 w6 A6 E6 Hc6 Hs6.
  pose proof (with_slot_trans _ _ _ _ _ _ A5' A6) as A6'. pose proof (same_cent_trans _ _ _ E5' E6) as E6'. pose proof (with_slot_at _ _ _ _ A6) as H6.
  eapply wp_changed; [eapply (insert_ok a c6 (Some i)); try done|].
  { split; cbn [present]; rewrite ?lent_in_slot, H6; [done|]. cbn. by apply (adjust_lent global). }
  intros ok c7 w7 Hlink E7 Hc7 Hs7. apply wp_unchanged; try done. destruct ok.
  - destruct (link_with_slot i _ c6 c7 H6 (proj1 A6) Hlink) as [id A7]. eapply (slot_added_but _ _ _ _ c3); try done; [right; apply Hlink|apply F3| | |].
    + by eapply same_cent_trans.
    + by eapply with_slot_trans.
    + intros y [= <-]. cbn. rewrite adjust_flags by done. done.
  - destruct Hlink as [-> _]. eapply (slot_added_but _ _ _ _ c3); try done; [by left|apply F3|]. intros y [= <-]. by rewrite adjust_flags by done.
Qed.
(** The sets of [arr] were added to [c]. *)
Record merged (arr : list (option rr_set_t)) (c c' : dns_cent_t) : Prop := {
  mg_linked : linked c';
  mg_local : (forall r, Some r ∈ arr -> has (flags r) CF_LOCAL = false) -> forall j x, slot c j = Some x -> has (flags x) CF_LOCAL = true -> slot c' j = Some x;
  mg_free : conflict_free c -> conflict_free c';
}.
Lemma merged_refl arr c : linked c -> merged arr c c.
Proof. by constructor. Qed.
Lemma merged_cons r arr res i c c1 c2 : slot_added res i r c c1 -> merged arr c1 c2 -> merged (Some r :: arr) c c2.
Proof.
  intros [_ A2 _ A3] [M1 M2 M3]. constructor; [done| |auto]. intros Hloc j x Hx Hlx. apply M2; [intros r' Hr'; apply Hloc; by right| |done].
  apply A2; [apply Hloc; by left|done|done].
Qed.
Lemma merged_skip x arr c c' : merged arr c c' -> merged (x :: arr) c c'.
Proof. intros [M1 M2 M3]. constructor; [done| |done]. intros Hloc. apply M2. intros r Hr. apply Hloc. by right. Qed.
Lemma merged_stop i r arr c c1 c2 : slot_added Cleanup i r c c1 -> same_cent c1 c2 -> without i c1 c2 -> merged (Some r :: arr) c c2.
Proof.
  intros [A1 A2 A3 A4] Hs Hwo. constructor; [by eapply linked_but_without| |].
  - intros Hloc j x Hx Hlx. assert (Hr : has (flags r) CF_LOCAL = false) by (apply Hloc; by left). destruct Hwo as [-> _].
    destruct (decide (i = j)) as [<-|]; [|by apply A2]. rewrite (A3 ltac:(done) Hr x Hx) in Hlx. done.
  - intros Hcf j k x y Hne Hx Hy. destruct Hwo as [Hsl _]. rewrite Hsl in Hx, Hy. destruct (decide (i = j)), (decide (i = k)); try done. by apply (A4 Hcf).
Qed.
Lemma add_slots_ok global a arr : forall c i w, sound w -> cents w !! a = Some c -> linked c -> (i + length arr <= NRRTOT)%nat ->
  wp (add_slots malloc_ok clock global a i arr) w (fun _ w' => changed a c w w' (merged arr c)).
Proof.
  induction arr as [|x arr IH]; intros c i w Hs Hc Hl Hi; cbn [add_slots length] in *.
  { apply (wp_unchanged true a c w (fun _ => merged [] c)); try done. }
  destruct x as [r|].
  2:{ eapply wp_mono; [apply (IH c); [done..|lia]|]. intros ? w' Hch. eapply changed_mono; [exact Hch|]. intros c'. apply merged_skip. }
  eapply (wp_changed _ _ _ _ _ (fun res => slot_added res i r c)); [apply add_slot_ok; [done..|lia]|]. intros res c1 w1 A E1 Hc1 Hs1. destruct res.
  - eapply wp_mono; [apply (IH c1); [done|done|apply A|lia]|]. intros ? w' Hch. eapply changed_mono; [exact Hch|]. intros c'. by apply (merged_cons r arr Done i).
  - apply (wp_unchanged false a c1 w1 (fun _ => merged (Some r :: arr) c)); try done. eapply merged_cons; [exact A|]. apply merged_refl, A.
  - apply wp_bind. eapply wp_mono; [by apply (del_ok a c1 i)|]. intros ? w2 [(K & S & c2 & Hc2 & Hsm & _ & _ & Hwo) _]. apply wp_ret.
    split; [done|]. split; [done|]. exists c2. split_and!; try done. by eapply merged_stop.
Qed.
Lemma merged_trans arr c1 c2 c3 : merged arr c1 c2 -> merged arr c2 c3 -> merged arr c1 c3.
Proof. intros [A1 A2 A3] [B1 B2 B3]. constructor; [done| |auto]. intros Hloc j x Hx Hlx. apply B2; [done| |done]. by apply A2. Qed.
Lemma purgeable_local r : has (flags r) CF_LOCAL = true -> purgeable r = false.
Proof. intros H. unfold purgeable. by rewrite H, orb_true_r. Qed.
Lemma kept_merged arr a c c' w w' n : kept false false a c c' w w' n -> merged arr c c'.
Proof.
  intros [K1 K2 K3 K4 K5 K6 K7 K8]. constructor.
  - eapply (wf_linked _ (up_wf _ _ _ _ _ K1)). by apply (updated_at _ _ _ _ _ K1).
  - intros _ j x Hx Hlx. apply K6; [done|]. unfold stays. rewrite purgeable_local by done. done.
  - intros Hcf i j x y Hne Hx Hy. apply (Hcf i j x y Hne); [destruct (K5 i)|destruct (K5 j)]; congruence.
Qed.
(** An entry with other references and flags. *)
Definition same_body (c c' : dns_cent_t) : Prop :=
  body c' = body c /\ has (dflags c') DF_NEGATIVE = has (dflags c) DF_NEGATIVE /\ has (dflags c') DF_LOCAL = has (dflags c) DF_LOCAL /\
  qname c' = qname c /\ cs c' = cs c /\ num_rrs c' = num_rrs c.
Lemma same_body_ok c c' : same_body c c' -> cent_ok c -> cent_ok c' /\ same_cent c c' /\ (forall oi, lent_in c' oi = lent_in c oi) /\ (linked c -> linked c').
Proof.
  intros (E1 & E2 & E3 & E4 & E5 & E6) [C1 C2 C3 C4]. split_and!; try done.
  - constructor; unfold negative, is_neg, slots in *; rewrite ?E1, ?E2, ?E4, ?E5, ?E6; done.
  - intros oi. unfold lent_in. by rewrite E1.
  - intros Hl oi. specialize (Hl oi). unfold linked_at, present, local_in, slot, slots, lent_in, is_neg in *. by rewrite E1, E3.
Qed.
Lemma same_body_slot c c' j : same_body c c' -> slot c' j = slot c j.
Proof. intros (E & _). unfold slot, slots. by rewrite E. Qed.
Lemma has_masked f m b : Z.land m b = 0 -> has (Z.land f m) b = false.
Proof. intros H. unfold has. by rewrite <- Z.land_assoc, H, Z.land_0_r. Qed.
Lemma merge_fields_same n c : same_body c (merge_fields n c).
Proof. unfold same_body, merge_fields. cfields. rewrite !has_lor, !has_masked, !orb_false_r by done. done. Qed.
Lemma merged_same arr c c1 c' : merged arr c c1 -> cent_ok c1 -> same_body c1 c' -> merged arr c c'.
Proof.
  intros [M1 M2 M3] Ho Hs. assert (Hsl := fun j => same_body_slot _ _ j Hs). constructor.
  - by apply (same_body_ok _ _ Hs Ho).
  - intros Hloc j x. rewrite Hsl. by apply M2.
  - intros Hcf i j x y Hne. rewrite !Hsl. by apply M3.
Qed.
(** An entry that was changed while it did not count. *)
Lemma recount a c c' w w1 : wf w -> cents w !! a = Some c -> keeps a (with_size (cache_size w - cs c) w) w1 -> sound w1 -> cents w1 !! a = Some c' ->
  same_cent c c' -> linked c' -> updated a c c' w (with_size (cache_size w1 + cs c') w1).
Proof.
  intros Hw Hc [K1 K2 K3 K4 K5 K6] Hs Hc' Hsm Hl. cbn in *. set (w2 := with_size (cache_size w1 + cs c) w1).
  assert (Hk : keeps a w w2) by (constructor; try done; cbn; lia).
  assert (Hs2 : sound w2) by (destruct Hs as [S1 S2]; constructor; [done|]; by eapply list_same).
  replace (with_size _ w1) with (with_size (cache_size w2 + (cs c' - cs c)) w2) by (unfold w2, with_size; cbn; f_equal; lia).
  constructor; try done; [|by eapply (keeps_cents a w w2 c)]. eapply wf_changed; try done. apply Hsm.
Qed.
Lemma add_to_ok global a c n w : wf w -> cents w !! a = Some c -> cent_ok n ->
  wp (add_to malloc_ok clock global a n) w (fun _ w' => exists c', updated a c c' w w' /\ merged (slots n) c c').
Proof.
  intros Hw Hc Hn. unfold add_to. apply wp_bind. eapply wp_mono; [by apply (purge_cent_ok false false a c)|].
  intros rv w1 [(_ & [=] & _)|(c1 & K)]. pose proof (kept_merged (slots n) _ _ _ _ _ _ K) as M1. destruct K as [U1 _ _ _ _ _ _ _].
  pose proof (updated_at _ _ _ _ _ U1) as Hc1. apply wp_bind. eapply wp_cent_at; [done|]. apply wp_bind, wp_sets. apply wp_bind.
  eapply wp_lift_ret; [by apply RRARR_ok|]. set (w2 := with_size _ w1). pose proof (up_wf _ _ _ _ _ U1) as Hw1.
  assert (Hs2 : sound w2). { destruct (wf_sound _ Hw1) as [S1 S2]. constructor; [done|]. by eapply list_same. }
  assert (Hlen : (0 + length (slots n) <= NRRTOT)%nat).
  { destruct (is_neg n) eqn:E; [unfold slots, is_neg in *; destruct (body n); [cbn; lia|done]|]. destruct (co_len _ Hn E) as [->| ->]; unfold NRRMU, NRRTOT; lia. }
  apply wp_bind. eapply wp_mono; [apply (add_slots_ok global a (slots n) c1 0 w2); [done|done|apply M1|done]|]. intros ok w3 (K3 & S3 & c3 & Hc3 & E3 & M3).
  pose proof (merged_trans _ _ _ _ M1 M3) as M. apply wp_bind. eapply (wp_mono _ _ (fun _ w4 => exists c4, keeps a w2 w4 /\ sound w4 /\
    cents w4 !! a = Some c4 /\ same_cent c1 c4 /\ merged (slots n) c c4)).
  { destruct ok; cbn [when]; [|apply wp_ret; by exists c3]. unfold modify. apply wp_bind. eapply wp_cent_at; [done|]. apply wp_sets.
    pose proof (so_cents _ S3 a c3 Hc3) as Ho3. pose proof (merge_fields_same n c3) as Hsb. destruct (same_body_ok _ _ Hsb Ho3) as (O4 & E4 & L4 & _).
    destruct (changed_put a c3 _ w3 (ticks w3) (fun _ => True) (le_n _) S3 Hc3 O4 E4 L4 I) as (K4 & S4 & c4 & Hc4 & _).
    exists (merge_fields n c3). split; [by eapply keeps_trans|]. split; [done|]. split; [apply lookup_insert_eq|].
    split; [by eapply same_cent_trans|]. by eapply merged_same. }
  intros ? w4 (c4 & K4 & S4 & Hc4 & E4 & M4). apply wp_bind. eapply wp_cent_at; [done|]. apply wp_bind, wp_sets, wp_ret. exists c4. split; [|done].
  eapply updated_trans; [exact U1|]. eapply recount; try done. apply M4.
Qed.

(** ** Copies *)
Definition later (w w' : cache) : Prop := exists n, w' = with_ticks n w /\ (ticks w <= n)%nat.
Lemma later_refl w : later w w.
Proof. exists (ticks w). by rewrite ticks_id. Qed.
Lemma later_trans w1 w2 w3 : later w1 w2 -> later w2 w3 -> later w1 w3.
Proof. intros (n & -> & Hn) (m & -> & Hm). exists m. split; [done|]. cbn in Hm. lia. Qed.
Lemma malloc_later w : wp (malloc malloc_ok) w (fun ok w' => later w w' /\ (ok = true \/ no_memory)).
Proof.
  apply wp_malloc_or. intros b Hb. split; [exists (S (ticks w)); split; [done|lia]|done].
Qed.
(** The next step after one that only took time. *)
Lemma wp_later {A B} (m : prog cache A) (k : A -> prog cache B) w (P : A -> Prop) (R : B -> Prop) : wp m w (fun r w' => later w w' /\ P r) ->
  (forall r w1, P r -> wp (k r) w1 (fun b w2 => later w1 w2 /\ R b)) -> wp (m ≫= k) w (fun b w2 => later w w2 /\ R b).
Proof.
  intros Hm Hk. apply wp_bind. eapply wp_mono; [exact Hm|]. intros r w1 [H1 H2]. eapply wp_mono; [by apply Hk|]. intros b w2 [H3 H4].
  split; [by eapply later_trans|done].
Qed.
Lemma wp_ret_later {A} (r : A) w (R : A -> Prop) : R r -> wp (mret r) w (fun b w2 => later w w2 /\ R b).
Proof. intros H. apply wp_ret. split; [apply later_refl|done]. Qed.
Definition copied_set (r : rr_set_t) : rr_set_t := set_lent None r.
Definition copied (c : dns_cent_t) : dns_cent_t :=
  match body c with Neg _ t s => set_body (Neg None t s) c | RR arr => set_body (RR (map (option_map copied_set) arr)) c end.
Definition result_or {A} (x : A) (o : option A) : Prop := o = Some x \/ o = None /\ no_memory.
Lemma copy_rrs_ok l : forall w, wp (copy_rrs malloc_ok l) w (fun ok w' => later w w' /\ (ok = true \/ no_memory)).
Proof.
  induction l as [|d l IH]; intros w; cbn [copy_rrs]; [apply wp_ret_later; by left|].
  eapply wp_later; [apply malloc_later|]. intros ok w1 Hok. destruct ok; [apply IH|]. apply (wp_ret_later false w1 (fun ok => ok = true \/ no_memory)). by destruct Hok as [[=]|]; right.
Qed.
Lemma copy_rrset_ok r w : wp (copy_rrset malloc_ok r) w (fun o w' => later w w' /\ result_or (copied_set r) o).
Proof.
  unfold copy_rrset. eapply wp_later; [apply malloc_later|]. intros ok w1 Hok. destruct ok; cbn [negb].
  2:{ apply wp_ret_later. destruct Hok as [[=]|]; by right. }
  eapply wp_later; [apply copy_rrs_ok|]. intros ok w2 Hok2. apply wp_ret_later. destruct ok; [by left|]. destruct Hok2 as [[=]|]; by right.
Qed.
Lemma copy_arr_ok arr : forall w, wp (copy_arr malloc_ok arr) w (fun o w' => later w w' /\ result_or (map (option_map copied_set) arr) o).
Proof.
  induction arr as [|[r|] arr IH]; intros w; cbn [copy_arr]; [apply wp_ret_later; by left| |].
  - eapply wp_later; [apply copy_rrset_ok|]. intros o w1 [->|[-> H]]; [|apply wp_ret_later; by right].
    eapply wp_later; [apply IH|]. intros o w2 [->|[-> H]]; apply wp_ret_later; [by left|by right].
  - eapply wp_later; [apply IH|]. intros o w1 [->|[-> H]]; apply wp_ret_later; [by left|by right].
Qed.
Lemma copy_cent_ok c w : cent_ok c -> wp (copy_cent malloc_ok c) w (fun o w' => later w w' /\ result_or (copied c) o).
Proof.
  intros Ho. unfold copy_cent. eapply wp_later; [apply malloc_later|]. intros ok w1 H1. destruct ok; cbn [negb].
  2:{ apply wp_ret_later. destruct H1 as [[=]|]; by right. }
  eapply wp_later; [apply malloc_later|]. intros ok w2 H2. destruct ok; cbn [negb].
  2:{ apply wp_ret_later. destruct H2 as [[=]|]; by right. }
  rewrite (co_tag _ Ho). unfold is_neg, the_neg, copied. destruct (body c) as [l nt ns|arr] eqn:Eb.
  - apply wp_bind. eapply wp_lift_ret; [done|]. apply wp_ret_later. by left.
  - apply wp_bind. eapply wp_lift_ret; [by apply RRARR_ok|]. unfold slots. rewrite Eb.
    eapply (wp_later _ _ _ (fun ok => ok = true \/ no_memory)); [destruct (NRRMU <? length arr)%nat; [apply malloc_later|apply wp_ret_later; by left]|].
    intros ok w3 H3. destruct ok; cbn [negb]; [|apply wp_ret_later; destruct H3 as [[=]|]; by right].
    eapply wp_later; [apply copy_arr_ok|]. intros o w4 [->|[-> H]]; apply wp_ret_later; [by left|by right].
Qed.
Lemma copied_slot c j : slot (copied c) j = copied_set <$> slot c j.
Proof.
  unfold slot, copied, slots. destruct (body c) as [|arr]; [done|]. cbn [body set_body].
  change (map (option_map copied_set) arr) with (option_map copied_set <$> arr). rewrite list_lookup_fmap. by destruct (arr !! j).
Qed.
Lemma copied_lent c oi : lent_in (copied c) oi = None.
Proof.
  destruct oi as [j|]; [rewrite lent_in_slot, copied_slot; by destruct (slot c j)|]. unfold copied, lent_in. by destruct (body c).
Qed.
Lemma copied_arr arr : arr_size (map (option_map copied_set) arr) = arr_size arr /\ arr_count (map (option_map copied_set) arr) = arr_count arr.
Proof. induction arr as [|[r|] arr [IH1 IH2]]; [done| |]; cbn [map arr_size arr_count option_map]; rewrite IH1, IH2; done. Qed.
Lemma copied_ok c : cent_ok c -> cent_ok (copied c).
Proof.
  intros [C1 C2 C3 C4]. unfold copied, is_neg, slots in *. destruct (body c) as [l nt ns|arr] eqn:Eb; [constructor; cfields; done|].
  destruct (copied_arr arr) as [E1 E2]. constructor; cfields; [done| | |].
  - intros _. rewrite length_map. by apply C2.
  - unfold ext_size. rewrite E1, length_map. done.
  - by rewrite E2.
Qed.
Lemma copied_neg c : is_neg (copied c) = is_neg c.
Proof. unfold copied, is_neg. by destruct (body c). Qed.
Lemma copied_fields c : qname (copied c) = qname c /\ cs (copied c) = cs c /\ dflags (copied c) = dflags c /\ length (slots (copied c)) = length (slots c).
Proof. unfold copied, slots. destruct (body c); cfields; [done|]. split_and!; try done. apply length_map. Qed.

(** ** A new entry *)
Definition stored_set global (x y : option rr_set_t) : Prop :=
  match x with Some r => exists id, y = Some (set_lent id (adjust_ttl global r)) | None => y = None end.
Record linked_up global (js : list nat) (ok : bool) (c c' : dns_cent_t) : Prop := {
  lu_neg : is_neg c' = false;
  lu_cs : cs c' = cs c;
  lu_len : length (slots c') = length (slots c);
  lu_memory : ok = true \/ no_memory;
  lu_other : forall j, j ∉ js -> slot c' j = slot c j;
  lu_linked : ok = true -> forall j, j ∈ js -> linked_at c' (Some j);
  lu_stored : ok = true -> forall j, j ∈ js -> stored_set global (slot c j) (slot c' j);
  lu_rest : rest_of c' = rest_of c;
}.
Lemma linked_at_slot c c' j : slot c' j = slot c j -> same_cent c c' -> linked_at c (Some j) -> linked_at c' (Some j).
Proof. intros E [_ Hs] H. unfold linked_at, present, local_in in *. rewrite lent_in_slot in *. by rewrite E, Hs. Qed.
Lemma linked_up_skip global i js ok c c' : slot c i = None -> i ∉ js -> linked_up global js ok c c' -> linked_up global (i :: js) ok c c'.
Proof.
  intros Hn Hi [L1 L2 L3 L4 L5 L6 L7 L8]. assert (Hi' : slot c' i = None) by by rewrite L5. constructor; try done.
  - intros j Hj. apply L5. intros H. apply Hj. by right.
  - intros Hok j [->|Hj]%elem_of_cons; [|by apply L6]. unfold linked_at, present. by rewrite Hi'.
  - intros Hok j [->|Hj]%elem_of_cons; [|by apply L7]. by rewrite Hn, Hi'.
Qed.
(** Slot [i] holds the set [r] of [c] in [c2], in the list; the others follow. *)
Lemma linked_up_cons global i js ok c c2 c' r : i ∉ js -> slot c i = Some r -> same_cent c2 c' -> is_neg c2 = false -> cs c2 = cs c ->
  length (slots c2) = length (slots c) -> linked_at c2 (Some i) -> (forall j, j <> i -> slot c2 j = slot c j) ->
  (exists id, slot c2 i = Some (set_lent id (adjust_ttl global r))) -> rest_of c2 = rest_of c -> linked_up global js ok c2 c' -> linked_up global (i :: js) ok c c'.
Proof.
  intros Hi Hr Hs Hn Hcs Hlen Hl Hsl Hst Hrest [L1 L2 L3 L4 L5 L6 L7 L8]. constructor; try done; try congruence.
  - intros j Hj. rewrite not_elem_of_cons in Hj. destruct Hj as [Hj1 Hj2]. rewrite L5 by done. by apply Hsl.
  - intros Hok j [->|Hj]%elem_of_cons; [|by apply L6]. eapply linked_at_slot; [by apply L5|done..].
  - intros Hok j Hj. destruct (decide (j = i)) as [->|Hne]; [rewrite Hr; cbn; by rewrite L5|].
    apply elem_of_cons in Hj as [->|Hj]; [done|]. rewrite <- Hsl by done. by apply L7.
Qed.
Lemma rest_upd i x c : is_neg c = false -> rest_of (upd i x c) = rest_of c.
Proof. unfold rest_of, is_neg, upd. cbn. by destruct (body c). Qed.
Lemma link_slots_ok global a js : NoDup js -> forall c w, sound w -> cents w !! a = Some c -> is_neg c = false ->
  (forall j, j ∈ js -> (j < length (slots c))%nat /\ lent_in c (Some j) = None) ->
  wp (link_slots malloc_ok global a js) w (fun ok w' => changed a c w w' (linked_up global js ok c)).
Proof.
  induction js as [|i js IH]; intros Hnd c w Hs Hc Hn Hpre; cbn [link_slots].
  { apply wp_unchanged; try done. constructor; try done; [by left|by intros _ ? ?%elem_of_nil..]. }
  apply list_relations.list.NoDup_cons in Hnd as [Hi Hnd]. destruct (Hpre i (list_elem_of_here _ _)) as [Hlt Hle].
  pose proof (so_cents _ Hs a c Hc) as Ho. apply wp_bind. eapply wp_cent_at; [done|]. apply wp_bind. eapply wp_lift_ret; [by apply RRARR_INDEX_ok|].
  assert (Hpre' : forall j, j ∈ js -> (j < length (slots c))%nat /\ lent_in c (Some j) = None) by (intros j Hj; apply Hpre; by right).
  destruct (slot c i) as [r|] eqn:Hr.
  2:{ eapply wp_mono; [by apply IH|]. intros ok w' Hch. eapply changed_mono; [exact Hch|]. intros c'. by apply linked_up_skip. }
  apply wp_bind. eapply wp_lift_ret; [by apply set_slot_ok|].
  eapply (wp_changed _ _ _ _ _ (fun _ c' => c' = upd i (Some (adjust_ttl global r)) c /\ with_slot i (Some (adjust_ttl global r)) c c')).
  { apply wp_sets. by apply adjusted. }
  intros ? c1 w1 [-> A1] E1 Hc1 Hs1. set (c1 := upd i (Some (adjust_ttl global r)) c) in *. pose proof (with_slot_at _ _ _ _ A1) as H1.
  rewrite lent_in_slot, Hr in Hle. cbn in Hle. destruct (adjust_lent global r) as [Ead _].
  eapply wp_changed; [apply (insert_ok a c1 (Some i)); [done|done|]; split; cbn [present]; rewrite ?lent_in_slot, H1; [done|]; cbn; congruence|].
  intros ok c2 w2 Hlink E2 Hc2 Hs2. assert (Hlen1 : length (slots c1) = length (slots c)) by apply length_upd. destruct ok.
  - destruct Hlink as (L1 & L2 & L3 & L4 & L5 & L6 & L7). destruct (L6 i _ H1) as [id Hid].
    assert (Hsl : forall j, j <> i -> slot c2 j = slot c j). { intros j Hj. rewrite L5 by congruence. destruct A1 as [_ ->]. by rewrite decide_False. }
    eapply wp_mono; [apply (IH Hnd c2 w2); [done|done|rewrite L1; apply A1|]|].
    { intros j Hj. rewrite L3, Hlen1, lent_in_slot, Hsl, <- lent_in_slot by (intros ->; done). by apply Hpre'. }
    intros ok w3 (K & S & c3 & Hc3 & E3 & L). split; [done|]. split; [done|]. exists c3. split_and!; try done. eapply (linked_up_cons global i js ok c c2); [done|done|done|rewrite L1; apply A1|by rewrite L2|congruence|done|done|by exists id|rewrite L7; by apply rest_upd|done].
  - destruct Hlink as [-> Hm]. apply (wp_unchanged false a c1 w2 (fun ok => linked_up global (i :: js) ok c)); try done.
    constructor; try done; [by right| |by apply rest_upd]. intros j Hj. destruct A1 as [_ ->]. rewrite decide_False; [done|]. intros ->. apply Hj. by left.
Qed.
Lemma wf_added a c w w' : wf w -> cents w !! a = None -> table w !! canon (qname c) = None -> linked c -> sound w' -> cents w' = <[a := c]> (cents w) ->
  table w' = <[canon (qname c) := a]> (table w) -> ent_num w' = ent_num w + 1 -> cache_size w' = cache_size w + cs c -> wf w'.
Proof.
  intros [W1 W2 W3 W4 W5] Ha Ht Hl Hs Ec Et En Es. constructor; [done| | | |].
  - intros b x. rewrite Ec. intros [[<- <-]|[_ Hb]]%lookup_insert_Some; [done|by eapply W2].
  - intros k b. rewrite Et, Ec, lookup_insert_Some, W3. split.
    + intros [[<- <-]|[Hk (x & Hb & Hx)]]; [exists c; by rewrite lookup_insert_eq|]. exists x. split; [|done]. rewrite lookup_insert_ne; [done|]. intros ->. congruence.
    + intros (x & [[<- <-]|[Hne Hb]]%lookup_insert_Some & Hk); [by left|right]. split; [|eauto]. intros Hk'.
      assert (H : table w !! canon (qname c) = Some b) by (apply W3; exists x; split; [done|congruence]). congruence.
  - rewrite Es, W4, Ec, total_insert by done. lia.
  - rewrite En, W5, Ec, map_size_insert_None by done. lia.
Qed.
Lemma sound_new a c w : sound w -> cents w !! a = None -> cent_ok c -> (forall oi, lent_in c oi = None) -> sound (with_cents (<[a := c]> (cents w)) w).
Proof.
  intros [S1 S2] Ha Ho Hl. constructor.
  - cbn. intros b x [[<- <-]|[_ Hb]]%lookup_insert_Some; [done|by eapply S1].
  - eapply list_same; [exact S2|done| |done]. intros b oi. rewrite lent_at_put. destruct (decide (b = a)) as [->|]; [|done]. rewrite Hl. unfold lent_at. by rewrite Ha.
Qed.
(** What the cache keeps of an entry that is added. *)
Record stored global (c c' : dns_cent_t) : Prop := {
  st_neg : is_neg c' = is_neg c;
  st_cs : cs c' = cs c;
  st_slot : forall j, stored_set global (slot c j) (slot c' j);
  st_rest : exists c1, (if is_neg c then adjust_dom_ttl global c else Ret c) = Ret c1 /\ rest_of c' = rest_of c1;
}.
Definition linked_in global (ok : bool) (c c' : dns_cent_t) : Prop := (ok = true \/ no_memory) /\ (ok = true -> linked c' /\ stored global c c').
Lemma adjust_dom_ok global c : cent_ok c -> is_neg c = true -> exists c', adjust_dom_ttl global c = Ret c' /\ cent_ok c' /\ same_cent c c' /\
  (forall oi, lent_in c' oi = lent_in c oi) /\ is_neg c' = true /\ cs c' = cs c.
Proof.
  intros [C1 C2 C3 C4] Hn. unfold adjust_dom_ttl, the_neg, slots, is_neg, lent_in in *. destruct (body c) as [l nt ns|] eqn:Eb; [|done]. cbn [mbind].
  eexists. split; [done|]. unfold negative in C1. destruct (has (dflags c) DF_NOCACHE).
  - split; [|split; [split; [done|by apply has_clear]|by repeat split; intros [|]]].
    constructor; cfields; unfold negative; cfields; rewrite ?has_clear by done; done.
  - split; [|split; [done|by repeat split; intros [|]]]. constructor; cfields; done.
Qed.
Lemma link_all_ok global a c w : sound w -> cents w !! a = Some c -> (forall oi, lent_in c oi = None) ->
  wp (if negative c then ce ← lift (adjust_dom_ttl global c); _ ← put a ce; insert_rrl malloc_ok a None
      else arr ← lift (RRARR c); link_slots malloc_ok global a (seq 0 (length arr))) w
    (fun ok w' => changed a c w w' (linked_in global ok c)).
Proof.
  intros Hs Hc Hl. pose proof (so_cents _ Hs a c Hc) as Ho. rewrite (co_tag _ Ho). destruct (is_neg c) eqn:Hn.
  - destruct (adjust_dom_ok global c Ho Hn) as (c1 & E & O1 & S1 & L1 & N1 & Z1). apply wp_bind. eapply wp_lift_ret; [done|].
    eapply (wp_changed _ _ _ _ _ (fun _ c' => c' = c1)). { apply wp_sets. by apply (changed_put a c c1 w (ticks w)). }
    intros ? c' w1 -> _ Hc1 Hs1. eapply wp_mono; [apply (insert_ok a c1 None); [done|done|split; [done|by rewrite L1]]|].
    intros ok w2 Hch. eapply changed_mono; [exact Hch|]. intros c2. destruct ok; [|intros [-> Hm]; split; [by right|done]].
    intros (K1 & K2 & _ & K4 & _ & _ & K7). rewrite N1 in K1. split; [by left|]. intros _. split; [|constructor; [congruence|congruence| |rewrite Hn; by exists c1]].
    + intros [j|]; [|done]. unfold linked_at, present. by rewrite neg_slot.
    + intros j. rewrite !neg_slot; done.
  - apply wp_bind. eapply wp_lift_ret; [by apply RRARR_ok|]. eapply wp_mono; [apply (link_slots_ok global a _ (NoDup_seq _ _) c w); try done|].
    { intros j Hj%elem_of_seq. split; [lia|done]. }
    intros ok w' Hch. eapply changed_mono; [exact Hch|]. intros c' [U1 U2 U3 U4 U5 U6 U7 U8]. split; [done|]. intros Hok. split; [|constructor; try congruence; [|rewrite Hn; by exists c]].
    + intros [j|]; [|unfold linked_at, present; by rewrite U1]. destruct (slot c' j) as [r|] eqn:Hr; [|unfold linked_at, present; by rewrite Hr].
      apply U6; [done|]. apply elem_of_seq. apply slot_lt in Hr. lia.
    + intros j. destruct (decide (j < length (slots c))%nat); [apply U7; [done|apply elem_of_seq; lia]|].
      unfold slot. rewrite !lookup_ge_None_2 by lia. done.
Qed.
Lemma copied_rest global c (R : _ -> Prop) : (exists c1, (if is_neg (copied c) then adjust_dom_ttl global (copied c) else Ret (copied c)) = Ret c1 /\ R (rest_of c1)) ->
  exists c1, (if is_neg c then adjust_dom_ttl global c else Ret c) = Ret c1 /\ R (rest_of c1).
Proof.
  rewrite copied_neg. unfold copied, is_neg, adjust_dom_ttl, the_neg. destruct (body c) as [l t s|arr] eqn:Eb; cbn.
  - intros (c1 & [= <-] & H). eexists. split; [done|]. by destruct (has (dflags c) DF_NOCACHE).
  - intros (c1 & [= <-] & H). exists c. split; [done|]. unfold rest_of in *. cbn in H. by rewrite Eb.
Qed.
Lemma stored_copied global c c' : stored global (copied c) c' -> stored global c c'.
Proof.
  intros [S1 S2 S3 S4]. constructor; [by rewrite S1, copied_neg|destruct (copied_fields c) as (_ & <- & _); done| |by apply (copied_rest global c (fun r => rest_of c' = r))]. intros j. specialize (S3 j).
  rewrite copied_slot in S3. destruct (slot c j) as [r|]; [|done]. destruct S3 as [id ->]. exists id. f_equal. unfold adjust_ttl. cbn [flags copied_set set_lent ttl].
  destruct (has (flags r) CF_NOCACHE); [done|]. destruct (ttl r <? _); [done|]. by destruct (max_ttl global <? ttl r).
Qed.
(** After [add_new]: the entry is in the cache, or memory ran out and it is as before. *)
Definition new_entry global (c : dns_cent_t) (ok : bool) (w w' : cache) : Prop :=
  if ok then exists a c', cents w !! a = None /\ cents w' = <[a := c']> (cents w) /\ table w' = <[canon (qname c) := a]> (table w) /\
    cache_size w' = cache_size w + cs c /\ qname c' = qname c /\ stored global c c'
  else no_memory /\ cents w' = cents w /\ table w' = table w.
Lemma discard_ok a c w w1 : wf w -> cents w !! a = None -> cents w1 !! a = Some c -> keeps a w w1 -> sound w1 ->
  wp (ce ← cent_at a; _ ← free_cent ce; _ ← sets (fun w => with_cents (delete a (cents w)) w); mret false) w1
    (fun ok w' => ok = false /\ wf w' /\ insert_sort w' = insert_sort w /\ cents w' = cents w /\ table w' = table w).
Proof.
  intros Hw Ha Hc [K1 K2 K3 K4 K5 K6] Hs. apply wp_bind. eapply wp_cent_at; [done|]. apply wp_bind. eapply wp_mono; [by apply (free_cent_ok w1 a c)|].
  intros ? w2 ->. apply wp_bind, wp_sets, wp_ret. assert (Ec : delete a (cents w1) = cents w).
  { apply map_eq. intros b. destruct (decide (b = a)) as [->|]; [by rewrite lookup_delete_eq|]. rewrite lookup_delete_ne by done. by apply K5. }
  split; [done|]. split; [|by cbn]. destruct Hw as [W1 W2 W3 W4 W5]. constructor; cbn; rewrite ?Ec, ?K1, ?K2, ?K4; try done.
  destruct Hs as [S1 S2]. constructor; [apply W1|]. by eapply (list_forget w1).
Qed.
Lemma add_new_ok global c w : wf w -> cent_ok c -> table w !! canon (qname c) = None ->
  wp (add_new malloc_ok global c) w (fun ok w' => wf w' /\ insert_sort w' = insert_sort w /\ new_entry global c ok w w').
Proof.
  intros Hw Ho Ht. unfold add_new. apply wp_bind. eapply wp_mono; [by apply copy_cent_ok|]. intros o w1 [(n & -> & Hn) [->|[-> Hm]]].
  2:{ apply wp_ret. split; [by apply wf_ticks|done]. }
  apply (wf_ticks n) in Hw as Hw1. set (w1 := with_ticks n w) in *. apply wp_bind, wp_gets. set (a := fresh (dom (cents w1))).
  assert (Ha : cents w1 !! a = None) by (apply not_elem_of_dom, is_fresh). apply wp_bind, wp_sets.
  pose proof (sound_new a _ w1 (wf_sound _ Hw1) Ha (copied_ok c Ho) (copied_lent c)) as S2. set (w2 := with_cents _ w1) in *.
  assert (K2 : keeps a w1 w2) by (constructor; try done; intros b Hb; by apply lookup_insert_ne).
  apply wp_bind. eapply wp_mono; [apply (link_all_ok global a (copied c) w2); [done|apply lookup_insert_eq|apply copied_lent]|].
  intros ok w3 (K3 & S3 & c3 & Hc3 & [Q3 _] & Hm & Hin). pose proof (keeps_trans _ _ _ _ K2 K3) as K. destruct (copied_fields c) as (Q & _). rewrite Q in Q3.
  assert (Hdrop : no_memory -> forall m, (ticks w3 <= m)%nat -> wp (ce ← cent_at a; _ ← free_cent ce; _ ← sets (fun w => with_cents (delete a (cents w)) w); mret false)
    (with_ticks m w3) (fun ok w' => wf w' /\ insert_sort w' = insert_sort w /\ new_entry global c ok w w')).
  { intros Hno m Hle. eapply wp_mono; [eapply (discard_ok a c3 w1); [done|done|exact Hc3| |by apply sound_ticks]|].
    - destruct K as [? ? ? ? ? Hk]. constructor; try done. by etransitivity; [exact Hk|].
    - intros ok' w' (-> & V1 & V2 & V3 & V4). by split_and!. }
  apply wp_bind. destruct ok.
  2:{ apply wp_ret. destruct Hm as [[=]|Hm]. specialize (Hdrop Hm (ticks w3) (le_n _)). by rewrite ticks_id in Hdrop. }
  destruct (Hin eq_refl) as [Hl Hst%stored_copied]. unfold add_dns_hash. apply wp_bind. eapply wp_cent_at; [done|]. apply wp_bind, wp_malloc_or. intros ok Hok.
  destruct ok; cbn [negb]; [|apply wp_ret; destruct Hok as [[=]|Hok]; apply Hdrop; [done|lia]].
  apply wp_bind, wp_sets, wp_ret, wp_bind, wp_sets, wp_bind. eapply wp_cent_at; [exact Hc3|]. apply wp_bind, wp_sets, wp_ret.
  destruct K as [K1 K2' K3' K4 K5 K6]. rewrite Q3. assert (Ec : cents w3 = <[a := c3]> (cents w)).
  { apply map_eq. intros b. destruct (decide (b = a)) as [->|]; [by rewrite lookup_insert_eq|]. rewrite lookup_insert_ne by done. by apply K5. }
  split; [|split; [done|exists a, c3]].
  - eapply (wf_added a c3 w1); try done; rewrite ?Q3; cbn; rewrite ?K1, ?K2', ?K4; try done. destruct S3 as [S3 S3']. constructor; [done|]. by eapply list_same.
  - split_and!; try done; cbn; rewrite ?K1, ?K4, ?(st_cs _ _ _ Hst); done.
Qed.

(** ** The operations *)
Definition good (w : cache) : Prop := wf w /\ insert_sort w = true.
Lemma good_later w w' : good w -> later w w' -> good w'.
Proof. intros [H1 H2] (n & -> & _). split; [by apply wf_ticks|done]. Qed.
Lemma good_updated a c c' w w' : good w -> updated a c c' w w' -> good w'.
Proof. intros [_ H] U. split; [apply U|]. by rewrite (up_sort _ _ _ _ _ U). Qed.
Lemma good_forgotten a c w w' : good w -> forgotten a c w w' -> good w'.
Proof. intros [_ H] F. split; [apply F|]. by rewrite (fg_sort _ _ _ _ F). Qed.
Lemma purge_good sz lazy w : good w -> wp (purge_cache clock sz lazy) w (fun _ w' => good w').
Proof. intros [H1 H2]. eapply wp_mono; [by apply purge_cache_ok|]. by intros ? w' (? & ? & _). Qed.
Lemma lookup_found w name a : wf w -> table w !! canon name = Some a -> exists c, cents w !! a = Some c /\ cent_ok c /\ canon (qname c) = canon name.
Proof. intros Hw (c & Hc & E)%(wf_table _ Hw). exists c. split_and!; try done. by apply (so_cents _ (wf_sound _ Hw) a). Qed.
Lemma add_absent_ok global fuel c w : good w -> cent_ok c -> table w !! canon (qname c) = None ->
  wp (add_cache_loop malloc_ok clock global (S fuel) c) w (fun _ w' => good w').
Proof.
  intros Hg Ho Ht. cbn [add_cache_loop]. unfold dns_lookup. apply wp_bind, wp_gets. rewrite Ht.
  destruct ((num_rrs c =? 0) && negb (negative c)); [by apply purge_good|]. apply wp_bind. destruct Hg as [Hw Hs].
  eapply wp_mono; [by apply add_new_ok|]. intros ok w1 (W1 & W2 & _). assert (good w1) by (split; congruence). destruct ok; [by apply purge_good|by apply wp_ret].
Qed.
Lemma has_local_ok c : cent_ok c -> exists b, has_local c = Ret b.
Proof. intros Ho. unfold has_local. rewrite RRARR_ok by done. by eexists. Qed.
Lemma add_cache_ok global c w : good w -> cent_ok c -> wp (add_cache malloc_ok clock global c) w (fun _ w' => good w').
Proof.
  intros Hg Ho. unfold add_cache. destruct (table w !! canon (qname c)) as [a|] eqn:Ht; [|by apply add_absent_ok].
  destruct (lookup_found _ _ _ (proj1 Hg) Ht) as (ce & Hc & Hoc & Eq). remember 1%nat as one. cbn [add_cache_loop]. unfold dns_lookup. apply wp_bind, wp_gets. rewrite Ht. destruct (negative c).
  - apply wp_bind. eapply wp_cent_at; [done|]. destruct (has_local_ok ce Hoc) as [b Hb]. apply wp_bind. eapply wp_lift_ret; [done|].
    destruct b; [by apply wp_ret|]. apply wp_bind. eapply wp_mono; [by apply (del_ent_ok a ce), Hc; apply Hg|]. intros ? w1 F. subst one.
    apply add_absent_ok; [by apply (good_forgotten a ce w)|done|]. rewrite (fg_table _ _ _ _ F), Eq. apply lookup_delete_eq.
  - apply wp_bind. eapply wp_mono; [apply (add_to_ok global a ce c); [apply Hg|done|done]|]. intros ok w1 (c' & U & _).
    apply (good_updated _ _ _ _ _ Hg) in U. destruct ok; [by apply purge_good|by apply wp_ret].
Qed.
Lemma del_cache_ok name w : good w -> wp (del_cache name) w (fun _ w' => good w' /\ table w' = delete (canon name) (table w) /\
  (forall b, table w !! canon name <> Some b -> cents w' !! b = cents w !! b)).
Proof.
  intros Hg. unfold del_cache, del_dns_hash, dns_lookup. apply wp_bind, wp_bind, wp_gets, wp_bind, wp_sets, wp_ret.
  destruct (table w !! canon name) as [a|] eqn:Ht.
  - destruct (lookup_found _ _ _ (proj1 Hg) Ht) as (c & Hc & _ & Eq). eapply wp_mono; [apply (del_cent_ok a c _ w); [apply Hg|done|by rewrite Eq]|].
    intros ? w' F. split; [by apply (good_forgotten a c w)|]. rewrite (fg_table _ _ _ _ F), (fg_cents _ _ _ _ F), Eq. split; [done|]. intros b Hb.
    apply lookup_delete_ne. congruence.
  - apply wp_ret. rewrite delete_id by done. split_and!; try done; by destruct w.
Qed.
(** *** Looking up *)
Definition found (w : cache) (o : option Z) : Prop := match o with Some a => exists c, cents w !! a = Some c | None => True end.
Lemma lookup_wp name w (Q : option Z -> cache -> Prop) : wf w -> (forall o, found w o -> o = table w !! canon name -> Q o w) -> wp (dns_lookup name) w Q.
Proof.
  intros Hw H. unfold dns_lookup. apply wp_gets, H; [|done]. destruct (table w !! canon name) as [a|] eqn:Et; [|done].
  destruct (lookup_found _ _ _ Hw Et) as (c & Hc & _). by exists c.
Qed.
Lemma search_up_ok nm w : wf w -> wp (search_up nm) w (fun '(o, _) w' => w' = w /\ found w o).
Proof.
  intros Hw. induction nm as [|l nm IH]; cbn [search_up]; [by apply wp_ret|]. apply wp_bind, lookup_wp; [done|]. intros [a|] Ha _; [|apply IH].
  destruct Ha as [c Hc]. apply wp_bind. eapply wp_cent_at; [done|]. destruct (negative c); [apply wp_ret; split; [done|by exists c]|].
  destruct (has (dflags c) DF_WILD); [|destruct (has (dflags c) DF_LOCAL); apply wp_ret; (split; [done|]); [by exists c|done]].
  apply wp_bind, lookup_wp; [done|]. intros o Hf _. by apply wp_ret.
Qed.
Lemma find_entry_ok name wild w : wf w ->
  wp (find_entry name wild) w (fun '(o, _) w' => w' = w /\ found w o /\ (forall a, table w !! canon name = Some a -> o = Some a)).
Proof.
  intros Hw. unfold find_entry. apply wp_bind, lookup_wp; [done|]. intros [a|] Ha Et; [apply wp_ret; split_and!; congruence|]. rewrite <- Et. destruct wild.
  - eapply wp_mono; [by apply search_up_ok|]. intros [o wl] w' [-> H]. done.
  - by apply wp_ret.
Qed.
Definition in_table (type : Z) : Prop := 0 <= type - T_MIN < zlen rrlkuptab.
Lemma rrlkuptab_ok type : in_table type -> exists i, rrlkuptab !! Z.to_nat (type - T_MIN) = Some i.
Proof. intros [H1 H2]. apply lookup_lt_is_Some_2. apply Nat2Z.inj_lt. by rewrite Z2Nat.id. Qed.
Lemma getlocalowner_ok nm type w : in_table type -> wf w -> wp (getlocalowner_loop nm type) w (fun _ w' => w' = w).
Proof.
  intros Hty Hw. induction nm as [|l nm IH]; cbn [getlocalowner_loop]; [by apply wp_ret|]. apply wp_bind, lookup_wp; [done|]. intros [a|] Ha _; [|apply IH].
  destruct Ha as [c Hc]. apply wp_bind. eapply wp_cent_at; [done|]. destruct (has (dflags c) DF_LOCAL); cbn [negb]; [|by apply wp_ret].
  apply wp_bind. assert (Hh : exists b, have_rr c type = Ret b).
  { unfold have_rr. destruct (negative c); [by eexists|]. destruct (rrlkuptab_ok type Hty) as [i Hi].
    assert (E : getrrset_eff c type = RRARR_INDEX_TESTEXT c i) by (unfold getrrset_eff, assert; by rewrite (proj2 (Z.leb_le _ _) (proj1 Hty)), Hi).
    rewrite E, RRARR_TESTEXT_ok by by apply (so_cents _ (wf_sound _ Hw) a). by eexists. }
  destruct Hh as [b Hb]. eapply wp_lift_ret; [done|]. destruct b; [by apply wp_ret|done].
Qed.
Lemma lookup_local_ok name type w : wf w -> wp (lookup_cache_local_rrset malloc_ok name type) w (fun _ w' => later w w').
Proof.
  intros Hw. unfold lookup_cache_local_rrset. apply wp_bind, lookup_wp; [done|]. intros [a|] Ha _; [|apply wp_ret, later_refl].
  destruct Ha as [c Hc]. apply wp_bind. eapply wp_cent_at; [done|]. apply wp_bind.
  assert (Hx : exists x, getrrset c type = Ret x).
  { unfold getrrset. destruct (negative c); [by eexists|]. destruct (_ && _) eqn:E; [|by eexists]. apply andb_true_iff in E as [E1%Z.leb_le E2%Z.ltb_lt].
    destruct (rrlkuptab_ok type) as [i Hi]; [done|]. rewrite Hi. cbn [mbind].
    eexists. apply RRARR_TESTEXT_ok. by apply (so_cents _ (wf_sound _ Hw) a). }
  destruct Hx as [x Hx]. eapply wp_lift_ret; [done|]. destruct x as [r|]; [|apply wp_ret, later_refl].
  destruct (has (flags r) CF_LOCAL); [|apply wp_ret, later_refl]. eapply wp_mono; [apply copy_rrset_ok|]. by intros o w' [H _].
Qed.
Definition fresh_copy (n : nat) (c : dns_cent_t) : Prop := all_fresh n c /\ neg_fresh n c.
Lemma fresh_copied n c : fresh_copy n c -> fresh_copy n (copied c).
Proof.
  intros [H1 H2]. split.
  - intros j r. rewrite copied_slot. destruct (slot c j) as [x|] eqn:Hx; [|done]. cbn. intros [= <-]. apply (H1 j x Hx).
  - intros l nt ns Eb. destruct (copied_fields c) as (_ & _ & -> & _). unfold copied in Eb. destruct (body c) as [l' nt' ns'|] eqn:E; [|done].
    cbn in Eb. injection Eb as _ <- <-. by apply (H2 l' nt' ns').
Qed.
(** The sets that cannot time out are in the answer. *)
Definition answers (w : cache) (name : list (list Z)) (o : option dns_cent_t) : Prop :=
  forall a c, table w !! canon name = Some a -> cents w !! a = Some c -> (forall j r, slot c j = Some r -> stays r) -> (exists j r, slot c j = Some r) ->
    no_memory \/ exists c', o = Some c' /\ qname c' = qname c /\ forall j, slot c' j = copied_set <$> slot c j.
Lemma answers_kept del test a c c' w w' n name o : kept del test a c c' w w' n -> cents w !! a = Some c ->
  (forall b, table w !! canon name = Some b -> b = a) -> result_or (copied c') o -> answers w name o.
Proof.
  intros [U K2 K3 K4 K5 K6 K7 K8] Hc Ha Hres b x Hb Hx Hst _. apply Ha in Hb as ->. rewrite Hc in Hx. injection Hx as <-. destruct Hres as [->|[-> Hm]]; [right|by left].
  destruct (copied_fields c') as (Q & _). exists (copied c'). split; [done|]. split; [rewrite Q; apply (up_same _ _ _ _ _ U)|]. intros j. rewrite copied_slot. f_equal.
  destruct (slot c j) as [r|] eqn:Hr; [by apply K6, (Hst j)|]. destruct (K5 j); congruence.
Qed.
Lemma answers_gone a c w name (o : option dns_cent_t) : cents w !! a = Some c -> (forall b, table w !! canon name = Some b -> b = a) ->
  (forall j r, slot c j = Some r -> ~ stays r) -> answers w name o.
Proof. intros Hc Ha Hno b x Hb Hx Hst (j & r & Hr). apply Ha in Hb as ->. rewrite Hc in Hx. injection Hx as <-. destruct (Hno j r Hr). by apply (Hst j). Qed.
Lemma found_other w name o : (forall a, table w !! canon name = Some a -> o = Some a) -> forall a, o = Some a -> forall b, table w !! canon name = Some b -> b = a.
Proof. intros H a -> b Hb. specialize (H b Hb). congruence. Qed.
Lemma copy_kept del test a c c' w w' n name : kept del test a c c' w w' n -> del = true -> (test = true -> n = 0) -> cents w !! a = Some c -> good w ->
  (forall b, table w !! canon name = Some b -> b = a) ->
  wp (copy_cent malloc_ok c') w' (fun o w'' => good w'' /\ (ticks w <= ticks w'')%nat /\ (forall x, o = Some x -> fresh_copy (ticks w) x) /\ answers w name o).
Proof.
  intros K Hdel Ht Hc Hg Ha. pose proof (kt_up _ _ _ _ _ _ _ _ K) as U. pose proof (updated_at _ _ _ _ _ U) as Hc'. 
  eapply wp_mono; [apply copy_cent_ok; by apply (so_cents _ (wf_sound _ (up_wf _ _ _ _ _ U)) a)|]. intros o w'' [Hl Hres].
  split; [eapply good_later; [by eapply good_updated|done]|].
  split; [destruct Hl as (m & -> & Hm); pose proof (up_ticks _ _ _ _ _ U); cbn; lia|]. split; [|by eapply answers_kept]. intros x ->. destruct Hres as [[= ->]|[[=] _]].
  apply fresh_copied. split; [by apply (kt_fresh _ _ _ _ _ _ _ _ K)|by apply (kt_nfresh _ _ _ _ _ _ _ _ K)].
Qed.
Lemma lookup_read_ok name wild w : good w -> wp (lookup_read malloc_ok clock name wild) w (fun '(o, _, p) w' => good w' /\ (ticks w <= ticks w')%nat /\
  (forall c, o = Some c -> fresh_copy (ticks w) c) /\ (p = false -> answers w name o) /\ (p = true -> cents w' = cents w /\ table w' = table w)).
Proof.
  intros Hg. unfold lookup_read. apply wp_bind. eapply wp_mono; [apply find_entry_ok, Hg|]. intros [o wl] w' (-> & Hf & Ho).
  destruct o as [a|]; [|apply wp_ret; split_and!; try done; intros _ a c Ha; by specialize (Ho a Ha)].
  destruct Hf as [c Hc]. pose proof (found_other _ _ _ Ho a eq_refl) as Ha. apply wp_bind. eapply wp_mono; [apply (purge_cent_ok true true a c); [apply Hg|done]|].
  assert (Hend : forall c' w1, updated a c c' w w1 -> c' = c -> cents w1 = cents w /\ table w1 = table w).
  { intros c' w1 [_ _ U3 _ U5 _] ->. split; [by rewrite U5, insert_id|done]. }
  intros n w1 [(-> & _ & Hno & U)|(c1 & K)].
  - cbn [Z.eqb]. apply wp_ret. split; [by eapply good_updated|]. split_and!; try done; [apply U|intros _; by eapply Hend].
  - pose proof (kt_up _ _ _ _ _ _ _ _ K) as U. destruct (Z.eqb_spec n 0) as [->|Hn].
    2:{ apply wp_ret. split; [by eapply good_updated|]. pose proof (kt_test _ _ _ _ _ _ _ _ K eq_refl) as E. split_and!; try done; [apply U|intros _; by eapply Hend]. }
    apply wp_bind. eapply wp_cent_at; [by apply (updated_at _ _ _ _ _ U)|]. apply wp_bind. eapply wp_mono; [by eapply copy_kept|].
    intros o w2 (G1 & G2 & G3 & G4). by apply wp_ret.
Qed.
Lemma lookup_purge_ok name wild w : good w -> wp (lookup_purge malloc_ok clock name wild) w (fun '(o, _) w' => good w' /\ (ticks w <= ticks w')%nat /\
  (forall c, o = Some c -> fresh_copy (ticks w) c) /\ answers w name o).
Proof.
  intros Hg. unfold lookup_purge. apply wp_bind. eapply wp_mono; [apply find_entry_ok, Hg|]. intros [o wl] w' (-> & Hf & Ho).
  destruct o as [a|]; [|apply wp_ret; split_and!; try done; intros a c Ha; by specialize (Ho a Ha)].
  destruct Hf as [c Hc]. pose proof (found_other _ _ _ Ho a eq_refl) as Ha. apply wp_bind. eapply wp_mono; [apply (purge_cent_ok true false a c); [apply Hg|done]|].
  intros n w1 [(-> & _ & Hno & c1 & w2 & U & F)|(c1 & K)].
  - cbn [Z.ltb]. apply wp_ret. split; [eapply good_forgotten; [by eapply good_updated|done]|].
    split; [rewrite (fg_ticks _ _ _ _ F); apply U|]. split; [done|]. by eapply answers_gone.
  - pose proof (kt_up _ _ _ _ _ _ _ _ K) as U. destruct (Z.ltb_spec n 0) as [Hn|_]; [pose proof (kt_n _ _ _ _ _ _ _ _ K); lia|].
    apply wp_bind. eapply wp_cent_at; [by apply (updated_at _ _ _ _ _ U)|]. apply wp_bind. eapply wp_mono; [by eapply copy_kept|].
    intros o w2 (G1 & G2 & G3 & G4). by apply wp_ret.
Qed.
Lemma lookup_cache_ok name wild w : good w -> wp (lookup_cache malloc_ok clock name wild) w (fun '(o, _) w' => good w' /\
  (forall c, o = Some c -> fresh_copy (ticks w) c) /\ answers w name o).
Proof.
  intros Hg. unfold lookup_cache. apply wp_bind. eapply wp_mono; [by apply lookup_read_ok|]. intros [[o wl] p] w1 (G1 & G2 & G3 & G4 & G5).
  destruct p; [|apply wp_ret; auto]. destruct (G5 eq_refl) as [E1 E2]. eapply wp_mono; [by apply lookup_purge_ok|].
  intros [o' wl'] w2 (K1 & K2 & K3 & K4). split; [done|]. unfold answers in *. rewrite E1, E2 in K4. split; [|done].
  intros c Hc. destruct (K3 c Hc) as [F1 F2]. split.
  - intros j r Hr. eapply fresh_since_le; [exact G2|]. by apply (F1 j).
  - intros l nt ns Eb. destruct (F2 l nt ns Eb) as [?|(t & Ht & ?)]; [by left|right; exists t]. split; [lia|done].
Qed.
(** *** Changes of the flags and time stamps *)
Lemma invalidate_ok c : cent_ok c -> exists c', invalidate_cent c = Ret c' /\ cent_ok c' /\ same_cent c c' /\ is_neg c' = is_neg c /\
  (forall oi, lent_in c' oi = lent_in c oi) /\ (linked c -> linked c') /\ cs c' = cs c.
Proof.
  intros Ho. pose proof Ho as [C1 C2 C3 C4]. unfold invalidate_cent. rewrite C1. unfold is_neg, the_neg in *. destruct (body c) as [l nt ns|arr] eqn:Eb; cbn [mbind].
  - eexists. split; [done|]. split; [|split; [split; [done|by apply has_clear]|split_and!; try done]].
    + unfold slots in *. rewrite Eb in *. constructor; cfields; try done. unfold negative. cfields. by rewrite has_clear.
    + intros [j|]; cbn; by rewrite Eb.
    + intros Hl oi. specialize (Hl oi). unfold linked_at, present, local_in, slot, slots, lent_in, is_neg in *. cfields. rewrite Eb in Hl. by rewrite has_clear.
  - rewrite RRARR_ok by done. unfold slots in *. rewrite Eb in *. cbn [mbind]. eexists. split; [done|].
    set (c' := set_flags _ _). assert (Hsl : forall j, slot c' j = invalidate_rrset <$> slot c j).
    { intros j. unfold slot, slots, c'. cfields. rewrite Eb. change (map (option_map invalidate_rrset) arr) with (option_map invalidate_rrset <$> arr).
      rewrite list_lookup_fmap. by destruct (arr !! j). }
    assert (Harr : arr_size (map (option_map invalidate_rrset) arr) = arr_size arr /\ arr_count (map (option_map invalidate_rrset) arr) = arr_count arr).
    { clear. induction arr as [|[r|] arr [IH1 IH2]]; [done| |]; cbn [map arr_size arr_count option_map]; rewrite IH1, IH2; done. }
    assert (Hl : forall oi, lent_in c' oi = lent_in c oi).
    { intros [j|]; [rewrite !lent_in_slot, Hsl; by destruct (slot c j)|]. cbn. by rewrite Eb. }
    assert (Hd : has (dflags c') DF_LOCAL = has (dflags c) DF_LOCAL) by by apply has_clear.
    split; [|split; [done|split; [done|split; [done|split; [|done]]]]].
    + destruct Harr as [E1 E2]. unfold c'. constructor; cfields; [unfold negative; cfields; by rewrite has_clear|intros _; rewrite length_map; by apply C2| |by rewrite E2].
      unfold ext_size. rewrite E1, length_map. done.
    + intros Hk oi. specialize (Hk oi). unfold linked_at, local_in in *. rewrite Hl, Hd. destruct oi as [j|]; [|done]. cbn [present] in *. rewrite Hsl.
      destruct (slot c j) as [r|]; [|done]. cbn [fmap option_fmap option_map invalidate_rrset flags]. by rewrite has_clear.
Qed.
Lemma invalidate_record_ok name w : good w -> wp (invalidate_record name) w (fun _ w' => good w').
Proof.
  intros Hg. unfold invalidate_record. apply wp_bind, lookup_wp; [apply Hg|]. intros [a|] Ha _; [|by apply wp_ret]. destruct Ha as [c Hc].
  eapply wp_on; [done|]. destruct (invalidate_ok c) as (c' & E & O & S & N & L & K & Z); [by apply (so_cents _ (wf_sound _ (proj1 Hg)) a)|].
  apply wp_bind. eapply wp_lift_ret; [done|]. apply wp_ret. eapply good_updated; [done|]. apply (put_same_size a c c'); try done; [apply Hg|].
  apply K. by apply (wf_linked _ (proj1 Hg) a).
Qed.
Lemma set_cent_flags_ok name fl w : has fl DF_NEGATIVE = false -> has fl DF_LOCAL = false -> good w -> wp (set_cent_flags name fl) w (fun _ w' => good w').
Proof.
  intros F1 F2 Hg. unfold set_cent_flags. apply wp_bind, lookup_wp; [apply Hg|]. intros [a|] Ha _; [|by apply wp_ret]. destruct Ha as [c Hc].
  unfold modify. apply wp_bind, wp_bind. eapply wp_cent_at; [done|]. apply wp_sets, wp_ret.
  assert (Hs : same_body c (set_flags (Z.lor (dflags c) fl) c)) by (unfold same_body; cfields; rewrite !has_lor, F1, F2, !orb_false_r; done).
  destruct (same_body_ok _ _ Hs) as (O & E & L & K); [by apply (so_cents _ (wf_sound _ (proj1 Hg)) a)|]. eapply good_updated; [done|].
  apply (put_same_size a c); try done; [apply Hg|]. apply K. by apply (wf_linked _ (proj1 Hg) a).
Qed.
(** What the callers pass: entries whose sizes and counters are right, types of the table and flags
    that say nothing about the kind of the entry. *)
Definition op_ok (o : op) : Prop :=
  match o with
  | OpAdd c => cent_ok c
  | OpLocalOwner _ type => in_table type
  | OpSetFlags _ fl => has fl DF_NEGATIVE = false /\ has fl DF_LOCAL = false
  | _ => True
  end.
Lemma cache_step_ok global o w : op_ok o -> good w -> wp (step malloc_ok clock global o) w (fun _ w' => good w').
Proof.
  intros Hop Hg. destruct o as [c|name wild|name wild|name type|name type|name|name|name fl|sz]; cbn [step op_ok] in *.
  - by apply add_cache_ok.
  - apply wp_unit. eapply wp_mono; [by apply lookup_read_ok|]. by intros [[o wl] p] w' [? _].
  - apply wp_unit. eapply wp_mono; [by apply lookup_purge_ok|]. by intros [o wl] w' [? _].
  - apply wp_unit. eapply wp_mono; [apply lookup_local_ok, Hg|]. intros ? w'. by apply good_later.
  - apply wp_unit. eapply wp_mono; [apply getlocalowner_ok; [done|apply Hg]|]. by intros ? w' ->.
  - eapply wp_mono; [by apply del_cache_ok|]. by intros ? w' [? _].
  - by apply invalidate_record_ok.
  - apply wp_unit. destruct Hop. by apply set_cent_flags_ok.
  - by apply purge_good.
Qed.
Lemma run_ok global os : Forall op_ok os -> forall w, good w -> wp (run malloc_ok clock global os) w (fun _ w' => good w').
Proof.
  induction 1 as [|o os Ho _ IH]; intros w Hg; cbn [run]; [by apply wp_ret|]. apply wp_bind. eapply wp_mono; [by apply cache_step_ok|]. intros ? w'. apply IH.
Qed.
Lemma init_good : good init.
Proof.
  assert (Hno : forall a c, cents init !! a = Some c -> False) by (intros a c; cbn; by rewrite lookup_empty).
  split; [|done]. constructor; try done.
  - constructor; [by intros a c ?%Hno|]. constructor; [constructor| |by intros le ?%elem_of_nil].
    intros id a oi. unfold lent_at. cbn [cents init rrset_l]. rewrite lookup_empty. split; [by intros ?%elem_of_nil|done].
  - intros k a. cbn [table init]. rewrite lookup_empty. split; [done|]. by intros (c & ?%Hno & _).
Qed.

(** ** Sorting *)
Definition by_ts (x y : Z * rr_lent_t) : Prop := fst x <= fst y.
Lemma merge_perm p : forall q, listmerge p q ≡ₚ p ++ q.
Proof.
  induction p as [|x p IHp]; intros q; [by destruct q|]. induction q as [|y q IHq]; [by rewrite app_nil_r|].
  change (listmerge (x :: p) (y :: q)) with (if fst x <=? fst y then x :: listmerge p (y :: q) else y :: listmerge (x :: p) q).
  destruct (fst x <=? fst y); [by rewrite IHp|]. rewrite IHq. by rewrite (Permutation_middle (x :: p) q y).
Qed.
Lemma merge_sorted p : StronglySorted by_ts p -> forall q, StronglySorted by_ts q -> StronglySorted by_ts (listmerge p q).
Proof.
  induction 1 as [|x p Hp IHp Hx]; intros q Hq; [by destruct q|]. induction Hq as [|y q Hq IHq Hy]; [by constructor|].
  change (listmerge (x :: p) (y :: q)) with (if fst x <=? fst y then x :: listmerge p (y :: q) else y :: listmerge (x :: p) q).
  assert (Htrans : forall z z' l, by_ts z z' -> Forall (by_ts z') l -> Forall (by_ts z) l).
  { intros z z' l Hz. apply List.Forall_impl. unfold by_ts in *. lia. }
  destruct (Z.leb_spec (fst x) (fst y)).
  - constructor; [apply IHp; by constructor|]. rewrite merge_perm. apply Forall_app. split; [done|]. constructor; [done|]. by apply (Htrans x y).
  - constructor; [done|]. rewrite merge_perm. change (Forall (by_ts y) (x :: (p ++ q))). assert (by_ts y x) by (unfold by_ts; lia).
    constructor; [done|]. apply Forall_app. split; [by apply (Htrans y x)|done].
Qed.
(** The list at position [k] is empty or has 2^k elements. *)
Fixpoint slots_of (k : nat) (tmp : list (list (Z * rr_lent_t))) : Prop :=
  match tmp with [] => True | l :: tmp => (l = [] \/ length l = 2 ^ k)%nat /\ StronglySorted by_ts l /\ slots_of (S k) tmp end.
(** The last list is not empty. *)
Fixpoint last_full (tmp : list (list (Z * rr_lent_t))) : Prop :=
  match tmp with [] => True | [l] => l <> [] | _ :: tmp => last_full tmp end.
Lemma last_full_cons l tmp : tmp <> [] -> last_full (l :: tmp) = last_full tmp.
Proof. by destruct tmp. Qed.
Lemma carry_ok tmp : forall k carry, slots_of k tmp -> last_full tmp -> length carry = (2 ^ k)%nat -> StronglySorted by_ts carry ->
  slots_of k (carry_in carry tmp) /\ last_full (carry_in carry tmp) /\ carry_in carry tmp <> [] /\ concat (carry_in carry tmp) ≡ₚ carry ++ concat tmp.
Proof.
  induction tmp as [|l tmp IH]; intros k carry Ht Hlf Hc Hs; (assert (Hne : carry <> []) by (intros ->; cbn in Hc; pose proof (Nat.pow_nonzero 2 k); lia)).
  { cbn. split_and!; try done. by right. }
  destruct Ht as (Hl & Hls & Ht). destruct l as [|z l]; cbn [carry_in].
  - cbn [slots_of concat]. split; [by split_and!; [right|..]|]. split; [by destruct tmp|done].
  - destruct Hl as [[=]|Hl]. assert (Hlf' : last_full tmp) by by destruct tmp.
    destruct (IH (S k) (listmerge (z :: l) carry)) as (H1 & H2 & H3 & H4); [done|done| |by apply merge_sorted|].
    { rewrite merge_perm, length_app, Hc, Hl. cbn. lia. }
    split; [split_and!; try done; [by left|constructor]|]. split; [by rewrite last_full_cons|]. split; [done|].
    cbn [concat]. rewrite app_nil_l, H4, merge_perm, (Permutation_app_comm (z :: l) carry). by rewrite <- app_assoc.
Qed.
Lemma tmp_length tmp : forall k, slots_of k tmp -> last_full tmp -> tmp <> [] -> (2 ^ (k + length tmp - 1) <= length (concat tmp))%nat.
Proof.
  induction tmp as [|l tmp IH]; intros k Ht Hlf Hne; [done|]. destruct Ht as (Hl & _ & Ht). cbn [concat length]. rewrite length_app. destruct tmp as [|l' tmp].
  - cbn in Hlf. destruct Hl as [->|Hl]; [done|]. cbn. rewrite Hl. replace (k + 1 - 1)%nat with k by lia. lia.
  - specialize (IH (S k) Ht Hlf ltac:(done)). replace (k + S (length (l' :: tmp)) - 1)%nat with (S k + length (l' :: tmp) - 1)%nat by (cbn; lia). lia.
Qed.
Lemma sort_fill_ok rem : forall tmp, slots_of 0 tmp -> last_full tmp -> Z.of_nat (length (concat tmp) + length rem) < 2 ^ 32 ->
  exists tmp', sort_fill rem tmp = Ret tmp' /\ slots_of 0 tmp' /\ concat tmp' ≡ₚ concat tmp ++ rem.
Proof.
  induction rem as [|x rem IH]; intros tmp Ht Hlf Hlen; cbn [sort_fill]; [exists tmp; by rewrite app_nil_r|].
  destruct (carry_ok tmp 0 [x] Ht Hlf) as (H1 & H2 & H3 & H4); [done|by repeat constructor|]. cbn [length] in Hlen.
  assert (Hl : length (concat (carry_in [x] tmp)) = S (length (concat tmp))) by by rewrite H4.
  pose proof (tmp_length _ 0 H1 H2 H3) as Hp. cbn [Nat.add] in Hp.
  assert (Hle : (length (carry_in [x] tmp) <= NTMPSORT)%nat).
  { destruct (le_lt_dec (length (carry_in [x] tmp)) NTMPSORT) as [|Hgt]; [done|]. exfalso. apply Nat2Z.inj_le in Hp. rewrite Nat2Z.inj_pow in Hp.
    assert (2 ^ 32 <= 2 ^ Z.of_nat (length (carry_in [x] tmp) - 1)) by (apply Z.pow_le_mono_r; unfold NTMPSORT in Hgt; lia). lia. }
  unfold assert. rewrite (proj2 (Nat.leb_le _ _) Hle). cbn [mbind]. destruct (IH (carry_in [x] tmp) H1 H2) as (tmp' & E & T & P); [lia|].
  exists tmp'. split_and!; try done. rewrite P, H4. cbn. by rewrite Permutation_middle.
Qed.
Lemma merge_all_ok tmp k : slots_of k tmp -> StronglySorted by_ts (merge_all tmp) /\ merge_all tmp ≡ₚ concat tmp.
Proof.
  destruct tmp as [|l tmp]; intros Ht; [split; [constructor|done]|]. destruct Ht as (_ & Hs & Ht). cbn [merge_all concat]. revert k l Hs Ht.
  induction tmp as [|l' tmp IH]; intros k l Hs Ht; cbn [fold_left concat]; [by rewrite app_nil_r|]. destruct Ht as (_ & Hs' & Ht).
  destruct (IH (S k) (listmerge l' l)) as [H1 H2]; [by apply merge_sorted|done|]. split; [done|]. rewrite H2, merge_perm. rewrite app_assoc. apply Permutation_app_tail, Permutation_app_comm.
Qed.
Lemma read_ts_ok w : sound w -> forall l, (forall le, le ∈ l -> le ∈ rrset_l w) -> wp (read_ts l) w (fun r w' => w' = w /\ map snd r = l /\
  Forall (fun x => get_rrlent_ts (snd x) w = Ret (fst x, w)) r).
Proof.
  intros Hs. induction l as [|le l IH]; intros Hin; cbn [read_ts]; [by apply wp_ret|].
  destruct (ts_ok w le Hs (Hin le (list_elem_of_here _ _))) as [t Ht]. destruct (Ht (fun t' w' => t' = t /\ w' = w)) as (t' & w' & Et & -> & ->); [done|].
  apply wp_bind, Ht, wp_bind. eapply wp_mono; [apply IH; intros x Hx; apply Hin; by right|]. intros r w' (-> & M & F). apply wp_ret.
  split; [done|]. split; [cbn; congruence|by constructor].
Qed.
Definition older (w : cache) (x y : rr_lent_t) : Prop := forall t u, get_rrlent_ts x w = Ret (t, w) -> get_rrlent_ts y w = Ret (u, w) -> t <= u.
Lemma sorted_older w r : Forall (fun x => get_rrlent_ts (snd x) w = Ret (fst x, w)) r -> StronglySorted by_ts r -> StronglySorted (older w) (map snd r).
Proof.
  intros Hf. induction 1 as [|x r Hr IH Hx]; [constructor|]. inversion Hf as [|? ? Hfx Hfr]. subst. cbn. constructor; [by apply IH|].
  apply List.Forall_map. rewrite list_relations.list.Forall_forall in *. intros y Hy t u Et Eu. specialize (Hx y Hy). specialize (Hfr y Hy). unfold by_ts in Hx.
  rewrite Et in Hfx. rewrite Eu in Hfr. injection Hfx as ->. by injection Hfr as ->.
Qed.
Lemma sort_ok w : sound w -> zlen (rrset_l w) < 2 ^ 32 ->
  wp sort_rrl w (fun _ w' => exists l, w' = with_list l w /\ l ≡ₚ rrset_l w /\ StronglySorted (older w) l).
Proof.
  intros Hs Hlen. unfold sort_rrl. apply wp_bind, wp_gets. destruct (Nat.ltb_spec (length (rrset_l w)) 2).
  { apply wp_ret. exists (rrset_l w). split; [by destruct w|]. split; [done|]. destruct (rrset_l w) as [|x [|y l]]; [constructor|by repeat constructor|cbn in *; lia]. }
  apply wp_bind. eapply wp_mono; [by apply read_ts_ok|]. intros r w' (-> & M & F). assert (El : length r = length (rrset_l w)) by by rewrite <- M, length_map.
  destruct (sort_fill_ok r []) as (tmp & E & T & P); [done|done|cbn; lia|]. destruct (merge_all_ok tmp 0 T) as [H1 H2]. apply wp_bind. eapply wp_lift_ret; [done|].
  apply wp_sets. eexists. split; [done|]. cbn in P. rewrite P in H2. split; [by rewrite H2, M|]. apply sorted_older; [by rewrite H2|done].
Qed.

(** ** Adding and then looking up *)
Lemma purge_noop sz w : cache_size w <= sz -> wp (purge_cache clock sz true) w (fun _ w' => w' = w).
Proof.
  intros H. unfold purge_cache, walk_all. apply wp_bind, wp_bind, wp_gets. assert (E : (sz <? cache_size w) = false) by by apply Z.ltb_ge.
  assert (Hw : wp (walk_list (length (rrset_l w)) (purge_expired clock) (fun w => negb true || (sz <? cache_size w)) (le_id <$> head (rrset_l w))) w (fun _ w' => w' = w)).
  { destruct (rrset_l w) as [|le l]; [by apply wp_ret|]. cbn [length head fmap option_fmap option_map walk_list]. apply wp_bind, wp_gets. cbn [negb orb]. rewrite E. by apply wp_ret. }
  eapply wp_mono; [exact Hw|]. intros ? w' ->. apply wp_bind, wp_gets. rewrite (proj2 (Z.leb_le _ _) H). by apply wp_ret.
Qed.
Lemma add_fits_ok global c w : good w -> ~ no_memory -> cent_ok c -> table w !! canon (qname c) = None -> (exists j r, slot c j = Some r) ->
  cache_size w + cs c <= cache_limit global -> wp (add_cache malloc_ok clock global c) w (fun _ w' => good w' /\
    exists a c', table w' !! canon (qname c) = Some a /\ cents w' !! a = Some c' /\ qname c' = qname c /\ stored global c c').
Proof.
  intros [Hw Hs] Hm Ho Ht (j & r & Hr) Hsz. unfold add_cache. remember 1%nat as one. cbn [add_cache_loop]. unfold dns_lookup. apply wp_bind, wp_gets. rewrite Ht.
  assert (Hz : (num_rrs c =? 0) = false).
  { apply Z.eqb_neq. rewrite (co_num _ Ho). intros E. pose proof (arr_count_zero _ E j) as H. unfold slot in Hr. by rewrite H in Hr. }
  rewrite Hz. cbn [andb]. apply wp_bind. eapply wp_mono; [by apply add_new_ok|]. intros ok w1 (W1 & W2 & Hn). destruct ok; [|by destruct Hn].
  destruct Hn as (a & c' & _ & E1 & E2 & E3 & E4 & St). cbn [when]. eapply wp_mono; [apply purge_noop; by rewrite E3|]. intros ? w' ->.
  split; [split; congruence|]. exists a, c'. rewrite E1, E2, !lookup_insert_eq. done.
Qed.
Lemma stays_adjusted global id r : stays (adjust_ttl global r) -> stays (set_lent id (adjust_ttl global r)).
Proof. done. Qed.
Lemma add_lookup_ok global c name wild w : good w -> ~ no_memory -> cent_ok c -> table w !! canon (qname c) = None -> canon name = canon (qname c) ->
  (exists j r, slot c j = Some r) -> (forall j r, slot c j = Some r -> stays (adjust_ttl global r)) -> cache_size w + cs c <= cache_limit global ->
  wp (add_cache malloc_ok clock global c) w (fun _ w1 => wp (lookup_cache malloc_ok clock name wild) w1 (fun res _ =>
    exists c', fst res = Some c' /\ qname c' = qname c /\ forall j, slot c' j = (fun r => copied_set (adjust_ttl global r)) <$> slot c j)).
Proof.
  intros Hg Hm Ho Ht Hname Hex Hst Hsz. eapply wp_mono; [by apply add_fits_ok|]. intros ? w1 (Hg1 & a & c1 & T1 & C1 & Q1 & [S1 S2 S3 _]).
  eapply wp_mono; [by apply lookup_cache_ok|]. intros [o wl] w2 (_ & _ & Hans). rewrite <- Hname in T1. destruct (Hans a c1 T1 C1) as [?|(c' & -> & Q & Hsl)].
  - intros j r Hr. specialize (S3 j). destruct (slot c j) as [x|] eqn:Hx; cbn in S3; [|congruence]. destruct S3 as [id E]. rewrite E in Hr.
    injection Hr as <-. apply stays_adjusted. by apply (Hst j).
  - destruct Hex as (j & r & Hr). specialize (S3 j). rewrite Hr in S3. destruct S3 as [id E]. by eexists _, _.
  - done.
  - exists c'. split; [done|]. split; [congruence|]. intros j. rewrite Hsl. specialize (S3 j). destruct (slot c j) as [x|]; cbn in S3; [|by rewrite S3].
    destruct S3 as [id ->]. done.
Qed.

(** ** Building entries *)
(** An entry outside the cache has nothing in the list. *)
Definition unlinked (c : dns_cent_t) : Prop := forall oi, lent_in c oi = None.
Definition apart (c : dns_cent_t) : Prop := cent_ok c /\ unlinked c.
(** A call for an entry outside the cache. *)
Definition builds {A} (m : prog cache (A * dns_cent_t)) (P : A -> dns_cent_t -> Prop) : Prop :=
  forall w, wp m w (fun '(r, c) w' => later w w' /\ apart c /\ P r c).
Lemma builds_ret {A} (r : A) c (P : A -> dns_cent_t -> Prop) : apart c -> P r c -> builds (mret (r, c)) P.
Proof. intros Hc HP w. apply wp_ret. split; [apply later_refl|done]. Qed.
Lemma builds_bind {A B} (m : prog cache (A * dns_cent_t)) (k : A * dns_cent_t -> prog cache (B * dns_cent_t)) P (R : B -> dns_cent_t -> Prop) :
  builds m P -> (forall r c, apart c -> P r c -> builds (k (r, c)) R) -> builds (m ≫= k) R.
Proof.
  intros Hm Hk w. apply wp_bind. eapply wp_mono; [apply Hm|]. intros [r c] w1 (L1 & H1 & H2). eapply wp_mono; [by apply (Hk r c)|].
  intros [b c'] w2 (L2 & H3). split; [by eapply later_trans|done].
Qed.
(** A step that only takes time. *)
Lemma builds_after {A B} (m : prog cache A) (k : A -> prog cache (B * dns_cent_t)) (P : A -> Prop) (R : B -> dns_cent_t -> Prop) :
  (forall w, wp m w (fun r w' => later w w' /\ P r)) -> (forall r, P r -> builds (k r) R) -> builds (m ≫= k) R.
Proof.
  intros Hm Hk w. apply wp_bind. eapply wp_mono; [apply Hm|]. intros r w1 [L1 H1]. eapply wp_mono; [by apply Hk|].
  intros [b c'] w2 (L2 & H3). split; [by eapply later_trans|done].
Qed.
Lemma builds_lift {A B} (x : cres A) a (k : A -> prog cache (B * dns_cent_t)) (R : B -> dns_cent_t -> Prop) : x = Ret a -> builds (k a) R -> builds (lift x ≫= k) R.
Proof. intros E H. eapply (builds_after _ _ (fun r => r = a)); [|by intros r ->]. intros w. eapply wp_lift_ret; [done|]. split; [apply later_refl|done]. Qed.
Lemma unlinked_slots c' : is_neg c' = false -> (forall j r, slot c' j = Some r -> lent r = None) -> unlinked c'.
Proof.
  intros Hn H [j|]; [rewrite lent_in_slot; destruct (slot c' j) eqn:E; [by apply (H j)|done]|]. unfold is_neg in Hn. cbn. by destruct (body c').
Qed.
Lemma unlinked_lent c j r : unlinked c -> slot c j = Some r -> lent r = None.
Proof. intros Hu Hr. specialize (Hu (Some j)). rewrite lent_in_slot, Hr in Hu. done. Qed.
Lemma make_positive_builds c w : apart c -> wp (make_positive c) w (fun c1 w1 => w1 = w /\ apart c1 /\ is_neg c1 = false /\ forall j, slot c1 j = slot c j).
Proof.
  intros [Ho Hu]. pose proof Ho as [C1 C2 C3 C4]. unfold make_positive. rewrite C1. destruct (is_neg c) eqn:Hn; [|by apply wp_ret].
  specialize (Hu None) as Hl. pose proof (fun j => neg_slot c j Hn) as Hsl. unfold is_neg, the_neg, slots in *. cbn in Hl. destruct (body c) as [l nt ns|] eqn:Eb; [|done]. subst l.
  apply wp_bind. eapply wp_lift_ret; [done|]. apply wp_bind, wp_ret, wp_ret. split; [done|].
  assert (Hs1 : forall j, slot (set_body (RR (replicate NRRMU None)) (set_flags (clear (dflags c) DF_NEGATIVE) c)) j = None) by (intros j; apply slot_none).
  split; [split|split; [done|intros j; by rewrite Hs1, Hsl]].
  - constructor; cfields; [apply has_cleared|by left|rewrite C3; done|rewrite C4; done].
  - apply unlinked_slots; [done|]. intros j r. by rewrite Hs1.
Qed.
Lemma add_rrset_builds i t s fl c : apart c -> (i < NRRTOT)%nat -> slot c i = None ->
  builds (add_cent_rrset_by_index malloc_ok i t s fl c) (fun ok c' => if ok : bool then with_slot i (Some (mkRRset None t s fl [])) c c' else forall j, slot c' j = slot c j).
Proof.
  intros Hc Hi Hsi w. unfold add_cent_rrset_by_index. apply wp_bind. eapply wp_mono; [by apply make_positive_builds|]. intros c1 w1 (-> & [Ho1 Hu1] & Hn1 & Hs1).
  apply wp_bind. eapply wp_mono; [by apply make_room_ok|]. intros [ok c2] w2 (n & -> & Hle & Ho2 & _ & Hn2 & Hs2 & Hlt).
  assert (Hsl : forall j, slot c2 j = slot c j) by (intros j; by rewrite Hs2, Hs1).
  assert (Hlent : forall j r, slot c j = Some r -> lent r = None) by (intros j r Hr; eapply unlinked_lent; [apply Hc|done]).
  assert (Hdone : forall (ok : bool) c3 m, (ticks w <= m)%nat -> cent_ok c3 -> is_neg c3 = false ->
    (forall j, slot c3 j = if decide (i = j) then if ok then Some (mkRRset None t s fl []) else None else slot c j) ->
    later w (with_ticks m w) /\ apart c3 /\ (if ok then with_slot i (Some (mkRRset None t s fl [])) c c3 else forall j, slot c3 j = slot c j)).
  { intros ok' c3 m Hm Ho3 Hn3 Hs3. split; [by exists m|]. split; [split; [done|]|].
    - apply unlinked_slots; [done|]. intros j r. rewrite Hs3. destruct (decide (i = j)); [destruct ok'; [by intros [= <-]|done]|apply Hlent].
    - destruct ok'; [done|]. intros j. rewrite Hs3. by destruct (decide (i = j)) as [<-|]. }
  destruct ok; cbn [negb].
  2:{ apply wp_ret. apply (Hdone false); try done. intros j. rewrite Hsl. by destruct (decide (i = j)) as [<-|]. }
  specialize (Hlt eq_refl). apply wp_bind, wp_malloc. intros ok. destruct ok; cbn [negb]; apply wp_bind; (eapply wp_lift_ret; [by apply set_slot_ok|]); apply wp_ret.
  - apply (Hdone true _ (S n)); [cbn in Hle; lia| |done|].
    + apply fill_ok; [done|done|]. by rewrite Hsl.
    + intros j. change (slot (set_num _ _) j) with (slot (upd i (Some (mkRRset None t s fl [])) c2) j). by rewrite slot_upd, Hsl.
  - apply (Hdone false _ (S n)); [cbn in Hle; lia|apply refill_ok; [done|done|by rewrite Hsl]|done|intros j; by rewrite slot_upd, Hsl].
Qed.
(** The set in a slot is replaced outside the cache. *)
Lemma replace_apart c i r r' d : apart c -> slot c i = Some r -> lent r' = None -> d = rrset_size r' - rrset_size r ->
  apart (set_cs (cs c + d) (upd i (Some r') c)) /\ with_slot i (Some r') c (set_cs (cs c + d) (upd i (Some r') c)).
Proof.
  intros [Ho Hu] Hr Hl Hd. pose proof (slot_lt _ _ _ Hr) as Hi. assert (Hsl := fun j => slot_upd c i (Some r') j Hi).
  assert (Hw : with_slot i (Some r') c (set_cs (cs c + d) (upd i (Some r') c))) by (split; [done|intros j; apply Hsl]). split; [|done]. split.
  - pose proof (cent_ok_upd c i (Some r') d 0 Ho Hi) as H. rewrite Hr in H. specialize (H Hd eq_refl (dflags c) eq_refl). rewrite Z.add_0_r in H. by destruct c.
  - apply unlinked_slots; [done|]. intros j x. rewrite (proj2 Hw). destruct (decide (i = j)); [by intros [= <-]|]. by apply unlinked_lent.
Qed.
Lemma append_builds i d c r : apart c -> slot c i = Some r -> exists c', append_rr i d c = Ret c' /\ apart c' /\ with_slot i (Some (set_rrs (rrs r ++ [d]) r)) c c'.
Proof.
  intros Hc Hr. pose proof (slot_lt _ _ _ Hr) as Hi. pose proof (proj1 Hc) as Ho. unfold append_rr. rewrite RRARR_INDEX_ok, Hr by done. cbn [mbind].
  eexists. split; [cbn; rewrite set_slot_ok by done; reflexivity|]. apply (replace_apart c i r); [done|done|exact (unlinked_lent c i r (proj2 Hc) Hr)|].
  unfold rrset_size. cbn [rrs set_rrs]. rewrite records_size_app. cbn. lia.
Qed.
(** A record is added to slot [i]: behind the others, or the first one of a new set. *)
Definition with_record (i : nat) (t s fl : Z) (d : list Z) (c c' : dns_cent_t) : Prop :=
  with_slot i (Some (match slot c i with Some r => set_rrs (rrs r ++ [d]) r | None => mkRRset None t s fl [d] end)) c c'.
Lemma add_rr_int_builds i t s fl d c : apart c -> (i < NRRTOT)%nat ->
  builds (add_cent_rr_int malloc_ok i t s fl d c) (fun ok c' => if ok : bool then with_record i t s fl d c c' else forall j, slot c' j = slot c j).
Proof.
  intros Hc Hi. unfold add_cent_rr_int. eapply builds_after; [apply malloc_later|]. intros ok _. destruct ok; cbn [negb]; [|by apply builds_ret].
  eapply builds_lift; [apply RRARR_TESTEXT_ok, Hc|]. unfold with_record. destruct (slot c i) as [r|] eqn:Hr.
  - eapply (builds_bind _ _ (fun ok c' => ok = true /\ c' = c)); [by apply builds_ret|]. intros ? ? _ [-> ->]. cbn [negb].
    destruct (append_builds i d c r Hc Hr) as (c' & E & H1 & H2). eapply builds_lift; [done|]. by apply builds_ret.
  - eapply builds_bind; [by apply add_rrset_builds|]. intros ok c1 Hc1 H1. destruct ok; cbn [negb]; [|by apply builds_ret].
    destruct (append_builds i d c1 _ Hc1 (with_slot_at _ _ _ _ H1)) as (c' & E & H2 & H3). eapply builds_lift; [done|]. apply builds_ret; [done|].
    by eapply with_slot_trans.
Qed.
Definition cached_type (type : Z) : Prop := exists i, rrlkuptab !! Z.to_nat (type - T_MIN) = Some i /\ (i < NRRTOT)%nat /\ in_table type.
Lemma table_test type : in_table type -> (0 <=? type - T_MIN) && (type - T_MIN <? zlen rrlkuptab) = true.
Proof. intros [H1 H2]. apply andb_true_iff. by rewrite Z.leb_le, Z.ltb_lt. Qed.
Lemma builds_ASSERT {B} b (k : unit -> prog cache (B * dns_cent_t)) (R : B -> dns_cent_t -> Prop) : b = true -> builds (k tt) R -> builds (ASSERT b ≫= k) R.
Proof. intros -> H. by eapply builds_lift. Qed.
Lemma add_rr_builds type t s fl d c : apart c -> cached_type type -> builds (add_cent_rr malloc_ok type t s fl d c) (fun _ _ => True).
Proof.
  intros Hc (i & Hi & Hlt & Hty). unfold add_cent_rr. destruct (_ && _); [by apply builds_ret|]. apply builds_ASSERT; [by apply table_test|].
  eapply builds_lift; [by rewrite Hi|]. apply builds_ASSERT; [by apply Nat.ltb_lt|]. eapply builds_lift; [apply RRARR_TESTEXT_ok, Hc|].
  assert (Hint : forall c', apart c' -> builds (add_cent_rr_int malloc_ok i t s fl d c') (fun _ _ => True)).
  { intros c' Hc' w. eapply wp_mono; [by apply add_rr_int_builds|]. intros [ok c2] w' (? & ? & _). done. }
  destruct (slot c i) as [r|] eqn:Hr; [|by apply Hint]. intros w. apply wp_bind. eapply (wp_mono _ _ (fun c' w' => w' = w /\ apart c')).
  { destruct (t <? ttl r); [|by apply wp_ret]. eapply wp_lift_ret; [apply set_slot_ok; [apply Hc|by eapply slot_lt]|]. split; [done|].
    destruct (replace_apart c i r (set_ttl t r) 0 Hc Hr) as [H _]; [exact (unlinked_lent c i r (proj2 Hc) Hr)|unfold rrset_size; cbn [rrs set_ttl]; lia|].
    rewrite Z.add_0_r in H. by destruct c. }
  intros c' w' [-> Hc']. destruct (bool_decide (d ∈ rrs r)); [by apply builds_ret|by apply Hint].
Qed.
Lemma add_rrset_type_builds type t s fl c : apart c -> cached_type type -> getrrset c type = Ret None ->
  builds (add_cent_rrset_by_type malloc_ok type t s fl c) (fun _ _ => True).
Proof.
  intros Hc (i & Hi & Hlt & Hty) Hx. unfold add_cent_rrset_by_type. apply builds_ASSERT; [by apply table_test|]. eapply builds_lift; [by rewrite Hi|].
  assert (Hsl : slot c i = None).
  { unfold getrrset in Hx. rewrite (table_test type Hty), Hi in Hx. destruct (negative c) eqn:E; [apply neg_slot; by rewrite <- (co_tag _ (proj1 Hc))|].
    cbn in Hx. rewrite RRARR_TESTEXT_ok in Hx by apply Hc. by injection Hx. }
  intros w. eapply wp_mono; [by apply add_rrset_builds|]. intros [ok c2] w' (? & ? & _). done.
Qed.
Lemma init_builds name nt ns fl w : wp (init_cent malloc_ok name nt ns fl) w (fun o w' => later w w' /\ forall c, o = Some c -> apart c).
Proof.
  unfold init_cent. eapply wp_later; [apply malloc_later|]. intros ok w1 _. apply wp_ret_later. destruct ok; [|done]. intros c [= <-].
  destruct (has fl DF_NEGATIVE) eqn:E; (split; [constructor; cfields; try done|intros [j|]; unfold lent_in; cfields; try done]).
  - cbn. lia.
  - by left.
  - cbn. lia.
  - pose proof (slot_none NRRMU j) as H. cbn [replicate NRRMU] in H. by rewrite H.
Qed.
Lemma del_rrsets_apart arr w : (forall j r, mjoin (arr !! j) = Some r -> lent r = None) -> wp (del_rrsets arr) w (fun n w' => w' = w /\ n = arr_size arr).
Proof.
  induction arr as [|x arr IH]; intros Hl; cbn [del_rrsets arr_size]; [by apply wp_ret|]. specialize (IH (fun j => Hl (S j))). destruct x as [r|].
  - unfold del_rrset. apply wp_bind, wp_bind. rewrite (Hl 0%nat r eq_refl). apply wp_ret, wp_ret, wp_bind. eapply wp_mono; [exact IH|].
    intros n w' [-> ->]. by apply wp_ret.
  - eapply wp_mono; [exact IH|]. by intros n w' [-> ->].
Qed.
Lemma negate_builds nt ns c w : apart c -> wp (negate_cent nt ns c) w (fun c' w' => w' = w /\ apart c' /\ body c' = Neg None nt ns).
Proof.
  intros [Ho Hu]. pose proof Ho as [C1 C2 C3 C4]. unfold negate_cent. rewrite C1. destruct (is_neg c) eqn:Hn.
  - specialize (Hu None). unfold is_neg, the_neg, slots in *. cbn in Hu. destruct (body c) as [l t s|] eqn:Eb; [|done]. subst l. apply wp_bind.
    eapply wp_lift_ret; [done|]. apply wp_ret. split; [done|]. split; [|done]. split; [constructor; cfields; done|by intros [j|]].
  - apply wp_bind. eapply wp_lift_ret; [by apply RRARR_ok|]. apply wp_bind.
    eapply wp_mono; [apply del_rrsets_apart; intros j r; by apply (unlinked_lent c j)|]. intros n w' [-> ->]. apply wp_ret. split; [done|]. split; [|done].
    split; [constructor; cfields; try done|by intros [j|]].
    + unfold negative. cfields. rewrite has_lor. cbn [body is_neg]. by rewrite orb_true_r.
    + rewrite C3. unfold ext_size. cbn [arr_size length]. destruct (NRRMU <? length (slots c))%nat; cbn; lia.
Qed.
End entry.

(** ** Properties *)
(** A state of the cache after some operations. *)
Definition reachable malloc_ok clock global (w : cache) : Prop :=
  exists os, Forall op_ok os /\ run malloc_ok clock global os init = Ret (tt, w).
Lemma reachable_good malloc_ok clock global w : reachable malloc_ok clock global w -> good w.
Proof.
  intros (os & Hos & E). destruct (@run_ok malloc_ok clock global os Hos init init_good) as (u & w' & E' & Hg). rewrite E in E'. by injection E' as _ <-.
Qed.
Lemma mono_le (clock : nat -> Z) : (forall n, clock n <= clock (S n)) -> forall n m, (n <= m)%nat -> clock n <= clock m.
Proof. intros H n m. induction 1 as [|m _ IH]; [lia|]. specialize (H m). lia. Qed.
(** An entry for the name with the label [x], with one A record (index 0), and a
    negative one. *)
Definition sample_set (fl : Z) : rr_set_t := mkRRset None 300 1000 fl [[10; 0; 0; 1]].
Definition sample (x fl dfl : Z) : dns_cent_t := mkCent [[x]] 87 1 dfl (RR (Some (sample_set fl) :: replicate 7 None)) cundef cundef.
Definition sample_neg (x : Z) : dns_cent_t := mkCent [[x]] 55 0 DF_NEGATIVE (Neg None 300 900) cundef cundef.
Lemma sample_ok x fl dfl : has dfl DF_NEGATIVE = false -> cent_ok (sample x fl dfl).
Proof. intros H. constructor; [done|by left|done|done]. Qed.
Definition sample_globals : globals := mkGlobals 2048 120 604800 900.
Definition sample_state (os : list op) : cache :=
  match run (fun _ => true) (fun _ => 1100) sample_globals os init with Ret (_, w) => w | _ => init end.
Definition sample_ops : list op := [OpAdd (sample 97 CF_LOCAL DF_AUTH); OpAdd (sample 98 0 0); OpAdd (sample_neg 99); OpLookupRead [[65]] true; OpInvalidate [[98]]].
Lemma sample_ops_ok : Forall op_ok sample_ops.
Proof. repeat constructor; try done; by left. Defined.
Lemma sample_reachable : reachable (fun _ => true) (fun _ => 1100) sample_globals (sample_state sample_ops).
Proof. exists sample_ops. split; [apply sample_ops_ok|vm_compute; reflexivity]. Defined.

(** The entries that the functions for building entries make, with types that can be
    cached and no set added where there is one. *)
Inductive built (malloc_ok : nat -> bool) : dns_cent_t -> Prop :=
| built_init name nt ns fl w c w' : init_cent malloc_ok name nt ns fl w = Ret (Some c, w') -> built malloc_ok c
| built_rr c type t s fl d w ok c' w' : built malloc_ok c -> cached_type type ->
    add_cent_rr malloc_ok type t s fl d c w = Ret ((ok, c'), w') -> built malloc_ok c'
| built_rrset c type t s fl w ok c' w' : built malloc_ok c -> cached_type type -> getrrset c type = Ret None ->
    add_cent_rrset_by_type malloc_ok type t s fl c w = Ret ((ok, c'), w') -> built malloc_ok c'
| built_negate c nt ns w c' w' : built malloc_ok c -> negate_cent nt ns c w = Ret (c', w') -> built malloc_ok c'.
Lemma builds_result {A} (m : prog cache (A * dns_cent_t)) P w r c' w' : builds m P -> m w = Ret ((r, c'), w') -> apart c'.
Proof. intros H E. destruct (H w) as ([x y] & w1 & E1 & _ & Ha & _). rewrite E in E1. by injection E1 as _ <- _. Qed.
Lemma built_apart malloc_ok c : built malloc_ok c -> apart c.
Proof.
  induction 1 as [name nt ns fl w c w' E|c type t s fl d w ok c' w' _ IH Hty E|c type t s fl w ok c' w' _ IH Hty Hx E|c nt ns w c' w' _ IH E].
  - destruct (@init_builds malloc_ok name nt ns fl w) as (o & w1 & E1 & _ & H). rewrite E in E1. injection E1 as <- _. by apply H.
  - eapply builds_result; [by eapply add_rr_builds|exact E].
  - eapply builds_result; [by eapply add_rrset_type_builds|exact E].
  - destruct (negate_builds nt ns c w IH) as (x & w1 & E1 & _ & H & _). rewrite E in E1. by injection E1 as <- _.
Qed.

(** C13: any sequence of operations on the cache that add well-formed entries (their
    sizes and counters are right, as the building functions make them), ask for owners
    of cached types and set no flag for negative or local entries, with any outcome of the
    memory allocations and any clock, returns (it touches no record that was freed,
    removes nothing from the list of sets that is not there, and terminates) and
    leaves a consistent cache: the sizes and numbers kept in the entries and in
    the cache are those of what is stored, the hash table finds exactly the
    entries by their names, and the list holds exactly the sets and negative
    entries that are not local, each once. *)
Theorem cache_consistent malloc_ok clock global os : Forall op_ok os ->
  exists w, run malloc_ok clock global os init = Ret (tt, w) /\ wf w.
Proof.
  intros Hos. destruct (@run_ok malloc_ok clock global os Hos init init_good) as ([] & w & E & [Hw _]). by exists w.
Qed.
Lemma cache_consistent_witness : Forall op_ok sample_ops /\ exists w, run (fun _ => true) (fun _ => 1100) sample_globals sample_ops init = Ret (tt, w) /\ wf w.
Proof. split; [apply sample_ops_ok|]. apply (cache_consistent (fun _ => true) (fun _ => 1100) sample_globals sample_ops). apply sample_ops_ok. Defined.

(** C14: a lookup returns no record that had expired when it began: if the clock does
    not run backwards, each set in the answer that may be purged (that is not local or
    marked CF_NOPURGE), and a negative answer that is not local, was within its time to
    live. [expiry] is the end of that time as the code computes it in 32 bits: the
    time stamp and the time to live, at least 120 seconds, added ([expiry_exact]). *)
Theorem lookup_fresh malloc_ok clock global w name wild : (forall n, clock n <= clock (S n)) -> reachable malloc_ok clock global w ->
  exists o wl w', lookup_cache malloc_ok clock name wild w = Ret ((o, wl), w') /\ forall c, o = Some c ->
    (forall j r, slot c j = Some r -> purgeable r = true -> clock (ticks w) <= expiry (ts r) (ttl r)) /\
    (forall l nttl nts, body c = Neg l nttl nts -> has (dflags c) DF_LOCAL = false -> clock (ticks w) <= expiry nts nttl).
Proof.
  intros Hclock Hr. destruct (@lookup_cache_ok malloc_ok clock name wild w (reachable_good _ _ _ _ Hr)) as ([o wl] & w' & E & _ & Hf & _).
  exists o, wl, w'. split; [done|]. intros c Hc. destruct (Hf c Hc) as [F1 F2]. split.
  - intros j r Hj Hp. destruct (F1 j r Hj Hp) as (t & Ht & ?). pose proof (mono_le clock Hclock _ _ Ht). lia.
  - intros l nt ns Hb Hl. destruct (F2 l nt ns Hb) as [?|(t & Ht & ?)]; [congruence|]. pose proof (mono_le clock Hclock _ _ Ht). lia.
Qed.
Lemma lookup_fresh_witness : exists o wl w', lookup_cache (fun _ => true) (fun _ => 1100) [[98]] false (sample_state sample_ops) = Ret ((o, wl), w') /\ forall c, o = Some c ->
    (forall j r, slot c j = Some r -> purgeable r = true -> 1100 <= expiry (ts r) (ttl r)) /\
    (forall l nttl nts, body c = Neg l nttl nts -> has (dflags c) DF_LOCAL = false -> 1100 <= expiry nts nttl).
Proof. apply (lookup_fresh (fun _ => true) (fun _ => 1100) sample_globals (sample_state sample_ops) [[98]] false); [intros n; lia|apply sample_reachable]. Defined.

(** C16: purging returns, and brings the size of the cache down to the given limit,
    or to what cannot be purged: all sets and negative entries that are left are
    local. *)
Theorem purge_within_limit malloc_ok clock global w sz lazy : reachable malloc_ok clock global w ->
  exists w', purge_cache clock sz lazy w = Ret (tt, w') /\ wf w' /\
    (cache_size w' <= sz \/ forall a c oi, cents w' !! a = Some c -> present c oi = true -> local_in c oi = true).
Proof.
  intros [Hw Hs]%reachable_good. destruct (@purge_cache_ok clock sz lazy w Hw Hs) as ([] & w' & E & Hw' & _ & Hsz). exists w'. split_and!; try done.
  destruct Hsz as [?|Hl]; [by left|right]. intros a c oi Hc Hp. apply (wf_linked _ Hw' a c Hc oi Hp). destruct (lent_in c oi) as [id|] eqn:Ei; [|done].
  assert (Hin : mkLent id a oi ∈ rrset_l w') by (apply (lo_in _ (so_list _ (wf_sound _ Hw'))); unfold lent_at; by rewrite Hc). rewrite Hl in Hin. by apply elem_of_nil in Hin.
Qed.
Lemma purge_within_limit_witness : exists w', purge_cache (fun _ => 1100) 10 true (sample_state sample_ops) = Ret (tt, w') /\ wf w' /\
    (cache_size w' <= 10 \/ forall a c oi, cents w' !! a = Some c -> present c oi = true -> local_in c oi = true).
Proof. apply (purge_within_limit (fun _ => true) (fun _ => 1100) sample_globals (sample_state sample_ops) 10 true). apply sample_reachable. Defined.

(** C19: adding sets that are not local to an entry leaves its local sets as they
    are, and leaves an entry without conflicts between its sets (such as an alias
    and an address) without conflicts, whether or not memory runs out. *)
Theorem add_keeps_local malloc_ok clock global w a c n : reachable malloc_ok clock global w -> cents w !! a = Some c -> cent_ok n ->
  (forall j r, slot n j = Some r -> has (flags r) CF_LOCAL = false) ->
  exists ok w' c', add_to malloc_ok clock global a n w = Ret (ok, w') /\ cents w' = <[a := c']> (cents w) /\ qname c' = qname c /\
    (forall j x, slot c j = Some x -> has (flags x) CF_LOCAL = true -> slot c' j = Some x) /\ (conflict_free c -> conflict_free c').
Proof.
  intros [Hw _]%reachable_good Hc Hn Hloc. destruct (@add_to_ok malloc_ok clock global a c n w Hw Hc Hn) as (ok & w' & E & c' & U & [_ M1 M2]).
  exists ok, w', c'. split; [done|]. split; [apply U|]. split; [apply (up_same _ _ _ _ _ U)|]. split; [|done]. apply M1.
  intros r [j Hj]%list_elem_of_lookup. apply (Hloc j). unfold slot. by rewrite Hj.
Qed.
Lemma add_keeps_local_witness : exists a c ok w' c', cents (sample_state sample_ops) !! a = Some c /\
  add_to (fun _ => true) (fun _ => 1100) sample_globals a (sample 97 0 0) (sample_state sample_ops) = Ret (ok, w') /\ cents w' = <[a := c']> (cents (sample_state sample_ops)) /\
  qname c' = qname c /\ (forall j x, slot c j = Some x -> has (flags x) CF_LOCAL = true -> slot c' j = Some x) /\ (conflict_free c -> conflict_free c').
Proof.
  destruct (cents (sample_state sample_ops) !! 0) as [c|] eqn:Hc; [|vm_compute in Hc; discriminate].
  destruct (add_keeps_local (fun _ => true) (fun _ => 1100) sample_globals (sample_state sample_ops) 0 c (sample 97 0 0) sample_reachable Hc) as (ok & w' & c' & H).
  - by apply sample_ok.
  - intros [|[|[|[|[|[|[|[|j]]]]]]]] r; cbn; intros [= <-]; done.
  - exists 0, c, ok, w', c'. split; [done|exact H].
Defined.

(** C15: what is added can be looked up: an entry with records under a name that
    is not in the cache, if memory suffices, there is room for it and its records
    do not expire, is found under its name, up to case, with the same records
    (their times to live brought within the configured limits). *)
Theorem add_then_lookup malloc_ok clock global w c name wild : (forall t, malloc_ok t = true) -> reachable malloc_ok clock global w -> cent_ok c ->
  table w !! canon (qname c) = None -> canon name = canon (qname c) -> (exists j r, slot c j = Some r) ->
  (forall j r, slot c j = Some r -> @stays clock (adjust_ttl global r)) -> cache_size w + cs c <= cache_limit global ->
  exists w1 res w2, add_cache malloc_ok clock global c w = Ret (tt, w1) /\ lookup_cache malloc_ok clock name wild w1 = Ret (res, w2) /\
    exists c', fst res = Some c' /\ qname c' = qname c /\ forall j, slot c' j = (fun r => copied_set (adjust_ttl global r)) <$> slot c j.
Proof.
  intros Hm Hg%reachable_good Ho Ht Hn Hex Hst Hsz. assert (Hno : ~ @no_memory malloc_ok) by (intros [t Hx]; by rewrite Hm in Hx).
  destruct (@add_lookup_ok malloc_ok clock global c name wild w Hg Hno Ho Ht Hn Hex Hst Hsz) as ([] & w1 & E1 & res & w2 & E2 & H). by exists w1, res, w2.
Qed.
Lemma add_then_lookup_witness : exists w1 res w2, add_cache (fun _ => true) (fun _ => 1100) sample_globals (sample 97 0 DF_AUTH) init = Ret (tt, w1) /\
  lookup_cache (fun _ => true) (fun _ => 1100) [[65]] false w1 = Ret (res, w2) /\
    exists c', fst res = Some c' /\ qname c' = [[97]] /\ forall j, slot c' j = (fun r => copied_set (adjust_ttl sample_globals r)) <$> slot (sample 97 0 DF_AUTH) j.
Proof.
  apply (add_then_lookup (fun _ => true) (fun _ => 1100) sample_globals init (sample 97 0 DF_AUTH) [[65]] false).
  - done.
  - by exists [].
  - by apply sample_ok.
  - vm_compute. reflexivity.
  - vm_compute. reflexivity.
  - by exists 0%nat, (sample_set 0).
  - intros [|[|[|[|[|[|[|[|j]]]]]]]] r; cbn; intros [= <-]; intros _ t; vm_compute; discriminate.
  - vm_compute. discriminate.
Defined.

(** Sorting the list of sets returns for a list of up to 2^32 - 1 entries
    (the 32 partial lists suffice), permutes the list and orders it by the time
    stamps. *)
Theorem sort_rrl_sorts malloc_ok clock global w : reachable malloc_ok clock global w -> zlen (rrset_l w) < 2 ^ 32 ->
  exists l, sort_rrl w = Ret (tt, with_list l w) /\ l ≡ₚ rrset_l w /\ StronglySorted (older w) l.
Proof.
  intros [Hw _]%reachable_good Hl. destruct (sort_ok w (wf_sound _ Hw) Hl) as ([] & w' & E & l & -> & H1 & H2). by exists l.
Qed.
Lemma sort_rrl_sorts_witness : exists l, sort_rrl (sample_state sample_ops) = Ret (tt, with_list l (sample_state sample_ops)) /\
  l ≡ₚ rrset_l (sample_state sample_ops) /\ StronglySorted (older (sample_state sample_ops)) l.
Proof. apply (sort_rrl_sorts (fun _ => true) (fun _ => 1100) sample_globals (sample_state sample_ops)); [apply sample_reachable|vm_compute; reflexivity]. Defined.

(** C40: the functions that build an entry outside the cache ([init_cent],
    [add_cent_rr], [add_cent_rrset_by_type], [negate_cent]) keep it well-formed,
    whether or not memory runs out: the tag of the union is the flag DF_NEGATIVE,
    its size and number of sets are those of its sets, and nothing of it is in the
    list of the cache; so it may be passed to [add_cache], and adding another
    record returns. *)
Theorem entry_built malloc_ok c : built malloc_ok c -> op_ok (OpAdd c) /\ unlinked c /\
  forall type t s fl d w, cached_type type -> exists ok c' w', add_cent_rr malloc_ok type t s fl d c w = Ret ((ok, c'), w').
Proof.
  intros Hb%built_apart. split; [apply Hb|]. split; [apply Hb|]. intros type t s fl d w Hty.
  destruct (@add_rr_builds malloc_ok type t s fl d c Hb Hty w) as ([ok c'] & w' & E & _). by exists ok, c', w'.
Qed.
Lemma entry_built_witness : exists c, built (fun _ => true) c /\ op_ok (OpAdd c) /\ unlinked c /\
  forall type t s fl d w, cached_type type -> exists ok c' w', add_cent_rr (fun _ => true) type t s fl d c w = Ret ((ok, c'), w').
Proof.
  exists (sample 97 0 0). assert (Hb : built (fun _ => true) (sample 97 0 0)).
  { eapply (built_rr _ (mkCent [[97]] 55 0 0 (RR (replicate 8 None)) cundef cundef) 1 300 1000 0 [10; 0; 0; 1] init).
    - eapply (built_init _ [[97]] 0 0 0 init). vm_compute. reflexivity.
    - exists 0%nat. split; [done|]. split; [apply Nat.ltb_lt; done|]. split; vm_compute; congruence.
    - vm_compute. reflexivity. }
  split; [exact Hb|]. apply (entry_built (fun _ => true)). exact Hb.
Defined.

(** ** Where the code does not keep what it means to *)
(** [invalidate_record] sets the time stamps of an entry to 0 without moving its
    sets, so that the list is not ordered by age any more. *)
Theorem invalidate_unsorts : ~ StronglySorted (older (sample_state sample_ops)) (rrset_l (sample_state sample_ops)).
Proof.
  assert (E : rrset_l (sample_state sample_ops) = [mkLent 1 2 None; mkLent 0 1 (Some 0%nat)]) by (vm_compute; reflexivity). rewrite E. intros H.
  inversion H as [|? ? _ H2]. subst. inversion H2 as [|? ? H3]. subst. specialize (H3 900 0). vm_compute in H3. by apply H3.
Qed.
(** The flag of a negative entry that was declared locally. *)
Definition local_neg (x : Z) : dns_cent_t := mkCent [[x]] 55 0 (Z.lor DF_NEGATIVE DF_LOCAL) (Neg None 300 900) cundef cundef.
Definition local_at (name : list (list Z)) (w : cache) : bool :=
  match table w !! canon name with Some a => match cents w !! a with Some c => has (dflags c) DF_LOCAL | None => false end | None => false end.
(** A negative answer replaces a negative entry that was declared locally: [add_cache]
    protects local sets only. *)
Theorem local_negative_replaced : local_at [[97]] (sample_state [OpAdd (local_neg 97)]) = true /\
  local_at [[97]] (sample_state [OpAdd (local_neg 97); OpAdd (sample_neg 97)]) = false.
Proof. split; vm_compute; reflexivity. Qed.
End CacheOps.
