(* ===== verification/CacheGrowth.v ===== *)
(** * The list of sets while it is not kept sorted

    While a cache file is read ([insert_sort] is 0), new sets are appended to the
    list and it is sorted when the cache is purged or the file was read. Sorting
    needs that the list has fewer than 2^32 entries. This file bounds its length by
    the number of list entries that were ever made, [next_id]: [quiet] programs make
    none, adding an entry to the cache at most one for each type of record
    ([makes]). With it the operations that add and purge are correct in either
    mode. *)
From stdpp Require Import gmap.
From S2P Require Import Prelude Handlers DnsName DnsHash DnsCache CacheInv CacheOps.
Import DnsCache CacheInv CacheOps.
Local Open Scope Z_scope.

Module CacheGrowth.
#[local] Abbreviation canon := DnsHash.DnsHash.canon.

(** ** How many list entries are made *)
Definition makes {A} (k : nat) (m : prog cache A) : Prop := forall w a w', m w = Ret (a, w') -> (next_id w' <= next_id w + k)%nat.
#[local] Abbreviation quiet := (makes 0).
Lemma makes_le {A} j k (m : prog cache A) : (j <= k)%nat -> makes j m -> makes k m.
Proof. intros H Hm w a w' E. specialize (Hm _ _ _ E). lia. Qed.
Lemma makes_ret {A} (a : A) : quiet (mret a).
Proof. intros w x w' [= _ <-]. lia. Qed.
Lemma bind_Ret_prog {A B} (m : prog cache A) (k : A -> prog cache B) w b w' : (m ≫= k) w = Ret (b, w') ->
  exists a w1, m w = Ret (a, w1) /\ k a w1 = Ret (b, w').
Proof. unfold mbind at 1, prog_bind. intros ([a w1] & E & H)%bind_Ret_inv. by exists a, w1. Qed.
Lemma makes_bind {A B} i j (m : prog cache A) (k : A -> prog cache B) : makes i m -> (forall a, makes j (k a)) -> makes (i + j) (m ≫= k).
Proof. intros Hm Hk w b w' (a & w1 & E & H)%bind_Ret_prog. specialize (Hm _ _ _ E). specialize (Hk a _ _ _ H). lia. Qed.
Lemma quiet_bind {A B} (m : prog cache A) (k : A -> prog cache B) : quiet m -> (forall a, quiet (k a)) -> quiet (m ≫= k).
Proof. apply (makes_bind 0 0). Qed.
Lemma quiet_lift {A} (x : cres A) : quiet (lift x).
Proof. intros w a w'. unfold lift. intros (y & _ & [= _ <-])%bind_Ret_inv. lia. Qed.
Lemma quiet_gets {A} (f : cache -> A) : quiet (gets f).
Proof. intros w a w' [= _ <-]. lia. Qed.
Lemma quiet_sets f : (forall w, next_id (f w) = next_id w) -> quiet (sets f).
Proof. intros H w a w' [= _ <-]. rewrite H. lia. Qed.
Lemma quiet_when b m : quiet m -> quiet (when b m).
Proof. intros H. destruct b; [done|apply makes_ret]. Qed.
Lemma quiet_cent_at a : quiet (cent_at a).
Proof. intros w c w'. unfold cent_at. apply quiet_lift. Qed.
Lemma quiet_tick : quiet tick.
Proof. intros w a w' [= _ <-]. cbn. lia. Qed.
Lemma quiet_fail {A} : quiet (fun _ => OutOfFuel : cres (A * cache)).
Proof. by intros w a w'. Qed.
Lemma quiet_put a c : quiet (put a c).
Proof. by apply quiet_sets. Qed.
Lemma quiet_on {A} a (f : dns_cent_t -> prog cache (A * dns_cent_t)) : (forall c, quiet (f c)) -> quiet (on a f).
Proof.
  intros H. apply quiet_bind; [apply quiet_cent_at|]. intros c. apply quiet_bind; [apply H|]. intros [r c']. apply quiet_bind; [apply quiet_put|].
  intros _. apply makes_ret.
Qed.

Create HintDb quiet.
#[local] Hint Resolve makes_ret quiet_lift quiet_gets quiet_when quiet_cent_at quiet_tick quiet_fail quiet_put quiet_on : quiet.
(** Goes through a program down to the functions that are known to be quiet. *)
Ltac quiet_step :=
  match goal with
  | |- forall _, _ => intros ?
  | |- makes 0 (_ ≫= _) => apply quiet_bind
  | |- makes 0 (sets _) => apply quiet_sets; intros ?; reflexivity
  | |- makes 0 (match ?x with _ => _ end) => destruct x
  | |- makes 0 _ => solve [auto with quiet]
  | |- makes 0 (on _ _) => apply quiet_on
  | |- makes 0 (when _ _) => apply quiet_when
  end.
Ltac quiet := repeat quiet_step.

Section programs.
Context (malloc_ok : nat -> bool) (clock : nat -> Z) (global : globals).
Lemma quiet_ASSERT b : quiet (ASSERT b).
Proof. unfold ASSERT. quiet. Qed.
Hint Resolve quiet_ASSERT : quiet.
Lemma quiet_time : quiet (time clock).
Proof. unfold time. quiet. Qed.
Lemma quiet_malloc : quiet (malloc malloc_ok).
Proof. unfold malloc. quiet. Qed.
Hint Resolve quiet_time quiet_malloc : quiet.
Lemma quiet_modify a f : quiet (modify a f).
Proof. unfold modify. quiet. Qed.
Lemma quiet_add_size n : quiet (add_size n).
Proof. unfold add_size. quiet. Qed.
Lemma quiet_timedout r : quiet (timedout clock r).
Proof. unfold timedout. quiet. Qed.
Lemma quiet_timedout_nxdom c : quiet (timedout_nxdom clock c).
Proof. unfold timedout_nxdom. quiet. Qed.
Lemma quiet_remove_rrl id : quiet (remove_rrl id).
Proof. unfold remove_rrl. quiet. Qed.
Lemma quiet_le_rrset le i : quiet (le_rrset le i).
Proof. unfold le_rrset. quiet. Qed.
Hint Resolve quiet_modify quiet_add_size quiet_timedout quiet_timedout_nxdom quiet_remove_rrl quiet_le_rrset : quiet.
Lemma quiet_get_ts le : quiet (get_rrlent_ts le).
Proof. unfold get_rrlent_ts. quiet. Qed.
Hint Resolve quiet_get_ts : quiet.
Lemma quiet_insert_tail t ne l : quiet (insert_from_tail t ne l).
Proof. induction l; cbn [insert_from_tail]; quiet. Qed.
Lemma quiet_read_ts l : quiet (read_ts l).
Proof. induction l; cbn [read_ts]; quiet. Qed.
Hint Resolve quiet_insert_tail quiet_read_ts : quiet.
Lemma quiet_sort : quiet sort_rrl.
Proof. unfold sort_rrl. quiet. Qed.
(** *** Deleting and purging *)
Lemma quiet_del_rrset r : quiet (del_rrset r).
Proof. unfold del_rrset. quiet. Qed.
Hint Resolve quiet_sort quiet_del_rrset : quiet.
Lemma quiet_del_index i c : quiet (del_cent_rrset_by_index i c).
Proof. unfold del_cent_rrset_by_index. quiet. Qed.
Lemma quiet_del_rrsets arr : quiet (del_rrsets arr).
Proof. induction arr; cbn [del_rrsets]; quiet. Qed.
Hint Resolve quiet_del_index quiet_del_rrsets : quiet.
Lemma quiet_free_cent c : quiet (free_cent c).
Proof. unfold free_cent. quiet. Qed.
Lemma quiet_dns_lookup name : quiet (dns_lookup name).
Proof. unfold dns_lookup. quiet. Qed.
Hint Resolve quiet_free_cent quiet_dns_lookup : quiet.
Lemma quiet_del_ent a : quiet (del_cache_ent a).
Proof. unfold del_cache_ent, del_dns_hash, del_cent. quiet. Qed.
Lemma quiet_drop a i : quiet (drop_rrset a i).
Proof. unfold drop_rrset. quiet. Qed.
Lemma quiet_expired r : quiet (expired clock r).
Proof. unfold expired. quiet. Qed.
Hint Resolve quiet_del_ent quiet_drop quiet_expired : quiet.
Lemma quiet_purge_rrset a i test : quiet (purge_rrset clock a i test).
Proof. unfold purge_rrset. quiet. Qed.
Lemma quiet_purge_slots a test js : quiet (purge_slots clock a test js).
Proof. induction js; cbn [purge_slots]; quiet. Qed.
Hint Resolve quiet_purge_rrset quiet_purge_slots : quiet.
Lemma quiet_purge_all a test : quiet (purge_all_rrsets clock a test).
Proof. unfold purge_all_rrsets. quiet. Qed.
Lemma quiet_stale a get n : quiet (stale clock a get n).
Proof. unfold stale. quiet. Qed.
Hint Resolve quiet_purge_all quiet_stale : quiet.
Lemma quiet_purge_reference a test field reset get : quiet (purge_reference clock a test field reset get).
Proof. unfold purge_reference. quiet. Qed.
Hint Resolve quiet_purge_reference : quiet.
Lemma quiet_purge_cent a del test : quiet (purge_cent clock a del test).
Proof. unfold purge_cent. quiet. Qed.
Lemma quiet_le_local le : quiet (le_local le).
Proof. unfold le_local. quiet. Qed.
Hint Resolve quiet_purge_cent quiet_le_local : quiet.
Lemma quiet_walk fuel visit continue : (forall le, quiet (visit le)) -> forall le, quiet (walk_list fuel visit continue le).
Proof. intros Hv. induction fuel; intros [id|]; cbn [walk_list]; quiet. Qed.
Lemma quiet_purge_expired le : quiet (purge_expired clock le).
Proof. unfold purge_expired. quiet. Qed.
Lemma quiet_purge_oldest le : quiet (purge_oldest le).
Proof. unfold purge_oldest. quiet. Qed.
Hint Resolve quiet_walk quiet_purge_expired quiet_purge_oldest : quiet.
Lemma quiet_walk_all visit continue : (forall le, quiet (visit le)) -> quiet (walk_all visit continue).
Proof. intros Hv. unfold walk_all. quiet. Qed.
Hint Resolve quiet_walk_all : quiet.
Lemma quiet_purge_cache sz lazy : quiet (purge_cache clock sz lazy).
Proof. unfold purge_cache. quiet. Qed.
Hint Resolve quiet_purge_cache : quiet.

(** *** Adding *)
Lemma quiet_copy_rrs l : quiet (copy_rrs malloc_ok l).
Proof. induction l; cbn [copy_rrs]; quiet. Qed.
Hint Resolve quiet_copy_rrs : quiet.
Lemma quiet_copy_rrset r : quiet (copy_rrset malloc_ok r).
Proof. unfold copy_rrset. quiet. Qed.
Hint Resolve quiet_copy_rrset : quiet.
Lemma quiet_copy_arr arr : quiet (copy_arr malloc_ok arr).
Proof. induction arr; cbn [copy_arr]; quiet. Qed.
Hint Resolve quiet_copy_arr : quiet.
Lemma quiet_copy_cent c : quiet (copy_cent malloc_ok c).
Proof. unfold copy_cent. quiet. Qed.
Lemma quiet_add_hash a : quiet (add_dns_hash malloc_ok a).
Proof. unfold add_dns_hash. quiet. Qed.
Lemma quiet_add_index i t s fl c : quiet (add_cent_rrset_by_index malloc_ok i t s fl c).
Proof. unfold add_cent_rrset_by_index, make_positive, make_room. quiet. Qed.
Hint Resolve quiet_copy_cent quiet_add_hash quiet_add_index : quiet.
Lemma quiet_add_rr_int i t s fl d c : quiet (add_cent_rr_int malloc_ok i t s fl d c).
Proof. unfold add_cent_rr_int. quiet. Qed.
Hint Resolve quiet_add_rr_int : quiet.
Lemma quiet_add_records a i r l : quiet (add_records malloc_ok a i r l).
Proof. induction l; cbn [add_records]; quiet. Qed.
Lemma quiet_precedes old new : quiet (precedes clock old new).
Proof. unfold precedes. quiet. Qed.
Lemma quiet_count_conflicts a i js : forall n m, quiet (count_conflicts clock a i js n m).
Proof. induction js; intros n m; cbn [count_conflicts]; quiet. Qed.
Lemma quiet_remove_conflicts a i js : quiet (remove_conflicts a i js).
Proof. induction js; cbn [remove_conflicts]; quiet. Qed.
Hint Resolve quiet_add_records quiet_precedes quiet_count_conflicts quiet_remove_conflicts : quiet.
Lemma quiet_check a i t fl : quiet (cr_check_add clock a i t fl).
Proof. unfold cr_check_add. quiet. Qed.
Hint Resolve quiet_check : quiet.

Lemma makes_after {A B} k (m : prog cache A) (f : A -> prog cache B) : quiet m -> (forall a, makes k (f a)) -> makes k (m ≫= f).
Proof. apply (makes_bind 0 k). Qed.
Lemma makes_before {A B} k (m : prog cache A) (f : A -> prog cache B) : makes k m -> (forall a, quiet (f a)) -> makes k (m ≫= f).
Proof. intros Hm Hf. rewrite <- (Nat.add_0_r k). by apply makes_bind. Qed.
Lemma makes_some {A} k (m : prog cache A) : quiet m -> makes k m.
Proof. apply makes_le. lia. Qed.
Lemma insert_makes a i : makes 1 (insert_rrl malloc_ok a i).
Proof.
  unfold insert_rrl. apply makes_after; [quiet|]. intros c. apply makes_after; [quiet|]. intros [fl t]. destruct (_ || _); [apply makes_some; quiet|].
  apply makes_after; [quiet|]. intros ok. destruct ok; cbn [negb]; [|apply makes_some; quiet].
  intros w b w' (id & w1 & [= <- <-] & H)%bind_Ret_prog. apply bind_Ret_prog in H as (u & w1 & [= _ <-] & H).
  match type of H with ?m _ = _ => assert (Hq : quiet m) by quiet end. specialize (Hq _ _ _ H). cbn in Hq. lia.
Qed.
Hint Resolve insert_makes : quiet.
Lemma link_makes a js : makes (length js) (link_slots malloc_ok global a js).
Proof.
  induction js as [|i js IH]; cbn [link_slots length]; [quiet|]. do 2 (apply makes_after; [quiet|]; intros ?). destruct a1 as [r|]; [|by eapply makes_le, IH; lia].
  do 2 (apply makes_after; [quiet|]; intros ?). apply (makes_bind 1); [apply insert_makes|]. intros ok. destruct ok; [apply IH|apply makes_some; quiet].
Qed.
Lemma add_slot_makes a i r : makes 1 (add_slot malloc_ok clock global a i r).
Proof.
  unfold add_slot. do 3 (apply makes_after; [quiet|]; intros ?). destruct a2; [apply makes_some; quiet|].
  do 2 (apply makes_after; [quiet|]; intros ?). destruct (negb a3); [apply makes_some; quiet|].
  apply makes_after; [quiet|]; intros ?. destruct (negb a4); [apply makes_some; quiet|].
  apply makes_after; [quiet|]; intros ?. destruct (negb a5); [apply makes_some; quiet|].
  apply makes_after; [quiet|]; intros ?. apply makes_before; [apply insert_makes|quiet].
Qed.
Lemma add_slots_makes a arr : forall i, makes (length arr) (add_slots malloc_ok clock global a i arr).
Proof.
  induction arr as [|[r|] arr IH]; intros i; cbn [add_slots length]; [quiet| |by eapply makes_le, IH; lia].
  apply (makes_bind 1); [apply add_slot_makes|]. intros [| |]; [apply IH|apply makes_some; quiet..].
Qed.
Lemma slots_le c : cent_ok c -> (length (slots c) <= NRRTOT)%nat.
Proof. intros [_ C2 _ _]. unfold is_neg, slots in *. destruct (body c); [cbn; lia|]. unfold NRRMU, NRRTOT in *. destruct (C2 eq_refl); lia. Qed.
Lemma add_to_makes a c : cent_ok c -> makes NRRTOT (add_to malloc_ok clock global a c).
Proof.
  intros Ho. unfold add_to. do 3 (apply makes_after; [quiet|]; intros ?). rewrite RRARR_ok by done.
  intros w b w' (arr & w1 & [= <- <-] & H)%bind_Ret_prog. revert H. apply (makes_before NRRTOT); [|quiet].
  eapply makes_le, add_slots_makes. by apply slots_le.
Qed.
Lemma copy_result c w o w' : cent_ok c -> copy_cent malloc_ok c w = Ret (o, w') -> o = Some (copied c) \/ o = None.
Proof.
  intros Ho E. destruct (copy_cent_ok (malloc_ok := malloc_ok) c w Ho) as (o' & w1 & E' & _ & H). rewrite E in E'. injection E' as <- _. destruct H as [?|[? _]]; auto.
Qed.
Lemma add_new_makes c : cent_ok c -> makes NRRTOT (add_new malloc_ok global c).
Proof.
  intros Ho w b w' (o & w1 & E & H)%bind_Ret_prog. pose proof (quiet_copy_cent c _ _ _ E) as Hq.
  apply (copy_result c) in E as [->| ->]; [|injection H as _ <-; lia|done..]. assert (Hm : (next_id w' <= next_id w1 + NRRTOT)%nat); [|lia].
  revert H. pose proof (copied_ok c Ho) as Hc. revert w1 b w' Hq. cbv beta iota. intros w1 b w' _.
  match goal with |- ?m w1 = _ -> _ => cut (makes NRRTOT m); [intros Hk; apply Hk|] end.
  do 2 (apply makes_after; [quiet|]; intros ?). apply makes_before; [|quiet]. destruct (negative (copied c)).
  - do 2 (apply makes_after; [quiet|]; intros ?). eapply makes_le; [|apply insert_makes]. unfold NRRTOT. lia.
  - rewrite RRARR_ok by done. intros w2 b2 w3 (arr & w4 & [= <- <-] & H)%bind_Ret_prog. revert H. apply (makes_le (length (slots (copied c)))); [by apply slots_le|].
    rewrite <- (length_seq (length (slots (copied c))) 0) at 1. apply link_makes.
Qed.
Lemma add_cache_makes c : cent_ok c -> makes NRRTOT (add_cache malloc_ok clock global c).
Proof.
  intros Ho. unfold add_cache. assert (H0 : forall n, makes NRRTOT (add_cache_loop malloc_ok clock global n c)); [|done].
  induction n as [|n IH]; cbn [add_cache_loop]; [by apply makes_some, quiet_fail|]. apply makes_after; [quiet|]. intros [a|].
  - destruct (negative c).
    + do 2 (apply makes_after; [quiet|]; intros ?). destruct a1; [apply makes_some; quiet|]. apply makes_after; [quiet|]. intros _. apply IH.
    + apply makes_before; [by apply add_to_makes|quiet].
  - destruct (_ && _); [apply makes_some; quiet|]. apply makes_before; [by apply add_new_makes|quiet].
Qed.
End programs.

(** ** The operations in either mode *)
Lemma wp_makes {A} k (m : prog cache A) w (Q : A -> cache -> Prop) : makes k m -> wp m w Q -> wp m w (fun a w' => Q a w' /\ (next_id w' <= next_id w + k)%nat).
Proof. intros Hm (a & w' & E & H). exists a, w'. split; [done|]. split; [done|]. by eapply Hm. Qed.
Lemma list_bound w : list_ok w -> (length (rrset_l w) <= next_id w)%nat.
Proof.
  intros [L1 _ L3]. rewrite <- (length_map le_id), <- (length_seq (next_id w) 0). apply submseteq_length, NoDup_submseteq; [done|].
  intros id (le & -> & Hin)%list_elem_of_fmap. apply L3 in Hin. apply elem_of_seq. lia.
Qed.
Lemma wf_perm l w : wf w -> l ≡ₚ rrset_l w -> wf (with_list l w).
Proof.
  intros [[S1 [L1 L2 L3]] W2 W3 W4 W5] Hp. constructor; try done. constructor; [done|]. constructor; cbn [rrset_l with_list].
  - by rewrite Hp.
  - intros id a oi. transitivity (mkLent id a oi ∈ rrset_l w); [by rewrite Hp|apply L2].
  - intros le Hle. apply L3. by rewrite <- Hp.
Qed.
Lemma wf_sort b w : wf w -> wf (with_sort b w).
Proof. intros [[S1 [L1 L2 L3]] W2 W3 W4 W5]. by constructor. Qed.
(** Fewer list entries were made than can be sorted. *)
Definition sortable (w : cache) : Prop := Z.of_nat (next_id w) < 2 ^ 32.
Lemma sort_any w : wf w -> sortable w -> wp sort_rrl w (fun _ w' => exists l, w' = with_list l w /\ l ≡ₚ rrset_l w /\ wf w').
Proof.
  intros Hw Hs. pose proof (list_bound w (so_list _ (wf_sound _ Hw))). eapply wp_mono; [apply sort_ok; [apply Hw|unfold sortable in Hs; lia]|].
  intros ? w' (l & -> & Hp & _). exists l. split; [done|]. split; [done|]. by apply wf_perm.
Qed.
Lemma resort_any w : wf w -> sortable w -> wp (sorted ← gets insert_sort; when (negb sorted) (_ ← sort_rrl; sets (with_sort true))) w (fun _ w' =>
  wf w' /\ insert_sort w' = true /\ cents w' = cents w /\ table w' = table w /\ cache_size w' = cache_size w /\ rrset_l w' ≡ₚ rrset_l w).
Proof.
  intros Hw Hs. apply wp_bind, wp_gets, wp_when; [|by intros ->%negb_false_iff]. intros _. apply wp_bind. eapply wp_mono; [by apply sort_any|].
  intros ? w1 (l & -> & Hp & Hw1). apply wp_sets. split; [by apply wf_sort|done].
Qed.
Section any.
Context {malloc_ok : nat -> bool} {clock : nat -> Z}.
Lemma purge_any sz lazy w : wf w -> sortable w -> wp (purge_cache clock sz lazy) w (fun _ w' => wf w' /\ (cache_size w' <= sz \/ rrset_l w' = [])).
Proof.
  intros Hw Hs. unfold purge_cache. apply wp_bind. eapply wp_mono; [apply (wp_makes 0), (walk_all_ok false); [apply quiet_walk_all, quiet_purge_expired|apply purge_expired_ok|done]|].
  intros ? w1 ((W1 & _ & _) & Hn). assert (sortable w1) by (unfold sortable in *; lia). apply wp_bind, wp_gets.
  destruct (Z.leb_spec (cache_size w1) sz); [apply wp_ret; auto|]. pose proof (resort_any w1 W1 ltac:(done)) as Hr.
  destruct Hr as (u & w2 & E & W2 & _). apply bind_Ret_prog in E as (b & w3 & [= <- <-] & E). apply wp_bind, wp_gets, wp_bind. exists u, w2. split; [exact E|].
  eapply wp_mono; [apply (walk_all_ok true); [apply purge_oldest_ok|done]|]. intros ? w4 (V1 & _ & V3). split; [done|].
  destruct V3 as [V3|V3]; [left; by apply Z.ltb_ge|right; by apply V3].
Qed.
Lemma purge_after sz (ok : bool) w : wf w -> sortable w -> wp (when ok (purge_cache clock sz true)) w (fun _ w' => wf w').
Proof. intros Hw Hs. apply wp_when; [|done]. intros _. eapply wp_mono; [by apply purge_any|]. by intros ? w' [? _]. Qed.
(** An entry may be added when there is room for [NRRTOT] more list entries. *)
Definition room (w : cache) : Prop := Z.of_nat (next_id w + NRRTOT) < 2 ^ 32.
Lemma add_absent_any global fuel c w : wf w -> room w -> cent_ok c -> table w !! canon (qname c) = None ->
  wp (add_cache_loop malloc_ok clock global (S fuel) c) w (fun _ w' => wf w').
Proof.
  intros Hw Hr Ho Ht. cbn [add_cache_loop]. unfold dns_lookup. apply wp_bind, wp_gets. rewrite Ht. assert (sortable w) by (unfold room, sortable in *; lia).
  destruct (_ && _); [by apply (purge_after _ true)|]. apply wp_bind. eapply wp_mono; [apply (wp_makes NRRTOT), add_new_ok; [by apply add_new_makes|done..]|].
  intros ok w1 ((W1 & _) & Hn). apply purge_after; [done|]. unfold room, sortable in *. lia.
Qed.
Lemma add_cache_any global c w : wf w -> room w -> cent_ok c -> wp (add_cache malloc_ok clock global c) w (fun _ w' => wf w').
Proof.
  intros Hw Hr Ho. unfold add_cache. destruct (table w !! canon (qname c)) as [a|] eqn:Ht; [|by apply add_absent_any].
  destruct (lookup_found _ _ _ Hw Ht) as (ce & Hc & Hoc & Eq). remember 1%nat as one. cbn [add_cache_loop]. unfold dns_lookup. apply wp_bind, wp_gets. rewrite Ht.
  destruct (negative c).
  - apply wp_bind. eapply wp_cent_at; [done|]. destruct (has_local_ok ce Hoc) as [b Hb]. apply wp_bind. eapply wp_lift_ret; [done|].
    destruct b; [by apply wp_ret|]. apply wp_bind. eapply wp_mono; [apply (wp_makes 0); [apply quiet_del_ent|by apply (del_ent_ok a ce)]|].
    intros ? w1 [F Hn]. subst one. apply add_absent_any; [apply F|unfold room in *; lia|done|]. rewrite (fg_table _ _ _ _ F), Eq. apply lookup_delete_eq.
  - apply wp_bind. eapply wp_mono; [apply (wp_makes NRRTOT), (add_to_ok global a ce c); [by apply add_to_makes|done..]|]. intros ok w1 ((c' & U & _) & Hn).
    apply purge_after; [apply U|]. unfold room, sortable in *. lia.
Qed.
End any.
End CacheGrowth.
