(* ===== verification/DiskCache.v ===== *)
(** * pdnsd/src/cache.c: the cache file

    The cache is written to a file when the program ends and read when it starts.
    [read_disk_cache] checks the file while it reads it; [write_disk_cache] purges
    the cache and writes the sets that are not local.
    - A file that is read is the list of the bytes that can be read: what follows an
      error is not seen, as with the end of the file ([log_warn_read_error] only
      tells them apart in its message). A file that is written is what was written
      so far; any [fwrite] can fail, after it has written some of the bytes.
    - The structures of the file are packed, with 32-bit times and [unsigned long].
    - The functions jump to a label when they fail: the values of [label].
    - [fetch_first] and [fetch_next] visit the entries of the hash table in some
      order ([iter]); DnsHash.v shows that they visit each once.
    - The functions run before the first and after the last thread that uses the
      cache, so that no other operation comes between their steps. Messages are not
      modelled. *)
From stdpp Require Import gmap.
From S2P Require Import Prelude Handlers DnsName DnsHash DnsCache CacheInv CacheOps CacheGrowth.
Import DnsCache CacheInv CacheOps CacheGrowth.
Local Open Scope Z_scope.

Module DiskCache.
#[local] Abbreviation canon := DnsHash.DnsHash.canon.

(** ** The structures of the file *)
Definition cachverid : list Z := [112; 100; 49; 51].
Definition field (b : list Z) (off n : nat) : Z := le_val (take n (drop off b)).
Record rr_fset_t := mkFset { fs_tp : Z; fs_num_rr : Z; fs_flags : Z; fs_ttl : Z; fs_ts : Z }.
Definition sizeof_rr_fset_t : Z := 12.
Definition rr_fset_bytes (s : rr_fset_t) : list Z :=
  le_bytes 1 (fs_tp s) ++ le_bytes 1 (fs_num_rr s) ++ le_bytes 2 (fs_flags s) ++ le_bytes 4 (fs_ttl s) ++ le_bytes 4 (fs_ts s).
Definition rr_fset_of (b : list Z) : rr_fset_t := mkFset (field b 0 1) (field b 1 1) (field b 2 2) (s32 (field b 4 4)) (s32 (field b 8 4)).
Record dns_file_t := mkDnsFile { fe_qlen : Z; fe_num_rrs : Z; fe_flags : Z; fe_c_ns : Z; fe_c_soa : Z }.
Definition sizeof_dns_file_t : Z := 6.
Definition dns_file_bytes (d : dns_file_t) : list Z :=
  le_bytes 1 (fe_qlen d) ++ le_bytes 1 (fe_num_rrs d) ++ le_bytes 2 (fe_flags d) ++ le_bytes 1 (fe_c_ns d) ++ le_bytes 1 (fe_c_soa d).
Definition dns_file_of (b : list Z) : dns_file_t := mkDnsFile (field b 0 1) (field b 1 1) (field b 2 2) (field b 4 1) (field b 5 1).
Record dom_fttlts_t := mkFttlts { ft_ttl : Z; ft_ts : Z }.
Definition sizeof_dom_fttlts_t : Z := 8.
Definition dom_fttlts_bytes (t : dom_fttlts_t) : list Z := le_bytes 4 (ft_ttl t) ++ le_bytes 4 (ft_ts t).
Definition dom_fttlts_of (b : list Z) : dom_fttlts_t := mkFttlts (s32 (field b 0 4)) (s32 (field b 4 4)).

(** ** Reading *)
(** One item of [n] bytes; [None] if there are not as many. *)
Definition fread (n : Z) (f : list Z) : option (list Z * list Z) :=
  if n <=? zlen f then Some (take (Z.to_nat n) f, drop (Z.to_nat n) f) else None.
Definition PDNSD_NOT_CACHED_TYPE (type : Z) : bool :=
  (type <? T_MIN) || (zlen rrlkuptab <? type - T_MIN + 1) || (NRRTOT <=? default NRRTOT (rrlkuptab !! Z.to_nat (type - T_MIN)))%nat.
(** The test of the name [nb] of [qlen] bytes. *)
Fixpoint check_name (fuel : nat) (nb : list Z) (qlen i : Z) : cres bool :=
  if i <? qlen then
    match fuel with
    | O => OutOfFuel
    | S fuel =>
        lb ← of_option (get nb i);
        if (lb =? 0) || (63 <? lb) then Ret false
        else let i := i + (lb + 1) in if qlen <? i then Ret false else check_name fuel nb qlen i
    end
  else Ret true.
(** The labels of a name in transport format. *)
Fixpoint labels_of (fuel : nat) (nb : list Z) : list (list Z) :=
  match fuel, nb with
  | S fuel, lb :: nb => if lb =? 0 then [] else take (Z.to_nat lb) nb :: labels_of fuel (drop (Z.to_nat lb) nb)
  | _, _ => []
  end.
(** The labels of the function; those that free the entry [ce] have it. *)
Inductive label :=
| free_cent_data_fclose (ce : dns_cent_t)
| free_data_fclose
| free_cent_data_fclose_exit (ce : dns_cent_t)
| free_data_fclose_exit
| fclose_exit.

Section reading.
Context (malloc_ok : nat -> bool) (clock : nat -> Z) (global : globals).
#[local] Abbreviation act := (prog cache).
#[local] Abbreviation goto l := (mret (inl l)).

(** The records of a set: the rest of the file, the size of [data] and the entry. *)
Fixpoint read_rrs (num_rr : nat) (sh : rr_fset_t) (dtsz : Z) (f : list Z) (ce : dns_cent_t) : act (label + list Z * Z * dns_cent_t) :=
  match num_rr with
  | O => mret (inr (f, dtsz, ce))
  | S num_rr =>
      match fread 2 f with
      | None => goto (free_cent_data_fclose ce)
      | Some (rr, f) =>
          let rdlen := field rr 0 2 in
          ok ← (if dtsz <? rdlen then malloc malloc_ok else mret true);
          if negb ok then goto (free_cent_data_fclose_exit ce)
          else
            let dtsz := if dtsz <? rdlen then rdlen else dtsz in
            _ ← ASSERT (rdlen <=? dtsz);
            match (if rdlen =? 0 then Some ([], f) else fread rdlen f) with
            | None => goto (free_cent_data_fclose ce)
            | Some (data, f) =>
                '(ok, ce) ← add_cent_rr malloc_ok (fs_tp sh) (fs_ttl sh) (fs_ts sh) (fs_flags sh) data ce;
                if negb ok then goto (free_cent_data_fclose_exit ce) else read_rrs num_rr sh dtsz f ce
            end
      end
  end.
(** The sets of an entry. *)
Fixpoint read_rrsets (num_rrs : nat) (prevtp : Z) (dtsz : Z) (f : list Z) (ce : dns_cent_t) : act (label + list Z * Z * dns_cent_t) :=
  match num_rrs with
  | O => mret (inr (f, dtsz, ce))
  | S num_rrs =>
      match fread sizeof_rr_fset_t f with
      | None => goto (free_cent_data_fclose ce)
      | Some (b, f) =>
          let sh := rr_fset_of b in
          if PDNSD_NOT_CACHED_TYPE (fs_tp sh) then goto free_data_fclose
          else if fs_tp sh <=? prevtp then goto free_data_fclose
          else
            '(ok, ce) ← add_cent_rrset_by_type malloc_ok (fs_tp sh) (fs_ttl sh) (fs_ts sh) (fs_flags sh) ce;
            if negb ok then goto (free_cent_data_fclose_exit ce)
            else
              r ← read_rrs (Z.to_nat (fs_num_rr sh)) sh dtsz f ce;
              match r with
              | inl l => goto l
              | inr (f, dtsz, ce) => read_rrsets num_rrs (fs_tp sh) dtsz f ce
              end
      end
  end.
(** The header and the name of an entry. *)
Definition read_header (f : list Z) : cres (option (dns_file_t * dom_fttlts_t * list (list Z) * list Z)) :=
  match fread sizeof_dns_file_t f with
  | None => Ret None
  | Some (b, f) =>
      let fe := dns_file_of b in
      match (if has (fe_flags fe) DF_NEGATIVE then
               match fread sizeof_dom_fttlts_t f with None => None | Some (b, f) => Some (dom_fttlts_of b, f) end
             else Some (mkFttlts 0 0, f)) with
      | None => Ret None
      | Some (fttlts, f) =>
          if fe_qlen fe =? 0 then Ret (Some (fe, fttlts, [], f))
          else
            match fread (fe_qlen fe) f with
            | None => Ret None
            | Some (nb, f) =>
                ok ← check_name (S (length nb)) nb (fe_qlen fe) 0;
                Ret (if ok : bool then Some (fe, fttlts, labels_of (S (length nb)) (nb ++ [0]), f) else None)
            end
      end
  end.
Definition read_entry (dtsz : Z) (f : list Z) : act (label + list Z * Z * dns_cent_t) :=
  h ← lift (read_header f);
  match h with
  | None => goto free_data_fclose
  | Some (fe, fttlts, nb, f) =>
      o ← init_cent malloc_ok nb (ft_ttl fttlts) (ft_ts fttlts) (fe_flags fe);
      match o with
      | None => goto free_data_fclose_exit
      | Some ce => read_rrsets (Z.to_nat (fe_num_rrs fe)) 0 dtsz f (set_c_soa (fe_c_soa fe) (set_c_ns (fe_c_ns fe) ce))
      end
  end.
(** Every entry has a header, so that the length of the file bounds the loop. *)
Fixpoint read_entries (fuel : nat) (cnt : Z) (dtsz : Z) (f : list Z) : act label :=
  if 0 <? cnt then
    match fuel with
    | O => fun _ => OutOfFuel
    | S fuel =>
        r ← read_entry dtsz f;
        match r with
        | inl l => mret l
        | inr (f, dtsz, ce) => _ ← add_cache malloc_ok clock global ce; _ ← free_cent ce; read_entries fuel (cnt - 1) dtsz f
        end
    end
  else mret free_data_fclose.
Definition read_contents (f : list Z) : act label :=
  match fread (zlen cachverid) f with
  | None => mret free_data_fclose
  | Some (buf, f) =>
      if bool_decide (buf = cachverid) then
        match fread 4 f with
        | None => mret free_data_fclose
        | Some (b, f) => read_entries (S (length f)) (field b 0 4) 512 f
        end
      else mret free_data_fclose
  end.
(** [file] is [None] if it cannot be opened. False if the program exits. *)
Definition read_disk_cache (file : option (list Z)) : act bool :=
  match file with
  | None => mret true
  | Some f =>
      ok ← malloc malloc_ok;
      l ← (if ok : bool then _ ← sets (with_sort false); read_contents f else mret fclose_exit);
      _ ← (match l with free_cent_data_fclose ce | free_cent_data_fclose_exit ce => free_cent ce | _ => mret tt end);
      match l with
      | free_cent_data_fclose _ | free_data_fclose =>
          _ ← (sorted ← gets insert_sort; when (negb sorted) (_ ← sort_rrl; sets (with_sort true))); mret true
      | _ => mret false
      end
  end.
End reading.

(** ** Writing *)
(** The types in ascending order. *)
Definition rrmuiterlist : list Z := [1; 2; 5; 6; 12; 15; 16; 28].
Definition rrcachiterlist : list Z :=
  [1; 2; 3; 4; 5; 6; 7; 8; 9; 10; 11; 12; 13; 14; 15; 16; 17; 18; 19; 20; 21; 22; 23; 24; 25; 26; 27; 28; 29; 30; 31; 32; 33; 34; 35; 36; 37;
   42; 43; 44; 45; 46; 47; 48; 49; 50; 51].
Record FILE := mkFILE { content : list Z; writes : nat }.
Definition kept_set (x : option rr_set_t) : bool := match x with Some r => negb (has (flags r) CF_LOCAL) | None => false end.

Section writing.
(** [fails n]: call [n] of [fwrite] fails, after that many bytes. *)
Context (fails : nat -> option nat).
#[local] Abbreviation act := (prog FILE).
Definition fwrite (data : list Z) : act bool := fun f =>
  match fails (writes f) with
  | None => Ret (true, mkFILE (content f ++ data) (S (writes f)))
  | Some n => Ret (false, mkFILE (content f ++ take n data) (S (writes f)))
  end.
Definition andthen (m k : act bool) : act bool := ok ← m; if ok : bool then k else mret false.
Fixpoint write_rrs (l : list (list Z)) : act bool :=
  match l with
  | [] => mret true
  | data :: l =>
      let rdlen := u16 (zlen data) in
      andthen (fwrite (le_bytes 2 rdlen))
        (andthen (if rdlen =? 0 then mret true else fwrite (take (Z.to_nat rdlen) data)) (write_rrs l))
  end.
Definition write_rrset (tp : Z) (r : rr_set_t) : act bool :=
  let num_rr := Nat.min 255 (length (rrs r)) in
  andthen (fwrite (rr_fset_bytes (mkFset tp (Z.of_nat num_rr) (flags r) (ttl r) (ts r)))) (write_rrs (take num_rr (rrs r))).
(** Whether an entry has something that is written. *)
Definition is_saved (c : dns_cent_t) : cres bool :=
  if negative c then Ret (negb (has (dflags c) DF_LOCAL)) else arr ← RRARR c; Ret (existsb kept_set arr).
Fixpoint write_sets (c : dns_cent_t) (iterlist : list Z) : act bool :=
  match iterlist with
  | [] => mret true
  | tp :: iterlist =>
      x ← lift (getrrset_eff c tp);
      andthen (match x with Some r => if has (flags r) CF_LOCAL then mret true else write_rrset tp r | None => mret true end)
        (write_sets c iterlist)
  end.
Definition write_entry (c : dns_cent_t) : act bool :=
  n ← lift (rhnlen (wire (qname c)));
  let qlen := u8 (n - 1) in
  arr ← lift (RRARR c);
  let df := mkDnsFile qlen (zlen (filter (fun x => kept_set x = true) arr)) (dflags c) (c_ns c) (c_soa c) in
  andthen (fwrite (dns_file_bytes df))
    (andthen (if negative c then '(_, t, s) ← lift (the_neg c); fwrite (dom_fttlts_bytes (mkFttlts t s)) else mret true)
      (andthen (if qlen =? 0 then mret true else fwrite (take (Z.to_nat qlen) (wire (qname c))))
        (write_sets c (if negative c then [] else if (NRRMU <? length arr)%nat then rrcachiterlist else rrmuiterlist)))).
Fixpoint count_saved (w : cache) (es : list Z) (en : Z) : cres Z :=
  match es with
  | [] => Ret en
  | a :: es => c ← of_option (cents w !! a); b ← is_saved c; count_saved w es (if b : bool then u32 (en + 1) else en)
  end.
Fixpoint write_entries (w : cache) (es : list Z) : act bool :=
  match es with
  | [] => mret true
  | a :: es => c ← lift (of_option (cents w !! a)); b ← lift (is_saved c); andthen (if b : bool then write_entry c else mret true) (write_entries w es)
  end.
Definition write_contents (w : cache) (es : list Z) : act bool :=
  andthen (fwrite cachverid)
    (en ← lift (count_saved w es 0); andthen (fwrite (le_bytes 4 en)) (write_entries w es)).
(** The file, or [None] if it could not be opened, and the purged cache. *)
Definition write_disk_cache (clock : nat -> Z) (global : globals) (iter : cache -> list Z) (open : bool) (w : cache) : cres (option FILE * cache) :=
  '(_, w) ← purge_cache clock (perm_cache global * 1024) false w;
  if open then '(_, f) ← write_contents w (iter w) (mkFILE [] 0); Ret (Some f, w) else Ret (None, w).
End writing.
End DiskCache.
