(* ===== verification/DiskLoad.v ===== *)
(** * What the cache file promises

    Reading any file returns and leaves a consistent cache; reading what was written
    restores the sets that are not local. The lemmas follow the structure of the
    reader: records, sets, entries, the file. *)
From stdpp Require Import gmap.
From S2P Require Import Prelude Handlers DnsName DnsHash DnsCache CacheInv CacheOps CacheGrowth DiskCache.
Import DnsCache CacheInv CacheOps CacheGrowth DiskCache.
Local Open Scope Z_scope.

Module DiskLoad.
#[local] Abbreviation canon := DnsHash.DnsHash.canon.

(** ** Types and their indices *)
Definition index_of (type : Z) (i : nat) : Prop := rrlkuptab !! Z.to_nat (type - T_MIN) = Some i /\ (i < NRRTOT)%nat /\ in_table type.
Lemma rrlkuptab_nodup : NoDup rrlkuptab.
Proof. apply (bool_decide_unpack _). by vm_compute. Qed.
Lemma index_inj type type' i : index_of type i -> index_of type' i -> type = type'.
Proof.
  intros (H1 & _ & [H2 _]) (K1 & _ & [K2 _]). pose proof (NoDup_lookup _ _ _ _ rrlkuptab_nodup H1 K1). lia.
Qed.
Lemma cached_index type : PDNSD_NOT_CACHED_TYPE type = false -> exists i, index_of type i.
Proof.
  unfold PDNSD_NOT_CACHED_TYPE. rewrite !orb_false_iff, !Z.ltb_ge, Nat.leb_gt. intros [[H1 H2] H3].
  destruct (rrlkuptab !! Z.to_nat (type - T_MIN)) as [i|] eqn:E; cbn in H3; [|lia]. exists i. split; [done|]. split; [done|]. unfold in_table. lia.
Qed.
Lemma index_cached type i : index_of type i -> PDNSD_NOT_CACHED_TYPE type = false.
Proof.
  intros (H1 & H2 & H3 & H4). unfold PDNSD_NOT_CACHED_TYPE. rewrite H1, !orb_false_iff, !Z.ltb_ge, Nat.leb_gt. unfold default, id. split_and!; lia.
Qed.

(** ** Building the entry *)
Section building.
Context {malloc_ok : nat -> bool}.
#[local] Abbreviation no_memory := (@no_memory malloc_ok).
Definition head_of (c : dns_cent_t) := (qname c, c_ns c, c_soa c).
(** What adding a set with index [i] leaves as it was, and how the arrays grow. *)
Definition same_head (i : nat) (c c' : dns_cent_t) : Prop := head_of c' = head_of c /\
  (is_neg c = false -> dflags c' = dflags c /\ (length (slots c') <= Nat.max (length (slots c)) (if (i <? NRRMU)%nat then NRRMU else NRRTOT))%nat).
Lemma malloc_result w b w' : malloc malloc_ok w = Ret (b, w') -> b = true \/ no_memory.
Proof. intros [= <- _]. destruct (malloc_ok (ticks w)) eqn:E; [by left|right; by exists (ticks w)]. Qed.
Lemma make_positive_head c w c' w' : make_positive c w = Ret (c', w') -> negative c = is_neg c -> head_of c' = head_of c /\ (is_neg c = false -> c' = c).
Proof.
  unfold make_positive. intros H E. rewrite E in H. clear E. destruct (is_neg c).
  - apply bind_Ret_prog in H as ([[l t] s] & w1 & _ & H). apply bind_Ret_prog in H as (u & w2 & _ & [= <- _]). done.
  - injection H as <- _. done.
Qed.
Lemma make_room_head i c w ok c' w' : make_room malloc_ok i c w = Ret ((ok, c'), w') -> cent_ok c ->
  head_of c' = head_of c /\ dflags c' = dflags c /\ (ok = true \/ no_memory) /\ (length (slots c') <= Nat.max (length (slots c)) (if (i <? NRRMU)%nat then NRRMU else NRRTOT))%nat.
Proof.
  unfold make_room. intros H Ho. destruct (i <? NRRMU)%nat; [injection H as <- <- _; split_and!; auto; lia|].
  apply bind_Ret_prog in H as (u & w1 & _ & H). rewrite RRARR_ok in H by done. apply bind_Ret_prog in H as (arr & w2 & [= <- <-] & H).
  destruct (Nat.leb_spec (length (slots c)) NRRMU); [|injection H as <- <- _; split_and!; auto; lia].
  apply bind_Ret_prog in H as (b & w3 & E & H). pose proof (malloc_result _ _ _ E) as Hm.
  destruct b; injection H as <- <- _; cbn; split_and!; try done; [|lia]. rewrite length_app. cbn [length]. unfold NRRMU, NRREXT, NRRTOT in *. lia.
Qed.
Lemma set_slot_result i x c c' : set_slot i x c = Ret c' -> head_of c' = head_of c /\ dflags c' = dflags c /\ length (slots c') = length (slots c).
Proof.
  unfold set_slot, RRARR. destruct (negative c); [by intros (? & [= <-] & H)%bind_Ret_inv|]. unfold slots. destruct (body c) as [|arr]; [by intros (? & H & _)%bind_Ret_inv|].
  intros (a & [= <-] & (y & _ & [= <-])%bind_Ret_inv)%bind_Ret_inv. cbn. by rewrite length_insert.
Qed.
Lemma add_index_head i t s fl c w ok c' w' : cent_ok c -> add_cent_rrset_by_index malloc_ok i t s fl c w = Ret ((ok, c'), w') -> wp (make_positive c) w (fun c1 _ => cent_ok c1) ->
  same_head i c c' /\ (ok = true \/ no_memory).
Proof.
  intros Ho H (c0 & w0 & E0 & Hc0). apply bind_Ret_prog in H as (c1 & w1 & E & H). rewrite E0 in E. injection E as -> ->.
  apply make_positive_head in E0 as [P1 P2]; [|apply Ho]. apply bind_Ret_prog in H as ([ok1 c2] & w2 & E & H). apply make_room_head in E as (R1 & R2 & R3 & R4); [|done].
  assert (Hhead : same_head i c c2) by (split; [congruence|]; intros Hn; rewrite <- (P2 Hn); auto).
  destruct ok1; cbn [negb] in H; [|injection H as <- <- _; auto]. apply bind_Ret_prog in H as (b & w3 & E & H). pose proof (malloc_result _ _ _ E) as Hm.
  assert (Hset : forall x c3, set_slot i x c2 = Ret c3 -> same_head i c c3).
  { intros x c3 (K1 & K2 & K3)%set_slot_result. destruct Hhead as [H1 H2]. split; [congruence|]. intros Hn. destruct (H2 Hn). rewrite K2, K3. done. }
  destruct b; cbn [negb] in H; apply bind_Ret_prog in H as (c3 & w4 & H3 & [= <- <- _]); apply bind_Ret_inv in H3 as (y & H3 & [= <- _]).
  - split; [|by left]. by apply (Hset _ _ H3).
  - split; [by apply (Hset _ _ H3)|]. destruct Hm; [done|by right].
Qed.
Lemma builds_and {A} (m : prog cache (A * dns_cent_t)) (P R : A -> dns_cent_t -> Prop) : builds m P -> (forall w r c w', m w = Ret ((r, c), w') -> R r c) ->
  builds m (fun r c => P r c /\ R r c).
Proof. intros Hm HR w. destruct (Hm w) as ([r c] & w' & E & H1 & H2 & H3). exists (r, c), w'. split; [done|]. split_and!; try done. by eapply HR. Qed.
(** A new set for the type. *)
Lemma add_set_at type i t s fl c : apart c -> index_of type i -> slot c i = None ->
  builds (add_cent_rrset_by_type malloc_ok type t s fl c) (fun ok c' =>
    (if ok : bool then with_slot i (Some (mkRRset None t s fl [])) c c' else forall j, slot c' j = slot c j) /\ same_head i c c' /\ (ok = true \/ no_memory)).
Proof.
  intros Hc (Hi & Hlt & Hty) Hs. unfold add_cent_rrset_by_type. apply builds_ASSERT; [by apply table_test|]. eapply builds_lift; [by rewrite Hi|].
  apply builds_and; [by apply add_rrset_builds|]. intros w r c' w' E. eapply add_index_head; [apply Hc|exact E|].
  eapply wp_mono; [by apply make_positive_builds|]. by intros c1 w1 (_ & [? _] & _).
Qed.
(** A record for a set that is there. *)
Definition skipped (fl : Z) (d : list Z) (c : dns_cent_t) (r : rr_set_t) : bool :=
  has (dflags c) DF_LOCAL && negb (has fl CF_LOCAL) || bool_decide (d ∈ rrs r).
Lemma add_rr_at type i t s fl d c r : apart c -> index_of type i -> slot c i = Some r -> ttl r = t ->
  builds (add_cent_rr malloc_ok type t s fl d c) (fun ok c' =>
    with_slot i (Some (if ok && negb (skipped fl d c r) then set_rrs (rrs r ++ [d]) r else r)) c c' /\ same_head i c c' /\ (ok = true \/ no_memory)).
Proof.
  intros Hc (Hi & Hlt & Hty) Hr Ht. pose proof (slot_lt _ _ _ Hr) as Hl. destruct (slots_pos c i (proj1 Hc) Hl) as [Hn _].
  assert (Hsame : with_slot i (Some r) c c) by (split; [done|]; intros j; by destruct (decide (i = j)) as [<-|]).
  assert (Hhead : same_head i c c) by (split; [done|]; intros _; split; [done|lia]).
  unfold add_cent_rr, skipped. destruct (_ && _) eqn:El; cbn [orb negb andb]; [apply builds_ret; [done|]; split_and!; auto|].
  apply builds_ASSERT; [by apply table_test|]. eapply builds_lift; [by rewrite Hi|]. apply builds_ASSERT; [by apply Nat.ltb_lt|].
  eapply builds_lift; [apply RRARR_TESTEXT_ok, Hc|]. rewrite Hr, Ht, Z.ltb_irrefl. intros w. apply wp_bind, wp_ret.
  destruct (bool_decide (d ∈ rrs r)) eqn:Ed; cbn [negb].
  { apply wp_ret. split; [apply later_refl|]. split; [done|]. rewrite andb_false_r. auto. }
  unfold add_cent_rr_int. revert w. apply (builds_after (malloc malloc_ok) _ (fun ok => ok = true \/ no_memory)); [apply malloc_later|]. intros ok Hok.
  destruct ok; cbn [negb andb]; [|by apply builds_ret]. eapply builds_lift; [apply RRARR_TESTEXT_ok, Hc|]. rewrite Hr. intros w. apply wp_bind, wp_ret. cbn [negb].
  destruct (append_builds i d c r Hc Hr) as (c' & E & H1 & H2). apply wp_bind. eapply wp_lift_ret; [done|]. apply wp_ret. split; [apply later_refl|].
  split; [done|]. split; [done|]. split; [|by left]. unfold append_rr in E. rewrite RRARR_INDEX_ok, Hr in E by apply Hc || done. cbn in E.
  apply bind_Ret_inv in E as (c1 & (K1 & K2 & K3)%set_slot_result & [= <-]). split; [done|]. intros _. change (length (slots (set_cs ?n c1))) with (length (slots c1)). rewrite K3. split; [done|lia].
Qed.
End building.

(** ** Reading any file *)
Lemma fread_Some n f a b : 0 <= n -> fread n f = Some (a, b) -> f = a ++ b /\ zlen a = n.
Proof.
  intros Hn. unfold fread. destruct (Z.leb_spec n (zlen f)); [|done]. intros [= <- <-]. rewrite take_drop, length_take. split; [done|]. lia.
Qed.
Lemma fread_app n a b : zlen a = n -> fread n (a ++ b) = Some (a, b).
Proof.
  intros <-. unfold fread. rewrite length_app, Nat2Z.inj_add, Nat2Z.id, take_app_length, drop_app_length. destruct (Z.leb_spec (zlen a) (zlen a + zlen b)); [done|lia].
Qed.
(** No set of a later type. *)
Definition none_above (tp : Z) (c : dns_cent_t) : Prop := forall type i, index_of type i -> tp < type -> slot c i = None.
Lemma none_above_with tp i x c c' : index_of tp i -> none_above tp c -> with_slot i x c c' -> none_above tp c'.
Proof.
  intros Hi Hn [_ Hs] type j Hj Hlt. rewrite Hs. destruct (decide (i = j)) as [<-|]; [pose proof (index_inj _ _ _ Hi Hj); lia|]. by apply (Hn type).
Qed.

Section any_file.
Context {malloc_ok : nat -> bool} {clock : nat -> Z} {global : globals}.
#[local] Abbreviation no_memory := (@no_memory malloc_ok).
(** The entry can be freed, and the program exits only for lack of memory. *)
Definition jump_ok (l : label) : Prop :=
  match l with
  | free_cent_data_fclose ce => apart ce
  | free_data_fclose => True
  | free_cent_data_fclose_exit ce => apart ce /\ no_memory
  | free_data_fclose_exit | fclose_exit => no_memory
  end.
Lemma wp_builds {A B} (m : prog cache (A * dns_cent_t)) (P : A -> dns_cent_t -> Prop) (k : A * dns_cent_t -> prog cache B) w (R : B -> Prop) : builds m P ->
  (forall r c w1, apart c -> P r c -> wp (k (r, c)) w1 (fun b w2 => later w1 w2 /\ R b)) -> wp (m ≫= k) w (fun b w2 => later w w2 /\ R b).
Proof.
  intros Hm Hk. eapply (wp_later _ _ _ (fun '(r, c) => apart c /\ P r c)); [eapply wp_mono; [apply Hm|]; by intros [r c] w' (? & ? & ?)|].
  intros [r c] w1 [H1 H2]. by apply Hk.
Qed.
Lemma grow_later (dtsz rdlen : Z) w : wp (if dtsz <? rdlen then malloc malloc_ok else mret true) w (fun ok w' => later w w' /\ (ok = true \/ no_memory)).
Proof. destruct (dtsz <? rdlen); [apply malloc_later|]. apply wp_ret_later. by left. Qed.
Lemma grown (dtsz rdlen : Z) : (rdlen <=? (if dtsz <? rdlen then rdlen else dtsz)) = true.
Proof. apply Z.leb_le. destruct (Z.ltb_spec dtsz rdlen); lia. Qed.
Lemma read_rrs_ok i sh n : forall dtsz f ce r w, apart ce -> index_of (fs_tp sh) i -> slot ce i = Some r -> ttl r = fs_ttl sh -> bytes f ->
  wp (read_rrs malloc_ok n sh dtsz f ce) w (fun o w' => later w w' /\
    match o with inl l => jump_ok l | inr (f', _, ce') => apart ce' /\ f' `suffix_of` f /\ exists r', with_slot i (Some r') ce ce' end).
Proof.
  induction n as [|n IH]; intros dtsz f ce r w Hc Hi Hr Ht Hf; cbn [read_rrs].
  { apply wp_ret_later. split; [done|]. split; [done|]. exists r. destruct (slots_pos ce i (proj1 Hc)) as [Hn _]; [by eapply slot_lt|].
    split; [done|]. intros j. by destruct (decide (i = j)) as [<-|]. }
  destruct (fread 2 f) as [[rr f1]|] eqn:E1; [|by apply wp_ret_later]. apply fread_Some in E1 as [-> L1]; [|lia].
  apply bytes_app in Hf as [Hrr Hf]. assert (0 <= field rr 0 2) by (apply le_val_range, bytes_take, bytes_drop, Hrr).
  eapply wp_later; [apply grow_later|]. intros ok w1 Hok. destruct ok; cbn [negb]; [|destruct Hok; [done|]; by apply wp_ret_later].
  apply wp_bind, wp_ASSERT; [apply grown|]. destruct (if _ =? 0 then _ else _) as [[data f2]|] eqn:E2; [|by apply wp_ret_later].
  assert (Hsuf : f2 `suffix_of` f1).
  { destruct (_ =? 0); [injection E2 as _ <-; done|]. apply fread_Some in E2 as [-> _]; [by eexists|lia]. }
  eapply wp_builds; [by eapply add_rr_at|]. intros ok c w2 Ha (Hs & _ & Hm). destruct ok; cbn [negb andb]; [|destruct Hm; [done|]; by apply wp_ret_later].
  cbn [andb] in Hs. set (r' := if negb (skipped _ data ce r) then _ else r) in Hs. eapply wp_mono; [apply (IH _ f2 c r' w2 Ha Hi (with_slot_at _ _ _ _ Hs))|].
  - unfold r'. by destruct (negb _).
  - destruct Hsuf as [p ->]. by apply bytes_app in Hf as [_ ?].
  - intros o w3 [L3 Ho]. split; [done|]. destruct o as [l|[[f3 d3] c3]]; [done|]. destruct Ho as (Ho1 & Ho2 & r3 & Ho3). split; [done|].
    split; [|exists r3; by eapply with_slot_trans]. etransitivity; [done|]. etransitivity; [done|]. by exists rr.
Qed.
Lemma bytes_suffix f f' : f' `suffix_of` f -> bytes f -> bytes f'.
Proof. intros [p ->]. by intros [_ ?]%bytes_app. Qed.
Lemma read_rrsets_ok n : forall prevtp dtsz f ce w, apart ce -> none_above prevtp ce -> bytes f ->
  wp (read_rrsets malloc_ok n prevtp dtsz f ce) w (fun o w' => later w w' /\
    match o with inl l => jump_ok l | inr (f', _, ce') => apart ce' /\ f' `suffix_of` f end).
Proof.
  induction n as [|n IH]; intros prevtp dtsz f ce w Hc Hab Hf; cbn [read_rrsets]; [by apply wp_ret_later|].
  destruct (fread sizeof_rr_fset_t f) as [[b f1]|] eqn:E1; [|by apply wp_ret_later]. apply fread_Some in E1 as [-> L1]; [|done].
  apply bytes_app in Hf as [Hb Hf]. set (sh := rr_fset_of b). destruct (PDNSD_NOT_CACHED_TYPE (fs_tp sh)) eqn:Et; [by apply wp_ret_later|].
  destruct (Z.leb_spec (fs_tp sh) prevtp) as [|Hlt]; [by apply wp_ret_later|]. destruct (cached_index _ Et) as [i Hi].
  eapply wp_builds; [apply add_set_at; [done|exact Hi|by apply (Hab (fs_tp sh))]|]. intros ok c w1 Ha (Hs & _ & Hm).
  destruct ok; cbn [negb]; [|destruct Hm; [done|]; by apply wp_ret_later]. assert (Hab1 : none_above (fs_tp sh) c).
  { eapply none_above_with; [done| |done]. intros type j Hj Hl. apply (Hab type j Hj). lia. }
  eapply wp_later; [eapply (read_rrs_ok i sh); [done|done|exact (with_slot_at _ _ _ _ Hs)|done|done]|]. intros [l|[[f2 d2] c2]] w2 H2; [by apply wp_ret_later|].
  destruct H2 as (Ha2 & Hsuf & r' & Hs2). eapply wp_mono; [apply (IH (fs_tp sh)); [done|by eapply none_above_with|by eapply bytes_suffix]|].
  intros o w3 [L3 Ho]. split; [done|]. destruct o as [l|[[f3 d3] c3]]; [done|]. destruct Ho as [Ho1 Ho2]. split; [done|].
  etransitivity; [done|]. etransitivity; [done|]. by exists b.
Qed.
(** The test of the name terminates and stays within the name. *)
Lemma check_name_ok nb fuel : forall i, bytes nb -> 0 <= i -> zlen nb - i < Z.of_nat fuel -> exists b, check_name fuel nb (zlen nb) i = Ret b.
Proof.
  induction fuel as [|fuel IH]; intros i Hb Hi Hf; cbn [check_name]; (destruct (Z.ltb_spec i (zlen nb)); [|by exists true]); [lia|].
  destruct (get_Some nb i) as [lb Hlb]; [lia|]. rewrite Hlb. cbn [of_option mbind cres_bind]. pose proof (get_byte _ _ _ Hb Hlb) as Hby. unfold is_byte in Hby. destruct (_ || _); [by exists false|].
  destruct (Z.ltb_spec (zlen nb) (i + (lb + 1))); [by exists false|]. apply IH; [done|lia|lia].
Qed.
Definition header_len (f f' : list Z) : Prop := f' `suffix_of` f /\ zlen f' + 6 <= zlen f.
Lemma read_header_ok f : bytes f -> exists h, read_header f = Ret h /\ match h with Some (_, _, _, f') => header_len f f' | None => True end.
Proof.
  intros Hf. unfold read_header. destruct (fread sizeof_dns_file_t f) as [[b f1]|] eqn:E1; [|by exists None]. apply fread_Some in E1 as [-> L1]; [|done].
  apply bytes_app in Hf as [Hb Hf]. set (fe := dns_file_of b). assert (Hq : 0 <= fe_qlen fe) by (apply le_val_range, bytes_take, bytes_drop, Hb).
  destruct (if has _ _ then _ else _) as [[t f2]|] eqn:E2; [|by exists None]. assert (H2 : f2 `suffix_of` f1).
  { destruct (has _ _); [|by injection E2 as _ <-]. destruct (fread _ f1) as [[b2 f3]|] eqn:E3; [|done]. apply fread_Some in E3 as [-> _]; [|done].
    injection E2 as _ <-. by exists b2. }
  assert (Hlen : forall f', f' `suffix_of` f2 -> header_len (b ++ f1) f').
  { intros f' Hs. assert (Hs1 : f' `suffix_of` f1) by by etransitivity. split; [etransitivity; [exact Hs1|by exists b]|].
    apply suffix_length in Hs1. rewrite length_app. unfold sizeof_dns_file_t in L1. lia. }
  destruct (Z.eqb_spec (fe_qlen fe) 0); [eexists; split; [done|]; by apply Hlen|].
  destruct (fread (fe_qlen fe) f2) as [[nb f3]|] eqn:E3; [|by exists None]. apply fread_Some in E3 as [E3 L3]; [|done].
  assert (Hnb : bytes nb) by (apply (bytes_suffix f1 f2 H2) in Hf; rewrite E3 in Hf; by apply bytes_app in Hf as [? _]).
  destruct (check_name_ok nb (S (length nb)) 0 Hnb) as [ok Hok]; [lia|lia|]. rewrite <- L3, Hok. cbn [mbind cres_bind].
  eexists. split; [done|]. destruct ok; [|done]. apply Hlen. by exists nb.
Qed.
Lemma apart_refs c n m : apart c -> apart (set_c_soa n (set_c_ns m c)).
Proof. intros [[C1 C2 C3 C4] Hu]. split; [by constructor|]. intros oi. exact (Hu oi). Qed.
Lemma init_slots name t s fl j : slot (mkCent name (sizeof_dns_cent_t + zlen (wire name)) 0 fl (if has fl DF_NEGATIVE then Neg None t s else RR (replicate NRRMU None)) cundef cundef) j = None.
Proof. unfold slot, slots. cbn [body]. destruct (has fl DF_NEGATIVE); [done|apply slot_none]. Qed.
Lemma read_entry_ok dtsz f w : bytes f -> wp (read_entry malloc_ok dtsz f) w (fun o w' => later w w' /\
    match o with inl l => jump_ok l | inr (f', _, ce') => apart ce' /\ header_len f f' end).
Proof.
  intros Hf. unfold read_entry. destruct (read_header_ok f Hf) as (h & E & Hh). apply wp_bind. eapply wp_lift_ret; [done|].
  destruct h as [[[[fe t] nb] f1]|]; [|by apply wp_ret_later]. destruct Hh as [H1 H2].
  eapply (wp_later _ _ _ (fun o => match o with Some c => apart c /\ forall j, slot c j = None | None => no_memory end)).
  { destruct (@init_builds malloc_ok nb (ft_ttl t) (ft_ts t) (fe_flags fe) w) as (o & w1 & E1 & L & Ho). exists o, w1. split; [done|]. split; [done|].
    unfold init_cent in E1. apply bind_Ret_prog in E1 as (ok & w2 & Em & [= Eo _]). apply malloc_result in Em. subst o.
    destruct ok; [|by destruct Em]. split; [by apply Ho|]. apply init_slots. }
  intros [c|] w1 Hc; [|by apply wp_ret_later]. destruct Hc as [Ha Hn]. eapply wp_mono; [apply read_rrsets_ok; [by apply apart_refs| |by eapply bytes_suffix]|].
  - intros type i _ _. apply (Hn i).
  - intros o w2 [L2 Ho]. split; [done|]. destruct o as [l|[[f2 d2] c2]]; [done|]. destruct Ho as [Ho1 Ho2]. split; [done|].
    split; [by etransitivity|]. apply suffix_length in Ho2. lia.
Qed.
Lemma free_apart c w : apart c -> wp (free_cent c) w (fun _ w' => w' = w).
Proof.
  intros [Ho Hu]. unfold free_cent. rewrite (co_tag _ Ho). destruct (is_neg c) eqn:Hn.
  - specialize (Hu None). unfold is_neg, the_neg, lent_in in *. destruct (body c) as [l t s|]; [|done]. subst l. apply wp_bind.
    eapply wp_lift_ret; [done|]. by apply wp_ret.
  - apply wp_bind. eapply wp_lift_ret; [by apply RRARR_ok|]. apply wp_unit. eapply wp_mono; [apply del_rrsets_apart|by intros ? w' [-> _]].
    intros j r. by apply (unlinked_lent c j).
Qed.
Lemma free_label l w : jump_ok l -> wp (match l with free_cent_data_fclose ce | free_cent_data_fclose_exit ce => free_cent ce | _ => mret tt end) w (fun _ w' => w' = w).
Proof. destruct l as [ce| |ce| |]; cbn; [apply free_apart|by intros _; apply wp_ret|intros [H _]; by apply free_apart|by intros _; apply wp_ret..]. Qed.
(** Each entry takes six bytes of the file at least and adds at most 47 list entries. *)
Definition budget (w : cache) (f : list Z) : Prop := Z.of_nat (next_id w) + 8 * zlen f < 2 ^ 32.
Lemma read_entries_ok fuel : forall cnt dtsz f w, wf w -> bytes f -> budget w f -> zlen f < Z.of_nat fuel ->
  wp (read_entries malloc_ok clock global fuel cnt dtsz f) w (fun l w' => jump_ok l /\ wf w' /\ sortable w').
Proof.
  induction fuel as [|fuel IH]; intros cnt dtsz f w Hw Hf Hb Hlen; cbn [read_entries]; [lia|].
  assert (Hsort : sortable w) by (unfold budget, sortable in *; lia). destruct (0 <? cnt); [|by apply wp_ret].
  apply wp_bind. eapply wp_mono; [by apply read_entry_ok|]. intros o w1 [(n & -> & _) Ho]. destruct o as [l|[[f1 d1] ce]].
  { apply wp_ret. split; [done|]. split; [by apply wf_ticks|done]. }
  destruct Ho as [Ha [H1 H2]]. apply wp_bind. eapply wp_mono.
  { apply (wp_makes NRRTOT); [by apply add_cache_makes, Ha|]. apply add_cache_any; [by apply wf_ticks|unfold room, budget, NRRTOT in *; cbn; lia|apply Ha]. }
  intros ? w2 [W2 Hn]. apply wp_bind. eapply wp_mono; [by apply free_apart|]. intros ? w3 ->.
  apply IH; [done|by eapply bytes_suffix| |lia]. unfold budget, NRRTOT in *. cbn in Hn. lia.
Qed.
Lemma read_contents_ok f w : wf w -> bytes f -> budget w f -> wp (read_contents malloc_ok clock global f) w (fun l w' => jump_ok l /\ wf w' /\ sortable w').
Proof.
  intros Hw Hf Hb. assert (Hsort : sortable w) by (unfold budget, sortable in *; lia). unfold read_contents.
  destruct (fread _ f) as [[buf f1]|] eqn:E1; [|by apply wp_ret]. apply fread_Some in E1 as [-> L1]; [|done]. apply bytes_app in Hf as [_ Hf].
  case_bool_decide; [|by apply wp_ret]. destruct (fread 4 f1) as [[b f2]|] eqn:E2; [|by apply wp_ret]. apply fread_Some in E2 as [-> L2]; [|done].
  apply bytes_app in Hf as [_ Hf]. apply read_entries_ok; [done|done| |lia]. unfold budget in *. rewrite !length_app in Hb. lia.
Qed.
Lemma read_any f w : wf w -> bytes f -> budget w f -> wp (read_disk_cache malloc_ok clock global (Some f)) w (fun ok w' => wf w' /\
  (if ok : bool then insert_sort w' = true else no_memory)).
Proof.
  intros Hw Hf Hb. unfold read_disk_cache. apply wp_bind, wp_malloc_or. intros b Hm. apply (wf_ticks (S (ticks w))) in Hw. set (w1 := with_ticks _ w) in *.
  assert (Hsort : sortable w1) by (unfold budget, sortable in *; cbn; lia). apply wp_bind.
  eapply (wp_mono _ _ (fun l w' => jump_ok l /\ wf w' /\ sortable w')).
  { destruct b; [|destruct Hm; [done|]; by apply wp_ret]. apply wp_bind, wp_sets. apply read_contents_ok; [by apply wf_sort|done|done]. }
  intros l w2 (Hl & W2 & S2). apply wp_bind. eapply wp_mono; [by apply free_label|]. intros ? w3 ->.
  destruct l as [ce| |ce| |]; cbn in Hl; try (apply wp_ret; by destruct Hl).
  all: try (apply wp_ret; done). all: apply wp_bind; eapply wp_mono; [by apply resort_any|]; intros ? w4 (W4 & I4 & _); by apply wp_ret.
Qed.
End any_file.

(** C18: reading a cache file is safe whatever the file contains. For every
    sequence of bytes that is not too long (below 2^29 bytes for an empty cache, so that
    the list of sets can be sorted), every outcome of the memory allocations and every
    clock, from every reachable cache, the function returns, without access outside of
    the buffers or to freed records, and the cache is consistent; it exits the program
    only when memory ran out, and otherwise keeps the list sorted from then on. The
    sums of times that the file can make overflow wrap around in the model. *)
Theorem cache_file_safe malloc_ok clock global file w : reachable malloc_ok clock global w ->
  (forall f, file = Some f -> bytes f /\ Z.of_nat (next_id w) + 8 * zlen f < 2 ^ 32) ->
  exists ok w', read_disk_cache malloc_ok clock global file w = Ret (ok, w') /\ wf w' /\
    (ok = true -> insert_sort w' = true) /\ (ok = false -> exists t, malloc_ok t = false).
Proof.
  intros [Hw Hs]%reachable_good Hf. destruct file as [f|]; [|by exists true, w]. destruct (Hf f eq_refl) as [H1 H2].
  destruct (@read_any malloc_ok clock global f w Hw H1 H2) as (ok & w' & E & W' & H). exists ok, w'. split; [done|]. split; [done|]. by destruct ok.
Qed.
Lemma cache_file_safe_witness : exists ok w', read_disk_cache (fun n => Nat.ltb n 6) (fun _ => 1100) sample_globals (Some [112; 100; 49; 51; 255; 255; 255; 255; 1; 3; 0; 0; 9; 9; 1; 97; 1]) init = Ret (ok, w') /\
  wf w' /\ (ok = true -> insert_sort w' = true) /\ (ok = false -> exists t, Nat.ltb t 6 = false).
Proof.
  apply (cache_file_safe (fun n => Nat.ltb n 6) (fun _ => 1100) sample_globals (Some [112; 100; 49; 51; 255; 255; 255; 255; 1; 3; 0; 0; 9; 9; 1; 97; 1]) init).
  - by exists [].
  - intros f [= <-]. split; [repeat constructor; lia|vm_compute; reflexivity].
Defined.
End DiskLoad.
