(* ===== verification/DiskRound.v ===== *)
(** * What is written to the cache file is read back

    [entry_image] and [file_image] are the bytes that stand for entries of the cache.
    Writing produces them, up to the first [fwrite] that fails; reading them, up to
    where the file ends, builds the entries again and adds them to the cache. *)
From Stdlib Require Import Sorting.Sorted.
From stdpp Require Import gmap.
From S2P Require Import Prelude Handlers DnsName DnsHash DnsCache CacheInv CacheOps CacheGrowth DiskCache DiskLoad.
Import DnsCache CacheInv CacheOps CacheGrowth DiskCache DiskLoad.
Local Open Scope Z_scope.

Module DiskRound.
#[local] Abbreviation canon := DnsHash.DnsHash.canon.

(** ** The lists of types *)
Definition types_of (c : dns_cent_t) : list Z := if is_neg c then [] else if (NRRMU <? length (slots c))%nat then rrcachiterlist else rrmuiterlist.
Definition index_test (type : Z) (i : nat) : bool :=
  bool_decide (rrlkuptab !! Z.to_nat (type - T_MIN) = Some i) && (i <? NRRTOT)%nat && (0 <=? type - T_MIN) && (type - T_MIN <? zlen rrlkuptab).
Lemma index_test_ok type i : index_test type i = true <-> index_of type i.
Proof.
  unfold index_test, index_of, in_table. rewrite !andb_true_iff, bool_decide_eq_true, Nat.ltb_lt, Z.leb_le, Z.ltb_lt. tauto.
Qed.
Definition covers (types : list Z) (n : nat) : bool :=
  forallb (fun tp => existsb (index_test tp) (seq 0 n)) types && forallb (fun i => existsb (fun tp => index_test tp i) types) (seq 0 n).
Lemma covers_ok types n : covers types n = true ->
  (forall tp, tp ∈ types -> exists i, index_of tp i /\ (i < n)%nat) /\ (forall i, (i < n)%nat -> exists tp, tp ∈ types /\ index_of tp i).
Proof.
  unfold covers. rewrite andb_true_iff, !forallb_forall. intros [H1 H2]. split.
  - intros tp Htp%list_elem_of_In. apply H1, existsb_exists in Htp as (i & Hi%in_seq & Ht%index_test_ok). exists i. split; [done|lia].
  - intros i Hi. assert (Hin : In i (seq 0 n)) by (apply in_seq; lia). apply H2, existsb_exists in Hin as (tp & Htp & Ht%index_test_ok). exists tp.
    by rewrite list_elem_of_In.
Qed.
Lemma mu_covers : covers rrmuiterlist NRRMU = true.
Proof. by vm_compute. Qed.
Lemma cach_covers : covers rrcachiterlist NRRTOT = true.
Proof. by vm_compute. Qed.
Lemma types_covers c : cent_ok c -> (forall tp, tp ∈ types_of c -> exists i, index_of tp i /\ (i < length (slots c))%nat) /\
  (forall i, (i < length (slots c))%nat -> exists tp, tp ∈ types_of c /\ index_of tp i).
Proof.
  intros Ho. apply covers_ok. unfold types_of. destruct (is_neg c) eqn:Hn.
  - unfold is_neg, slots in *. destruct (body c); [by vm_compute|done].
  - destruct (co_len _ Ho Hn) as [-> | ->]; [apply mu_covers|apply cach_covers].
Qed.
Definition ascending (l : list Z) : Prop := StronglySorted Z.lt l.
Lemma types_ascending c : ascending (types_of c) /\ Forall (Z.lt 0) (types_of c).
Proof.
  unfold types_of, ascending. destruct (is_neg c); [split; constructor|]. destruct (_ <? _)%nat; split; repeat (constructor; try done).
Qed.

(** ** The bytes of an entry *)
(** The set of a type, if it is written. *)
Definition set_at (c : dns_cent_t) (tp : Z) : option rr_set_t :=
  match getrrset_eff c tp with Ret (Some r) => if has (flags r) CF_LOCAL then None else Some r | _ => None end.
Fixpoint sets_of (c : dns_cent_t) (types : list Z) : list (Z * rr_set_t) :=
  match types with [] => [] | tp :: types => match set_at c tp with Some r => (tp, r) :: sets_of c types | None => sets_of c types end end.
Definition saved_sets (c : dns_cent_t) : list (Z * rr_set_t) := sets_of c (types_of c).
Definition record_image (d : list Z) : list Z := le_bytes 2 (zlen d) ++ d.
Definition records_image (l : list (list Z)) : list Z := concat (map record_image l).
Definition set_image (x : Z * rr_set_t) : list Z :=
  rr_fset_bytes (mkFset (fst x) (zlen (rrs (snd x))) (flags (snd x)) (ttl (snd x)) (ts (snd x))) ++ records_image (rrs (snd x)).
Definition sets_image (l : list (Z * rr_set_t)) : list Z := concat (map set_image l).
Definition times_image (c : dns_cent_t) : list Z := match body c with Neg _ t s => dom_fttlts_bytes (mkFttlts t s) | RR _ => [] end.
Definition entry_image (c : dns_cent_t) : list Z :=
  dns_file_bytes (mkDnsFile (zlen (wire_labels (qname c))) (zlen (saved_sets c)) (dflags c) (c_ns c) (c_soa c)) ++
  times_image c ++ wire_labels (qname c) ++ sets_image (saved_sets c).
Definition entries_image (cs : list dns_cent_t) : list Z := concat (map entry_image cs).
Definition file_image (cs : list dns_cent_t) : list Z := cachverid ++ le_bytes 4 (zlen cs) ++ entries_image cs.

Lemma getrrset_eff_ok c tp i : cent_ok c -> index_of tp i -> getrrset_eff c tp = Ret (slot c i).
Proof.
  intros Ho (Hi & _ & [Ht _]). unfold getrrset_eff, assert. rewrite (proj2 (Z.leb_le _ _) Ht), Hi. cbn [mbind cres_bind of_option]. by apply RRARR_TESTEXT_ok.
Qed.
Definition kept_copy (x : option rr_set_t) : option rr_set_t := if kept_set x then x else None.
Lemma set_at_ok c tp i : cent_ok c -> index_of tp i -> set_at c tp = kept_copy (slot c i).
Proof. intros Ho Hi. unfold set_at, kept_copy. rewrite (getrrset_eff_ok c tp i) by done. destruct (slot c i) as [r|]; [|done]. cbn. by destruct (has (flags r) CF_LOCAL). Qed.
Lemma elem_sets_of c types tp r : (tp, r) ∈ sets_of c types <-> tp ∈ types /\ set_at c tp = Some r.
Proof.
  induction types as [|t types IH]; cbn [sets_of]; [rewrite !elem_of_nil; tauto|]. rewrite elem_of_cons. destruct (set_at c t) as [x|] eqn:E.
  - rewrite elem_of_cons, IH. split; [intros [[= -> ->]|[? ?]]; auto|]. intros [[->|?] E1]; [left; congruence|right; auto].
  - rewrite IH. split; [intros [? ?]; auto|]. intros [[->|?] E1]; [congruence|auto].
Qed.
Lemma sets_ascending c types : ascending types -> ascending (map fst (sets_of c types)).
Proof.
  induction 1 as [|t types Hs IH Hf]; cbn [sets_of]; [constructor|]. destruct (set_at c t) as [r|]; [|done]. cbn [map fst]. constructor; [done|].
  apply list_relations.list.Forall_forall. intros tp ([tp' r'] & -> & Hin)%list_elem_of_fmap. apply elem_sets_of in Hin as [Hin _].
  by apply (proj1 (list_relations.list.Forall_forall _ _) Hf).
Qed.
(** The number of sets that are written. *)
Definition idx (tp : Z) : nat := default 0%nat (rrlkuptab !! Z.to_nat (tp - T_MIN)).
Lemma idx_of tp i : index_of tp i -> idx tp = i.
Proof. intros [H _]. unfold idx. by rewrite H. Qed.
Lemma types_idx c : cent_ok c -> map idx (types_of c) ≡ₚ seq 0 (length (slots c)).
Proof.
  intros Ho. destruct (types_covers c Ho) as [H1 H2]. apply NoDup_Permutation.
  - unfold types_of. destruct (is_neg c); [constructor|]. destruct (_ <? _)%nat; apply (bool_decide_unpack _); by vm_compute.
  - apply NoDup_seq.
  - intros i. rewrite elem_of_seq, list_elem_of_fmap. split.
    + intros (tp & -> & (j & Hj & Hl)%H1). rewrite (idx_of tp j) by done. lia.
    + intros [_ (tp & Hin & Hi)%H2]. exists tp. by rewrite (idx_of tp i).
Qed.
Lemma length_sets_of c types : cent_ok c -> (forall tp, tp ∈ types -> exists i, index_of tp i) ->
  length (sets_of c types) = length (filter (fun i => kept_set (slot c i) = true) (map idx types)).
Proof.
  intros Ho. induction types as [|tp types IH]; intros Ht; cbn [sets_of map]; [done|]. destruct (Ht tp (list_elem_of_here _ _)) as [i Hi].
  rewrite filter_cons, (set_at_ok c tp i), (idx_of tp i) by done. unfold kept_copy. specialize (IH (fun t H => Ht t (list_elem_of_further _ _ _ H))).
  destruct (slot c i) as [r|]; cbn [kept_set]; [|done]. destruct (has (flags r) CF_LOCAL); cbn [negb]; [done|]. cbn. by rewrite IH.
Qed.
Lemma length_kept arr k : length (filter (fun x => kept_set x = true) arr) = length (filter (fun i => kept_set (mjoin (arr !! (i - k)%nat)) = true) (seq k (length arr))).
Proof.
  revert k. induction arr as [|x arr IH]; intros k; [done|]. cbn [length seq]. rewrite !filter_cons, Nat.sub_diag. cbn [lookup list_lookup mjoin option_join].
  assert (E : length (filter (fun x => kept_set x = true) arr) = length (filter (fun i => kept_set (mjoin ((x :: arr) !! (i - k)%nat)) = true) (seq (S k) (length arr)))).
  { rewrite (IH (S k)). f_equal. apply filter_ext_in. intros i Hi%elem_of_seq. replace (i - k)%nat with (S (i - S k)) by lia. done. }
  destruct (decide (kept_set x = true)); cbn [length]; by rewrite E.
Qed.
Lemma saved_count c : cent_ok c -> length (filter (fun x => kept_set x = true) (slots c)) = length (saved_sets c).
Proof.
  intros Ho. unfold saved_sets. rewrite length_sets_of; [|done|]. 2:{ intros tp (i & Hi & _)%(types_covers c Ho). by exists i. }
  rewrite (types_idx c Ho), (length_kept _ 0). f_equal. apply filter_ext_in. intros i _. by rewrite Nat.sub_0_r.
Qed.

(** ** What can be written *)
Definition in_s32 (x : Z) : Prop := - 2 ^ 31 <= x < 2 ^ 31.
Definition in_u16 (x : Z) : Prop := 0 <= x < 2 ^ 16.
(** The fields of the structures are wide enough; the records are distinct, as those of
    a set that was built with [add_cent_rr]; an entry that is local has no records
    that are not. *)
Record set_fits (c : dns_cent_t) (r : rr_set_t) : Prop := {
  sf_flags : in_u16 (flags r);
  sf_times : in_s32 (ttl r) /\ in_s32 (ts r);
  sf_count : (length (rrs r) <= 255)%nat;
  sf_data : forall d, d ∈ rrs r -> zlen d < 2 ^ 16;
  sf_nodup : NoDup (rrs r);
  sf_local : has (dflags c) DF_LOCAL = true -> rrs r = [];
}.
Record fits (c : dns_cent_t) : Prop := {
  ft_name : Forall label_ok (qname c) /\ zlen (wire_labels (qname c)) <= 255;
  ft_refs : is_byte (c_ns c) /\ is_byte (c_soa c);
  ft_flags : in_u16 (dflags c);
  ft_neg : forall l t s, body c = Neg l t s -> in_s32 t /\ in_s32 s;
  ft_sets : forall j r, slot c j = Some r -> has (flags r) CF_LOCAL = false -> set_fits c r;
}.
Lemma saved_fits c tp r : cent_ok c -> fits c -> (tp, r) ∈ saved_sets c -> set_fits c r.
Proof.
  intros Ho Hf [Hin Hs]%elem_sets_of. destruct (proj1 (types_covers c Ho) tp Hin) as (i & Hi & _). rewrite (set_at_ok c tp i) in Hs by done.
  unfold kept_copy in Hs. destruct (slot c i) as [x|] eqn:Hx; [|done]. cbn in Hs. destruct (has (flags x) CF_LOCAL) eqn:El; [done|]. injection Hs as <-.
  by apply (ft_sets _ Hf i).
Qed.

(** ** Writing *)
Section writing.
Context (fails : nat -> option nat).
#[local] Abbreviation act := (prog FILE).
(** The program writes [bs], or a part of it before an error. *)
Definition emits (m : act bool) (bs : list Z) : Prop := forall f, exists ok f' p, m f = Ret (ok, f') /\ content f' = content f ++ p /\ p `prefix_of` bs /\
  if ok : bool then p = bs else exists n k, fails n = Some k.
Lemma emits_ret : emits (mret true) [].
Proof. intros f. exists true, f, []. by rewrite app_nil_r. Qed.
Lemma emits_fwrite bs : emits (fwrite fails bs) bs.
Proof.
  intros f. unfold fwrite. destruct (fails (writes f)) as [k|] eqn:E; eexists _, _, _; (split; [done|]); (split; [done|]); [|done].
  split; [apply prefix_take|]. by exists (writes f), k.
Qed.
Lemma emits_andthen m k a b : emits m a -> emits k b -> emits (andthen m k) (a ++ b).
Proof.
  intros Hm Hk f. destruct (Hm f) as (ok & f1 & p & E & C & P & H). unfold andthen. unfold mbind at 1, prog_bind. rewrite E. cbn [mbind cres_bind]. destruct ok.
  - subst p. destruct (Hk f1) as (ok & f2 & p & E2 & C2 & P2 & H2). exists ok, f2, (a ++ p). split; [done|]. rewrite C2, C, app_assoc. split; [done|].
    split; [by apply prefix_app|]. destruct ok; [congruence|done].
  - exists false, f1, p. split_and!; try done. by apply prefix_app_r.
Qed.
Lemma emits_lift {A} (x : cres A) a (k : A -> act bool) bs : x = Ret a -> emits (k a) bs -> emits (lift x ≫= k) bs.
Proof. intros -> H f. apply H. Qed.
Lemma emits_item (n : Z) bs : n = zlen bs -> emits (if n =? 0 then mret true else fwrite fails bs) bs.
Proof. intros ->. destruct (Z.eqb_spec (zlen bs) 0); [|apply emits_fwrite]. destruct bs; [apply emits_ret|cbn in *; lia]. Qed.
Lemma emits_records l : (forall d, d ∈ l -> zlen d < 2 ^ 16) -> emits (write_rrs fails l) (records_image l).
Proof.
  induction l as [|d l IH]; intros Hd; cbn [write_rrs]; [apply emits_ret|]. assert (Hs : zlen d < 2 ^ 16) by (apply Hd; by left).
  unfold records_image. cbn [map concat]. unfold record_image. rewrite u16_small, Nat2Z.id, firstn_all by lia. rewrite <- app_assoc.
  apply emits_andthen; [apply emits_fwrite|]. apply emits_andthen; [by apply emits_item|]. apply IH. intros x Hx. apply Hd. by right.
Qed.
Lemma emits_set c tp r : set_fits c r -> emits (write_rrset fails tp r) (set_image (tp, r)).
Proof.
  intros [_ _ H1 H2 _ _]. unfold write_rrset, set_image. cbn [fst snd]. rewrite Nat.min_r, firstn_all by done.
  apply emits_andthen; [apply emits_fwrite|by apply emits_records].
Qed.
Lemma emits_sets c types : cent_ok c -> (forall tp, tp ∈ types -> exists i, index_of tp i) -> (forall tp r, (tp, r) ∈ sets_of c types -> set_fits c r) ->
  emits (write_sets fails c types) (sets_image (sets_of c types)).
Proof.
  intros Ho. induction types as [|tp types IH]; intros Ht Hf; cbn [write_sets]; [apply emits_ret|]. destruct (Ht tp (list_elem_of_here _ _)) as [i Hi].
  eapply emits_lift; [by apply (getrrset_eff_ok c tp i)|]. specialize (IH (fun t H => Ht t (list_elem_of_further _ _ _ H))). cbn [sets_of] in *.
  rewrite (set_at_ok c tp i) in * by done. unfold kept_copy in *. destruct (slot c i) as [r|]; cbn [kept_set] in *; [|apply (emits_andthen _ _ []); [apply emits_ret|by apply IH]].
  destruct (has (flags r) CF_LOCAL); cbn [negb] in *; [apply (emits_andthen _ _ []); [apply emits_ret|by apply IH]|].
  apply (emits_andthen _ _ (set_image (tp, r))); [apply (emits_set c); by eapply Hf, list_elem_of_here|]. apply IH. intros t x Hx. apply (Hf t). by right.
Qed.
Lemma emits_entry c : cent_ok c -> fits c -> emits (write_entry fails c) (entry_image c).
Proof.
  intros Ho Hf. pose proof (ft_name _ Hf) as [Hn Hlen]. unfold write_entry, entry_image. eapply emits_lift; [rewrite <- (app_nil_r (wire (qname c))); by apply rhnlen_wire|].
  assert (Eq : u8 (zlen (wire (qname c)) - 1) = zlen (wire_labels (qname c))).
  { unfold wire. rewrite length_app, Nat2Z.inj_add. cbn [length]. rewrite u8_small by lia. lia. }
  rewrite Eq, Nat2Z.id. eapply emits_lift; [by apply RRARR_ok|]. rewrite saved_count by done. apply emits_andthen; [apply emits_fwrite|].
  rewrite (co_tag _ Ho). apply emits_andthen; [|apply emits_andthen].
  - unfold is_neg, times_image, the_neg. destruct (body c) as [l t s|]; [|apply emits_ret]. eapply emits_lift; [done|]. apply emits_fwrite.
  - unfold wire. rewrite take_app_length. by apply emits_item.
  - apply (emits_sets c (types_of c)); [done| |].
    + intros tp (i & Hi & _)%(types_covers c Ho). by exists i.
    + intros tp r. by apply saved_fits.
Qed.
End writing.
(** The entries that are written. *)
Definition saves (c : dns_cent_t) : bool := if is_neg c then negb (has (dflags c) DF_LOCAL) else existsb kept_set (slots c).
Fixpoint saved_list (m : gmap Z dns_cent_t) (es : list Z) : list dns_cent_t :=
  match es with
  | [] => []
  | a :: es => match m !! a with Some c => if saves c then c :: saved_list m es else saved_list m es | None => saved_list m es end
  end.
Definition all_fit (w : cache) (es : list Z) : Prop := forall a, a ∈ es -> exists c, cents w !! a = Some c /\ cent_ok c /\ fits c.
Lemma is_saved_ok c : cent_ok c -> is_saved c = Ret (saves c).
Proof. intros Ho. unfold is_saved, saves. rewrite (co_tag _ Ho). destruct (is_neg c); [done|]. by rewrite RRARR_ok. Qed.
Lemma all_fit_cons w a es : all_fit w (a :: es) -> (exists c, cents w !! a = Some c /\ cent_ok c /\ fits c) /\ all_fit w es.
Proof. intros H. split; [apply H; by left|]. intros b Hb. apply H. by right. Qed.
Lemma count_saved_ok w es : all_fit w es -> forall en, 0 <= en -> en + zlen es < 2 ^ 32 -> count_saved w es en = Ret (en + zlen (saved_list (cents w) es)).
Proof.
  induction es as [|a es IH]; intros Hf en H0 Hlt; cbn [count_saved saved_list length] in *; [by rewrite Z.add_0_r|].
  apply all_fit_cons in Hf as [(c & Hc & Ho & _) Hf]. rewrite Hc. cbn [of_option mbind cres_bind]. rewrite is_saved_ok by done. cbn [mbind cres_bind].
  destruct (saves c); rewrite ?u32_small by lia; rewrite IH by (done || lia); f_equal; cbn [length]; lia.
Qed.
Lemma emits_entries fails w es : all_fit w es -> emits fails (write_entries fails w es) (entries_image (saved_list (cents w) es)).
Proof.
  induction es as [|a es IH]; intros Hf; cbn [write_entries saved_list]; [apply emits_ret|]. apply all_fit_cons in Hf as [(c & Hc & Ho & Hfc) Hf].
  eapply emits_lift; [by rewrite Hc|]. eapply emits_lift; [by apply is_saved_ok|]. rewrite Hc.
  destruct (saves c); [apply (emits_andthen _ _ _ (entry_image c)); [by apply emits_entry|by apply IH]|].
  apply (emits_andthen _ _ _ []); [apply emits_ret|by apply IH].
Qed.
Lemma emits_file fails w es : all_fit w es -> zlen es < 2 ^ 32 -> emits fails (write_contents fails w es) (file_image (saved_list (cents w) es)).
Proof.
  intros Hf Hlt. unfold write_contents, file_image. apply emits_andthen; [apply emits_fwrite|]. eapply emits_lift; [apply count_saved_ok; [done|lia|lia]|].
  rewrite Z.add_0_l. apply emits_andthen; [apply emits_fwrite|by apply emits_entries].
Qed.

(** ** Reading a part of it *)
(** The file has the item, or ends before. *)
Lemma fread_prefix n a b f : zlen a = n -> f `prefix_of` a ++ b ->
  (exists f', f = a ++ f' /\ f' `prefix_of` b /\ fread n f = Some (a, f')) \/ (zlen f < n /\ fread n f = None).
Proof.
  intros Hn Hp. unfold fread. destruct (Z.leb_spec n (zlen f)) as [Hle|Hgt]; [left|by right].
  assert (Hap : a `prefix_of` f).
  { destruct (prefix_weak_total f a (a ++ b) Hp) as [H|H]; [by exists b| |done]. by rewrite (prefix_length_eq f a H) by lia. }
  destruct Hap as [f' ->]. exists f'. apply prefix_app_inv in Hp. split; [done|]. split; [done|]. subst n. by rewrite Nat2Z.id, take_app_length, drop_app_length.
Qed.
Lemma item_prefix d b f : f `prefix_of` d ++ b ->
  (exists f', f = d ++ f' /\ f' `prefix_of` b /\ (if zlen d =? 0 then Some ([], f) else fread (zlen d) f) = Some (d, f')) \/
  (zlen f < zlen d /\ (if zlen d =? 0 then Some ([], f) else fread (zlen d) f) = None).
Proof.
  intros Hp. destruct (Z.eqb_spec (zlen d) 0) as [E|E]; [|by apply fread_prefix]. destruct d; [|cbn in E; lia]. left. by exists f.
Qed.
Lemma field_le n v : 0 <= v < 256 ^ Z.of_nat n -> field (le_bytes n v) 0 n = v.
Proof. intros Hv. unfold field. rewrite drop_0, firstn_all2 by (rewrite length_le_bytes; lia). rewrite le_val_bytes. by apply Z.mod_small. Qed.
Lemma s32_le v : in_s32 v -> s32 (le_val (le_bytes 4 v)) = v.
Proof. intros Hv. rewrite le_val_bytes. unfold in_s32 in Hv. unfold s32. change (256 ^ Z.of_nat 4) with (2 ^ 32). rewrite Zplus_mod_idemp_l, Z.mod_small by lia. lia. Qed.
Lemma zlen_le n v : zlen (le_bytes n v) = Z.of_nat n.
Proof. by rewrite length_le_bytes. Qed.
Lemma le_small n v : 0 <= v < 256 ^ Z.of_nat n -> le_val (le_bytes n v) = v.
Proof. intros Hv. rewrite le_val_bytes. by apply Z.mod_small. Qed.
Lemma rr_fset_roundtrip s : is_byte (fs_tp s) -> is_byte (fs_num_rr s) -> in_u16 (fs_flags s) -> in_s32 (fs_ttl s) -> in_s32 (fs_ts s) ->
  rr_fset_of (rr_fset_bytes s) = s.
Proof.
  intros H1 H2 H3 H4 H5. change (rr_fset_of (rr_fset_bytes s)) with (mkFset (le_val (le_bytes 1 (fs_tp s))) (le_val (le_bytes 1 (fs_num_rr s)))
    (le_val (le_bytes 2 (fs_flags s))) (s32 (le_val (le_bytes 4 (fs_ttl s)))) (s32 (le_val (le_bytes 4 (fs_ts s))))).
  unfold is_byte, in_u16 in *. rewrite !le_small, !s32_le by done. by destruct s.
Qed.
Lemma dns_file_roundtrip d : is_byte (fe_qlen d) -> is_byte (fe_num_rrs d) -> in_u16 (fe_flags d) -> is_byte (fe_c_ns d) -> is_byte (fe_c_soa d) ->
  dns_file_of (dns_file_bytes d) = d.
Proof.
  intros H1 H2 H3 H4 H5. change (dns_file_of (dns_file_bytes d)) with (mkDnsFile (le_val (le_bytes 1 (fe_qlen d))) (le_val (le_bytes 1 (fe_num_rrs d)))
    (le_val (le_bytes 2 (fe_flags d))) (le_val (le_bytes 1 (fe_c_ns d))) (le_val (le_bytes 1 (fe_c_soa d)))).
  unfold is_byte, in_u16 in *. rewrite !le_small by done. by destruct d.
Qed.
Lemma dom_fttlts_roundtrip t : in_s32 (ft_ttl t) -> in_s32 (ft_ts t) -> dom_fttlts_of (dom_fttlts_bytes t) = t.
Proof.
  intros H1 H2. change (dom_fttlts_of (dom_fttlts_bytes t)) with (mkFttlts (s32 (le_val (le_bytes 4 (ft_ttl t)))) (s32 (le_val (le_bytes 4 (ft_ts t))))).
  rewrite !s32_le by done. by destruct t.
Qed.

(** The reader has read the bytes [im], or the file ended before. *)
Definition stops (l : label) : Prop := match l with free_cent_data_fclose ce => apart ce | free_data_fclose => True | _ => False end.
Definition back (im f : list Z) (P : dns_cent_t -> Prop) (o : label + list Z * Z * dns_cent_t) : Prop :=
  (exists f' d ce, o = inr (f', d, ce) /\ f = im ++ f' /\ apart ce /\ P ce) \/ (exists l, o = inl l /\ stops l /\ zlen f < zlen im).
Lemma back_app im a f P o : back im f P o -> back (a ++ im) (a ++ f) P o.
Proof.
  intros [(f' & d & ce & -> & -> & H)|(l & -> & Hl & H)]; [left; exists f', d, ce; by rewrite app_assoc|right; exists l]. rewrite !length_app. split_and!; [done|done|lia].
Qed.
Lemma back_short a im f P l : stops l -> zlen f < zlen a -> back (a ++ im) f P (inl l).
Proof. intros Hl H. right. exists l. rewrite length_app. split_and!; [done|done|lia]. Qed.
Lemma back_mono im f (P P' : dns_cent_t -> Prop) o : (forall c, P c -> P' c) -> back im f P o -> back im f P' o.
Proof. intros HP [(f' & d & ce & H1 & H2 & H3 & H4)|H]; [left; exists f', d, ce; auto|by right]. Qed.

(** Names *)
Lemma labels_of_wire ls : Forall label_ok ls -> forall fuel, (length (wire ls) <= fuel)%nat -> labels_of fuel (wire ls) = ls.
Proof.
  induction 1 as [|l ls [Hb Hl] Hls IH]; intros fuel Hf; (destruct fuel as [|fuel]; [cbn in Hf; lia|]); [done|]. rewrite wire_cons in *. cbn [app labels_of] in *.
  destruct (Z.eqb_spec (zlen l) 0); [lia|]. rewrite Nat2Z.id, take_app_length, drop_app_length, IH; [done|]. cbn [length] in Hf. rewrite length_app in Hf. lia.
Qed.
Lemma check_name_wire ls : Forall label_ok ls -> forall fuel pre, zlen (wire_labels ls) < Z.of_nat fuel ->
  check_name fuel (pre ++ wire_labels ls) (zlen (pre ++ wire_labels ls)) (zlen pre) = Ret true.
Proof.
  induction 1 as [|l ls [Hb Hl] Hls IH]; intros fuel pre Hf; (destruct fuel as [|fuel]; [lia|]).
  { cbn [wire_labels map concat check_name]. rewrite app_nil_r, Z.ltb_irrefl. done. }
  rewrite wire_labels_cons in *. unfold wire_label in *. cbn [check_name app length] in *. rewrite length_app in Hf.
  destruct (Z.ltb_spec (zlen pre) (zlen (pre ++ zlen l :: l ++ wire_labels ls))) as [_|Hx]; [|rewrite length_app in Hx; cbn in Hx; lia].
  rewrite get_app_here. cbn [of_option mbind cres_bind]. destruct (Z.eqb_spec (zlen l) 0); [lia|]. destruct (Z.ltb_spec 63 (zlen l)); [lia|]. cbn [orb].
  destruct (Z.ltb_spec (zlen (pre ++ zlen l :: l ++ wire_labels ls)) (zlen pre + (zlen l + 1))) as [Hx|_]; [rewrite length_app in Hx; cbn in Hx; rewrite length_app in Hx; lia|].
  replace (pre ++ zlen l :: l ++ wire_labels ls) with ((pre ++ zlen l :: l) ++ wire_labels ls) by by rewrite <- app_assoc.
  replace (zlen pre + (zlen l + 1)) with (zlen (pre ++ zlen l :: l)) by (rewrite length_app; cbn [length]; lia). apply IH. lia.
Qed.

Section reading.
Context {malloc_ok : nat -> bool} {clock : nat -> Z} {global : globals}.
Context (Hmem : forall t, malloc_ok t = true).
Lemma memory : ~ @no_memory malloc_ok.
Proof using Hmem. intros [t Ht]. by rewrite Hmem in Ht. Qed.
Lemma enough (ok : bool) : ok = true \/ @no_memory malloc_ok -> ok = true.
Proof using Hmem. intros [H|H]; [done|by apply memory in H]. Qed.
Lemma same_head_refl i c : same_head i c c.
Proof. split; [done|]. intros _. split; [done|lia]. Qed.
Lemma same_head_trans i c1 c2 c3 : same_head i c1 c2 -> same_head i c2 c3 -> (is_neg c1 = false -> is_neg c2 = false) -> same_head i c1 c3.
Proof.
  intros [A1 A2] [B1 B2] Hn. split; [congruence|]. intros H. destruct (A2 H) as [A3 A4]. destruct (B2 (Hn H)) as [B3 B4]. split; [congruence|lia].
Qed.
Definition appended (i : nat) (r : rr_set_t) (l : list (list Z)) (c c' : dns_cent_t) : Prop := with_slot i (Some (set_rrs (rrs r ++ l) r)) c c' /\ same_head i c c'.
Lemma appended_cons i r d l c c1 c2 : appended i r [d] c c1 -> appended i (set_rrs (rrs r ++ [d]) r) l c1 c2 -> appended i r (d :: l) c c2.
Proof.
  intros [A1 A2] [B1 B2]. split; [|eapply same_head_trans; [done|done|intros _; apply A1]]. cbn [rrs set_rrs] in B1. rewrite <- app_assoc in B1. by eapply with_slot_trans.
Qed.
Lemma records_back i sh l : forall dtsz f rest ce r w, apart ce -> index_of (fs_tp sh) i -> slot ce i = Some r -> ttl r = fs_ttl sh ->
  (forall d, d ∈ l -> zlen d < 2 ^ 16) -> NoDup (rrs r ++ l) -> (has (dflags ce) DF_LOCAL = true -> l = []) -> f `prefix_of` records_image l ++ rest ->
  wp (read_rrs malloc_ok (length l) sh dtsz f ce) w (fun o w' => later w w' /\ back (records_image l) f (appended i r l ce) o).
Proof using Hmem.
  induction l as [|d l IH]; intros dtsz f rest ce r w Hc Hi Hr Ht Hd Hnd Hloc Hp; cbn [read_rrs length].
  { apply wp_ret_later. left. exists f, dtsz, ce. split; [done|]. split; [done|]. split; [done|]. split; [|apply same_head_refl]. rewrite app_nil_r.
    destruct (slots_pos ce i (proj1 Hc)) as [Hn _]; [by eapply slot_lt|]. split; [done|]. intros j. destruct (decide (i = j)) as [<-|]; [|done]. rewrite Hr. by destruct r. }
  assert (Hs : zlen d < 2 ^ 16) by (apply Hd; by left). unfold records_image in *. cbn [map concat] in *. unfold record_image in Hp at 1 |- * at 1. rewrite <- !app_assoc in Hp.
  rewrite <- app_assoc. destruct (fread_prefix 2 _ _ _ (zlen_le 2 (zlen d)) Hp) as [(f1 & -> & Hp1 & ->)|[Hlt ->]].
  2:{ apply wp_ret_later, back_short; [done|exact Hlt]. }
  rewrite field_le by (cbn; lia). eapply wp_later; [apply grow_later|]. intros ok w1 ->%enough. cbn [negb]. apply wp_bind, wp_ASSERT; [apply grown|].
  destruct (item_prefix d _ _ Hp1) as [(f2 & -> & Hp2 & ->)|[Hlt ->]].
  2:{ apply wp_ret_later, back_app, back_short; done. }
  eapply wp_builds; [by eapply add_rr_at|]. intros ok c w2 Ha (Hsl & Hh & ->%enough). cbn [negb andb] in *.
  assert (Hdn : d ∉ rrs r). { apply list_relations.list.NoDup_app in Hnd as (_ & Hnd & _). intros Hin. apply (Hnd d Hin). by left. }
  assert (Hsk : skipped (fs_flags sh) d ce r = false).
  { unfold skipped. rewrite bool_decide_eq_false_2 by done. destruct (has (dflags ce) DF_LOCAL) eqn:E; [by specialize (Hloc eq_refl)|done]. }
  rewrite Hsk in Hsl. cbn [negb] in Hsl. assert (Hap : appended i r [d] ce c) by done.
  destruct (slots_pos ce i (proj1 Hc)) as [Hn _]; [by eapply slot_lt|]. destruct (proj2 Hh Hn) as [Hfl _].
  eapply wp_mono; [apply (IH _ f2 rest c (set_rrs (rrs r ++ [d]) r) w2 Ha Hi (with_slot_at _ _ _ _ Hsl) Ht)|].
  - intros x Hx. apply Hd. by right.
  - cbn [rrs set_rrs]. by rewrite <- app_assoc.
  - rewrite Hfl. intros E. by specialize (Hloc E).
  - done.
  - intros o w3 [L3 Ho]. split; [done|]. apply back_app, back_app. eapply back_mono; [|exact Ho]. intros c3. by apply appended_cons.
Qed.
(** The sets [l] were added to [ce], with arrays of up to [n] elements. *)
Record filled (n : nat) (l : list (Z * rr_set_t)) (ce ce' : dns_cent_t) : Prop := {
  fi_head : head_of ce' = head_of ce;
  fi_pos : is_neg ce' = false;
  fi_flags : dflags ce' = dflags ce;
  fi_len : (length (slots ce') <= Nat.max (length (slots ce)) n)%nat;
  fi_set : forall tp r i, (tp, r) ∈ l -> index_of tp i -> slot ce' i = Some (copied_set r);
  fi_other : forall i, (forall tp r, (tp, r) ∈ l -> ~ index_of tp i) -> slot ce' i = slot ce i;
}.
Lemma filled_nil n ce : is_neg ce = false -> filled n [] ce ce.
Proof. intros Hn. constructor; try done; [lia|]. by intros tp r i ?%elem_of_nil. Qed.
Definition width (i : nat) : nat := if (i <? NRRMU)%nat then NRRMU else NRRTOT.
Lemma filled_cons n tp r i l ce c1 c2 c3 : index_of tp i -> (width i <= n)%nat -> is_neg ce = false -> Forall (Z.lt tp) (map fst l) ->
  with_slot i (Some (mkRRset None (ttl r) (ts r) (flags r) [])) ce c1 -> same_head i ce c1 ->
  appended i (mkRRset None (ttl r) (ts r) (flags r) []) (rrs r) c1 c2 -> filled n l c2 c3 -> filled n ((tp, r) :: l) ce c3.
Proof.
  intros Hi Hw Hn Hlt [A1 A2] [A3 A4] [[B1 B2] [B3 B4]] [F1 F2 F3 F4 F5 F6]. destruct (A4 Hn) as [A5 A6]. destruct (B4 A1) as [B5 B6].
  fold (width i) in A6, B6. assert (Hne : forall tp' r', (tp', r') ∈ l -> ~ index_of tp' i).
  { intros tp' r' Hin Hi'. rewrite (index_inj _ _ _ Hi' Hi) in Hin. apply (list_elem_of_fmap_2 fst) in Hin.
    apply (proj1 (list_relations.list.Forall_forall _ _) Hlt) in Hin. cbn in Hin. lia. }
  constructor; [congruence|done|congruence|lia| |].
  - intros tp' r' j Hin Hj. apply elem_of_cons in Hin as [[= -> ->]|Hin]; [|by apply (F5 tp')]. assert (j = i) as -> by (destruct Hj, Hi; congruence).
    rewrite F6 by done. by rewrite B2, decide_True.
  - intros j Hj. rewrite F6 by (intros tp' r' Hin; apply (Hj tp' r'); by right). rewrite B2, A2. destruct (decide (i = j)) as [<-|]; [|done].
    destruct (Hj tp r); [by left|done].
Qed.
Lemma index_byte tp i : index_of tp i -> is_byte tp.
Proof. intros (_ & _ & H1 & H2). change (zlen rrlkuptab) with 51 in H2. unfold T_MIN in *. unfold is_byte. lia. Qed.
Lemma sets_back n c l : forall prevtp dtsz f rest ce w, apart ce -> is_neg ce = false -> dflags ce = dflags c -> none_above prevtp ce ->
  StronglySorted Z.lt (map fst l) -> Forall (Z.lt prevtp) (map fst l) ->
  (forall tp r, (tp, r) ∈ l -> set_fits c r /\ exists i, index_of tp i /\ (width i <= n)%nat) -> f `prefix_of` sets_image l ++ rest ->
  wp (read_rrsets malloc_ok (length l) prevtp dtsz f ce) w (fun o w' => later w w' /\ back (sets_image l) f (filled n l ce) o).
Proof using Hmem.
  induction l as [|[tp r] l IH]; intros prevtp dtsz f rest ce w Hc Hn Hfl Hab Hso Hlo Hl Hp; cbn [read_rrsets length].
  { apply wp_ret_later. left. exists f, dtsz, ce. split; [done|]. split; [done|]. split; [done|]. by apply filled_nil. }
  destruct (Hl tp r (list_elem_of_here _ _)) as [[Z1 [Z2 Z3] Z4 Z5 Z6 Z7] (i & Hi & Hw)]. inversion Hso as [|? ? Hso' Hlt]. inversion Hlo as [|? ? Hlo1 Hlo']. subst. cbn [fst] in *.
  unfold sets_image in *. cbn [map concat] in *. unfold set_image in Hp at 1 |- * at 1. cbn [fst snd] in *. set (sh := mkFset tp _ _ _ _) in *. rewrite <- !app_assoc in Hp. rewrite <- app_assoc.
  destruct (fread_prefix sizeof_rr_fset_t (rr_fset_bytes sh) _ _ eq_refl Hp) as [(f1 & -> & Hp1 & ->)|[Hs ->]]; [|by apply wp_ret_later, back_short].
  rewrite rr_fset_roundtrip; [|by apply (index_byte tp i)|unfold is_byte; cbn [sh fs_num_rr]; lia|done..]. cbn [sh fs_tp fs_ttl fs_ts fs_flags fs_num_rr].
  rewrite (index_cached tp i Hi). destruct (Z.leb_spec tp prevtp); [lia|]. rewrite Nat2Z.id.
  eapply wp_builds; [apply add_set_at; [done|exact Hi|by apply (Hab tp)]|]. intros ok c1 w1 Ha1 (Hs1 & Hh1 & ->%enough). cbn [negb].
  destruct (proj2 Hh1 Hn) as [Hfl1 _]. eapply wp_later.
  { apply (records_back i sh (rrs r) _ _ (concat (map set_image l) ++ rest) c1 (mkRRset None (ttl r) (ts r) (flags r) [])); try done; [exact (with_slot_at _ _ _ _ Hs1)|].
    rewrite Hfl1, Hfl. done. }
  intros o w2 [(f2 & d2 & c2 & -> & -> & Ha2 & Hap)|(lb & -> & Hlb & Hs)]; [|apply wp_ret_later, back_app, back_short; done].
  destruct Hap as [Hs2 Hh2]. destruct (proj2 Hh2 (proj1 Hs1)) as [Hfl2 _]. apply prefix_app_inv in Hp1.
  eapply wp_mono; [apply (IH tp d2 f2 rest c2 w2 Ha2 (proj1 Hs2)); try done|].
  - congruence.
  - eapply none_above_with; [done| |done]. eapply none_above_with; [done| |done]. intros type j Hj Hlt'. apply (Hab type j Hj). lia.
  - intros tp' r' Hin. apply Hl. by right.
  - intros o w3 [L3 Ho]. split; [done|]. apply back_app, back_app. eapply back_mono; [|exact Ho]. intros c3 F. by eapply (filled_cons n tp r i l ce c1 c2 c3).
Qed.
(** The header, the times of a negative entry and the name. *)
Definition header_image (c : dns_cent_t) : list Z :=
  dns_file_bytes (mkDnsFile (zlen (wire_labels (qname c))) (zlen (saved_sets c)) (dflags c) (c_ns c) (c_soa c)) ++ times_image c ++ wire_labels (qname c).
Definition times_of (c : dns_cent_t) : dom_fttlts_t := match body c with Neg _ t s => mkFttlts t s | RR _ => mkFttlts 0 0 end.
Definition read_times (fl : Z) (f : list Z) : option (dom_fttlts_t * list Z) :=
  if has fl DF_NEGATIVE then match fread sizeof_dom_fttlts_t f with None => None | Some (b, f) => Some (dom_fttlts_of b, f) end else Some (mkFttlts 0 0, f).
Lemma times_back c f rest : cent_ok c -> fits c -> f `prefix_of` times_image c ++ rest ->
  (exists f', f = times_image c ++ f' /\ f' `prefix_of` rest /\ read_times (dflags c) f = Some (times_of c, f')) \/ (zlen f < zlen (times_image c) /\ read_times (dflags c) f = None).
Proof.
  intros Ho Hf Hp. unfold read_times. change (has (dflags c) DF_NEGATIVE) with (negative c). rewrite (co_tag _ Ho). unfold is_neg, times_image, times_of in *.
  destruct (body c) as [l t s|] eqn:Eb; [|left; by exists f]. destruct (ft_neg _ Hf l t s Eb) as [H1 H2].
  destruct (fread_prefix sizeof_dom_fttlts_t (dom_fttlts_bytes (mkFttlts t s)) _ _ eq_refl Hp) as [(f1 & -> & Hp1 & ->)|[Hs ->]]; [left|by right].
  exists f1. by rewrite dom_fttlts_roundtrip.
Qed.
Lemma saved_byte c : cent_ok c -> (length (saved_sets c) <= NRRTOT)%nat.
Proof.
  intros Ho. rewrite <- saved_count by done. transitivity (length (slots c)); [apply length_filter|]. by apply slots_le.
Qed.
Definition header_of (c : dns_cent_t) : dns_file_t := mkDnsFile (zlen (wire_labels (qname c))) (zlen (saved_sets c)) (dflags c) (c_ns c) (c_soa c).
Lemma header_back c f rest : cent_ok c -> fits c -> f `prefix_of` header_image c ++ rest ->
  (exists f', f = header_image c ++ f' /\ read_header f = Ret (Some (header_of c, times_of c, qname c, f'))) \/ (zlen f < zlen (header_image c) /\ read_header f = Ret None).
Proof.
  intros Ho Hf Hp. pose proof (saved_byte c Ho) as Hsb. pose proof (ft_name _ Hf) as [Hn Hl]. pose proof (ft_refs _ Hf) as [Hr1 Hr2]. unfold header_image, read_header in *. fold (header_of c) in *.
  rewrite <- !app_assoc in Hp. rewrite length_app. assert (H6 : zlen (dns_file_bytes (header_of c)) = sizeof_dns_file_t) by done.
  destruct (fread_prefix sizeof_dns_file_t (dns_file_bytes (header_of c)) _ _ eq_refl Hp) as [(f1 & -> & Hp1 & ->)|[Hs ->]]; [|right; split; [lia|done]].
  assert (Hrt : dns_file_of (dns_file_bytes (header_of c)) = header_of c).
  { apply dns_file_roundtrip; unfold is_byte; cbn [header_of fe_qlen fe_num_rrs fe_flags]; unfold NRRTOT in Hsb; try lia; [apply Hf|done|done]. }
  rewrite Hrt.
  fold (read_times (fe_flags (header_of c)) f1). cbn [header_of fe_flags fe_qlen]. rewrite !length_app.
  destruct (times_back c f1 _ Ho Hf Hp1) as [(f2 & -> & Hp2 & ->)|[Hs ->]]; [|right; split; [lia|done]]. rewrite !length_app.
  destruct (item_prefix (wire_labels (qname c)) _ _ Hp2) as [(f3 & -> & Hp3 & E)|[Hs E]].
  - left. exists f3. rewrite !app_assoc. split; [done|]. destruct (Z.eqb_spec (zlen (wire_labels (qname c))) 0) as [E0|_].
    + destruct (qname c) as [|l ls]; [done|]. rewrite wire_labels_cons in E0. cbn in E0. lia.
    + rewrite E. pose proof (check_name_wire (qname c) Hn (S (length (wire_labels (qname c)))) []) as Hck. cbn [app length] in Hck. change (Z.of_nat 0) with 0 in Hck. rewrite Hck by lia.
      cbn [mbind cres_bind]. fold (wire (qname c)). rewrite labels_of_wire; [done|done|]. unfold wire. rewrite length_app. cbn. lia.
  - right. split; [lia|]. destruct (zlen _ =? 0); [done|]. by rewrite E.
Qed.
(** The entry as it is read: the sets that are not local. *)
Record restored (c ce : dns_cent_t) : Prop := {
  rs_name : qname ce = qname c;
  rs_neg : is_neg ce = is_neg c;
  rs_rest : rest_of ce = rest_of c;
  rs_len : (length (slots ce) <= length (slots c))%nat;
  rs_slot : forall j, slot ce j = copied_set <$> kept_copy (slot c j);
}.
Definition initial (c : dns_cent_t) : dns_cent_t :=
  set_c_soa (c_soa c) (set_c_ns (c_ns c) (mkCent (qname c) (sizeof_dns_cent_t + zlen (wire (qname c))) 0 (dflags c)
    (if has (dflags c) DF_NEGATIVE then Neg None (ft_ttl (times_of c)) (ft_ts (times_of c)) else RR (replicate NRRMU None)) cundef cundef)).
Lemma init_back c w : wp (init_cent malloc_ok (qname c) (ft_ttl (times_of c)) (ft_ts (times_of c)) (dflags c)) w (fun o w' => later w w' /\
  exists ce, o = Some ce /\ set_c_soa (c_soa c) (set_c_ns (c_ns c) ce) = initial c /\ apart (initial c)).
Proof using Hmem.
  destruct (@init_builds malloc_ok (qname c) (ft_ttl (times_of c)) (ft_ts (times_of c)) (dflags c) w) as (o & w1 & E & L & Ha). exists o, w1. split; [done|]. split; [done|].
  unfold init_cent in E. apply bind_Ret_prog in E as (ok & w2 & Em & [= Eo _]). apply malloc_result, enough in Em as ->. subst o. eexists. split; [done|].
  split; [done|]. by apply apart_refs, Ha.
Qed.
Lemma neg_saved c : is_neg c = true -> saved_sets c = [].
Proof. intros Hn. unfold saved_sets, types_of. by rewrite Hn. Qed.
Lemma restored_neg c : cent_ok c -> is_neg c = true -> restored c (initial c).
Proof.
  intros Ho Hn. pose proof (fun j => neg_slot c j Hn) as Hsl. pose proof (co_tag _ Ho) as Ht. unfold negative in Ht. rewrite Hn in Ht.
  assert (Hb : body (initial c) = Neg None (ft_ttl (times_of c)) (ft_ts (times_of c))) by (cbn; by rewrite Ht).
  constructor; [done| | | |].
  - unfold is_neg at 1. by rewrite Hb, Hn.
  - unfold rest_of. rewrite Hb. cbn. unfold times_of, is_neg in *. by destruct (body c).
  - unfold slots at 1. rewrite Hb. cbn. lia.
  - intros j. rewrite Hsl. unfold slot, slots. by rewrite Hb.
Qed.
Lemma restored_pos c ce : cent_ok c -> is_neg c = false -> filled (length (slots c)) (saved_sets c) (initial c) ce -> restored c ce.
Proof.
  intros Ho Hn [F1 F2 F3 F4 F5 F6]. pose proof (co_tag _ Ho) as Ht. unfold negative in Ht. rewrite Hn in Ht. injection F1 as G1 G2 G3.
  assert (Hb : body (initial c) = RR (replicate NRRMU None)) by (cbn; by rewrite Ht). assert (Hi : forall j, slot (initial c) j = None) by (intros j; unfold slot, slots; rewrite Hb; apply slot_none).
  constructor; [done|congruence| | |].
  - unfold rest_of, is_neg in *. rewrite G2, G3, F3. cbn. destruct (body ce), (body c); done.
  - unfold slots in F4 at 2. rewrite Hb, length_replicate in F4. destruct (co_len _ Ho Hn) as [E|E]; rewrite E in *; unfold NRRMU, NRRTOT in *; lia.
  - intros j. destruct (kept_copy (slot c j)) as [r|] eqn:Hk.
    + assert (Hj : (j < length (slots c))%nat). { destruct (slot c j) as [x|] eqn:Hx; [by eapply slot_lt|done]. }
      destruct (proj2 (types_covers c Ho) j Hj) as (tp & Hin & Hi'). apply (F5 tp); [|done]. apply elem_sets_of. by rewrite (set_at_ok c tp j).
    + rewrite F6; [apply Hi|]. intros tp r [_ Hs]%elem_sets_of Hi'. rewrite (set_at_ok c tp j) in Hs by done. congruence.
Qed.
Lemma entry_image_split c : entry_image c = header_image c ++ sets_image (saved_sets c).
Proof. unfold entry_image, header_image. by rewrite <- !app_assoc. Qed.
Lemma saved_widths c tp r : cent_ok c -> fits c -> (tp, r) ∈ saved_sets c -> set_fits c r /\ exists i, index_of tp i /\ (width i <= length (slots c))%nat.
Proof.
  intros Ho Hf Hin. split; [by apply (saved_fits c tp)|]. apply elem_sets_of in Hin as [Hin _]. destruct (proj1 (types_covers c Ho) tp Hin) as (i & Hi & Hlt). exists i.
  split; [done|]. assert (Hn : is_neg c = false) by apply (slots_pos c i Ho Hlt). unfold width. destruct (co_len _ Ho Hn) as [E|E]; rewrite E in *; unfold NRRMU, NRRTOT in *;
    destruct (Nat.ltb_spec i 8); lia.
Qed.
Lemma entry_back c dtsz f rest w : cent_ok c -> fits c -> f `prefix_of` entry_image c ++ rest ->
  wp (read_entry malloc_ok dtsz f) w (fun o w' => later w w' /\ back (entry_image c) f (restored c) o).
Proof using Hmem.
  intros Ho Hf Hp. rewrite entry_image_split in *. rewrite <- app_assoc in Hp. unfold read_entry. apply wp_bind.
  destruct (header_back c f _ Ho Hf Hp) as [(f1 & -> & ->)|[Hs ->]]; (eapply wp_lift_ret; [done|]); [|by apply wp_ret_later, back_short]. apply prefix_app_inv in Hp.
  cbn [header_of fe_flags fe_num_rrs fe_c_ns fe_c_soa]. eapply wp_later; [apply init_back|]. intros o w1 (ce & -> & -> & Ha). rewrite Nat2Z.id.
  destruct (is_neg c) eqn:Hn.
  - rewrite (neg_saved c Hn) in *. cbn [length read_rrsets]. apply wp_ret_later. left. exists f1, dtsz, (initial c). split; [done|]. split; [by rewrite <- app_assoc|]. split; [done|]. by apply restored_neg.
  - pose proof (co_tag _ Ho) as Ht. unfold negative in Ht. rewrite Hn in Ht. destruct (types_ascending c) as [T1 T2].
    assert (Hni : is_neg (initial c) = false) by (unfold is_neg; cbn; by rewrite Ht).
    eapply wp_mono; [apply (sets_back (length (slots c)) c (saved_sets c) 0 dtsz f1 rest (initial c) w1 Ha Hni); try done|].
    + intros type i _ _. unfold slot, slots. cbn [initial body set_c_soa set_c_ns]. rewrite Ht. apply slot_none.
    + by apply sets_ascending.
    + apply list_relations.list.Forall_forall. intros tp ([tp' r'] & -> & [Hin _]%elem_sets_of)%list_elem_of_fmap. by apply (proj1 (list_relations.list.Forall_forall _ _) T2).
    + intros tp r. by apply saved_widths.
    + intros o w2 [L2 Hb]. split; [done|]. apply back_app. eapply back_mono; [|exact Hb]. intros c2. by apply restored_pos.
Qed.

(** *** Adding what was read *)
Lemma arr_size_nonneg arr : 0 <= arr_size arr.
Proof.
  assert (Hr : forall l, 0 <= records_size l). { induction l as [|d l IH]; [done|]. change (records_size (d :: l)) with (rr_size d + records_size l). unfold rr_size, sizeof_rr_bucket_t. lia. }
  induction arr as [|[r|] arr IH]; cbn [arr_size size_of]; unfold rrset_size, sizeof_rr_set_t; [lia|specialize (Hr (rrs r)); lia|lia].
Qed.
Lemma arr_size_le a : forall b, (length a <= length b)%nat -> (forall j, size_of (mjoin (a !! j)) <= size_of (mjoin (b !! j))) -> arr_size a <= arr_size b.
Proof.
  induction a as [|x a IH]; intros [|y b] Hl Hs; cbn [arr_size length] in *; [lia|pose proof (arr_size_nonneg (y :: b)); cbn [arr_size] in *; lia|lia|].
  pose proof (Hs 0%nat) as H0. cbn in H0. specialize (IH b ltac:(lia) (fun j => Hs (S j))). lia.
Qed.
Lemma restored_size c ce : cent_ok c -> cent_ok ce -> restored c ce -> cs ce <= cs c.
Proof.
  intros Ho Hoe [R1 R2 R3 R4 R5]. rewrite (co_cs _ Ho), (co_cs _ Hoe), R1. assert (arr_size (slots ce) <= arr_size (slots c)).
  { apply arr_size_le; [done|]. intros j. specialize (R5 j). unfold slot in R5. rewrite R5. unfold kept_copy. destruct (mjoin (slots c !! j)) as [r|]; [|done].
    assert (0 <= rrset_size r) by (pose proof (arr_size_nonneg [Some r]); cbn in *; lia). cbn [kept_set]. by destruct (negb _). }
  unfold ext_size. destruct (Nat.ltb_spec NRRMU (length (slots ce))), (Nat.ltb_spec NRRMU (length (slots c))); unfold sizeof_rrext; lia.
Qed.
Lemma restored_some c ce : restored c ce -> saves c = true -> is_neg ce = true \/ exists j r, slot ce j = Some r.
Proof.
  intros [R1 R2 R3 R4 R5]. unfold saves. rewrite R2. destruct (is_neg c); [by left|]. intros ([r|] & Hin & Hk)%existsb_exists; [|done]. right.
  apply list_elem_of_In, list_elem_of_lookup in Hin as [j Hj]. exists j, (copied_set r). rewrite R5. unfold slot, kept_copy. rewrite Hj. cbn [mjoin option_join]. by rewrite Hk.
Qed.
(** What is in the cache of an entry that was saved. *)
Record recovered (c c' : dns_cent_t) : Prop := {
  rc_name : qname c' = qname c;
  rc_neg : is_neg c' = is_neg c;
  rc_slot : forall j, stored_set global (kept_copy (slot c j)) (slot c' j);
  rc_rest : exists c1, (if is_neg c then adjust_dom_ttl global c else Ret c) = Ret c1 /\ rest_of c' = rest_of c1;
}.
Lemma adjust_copied r id : set_lent id (adjust_ttl global (copied_set r)) = set_lent id (adjust_ttl global r).
Proof.
  unfold adjust_ttl, copied_set. cbn [flags ttl set_lent]. destruct (has (flags r) CF_NOCACHE); [done|]. destruct (ttl r <? _); [done|]. by destruct (max_ttl global <? ttl r).
Qed.
Lemma adjust_rest c ce c1 : is_neg ce = is_neg c -> rest_of ce = rest_of c -> (if is_neg ce then adjust_dom_ttl global ce else Ret ce) = Ret c1 ->
  exists c2, (if is_neg c then adjust_dom_ttl global c else Ret c) = Ret c2 /\ rest_of c1 = rest_of c2.
Proof.
  intros E1 E2. rewrite E1. unfold is_neg, rest_of, adjust_dom_ttl, the_neg in *. destruct (body c) as [l t s|] eqn:Ec, (body ce) as [l' t' s'|] eqn:Eb; try done; cbn.
  - injection E2 as E3 E4 E5 -> ->. intros [= <-]. eexists. split; [done|]. rewrite E5. destruct (has (dflags c) DF_NOCACHE); cbn; congruence.
  - intros [= <-]. exists c. by rewrite Eb, Ec.
Qed.
Lemma recover c ce c' : restored c ce -> qname c' = qname ce -> stored global ce c' -> recovered c c'.
Proof.
  intros [R1 R2 R3 R4 R5] Hq [S1 S2 S3 (c1 & Hc1 & S4)]. constructor; [congruence|congruence| |].
  - intros j. specialize (S3 j). rewrite R5 in S3. destruct (kept_copy (slot c j)) as [r|]; [|done]. destruct S3 as [id ->]. exists id. by rewrite adjust_copied.
  - destruct (adjust_rest c ce c1) as (c2 & H1 & H2); [done|done|done|]. exists c2. split; [done|congruence].
Qed.
Lemma add_fits_any ce w : wf w -> cent_ok ce -> table w !! canon (qname ce) = None -> is_neg ce = true \/ (exists j r, slot ce j = Some r) ->
  cache_size w + cs ce <= cache_limit global -> wp (add_cache malloc_ok clock global ce) w (fun _ w' => wf w' /\
    exists a c', cents w !! a = None /\ cents w' = <[a := c']> (cents w) /\ table w' = <[canon (qname ce) := a]> (table w) /\
      cache_size w' = cache_size w + cs ce /\ qname c' = qname ce /\ stored global ce c').
Proof using Hmem.
  intros Hw Ho Ht Hx Hsz. unfold add_cache. remember 1%nat as one. cbn [add_cache_loop]. unfold dns_lookup. apply wp_bind, wp_gets. rewrite Ht.
  assert (Hz : (num_rrs ce =? 0) && negb (negative ce) = false).
  { rewrite (co_tag _ Ho). destruct Hx as [-> |(j & r & Hr)]; [apply andb_false_r|]. apply andb_false_iff. left. apply Z.eqb_neq. rewrite (co_num _ Ho). intros E.
    pose proof (arr_count_zero _ E j) as H. unfold slot in Hr. by rewrite H in Hr. }
  rewrite Hz. apply wp_bind. eapply wp_mono; [by apply add_new_ok|]. intros ok w1 (W1 & _ & Hn). destruct ok; [|destruct Hn as [Hn _]; by apply memory in Hn].
  destruct Hn as (a & c' & E0 & E1 & E2 & E3 & E4 & St). cbn [when]. eapply wp_mono; [apply purge_noop; by rewrite E3|]. intros ? w' ->.
  split; [done|]. by exists a, c'.
Qed.
(** The entries [es] were added to the cache [w], to nothing else. *)
Record loaded (es : list dns_cent_t) (w w' : cache) : Prop := {
  ld_new : forall c, c ∈ es -> exists a c', table w' !! canon (qname c) = Some a /\ cents w' !! a = Some c' /\ recovered c c';
  ld_cents : forall a c, cents w !! a = Some c -> cents w' !! a = Some c;
  ld_table : forall k a, table w !! k = Some a -> table w' !! k = Some a;
  ld_count : size (cents w') = (size (cents w) + length es)%nat;
}.
Lemma loaded_nil w n : loaded [] w (with_ticks n w).
Proof. constructor; [by intros c ?%elem_of_nil|done|done|cbn; lia]. Qed.
Lemma loaded_cons c es w w1 w2 a c' : cents w !! a = None -> cents w1 = <[a := c']> (cents w) -> table w !! canon (qname c) = None ->
  table w1 = <[canon (qname c) := a]> (table w) -> recovered c c' -> loaded es w1 w2 -> loaded (c :: es) w w2.
Proof.
  intros Ha Ec Hk Et Hr [L1 L2 L3 L4]. constructor.
  - intros x [->|Hx]%elem_of_cons; [|by apply L1]. exists a, c'. split; [apply L3; rewrite Et; apply lookup_insert_eq|]. split; [apply L2; rewrite Ec; apply lookup_insert_eq|done].
  - intros b x Hx. apply L2. rewrite Ec, lookup_insert_ne; [done|]. congruence.
  - intros k b Hb. apply L3. rewrite Et, lookup_insert_ne; [done|]. congruence.
  - rewrite L4, Ec, map_size_insert_None by done. cbn. lia.
Qed.
Definition sum_cs (es : list dns_cent_t) : Z := foldr (fun c n => cs c + n) 0 es.
Lemma sum_nonneg es : (forall c, c ∈ es -> cent_ok c) -> 0 <= sum_cs es.
Proof.
  induction es as [|x es IH]; intros Hall; [done|]. cbn [sum_cs foldr]. fold (sum_cs es). assert (Hx : cent_ok x) by (apply Hall; by left).
  rewrite (co_cs _ Hx). pose proof (arr_size_nonneg (slots x)). assert (0 <= ext_size (slots x)) by (unfold ext_size, sizeof_rrext; destruct (_ <? _)%nat; lia).
  assert (0 <= sum_cs es) by (apply IH; intros y Hy; apply Hall; by right). unfold sizeof_dns_cent_t. lia.
Qed.
(** Entries that can be added one after the other. *)
Record addable (es : list dns_cent_t) (w : cache) : Prop := {
  ad_ok : forall c, c ∈ es -> cent_ok c /\ fits c /\ saves c = true;
  ad_names : NoDup (map (fun c => canon (qname c)) es);
  ad_new : forall c, c ∈ es -> table w !! canon (qname c) = None;
  ad_room : cache_size w + sum_cs es <= cache_limit global;
}.
Lemma addable_tail c es w w1 a n : addable (c :: es) w -> table w1 = <[canon (qname c) := a]> (table w) -> cache_size w1 = cache_size w + n -> n <= cs c -> addable es w1.
Proof.
  intros [A1 A2 A3 A4] Et Es Hn. cbn [map] in A2. apply list_relations.list.NoDup_cons in A2 as [A2 A2']. constructor; [|done| |].
  - intros x Hx. apply A1. by right.
  - intros x Hx. rewrite Et, lookup_insert_ne; [apply A3; by right|]. intros E. apply A2. rewrite E. by apply (list_elem_of_fmap_2 (fun c => canon (qname c))).
  - cbn [sum_cs foldr] in A4. fold (sum_cs es) in A4. lia.
Qed.
Lemma entry_image_length c : 6 <= zlen (entry_image c).
Proof. unfold entry_image. rewrite length_app. change (length (dns_file_bytes _)) with 6%nat. lia. Qed.
(** The part of the file with the first [j] entries, and that exactly the first [k] entries are in a
    file [f] that may have been cut off. *)
Definition file_part (es : list dns_cent_t) (j : nat) : list Z := cachverid ++ le_bytes 4 (zlen es) ++ entries_image (take j es).
Definition complete_entries (es : list dns_cent_t) (f : list Z) (k : nat) : Prop := (k <= length es)%nat /\
  forall j, (0 < j <= length es)%nat -> ((j <= k)%nat <-> file_part es j `prefix_of` f).
(** The same for the entries only, by their sizes. *)
Definition complete_sizes (es : list dns_cent_t) (f : list Z) (k : nat) : Prop := (k <= length es)%nat /\
  forall j, (0 < j <= length es)%nat -> ((j <= k)%nat <-> zlen (entries_image (take j es)) <= zlen f).
Lemma prefix_by_size {A} (a b c : list A) : a `prefix_of` c -> b `prefix_of` c -> (a `prefix_of` b <-> zlen a <= zlen b).
Proof.
  intros Ha Hb. split; [intros H%prefix_length; lia|]. intros Hl. destruct (prefix_weak_total a b c Ha Hb) as [?|Hba]; [done|].
  by rewrite (prefix_length_eq b a Hba) by lia.
Qed.
Lemma image_take es j : entries_image (take j es) `prefix_of` entries_image es.
Proof.
  unfold entries_image. rewrite <- (take_drop j es) at 2. rewrite map_app, concat_app. apply prefix_app_r. done.
Qed.
Lemma complete_by_size es f k : f `prefix_of` entries_image es -> complete_sizes es f k -> complete_entries es (cachverid ++ le_bytes 4 (zlen es) ++ f) k.
Proof.
  intros Hf [H1 H2]. split; [done|]. intros j Hj. rewrite (H2 j Hj). unfold file_part.
  rewrite <- (prefix_by_size _ _ _ (image_take es j) Hf).
  split; [intros H; by apply prefix_app, prefix_app|]. intros H. by apply prefix_app_inv, prefix_app_inv in H.
Qed.
Lemma complete_all es f k : f = file_image es -> complete_entries es f k -> (length es <= k)%nat.
Proof.
  intros -> [H1 H2]. destruct (length es) as [|n] eqn:E; [lia|]. rewrite <- E in *. apply H2; [lia|]. unfold file_part, file_image. by rewrite take_ge.
Qed.
Lemma complete_short es f : zlen f < 8 -> complete_entries es f 0.
Proof.
  intros Hs. split; [lia|]. intros j Hj. split; [lia|]. intros H%prefix_length. unfold file_part in H. rewrite !length_app, length_le_bytes in H. cbn in H. lia.
Qed.
(** What the reader of the entries [es] has done when it stops. *)
Definition entries_read (es : list dns_cent_t) (f : list Z) (w : cache) (l : label) (w' : cache) : Prop :=
  stops l /\ wf w' /\ (next_id w' <= next_id w + NRRTOT * length es)%nat /\
  exists k, loaded (take k es) w w' /\ complete_sizes es f k.
Lemma entries_back es : forall fuel dtsz f w, wf w -> addable es w -> zlen f < Z.of_nat fuel -> f `prefix_of` entries_image es ->
  wp (read_entries malloc_ok clock global fuel (zlen es) dtsz f) w (entries_read es f w).
Proof using Hmem.
  induction es as [|c es IH]; intros fuel dtsz f w Hw Had Hf Hp; (destruct fuel as [|fuel]; [lia|]); cbn [read_entries length].
  { apply wp_ret. split; [done|]. split; [done|]. split; [lia|]. exists 0%nat. split; [|split; cbn; lia]. rewrite <- (ticks_id w) at 2. apply loaded_nil. }
  destruct (ad_ok _ _ Had c (list_elem_of_here _ _)) as (Ho & Hfc & Hsv). destruct (Z.ltb_spec 0 (Z.of_nat (S (length es)))); [|lia]. apply wp_bind.
  eapply wp_mono; [by apply (entry_back c dtsz f (entries_image es))|]. intros o w1 [(n & -> & _) [(f1 & d1 & ce & -> & -> & Ha & Hr)|(l & -> & Hl & Hs)]].
  2:{ apply wp_ret. split; [done|]. split; [by apply wf_ticks|]. split; [cbn; lia|]. exists 0%nat. split; [apply loaded_nil|].
      split; [lia|]. intros [|j] Hj; [lia|]. cbn [take]. unfold entries_image. cbn [map concat]. rewrite length_app. lia. }
  pose proof (restored_size c ce Ho (proj1 Ha) Hr) as Hcs. pose proof (rs_name _ _ Hr) as Hq. apply prefix_app_inv in Hp.
  pose proof (ad_new _ _ Had c (list_elem_of_here _ _)) as Hnew. pose proof (ad_room _ _ Had) as Hroom. cbn [sum_cs foldr] in Hroom. fold (sum_cs es) in Hroom.
  pose proof (sum_nonneg es (fun x Hx => proj1 (ad_ok _ _ Had x (list_elem_of_further _ _ _ Hx)))) as Hsum.
  apply wp_bind. eapply wp_mono; [apply (wp_makes NRRTOT), add_fits_any; [by apply add_cache_makes, Ha|by apply wf_ticks|apply Ha|by rewrite Hq|by eapply restored_some|cbn; lia]|].
  intros ? w2 [(W2 & a & c' & E1 & E2 & E3 & E4 & E5 & St) Hn]. apply wp_bind. eapply wp_mono; [by apply free_apart|]. intros ? w3 ->. rewrite Hq in E3.
  replace (Z.of_nat (S (length es)) - 1) with (zlen es) by lia. rewrite length_app in Hf. pose proof (entry_image_length c).
  eapply wp_mono; [apply (IH fuel d1 f1 w2 W2); [exact (addable_tail c es w w2 a (cs ce) Had E3 E4 Hcs)|lia|exact Hp]|].
  intros l w3 (S3 & W3 & N3 & k & L3 & K3). split; [done|]. split; [done|]. split; [cbn [next_id with_ticks] in Hn; cbn [length]; unfold NRRTOT in *; lia|]. exists (S k). split.
  - apply (loaded_cons c (take k es) w w2 w3 a c'); [exact E1|exact E2|done|exact E3|by eapply recover|done].
  - destruct K3 as [K1 K2]. split; [cbn [length]; lia|]. intros [|j] Hj; [lia|]. cbn [take length] in *.
    change (entries_image (c :: take j es)) with (entry_image c ++ entries_image (take j es)). rewrite !length_app. destruct j as [|j].
    { change (entries_image (take 0 es)) with (@nil Z). cbn [length]. lia. }
    specialize (K2 (S j) ltac:(lia)). lia.
Qed.
Lemma loaded_same es w w1 w2 : loaded es w w1 -> cents w2 = cents w1 -> table w2 = table w1 -> loaded es w w2.
Proof. intros [L1 L2 L3 L4] E1 E2. constructor; rewrite ?E1, ?E2; done. Qed.
Lemma contents_back es f w : wf w -> addable es w -> zlen es < 2 ^ 32 -> f `prefix_of` file_image es ->
  wp (read_contents malloc_ok clock global f) w (fun l w' => stops l /\ wf w' /\ (next_id w' <= next_id w + NRRTOT * length es)%nat /\
    exists k, loaded (take k es) w w' /\ complete_entries es f k).
Proof using Hmem.
  intros Hw Had Hlen Hp. unfold read_contents, file_image in *.
  assert (Hnone : zlen f < 8 -> wp (mret free_data_fclose) w (fun l w' => stops l /\ wf w' /\ (next_id w' <= next_id w + NRRTOT * length es)%nat /\
    exists k, loaded (take k es) w w' /\ complete_entries es f k)).
  { intros Hs. apply wp_ret. split; [done|]. split; [done|]. split; [lia|]. exists 0%nat. split; [rewrite <- (ticks_id w) at 2; apply loaded_nil|].
    by apply complete_short. }
  destruct (fread_prefix (zlen cachverid) cachverid _ _ eq_refl Hp) as [(f1 & -> & Hp1 & ->)|[Hs ->]]; [|apply Hnone; cbn in Hs; lia].
  rewrite bool_decide_eq_true_2 by done. destruct (fread_prefix 4 _ _ _ (zlen_le 4 (zlen es)) Hp1) as [(f2 & -> & Hp2 & ->)|[Hs ->]].
  2:{ apply Hnone. rewrite length_app. cbn. lia. }
  rewrite field_le by (cbn; lia). eapply wp_mono; [apply entries_back; [done|done|lia|done]|]. intros l w' (S1 & S2 & S3 & k & S4 & S5). split; [done|]. split; [done|].
  split; [done|]. exists k. split; [done|]. by apply complete_by_size.
Qed.
Lemma file_back es f w : wf w -> addable es w -> zlen es < 2 ^ 32 -> Z.of_nat (next_id w + NRRTOT * length es) < 2 ^ 32 -> f `prefix_of` file_image es ->
  wp (read_disk_cache malloc_ok clock global (Some f)) w (fun ok w' => ok = true /\ wf w' /\ exists k, loaded (take k es) w w' /\ complete_entries es f k).
Proof using Hmem.
  intros Hw Had Hlen Hid Hp. unfold read_disk_cache. apply wp_bind, wp_malloc_or. intros b ->%enough. apply wp_bind, wp_bind, wp_sets.
  set (w1 := with_sort false (with_ticks (S (ticks w)) w)). assert (W1 : wf w1) by by apply wf_sort, wf_ticks. assert (A1 : addable es w1) by by destruct Had.
  eapply wp_mono; [by apply (contents_back es f w1 W1 A1)|]. intros l w2 (S1 & S2 & S3 & k & S4 & S5). assert (S4' : loaded (take k es) w w2) by by destruct S4.
  apply wp_bind. eapply wp_mono; [apply (free_label (malloc_ok := malloc_ok)); by destruct l|]. intros ? w3 ->. cbn [next_id w1 with_sort with_ticks] in S3.
  assert (Hso : sortable w2) by (unfold sortable; lia). destruct l; try done; (apply wp_bind; eapply wp_mono; [by apply resort_any|]);
    intros ? w4 (V1 & _ & V3 & V4 & _); apply wp_ret; (split; [done|]); (split; [done|]); exists k; (split; [by eapply loaded_same|done]).
Qed.
End reading.

(** ** The entries of a cache *)
Lemma elem_saved m es c : c ∈ saved_list m es <-> exists a, a ∈ es /\ m !! a = Some c /\ saves c = true.
Proof.
  induction es as [|a es IH]; cbn [saved_list]; [split; [by intros ?%elem_of_nil|by intros (a & ?%elem_of_nil & _)]|].
  assert (Hrest : c ∈ saved_list m es -> exists b, b ∈ a :: es /\ m !! b = Some c /\ saves c = true). { intros (b & Hb & H)%IH. exists b. split; [by right|done]. }
  destruct (m !! a) as [x|] eqn:Hx; [destruct (saves x) eqn:Hs|]; rewrite ?elem_of_cons; (split; [first [intros [->|H]|intros H]; [..|by apply Hrest]|]).
  - exists a. split; [by left|done].
  - intros (b & [->|Hb]%elem_of_cons & Hc & Hsc); [left; congruence|right; apply IH; eauto].
  - intros (b & [->|Hb]%elem_of_cons & Hc & Hsc); [congruence|apply IH; eauto].
  - intros (b & [->|Hb]%elem_of_cons & Hc & Hsc); [congruence|apply IH; eauto].
Qed.
Lemma saved_length m es : (length (saved_list m es) <= length es)%nat.
Proof. induction es as [|a es IH]; cbn [saved_list length]; [done|]. destruct (m !! a) as [c|]; [destruct (saves c); cbn|]; lia. Qed.
Lemma saved_names m es : NoDup es -> (forall a b c d, m !! a = Some c -> m !! b = Some d -> canon (qname c) = canon (qname d) -> a = b) ->
  NoDup (map (fun c => canon (qname c)) (saved_list m es)).
Proof.
  intros Hnd Hinj. induction es as [|a es IH]; cbn [saved_list]; [constructor|]. apply list_relations.list.NoDup_cons in Hnd as [Ha Hnd]. specialize (IH Hnd).
  destruct (m !! a) as [c|] eqn:Hc; [|done]. destruct (saves c); [|done]. cbn [map]. apply list_relations.list.NoDup_cons. split; [|done].
  intros (d & E & (b & Hb & Hd & _)%elem_saved)%list_elem_of_fmap. apply Ha. by rewrite (Hinj a b c d Hc Hd E).
Qed.
Lemma saved_delete m a es : a ∉ es -> saved_list (delete a m) es = saved_list m es.
Proof. induction es as [|b es IH]; intros Ha; [done|]. apply not_elem_of_cons in Ha as [H1 H2]. cbn [saved_list]. by rewrite lookup_delete_ne, IH. Qed.
Lemma saved_sum es : forall m, NoDup es -> (forall a c, m !! a = Some c -> 0 <= cs c) -> sum_cs (saved_list m es) <= total m.
Proof.
  induction es as [|a es IH]; intros m Hnd Hp; cbn [saved_list].
  - cbn. unfold total. induction m as [|b c m Hb IHm] using map_ind; [by rewrite map_fold_empty|]. rewrite map_fold_insert_L by (done || intros; lia).
    assert (0 <= cs c) by (apply (Hp b); apply lookup_insert_eq). assert (0 <= map_fold (fun _ c n => cs c + n) 0 m); [|lia].
    apply IHm. intros x y Hx. apply (Hp x). rewrite lookup_insert_ne; [done|]. congruence.
  - apply list_relations.list.NoDup_cons in Hnd as [Ha Hnd]. destruct (m !! a) as [c|] eqn:Hc; [|by apply IH]. pose proof (Hp a c Hc).
    specialize (IH (delete a m) Hnd). rewrite saved_delete, (total_delete m a c) in IH by done.
    assert (sum_cs (saved_list m es) <= total m - cs c) by (apply IH; intros b x [_ Hx]%lookup_delete_Some; by apply (Hp b)).
    destruct (saves c); cbn [sum_cs foldr]; fold (sum_cs (saved_list m es)); lia.
Qed.
Lemma iter_nodup w : wf w -> NoDup ((map_to_list (table w)).*2).
Proof.
  intros Hw. apply NoDup_fmap_2_strong; [|apply NoDup_map_to_list]. intros [k a] [k' a'] H1%elem_of_map_to_list H2%elem_of_map_to_list. cbn. intros <-.
  apply (wf_table _ Hw) in H1 as (c & Hc & <-), H2 as (c' & Hc' & <-). congruence.
Qed.
Lemma saved_addable global w1 es : wf w1 -> es ≡ₚ (map_to_list (table w1)).*2 -> (forall a c, cents w1 !! a = Some c -> fits c) -> cache_size w1 <= cache_limit global ->
  all_fit w1 es /\ addable (global := global) (saved_list (cents w1) es) init /\ (length es <= size (cents w1))%nat.
Proof.
  intros Hw Hes Hfit Hsz. pose proof (so_cents _ (wf_sound _ Hw)) as Hok. assert (Hnd : NoDup es) by (rewrite Hes; by apply iter_nodup).
  assert (Hin : forall a, a ∈ es -> exists c, cents w1 !! a = Some c).
  { intros a. rewrite Hes. intros ([k b] & -> & H%elem_of_map_to_list)%list_elem_of_fmap. apply (wf_table _ Hw) in H as (c & Hc & _). by exists c. }
  split; [|split].
  - intros a Ha. destruct (Hin a Ha) as [c Hc]. exists c. split; [done|]. split; [by apply (Hok a)|by apply (Hfit a)].
  - constructor.
    + intros c (a & _ & Hc & Hs)%elem_saved. split; [by apply (Hok a)|]. split; [by apply (Hfit a)|done].
    + apply saved_names; [done|]. intros a b c d Hc Hd E. assert (Hk : forall x y, cents w1 !! x = Some y -> table w1 !! canon (qname y) = Some x) by (intros x y Hx; apply (wf_table _ Hw); eauto).
      apply Hk in Hc, Hd. congruence.
    + intros c _. cbn [table init]. apply lookup_empty.
    + transitivity (total (cents w1)); [|by rewrite <- (wf_size _ Hw)]. cbn [cache_size init]. rewrite Z.add_0_l. apply saved_sum; [done|]. intros a c Hc.
      pose proof (sum_nonneg [c]) as H. cbn in H. rewrite Z.add_0_r in H. apply H. intros x ->%list_elem_of_singleton. by apply (Hok a).
  - rewrite <- size_dom, <- (size_list_to_set (C := gset Z) es Hnd). apply subseteq_size. intros a Ha%elem_of_list_to_set. apply elem_of_dom. by apply Hin.
Qed.

(** C17: what the cache file keeps. Any reachable cache is purged and written, where any
    write can fail after part of its bytes, and the file is read into an empty cache.
    Assumed are: memory suffices; the fields of the file are wide enough for the
    entries (at most 255 records in a set, each below 64 KB, and flags and times of
    their widths); the purged cache is within the limit at which adding purges; and it
    has fewer than 2^26 entries. Then both functions return. The new cache has
    exactly the entries that are completely in the file, in the order of the hash table, all
    of them if no write failed: under each name the sets that are not local, with their
    records, time stamps and flags and their times to live brought within the limits, the
    references to name servers, and negative entries as negative. An entry that was
    cut off is not there. *)
Theorem cache_file_roundtrip malloc_ok clock global iter fails w w1 : (forall t, malloc_ok t = true) -> reachable malloc_ok clock global w ->
  purge_cache clock (perm_cache global * 1024) false w = Ret (tt, w1) -> iter w1 ≡ₚ (map_to_list (table w1)).*2 ->
  (forall a c, cents w1 !! a = Some c -> fits c) -> cache_size w1 <= cache_limit global -> Z.of_nat (size (cents w1)) < 2 ^ 26 ->
  exists f w2 k, write_disk_cache fails clock global iter true w = Ret (Some f, w1) /\
    read_disk_cache malloc_ok clock global (Some (content f)) init = Ret (true, w2) /\ wf w2 /\
    let all := saved_list (cents w1) (iter w1) in
    let es := take k all in
    complete_entries all (content f) k /\ size (cents w2) = length es /\
    (forall c, c ∈ es -> exists a c', table w2 !! canon (qname c) = Some a /\ cents w2 !! a = Some c' /\ recovered (global := global) c c') /\
    ((forall n, fails n = None) -> forall a c, cents w1 !! a = Some c -> saves c = true -> c ∈ es).
Proof.
  intros Hm [Hw Hs]%reachable_good Hp Hit Hfit Hsz Hcount. destruct (@purge_cache_ok clock (perm_cache global * 1024) false w Hw Hs) as (u & w' & Ep & Hw1 & _).
  rewrite Hp in Ep. injection Ep as _ <-. destruct (saved_addable global w1 (iter w1) Hw1 Hit Hfit Hsz) as (Hall & Had & Hle). pose proof (saved_length (cents w1) (iter w1)) as Hsl.
  destruct (emits_file fails w1 (iter w1) Hall ltac:(lia) (mkFILE [] 0)) as (ok & f & p & Ew & Ec & Hpre & Hok). cbn [content app] in Ec. subst p.
  destruct (file_back (malloc_ok := malloc_ok) (clock := clock) Hm (saved_list (cents w1) (iter w1)) (content f) init (proj1 init_good) Had) as (b & w2 & Er & -> & W2 & k & L & K).
  { lia. } { unfold NRRTOT. cbn [next_id init]. lia. } { done. }
  exists f, w2, k. split; [unfold write_disk_cache; rewrite Hp; cbn [mbind cres_bind]; by rewrite Ew|]. split; [done|]. split; [done|]. cbv zeta. destruct L as [L1 _ _ L4].
  split; [done|]. split; [by rewrite L4|]. split; [done|]. intros Hnone a c Hc Hsv. destruct ok; [|destruct Hok as (n & j & Hn); by rewrite Hnone in Hn].
  rewrite take_ge by by apply (complete_all _ (content f)). apply elem_saved. exists a. split; [|done]. rewrite Hit. apply list_elem_of_fmap. exists (canon (qname c), a). split; [done|].
  apply elem_of_map_to_list, (wf_table _ Hw1). eauto.
Qed.
(** A local entry, one with an address and a negative one. *)
Definition disk_ops : list op := [OpAdd (sample 97 CF_LOCAL DF_AUTH); OpAdd (sample 98 0 0); OpAdd (sample_neg 99)].
Definition table_order (w : cache) : list Z := (map_to_list (table w)).*2.
Definition purged_state (w : cache) : cache := match purge_cache (fun _ => 1100) (2048 * 1024) false w with Ret (_, w) => w | _ => w end.
Lemma disk_ops_reachable : reachable (fun _ => true) (fun _ => 1100) sample_globals (sample_state disk_ops).
Proof. exists disk_ops. split; [repeat constructor; try done; by left|vm_compute; reflexivity]. Defined.
Lemma sample_fits x fl dfl t l : is_byte x -> in_u16 fl -> in_u16 dfl -> has dfl DF_LOCAL = false -> in_s32 t ->
  fits (mkCent [[x]] 87 1 dfl (RR (Some (mkRRset l t 1000 fl [[10; 0; 0; 1]]) :: replicate 7 None)) cundef cundef).
Proof.
  intros Hx H1 H2 H3 H4. constructor; [|done|done|done|].
  - split; [|done]. constructor; [|constructor]. split; [by constructor|done].
  - intros [|j] r; [intros [= <-] _|].
    + constructor; [done|done|cbn; lia| | |].
      * by intros d ->%list_elem_of_singleton.
      * apply NoDup_singleton.
      * cbn. congruence.
    + intros Hr. assert (E : mjoin (replicate 7 (None : option rr_set_t) !! j) = None) by apply slot_none. change (slot _ (S j)) with (mjoin (replicate 7 (None : option rr_set_t) !! j)) in Hr. congruence.
Qed.
Lemma disk_fits a c : cents (purged_state (sample_state disk_ops)) !! a = Some c -> fits c.
Proof.
  intros Hc. apply elem_of_map_to_list in Hc. assert (E : map_to_list (cents (purged_state (sample_state disk_ops))) =
    [(2, mkCent [[99]] 55 0 1 (Neg (Some 1%nat) 300 900) 255 255);
     (1, mkCent [[98]] 87 1 0 (RR (Some (mkRRset (Some 0%nat) 300 1000 0 [[10; 0; 0; 1]]) :: replicate 7 None)) 255 255);
     (0, mkCent [[97]] 87 1 4 (RR (Some (mkRRset None 300 1000 2 [[10; 0; 0; 1]]) :: replicate 7 None)) 255 255)]) by (vm_compute; reflexivity).
  rewrite E in Hc. clear E. apply elem_of_cons in Hc as [[= _ ->]|Hc].
  { constructor; [|done|done| |by intros j r]. - split; [|done]. constructor; [|constructor]. split; [by constructor|done]. - by intros l t s [= _ <- <-]. }
  apply elem_of_cons in Hc as [[= _ ->]|Hc]; [by apply sample_fits|]. apply list_elem_of_singleton in Hc. injection Hc as _ ->. by apply sample_fits.
Qed.
Lemma cache_file_roundtrip_witness : exists f w2 k, write_disk_cache (fun _ => None) (fun _ => 1100) sample_globals table_order true (sample_state disk_ops) = Ret (Some f, purged_state (sample_state disk_ops)) /\
    read_disk_cache (fun _ => true) (fun _ => 1100) sample_globals (Some (content f)) init = Ret (true, w2) /\ wf w2 /\
    let all := saved_list (cents (purged_state (sample_state disk_ops))) (table_order (purged_state (sample_state disk_ops))) in
    let es := take k all in
    complete_entries all (content f) k /\ size (cents w2) = length es /\
    (forall c, c ∈ es -> exists a c', table w2 !! canon (qname c) = Some a /\ cents w2 !! a = Some c' /\ recovered (global := sample_globals) c c') /\
    ((forall n : nat, (None : option nat) = None) -> forall a c, cents (purged_state (sample_state disk_ops)) !! a = Some c -> saves c = true -> c ∈ es).
Proof.
  apply (cache_file_roundtrip (fun _ => true) (fun _ => 1100) sample_globals table_order (fun _ => None) (sample_state disk_ops) (purged_state (sample_state disk_ops))).
  - done.
  - apply disk_ops_reachable.
  - vm_compute. reflexivity.
  - done.
  - apply disk_fits.
  - vm_compute. discriminate.
  - vm_compute. reflexivity.
Defined.

(** ** Where the code does not keep what it means to *)
(** A record that must not be cached is kept for the latency of the cache only, with a
    time to live of 0. After the cache was written and read it has the minimal
    time to live of the configuration. *)
Definition slow_globals : globals := mkGlobals 2048 3600 604800 900.
Definition ttl_at (name : list (list Z)) (w : cache) : option Z :=
  match table w !! canon name with Some a => match cents w !! a with Some c => ttl <$> slot c 0 | None => None end | None => None end.
Theorem nocache_revived : exists w f w1 w2, run (fun _ => true) (fun _ => 1100) slow_globals [OpAdd (sample 98 CF_NOCACHE 0)] init = Ret (tt, w) /\ ttl_at [[98]] w = Some 0 /\
  write_disk_cache (fun _ => None) (fun _ => 1100) slow_globals table_order true w = Ret (Some f, w1) /\
  read_disk_cache (fun _ => true) (fun _ => 1100) slow_globals (Some (content f)) init = Ret (true, w2) /\ ttl_at [[98]] w2 = Some 3600.
Proof. eexists _, _, _, _. split; [vm_compute; reflexivity|]. split; [vm_compute; reflexivity|]. split; [vm_compute; reflexivity|]. split; vm_compute; reflexivity. Qed.
End DiskRound.
