(* ===== verification/CacheLock.v ===== *)
(** * pdnsd/src/cache.c: the lock of the cache

    Any number of threads may read the cache, or one may write to it. The lock
    consists of counters, which a mutex protects, and two condition variables;
    waiting writers suspend further readers when they become many. Each section
    under the mutex is a step; a thread that waits on a condition variable is
    asleep until another thread wakes it, or for no reason at all, and then
    evaluates the condition of its loop again in a step of its own. The steps of
    the threads interleave in any order. [use_cache_lock] is set, as it is before
    threads are started. *)
From stdpp Require Import base list.
From S2P Require Import Prelude.
Local Open Scope Z_scope.

Module CacheLock.
Definition SUSP_THRESH (r_pend : Z) : Z := Z.quot r_pend 2 + 2.
Record lock := mkLock {
  cache_w_lock : bool;
  cache_r_lock : Z;
  r_pend : Z;
  rw_pend : Z;
  r_susp : bool;
}.
(** What a thread waits for: reading, writing, writing for a limited time. *)
Inductive want := R | RW | RWTimed.
Inductive thread := Out | Reader | Writer | Yielded | Asleep (k : want) | Woken (k : want).
Record state := mkState { vars : lock; threads : list thread }.

Definition set_w b (v : lock) := mkLock b (cache_r_lock v) (r_pend v) (rw_pend v) (r_susp v).
Definition set_r n (v : lock) := mkLock (cache_w_lock v) n (r_pend v) (rw_pend v) (r_susp v).
Definition set_r_pend n (v : lock) := mkLock (cache_w_lock v) (cache_r_lock v) n (rw_pend v) (r_susp v).
Definition set_rw_pend n (v : lock) := mkLock (cache_w_lock v) (cache_r_lock v) (r_pend v) n (r_susp v).
Definition set_susp b (v : lock) := mkLock (cache_w_lock v) (cache_r_lock v) (r_pend v) (rw_pend v) b.

(** The loops, from the test of the condition to sleeping or the end. *)
Definition r_blocked (v : lock) : bool * lock :=
  let v := if SUSP_THRESH (r_pend v) <? rw_pend v then set_susp true v else v in
  (r_susp v || cache_w_lock v, v).
Definition r_loop (v : lock) : lock * thread :=
  let '(blocked, v) := r_blocked v in
  if blocked then (v, Asleep R) else (set_r_pend (r_pend v - 1) (set_r (cache_r_lock v + 1) v), Reader).
Definition rw_loop (k : want) (v : lock) : lock * thread :=
  if cache_w_lock v || negb (cache_r_lock v =? 0) then (v, Asleep k)
  else (set_rw_pend (rw_pend v - 1) (set_w true v), Writer).
Definition loop (k : want) (v : lock) : lock * thread := match k with R => r_loop v | _ => rw_loop k v end.

Definition lock_cache_r (v : lock) : lock * thread := r_loop (set_r_pend (r_pend v + 1) v).
Definition lock_cache_rw (v : lock) : lock * thread := rw_loop RW (set_rw_pend (rw_pend v + 1) v).
Definition timedlock_cache_rw (v : lock) : lock * thread := rw_loop RWTimed (set_rw_pend (rw_pend v + 1) v).
(** [pthread_cond_timedwait] returned ETIMEDOUT. *)
Definition timedlock_timeout (v : lock) : lock := set_rw_pend (rw_pend v - 1) v.
(** Whom to wake. *)
Inductive wake := NoWake | SignalRW | BroadcastR.
Definition unlock_cache_r (v : lock) : lock * wake :=
  let v := if 0 <? cache_r_lock v then set_r (cache_r_lock v - 1) v else v in
  (v, if cache_r_lock v =? 0 then SignalRW else NoWake).
Definition unlock_cache_rw (v : lock) : lock * wake :=
  let v := set_susp false (set_w false v) in
  (v, if (r_pend v =? 0) || (SUSP_THRESH (r_pend v) <? rw_pend v) then SignalRW else BroadcastR).
(** [yield_lock_cache_rw] does nothing if nobody waits; otherwise it releases the
    lock in the same way, sleeps, and takes it again. *)
Definition yield_needed (v : lock) : bool := negb (r_pend v =? 0) || negb (rw_pend v =? 0).
Definition yield_relock (v : lock) : lock * thread := rw_loop RW (set_rw_pend (rw_pend v + 1) v).
(** One attempt of the soft functions; [None] if it failed. *)
Definition softlock_cache_r (v : lock) : option lock := if cache_w_lock v then None else Some (set_r (cache_r_lock v + 1) v).
Definition softlock_cache_rw (v : lock) : option lock :=
  if cache_w_lock v || negb (cache_r_lock v =? 0) then None else Some (set_w true v).
Definition softunlock_cache_r (v : lock) : lock := if 0 <? cache_r_lock v then set_r (cache_r_lock v - 1) v else v.
Definition softunlock_cache_rw (v : lock) : lock := set_w false v.

(** ** Threads *)
Definition on_rw_cond (k : want) : bool := match k with R => false | _ => true end.
Definition wake_reader (th : thread) : thread := match th with Asleep R => Woken R | _ => th end.
(** [pthread_cond_signal] wakes one of the threads that wait, if there is one. *)
Inductive woken_by : wake -> list thread -> list thread -> Prop :=
| no_wake ths : woken_by NoWake ths ths
| signal_one ths i k : ths !! i = Some (Asleep k) -> on_rw_cond k = true -> woken_by SignalRW ths (<[i := Woken k]> ths)
| signal_none ths : (forall i k, ths !! i = Some (Asleep k) -> on_rw_cond k = false) -> woken_by SignalRW ths ths
| broadcast ths : woken_by BroadcastR ths (map wake_reader ths).
(** A thread [i] in state [th] ran a section that left the counters [v] and the state [th']. *)
Definition at_thread (s : state) (i : nat) (th : thread) : Prop := threads s !! i = Some th.
Definition moved (i : nat) (res : lock * thread) (s : state) : state := mkState (fst res) (<[i := snd res]> (threads s)).
Definition timed (th : thread) : bool := match th with Asleep RWTimed | Woken RWTimed => true | _ => false end.
(** The steps of a running program. Only the control thread takes the lock with a
    time limit (to empty the cache), so that at most one thread waits in this way. *)
Inductive step (s : state) : state -> Prop :=
| step_lock_r i : at_thread s i Out -> step s (moved i (lock_cache_r (vars s)) s)
| step_lock_rw i : at_thread s i Out -> step s (moved i (lock_cache_rw (vars s)) s)
| step_unlock_r i ths : at_thread s i Reader -> woken_by (snd (unlock_cache_r (vars s))) (<[i := Out]> (threads s)) ths ->
    step s (mkState (fst (unlock_cache_r (vars s))) ths)
| step_unlock_rw i ths : at_thread s i Writer -> woken_by (snd (unlock_cache_rw (vars s))) (<[i := Out]> (threads s)) ths ->
    step s (mkState (fst (unlock_cache_rw (vars s))) ths)
| step_yield i ths : at_thread s i Writer -> yield_needed (vars s) = true ->
    woken_by (snd (unlock_cache_rw (vars s))) (<[i := Yielded]> (threads s)) ths -> step s (mkState (fst (unlock_cache_rw (vars s))) ths)
| step_relock i : at_thread s i Yielded -> step s (moved i (yield_relock (vars s)) s)
| step_wake i k : at_thread s i (Asleep k) -> step s (mkState (vars s) (<[i := Woken k]> (threads s)))
| step_loop i k : at_thread s i (Woken k) -> step s (moved i (loop k (vars s)) s)
| step_timedlock i : at_thread s i Out -> (forall j th, at_thread s j th -> timed th = false) -> step s (moved i (timedlock_cache_rw (vars s)) s)
| step_timeout i : at_thread s i (Asleep RWTimed) -> step s (moved i (timedlock_timeout (vars s), Out) s).
(** Any number of threads with time limits, and the soft functions, which are used at
    the end of the program. *)
Inductive step_all (s : state) : state -> Prop :=
| step_normal s' : step s s' -> step_all s s'
| step_timedlock_any i : at_thread s i Out -> step_all s (moved i (timedlock_cache_rw (vars s)) s)
| step_softlock_r i v : at_thread s i Out -> softlock_cache_r (vars s) = Some v -> step_all s (moved i (v, Reader) s)
| step_softlock_rw i v : at_thread s i Out -> softlock_cache_rw (vars s) = Some v -> step_all s (moved i (v, Writer) s)
| step_softunlock_r i : at_thread s i Reader -> step_all s (moved i (softunlock_cache_r (vars s), Out) s)
| step_softunlock_rw i : at_thread s i Writer -> step_all s (moved i (softunlock_cache_rw (vars s), Out) s).
Definition init (n : nat) : state := mkState (mkLock false 0 0 0 false) (replicate n Out).
Inductive reachable (next : state -> state -> Prop) (n : nat) : state -> Prop :=
| reach_init : reachable next n (init n)
| reach_step s s' : reachable next n s -> next s s' -> reachable next n s'.

(** ** Counting threads *)
Definition b2z (b : bool) : Z := if b then 1 else 0.
Fixpoint cnt (P : thread -> bool) (l : list thread) : Z := match l with [] => 0 | x :: l => b2z (P x) + cnt P l end.
Definition is_reader (th : thread) : bool := match th with Reader => true | _ => false end.
Definition is_writer (th : thread) : bool := match th with Writer => true | _ => false end.
Definition pends (w : bool) (th : thread) : bool := match th with Asleep k | Woken k => Bool.eqb w (on_rw_cond k) | _ => false end.
Definition asleep (w : bool) (th : thread) : bool := match th with Asleep k => Bool.eqb w (on_rw_cond k) | _ => false end.
Definition woken (w : bool) (th : thread) : bool := match th with Woken k => Bool.eqb w (on_rw_cond k) | _ => false end.
Lemma cnt_nonneg P l : 0 <= cnt P l.
Proof. induction l as [|x l IH]; cbn; [done|]. destruct (P x); cbn; lia. Qed.
Lemma cnt_insert P l i y x : l !! i = Some y -> cnt P (<[i := x]> l) = cnt P l - b2z (P y) + b2z (P x).
Proof. revert i. induction l as [|z l IH]; intros [|i]; cbn; intros E; try done; [injection E as <-; lia|]. rewrite IH by done. lia. Qed.
Lemma cnt_pos P l i x : l !! i = Some x -> P x = true -> 0 < cnt P l.
Proof.
  revert i. induction l as [|z l IH]; intros [|i]; cbn; intros E HP; try done; pose proof (cnt_nonneg P l).
  - injection E as ->. rewrite HP. cbn. lia.
  - specialize (IH i E HP). destruct (P z); cbn; lia.
Qed.
Lemma cnt_find P l : 0 < cnt P l -> exists i x, l !! i = Some x /\ P x = true.
Proof.
  induction l as [|z l IH]; cbn; [lia|]. destruct (P z) eqn:Ez; [exists 0%nat, z; done|]. cbn. intros H. destruct IH as (i & x & Hx); [lia|]. by exists (S i), x.
Qed.
(** Two threads with the property. *)
Lemma cnt_two P l i j x y : i <> j -> l !! i = Some x -> l !! j = Some y -> P x = true -> P y = true -> 2 <= cnt P l.
Proof.
  revert i j. induction l as [|z l IH]; intros [|i] [|j] Hne; cbn; intros Hx Hy Px Py; try done.
  - injection Hx as ->. rewrite Px. pose proof (cnt_pos P l j y Hy Py). cbn. lia.
  - injection Hy as ->. rewrite Py. pose proof (cnt_pos P l i x Hx Px). cbn. lia.
  - assert (2 <= cnt P l) by (eapply IH; [|done..]; congruence). destruct (P z); cbn; lia.
Qed.
Lemma cnt_map P f l : (forall x, P (f x) = P x) -> cnt P (map f l) = cnt P l.
Proof. intros H. induction l as [|x l IH]; cbn; [done|]. by rewrite H, IH. Qed.
Lemma cnt_none P n : P Out = false -> cnt P (replicate n Out) = 0.
Proof. intros H. induction n as [|n IH]; cbn; [done|]. by rewrite H, IH. Qed.
Lemma cnt_split w l : cnt (pends w) l = cnt (asleep w) l + cnt (woken w) l.
Proof. induction l as [|x l IH]; cbn; [done|]. rewrite IH. destruct x as [| | | |k|k]; cbn; try lia; destruct (Bool.eqb w (on_rw_cond k)); cbn; lia. Qed.
(** Waking threads changes no other count. *)
Lemma woken_cnt P a ths ths' : (forall k, P (Asleep k) = P (Woken k)) -> woken_by a ths ths' -> cnt P ths' = cnt P ths.
Proof.
  intros HP [| l i k Hi _|l _|l]; [done| |done|].
  - rewrite (cnt_insert P _ _ (Asleep k)) by done. rewrite HP. lia.
  - apply cnt_map. by intros [| | | |[]|].
Qed.

(** ** The counters are right *)
Record counted (s : state) : Prop := {
  ct_r : cache_r_lock (vars s) = cnt is_reader (threads s);
  ct_w : b2z (cache_w_lock (vars s)) = cnt is_writer (threads s);
  ct_r_pend : r_pend (vars s) = cnt (pends false) (threads s);
  ct_rw_pend : rw_pend (vars s) = cnt (pends true) (threads s);
  ct_excl : cache_w_lock (vars s) = true -> cache_r_lock (vars s) = 0;
}.
(** A section moved thread [i] from [th] to [th'] and changed the counters accordingly. *)
Definition accounted (v : lock) (th : thread) (v' : lock) (th' : thread) : Prop :=
  cache_r_lock v' - cache_r_lock v = b2z (is_reader th') - b2z (is_reader th) /\
  b2z (cache_w_lock v') - b2z (cache_w_lock v) = b2z (is_writer th') - b2z (is_writer th) /\
  r_pend v' - r_pend v = b2z (pends false th') - b2z (pends false th) /\
  rw_pend v' - rw_pend v = b2z (pends true th') - b2z (pends true th) /\
  (cache_w_lock v' = true -> cache_r_lock v' = 0).
Lemma counted_moved s i th v' th' a ths : counted s -> at_thread s i th -> accounted (vars s) th v' th' ->
  woken_by a (<[i := th']> (threads s)) ths -> counted (mkState v' ths).
Proof.
  intros [C1 C2 C3 C4 C5] Hi (A1 & A2 & A3 & A4 & A5) Hw.
  assert (Hc : forall P, (forall k, P (Asleep k) = P (Woken k)) -> cnt P ths = cnt P (threads s) - b2z (P th) + b2z (P th')).
  { intros P HP. rewrite (woken_cnt P a _ ths HP Hw). by apply cnt_insert. }
  constructor; cbn [vars threads]; [rewrite Hc by done; lia..|done].
Qed.
Lemma moved_counted s i th res : counted s -> at_thread s i th -> accounted (vars s) th (fst res) (snd res) -> counted (moved i res s).
Proof. intros Hc Hi Ha. eapply counted_moved; [done..|]. constructor. Qed.
(** Each section accounts for its thread. *)
Lemma r_loop_accounted v k : (cache_w_lock v = true -> cache_r_lock v = 0) -> pends false k = true -> is_reader k = false -> is_writer k = false -> pends true k = false ->
  accounted v k (fst (r_loop v)) (snd (r_loop v)).
Proof.
  intros Hx H1 H2 H3 H4. unfold r_loop, r_blocked, accounted. rewrite H1, H2, H3, H4.
  destruct (SUSP_THRESH (r_pend v) <? rw_pend v), (r_susp v) eqn:Es, (cache_w_lock v) eqn:Ew; cbn; rewrite ?Es, ?Ew; cbn; rewrite ?Ew; split_and!; try lia; try done; auto.
Qed.
Lemma rw_loop_accounted v k th : on_rw_cond k = true -> (cache_w_lock v = true -> cache_r_lock v = 0) -> pends true th = true -> is_reader th = false -> is_writer th = false ->
  pends false th = false -> accounted v th (fst (rw_loop k v)) (snd (rw_loop k v)).
Proof.
  intros Hk Hx H1 H2 H3 H4. unfold rw_loop, accounted. rewrite H1, H2, H3, H4. destruct (cache_w_lock v) eqn:Ew; cbn; rewrite ?Ew.
  - destruct k; try done; cbn; split_and!; try lia; auto.
  - destruct (Z.eqb_spec (cache_r_lock v) 0) as [E|E]; cbn; rewrite ?Ew; [split_and!; try lia; done|]. destruct k; try done; cbn; split_and!; try lia; done.
Qed.
(** Starting to wait and then running the loop. *)
Lemma accounted_trans v1 th1 v2 th2 v3 th3 : accounted v1 th1 v2 th2 -> accounted v2 th2 v3 th3 -> accounted v1 th1 v3 th3.
Proof. unfold accounted. intros (?&?&?&?&?) (?&?&?&?&?). split_and!; try lia. done. Qed.
Lemma start_r v th : (cache_w_lock v = true -> cache_r_lock v = 0) -> th = Out -> accounted v th (set_r_pend (r_pend v + 1) v) (Woken R).
Proof. intros Hx ->. unfold accounted. cbn. split_and!; try lia. done. Qed.
Lemma start_rw v th k : on_rw_cond k = true -> (cache_w_lock v = true -> cache_r_lock v = 0) -> th = Out \/ th = Yielded -> accounted v th (set_rw_pend (rw_pend v + 1) v) (Woken k).
Proof. intros Hk Hx [->| ->]; unfold accounted; cbn; rewrite Hk; cbn; split_and!; try lia; done. Qed.
Lemma timeout_accounted v : (cache_w_lock v = true -> cache_r_lock v = 0) -> accounted v (Asleep RWTimed) (timedlock_timeout v) Out.
Proof. intros Hx. unfold accounted, timedlock_timeout. cbn. split_and!; try lia. done. Qed.
Lemma rw_start_accounted v th k : on_rw_cond k = true -> (cache_w_lock v = true -> cache_r_lock v = 0) -> th = Out \/ th = Yielded ->
  accounted v th (fst (rw_loop k (set_rw_pend (rw_pend v + 1) v))) (snd (rw_loop k (set_rw_pend (rw_pend v + 1) v))).
Proof. intros Hk Hx Hth. eapply accounted_trans; [by apply (start_rw v th k)|]. apply rw_loop_accounted; try done; cbn; by rewrite Hk. Qed.
Lemma unlock_r_accounted v : 0 < cache_r_lock v -> (cache_w_lock v = true -> cache_r_lock v = 0) -> accounted v Reader (fst (unlock_cache_r v)) Out.
Proof. intros Hr Hx. unfold unlock_cache_r, accounted. rewrite (proj2 (Z.ltb_lt _ _) Hr). cbn. split_and!; try lia. intros E. specialize (Hx E). lia. Qed.
Lemma unlock_rw_accounted v th : cache_w_lock v = true -> th = Out \/ th = Yielded -> accounted v Writer (fst (unlock_cache_rw v)) th.
Proof. intros Hw [->| ->]; unfold unlock_cache_rw, accounted; cbn; rewrite Hw; cbn; split_and!; try lia; done. Qed.
Lemma counted_reader s i : counted s -> at_thread s i Reader -> 0 < cache_r_lock (vars s).
Proof. intros [-> _ _ _ _] Hi. by eapply cnt_pos. Qed.
Lemma counted_writer s i : counted s -> at_thread s i Writer -> cache_w_lock (vars s) = true.
Proof. intros [_ C _ _ _] Hi. pose proof (cnt_pos is_writer _ _ _ Hi eq_refl). destruct (cache_w_lock (vars s)); [done|]. cbn in C. lia. Qed.
Lemma step_counted s s' : counted s -> step s s' -> counted s'.
Proof.
  intros Hc Hs. pose proof (ct_excl _ Hc) as Hx. destruct Hs as [i Hi|i Hi|i ths Hi Hw|i ths Hi Hw|i ths Hi _ Hw|i Hi|i k Hi|i k Hi|i Hi _|i Hi].
  - eapply moved_counted; [done..|]. eapply accounted_trans; [by apply start_r|by apply r_loop_accounted].
  - eapply moved_counted; [done..|]. apply rw_start_accounted; auto.
  - eapply counted_moved; [done..| |done]. apply unlock_r_accounted; [by eapply counted_reader|done].
  - eapply counted_moved; [done..| |done]. apply unlock_rw_accounted; [by eapply counted_writer|by left].
  - eapply counted_moved; [done..| |done]. apply unlock_rw_accounted; [by eapply counted_writer|by right].
  - eapply moved_counted; [done..|]. apply rw_start_accounted; auto.
  - eapply (moved_counted s i (Asleep k) (vars s, Woken k)); [done..|]. unfold accounted. cbn. split_and!; try lia. done.
  - eapply moved_counted; [done..|]. destruct k; [by apply r_loop_accounted|by apply rw_loop_accounted..].
  - eapply moved_counted; [done..|]. apply rw_start_accounted; auto.
  - eapply moved_counted; [done..|]. by apply timeout_accounted.
Qed.
Lemma step_all_counted s s' : counted s -> step_all s s' -> counted s'.
Proof.
  intros Hc Hs. pose proof (ct_excl _ Hc) as Hx. destruct Hs as [s' Hs|i Hi|i v Hi E|i v Hi E|i Hi|i Hi]; [by eapply step_counted|..]; (eapply moved_counted; [done..|]).
  - apply rw_start_accounted; auto.
  - unfold softlock_cache_r in E. destruct (cache_w_lock (vars s)) eqn:Ew; [done|]. injection E as <-. unfold accounted. cbn. rewrite Ew. split_and!; lia || done.
  - unfold softlock_cache_rw in E. destruct (cache_w_lock (vars s)) eqn:Ew; [done|]. destruct (Z.eqb_spec (cache_r_lock (vars s)) 0) as [Er|]; [|done].
    injection E as <-. unfold accounted. cbn. rewrite Ew. split_and!; lia || done.
  - apply (unlock_r_accounted (vars s)); [by eapply counted_reader|done].
  - pose proof (counted_writer s i Hc Hi) as Hw. unfold accounted, softunlock_cache_rw. cbn. rewrite Hw. split_and!; cbn; lia || done.
Qed.
Lemma init_counted n : counted (init n).
Proof. constructor; cbn; rewrite ?cnt_none; done. Qed.
Lemma reachable_counted n s : reachable step_all n s -> counted s.
Proof. induction 1 as [|s s' _ IH Hs]; [apply init_counted|by eapply step_all_counted]. Qed.
Lemma reachable_normal n s : reachable step n s -> reachable step_all n s.
Proof. induction 1 as [|s s' _ IH Hs]; [constructor|]. eapply reach_step; [done|by constructor]. Qed.

(** ** No wake-up is lost *)
(** A thread that will not give up waiting to write. *)
Definition plain (th : thread) : bool := match th with Asleep RW | Woken RW => true | _ => false end.
Lemma cnt_plain l : cnt (pends true) l = cnt plain l + cnt timed l.
Proof. induction l as [|x l IH]; cbn; [done|]. rewrite IH. destruct x as [| | | |[]|[]]; cbn; lia. Qed.
Record live (s : state) : Prop := {
  lv_timed : cnt timed (threads s) <= 1;
  lv_susp : r_susp (vars s) = true -> 0 < cnt plain (threads s) \/ cache_w_lock (vars s) = true;
  lv_r : 0 < cnt (asleep false) (threads s) -> 0 < cnt plain (threads s) \/ cache_w_lock (vars s) = true;
  lv_go : cache_w_lock (vars s) = false -> cache_r_lock (vars s) = 0 -> 0 < cnt (asleep false) (threads s) + cnt (asleep true) (threads s) ->
    0 < cnt (woken true) (threads s) \/
    0 < cnt (woken false) (threads s) /\ r_susp (vars s) = false /\ rw_pend (vars s) <= SUSP_THRESH (r_pend (vars s));
}.
Lemma thresh_ge n : 0 <= n -> 2 <= SUSP_THRESH n.
Proof. intros H. unfold SUSP_THRESH. pose proof (Z.quot_pos n 2 H ltac:(lia)). lia. Qed.
Lemma thresh_S n : 0 <= n -> SUSP_THRESH n <= SUSP_THRESH (n + 1).
Proof. intros H. unfold SUSP_THRESH. rewrite !Z.quot_div_nonneg by lia. pose proof (Z.div_le_mono n (n + 1) 2 ltac:(lia) ltac:(lia)). lia. Qed.
Lemma moved_cnt P s i th res : at_thread s i th -> cnt P (threads (moved i res s)) = cnt P (threads s) - b2z (P th) + b2z (P (snd res)).
Proof. intros Hi. by apply cnt_insert. Qed.
(** A thread about to run its loop runs it. *)
Lemma r_loop_live s i : counted s -> live s -> at_thread s i (Woken R) -> live (moved i (r_loop (vars s)) s).
Proof.
  intros Hc [L0 L1 L2 L3] Hi. pose proof (cnt_nonneg (asleep true) (threads s)) as A1. pose proof (cnt_nonneg is_reader (threads s)) as A2.
  pose proof (cnt_nonneg (pends false) (threads s)) as A3. pose proof (cnt_nonneg timed (threads s)) as A4.
  pose proof (cnt_split true (threads s)) as A5. pose proof (cnt_plain (threads s)) as A6. pose proof (cnt_nonneg (asleep false) (threads s)) as A7. destruct Hc as [C1 C2 C3 C4 C5].
  pose proof (thresh_ge (r_pend (vars s)) ltac:(lia)) as T. assert (Hcnt := fun P res => moved_cnt P s i (Woken R) res Hi). unfold r_loop, r_blocked.
  set (v := if SUSP_THRESH (r_pend (vars s)) <? rw_pend (vars s) then set_susp true (vars s) else vars s).
  assert (Hv : cache_w_lock v = cache_w_lock (vars s) /\ cache_r_lock v = cache_r_lock (vars s)) by (unfold v; by destruct (_ <? _)).
  destruct Hv as (V1 & V2).
  assert (Hsusp : r_susp v = true -> 0 < cnt plain (threads s) \/ cache_w_lock v = true).
  { rewrite V1. unfold v. destruct (Z.ltb_spec (SUSP_THRESH (r_pend (vars s))) (rw_pend (vars s))); [left; lia|apply L1]. }
  assert (Hno : r_susp v = true -> r_susp (vars s) = false -> SUSP_THRESH (r_pend (vars s)) < rw_pend (vars s)).
  { unfold v. destruct (Z.ltb_spec (SUSP_THRESH (r_pend (vars s))) (rw_pend (vars s))); [done|congruence]. }
  destruct (r_susp v || cache_w_lock v) eqn:Eb.
  - constructor; rewrite ?Hcnt; cbn [vars threads moved fst snd asleep woken plain timed on_rw_cond Bool.eqb b2z]; [lia|rewrite Z.sub_0_r, Z.add_0_r; done| |].
    + intros _. rewrite Z.sub_0_r, Z.add_0_r. apply orb_true_iff in Eb as [Eb|Eb]; [by apply Hsusp|by right].
    + intros Ew Er Hp. rewrite V2 in Er. rewrite Ew, orb_false_r in Eb. left. destruct (Hsusp Eb) as [Hrw|]; [|congruence].
      destruct (decide (cnt (asleep true) (threads s) = 0)); [lia|]. destruct L3 as [?|(_ & E1 & E2)]; [congruence|done|lia|lia|]. specialize (Hno Eb E1). lia.
  - apply orb_false_iff in Eb as [E1 E2]. constructor; rewrite ?Hcnt; cbn [vars threads moved fst snd asleep woken plain timed on_rw_cond Bool.eqb b2z set_r_pend set_r r_susp rw_pend cache_w_lock cache_r_lock r_pend].
    + lia.
    + congruence.
    + intros Hp. rewrite V1, Z.sub_0_r, Z.add_0_r. apply L2. lia.
    + intros _ Hr. rewrite V2 in Hr. lia.
Qed.
Lemma rw_loop_live s i k : counted s -> live s -> at_thread s i (Woken k) -> on_rw_cond k = true -> live (moved i (rw_loop k (vars s)) s).
Proof.
  intros Hc [L0 L1 L2 L3] Hi Hk. assert (Hcnt := fun P res => moved_cnt P s i (Woken k) res Hi). unfold rw_loop. destruct (_ || _) eqn:E.
  - assert (Hsame : forall P, P (Asleep k) = P (Woken k) -> cnt P (threads (moved i (vars s, Asleep k) s)) = cnt P (threads s)) by (intros P HP; rewrite Hcnt; cbn [snd]; rewrite HP; lia).
    constructor; rewrite ?(Hsame plain), ?(Hsame timed) by done; [done|done|rewrite Hcnt; cbn; rewrite Hk; cbn; intros H; apply L2; lia|].
    cbn [vars moved fst]. intros Ew Er. rewrite Ew, Er in E. done.
  - constructor; rewrite ?Hcnt; cbn [vars threads moved fst snd set_rw_pend set_w cache_w_lock]; [|by right|by right|done]. destruct k; cbn; lia.
Qed.
(** A thread that wants the lock. *)
Lemma start_r_live s i : counted s -> live s -> at_thread s i Out -> live (moved i (set_r_pend (r_pend (vars s) + 1) (vars s), Woken R) s).
Proof.
  intros Hc [L0 L1 L2 L3] Hi. assert (Hcnt := fun P res => moved_cnt P s i Out res Hi). pose proof (cnt_nonneg (pends false) (threads s)).
  pose proof (cnt_nonneg (woken false) (threads s)). pose proof (thresh_S (r_pend (vars s)) ltac:(rewrite (ct_r_pend _ Hc); lia)).
  constructor; rewrite ?Hcnt; cbn [vars threads moved fst snd asleep woken plain timed on_rw_cond Bool.eqb b2z set_r_pend r_susp rw_pend cache_w_lock cache_r_lock r_pend];
    rewrite ?Z.sub_0_r, ?Z.add_0_r; [done..|].
  intros Ew Er Hp. destruct L3 as [?|(? & ? & ?)]; [done|done|lia|left; lia|right]. split_and!; [lia|done|lia].
Qed.
Lemma start_rw_live s i th k : live s -> at_thread s i th -> th = Out \/ th = Yielded -> on_rw_cond k = true -> (k = RWTimed -> cnt timed (threads s) = 0) ->
  live (moved i (set_rw_pend (rw_pend (vars s) + 1) (vars s), Woken k) s).
Proof.
  intros [L0 L1 L2 L3] Hi Hth Hk Ht. assert (Hcnt := fun P res => moved_cnt P s i th res Hi). pose proof (cnt_nonneg (woken true) (threads s)).
  assert (Hout : forall P, (P = timed \/ P = plain \/ (exists w, P = asleep w) \/ exists w, P = woken w) -> P th = false).
  { intros P HP. destruct Hth as [->| ->], HP as [->|[->|[[w ->]|[w ->]]]]; done. }
  assert (Hp : cnt plain (threads (moved i (set_rw_pend (rw_pend (vars s) + 1) (vars s), Woken k) s)) >= cnt plain (threads s)).
  { rewrite Hcnt, (Hout plain) by auto. cbn [snd]. destruct k; cbn; lia. }
  constructor; cbn [vars moved fst set_rw_pend r_susp cache_w_lock cache_r_lock].
  - rewrite Hcnt, (Hout timed) by auto. destruct k; [done|cbn; lia|]. rewrite Ht by done. cbn. lia.
  - intros Hx. destruct (L1 Hx); [left; lia|by right].
  - rewrite Hcnt, (Hout (asleep false)) by eauto. cbn [snd asleep b2z]. intros Hx. destruct L2; [lia|left; lia|by right].
  - intros _ _ _. left. rewrite Hcnt, (Hout (woken true)) by eauto. cbn. rewrite Hk. cbn. lia.
Qed.
Lemma woken_at s i v th : (exists x, at_thread s i x) -> at_thread (moved i (v, th) s) i th.
Proof. intros [x Hx]. unfold at_thread, moved. cbn. apply list_lookup_insert_eq. by eapply lookup_lt_Some. Qed.
Lemma moved_twice s i v th res : moved i res (moved i (v, th) s) = moved i res s.
Proof. unfold moved. cbn. by rewrite list_insert_insert_eq. Qed.
Lemma signal_cnt l l' : woken_by SignalRW l l' -> cnt (asleep false) l' = cnt (asleep false) l /\
  (0 < cnt (asleep true) l -> 0 < cnt (woken true) l') /\ (cnt (asleep true) l = 0 -> l' = l).
Proof.
  intros H. inversion H as [|l1 i k Hi Hk|l1 Hno|]; subst.
  - rewrite !(cnt_insert _ l i (Asleep k)) by done. cbn. rewrite Hk. cbn. pose proof (cnt_nonneg (woken true) l). pose proof (cnt_pos (asleep true) l i _ Hi) as Hp.
    cbn in Hp. rewrite Hk in Hp. specialize (Hp eq_refl). split_and!; lia.
  - split; [done|]. split; [|done]. intros (i & x & Hx & Px)%cnt_find. destruct x as [| | | |k|]; try done. cbn in Px. rewrite (Hno i k Hx) in Px. done.
Qed.
Lemma broadcast_cnt l : cnt (asleep false) (map wake_reader l) = 0 /\ cnt (woken false) (map wake_reader l) = cnt (pends false) l.
Proof. induction l as [|x l [IH1 IH2]]; cbn; [done|]. rewrite IH1, IH2. by destruct x as [| | | |[]|[]]. Qed.
(** After the end of the writer [i] the policy wakes the right threads. *)
Lemma unlock_rw_live s i th ths : counted s -> live s -> at_thread s i Writer -> th = Out \/ th = Yielded ->
  woken_by (snd (unlock_cache_rw (vars s))) (<[i := th]> (threads s)) ths -> live (mkState (fst (unlock_cache_rw (vars s))) ths).
Proof.
  intros [C1 C2 C3 C4 C5] [L0 _ _ _] Hi Hth Hw.
  assert (Hcnt : forall P, (P = timed \/ P = plain \/ (exists w, P = asleep w) \/ exists w, P = woken w) -> cnt P (<[i := th]> (threads s)) = cnt P (threads s)).
  { intros P HP. rewrite (cnt_insert _ _ i Writer) by done. destruct Hth as [->| ->], HP as [->|[->|[[w ->]|[w ->]]]]; cbn; lia. }
  pose proof (Hcnt (asleep false) ltac:(eauto)) as F1. pose proof (Hcnt (woken false) ltac:(eauto)) as F2. pose proof (Hcnt (asleep true) ltac:(eauto)) as G1.
  pose proof (Hcnt (woken true) ltac:(eauto)) as G2. pose proof (cnt_split true (threads s)) as S1. pose proof (cnt_split false (threads s)) as S2. pose proof (cnt_plain (threads s)) as S3.
  pose proof (cnt_nonneg (woken false) (threads s)). pose proof (cnt_nonneg (asleep true) (threads s)). pose proof (cnt_nonneg (pends false) (threads s)) as N3.
  pose proof (thresh_ge (r_pend (vars s)) ltac:(lia)) as T.
  assert (Ht : cnt timed ths = cnt timed (threads s)) by (rewrite (woken_cnt timed _ _ _ ltac:(done) Hw); apply Hcnt; auto).
  assert (Hp : cnt plain ths = cnt plain (threads s)) by (rewrite (woken_cnt plain _ _ _ ltac:(done) Hw); apply Hcnt; auto).
  unfold unlock_cache_rw in *. cbn [fst snd r_pend rw_pend set_susp set_w] in Hw.
  destruct ((r_pend (vars s) =? 0) || (SUSP_THRESH (r_pend (vars s)) <? rw_pend (vars s))) eqn:Ep.
  - destruct (signal_cnt _ _ Hw) as (W1 & W2 & W3).
    assert (Hrw : 0 < cnt (asleep false) (threads s) -> 0 < cnt plain (threads s) /\ 0 < rw_pend (vars s)).
    { intros Ha. apply orb_true_iff in Ep as [E%Z.eqb_eq|E%Z.ltb_lt]; lia. }
    constructor; cbn [vars threads fst snd r_susp rw_pend cache_w_lock cache_r_lock r_pend set_susp set_w]; [lia|done|left; rewrite Hp; apply Hrw; lia|].
    intros _ _ Ha. left. destruct (decide (cnt (asleep true) (threads s) = 0)) as [E|]; [|apply W2; lia]. rewrite W3 in * by lia. specialize (Hrw ltac:(lia)). lia.
  - inversion Hw. subst. destruct (broadcast_cnt (<[i := th]> (threads s))) as [B1 B2]. apply orb_false_iff in Ep as [E1%Z.eqb_neq E2%Z.ltb_ge].
    pose proof (cnt_split false (<[i := th]> (threads s))).
    constructor; cbn [vars threads fst snd r_susp rw_pend cache_w_lock cache_r_lock r_pend set_susp set_w]; [lia|done|lia|]. intros _ _ _. right. split_and!; [lia|done|done].
Qed.
Lemma unlock_r_live s i ths : counted s -> live s -> at_thread s i Reader ->
  woken_by (snd (unlock_cache_r (vars s))) (<[i := Out]> (threads s)) ths -> live (mkState (fst (unlock_cache_r (vars s))) ths).
Proof.
  intros Hc [L0 L1 L2 L3] Hi Hw. pose proof (counted_reader s i Hc Hi) as Hr. destruct Hc as [C1 C2 C3 C4 C5].
  assert (Hcnt : forall P, (P = timed \/ P = plain \/ (exists w, P = asleep w) \/ exists w, P = woken w) -> cnt P (<[i := Out]> (threads s)) = cnt P (threads s)).
  { intros P HP. rewrite (cnt_insert _ _ i Reader) by done. destruct HP as [->|[->|[[w ->]|[w ->]]]]; cbn; lia. }
  pose proof (Hcnt (asleep false) ltac:(eauto)) as F1. pose proof (Hcnt (asleep true) ltac:(eauto)) as G1. pose proof (Hcnt (woken true) ltac:(eauto)) as G2.
  pose proof (cnt_split true (threads s)) as S1. pose proof (cnt_plain (threads s)) as S3. pose proof (cnt_nonneg (asleep true) (threads s)). pose proof (cnt_nonneg timed (threads s)).
  assert (Ht : cnt timed ths = cnt timed (threads s)) by (rewrite (woken_cnt timed _ _ _ ltac:(done) Hw); apply Hcnt; auto).
  assert (Hp : cnt plain ths = cnt plain (threads s)) by (rewrite (woken_cnt plain _ _ _ ltac:(done) Hw); apply Hcnt; auto).
  unfold unlock_cache_r in *. rewrite (proj2 (Z.ltb_lt _ _) Hr) in *. cbn [fst snd cache_r_lock set_r] in Hw.
  destruct (Z.eqb_spec (cache_r_lock (vars s) - 1) 0) as [E|E].
  - destruct (signal_cnt _ _ Hw) as (W1 & W2 & W3). constructor; cbn [vars threads fst snd r_susp rw_pend cache_w_lock cache_r_lock r_pend set_r]; rewrite ?Ht, ?Hp; [done|done|intros Ha; apply L2; lia|].
    intros Ew _ Ha. left. destruct (decide (cnt (asleep true) (threads s) = 0)) as [E'|]; [|apply W2; lia]. rewrite W3 in * by lia.
    destruct L2 as [?|?]; [lia|lia|congruence].
  - inversion Hw. subst. constructor; cbn [vars threads fst snd r_susp rw_pend cache_w_lock cache_r_lock r_pend set_r]; rewrite ?Ht, ?Hp; [done|done|intros Ha; apply L2; lia|]. lia.
Qed.
Lemma none_timed s : (forall j th, at_thread s j th -> timed th = false) -> cnt timed (threads s) = 0.
Proof.
  intros H. pose proof (cnt_nonneg timed (threads s)). destruct (decide (cnt timed (threads s) = 0)); [done|]. destruct (cnt_find timed (threads s)) as (j & th & Hj & Ht); [lia|].
  rewrite (H j th Hj) in Ht. done.
Qed.
Lemma rw_start_live s i th k : counted s -> live s -> at_thread s i th -> th = Out \/ th = Yielded -> on_rw_cond k = true -> (k = RWTimed -> cnt timed (threads s) = 0) ->
  live (moved i (rw_loop k (set_rw_pend (rw_pend (vars s) + 1) (vars s))) s).
Proof.
  intros Hc Hl Hi Hth Hk Ht. rewrite <- (moved_twice s i (set_rw_pend (rw_pend (vars s) + 1) (vars s)) (Woken k)). apply (rw_loop_live (moved i (_, Woken k) s)); [| | |done].
  - eapply moved_counted; [done..|]. apply start_rw; [done|apply Hc|done].
  - by eapply start_rw_live.
  - apply woken_at. by eexists.
Qed.
Lemma wake_live s i k : live s -> at_thread s i (Asleep k) -> live (mkState (vars s) (<[i := Woken k]> (threads s))).
Proof.
  intros [L0 L1 L2 L3] Hi. assert (Hcnt := fun P => cnt_insert P _ i _ (Woken k) Hi). pose proof (fun w => cnt_nonneg (woken w) (threads s)) as Hnn.
  assert (Hp : cnt plain (<[i := Woken k]> (threads s)) = cnt plain (threads s)) by (rewrite Hcnt; destruct k; cbn; lia).
  assert (Ht : cnt timed (<[i := Woken k]> (threads s)) = cnt timed (threads s)) by (rewrite Hcnt; destruct k; cbn; lia).
  constructor; cbn [vars threads]; rewrite ?Hp, ?Ht, ?Hcnt; cbn; [done|done|intros Ha; apply L2; destruct (on_rw_cond k); cbn in Ha; lia|].
  intros Ew Er Ha. destruct L3 as [?|(? & ?)]; [done|done|destruct (on_rw_cond k); cbn in Ha; lia|left|right; split; [|done]]; destruct (on_rw_cond k); cbn; lia.
Qed.
Lemma timeout_live s i : live s -> at_thread s i (Asleep RWTimed) -> live (moved i (timedlock_timeout (vars s), Out) s).
Proof.
  intros [L0 L1 L2 L3] Hi. assert (Hcnt := fun P res => moved_cnt P s i (Asleep RWTimed) res Hi).
  constructor; rewrite ?Hcnt; cbn [vars threads moved fst snd asleep woken plain timed on_rw_cond Bool.eqb b2z timedlock_timeout set_rw_pend r_susp rw_pend cache_w_lock cache_r_lock r_pend];
    rewrite ?Z.sub_0_r, ?Z.add_0_r; [lia|done|done|].
  intros Ew Er Ha. destruct L3 as [?|(? & ? & ?)]; [done|done|lia|by left|right]. split_and!; [done|done|lia].
Qed.
Lemma step_live s s' : counted s -> live s -> step s s' -> live s'.
Proof.
  intros Hc Hl Hs. destruct Hs as [i Hi|i Hi|i ths Hi Hw|i ths Hi Hw|i ths Hi _ Hw|i Hi|i k Hi|i k Hi|i Hi Ht|i Hi].
  - rewrite <- (moved_twice s i (set_r_pend (r_pend (vars s) + 1) (vars s)) (Woken R)). apply (r_loop_live (moved i (_, Woken R) s)).
    + eapply moved_counted; [done..|]. apply start_r; [apply Hc|done].
    + by apply start_r_live.
    + apply woken_at. by eexists.
  - by eapply rw_start_live; [..|left| |].
  - by eapply unlock_r_live.
  - by eapply unlock_rw_live; [..|left|].
  - by eapply unlock_rw_live; [..|right|].
  - by eapply rw_start_live; [..|right| |].
  - by apply wake_live.
  - destruct k; [by apply r_loop_live|by apply rw_loop_live..].
  - eapply rw_start_live; [done|done|done|by left|done|]. intros _. by apply none_timed.
  - by apply timeout_live.
Qed.
Lemma init_live n : live (init n).
Proof. constructor; cbn; rewrite ?cnt_none by done; [lia|done|lia|lia]. Qed.
Lemma reachable_live n s : reachable step n s -> live s.
Proof.
  induction 1 as [|s s' Hr IH Hs]; [apply init_live|]. eapply step_live; [|done..]. by eapply reachable_counted, reachable_normal.
Qed.

(** ** Properties *)
Definition holds (th : thread) : bool := is_reader th || is_writer th.
(** One thread writes, and another waits to read. *)
Definition sample : state :=
  let s := init 2 in let s := moved 0 (lock_cache_rw (vars s)) s in moved 1 (lock_cache_r (vars s)) s.
Lemma lock_sample_reachable : reachable step 2 sample.
Proof.
  unfold sample. eapply reach_step; [eapply reach_step; [apply reach_init|]|].
  - apply (step_lock_rw (init 2) 0). reflexivity.
  - apply step_lock_r. reflexivity.
Defined.
Lemma lock_sample_reachable_all : reachable step_all 2 sample.
Proof.
  unfold sample. eapply reach_step; [eapply reach_step; [apply reach_init|]|]; apply step_normal.
  - apply (step_lock_rw (init 2) 0). reflexivity.
  - apply step_lock_r. reflexivity.
Defined.
(** C20: the lock excludes: in every interleaving, time limits and the functions used
    at exit included, a thread that writes is the only one that holds the lock;
    and the counters are the numbers of threads that read, write and wait. *)
Theorem cache_lock_exclusive n s : reachable step_all n s ->
  (forall i j th, at_thread s i Writer -> at_thread s j th -> holds th = true -> j = i) /\ counted s.
Proof.
  intros Hc%reachable_counted. split; [|done]. intros i j th Hi Hj Hh. destruct (decide (j = i)) as [|Hne]; [done|exfalso].
  pose proof (counted_writer s i Hc Hi) as Hw. pose proof (ct_excl _ Hc Hw) as Hr. pose proof (ct_w _ Hc) as C2. rewrite Hw in C2. cbn in C2.
  unfold holds in Hh. destruct th; try done.
  - pose proof (counted_reader s j Hc Hj). lia.
  - pose proof (cnt_two is_writer _ j i _ _ Hne Hj Hi eq_refl eq_refl). lia.
Qed.
Lemma cache_lock_exclusive_witness : (forall i j th, at_thread sample i Writer -> at_thread sample j th -> holds th = true -> j = i) /\ counted sample.
Proof. apply (cache_lock_exclusive 2 sample). apply lock_sample_reachable_all. Defined.

(** C21: no wake-up is lost in programs that use the blocking functions, with at most
    one thread at a time that waits with a time limit, and not the soft functions
    ([step]): whenever threads sleep for the lock, some thread holds it, or one has been
    woken that takes the lock as soon as it runs. (With more threads that wait with a
    time limit this fails: [timed_writers_strand_readers].) *)
Theorem cache_lock_live n s i k : reachable step n s -> at_thread s i (Asleep k) ->
  (exists j th, at_thread s j th /\ holds th = true) \/ (exists j k', at_thread s j (Woken k') /\ holds (snd (loop k' (vars s))) = true).
Proof.
  intros Hr Hi. pose proof (reachable_live n s Hr) as [_ _ _ L3]. pose proof (reachable_counted n s (reachable_normal n s Hr)) as [C1 C2 C3 C4 C5].
  destruct (cache_w_lock (vars s)) eqn:Ew.
  { left. destruct (cnt_find is_writer (threads s)) as (j & th & Hj & Ht); [cbn in C2; lia|]. exists j, th. split; [done|]. unfold holds. by rewrite Ht, orb_true_r. }
  destruct (decide (cache_r_lock (vars s) = 0)) as [Er|Er].
  2:{ left. pose proof (cnt_nonneg is_reader (threads s)). destruct (cnt_find is_reader (threads s)) as (j & th & Hj & Ht); [lia|]. exists j, th. split; [done|]. unfold holds. by rewrite Ht. }
  right. destruct L3 as [Hw|(Hw & Es & Et)]; [done|done| | |].
  { pose proof (cnt_nonneg (asleep true) (threads s)). pose proof (cnt_nonneg (asleep false) (threads s)).
    pose proof (cnt_pos (asleep (on_rw_cond k)) _ _ _ Hi) as Hp. cbn in Hp. rewrite Bool.eqb_reflx in Hp. specialize (Hp eq_refl). destruct (on_rw_cond k); lia. }
  - destruct (cnt_find _ _ Hw) as (j & th & Hj & Ht). destruct th as [| | | | |k']; try done. exists j, k'. split; [done|].
    destruct k'; [done|..]; cbn [loop]; unfold rw_loop; by rewrite Ew, Er.
  - destruct (cnt_find _ _ Hw) as (j & th & Hj & Ht). destruct th as [| | | | |k']; try done. exists j, k'. split; [done|].
    destruct k'; try done. cbn [loop]. unfold r_loop, r_blocked. rewrite (proj2 (Z.ltb_ge _ _) Et), Es, Ew. done.
Qed.
Lemma cache_lock_live_witness :
  (exists j th, at_thread sample j th /\ holds th = true) \/ (exists j k', at_thread sample j (Woken k') /\ holds (snd (loop k' (vars sample))) = true).
Proof. apply (cache_lock_live 2 sample 1 R); [apply lock_sample_reachable|reflexivity]. Defined.

(** ** Threads that give up *)
(** Three threads wait to write with a time limit while one reads. *)
Definition three_wait : state :=
  let s := init 5 in let s := moved 0 (lock_cache_r (vars s)) s in
  let s := moved 1 (timedlock_cache_rw (vars s)) s in let s := moved 2 (timedlock_cache_rw (vars s)) s in let s := moved 3 (timedlock_cache_rw (vars s)) s in
  moved 4 (lock_cache_r (vars s)) s.
Definition three_gave_up : state :=
  let gave_up i s := moved i (timedlock_timeout (vars s), Out) s in gave_up 3%nat (gave_up 2%nat (gave_up 1%nat three_wait)).
Lemma three_wait_reachable : reachable step_all 5 three_wait.
Proof.
  unfold three_wait. repeat (eapply reach_step; [|first [apply step_timedlock_any; reflexivity|apply step_normal; apply step_lock_r; reflexivity]]). apply reach_init.
Qed.
(** If all writers that made the readers wait give up, nobody wakes the readers:
    [timedlock_cache_rw] neither resets [r_susp] nor wakes anyone. The reader
    sleeps although nobody holds or waits for the lock, and goes back to sleep
    whenever it wakes up. *)
Theorem timed_writers_strand_readers : exists s, reachable step_all 5 s /\ at_thread s 4 (Asleep R) /\
  (forall j th, at_thread s j th -> j = 4%nat \/ th = Out) /\ snd (loop R (vars s)) = Asleep R.
Proof.
  exists (mkState (fst (unlock_cache_r (vars three_gave_up))) (<[0%nat := Out]> (threads three_gave_up))). split_and!; try reflexivity.
  - eapply (reach_step _ _ three_gave_up).
    + unfold three_gave_up. repeat (eapply reach_step; [|apply step_normal, step_timeout; reflexivity]). apply three_wait_reachable.
    + apply step_normal. eapply (step_unlock_r _ 0); [reflexivity|]. apply signal_none. intros [|[|[|[|[|j]]]]] k; cbn; intros [= <-]; done.
  - intros [|[|[|[|[|j]]]]] th; cbn; intros [= <-]; auto.
Qed.
End CacheLock.
