(* ===== verification/SocksClient.v ===== *)
(** * misc/bsize.h and socksclient/BSocksClient.c: the SOCKS5 client

    tun2socks opens a SOCKS5 connection for every TCP connection it accepts
    and one for the UDP gateway. [BSocksClient] negotiates: it connects, sends
    a hello, optionally a user name and password, then a CONNECT request, and
    reports that it is up when the reply has been read. From then on the
    stream belongs to the user, so the client must read the negotiation and
    not a byte more. *)
From S2P Require Import Prelude.
Local Open Scope Z_scope.

(** ** Sizes with overflow (misc/bsize.h), [size_t] has 32 bits *)
Module BSize.

Definition SIZE_MAX : Z := 2 ^ 32 - 1.
Definition INT_MAX : Z := 2 ^ 31 - 1.

Record bsize_t := mkSize { is_overflow : bool; value : Z }.

Definition bsize_fromsize (v : Z) : bsize_t := mkSize false v.
Definition bsize_fromint (v : Z) : bsize_t := mkSize ((v <? 0) || (SIZE_MAX <? v)) (u32 v).
Definition bsize_overflow : bsize_t := mkSize true 0.
Definition bsize_tosize (s : bsize_t) : option Z := if is_overflow s then None else Some (value s).
Definition bsize_toint (s : bsize_t) : option Z :=
  if is_overflow s || (INT_MAX <? value s) then None else Some (value s).
Definition bsize_add (s1 s2 : bsize_t) : bsize_t :=
  mkSize (is_overflow s1 || is_overflow s2 || (SIZE_MAX - value s1 <? value s2))
         (u32 (value s1 + value s2)).
Definition bsize_max (s1 s2 : bsize_t) : bsize_t :=
  mkSize (is_overflow s1 || is_overflow s2)
         (u32 (Z.b2z (value s2 <? value s1) * value s1 + Z.b2z (value s1 <=? value s2) * value s2)).
Definition bsize_mul (s1 s2 : bsize_t) : bsize_t :=
  mkSize (is_overflow s1 || is_overflow s2 ||
          (negb (value s1 =? 0) && (SIZE_MAX / value s1 <? value s2)))
         (u32 (value s1 * value s2)).

(** Expressions of sizes, computed with [bsize_t] and with integers. *)
Inductive expr :=
| Size (v : Z)
| Add (a b : expr)
| Max (a b : expr)
| Mul (a b : expr).

Fixpoint compute (e : expr) : bsize_t :=
  match e with
  | Size v => bsize_fromsize v
  | Add a b => bsize_add (compute a) (compute b)
  | Max a b => bsize_max (compute a) (compute b)
  | Mul a b => bsize_mul (compute a) (compute b)
  end.

Fixpoint exact (e : expr) : Z :=
  match e with
  | Size v => v
  | Add a b => exact a + exact b
  | Max a b => Z.max (exact a) (exact b)
  | Mul a b => exact a * exact b
  end.

(** Every part of the expression fits, and the sizes in it are sizes. *)
Fixpoint fits (e : expr) : Prop :=
  0 <= exact e <= SIZE_MAX /\
  match e with
  | Size _ => True
  | Add a b | Max a b | Mul a b => fits a /\ fits b
  end.
Fixpoint sizes (e : expr) : Prop :=
  match e with
  | Size v => 0 <= v <= SIZE_MAX
  | Add a b | Max a b | Mul a b => sizes a /\ sizes b
  end.

Lemma compute_range e : sizes e -> 0 <= value (compute e) <= SIZE_MAX.
Proof.
  destruct e; cbn; [done|..]; intros _; unfold SIZE_MAX;
    match goal with |- context [u32 ?x] => pose proof (u32_range x) end; lia.
Qed.

Lemma mul_fits a b :
  0 <= a <= SIZE_MAX -> 0 <= b <= SIZE_MAX ->
  negb (a =? 0) && (SIZE_MAX / a <? b) = false <-> a * b <= SIZE_MAX.
Proof.
  intros Ha Hb. destruct (Z.eqb_spec a 0) as [->|Hne]; cbn; [unfold SIZE_MAX in *; lia|].
  rewrite Z.ltb_ge. pose proof (Z.mul_div_le SIZE_MAX a ltac:(lia)).
  pose proof (Z.mod_pos_bound SIZE_MAX a ltac:(lia)). pose proof (Z.div_mod SIZE_MAX a ltac:(lia)).
  split; intros Hx; nia.
Qed.

Lemma compute_exact e :
  sizes e ->
  (is_overflow (compute e) = false <-> fits e) /\
  (is_overflow (compute e) = false -> value (compute e) = exact e).
Proof.
  induction e as [v|a IHa b IHb|a IHa b IHb|a IHa b IHb]; cbn [sizes].
  - intros H. cbn. split; [|done]. split; [done|]. done.
  - intros [Ha Hb]. specialize (IHa Ha) as [IHa1 IHa2]. specialize (IHb Hb) as [IHb1 IHb2].
    pose proof (compute_range a Ha). pose proof (compute_range b Hb). cbn.
    rewrite !orb_false_iff, Z.ltb_ge, <- IHa1, <- IHb1. unfold SIZE_MAX in *.
    assert (Hv : is_overflow (compute a) = false -> is_overflow (compute b) = false ->
      value (compute a) = exact a /\ value (compute b) = exact b) by auto.
    split; [naive_solver lia|]. intros [[H1 H2] H3]. rewrite u32_small by lia.
    destruct (Hv H1 H2). lia.
  - intros [Ha Hb]. specialize (IHa Ha) as [IHa1 IHa2]. specialize (IHb Hb) as [IHb1 IHb2].
    pose proof (compute_range a Ha). pose proof (compute_range b Hb). cbn.
    rewrite !orb_false_iff, <- IHa1, <- IHb1. unfold SIZE_MAX in *.
    assert (Hv : is_overflow (compute a) = false -> is_overflow (compute b) = false ->
      value (compute a) = exact a /\ value (compute b) = exact b) by auto.
    split; [naive_solver lia|]. intros [H1 H2]. destruct (Hv H1 H2) as [<- <-].
    destruct (Z.ltb_spec (value (compute b)) (value (compute a))),
      (Z.leb_spec (value (compute a)) (value (compute b))); cbn [Z.b2z]; try lia;
      rewrite u32_small; lia.
  - intros [Ha Hb]. specialize (IHa Ha) as [IHa1 IHa2]. specialize (IHb Hb) as [IHb1 IHb2].
    pose proof (compute_range a Ha). pose proof (compute_range b Hb). cbn [compute bsize_mul is_overflow value fits exact].
    rewrite !orb_false_iff, mul_fits, <- IHa1, <- IHb1 by done.
    assert (Hv : is_overflow (compute a) = false -> is_overflow (compute b) = false ->
      value (compute a) = exact a /\ value (compute b) = exact b) by auto.
    split; [naive_solver nia|]. intros [[H1 H2] H3]. destruct (Hv H1 H2) as [<- <-].
    unfold SIZE_MAX in *. rewrite u32_small; nia.
Qed.

(** Size arithmetic is exact. When the overflow flag is clear the value is
    that of the expression over the integers, and the flag is clear exactly
    when every part of the expression fits into a [size_t]; [bsize_toint] and
    [bsize_tosize] then return that value or refuse it. *)
Theorem bsize_exact e :
  sizes e ->
  (is_overflow (compute e) = false <-> fits e) /\
  (fits e -> bsize_tosize (compute e) = Some (exact e) /\
     bsize_toint (compute e) = if exact e <=? INT_MAX then Some (exact e) else None) /\
  (~ fits e -> bsize_tosize (compute e) = None /\ bsize_toint (compute e) = None).
Proof.
  intros He. destruct (compute_exact e He) as [H1 H2]. split; [done|].
  unfold bsize_tosize, bsize_toint. split.
  - intros Hf%H1. rewrite (H2 Hf), Hf. cbn [orb]. split; [done|].
    destruct (Z.ltb_spec INT_MAX (exact e)), (Z.leb_spec (exact e) INT_MAX); done || lia.
  - intros Hn. destruct (is_overflow (compute e)) eqn:E; [done|]. tauto.
Qed.

Lemma bsize_exact_witness :
  is_overflow (compute (Mul (Size 70000) (Size 70000))) = true /\
  bsize_toint (compute (Add (Size 2) (Mul (Size 3) (Size 1)))) = Some 5.
Proof.
  split; [reflexivity|].
  destruct (bsize_exact (Add (Size 2) (Mul (Size 3) (Size 1))) ltac:(cbn; unfold SIZE_MAX; lia))
    as (_ & H & _).
  destruct H as [_ H]; [cbn; unfold SIZE_MAX; lia|]. exact H.
Defined.

End BSize.

(** ** The client *)
Module BSocksClient.
Import BSize.

(** misc/socks_proto.h *)
Definition SOCKS_VERSION : Z := 5.
Definition SOCKS_METHOD_NO_AUTHENTICATION_REQUIRED : Z := 0.
Definition SOCKS_METHOD_USERNAME_PASSWORD : Z := 2.
Definition SOCKS_CMD_CONNECT : Z := 1.
Definition SOCKS_ATYP_IPV4 : Z := 1.
Definition SOCKS_ATYP_IPV6 : Z := 4.
Definition SOCKS_REP_SUCCEEDED : Z := 0.

(** Sizes of the packed structures of misc/socks_proto.h. *)
Definition sizeof_client_hello_header : Z := 2.
Definition sizeof_client_hello_method : Z := 1.
Definition sizeof_server_hello : Z := 2.
Definition sizeof_request_header : Z := 4.
Definition sizeof_reply_header : Z := 4.
Definition sizeof_addr_ipv4 : Z := 6.
Definition sizeof_addr_ipv6 : Z := 18.

Inductive state_t :=
| STATE_CONNECTING
| STATE_SENDING_HELLO
| STATE_SENT_HELLO
| STATE_SENDING_PASSWORD
| STATE_SENT_PASSWORD
| STATE_SENDING_REQUEST
| STATE_SENT_REQUEST
| STATE_RECEIVED_REPLY_HEADER
| STATE_UP.

#[export] Instance state_t_eq_dec : EqDecision state_t.
Proof. solve_decision. Defined.

(** [struct BSocksClient_auth_info] *)
Record auth_info_t := mkAuth { auth_type : Z; username : list Z; password : list Z }.

Definition BSocksClient_auth_none : auth_info_t :=
  mkAuth SOCKS_METHOD_NO_AUTHENTICATION_REQUIRED [] [].
Definition BSocksClient_auth_password (u p : list Z) : auth_info_t :=
  mkAuth SOCKS_METHOD_USERNAME_PASSWORD u p.

(** Addresses and ports as they lie in memory, in network byte order. *)
Inductive BAddr :=
| BADDR_TYPE_IPV4 (ip port : list Z)
| BADDR_TYPE_IPV6 (ip port : list Z).

(** What is initialised besides the connection: the connector, the two
    interfaces of the connection and the packet stream sender on the second. *)
Record io_t := mkIO {
  connector : bool;
  recv_async : bool;
  send_async : bool;
  send_sender : bool;
}.

Definition NoIO : io_t := mkIO true false false false.
Definition ControlIO : io_t := mkIO true true true true.
Definition UpIO : io_t := mkIO true true true false.
Definition Freed : io_t := mkIO false false false false.

Record BSocksClient := mkClient {
  auth_info : list auth_info_t;
  dest_addr : BAddr;
  state : state_t;
  buffer : option (list Z);
  con : bool;                  (* the BConnection is initialised *)
  io : io_t;
  recv_dest : Z;               (* offset into the buffer *)
  recv_len : Z;
  recv_total : Z;
}.

Inductive event_t :=
| BSOCKSCLIENT_EVENT_ERROR
| BSOCKSCLIENT_EVENT_UP
| BSOCKSCLIENT_EVENT_ERROR_CLOSED.

(** Calls the client makes. *)
Inductive effect :=
| Sender_Send (data : list Z)
| Receiver_Recv (off len : Z)
| Handler (event : event_t).

Definition result : Type := cres (BSocksClient * list effect).

Definition set_state (o : BSocksClient) (s : state_t) : BSocksClient :=
  mkClient (auth_info o) (dest_addr o) s (buffer o) (con o) (io o)
    (recv_dest o) (recv_len o) (recv_total o).
Definition set_buffer (o : BSocksClient) (b : option (list Z)) : BSocksClient :=
  mkClient (auth_info o) (dest_addr o) (state o) b (con o) (io o)
    (recv_dest o) (recv_len o) (recv_total o).
Definition set_io (o : BSocksClient) (c : bool) (i : io_t) : BSocksClient :=
  mkClient (auth_info o) (dest_addr o) (state o) (buffer o) c i
    (recv_dest o) (recv_len o) (recv_total o).
Definition set_recv (o : BSocksClient) (dest len total : Z) : BSocksClient :=
  mkClient (auth_info o) (dest_addr o) (state o) (buffer o) (con o) (io o) dest len total.

Definition report_error (o : BSocksClient) (e : event_t) : result := Ret (o, [Handler e]).

(** The calls that initialise and free a part. Each is allowed only on a part
    that is not, or is, initialised, an interface only on an initialised
    connection, and the connection is freed when nothing uses it. *)
Definition BConnection_RecvAsync_Init (o : BSocksClient) : cres BSocksClient :=
  let i := io o in
  _ ← assert (con o && negb (recv_async i));
  Ret (set_io o (con o) (mkIO (connector i) true (send_async i) (send_sender i))).
Definition BConnection_RecvAsync_Free (o : BSocksClient) : cres BSocksClient :=
  let i := io o in
  _ ← assert (con o && recv_async i);
  Ret (set_io o (con o) (mkIO (connector i) false (send_async i) (send_sender i))).
Definition BConnection_SendAsync_Init (o : BSocksClient) : cres BSocksClient :=
  let i := io o in
  _ ← assert (con o && negb (send_async i));
  Ret (set_io o (con o) (mkIO (connector i) (recv_async i) true (send_sender i))).
Definition BConnection_SendAsync_Free (o : BSocksClient) : cres BSocksClient :=
  let i := io o in
  _ ← assert (con o && send_async i && negb (send_sender i));
  Ret (set_io o (con o) (mkIO (connector i) (recv_async i) false (send_sender i))).
Definition PacketStreamSender_Init (o : BSocksClient) : cres BSocksClient :=
  let i := io o in
  _ ← assert (send_async i && negb (send_sender i));
  Ret (set_io o (con o) (mkIO (connector i) (recv_async i) (send_async i) true)).
Definition PacketStreamSender_Free (o : BSocksClient) : cres BSocksClient :=
  let i := io o in
  _ ← assert (send_sender i);
  Ret (set_io o (con o) (mkIO (connector i) (recv_async i) (send_async i) false)).
Definition BConnection_Free (o : BSocksClient) : cres BSocksClient :=
  _ ← assert (con o && negb (recv_async (io o)) && negb (send_async (io o)));
  Ret (set_io o false (io o)).
Definition BConnector_Free (o : BSocksClient) : cres BSocksClient :=
  let i := io o in
  _ ← assert (connector i);
  Ret (set_io o (con o) (mkIO false (recv_async i) (send_async i) (send_sender i))).

Definition init_control_io (o : BSocksClient) : cres BSocksClient :=
  o ← BConnection_RecvAsync_Init o;
  o ← BConnection_SendAsync_Init o;
  PacketStreamSender_Init o.
Definition free_control_io (o : BSocksClient) : cres BSocksClient :=
  o ← PacketStreamSender_Free o;
  o ← BConnection_SendAsync_Free o;
  BConnection_RecvAsync_Free o.
Definition init_up_io (o : BSocksClient) : cres BSocksClient :=
  o ← BConnection_RecvAsync_Init o;
  BConnection_SendAsync_Init o.
Definition free_up_io (o : BSocksClient) : cres BSocksClient :=
  o ← BConnection_SendAsync_Free o;
  BConnection_RecvAsync_Free o.

(** [alloc n] is the memory block BRealloc returns, of [n] bytes with any
    contents, or a failure. *)
Definition allocator : Type := Z -> option (list Z).

Definition reserve_buffer (alloc : allocator) (o : BSocksClient) (size : bsize_t) :
    option BSocksClient :=
  if is_overflow size then None
  else match alloc (value size) with
       | Some block => Some (set_buffer o (Some block))
       | None => None
       end.

Definition do_receive (o : BSocksClient) : result :=
  _ ← assert (recv_len o <? recv_total o);
  Ret (o, [Receiver_Recv (recv_dest o + recv_len o) (recv_total o - recv_len o)]).

Definition start_receive (o : BSocksClient) (dest total : Z) : result :=
  _ ← assert (0 <? total);
  do_receive (set_recv o dest 0 total).

(** memcpy into the buffer. *)
Definition write (o : BSocksClient) (off : Z) (bs : list Z) : cres BSocksClient :=
  b ← of_option (buffer o);
  b ← of_option (store b off bs);
  Ret (set_buffer o (Some b)).
Definition read (o : BSocksClient) (off n : Z) : cres (list Z) :=
  b ← of_option (buffer o); of_option (load b off n).

(** The sender gets the first [n] bytes of the buffer. *)
Definition send (o : BSocksClient) (n : Z) (s : state_t) : result :=
  bs ← read o 0 n;
  Ret (set_state o s, [Sender_Send bs]).

(** The loop that writes the methods of the hello. *)
Fixpoint write_methods (o : BSocksClient) (off : Z) (ms : list auth_info_t) : cres BSocksClient :=
  match ms with
  | [] => Ret o
  | a :: ms =>
      o ← write o off [u8 (auth_type a)];
      write_methods o (off + sizeof_client_hello_method) ms
  end.

(** [con_ok] is the result of BConnection_Init. *)
Definition connector_handler (alloc : allocator) (con_ok : bool) (o : BSocksClient)
    (is_error : bool) : result :=
  _ ← assert (bool_decide (state o = STATE_CONNECTING));
  if is_error then report_error o BSOCKSCLIENT_EVENT_ERROR
  else if negb con_ok then report_error o BSOCKSCLIENT_EVENT_ERROR
  else
    o ← init_control_io (set_io o true (io o));
    let fail1 o :=
      o ← free_control_io o; o ← BConnection_Free o; report_error o BSOCKSCLIENT_EVENT_ERROR in
    let num_auth_info := zlen (auth_info o) in
    if (num_auth_info =? 0) || (255 <? num_auth_info) then fail1 o
    else
      let size := bsize_add (bsize_fromsize sizeof_client_hello_header)
                    (bsize_mul (bsize_fromsize num_auth_info)
                               (bsize_fromsize sizeof_client_hello_method)) in
      match reserve_buffer alloc o size with
      | None => fail1 o
      | Some o =>
          o ← write o 0 [SOCKS_VERSION; u8 num_auth_info];
          o ← write_methods o sizeof_client_hello_header (auth_info o);
          send o (value size) STATE_SENDING_HELLO
      end.

Definition connection_handler (o : BSocksClient) (recvclosed : bool) : result :=
  _ ← assert (negb (bool_decide (state o = STATE_CONNECTING)));
  if bool_decide (state o = STATE_UP) && recvclosed
  then report_error o BSOCKSCLIENT_EVENT_ERROR_CLOSED
  else report_error o BSOCKSCLIENT_EVENT_ERROR.

Definition auth_finished (alloc : allocator) (o : BSocksClient) : result :=
  let size := bsize_fromsize sizeof_request_header in
  let size := match dest_addr o with
              | BADDR_TYPE_IPV4 _ _ => bsize_add size (bsize_fromsize sizeof_addr_ipv4)
              | BADDR_TYPE_IPV6 _ _ => bsize_add size (bsize_fromsize sizeof_addr_ipv6)
              end in
  match reserve_buffer alloc o size with
  | None => report_error o BSOCKSCLIENT_EVENT_ERROR
  | Some o =>
      '(o, atyp) ← (match dest_addr o with
        | BADDR_TYPE_IPV4 ip port =>
            o ← write o sizeof_request_header (ip ++ port); Ret (o, SOCKS_ATYP_IPV4)
        | BADDR_TYPE_IPV6 ip port =>
            o ← write o sizeof_request_header (ip ++ port); Ret (o, SOCKS_ATYP_IPV6)
        end);
      o ← write o 0 [SOCKS_VERSION; SOCKS_CMD_CONNECT; 0; atyp];
      send o (value size) STATE_SENDING_REQUEST
  end.

(** The branch of [recv_handler_done] for password authentication. *)
Definition send_password (alloc : allocator) (o : BSocksClient) (ai : auth_info_t) : result :=
  let ulen := zlen (username ai) in
  let plen := zlen (password ai) in
  if (ulen =? 0) || (255 <? ulen) || (plen =? 0) || (255 <? plen)
  then report_error o BSOCKSCLIENT_EVENT_ERROR
  else
    let size := bsize_fromsize (1 + 1 + ulen + 1 + plen) in
    match reserve_buffer alloc o size with
    | None => report_error o BSOCKSCLIENT_EVENT_ERROR
    | Some o =>
        o ← write o 0 [1];
        o ← write o 1 [u8 ulen];
        o ← write o 2 (username ai);
        o ← write o (2 + ulen) [u8 plen];
        o ← write o (2 + ulen + 1) (password ai);
        send o (value size) STATE_SENDING_PASSWORD
    end.

Definition received_hello (alloc : allocator) (o : BSocksClient) : result :=
  imsg ← read o 0 sizeof_server_hello;
  ver ← of_option (get imsg 0);
  method ← of_option (get imsg 1);
  if negb (ver =? SOCKS_VERSION) then report_error o BSOCKSCLIENT_EVENT_ERROR
  else match find (fun a => auth_type a =? method) (auth_info o) with
       | None => report_error o BSOCKSCLIENT_EVENT_ERROR
       | Some ai =>
           if auth_type ai =? SOCKS_METHOD_NO_AUTHENTICATION_REQUIRED then auth_finished alloc o
           else if auth_type ai =? SOCKS_METHOD_USERNAME_PASSWORD then send_password alloc o ai
           else Undef
       end.

Definition received_reply_header (o : BSocksClient) : result :=
  imsg ← read o 0 sizeof_reply_header;
  ver ← of_option (get imsg 0);
  rep ← of_option (get imsg 1);
  atyp ← of_option (get imsg 3);
  if negb (ver =? SOCKS_VERSION) then report_error o BSOCKSCLIENT_EVENT_ERROR
  else if negb (rep =? SOCKS_REP_SUCCEEDED) then report_error o BSOCKSCLIENT_EVENT_ERROR
  else if negb ((atyp =? SOCKS_ATYP_IPV4) || (atyp =? SOCKS_ATYP_IPV6))
  then report_error o BSOCKSCLIENT_EVENT_ERROR
  else
    let addr_len := if atyp =? SOCKS_ATYP_IPV4 then sizeof_addr_ipv4 else sizeof_addr_ipv6 in
    '(o, es) ← start_receive o sizeof_reply_header addr_len;
    Ret (set_state o STATE_RECEIVED_REPLY_HEADER, es).

Definition received_password_reply (alloc : allocator) (o : BSocksClient) : result :=
  b0 ← read o 0 1;
  b1 ← read o 1 1;
  if negb (bool_decide (b0 = [1])) then report_error o BSOCKSCLIENT_EVENT_ERROR
  else if negb (bool_decide (b1 = [0])) then report_error o BSOCKSCLIENT_EVENT_ERROR
  else auth_finished alloc o.

(** The receiver has put [data] where [do_receive] asked for it. *)
Definition recv_handler_done (alloc : allocator) (o : BSocksClient) (data : list Z) : result :=
  o ← write o (recv_dest o + recv_len o) data;
  let data_len := zlen data in
  _ ← assert (data_len <=? recv_total o - recv_len o);
  let o := set_recv o (recv_dest o) (recv_len o + data_len) (recv_total o) in
  if recv_len o <? recv_total o then do_receive o
  else
    match state o with
    | STATE_SENT_HELLO => received_hello alloc o
    | STATE_SENT_REQUEST => received_reply_header o
    | STATE_SENT_PASSWORD => received_password_reply alloc o
    | STATE_RECEIVED_REPLY_HEADER =>
        o ← free_control_io (set_buffer o None);
        o ← init_up_io o;
        Ret (set_state o STATE_UP, [Handler BSOCKSCLIENT_EVENT_UP])
    | _ => Undef
    end.

(** The three cases of [send_handler_done] differ in the size of the buffer
    and of the reply. *)
Definition receive_reply (alloc : allocator) (o : BSocksClient) (size : bsize_t) (total : Z)
    (s : state_t) : result :=
  match reserve_buffer alloc o size with
  | None => report_error o BSOCKSCLIENT_EVENT_ERROR
  | Some o =>
      '(o, es) ← start_receive o 0 total;
      Ret (set_state o s, es)
  end.

Definition send_handler_done (alloc : allocator) (o : BSocksClient) : result :=
  _ ← assert (bool_decide (is_Some (buffer o)));
  match state o with
  | STATE_SENDING_HELLO =>
      let size := bsize_fromsize sizeof_server_hello in
      receive_reply alloc o size (value size) STATE_SENT_HELLO
  | STATE_SENDING_REQUEST =>
      let size := bsize_add (bsize_fromsize sizeof_reply_header)
                    (bsize_max (bsize_fromsize sizeof_addr_ipv4) (bsize_fromsize sizeof_addr_ipv6)) in
      receive_reply alloc o size sizeof_reply_header STATE_SENT_REQUEST
  | STATE_SENDING_PASSWORD =>
      let size := bsize_fromsize 2 in
      receive_reply alloc o size (value size) STATE_SENT_PASSWORD
  | _ => Undef
  end.

(** [connector_ok] is the result of BConnector_Init. *)
Definition BSocksClient_Init (connector_ok : bool) (auth : list auth_info_t) (dest : BAddr) :
    option BSocksClient :=
  if connector_ok then Some (mkClient auth dest STATE_CONNECTING None false NoIO 0 0 0) else None.

(** What is left of the object after the free. *)
Definition BSocksClient_Free (o : BSocksClient) : cres BSocksClient :=
  o ← (if negb (bool_decide (state o = STATE_CONNECTING)) then
         o ← (if bool_decide (state o = STATE_UP) then free_up_io o else free_control_io o);
         BConnection_Free o
       else Ret o);
  o ← BConnector_Free o;
  Ret (set_buffer o None).

(** ** The protocol as a function of what the server said *)

Definition hello_msg (auth : list auth_info_t) : list Z :=
  [SOCKS_VERSION; zlen auth] ++ map auth_type auth.
Definition password_msg (a : auth_info_t) : list Z :=
  [1; zlen (username a)] ++ username a ++ [zlen (password a)] ++ password a.
Definition request_msg (d : BAddr) : list Z :=
  match d with
  | BADDR_TYPE_IPV4 ip port => [SOCKS_VERSION; SOCKS_CMD_CONNECT; 0; SOCKS_ATYP_IPV4] ++ ip ++ port
  | BADDR_TYPE_IPV6 ip port => [SOCKS_VERSION; SOCKS_CMD_CONNECT; 0; SOCKS_ATYP_IPV6] ++ ip ++ port
  end.

Inductive status := Waiting | Down | Up.
#[export] Instance status_eq_dec : EqDecision status.
Proof. solve_decision. Defined.

(** The reply to the request: [ver rep rsv atyp] and an address. *)
Definition reply_status (c : list Z) : status :=
  match c with
  | ver :: rep :: rsv :: atyp :: addr =>
      if negb (ver =? 5) || negb (rep =? 0) then Down
      else if atyp =? 1 then (if zlen addr <? 6 then Waiting else Up)
      else if atyp =? 4 then (if zlen addr <? 18 then Waiting else Up)
      else Down
  | _ => Waiting
  end.

Definition password_ok (a : auth_info_t) : bool :=
  (1 <=? zlen (username a)) && (zlen (username a) <=? 255) &&
  (1 <=? zlen (password a)) && (zlen (password a) <=? 255).

(** The messages the client has sent and where it is, once it has read [c]. *)
Definition protocol (auth : list auth_info_t) (d : BAddr) (c : list Z) : list (list Z) * status :=
  let hello := [hello_msg auth] in
  match c with
  | ver :: method :: c =>
      if negb (ver =? 5) then (hello, Down)
      else match find (fun a => auth_type a =? method) auth with
           | None => (hello, Down)
           | Some a =>
               if auth_type a =? 0 then (hello ++ [request_msg d], reply_status c)
               else if negb (password_ok a) then (hello, Down)
               else match c with
                    | v :: s :: c =>
                        if negb (v =? 1) || negb (s =? 0) then (hello ++ [password_msg a], Down)
                        else (hello ++ [password_msg a; request_msg d], reply_status c)
                    | _ => (hello ++ [password_msg a], Waiting)
                    end
           end
  | _ => (hello, Waiting)
  end.

(** ** The client and its environment *)

Record system := mkSystem {
  client : BSocksClient;
  consumed : list Z;            (* what the server sent and the client read *)
  sent : list (list Z);
  wants : option (Z * Z);       (* the receive in progress *)
  sending : bool;               (* a send is in progress *)
  reported : list event_t;
  trouble : bool;               (* an error was reported when something failed *)
}.

Definition run_effect (y : system) (e : effect) : system :=
  match e with
  | Sender_Send bs =>
      mkSystem (client y) (consumed y) (sent y ++ [bs]) (wants y) true (reported y) (trouble y)
  | Receiver_Recv off len =>
      mkSystem (client y) (consumed y) (sent y) (Some (off, len)) (sending y) (reported y)
        (trouble y)
  | Handler ev =>
      mkSystem (client y) (consumed y) (sent y) (wants y) (sending y) (reported y ++ [ev])
        (trouble y)
  end.
Definition run_effects (y : system) (o : BSocksClient) (es : list effect) : system :=
  fold_left run_effect es
    (mkSystem o (consumed y) (sent y) (wants y) (sending y) (reported y) (trouble y)).

(** Memory while a handler runs (it allocates once at most): the blocks BRealloc
    returns, or none. *)
Definition memory : Type := option (Z -> list Z).
Definition allocator_of (mem : memory) : allocator :=
  fun n => match mem with Some f => Some (f n) | None => None end.

Inductive input :=
| Connected (mem : memory) (con_ok is_error : bool)   (* the connector finished *)
| ConnectionEvent (recvclosed : bool)                 (* the connection failed or closed *)
| SendDone (mem : memory)
| RecvDone (mem : memory) (data : list Z).

(** The handler an input calls. *)
Definition handle (o : BSocksClient) (i : input) : result :=
  match i with
  | Connected mem con_ok is_error => connector_handler (allocator_of mem) con_ok o is_error
  | ConnectionEvent recvclosed => connection_handler o recvclosed
  | SendDone mem => send_handler_done (allocator_of mem) o
  | RecvDone mem data => recv_handler_done (allocator_of mem) o data
  end.

(** Whether something fails: the connection or the allocation of memory. *)
Definition failing (i : input) : bool :=
  match i with
  | Connected mem con_ok is_error => is_error || negb con_ok || negb (bool_decide (is_Some mem))
  | ConnectionEvent _ => true
  | SendDone mem | RecvDone mem _ => negb (bool_decide (is_Some mem))
  end.
Definition reports_error (es : list effect) : bool :=
  existsb (fun e => match e with
                    | Handler BSOCKSCLIENT_EVENT_ERROR | Handler BSOCKSCLIENT_EVENT_ERROR_CLOSED => true
                    | _ => false
                    end) es.

(** The environment: the connector answers once, the sender and the receiver
    finish what is in progress, the connection may fail or close at any time
    once it exists, and a client that reported an error is not called again. *)
Definition enabled (y : system) (i : input) : Prop :=
  match i with
  | Connected _ _ _ => reported y = [] /\ state (client y) = STATE_CONNECTING
  | ConnectionEvent _ => (reported y = [] \/ reported y = [BSOCKSCLIENT_EVENT_UP]) /\
      state (client y) <> STATE_CONNECTING
  | SendDone _ => reported y = [] /\ sending y = true
  | RecvDone _ data => reported y = [] /\ exists off len, wants y = Some (off, len) /\
      bytes data /\ 1 <= zlen data <= len
  end.

(** What is in progress when the handler of an input runs. *)
Definition before (y : system) (i : input) : system :=
  match i with
  | Connected _ _ _ | ConnectionEvent _ => y
  | SendDone _ =>
      mkSystem (client y) (consumed y) (sent y) (wants y) false (reported y) (trouble y)
  | RecvDone _ data =>
      mkSystem (client y) (consumed y ++ data) (sent y) None (sending y) (reported y) (trouble y)
  end.

Definition after (y : system) (i : input) (r : BSocksClient * list effect) : system :=
  let y' := run_effects (before y i) r.1 r.2 in
  mkSystem (client y') (consumed y') (sent y') (wants y') (sending y') (reported y')
    (trouble y || failing i && reports_error r.2).

Definition perform (y : system) (i : input) : cres system :=
  r ← handle (client y) i;
  Ret (after y i r).

(** Memory: a block has the size asked for. *)
Definition memory_ok (mem : memory) : Prop :=
  match mem with Some f => forall n, 0 <= n -> zlen (f n) = n | None => True end.
Definition input_memory (i : input) : memory :=
  match i with
  | Connected mem _ _ | SendDone mem | RecvDone mem _ => mem
  | ConnectionEvent _ => None
  end.

Definition start (auth : list auth_info_t) (d : BAddr) : system :=
  mkSystem (mkClient auth d STATE_CONNECTING None false NoIO 0 0 0) [] [] None false [] false.

Inductive reaches (auth : list auth_info_t) (d : BAddr) : system -> Prop :=
| reaches_start : reaches auth d (start auth d)
| reaches_step y i y' :
    reaches auth d y -> enabled y i -> memory_ok (input_memory i) -> perform y i = Ret y' ->
    reaches auth d y'.

Definition status_of (y : system) : status :=
  match reported y with
  | [] => Waiting
  | BSOCKSCLIENT_EVENT_UP :: _ => Up
  | _ => Down
  end.

(** What the user passes: methods of the two kinds and an address of the right
    size, as the assertions of [BSocksClient_Init] and the types have it. *)
Record user_ok (auth : list auth_info_t) (d : BAddr) : Prop := {
  u_types : Forall (fun a => auth_type a = 0 \/ auth_type a = 2) auth;
  u_dest : match d with
           | BADDR_TYPE_IPV4 ip port => length ip = 4%nat /\ length port = 2%nat
           | BADDR_TYPE_IPV6 ip port => length ip = 16%nat /\ length port = 2%nat
           end;
}.

(** A number of methods that a hello can have. *)
Definition num_ok (auth : list auth_info_t) : Prop := 1 <= zlen auth <= 255.

(** ** The interfaces on the connection *)

Lemma init_control_ok o : con o = true -> io o = NoIO ->
  init_control_io o = Ret (set_io o (con o) ControlIO).
Proof. destruct o; cbn. by intros -> ->. Qed.
Lemma free_control_ok o : con o = true -> io o = ControlIO ->
  free_control_io o = Ret (set_io o (con o) NoIO).
Proof. destruct o; cbn. by intros -> ->. Qed.
Lemma init_up_ok o : con o = true -> io o = NoIO -> init_up_io o = Ret (set_io o (con o) UpIO).
Proof. destruct o; cbn. by intros -> ->. Qed.
Lemma free_up_ok o : con o = true -> io o = UpIO -> free_up_io o = Ret (set_io o (con o) NoIO).
Proof. destruct o; cbn. by intros -> ->. Qed.
Lemma connection_free_ok o : con o = true -> io o = NoIO ->
  BConnection_Free o = Ret (set_io o false NoIO).
Proof. destruct o; cbn. by intros -> ->. Qed.

(** ** Writing and sending messages *)

Lemma write_next o front rest bs off :
  buffer o = Some (front ++ rest) -> off = zlen front -> (length bs <= length rest)%nat ->
  write o off bs = Ret (set_buffer o (Some ((front ++ bs) ++ drop (length bs) rest))).
Proof.
  intros Hb -> Hl. unfold write. rewrite Hb. cbn [of_option]. rewrite bind_Ret.
  rewrite store_Some by llia. cbn [of_option]. rewrite bind_Ret. do 3 f_equal.
  rewrite <- (take_drop (length bs) rest) at 1. rewrite splice_mid by llia. by rewrite app_assoc.
Qed.

Lemma send_all o msg s :
  buffer o = Some msg -> send o (zlen msg) s = Ret (set_state o s, [Sender_Send msg]).
Proof.
  intros Hb. unfold send, read. rewrite Hb. cbn [of_option]. rewrite bind_Ret.
  rewrite load_Some by lia. cbn [of_option]. rewrite bind_Ret. do 4 f_equal.
  unfold slice. rewrite Nat2Z.id. apply take_ge. lia.
Qed.

(** Memory that is not short. *)
Definition alloc_ok (alloc : allocator) : Prop :=
  forall n, exists b, alloc n = Some b /\ (0 <= n -> zlen b = n).

Lemma memory_cases mem :
  memory_ok mem -> (alloc_ok (allocator_of mem) /\ bool_decide (is_Some mem) = true) \/ mem = None.
Proof.
  destruct mem as [f|]; [|by right]. intros H. left. split; [|done].
  intros n. exists (f n). split; [done|apply H].
Qed.
Lemma reserve_fails o size : reserve_buffer (allocator_of None) o size = None.
Proof. unfold reserve_buffer. by destruct (is_overflow size). Qed.
Lemma auth_finished_fails o :
  auth_finished (allocator_of None) o = report_error o BSOCKSCLIENT_EVENT_ERROR.
Proof. unfold auth_finished. by rewrite reserve_fails. Qed.
Lemma send_password_fails o a :
  send_password (allocator_of None) o a = report_error o BSOCKSCLIENT_EVENT_ERROR.
Proof. unfold send_password. destruct (_ || _); [done|]. by rewrite reserve_fails. Qed.

(** What is initialised in each state. *)
Definition resources (o : BSocksClient) : Prop :=
  match state o with
  | STATE_CONNECTING => con o = false /\ io o = NoIO
  | STATE_UP => con o = true /\ io o = UpIO
  | _ => con o = true /\ io o = ControlIO
  end.

Section Client.
Context (auth : list auth_info_t) (d : BAddr) (Huser : user_ok auth d).

(** A client in a state of the negotiation. *)
Record base (o : BSocksClient) (s : state_t) : Prop := {
  b_auth : auth_info o = auth;
  b_dest : dest_addr o = d;
  b_state : state o = s;
  b_con : con o = true;
  b_io : io o = ControlIO;
}.

Lemma base_resources o s :
  base o s -> s <> STATE_CONNECTING -> s <> STATE_UP -> resources o.
Proof. intros [_ _ <- Hc Hi] H1 H2. unfold resources. by destruct (state o). Qed.
Lemma base_buffer o s b : base o s -> base (set_buffer o b) s.
Proof. by intros []. Qed.
Lemma base_state o s s' : base o s -> base (set_state o s') s'.
Proof. by intros []. Qed.
Lemma base_recv o s a b c : base o s -> base (set_recv o a b c) s.
Proof. by intros []. Qed.

Definition request_size : Z :=
  match d with BADDR_TYPE_IPV4 _ _ => 10 | BADDR_TYPE_IPV6 _ _ => 22 end.

Lemma request_len : zlen (request_msg d) = request_size.
Proof using Huser.
  pose proof (u_dest _ _ Huser) as H. unfold request_msg, request_size.
  destruct d as [ip port|ip port]; rewrite !length_app; cbn [length]; lia.
Qed.

Lemma auth_finished_ok alloc o s :
  base o s -> alloc_ok alloc ->
  exists o', auth_finished alloc o = Ret (o', [Sender_Send (request_msg d)]) /\
    base o' STATE_SENDING_REQUEST /\ is_Some (buffer o').
Proof using Huser.
  intros Hbase Ha. unfold auth_finished. rewrite (b_dest _ _ Hbase).
  pose proof request_len as Hlen. pose proof (u_dest _ _ Huser) as Hd.
  set (size := match d with BADDR_TYPE_IPV4 _ _ => _ | _ => _ end).
  assert (is_overflow size = false /\ value size = request_size) as [Ho Hv]
    by (unfold size, request_size; by destruct d).
  unfold reserve_buffer. rewrite Ho, Hv. destruct (Ha request_size) as (b & -> & Hb).
  specialize (Hb ltac:(unfold request_size; destruct d; lia)).
  set (o1 := set_buffer o (Some b)).
  assert (Hb1 : buffer o1 = Some (take 4 b ++ drop 4 b)) by (cbn; by rewrite take_drop).
  assert (Hw : forall addr, length addr = length (drop 4 b) ->
    exists o2, write o1 sizeof_request_header addr = Ret o2 /\ base o2 s /\
      buffer o2 = Some (take 4 b ++ addr)).
  { intros addr Hal. unfold sizeof_request_header.
    rewrite (write_next o1 (take 4 b) (drop 4 b) addr 4 Hb1); [| |lia].
    - eexists. split; [reflexivity|]. split; [by do 2 apply base_buffer|].
      cbn. by rewrite drop_ge, app_nil_r by lia.
    - rewrite length_take. unfold request_size in Hb. destruct d; lia. }
  assert (Hfin : forall o2 addr atyp, base o2 s -> buffer o2 = Some (take 4 b ++ addr) ->
    request_msg d = [SOCKS_VERSION; SOCKS_CMD_CONNECT; 0; atyp] ++ addr ->
    exists o', (o3 ← write o2 0 [SOCKS_VERSION; SOCKS_CMD_CONNECT; 0; atyp];
                send o3 request_size STATE_SENDING_REQUEST) =
               Ret (o', [Sender_Send (request_msg d)]) /\
      base o' STATE_SENDING_REQUEST /\ is_Some (buffer o')).
  { intros o2 addr atyp Hb2 Hbuf Hmsg. assert (length (take 4 b) = 4%nat)
      by (rewrite length_take; unfold request_size in Hb; destruct d; lia).
    rewrite (write_next o2 [] (take 4 b ++ addr) _ 0 Hbuf) by (rewrite ?length_app; cbn; lia).
    rewrite bind_Ret. cbn [length app]. rewrite drop_app_length' by lia.
    rewrite <- Hlen, send_all by (cbn; by rewrite Hmsg). eexists. split; [reflexivity|].
    split; [by eapply base_state, base_buffer|]. by eexists. }
  change (dest_addr o1) with (dest_addr o). rewrite (b_dest _ _ Hbase).
  unfold request_size in *. destruct d as [ip port|ip port];
    (destruct (Hw (ip ++ port)) as (o2 & -> & Hb2 & Hbuf); [rewrite length_app, length_drop; lia|]);
    rewrite !bind_Ret; by eapply Hfin.
Qed.

Lemma send_password_ok alloc o s a :
  base o s -> alloc_ok alloc -> password_ok a = true ->
  exists o', send_password alloc o a = Ret (o', [Sender_Send (password_msg a)]) /\
    base o' STATE_SENDING_PASSWORD /\ is_Some (buffer o').
Proof.
  intros Hbase Ha Hok. unfold send_password. unfold password_ok in Hok.
  set (u := username a) in *. set (p := password a) in *.
  replace ((zlen u =? 0) || (255 <? zlen u) || (zlen p =? 0) || (255 <? zlen p)) with false by lia.
  unfold reserve_buffer. cbn [bsize_fromsize is_overflow value].
  set (n := 1 + 1 + zlen u + 1 + zlen p). destruct (Ha n) as (b & -> & Hb).
  specialize (Hb ltac:(lia)). rewrite !u8_small by lia.
  rewrite (write_next _ [] b [1] 0) by first [done | cbn; llia]. rewrite bind_Ret. cbn [app length].
  rewrite (write_next _ [1] (drop 1 b) [zlen u] 1) by first [done | cbn; llia].
  rewrite bind_Ret, drop_drop. cbn [app length Nat.add].
  rewrite (write_next _ [1; zlen u] (drop 2 b) u 2) by first [done | cbn; llia].
  rewrite bind_Ret, drop_drop.
  rewrite (write_next _ ([1; zlen u] ++ u) (drop (2 + length u) b) [zlen p] (2 + zlen u))
    by first [done | cbn; llia].
  rewrite bind_Ret, drop_drop.
  rewrite (write_next _ (([1; zlen u] ++ u) ++ [zlen p]) (drop (2 + length u + 1) b) p (2 + zlen u + 1))
    by first [done | cbn; llia].
  rewrite bind_Ret, drop_drop.
  rewrite (drop_ge b (2 + length u + 1 + length p)), app_nil_r by (unfold n in *; lia). rewrite <- !app_assoc.
  change ([1; zlen u] ++ u ++ [zlen p] ++ p) with (password_msg a).
  replace n with (zlen (password_msg a)) by (unfold password_msg, n; fold u p; llia).
  rewrite send_all by done. eexists. split; [reflexivity|].
  split; [by repeat first [eapply base_state | apply base_buffer]|by eexists].
Qed.
Lemma write_methods_ok ms : forall o s front rest,
  base o s -> buffer o = Some (front ++ rest) -> Forall (fun a => auth_type a = 0 \/ auth_type a = 2) ms ->
  (length ms <= length rest)%nat ->
  exists o', write_methods o (zlen front) ms = Ret o' /\ base o' s /\
    buffer o' = Some ((front ++ map auth_type ms) ++ drop (length ms) rest).
Proof.
  induction ms as [|a ms IH]; intros o s front rest Hbase Hb Hty Hl; cbn [write_methods].
  - exists o. cbn. rewrite app_nil_r, drop_0. done.
  - apply Forall_cons_1 in Hty as [Ha Hty]. rewrite u8_small by lia.
    cbn [length] in Hl. rewrite (write_next o front rest [auth_type a]) by (done || cbn; lia).
    rewrite bind_Ret. unfold sizeof_client_hello_method.
    replace (zlen front + 1) with (zlen (front ++ [auth_type a])) by llia.
    destruct (IH (set_buffer o (Some ((front ++ [auth_type a]) ++ drop (length [auth_type a]) rest)))
      s (front ++ [auth_type a]) (drop 1 rest)) as (o' & -> & Hb' & Hbuf); auto.
    { by apply base_buffer. } { llia. }
    exists o'. split; [done|]. split; [done|]. rewrite Hbuf, drop_drop. cbn [map].
    by rewrite <- !app_assoc.
Qed.

Lemma connector_handler_ok alloc :
  alloc_ok alloc -> num_ok auth ->
  exists o', connector_handler alloc true (mkClient auth d STATE_CONNECTING None false NoIO 0 0 0) false =
      Ret (o', [Sender_Send (hello_msg auth)]) /\
    base o' STATE_SENDING_HELLO /\ is_Some (buffer o').
Proof using Huser.
  intros Ha Hn. unfold num_ok in Hn. unfold connector_handler.
  cbn [state bool_decide]. rewrite bool_decide_eq_true_2 by done. cbn [assert].
  rewrite bind_Ret. cbn [negb]. rewrite init_control_ok by done. rewrite bind_Ret.
  cbv zeta. cbn [negb set_io auth_info con].
  replace ((zlen auth =? 0) || (255 <? zlen auth)) with false by lia.
  set (size := bsize_add _ _).
  assert (is_overflow size = false /\ value size = 2 + zlen auth) as [Ho Hv].
  { assert (E : size = BSize.compute (Add (Size 2) (Mul (Size (zlen auth)) (Size 1)))) by reflexivity.
    pose proof (BSize.compute_exact (Add (Size 2) (Mul (Size (zlen auth)) (Size 1)))) as H.
    rewrite E. cbn [sizes fits exact] in H. unfold SIZE_MAX in H. destruct H as [H1 H2]; [lia|].
    assert (Hf : is_overflow (compute (Add (Size 2) (Mul (Size (zlen auth)) (Size 1)))) = false)
      by (apply H1; lia).
    split; [done|]. rewrite H2 by done. lia. }
  unfold reserve_buffer. rewrite Ho, Hv. destruct (Ha (2 + zlen auth)) as (b & -> & Hb).
  specialize (Hb ltac:(lia)). set (o1 := mkClient auth d STATE_CONNECTING None true ControlIO 0 0 0).
  assert (Hb1 : base (set_buffer o1 (Some b)) STATE_CONNECTING) by by split.
  rewrite (write_next (set_buffer o1 (Some b)) [] b [SOCKS_VERSION; u8 (zlen auth)])
    by (done || cbn; lia).
  rewrite bind_Ret. set (o2 := set_buffer _ _).
  destruct (write_methods_ok auth o2 STATE_CONNECTING [SOCKS_VERSION; u8 (zlen auth)] (drop 2 b))
    as (o3 & E & Hb3 & Hbuf); [done|done|apply Huser|llia|].
  change (auth_info o2) with auth. change sizeof_client_hello_header with (zlen [SOCKS_VERSION; u8 (zlen auth)]).
  rewrite E, bind_Ret. rewrite drop_drop, drop_ge, app_nil_r, u8_small in Hbuf by lia.
  change ([SOCKS_VERSION; zlen auth] ++ map auth_type auth) with (hello_msg auth) in Hbuf.
  replace (2 + zlen auth) with (zlen (hello_msg auth)) by (unfold hello_msg; llia).
  rewrite send_all by done. eexists. split; [reflexivity|].
  split; [by eapply base_state|]. by eexists.
Qed.

Lemma receive_reply_ok alloc o s size n total s' :
  base o s -> alloc_ok alloc -> is_overflow size = false -> value size = n -> 0 < total <= n ->
  exists o' b, receive_reply alloc o size total s' = Ret (o', [Receiver_Recv 0 total]) /\
    base o' s' /\ buffer o' = Some b /\ zlen b = n /\
    recv_dest o' = 0 /\ recv_len o' = 0 /\ recv_total o' = total.
Proof.
  intros Hbase Ha Ho Hv Ht. unfold receive_reply, reserve_buffer. rewrite Ho, Hv.
  destruct (Ha n) as (b & -> & Hb). specialize (Hb ltac:(lia)).
  unfold start_receive, do_receive. destruct (Z.ltb_spec 0 total); [|lia]. cbn [assert].
  rewrite !bind_Ret. cbn [set_recv recv_len recv_total recv_dest].
  destruct (Z.ltb_spec 0 total); [|lia]. cbn [assert]. rewrite !bind_Ret. rewrite Z.sub_0_r.
  eexists _, b. split; [reflexivity|]. split; [by eapply base_state, base_recv, base_buffer|done].
Qed.

(** ** The invariant *)

(** The authentication the server accepted: what it said and what was sent. *)
Inductive greeting : list Z -> list (list Z) -> Prop :=
| greeting_none a :
    find (fun a => auth_type a =? 0) auth = Some a -> greeting [5; 0] [hello_msg auth]
| greeting_password a :
    find (fun a => auth_type a =? 2) auth = Some a -> password_ok a = true ->
    greeting [5; 2; 1; 0] [hello_msg auth; password_msg a].

(** A receive of [total] bytes at [dest] of which [len] have arrived. *)
Definition receiving (o : BSocksClient) (b : list Z) (size dest len total : Z) : Prop :=
  buffer o = Some b /\ zlen b = size /\ recv_dest o = dest /\ recv_len o = len /\
  recv_total o = total /\ 0 <= len < total /\ 0 <= dest /\ dest + total <= size.

Definition addr_size (atyp : Z) : Z := if atyp =? 1 then 6 else 18.

Inductive inv : system -> Prop :=
| inv_connecting : inv (start auth d)
| inv_sending_hello o :
    base o STATE_SENDING_HELLO -> is_Some (buffer o) ->
    inv (mkSystem o [] [hello_msg auth] None true [] false)
| inv_sent_hello o b len :
    base o STATE_SENT_HELLO -> receiving o b 2 0 len 2 ->
    inv (mkSystem o (take (Z.to_nat len) b) [hello_msg auth] (Some (len, 2 - len)) false [] false)
| inv_sending_password o a :
    base o STATE_SENDING_PASSWORD -> is_Some (buffer o) ->
    find (fun a => auth_type a =? 2) auth = Some a -> password_ok a = true ->
    inv (mkSystem o [5; 2] [hello_msg auth; password_msg a] None true [] false)
| inv_sent_password o a b len :
    base o STATE_SENT_PASSWORD -> receiving o b 2 0 len 2 ->
    find (fun a => auth_type a =? 2) auth = Some a -> password_ok a = true ->
    inv (mkSystem o ([5; 2] ++ take (Z.to_nat len) b) [hello_msg auth; password_msg a]
           (Some (len, 2 - len)) false [] false)
| inv_sending_request o g pre :
    base o STATE_SENDING_REQUEST -> is_Some (buffer o) -> greeting g pre ->
    inv (mkSystem o g (pre ++ [request_msg d]) None true [] false)
| inv_sent_request o g pre b len :
    base o STATE_SENT_REQUEST -> receiving o b 22 0 len 4 -> greeting g pre ->
    inv (mkSystem o (g ++ take (Z.to_nat len) b) (pre ++ [request_msg d])
           (Some (len, 4 - len)) false [] false)
| inv_reply_header o g pre b len rsv atyp :
    base o STATE_RECEIVED_REPLY_HEADER -> receiving o b 22 4 len (addr_size atyp) ->
    greeting g pre -> take 4 b = [5; 0; rsv; atyp] -> atyp = 1 \/ atyp = 4 ->
    inv (mkSystem o (g ++ take (Z.to_nat (4 + len)) b) (pre ++ [request_msg d])
           (Some (4 + len, addr_size atyp - len)) false [] false)
| inv_up o g pre rsv atyp addr rep t :
    auth_info o = auth -> dest_addr o = d -> state o = STATE_UP -> con o = true -> io o = UpIO ->
    greeting g pre -> atyp = 1 \/ atyp = 4 -> zlen addr = addr_size atyp ->
    (rep = [] /\ t = false) \/ ((exists e, rep = [e]) /\ t = true) ->
    inv (mkSystem o (g ++ [5; 0; rsv; atyp] ++ addr) (pre ++ [request_msg d])
           None false (BSOCKSCLIENT_EVENT_UP :: rep) t)
| inv_down o s c msgs sending_ t :
    base o s -> s <> STATE_CONNECTING -> s <> STATE_UP -> protocol auth d c = (msgs, Down) ->
    inv (mkSystem o c msgs None sending_ [BSOCKSCLIENT_EVENT_ERROR] t)
| inv_trouble o c msgs w sending_ t :
    resources o -> msgs `prefix_of` fst (protocol auth d c) -> t = true \/ ~ num_ok auth ->
    inv (mkSystem o c msgs w sending_ [BSOCKSCLIENT_EVENT_ERROR] t).

Lemma protocol_greeting g pre c :
  greeting g pre -> protocol auth d (g ++ c) = (pre ++ [request_msg d], reply_status c).
Proof.
  assert (Hfind : forall m a, find (fun a => auth_type a =? m) auth = Some a -> auth_type a = m).
  { intros m a Hf. apply find_some in Hf as [_ Hf]. by apply Z.eqb_eq. }
  destruct 1 as [a Hf|a Hf Hp]; cbn; rewrite Hf, (Hfind _ _ Hf); cbn; [done|]. by rewrite Hp.
Qed.

(** Data arrives where it was asked for. *)
Lemma receive_data o s b size dest len total data :
  base o s -> receiving o b size dest len total -> 1 <= zlen data <= total - len ->
  let b' := splice b (dest + len) data in
  exists o', write o (recv_dest o + recv_len o) data = Ret o' /\
    base o' s /\ buffer o' = Some b' /\ zlen b' = size /\ recv_dest o' = dest /\
    recv_len o' = len /\ recv_total o' = total /\
    take (Z.to_nat (dest + len + zlen data)) b' = take (Z.to_nat (dest + len)) b ++ data.
Proof.
  intros Hbase (Hb & Hsz & Hd & Hl & Ht & Hlen & Hd0 & Hfit) Hdata b'. unfold write.
  rewrite Hb, Hd, Hl. cbn [of_option]. rewrite bind_Ret, store_Some by lia. cbn [of_option].
  rewrite bind_Ret. eexists. split; [reflexivity|]. split; [by apply base_buffer|].
  split; [done|]. split; [unfold b'; rewrite length_splice; lia|].
  split; [done|]. split; [done|]. split; [done|]. unfold b'. apply take_splice; lia.
Qed.

(** A piece that does not complete the receive. *)
Lemma recv_more alloc o s b size dest len total data :
  base o s -> receiving o b size dest len total -> 1 <= zlen data < total - len ->
  exists o' b', recv_handler_done alloc o data =
      Ret (o', [Receiver_Recv (dest + (len + zlen data)) (total - (len + zlen data))]) /\
    base o' s /\ receiving o' b' size dest (len + zlen data) total /\
    take (Z.to_nat (dest + (len + zlen data))) b' = take (Z.to_nat (dest + len)) b ++ data /\
    (forall n, (n <= Z.to_nat (dest + len))%nat -> take n b' = take n b).
Proof.
  intros Hbase Hr Hdata. destruct (receive_data _ _ _ _ _ _ _ data Hbase Hr ltac:(lia))
    as (o' & E & Hb' & Hbuf & Hsz & Hd & Hl & Ht & Htk).
  destruct Hr as (_ & Hsz0 & _ & _ & _ & Hlen & Hd0 & Hfit).
  unfold recv_handler_done. rewrite E, bind_Ret, Hd, Hl, Ht.
  destruct (Z.leb_spec (zlen data) (total - len)); [|lia]. cbn [assert]. rewrite bind_Ret.
  cbn [set_recv recv_len recv_total]. destruct (Z.ltb_spec (len + zlen data) total); [|lia].
  unfold do_receive. cbn [set_recv recv_len recv_total recv_dest].
  destruct (Z.ltb_spec (len + zlen data) total); [|lia]. cbn [assert]. rewrite bind_Ret.
  eexists _, (splice b (dest + len) data). split; [reflexivity|]. split; [by apply base_recv|].
  split; [unfold receiving; cbn [set_recv buffer recv_dest recv_len recv_total];
    repeat split; auto; lia|]. split.
  - rewrite <- Htk. do 2 f_equal. lia.
  - intros n Hn. apply take_splice_before; lia.
Qed.

(** The piece that completes it. *)
Lemma recv_all alloc o s b size dest len total data :
  base o s -> receiving o b size dest len total -> zlen data = total - len ->
  exists o' b', base o' s /\ buffer o' = Some b' /\ zlen b' = size /\
    take (Z.to_nat (dest + total)) b' = take (Z.to_nat (dest + len)) b ++ data /\
    recv_handler_done alloc o data =
    match s with
    | STATE_SENT_HELLO => received_hello alloc o'
    | STATE_SENT_REQUEST => received_reply_header o'
    | STATE_SENT_PASSWORD => received_password_reply alloc o'
    | STATE_RECEIVED_REPLY_HEADER =>
        Ret (set_state (set_io (set_buffer o' None) (con o') UpIO) STATE_UP,
             [Handler BSOCKSCLIENT_EVENT_UP])
    | _ => Undef
    end.
Proof.
  intros Hbase Hr Hdata. assert (Hlen : 0 <= len < total) by apply Hr.
  destruct (receive_data _ _ _ _ _ _ _ data Hbase Hr ltac:(lia))
    as (o' & E & Hb' & Hbuf & Hsz & Hd & Hl & Ht & Htk).
  unfold recv_handler_done. rewrite E, bind_Ret, Hd, Hl, Ht.
  destruct (Z.leb_spec (zlen data) (total - len)); [|lia]. cbn [assert]. rewrite bind_Ret.
  cbn [set_recv recv_len recv_total]. destruct (Z.ltb_spec (len + zlen data) total); [lia|].
  eexists (set_recv o' dest (len + zlen data) total), _.
  split; [by apply base_recv|]. split; [exact Hbuf|]. split; [exact Hsz|]. split.
  - rewrite <- Htk. do 2 f_equal. lia.
  - cbn [state set_recv]. rewrite (b_state _ _ Hb'). destruct s; try done.
    by rewrite free_control_ok, bind_Ret, init_up_ok by first [apply Hb' | reflexivity].
Qed.

Lemma read_front o b n :
  buffer o = Some b -> 0 <= n <= zlen b -> read o 0 n = Ret (take (Z.to_nat n) b).
Proof.
  intros Hb Hn. unfold read. rewrite Hb. cbn [of_option]. rewrite bind_Ret, load_Some by lia. done.
Qed.

(** The system after a handler that only sends, or only reports an error. *)
Lemma effects_send y o bs :
  run_effects y o [Sender_Send bs] =
  mkSystem o (consumed y) (sent y ++ [bs]) (wants y) true (reported y) (trouble y).
Proof. done. Qed.
Lemma effects_recv y o off len :
  run_effects y o [Receiver_Recv off len] =
  mkSystem o (consumed y) (sent y) (Some (off, len)) (sending y) (reported y) (trouble y).
Proof. done. Qed.
Lemma effects_report y o ev :
  run_effects y o [Handler ev] =
  mkSystem o (consumed y) (sent y) (wants y) (sending y) (reported y ++ [ev]) (trouble y).
Proof. done. Qed.

Lemma hello_complete alloc o v m msgs :
  base o STATE_SENT_HELLO -> buffer o = Some [v; m] -> alloc_ok alloc -> msgs = [hello_msg auth] ->
  exists o' e, received_hello alloc o = Ret (o', [e]) /\
    inv (run_effects (mkSystem o [v; m] msgs None false [] false) o' [e]).
Proof using Huser.
  intros Hbase Hb Ha ->. unfold received_hello.
  rewrite (read_front o [v; m] sizeof_server_hello Hb) by (unfold sizeof_server_hello; cbn; lia).
  rewrite bind_Ret. change (take (Z.to_nat sizeof_server_hello) [v; m]) with [v; m].
  change (get [v; m] 0) with (Some v). change (get [v; m] 1) with (Some m).
  cbn [of_option]. rewrite !bind_Ret. unfold SOCKS_VERSION, SOCKS_METHOD_NO_AUTHENTICATION_REQUIRED,
    SOCKS_METHOD_USERNAME_PASSWORD. rewrite (b_auth _ _ Hbase).
  assert (Hdown : forall o' s, base o' s -> s <> STATE_CONNECTING -> s <> STATE_UP ->
    protocol auth d [v; m] = ([hello_msg auth], Down) ->
    exists o1 e, report_error o' BSOCKSCLIENT_EVENT_ERROR = Ret (o1, [e]) /\
    inv (run_effects (mkSystem o [v; m] [hello_msg auth] None false [] false) o1 [e])).
  { intros o' s Hb' H1 H2 H3. eexists _, _. split; [reflexivity|]. rewrite effects_report.
    by eapply inv_down. }
  destruct (Z.eqb_spec v 5) as [->|Hv]; cbn [negb].
  2: { eapply Hdown; [done|done|done|]. cbn. by rewrite (proj2 (Z.eqb_neq v 5) Hv). }
  destruct (find (fun a => auth_type a =? m) auth) as [a|] eqn:Ef.
  2: { eapply Hdown; [done|done|done|]. cbn. by rewrite Ef. }
  pose proof (find_some _ _ Ef) as [Hin Hm%Z.eqb_eq].
  pose proof (u_types _ _ Huser) as Hty. rewrite List.Forall_forall in Hty.
  destruct (Hty a Hin) as [H0|H2]; subst m; rewrite ?H0, ?H2 in *; cbn [Z.eqb].
  - destruct (auth_finished_ok alloc o _ Hbase Ha) as (o' & -> & Hb' & Hbuf).
    eexists _, _. split; [reflexivity|]. rewrite effects_send. cbn.
    apply (inv_sending_request o' [5; 0] [hello_msg auth]); auto. by econstructor.
  - change (2 =? 0) with false. change (2 =? 2) with true. cbv iota.
    destruct (password_ok a) eqn:Hp.
    + destruct (send_password_ok alloc o _ a Hbase Ha Hp) as (o' & -> & Hb' & Hbuf).
      eexists _, _. split; [reflexivity|]. rewrite effects_send. by apply inv_sending_password.
    + unfold send_password. unfold password_ok in Hp.
      replace ((zlen (username a) =? 0) || (255 <? zlen (username a)) ||
        (zlen (password a) =? 0) || (255 <? zlen (password a))) with true.
      2: { symmetry. apply andb_false_iff in Hp. rewrite !andb_false_iff, !Z.leb_gt in Hp.
           rewrite !orb_true_iff, !Z.eqb_eq, !Z.ltb_lt. lia. }
      eapply Hdown; [done|done|done|]. cbn. rewrite Ef, H2. cbn. unfold password_ok. by rewrite Hp.
Qed.

Lemma password_complete alloc o a v s msgs :
  base o STATE_SENT_PASSWORD -> buffer o = Some [v; s] -> alloc_ok alloc ->
  find (fun a => auth_type a =? 2) auth = Some a -> password_ok a = true ->
  msgs = [hello_msg auth; password_msg a] ->
  exists o' e, received_password_reply alloc o = Ret (o', [e]) /\
    inv (run_effects (mkSystem o [5; 2; v; s] msgs None false [] false) o' [e]).
Proof using Huser.
  intros Hbase Hb Ha Ef Hp ->. unfold received_password_reply, read. rewrite Hb.
  cbn [of_option]. rewrite !bind_Ret. change (load [v; s] 0 1) with (Some [v]).
  change (load [v; s] 1 1) with (Some [s]). cbn [of_option]. rewrite !bind_Ret.
  assert (Hdown : protocol auth d [5; 2; v; s] = ([hello_msg auth; password_msg a], Down) ->
    exists o1 e, report_error o BSOCKSCLIENT_EVENT_ERROR = Ret (o1, [e]) /\
    inv (run_effects (mkSystem o [5; 2; v; s] [hello_msg auth; password_msg a] None false [] false) o1 [e])).
  { intros H3. eexists _, _. split; [reflexivity|]. rewrite effects_report. by eapply inv_down. }
  pose proof (find_some _ _ Ef) as [_ Hty%Z.eqb_eq].
  case_bool_decide as Hv; cbn [negb].
  2: { apply Hdown. cbn. rewrite Ef, Hty. cbn. rewrite Hp. cbn.
       destruct (Z.eqb_spec v 1); [congruence|done]. }
  case_bool_decide as Hs; cbn [negb].
  2: { apply Hdown. cbn. rewrite Ef, Hty. cbn. rewrite Hp. cbn.
       destruct (Z.eqb_spec s 0); [congruence|by rewrite orb_true_r]. }
  injection Hv as ->. injection Hs as ->.
  destruct (auth_finished_ok alloc o _ Hbase Ha) as (o' & -> & Hb' & Hbuf).
  eexists _, _. split; [reflexivity|]. rewrite effects_send. cbn.
  apply (inv_sending_request o' [5; 2; 1; 0] [hello_msg auth; password_msg a]); auto.
  by econstructor.
Qed.

Lemma header_complete o g pre b v r rsv atyp :
  base o STATE_SENT_REQUEST -> buffer o = Some b -> zlen b = 22 ->
  take 4 b = [v; r; rsv; atyp] -> greeting g pre ->
  exists o' e, received_reply_header o = Ret (o', [e]) /\
    inv (run_effects (mkSystem o (g ++ [v; r; rsv; atyp]) (pre ++ [request_msg d]) None false [] false)
           o' [e]).
Proof.
  intros Hbase Hb Hsz Ht Hg. unfold received_reply_header.
  rewrite (read_front o b sizeof_reply_header Hb) by (unfold sizeof_reply_header; lia).
  rewrite bind_Ret. change (Z.to_nat sizeof_reply_header) with 4%nat. rewrite Ht.
  change (get [v; r; rsv; atyp] 0) with (Some v). change (get [v; r; rsv; atyp] 1) with (Some r).
  change (get [v; r; rsv; atyp] 3) with (Some atyp). cbn [of_option]. rewrite !bind_Ret.
  assert (Hdown : snd (protocol auth d (g ++ [v; r; rsv; atyp])) = Down ->
    exists o1 e, report_error o BSOCKSCLIENT_EVENT_ERROR = Ret (o1, [e]) /\
    inv (run_effects (mkSystem o (g ++ [v; r; rsv; atyp]) (pre ++ [request_msg d]) None false [] false) o1 [e])).
  { intros H3. eexists _, _. split; [reflexivity|]. rewrite effects_report.
    cbn [consumed sent wants sending reported].
    eapply inv_down; [done|done|done|]. rewrite (protocol_greeting _ _ _ Hg) in H3 |- *.
    cbn [snd] in H3. by rewrite H3. }
  unfold SOCKS_VERSION, SOCKS_REP_SUCCEEDED, SOCKS_ATYP_IPV4, SOCKS_ATYP_IPV6.
  rewrite (protocol_greeting _ _ _ Hg) in Hdown. cbn [snd reply_status] in Hdown.
  destruct (Z.eqb_spec v 5) as [->|Hv]; cbn [negb orb] in *; [|by apply Hdown].
  destruct (Z.eqb_spec r 0) as [->|Hr]; cbn [negb orb] in *; [|by apply Hdown].
  destruct ((atyp =? 1) || (atyp =? 4)) eqn:Eat; cbn [negb].
  2: { apply Hdown. apply orb_false_iff in Eat as [-> ->]. done. }
  assert (Hat : atyp = 1 \/ atyp = 4) by lia.
  assert (Hn : 0 < addr_size atyp <= 18) by (unfold addr_size; destruct (atyp =? 1); lia).
  change (if atyp =? 1 then sizeof_addr_ipv4 else sizeof_addr_ipv6) with (addr_size atyp).
  unfold start_receive, do_receive. destruct (Z.ltb_spec 0 (addr_size atyp)); [|lia].
  cbn [assert]. rewrite bind_Ret. cbn [set_recv recv_len recv_total recv_dest].
  destruct (Z.ltb_spec 0 (addr_size atyp)); [|lia]. cbn [assert]. rewrite !bind_Ret.
  eexists _, _. split; [reflexivity|]. rewrite effects_recv. cbn [consumed sent sending reported].
  rewrite <- Ht. change 4%nat with (Z.to_nat (4 + 0)). unfold sizeof_reply_header.
  eapply (inv_reply_header _ g pre b 0 rsv atyp); auto.
  - by eapply base_state, base_recv.
  - unfold receiving. cbn. repeat split; auto; lia.
Qed.

Lemma hello_fails o v m :
  base o STATE_SENT_HELLO -> buffer o = Some [v; m] ->
  received_hello (allocator_of None) o = report_error o BSOCKSCLIENT_EVENT_ERROR.
Proof using Huser.
  intros Hbase Hb. unfold received_hello.
  rewrite (read_front o [v; m] sizeof_server_hello Hb) by (unfold sizeof_server_hello; cbn; lia).
  rewrite bind_Ret. change (take (Z.to_nat sizeof_server_hello) [v; m]) with [v; m].
  change (get [v; m] 0) with (Some v). change (get [v; m] 1) with (Some m).
  cbn [of_option]. rewrite !bind_Ret, (b_auth _ _ Hbase), auth_finished_fails.
  destruct (negb _); [done|]. destruct (find _ _) as [a|] eqn:Ef; [|done].
  apply find_some in Ef as [Hin _]. pose proof (u_types _ _ Huser) as Hty.
  rewrite List.Forall_forall in Hty. rewrite send_password_fails.
  by destruct (Hty a Hin) as [-> | ->].
Qed.

Lemma password_fails o v s :
  buffer o = Some [v; s] ->
  received_password_reply (allocator_of None) o = report_error o BSOCKSCLIENT_EVENT_ERROR.
Proof.
  intros Hb. unfold received_password_reply, read. rewrite Hb. cbn [of_option]. rewrite !bind_Ret.
  change (load [v; s] 0 1) with (Some [v]). change (load [v; s] 1 1) with (Some [s]).
  cbn [of_option]. rewrite !bind_Ret, auth_finished_fails.
  by repeat destruct (negb _).
Qed.

(** A call of a handler that leaves the system as the invariant has it, or an
    error that is reported because memory was short. *)
Definition handled (r : result) (mem : memory) (y : system) : Prop :=
  exists o' e, r = Ret (o', [e]) /\
    (inv (run_effects y o' [e]) \/
     mem = None /\ resources o' /\ e = Handler BSOCKSCLIENT_EVENT_ERROR).

Lemma handled_fails o s mem y :
  mem = None -> base o s -> s <> STATE_CONNECTING -> s <> STATE_UP ->
  handled (report_error o BSOCKSCLIENT_EVENT_ERROR) mem y.
Proof.
  intros -> Hb H1 H2. eexists _, _. split; [reflexivity|]. right. eauto using base_resources.
Qed.

Lemma handled_inv mem r y :
  (exists o' e, r = Ret (o', [e]) /\ inv (run_effects y o' [e])) -> handled r mem y.
Proof. intros (o' & e & -> & H). exists o', e. auto. Qed.

Lemma send_done_ok y mem :
  inv y -> sending y = true -> reported y = [] -> memory_ok mem ->
  handled (send_handler_done (allocator_of mem) (client y)) mem (before y (SendDone mem)).
Proof.
  intros Hy Hs Hrep Hmem. pose proof (memory_cases mem Hmem) as Ha.
  assert (Hstep : forall o s size n total s' c msgs,
    base o s -> s <> STATE_CONNECTING -> s <> STATE_UP ->
    is_overflow size = false -> value size = n -> 0 < total <= n ->
    (forall o' b, base o' s' -> receiving o' b n 0 0 total ->
       inv (mkSystem o' (c ++ take 0 b) msgs (Some (0, total)) false [] false)) ->
    handled (receive_reply (allocator_of mem) o size total s') mem
      (mkSystem o c msgs None false [] false)).
  { intros o s size n total s' c msgs Hb Hs1 Hs2 Ho Hv Ht Hnext. destruct Ha as [[Ha _]| ->].
    2: { unfold receive_reply. rewrite reserve_fails. by eapply handled_fails. }
    apply handled_inv.
    destruct (receive_reply_ok _ o s size n total s' Hb Ha Ho Hv Ht)
      as (o' & b & -> & Hb' & Hbuf & Hsz & Hd & Hl & Htot).
    eexists _, _. split; [reflexivity|]. rewrite effects_recv.
    cbn [consumed sent sending reported trouble]. rewrite <- (app_nil_r c). rewrite <- (take_0 b).
    apply Hnext; [done|]. repeat split; auto; lia. }
  destruct Hy; cbn [client consumed sent wants sending reported trouble before] in *; try done;
    unfold send_handler_done; rewrite bool_decide_eq_true_2 by done; cbn [assert];
    rewrite bind_Ret, (b_state _ _ H).
  - apply (Hstep o STATE_SENDING_HELLO _ 2 2 STATE_SENT_HELLO [] [hello_msg auth]); auto; [lia|].
    intros o' b Hb' Hr. by apply (inv_sent_hello o' b 0).
  - apply (Hstep o STATE_SENDING_PASSWORD _ 2 2 STATE_SENT_PASSWORD [5; 2]
      [hello_msg auth; password_msg a]); auto; [lia|].
    intros o' b Hb' Hr. by apply (inv_sent_password o' a b 0).
  - apply (Hstep o STATE_SENDING_REQUEST _ 22 4 STATE_SENT_REQUEST g (pre ++ [request_msg d]));
      auto; [lia|].
    intros o' b Hb' Hr. by apply (inv_sent_request o' g pre b 0).
Qed.

(** A buffer of two bytes that were just completed. *)
Lemma two_bytes (b' c : list Z) :
  zlen b' = 2 -> take (Z.to_nat (0 + 2)) b' = c -> exists v m, b' = [v; m] /\ c = [v; m].
Proof.
  intros Hsz <-. destruct b' as [|v [|m [|x b']]]; cbn in Hsz; try lia. by exists v, m.
Qed.

(** A buffer being filled from its start, with a piece that does not fill it. *)
Lemma recv_more_front mem y alloc o s b size l total data :
  base o s -> receiving o b size 0 l total -> 1 <= zlen data < total - l ->
  (forall o' b', base o' s -> receiving o' b' size 0 (l + zlen data) total ->
     take (Z.to_nat (l + zlen data)) b' = take (Z.to_nat l) b ++ data ->
     inv (mkSystem o' (consumed y) (sent y) (Some (l + zlen data, total - (l + zlen data)))
            (sending y) (reported y) (trouble y))) ->
  handled (recv_handler_done alloc o data) mem y.
Proof.
  intros Hb Hr Hd Hnext. apply handled_inv.
  destruct (recv_more alloc _ _ _ _ _ _ _ data Hb Hr Hd)
    as (o' & b' & -> & Hb' & Hr' & Htk & _).
  eexists _, _. split; [reflexivity|]. rewrite effects_recv. by apply (Hnext o' b').
Qed.

Lemma recv_hello_ok mem o b l data :
  base o STATE_SENT_HELLO -> receiving o b 2 0 l 2 -> memory_ok mem -> 1 <= zlen data <= 2 - l ->
  handled (recv_handler_done (allocator_of mem) o data) mem
    (mkSystem o (take (Z.to_nat l) b ++ data) [hello_msg auth] None false [] false).
Proof using Huser.
  intros Hb Hr Hmem Hdata. destruct (decide (zlen data = 2 - l)) as [E|E].
  - destruct (recv_all (allocator_of mem) _ _ _ _ _ _ _ _ Hb Hr E)
      as (o' & b' & Hb' & Hbuf & Hsz & Htk & ->).
    change (0 + l) with l in Htk. destruct (two_bytes _ _ Hsz Htk) as (v & m & -> & ->).
    destruct (memory_cases mem Hmem) as [[Ha _]| ->].
    + apply handled_inv. exact (hello_complete _ o' v m _ Hb' Hbuf Ha eq_refl).
    + rewrite (hello_fails o' v m Hb' Hbuf). by eapply handled_fails.
  - eapply recv_more_front; [exact Hb|exact Hr|lia|]. intros o' b' Hb' Hr' Htk.
    cbn [consumed sent sending reported trouble]. rewrite <- Htk. by apply inv_sent_hello.
Qed.

Lemma recv_password_ok mem o a b l data :
  base o STATE_SENT_PASSWORD -> receiving o b 2 0 l 2 ->
  find (fun a => auth_type a =? 2) auth = Some a -> password_ok a = true ->
  memory_ok mem -> 1 <= zlen data <= 2 - l ->
  handled (recv_handler_done (allocator_of mem) o data) mem
    (mkSystem o (([5; 2] ++ take (Z.to_nat l) b) ++ data)
       [hello_msg auth; password_msg a] None false [] false).
Proof using Huser.
  intros Hb Hr Hf Hp Hmem Hdata. rewrite <- app_assoc.
  destruct (decide (zlen data = 2 - l)) as [E|E].
  - destruct (recv_all (allocator_of mem) _ _ _ _ _ _ _ _ Hb Hr E)
      as (o' & b' & Hb' & Hbuf & Hsz & Htk & ->).
    change (0 + l) with l in Htk. destruct (two_bytes _ _ Hsz Htk) as (v & m & -> & ->).
    destruct (memory_cases mem Hmem) as [[Ha _]| ->].
    + apply handled_inv. exact (password_complete _ o' a v m _ Hb' Hbuf Ha Hf Hp eq_refl).
    + rewrite (password_fails o' v m Hbuf). by eapply handled_fails.
  - eapply recv_more_front; [exact Hb|exact Hr|lia|]. intros o' b' Hb' Hr' Htk.
    cbn [consumed sent sending reported trouble]. rewrite <- Htk. by apply inv_sent_password.
Qed.

Lemma recv_reply_ok mem o g pre b l data :
  base o STATE_SENT_REQUEST -> receiving o b 22 0 l 4 -> greeting g pre -> 1 <= zlen data <= 4 - l ->
  handled (recv_handler_done (allocator_of mem) o data) mem
    (mkSystem o ((g ++ take (Z.to_nat l) b) ++ data) (pre ++ [request_msg d]) None false [] false).
Proof.
  intros Hb Hr Hg Hdata. rewrite <- app_assoc. destruct (decide (zlen data = 4 - l)) as [E|E].
  - destruct (recv_all (allocator_of mem) _ _ _ _ _ _ _ _ Hb Hr E)
      as (o' & b' & Hb' & Hbuf & Hsz & Htk & ->).
    change (0 + l) with l in Htk. change (Z.to_nat (0 + 4)) with 4%nat in Htk. rewrite <- Htk.
    destruct b' as [|v [|r [|rsv [|atyp b']]]]; try (cbn in Hsz; lia). apply handled_inv.
    exact (header_complete o' g pre (v :: r :: rsv :: atyp :: b') v r rsv atyp
      Hb' Hbuf Hsz eq_refl Hg).
  - eapply recv_more_front; [exact Hb|exact Hr|lia|]. intros o' b' Hb' Hr' Htk.
    cbn [consumed sent sending reported trouble]. rewrite <- Htk. by apply inv_sent_request.
Qed.

Lemma recv_address_ok mem o g pre b l rsv atyp data :
  base o STATE_RECEIVED_REPLY_HEADER -> receiving o b 22 4 l (addr_size atyp) -> greeting g pre ->
  take 4 b = [5; 0; rsv; atyp] -> atyp = 1 \/ atyp = 4 -> 1 <= zlen data <= addr_size atyp - l ->
  handled (recv_handler_done (allocator_of mem) o data) mem
    (mkSystem o ((g ++ take (Z.to_nat (4 + l)) b) ++ data) (pre ++ [request_msg d])
       None false [] false).
Proof.
  intros Hb Hr Hg Ht Hat Hdata. rewrite <- app_assoc. apply handled_inv.
  assert (Hl : 0 <= l < addr_size atyp /\ zlen b = 22)
    by (destruct Hr as (_ & ? & _ & _ & _ & ? & _); lia).
  assert (addr_size atyp <= 18) by (unfold addr_size; destruct (atyp =? 1); lia).
  destruct (decide (zlen data = addr_size atyp - l)) as [E|E].
  - destruct (recv_all (allocator_of mem) _ _ _ _ _ _ _ _ Hb Hr E)
      as (o' & b' & Hb' & Hbuf & Hsz & Htk & ->).
    eexists _, _. split; [reflexivity|]. rewrite effects_report.
    cbn [consumed sent sending reported trouble wants app].
    replace (take (Z.to_nat (4 + l)) b ++ data)
      with ([5; 0; rsv; atyp] ++ (drop 4 (take (Z.to_nat (4 + l)) b) ++ data)).
    2: { rewrite <- Ht, app_assoc. f_equal. rewrite <- (take_drop 4 (take (Z.to_nat (4 + l)) b)) at 2.
         f_equal. rewrite take_take. f_equal. lia. }
    destruct Hb'. apply inv_up; cbn [set_state set_io set_buffer auth_info dest_addr state con io]; auto.
    llia.
  - destruct (recv_more (allocator_of mem) _ _ _ _ _ _ _ data Hb Hr ltac:(lia))
      as (o' & b' & -> & Hb' & Hr' & Htk & Hfront).
    eexists _, _. split; [reflexivity|]. rewrite effects_recv.
    cbn [consumed sent sending reported trouble]. rewrite <- Htk.
    eapply inv_reply_header; eauto. by rewrite Hfront by lia.
Qed.

Lemma recv_done_ok y mem data off len :
  inv y -> wants y = Some (off, len) -> reported y = [] -> memory_ok mem -> 1 <= zlen data <= len ->
  handled (recv_handler_done (allocator_of mem) (client y) data) mem (before y (RecvDone mem data)).
Proof using Huser.
  intros Hy Hw Hrep Ha Hdata. destruct Hy; cbn [wants start reported] in Hw, Hrep; try done;
    injection Hw as <- <-; cbn [client consumed sent wants sending reported trouble before].
  - by apply recv_hello_ok.
  - by apply recv_password_ok.
  - by apply recv_reply_ok.
  - by eapply recv_address_ok.
Qed.

(** The connector finished. *)
Lemma socks_connected_ok mem con_ok is_error :
  memory_ok mem ->
  exists o' e, connector_handler (allocator_of mem) con_ok (client (start auth d)) is_error =
      Ret (o', [e]) /\
    (inv (run_effects (start auth d) o' [e]) \/
     (failing (Connected mem con_ok is_error) = true \/ ~ num_ok auth) /\ resources o' /\
     e = Handler BSOCKSCLIENT_EVENT_ERROR).
Proof using Huser.
  intros Hmem. pose proof (memory_cases mem Hmem) as Hc. cbn [client start failing].
  destruct is_error; [eexists _, _; split; [reflexivity|right; split; [by left|by split]]|].
  destruct con_ok; [|eexists _, _; split; [reflexivity|right; split; [by left|by split]]].
  destruct (decide (num_ok auth)) as [Hn|Hn].
  - destruct Hc as [[Ha _]| ->].
    + destruct (connector_handler_ok _ Ha Hn) as (o' & -> & Hb & Hbuf).
      eexists _, _. split; [reflexivity|]. left. rewrite effects_send. by apply inv_sending_hello.
    + unfold connector_handler. cbn -[reserve_buffer allocator_of]. rewrite reserve_fails.
      destruct (_ || _); (eexists _, _; split; [reflexivity|right; split; [by left|by split]]).
  - unfold num_ok in Hn. unfold connector_handler. cbn -[reserve_buffer allocator_of].
    replace ((zlen auth =? 0) || (255 <? zlen auth)) with true by lia.
    eexists _, _; split; [reflexivity|]. right. split; [by right|done].
Qed.
Lemma short_reply c : zlen c < 4 -> reply_status c = Waiting.
Proof. destruct c as [|? [|? [|? [|? ?]]]]; cbn; done || lia. Qed.

Lemma reply_waits rsv atyp addr :
  atyp = 1 \/ atyp = 4 -> zlen addr < addr_size atyp -> reply_status ([5; 0; rsv; atyp] ++ addr) = Waiting.
Proof.
  intros [-> | ->] Hl; cbn -[Z.ltb zlen] in *.
  - by rewrite (proj2 (Z.ltb_lt (zlen addr) 6) Hl).
  - by rewrite (proj2 (Z.ltb_lt (zlen addr) 18) Hl).
Qed.

Lemma reply_header_split b l rsv atyp :
  take 4 b = [5; 0; rsv; atyp] -> 0 <= l ->
  take (Z.to_nat (4 + l)) b = [5; 0; rsv; atyp] ++ take (Z.to_nat l) (drop 4 b).
Proof.
  intros Ht Hl. rewrite <- (take_drop 4 b) at 1. rewrite Ht, take_app.
  rewrite (take_ge [5; 0; rsv; atyp]) by (cbn [length]; lia).
  do 2 f_equal. cbn [length]. lia.
Qed.

(** As long as fewer bytes have come than were asked for, the protocol waits. *)
Lemma wants_waits y off len c :
  inv y -> wants y = Some (off, len) -> reported y = [] -> zlen c < len ->
  protocol auth d (consumed y ++ c) = (sent y, Waiting).
Proof.
  intros Hy Hw Hrep Hc. destruct Hy; cbn [wants start reported] in Hw, Hrep; try done;
    injection Hw as <- <-; cbn [consumed sent].
  - destruct H0 as (_ & Hsz & _ & _ & _ & Hl & _).
    assert (zlen (take (Z.to_nat len0) b ++ c) < 2) by llia.
    destruct (take (Z.to_nat len0) b ++ c) as [|? [|? ?]]; cbn in *; done || lia.
  - destruct H0 as (_ & Hsz & _ & _ & _ & Hl & _). rewrite <- app_assoc.
    assert (zlen (take (Z.to_nat len0) b ++ c) < 2) by llia.
    pose proof (find_some _ _ H1) as [_ Hty%Z.eqb_eq]. cbn. rewrite H1, Hty. cbn. rewrite H2. cbn.
    destruct (take (Z.to_nat len0) b ++ c) as [|? [|? ?]]; cbn in *; done || lia.
  - destruct H0 as (_ & Hsz & _ & _ & _ & Hl & _). rewrite <- app_assoc.
    rewrite (protocol_greeting _ _ _ H1), short_reply by llia. done.
  - destruct H0 as (_ & Hsz & _ & _ & _ & Hl & _). rewrite <- app_assoc.
    rewrite (protocol_greeting _ _ _ H1), (reply_header_split _ _ _ _ H2), <- app_assoc by lia.
    rewrite reply_waits; [done|done|llia].
Qed.

(** A client that has not reported trouble is where the protocol says. *)
Lemma inv_protocol y :
  inv y -> state (client y) <> STATE_CONNECTING ->
  (trouble y = false /\ num_ok auth) \/ status_of y <> Down ->
  protocol auth d (consumed y) = (sent y, status_of y).
Proof.
  intros Hy Hs Hst. destruct (wants y) as [[off len]|] eqn:Ew.
  - assert (Hw : reported y = [] /\ 0 < len).
    { destruct Hy; cbn [wants start] in Ew; try done;
        try (injection Ew as <- <-; split; [done|]; destruct H0 as (_ & _ & _ & _ & _ & Hl & _); lia).
      exfalso. cbn in Hst. destruct Hst as [[-> ?]|?]; naive_solver. }
    destruct Hw as [Hrep Hlen].
    rewrite <- (app_nil_r (consumed y)), (wants_waits y off len []) by done.
    unfold status_of. by rewrite Hrep.
  - destruct Hy; cbn [wants start client state consumed sent] in *; try done.
    + cbn. pose proof (find_some _ _ H1) as [_ Hty%Z.eqb_eq]. rewrite H1, Hty. cbn. by rewrite H2.
    + rewrite <- (app_nil_r g) at 1. by rewrite (protocol_greeting _ _ _ H1).
    + rewrite (protocol_greeting _ _ _ H4). cbn. unfold addr_size in H6.
      destruct H5 as [-> | ->]; cbn -[Z.ltb zlen] in *; by rewrite H6.
    + exfalso. cbn in Hst. destruct Hst as [[-> ?]|?]; naive_solver.
Qed.

(** What more bytes from the server make the client send comes after what it
    has sent. *)
Lemma protocol_grows c data :
  fst (protocol auth d c) `prefix_of` fst (protocol auth d (c ++ data)).
Proof.
  unfold protocol. destruct c as [|v [|m c]]; cbn [app].
  - destruct data as [|v [|m c]]; [done..|]. repeat case_match; by eexists.
  - destruct data as [|m c]; [done|]. repeat case_match; by eexists.
  - destruct (negb (v =? 5)); [done|]. destruct (find _ _) as [a|]; [|done].
    destruct (auth_type a =? 0); [done|]. destruct (negb (password_ok a)); [done|].
    destruct c as [|v' [|s c]]; cbn [app]; [..|by destruct (_ || _)];
      repeat case_match; by eexists.
Qed.

Lemma inv_sent y i : inv y -> sent y `prefix_of` fst (protocol auth d (consumed (before y i))).
Proof.
  intros Hy. transitivity (fst (protocol auth d (consumed y))).
  - destruct (decide (state (client y) = STATE_CONNECTING)) as [Hs|Hs].
    + destruct Hy; cbn [client state start sent consumed] in *; try congruence.
      all: try (destruct H; congruence). by eexists.
    + destruct (decide (status_of y = Down)) as [Hd|Hd].
      * destruct Hy; cbn [status_of reported] in Hd; try done. cbn [consumed sent]. by rewrite H2.
      * rewrite (inv_protocol y Hy Hs); auto.
  - destruct i; cbn [before consumed]; try done. apply protocol_grows.
Qed.

(** Handled inputs keep the invariant. *)
Lemma after_inv y i o e :
  inv y -> reported y = [] -> trouble y = false ->
  inv (run_effects (before y i) o [e]) \/
    (failing i = true \/ ~ num_ok auth) /\ resources o /\ e = Handler BSOCKSCLIENT_EVENT_ERROR ->
  inv (after y i (o, [e])).
Proof.
  intros Hy Hrep Ht [Hinv|([Hf|Hn] & Hr & ->)].
  - assert (Hb : reported (before y i) = [] /\ trouble (before y i) = false) by (by destruct i).
    unfold after. cbn [fst snd]. rewrite Ht. destruct Hb as [Hb1 Hb2]. destruct e as [bs|off len|ev];
      cbn [reports_error existsb orb]; rewrite ?andb_false_r.
    + rewrite effects_send in *. cbn in *. by rewrite <- Hb2.
    + rewrite effects_recv in *. cbn in *. by rewrite <- Hb2.
    + rewrite effects_report in *. cbn in *. rewrite Hb1, Hb2 in *. destruct ev; rewrite ?andb_false_r;
        [|done|]; rewrite ?andb_true_r, ?orb_false_r; [|by inversion Hinv].
      inversion Hinv; [by eapply inv_down|]. apply inv_trouble; naive_solver.
  - unfold after. cbn [fst snd]. rewrite effects_report. cbn. rewrite Hf, Ht.
    assert (reported (before y i) = []) as -> by (by destruct i).
    assert (sent (before y i) = sent y) as -> by (by destruct i).
    apply inv_trouble; auto. by apply inv_sent.
  - unfold after. cbn [fst snd]. rewrite effects_report. cbn.
    assert (reported (before y i) = []) as -> by (by destruct i).
    assert (sent (before y i) = sent y) as -> by (by destruct i).
    apply inv_trouble; auto. by apply inv_sent.
Qed.

Lemma inv_quiet y : inv y -> reported y = [] -> trouble y = false.
Proof. by destruct 1. Qed.

Lemma inv_resources y : inv y -> resources (client y).
Proof.
  destruct 1; cbn [client start]; try (by eapply base_resources; [eassumption|done..]); try done.
  unfold resources. by rewrite H1.
Qed.

(** Every input the environment may give is handled, with one call. *)
Lemma step_ok y i :
  inv y -> enabled y i -> memory_ok (input_memory i) ->
  exists o e, handle (client y) i = Ret (o, [e]) /\ inv (after y i (o, [e])).
Proof using Huser.
  intros Hy Hi Ha.
  destruct i as [mem con_ok is_error|recvclosed|mem|mem data]; cbn [input_memory enabled handle] in *.
  - destruct Hi as [Hrep Hi]. destruct Hy; cbn [client] in Hi;
      try (rewrite (b_state _ _ H) in Hi); try congruence; try (cbn in Hrep; done).
    destruct (socks_connected_ok mem con_ok is_error Ha) as (o & e & -> & Hcase).
    exists o, e. split; [done|]. by apply after_inv; [constructor|..].
  - destruct Hi as [Hrep Hs]. unfold connection_handler.
    rewrite (bool_decide_eq_false_2 _ Hs). cbn [negb assert]. rewrite bind_Ret.
    destruct Hrep as [Hrep|Hrep].
    + destruct (decide (state (client y) = STATE_UP)) as [Hu|Hu].
      { exfalso. destruct Hy; try done; cbn in Hu; destruct H; congruence. }
      rewrite (bool_decide_eq_false_2 _ Hu). cbn [andb]. eexists _, _. split; [reflexivity|].
      apply after_inv; auto using inv_quiet. right. eauto using inv_resources.
    + destruct Hy; cbn in Hrep; try done. injection Hrep as ->. destruct H7 as [[_ ->]|[[? ?] _]]; [|done].
      cbn [client state]. rewrite H1. cbn.
      destruct recvclosed; (eexists _, _; split; [reflexivity|]); unfold after;
        cbn [fst snd before]; rewrite effects_report; cbn; eapply inv_up; eauto.
  - destruct Hi as [Hrep Hs]. destruct (send_done_ok y mem Hy Hs Hrep Ha) as (o & e & -> & Hcase).
    exists o, e. split; [done|]. apply after_inv; auto using inv_quiet.
    destruct Hcase as [?|(-> & ? & ?)]; auto.
  - destruct Hi as (Hrep & off & len & Hw & _ & Hl).
    destruct (recv_done_ok y mem data off len Hy Hw Hrep Ha Hl) as (o & e & -> & Hcase).
    exists o, e. split; [done|]. apply after_inv; auto using inv_quiet.
    destruct Hcase as [?|(-> & ? & ?)]; auto.
Qed.

Lemma reaches_inv y : reaches auth d y -> inv y.
Proof using Huser.
  induction 1 as [|y i y' _ IH Hi Ha E]; [constructor|].
  destruct (step_ok y i IH Hi Ha) as (o & e & E1 & H1). unfold perform in E.
  rewrite E1, bind_Ret in E. by injection E as <-.
Qed.

Lemma inv_progress y : inv y -> status_of y = Waiting ->
  state (client y) = STATE_CONNECTING \/ sending y = true \/
  exists off len, wants y = Some (off, len) /\ 0 < len.
Proof.
  intros Hy Hs. destruct Hy; cbn in *; auto; try done; right; right; eexists _, _; split; try reflexivity;
    destruct H0 as (_ & _ & _ & _ & _ & Hl & _); lia.
Qed.

End Client.

(** ** Theorems *)

(** C7: the client is the client side of SOCKS5, in an environment where the
    connector may fail, the connection may fail or close at any time, and
    memory may be short in any handler. At every moment after the connection is
    made, the messages it has sent and whether it has reported success, an
    error or nothing yet are those the protocol prescribes for exactly the
    bytes it has taken from the server, however these were cut into pieces,
    unless it reported an error when something failed ([trouble]); even then it
    has sent nothing but what the protocol prescribes. Every call the
    environment may make is handled without an out-of-range access and without
    a failed assertion. A client that has reported nothing is connecting,
    sending or receiving; and it never asks for bytes beyond the reply it is
    in, so whatever follows the last reply is left for the user of the
    connection. *)
Theorem socks_client_protocol auth d y :
  user_ok auth d -> num_ok auth -> reaches auth d y ->
  (state (client y) <> STATE_CONNECTING -> trouble y = false \/ status_of y <> Down ->
     protocol auth d (consumed y) = (sent y, status_of y)) /\
  sent y `prefix_of` fst (protocol auth d (consumed y)) /\
  (forall i, enabled y i -> memory_ok (input_memory i) -> exists y', perform y i = Ret y') /\
  (status_of y = Waiting ->
     state (client y) = STATE_CONNECTING \/ sending y = true \/
     exists off len, wants y = Some (off, len) /\ 0 < len) /\
  (forall off len c, reported y = [] -> wants y = Some (off, len) -> zlen c < len ->
     snd (protocol auth d (consumed y ++ c)) = Waiting).
Proof.
  intros Hu Hn Hy%(reaches_inv _ _ Hu). split.
  { intros Hs Ht. apply inv_protocol; [done|done|]. destruct Ht; auto. }
  split; [exact (inv_sent auth d y (ConnectionEvent true) Hy)|]. split.
  { intros i Hi Ha. destruct (step_ok auth d Hu y i Hy Hi Ha) as (o & e & E & _).
    unfold perform. rewrite E, bind_Ret. eauto. }
  split; [by eapply inv_progress|].
  intros off len c Hr Hw Hc. by rewrite (wants_waits auth d y off len c Hy Hw Hr Hc).
Qed.

(** A session: the server picks the password method, accepts the password and
    connects, its replies arriving in pieces; in the end it closes. *)
Definition session_auth : list auth_info_t :=
  [BSocksClient_auth_none; BSocksClient_auth_password [117; 115] [112; 119; 100]].
Definition session_dest : BAddr := BADDR_TYPE_IPV4 [10; 0; 0; 1] [0; 80].
Definition zeroed : memory := Some (fun n => replicate (Z.to_nat n) 0).
Definition session : list input :=
  [Connected zeroed true false; SendDone zeroed; RecvDone zeroed [5]; RecvDone zeroed [2];
   SendDone zeroed; RecvDone zeroed [1; 0]; SendDone zeroed;
   RecvDone zeroed [5; 0; 0]; RecvDone zeroed [1];
   RecvDone zeroed [127; 0; 0]; RecvDone zeroed [1; 4; 56]; ConnectionEvent true].
(** One in which memory is short when the hello has been answered. *)
Definition short_session : list input :=
  [Connected zeroed true false; SendDone zeroed; RecvDone None [5; 0]].
Fixpoint play (y : system) (ins : list input) : cres system :=
  match ins with [] => Ret y | i :: ins => y ← perform y i; play y ins end.

Lemma zeroed_ok : memory_ok zeroed.
Proof. intros n Hn. rewrite length_replicate. lia. Qed.

(** The decision that an input is enabled, and a run that checks it. *)
Definition enabledb (y : system) (i : input) : bool :=
  match i with
  | Connected _ _ _ => match reported y with [] => true | _ => false end &&
      bool_decide (state (client y) = STATE_CONNECTING)
  | ConnectionEvent _ => match reported y with [] | [BSOCKSCLIENT_EVENT_UP] => true | _ => false end &&
      negb (bool_decide (state (client y) = STATE_CONNECTING))
  | SendDone _ => match reported y with [] => true | _ => false end && sending y
  | RecvDone _ data => match reported y with [] => true | _ => false end &&
      match wants y with
      | Some (_, len) => forallb (fun b => (0 <=? b) && (b <? 256)) data &&
                         (1 <=? zlen data) && (zlen data <=? len)
      | None => false
      end
  end.
Lemma enabledb_ok y i : enabledb y i = true -> enabled y i.
Proof.
  unfold enabledb, enabled. intros H.
  destruct i as [mem ok err|rc|mem|mem data]; apply andb_true_iff in H as [Hr H].
  - split; [by destruct (reported y)|]. by apply bool_decide_eq_true in H.
  - split; [destruct (reported y) as [|[] []]; auto; done|].
    by apply negb_true_iff, bool_decide_eq_false in H.
  - split; [by destruct (reported y)|done].
  - split; [by destruct (reported y)|].
    destruct (wants y) as [[off len]|]; [|done]. rewrite !andb_true_iff in H.
    destruct H as [[H H1] H2]. exists off, len. split; [done|]. split; [|lia].
    apply Forall_forall. intros x Hx. rewrite forallb_forall in H.
    specialize (H x Hx). unfold is_byte. lia.
Qed.

Fixpoint checked (y : system) (ins : list input) : bool :=
  match ins with
  | [] => true
  | i :: ins => enabledb y i && match perform y i with Ret y => checked y ins | _ => false end
  end.
Lemma play_reaches auth d ins : forall y,
  reaches auth d y -> Forall (fun i => memory_ok (input_memory i)) ins -> checked y ins = true ->
  exists y', play y ins = Ret y' /\ reaches auth d y'.
Proof.
  induction ins as [|i ins IH]; intros y Hy Ha He; cbn in *; [eauto|].
  apply Forall_cons_1 in Ha as [Ha Has]. apply andb_true_iff in He as [Hi He].
  destruct (perform y i) as [y1| |] eqn:E; [|done|done].
  rewrite bind_Ret. apply IH; [|done|done]. eapply reaches_step; eauto. by apply enabledb_ok.
Qed.

Lemma session_reaches ins :
  Forall (fun i => input_memory i = zeroed \/ input_memory i = None) ins ->
  checked (start session_auth session_dest) ins = true ->
  exists y, play (start session_auth session_dest) ins = Ret y /\
    reaches session_auth session_dest y.
Proof.
  intros Hm. apply play_reaches; [constructor|].
  eapply List.Forall_impl; [|exact Hm]. intros i [-> | ->]; [exact zeroed_ok|done].
Qed.

Lemma session_user_ok : user_ok session_auth session_dest.
Proof.
  split; [|split; reflexivity].
  unfold session_auth. apply List.Forall_cons; [by left|]. apply List.Forall_cons; [by right|].
  apply List.Forall_nil.
Qed.

Lemma socks_client_protocol_witness :
  exists y, play (start session_auth session_dest) session = Ret y /\
    reported y = [BSOCKSCLIENT_EVENT_UP; BSOCKSCLIENT_EVENT_ERROR_CLOSED] /\
    protocol session_auth session_dest (consumed y) = (sent y, Up) /\
    sent y = [[5; 2; 0; 2]; [1; 2; 117; 115; 3; 112; 119; 100]; [5; 1; 0; 1; 10; 0; 0; 1; 0; 80]].
Proof.
  destruct (session_reaches session) as (y & E & Hy);
    [unfold session; repeat apply List.Forall_cons; try apply List.Forall_nil; auto|vm_compute; reflexivity|].
  destruct (socks_client_protocol session_auth session_dest y session_user_ok
    ltac:(unfold num_ok, session_auth; cbn [length]; lia) Hy) as (H & _).
  exists y. split; [exact E|]. vm_compute in E. injection E as <-.
  split; [reflexivity|]. split; [apply H; [done|by right]|reflexivity].
Defined.

(** ** Resources *)

Lemma free_ok o : resources o ->
  exists o', BSocksClient_Free o = Ret o' /\ con o' = false /\ io o' = Freed /\ buffer o' = None.
Proof.
  unfold resources, BSocksClient_Free. intros Ho.
  destruct (decide (state o = STATE_CONNECTING)) as [Es|Es].
  { rewrite Es in Ho. rewrite bool_decide_eq_true_2 by done. destruct Ho as [Hc Hi].
    cbn [negb]. rewrite bind_Ret. unfold BConnector_Free. rewrite Hi. cbn.
    eexists. split; [reflexivity|]. by cbn. }
  rewrite bool_decide_eq_false_2 by done. cbn [negb].
  destruct (decide (state o = STATE_UP)) as [Eu|Eu].
  - rewrite Eu in Ho. rewrite bool_decide_eq_true_2 by done. destruct Ho as [Hc Hi].
    rewrite free_up_ok, bind_Ret, connection_free_ok, bind_Ret by done.
    eexists. by split; [reflexivity|].
  - assert (con o = true /\ io o = ControlIO) as [Hc Hi] by (by destruct (state o)).
    rewrite bool_decide_eq_false_2 by done.
    rewrite free_control_ok, bind_Ret, connection_free_ok, bind_Ret by done.
    eexists. by split; [reflexivity|].
Qed.

(** C8: resources. In every state a client reaches, with a connector that may
    fail, a connection that may fail or close at any time, memory that may be
    short in any handler and any number of methods: exactly the parts that
    belong to its state are initialised (the connector; the connection; its two
    interfaces; the packet stream sender). The handler of whatever may happen
    next succeeds, and makes exactly one call: it sends, receives, or reports
    one event, on every error path too. And [BSocksClient_Free] can be called:
    it frees every part and the buffer. Initialising a part twice, freeing one
    that is not initialised, or freeing the connection under its interfaces is
    a failed assertion in the model, so that no part is freed twice or
    forgotten. *)
Theorem socks_client_resources auth d y :
  user_ok auth d -> reaches auth d y ->
  resources (client y) /\
  (exists o', BSocksClient_Free (client y) = Ret o' /\
     con o' = false /\ io o' = Freed /\ buffer o' = None) /\
  (forall i, enabled y i -> memory_ok (input_memory i) ->
     exists o' e, handle (client y) i = Ret (o', [e]) /\ resources o').
Proof.
  intros Hu Hy%(reaches_inv _ _ Hu). pose proof (inv_resources _ _ _ Hy) as Hr.
  split; [done|]. split; [by apply free_ok|]. intros i Hi Ha.
  destruct (step_ok auth d Hu y i Hy Hi Ha) as (o & e & -> & Ho). exists o, e. split; [done|].
  apply inv_resources in Ho. by destruct e.
Qed.

(** Memory runs out when the request is to be sent. *)
Lemma socks_client_resources_witness :
  exists y, play (start session_auth session_dest) short_session = Ret y /\
    reported y = [BSOCKSCLIENT_EVENT_ERROR] /\ state (client y) = STATE_SENT_HELLO /\
    exists o', BSocksClient_Free (client y) = Ret o' /\
      con o' = false /\ io o' = Freed /\ buffer o' = None.
Proof.
  destruct (session_reaches short_session) as (y & E & Hy);
    [unfold short_session; repeat apply List.Forall_cons; try apply List.Forall_nil; auto|vm_compute; reflexivity|].
  destruct (socks_client_resources session_auth session_dest y session_user_ok Hy) as (_ & H & _).
  exists y. split; [exact E|]. vm_compute in E. injection E as <-. auto.
Defined.

End BSocksClient.
