(* ===== verification/DevicePackets.v ===== *)
(** * misc/byteorder.h, read_write_int.h, ipv4_proto.h, ipv6_proto.h,
      udp_proto.h and the UDP paths of tun2socks/tun2socks.c

    tun2socks reads IP packets from the TUN device. Before a packet goes to the
    TCP/IP stack, [device_read_handler_send] tries two things with it. With a
    DNS gateway configured, [process_device_dns_packet] translates the
    addresses of queries to port 53 and of the gateway's answers and writes the
    packet back to the device. With a UDP gateway configured,
    [process_device_udp_packet] hands the payload of a UDP packet to the
    gateway client; what comes back is made a packet again by
    [udpgw_client_handler_received].

    - Module [ByteOrder]: byte order and integers in memory.
    - Module [Checksum]: the Internet checksum, as the code computes it and as
      RFC 1071 defines it.
    - Module [IpUdp]: headers, their checks and checksums.
    - Module [Device]: the packet paths and the table of DNS queries.

    A C structure in memory is the list of its bytes; an integer field holds
    the value the little-endian machine reads. *)
From stdpp Require Import gmap.
From S2P Require Import Prelude.
Local Open Scope Z_scope.

(** ** Byte order *)
Module ByteOrder.

Definition badvpn_reverse16 (x : Z) : Z := le_val (rev (le_bytes 2 x)).
Definition badvpn_reverse32 (x : Z) : Z := le_val (rev (le_bytes 4 x)).

(** The 32-bit targets are little-endian. *)
Definition hton8 (x : Z) : Z := x.
Definition hton16 (x : Z) : Z := badvpn_reverse16 (u16 x).
Definition hton32 (x : Z) : Z := badvpn_reverse32 (u32 x).
Definition ntoh8 (x : Z) : Z := hton8 x.
Definition ntoh16 (x : Z) : Z := hton16 x.

(** [badvpn_read_be16(ptr + off)] *)
Definition badvpn_read_be16 (m : list Z) (off : Z) : cres Z :=
  a ← of_option (get m off);
  b ← of_option (get m (off + 1));
  Ret (Z.lor (Z.shiftl a 8) (Z.shiftl b 0)).

Lemma hton16_bytes x : le_bytes 2 (hton16 x) = be_bytes 2 (u16 x).
Proof.
  unfold hton16, badvpn_reverse16.
  change 2%nat with (length (rev (le_bytes 2 (u16 x)))) at 1.
  apply le_bytes_val. eauto with byte_db.
Qed.
Lemma hton32_bytes x : le_bytes 4 (hton32 x) = be_bytes 4 (u32 x).
Proof.
  unfold hton32, badvpn_reverse32.
  change 4%nat with (length (rev (le_bytes 4 (u32 x)))) at 1.
  apply le_bytes_val. eauto with byte_db.
Qed.
Lemma hton16_range x : 0 <= hton16 x < 2 ^ 16.
Proof.
  unfold hton16, badvpn_reverse16.
  pose proof (le_val_range (rev (le_bytes 2 (u16 x))) ltac:(eauto with byte_db)) as H.
  rewrite length_rev, length_le_bytes in H. change (256 ^ Z.of_nat 2) with (2 ^ 16) in H. lia.
Qed.
(** [ntoh16] reads in network order what memory holds. *)
Lemma ntoh16_val a b : is_byte a -> is_byte b -> ntoh16 (le_val [a; b]) = 256 * a + b.
Proof.
  unfold is_byte. intros Ha Hb. unfold ntoh16, hton16, badvpn_reverse16. cbn [le_val].
  rewrite u16_small by lia. cbn [le_bytes rev app le_val].
  rewrite (Z.mod_small (_ / 256)) by (split; [apply Z.div_pos|apply Z.div_lt_upper_bound]; lia).
  replace (a + 256 * (b + 256 * 0)) with (a + b * 256) by lia.
  rewrite Z.div_add, Z.mod_add, Z.div_small, Z.mod_small by lia. lia.
Qed.
Lemma hton16_val x : 0 <= x < 2 ^ 16 -> ntoh16 (hton16 x) = x.
Proof.
  intros Hx. unfold hton16, badvpn_reverse16. rewrite u16_small by lia. cbn [le_bytes rev app].
  rewrite ntoh16_val by (split; (apply Z.mod_pos_bound || apply Z.mod_pos_bound); lia).
  rewrite (Z.mod_small (x / 256)) by (split; [apply Z.div_pos|apply Z.div_lt_upper_bound]; lia).
  pose proof (Z.div_mod x 256). lia.
Qed.

Lemma hton16_pair a b : is_byte a -> is_byte b -> hton16 (256 * a + b) = le_val [a; b].
Proof.
  unfold is_byte. intros Ha Hb. unfold hton16, badvpn_reverse16. rewrite u16_small by lia.
  cbn [le_bytes rev app]. replace (256 * a + b) with (b + a * 256) by lia.
  by rewrite Z.div_add, Z.mod_add, Z.div_small, !Z.mod_small by lia.
Qed.

Lemma read_be16_val m off a b :
  get m off = Some a -> get m (off + 1) = Some b -> is_byte a -> is_byte b ->
  badvpn_read_be16 m off = Ret (256 * a + b).
Proof.
  unfold is_byte. intros Ea Eb Ha Hb. unfold badvpn_read_be16. rewrite Ea, Eb. cbn [of_option].
  rewrite !bind_Ret, Z.shiftl_0_r. f_equal.
  assert (Hland : Z.land (Z.shiftl a 8) b = 0).
  { apply Z.bits_inj'. intros n Hn. rewrite Z.land_spec, Z.bits_0. destruct (Z.ltb_spec n 8).
    - by rewrite Z.shiftl_spec_low.
    - rewrite (Z.bits_above_log2 b n), andb_false_r; [done|lia|].
      destruct (decide (b = 0)) as [->|]; [cbn; lia|]. apply Z.log2_lt_pow2; [lia|].
      apply Z.lt_le_trans with (2 ^ 8); [lia|]. apply Z.pow_le_mono_r; lia. }
  pose proof (Z.add_lor_land (Z.shiftl a 8) b) as H. rewrite Hland in H.
  rewrite Z.shiftl_mul_pow2 in * by lia. change (2 ^ 8) with 256 in *. lia.
Qed.

End ByteOrder.

(** ** The Internet checksum *)
Module Checksum.
Import ByteOrder.

(** [for (i = 0; i < n; i++) t += badvpn_read_be16(data + 2 * i)] *)
Fixpoint sum_words (n : nat) (data : list Z) (i t : Z) : cres Z :=
  match n with
  | O => Ret t
  | S n => w ← badvpn_read_be16 data (2 * i); sum_words n data (i + 1) (u32 (t + w))
  end.

(** [while (t >> 16) t = (t & 0xFFFF) + (t >> 16)] *)
Fixpoint fold_carry (fuel : nat) (t : Z) : cres Z :=
  match fuel with
  | O => OutOfFuel
  | S fuel =>
      if negb (Z.shiftr t 16 =? 0)
      then fold_carry fuel (u32 (Z.land t 65535 + Z.shiftr t 16))
      else Ret t
  end.
(** Two rounds bring 32 bits down to 16. *)
Definition carry_fuel : nat := 3.

(** RFC 1071: the one's complement sum of 16-bit words. *)
Definition ones_add (a b : Z) : Z := if a + b <? 65536 then a + b else a + b - 65535.
Definition ones_sum (ws : list Z) : Z := fold_left ones_add ws 0.

(** Bytes as big-endian words, the last one padded with zero. *)
Fixpoint words (l : list Z) : list Z :=
  match l with
  | a :: b :: l => 256 * a + b :: words l
  | [a] => [256 * a]
  | [] => []
  end.
Definition sum (ws : list Z) : Z := fold_right Z.add 0 ws.

(** *** Words *)

Lemma words_range l : bytes l -> Forall (fun w => 0 <= w <= 65535) (words l).
Proof.
  induction l as [|a|a b l IH] using pairs_ind; intros H; cbn [words]; [constructor| |].
  - apply Forall_cons_1 in H as [Ha _]. unfold is_byte in Ha. repeat constructor; lia.
  - apply Forall_cons_1 in H as [Ha H]. apply Forall_cons_1 in H as [Hb H].
    unfold is_byte in *. constructor; [lia|auto].
Qed.

Lemma words_app l k : Nat.Even (length l) -> words (l ++ k) = words l ++ words k.
Proof.
  induction l as [|a|a b l IH] using pairs_ind; intros H; cbn [words app]; [done| |].
  - by destruct H as [m Hm]; cbn in Hm; lia.
  - rewrite IH; [done|]. destruct H as [m Hm]. exists (m - 1)%nat. cbn in Hm. lia.
Qed.

Lemma sum_app l k : sum (l ++ k) = sum l + sum k.
Proof. induction l; cbn; [done|]. unfold sum in *. lia. Qed.
Lemma sum_range ws : Forall (fun w => 0 <= w <= 65535) ws -> 0 <= sum ws <= 65535 * zlen ws.
Proof. induction 1; cbn; [lia|]. unfold sum in *. lia. Qed.
Lemma sum_bytes l : bytes l -> 0 <= sum (words l) <= 65535 * ((zlen l + 1) / 2).
Proof.
  intros H. pose proof (sum_range _ (words_range l H)). enough (zlen (words l) = (zlen l + 1) / 2) by lia.
  clear H H0. induction l as [|a|a b l IH] using pairs_ind; [done|done|].
  cbn [words]. rewrite !length_cons, !Nat2Z.inj_succ, IH.
  replace (Z.succ (Z.succ (zlen l)) + 1) with (zlen l + 1 + 1 * 2) by lia.
  rewrite Z.div_add by lia. lia.
Qed.

(** The loop reads inside the data and sums its words. *)
Lemma sum_words_ok n : forall front data rest t,
  bytes data -> length data = (2 * n)%nat -> Nat.Even (length front) ->
  0 <= t -> t + sum (words data) < 2 ^ 32 ->
  sum_words n (front ++ data ++ rest) (zlen front / 2) t = Ret (t + sum (words data)).
Proof.
  induction n as [|n IH]; intros front data rest t Hb Hl [m Hm] Ht Hs; cbn [sum_words].
  - destruct data; [|cbn in Hl; lia]. cbn. f_equal. lia.
  - destruct data as [|a [|b data]]; cbn in Hl; try lia. cbn [words sum fold_right] in Hs.
    apply Forall_cons_1 in Hb as [Ha Hb]. apply Forall_cons_1 in Hb as [Hb' Hb].
    pose proof (sum_bytes data Hb). fold (sum (words data)) in Hs. unfold is_byte in Ha, Hb'.
    assert (Hf : 2 * (zlen front / 2) = zlen front)
      by (rewrite Hm; replace (Z.of_nat (2 * m)) with (Z.of_nat m * 2) by lia; rewrite Z.div_mul; lia).
    rewrite (read_be16_val _ _ a b), bind_Ret; try done; cycle 1.
    { apply get_app_at. lia. }
    { rewrite get_app_r, Hf by lia. replace (zlen front + 1 - zlen front) with 1 by lia. done. }
    assert (Hz : 0 <= (zlen data + 1) / 2) by (apply Z.div_pos; lia).
    rewrite u32_small by lia. replace (zlen front / 2 + 1) with (zlen (front ++ [a; b]) / 2).
    2: { rewrite length_app, Nat2Z.inj_add. cbn [length]. rewrite <- (Z.div_add _ 1) by lia. done. }
    change (front ++ (a :: b :: data) ++ rest) with (front ++ [a; b] ++ data ++ rest).
    rewrite (app_assoc front). rewrite IH; try done; try lia.
    + f_equal. cbn [words sum fold_right]. fold (sum (words data)). lia.
    + exists (m + 1)%nat. rewrite length_app. cbn [length]. lia.
Qed.

Lemma sum_words_all n data t :
  bytes data -> length data = (2 * n)%nat -> 0 <= t -> t + sum (words data) < 2 ^ 32 ->
  sum_words n data 0 t = Ret (t + sum (words data)).
Proof.
  intros Hb Hl Ht Hs. rewrite <- (app_nil_r data) at 1.
  apply (sum_words_ok n [] data []); try done. by exists 0%nat.
Qed.

(** *** Folding the carries *)

(** A 16-bit value congruent to [t] modulo 65535, zero only if [t] is. *)
Definition reduces (t r : Z) : Prop :=
  0 <= r <= 65535 /\ (exists q, t = r + 65535 * q) /\ (r = 0 <-> t = 0).
Lemma reduces_unique t r1 r2 : 0 <= t -> reduces t r1 -> reduces t r2 -> r1 = r2.
Proof. intros Ht (H1 & [q1 E1] & Z1) (H2 & [q2 E2] & Z2). nia. Qed.

Lemma carry_step t : 0 <= t < 2 ^ 32 ->
  Z.land t 65535 + Z.shiftr t 16 = t - 65535 * (t / 65536) /\ Z.shiftr t 16 = t / 65536 /\
  t = 65536 * (t / 65536) + t mod 65536 /\ 0 <= t mod 65536 < 65536 /\ 0 <= t / 65536 < 65536.
Proof.
  intros Ht. rewrite Z.shiftr_div_pow2 by lia. change (2 ^ 16) with 65536.
  change 65535 with (Z.ones 16) at 1. rewrite Z.land_ones by lia. change (2 ^ 16) with 65536.
  pose proof (Z.div_mod t 65536 ltac:(lia)). pose proof (Z.mod_pos_bound t 65536 ltac:(lia)).
  repeat split; try lia.
Qed.

Lemma fold_carry_reduces t : 0 <= t < 2 ^ 32 ->
  exists r, fold_carry carry_fuel t = Ret r /\ reduces t r.
Proof.
  intros Ht. unfold carry_fuel. cbn [fold_carry].
  assert (Hsmall : forall t', 0 <= t' <= 65535 -> (exists q, t = t' + 65535 * q) -> (t' = 0 <-> t = 0) ->
    negb (Z.shiftr t' 16 =? 0) = false /\ reduces t t').
  { intros t' H Hq Hz. split; [|done]. destruct (carry_step t' ltac:(lia)) as (_ & -> & _).
    rewrite Z.div_small by lia. done. }
  destruct (negb (Z.shiftr t 16 =? 0)) eqn:E1.
  2: { apply negb_false_iff, Z.eqb_eq in E1. destruct (carry_step t Ht) as (_ & E & H).
       exists t. split; [done|]. apply Hsmall; [lia|exists 0; lia|done]. }
  destruct (carry_step t Ht) as (E & Es & H). rewrite E. set (t1 := t - 65535 * (t / 65536)).
  apply negb_true_iff, Z.eqb_neq in E1. rewrite (u32_small t1) by lia.
  assert (Ht1 : 0 < t1 <= 131070) by lia.
  destruct (negb (Z.shiftr t1 16 =? 0)) eqn:E2.
  2: { apply negb_false_iff, Z.eqb_eq in E2. destruct (carry_step t1 ltac:(lia)) as (_ & E' & H').
       exists t1. split; [done|]. apply Hsmall; [lia|exists (t / 65536); lia|lia]. }
  destruct (carry_step t1 ltac:(lia)) as (E' & Es' & H'). rewrite E'.
  apply negb_true_iff, Z.eqb_neq in E2. set (t2 := t1 - 65535 * (t1 / 65536)).
  rewrite (u32_small t2) by lia. assert (Ht2 : 0 < t2 <= 65535) by lia.
  destruct (Hsmall t2) as [-> Hr]; [lia|exists (t / 65536 + t1 / 65536); lia|lia|].
  eauto.
Qed.

Lemma ones_sum_reduces ws : Forall (fun w => 0 <= w <= 65535) ws -> reduces (sum ws) (ones_sum ws).
Proof.
  intros Hws. unfold ones_sum.
  enough (Hg : forall t r, reduces t r -> 0 <= t -> reduces (t + sum ws) (fold_left ones_add ws r)).
  { apply (Hg 0 0); [|lia]. split; [lia|]. split; [by exists 0|done]. }
  induction Hws as [|w ws Hw Hws IH]; intros t r (Hr & [q Hq] & Hz) Ht; cbn [fold_left sum fold_right].
  - rewrite Z.add_0_r. split; [done|]. split; [by exists q|done].
  - fold (sum ws). rewrite Z.add_assoc. apply IH; [|lia]. unfold ones_add.
    destruct (Z.ltb_spec (r + w) 65536).
    + split; [lia|]. split; [exists q; lia|lia].
    + split; [lia|]. split; [exists (q + 1); lia|lia].
Qed.

(** The folded 32-bit sum is the one's complement sum. *)
Lemma fold_carry_ok ws : Forall (fun w => 0 <= w <= 65535) ws -> sum ws < 2 ^ 32 ->
  fold_carry carry_fuel (sum ws) = Ret (ones_sum ws).
Proof.
  intros Hws Hs. pose proof (sum_range ws Hws).
  destruct (fold_carry_reduces (sum ws) ltac:(lia)) as (r & -> & Hr). f_equal.
  by eapply reduces_unique; [|exact Hr|apply ones_sum_reduces]; [lia|].
Qed.
Lemma ones_sum_range ws : Forall (fun w => 0 <= w <= 65535) ws -> 0 <= ones_sum ws <= 65535.
Proof. intros H. apply (ones_sum_reduces ws H). Qed.

(** [~t] in the low 16 bits. *)
Lemma complement16 t : 0 <= t <= 65535 -> u16 (Z.lnot t) = 65535 - t.
Proof.
  intros Ht. unfold u16, Z.lnot. symmetry. apply (Z.mod_unique_pos _ _ (-1)); lia.
Qed.

End Checksum.

(** ** Headers *)
Module IpUdp.
Import ByteOrder Checksum.

Definition IPV4_PROTOCOL_UDP : Z := 17.
Definition IPV6_NEXT_UDP : Z := 17.

Record ipv4_header := mkIpv4 {
  version4_ihl4 : Z;
  ds : Z;
  total_length : Z;
  identification : Z;
  flags3_fragmentoffset13 : Z;
  ttl : Z;
  protocol : Z;
  checksum : Z;
  source_address : Z;
  destination_address : Z;
}.
Definition sizeof_ipv4_header : Z := 20.

(** The structure in memory. *)
Definition ipv4_header_bytes (h : ipv4_header) : list Z :=
  le_bytes 1 (version4_ihl4 h) ++ le_bytes 1 (ds h) ++ le_bytes 2 (total_length h) ++
  le_bytes 2 (identification h) ++ le_bytes 2 (flags3_fragmentoffset13 h) ++
  le_bytes 1 (ttl h) ++ le_bytes 1 (protocol h) ++ le_bytes 2 (checksum h) ++
  le_bytes 4 (source_address h) ++ le_bytes 4 (destination_address h).
Definition ipv4_header_of (l : list Z) : ipv4_header :=
  let f o n := le_val (slice o n l) in
  mkIpv4 (f 0 1) (f 1 1) (f 2 2) (f 4 2) (f 6 2) (f 8 1) (f 9 1) (f 10 2) (f 12 4) (f 16 4).
Definition set_checksum (h : ipv4_header) (c : Z) : ipv4_header :=
  mkIpv4 (version4_ihl4 h) (ds h) (total_length h) (identification h) (flags3_fragmentoffset13 h)
    (ttl h) (protocol h) c (source_address h) (destination_address h).
Definition set_addresses (h : ipv4_header) (src dst : Z) : ipv4_header :=
  mkIpv4 (version4_ihl4 h) (ds h) (total_length h) (identification h) (flags3_fragmentoffset13 h)
    (ttl h) (protocol h) (checksum h) src dst.

Definition IPV4_GET_VERSION (h : ipv4_header) : Z :=
  Z.shiftr (Z.land (version4_ihl4 h) 240) 4.
Definition IPV4_GET_IHL (h : ipv4_header) : Z :=
  Z.shiftr (Z.land (version4_ihl4 h) 15) 0.
Definition IPV4_MAKE_VERSION_IHL (size : Z) : Z := size / 4 + Z.shiftl 4 4.

Definition ipv4_checksum (header : ipv4_header) (extra : list Z) : cres Z :=
  let extra_len := zlen extra in
  _ ← assert (extra_len mod 2 =? 0);
  t ← sum_words (Z.to_nat (sizeof_ipv4_header / 2)) (ipv4_header_bytes header) 0 0;
  t ← sum_words (Z.to_nat (extra_len / 2)) extra 0 t;
  t ← fold_carry carry_fuel t;
  Ret (hton16 (Z.lnot t)).

(** The payload is the part of [data] the out parameters point to. *)
Definition ipv4_check (data : list Z) : cres (option (ipv4_header * list Z)) :=
  let data_len := zlen data in
  if data_len <? sizeof_ipv4_header then Ret None
  else
    h ← of_option (load data 0 sizeof_ipv4_header);
    let h := ipv4_header_of h in
    if negb (IPV4_GET_VERSION h =? 4) then Ret None
    else
      let header_len := u16 (IPV4_GET_IHL h * 4) in
      if header_len <? sizeof_ipv4_header then Ret None
      else if data_len <? header_len then Ret None
      else
        let total_length := ntoh16 (total_length h) in
        if total_length <? header_len then Ret None
        else if data_len <? total_length then Ret None
        else
          let checksum_in_packet := checksum h in
          let h := set_checksum h (hton16 0) in
          extra ← of_option (load data sizeof_ipv4_header (header_len - sizeof_ipv4_header));
          checksum_computed ← ipv4_checksum h extra;
          let h := set_checksum h checksum_in_packet in
          if negb (checksum_in_packet =? checksum_computed) then Ret None
          else
            payload ← of_option (load data header_len (total_length - header_len));
            Ret (Some (h, payload)).

Record ipv6_header := mkIpv6 {
  version4_tc4 : Z;
  tc4_fl4 : Z;
  fl : Z;
  payload_length : Z;
  next_header : Z;
  hop_limit : Z;
  source_address6 : list Z;
  destination_address6 : list Z;
}.
Definition sizeof_ipv6_header : Z := 40.
Definition ipv6_header_bytes (h : ipv6_header) : list Z :=
  le_bytes 1 (version4_tc4 h) ++ le_bytes 1 (tc4_fl4 h) ++ le_bytes 2 (fl h) ++
  le_bytes 2 (payload_length h) ++ le_bytes 1 (next_header h) ++ le_bytes 1 (hop_limit h) ++
  source_address6 h ++ destination_address6 h.
Definition ipv6_header_of (l : list Z) : ipv6_header :=
  let f o n := le_val (slice o n l) in
  mkIpv6 (f 0 1) (f 1 1) (f 2 2) (f 4 2) (f 6 1) (f 7 1) (slice 8 16 l) (slice 24 16 l).

Definition ipv6_check (data : list Z) : cres (option (ipv6_header * list Z)) :=
  let data_len := zlen data in
  if data_len <? sizeof_ipv6_header then Ret None
  else
    h ← of_option (load data 0 sizeof_ipv6_header);
    let h := ipv6_header_of h in
    if negb (Z.shiftr (ntoh8 (version4_tc4 h)) 4 =? 6) then Ret None
    else
      let payload_length := ntoh16 (payload_length h) in
      if data_len - sizeof_ipv6_header <? payload_length then Ret None
      else
        payload ← of_option (load data sizeof_ipv6_header payload_length);
        Ret (Some (h, payload)).

Record udp_header := mkUdp {
  source_port : Z;
  dest_port : Z;
  length_ : Z;
  udp_checksum_ : Z;
}.
Definition sizeof_udp_header : Z := 8.
Definition udp_header_bytes (h : udp_header) : list Z :=
  le_bytes 2 (source_port h) ++ le_bytes 2 (dest_port h) ++ le_bytes 2 (length_ h) ++
  le_bytes 2 (udp_checksum_ h).
Definition udp_header_of (l : list Z) : udp_header :=
  let f o n := le_val (slice o n l) in mkUdp (f 0 2) (f 2 2) (f 4 2) (f 6 2).
Definition set_udp_checksum (h : udp_header) (c : Z) : udp_header :=
  mkUdp (source_port h) (dest_port h) (length_ h) c.

(** [udp_checksum_summer(data, len)] *)
Definition udp_checksum_summer (data : list Z) (len : Z) : cres Z :=
  _ ← assert (len mod 2 =? 0);
  sum_words (Z.to_nat (len / 2)) data 0 0.

(** The part both checksums end with: the payload, the carries, the complement. *)
Definition udp_checksum_end (t : Z) (payload : list Z) : cres Z :=
  let payload_len := u16 (zlen payload) in
  t ← (if payload_len mod 2 =? 0 then
         s ← udp_checksum_summer payload payload_len; Ret (u32 (t + s))
       else
         s ← udp_checksum_summer payload (payload_len - 1);
         last ← of_option (get payload (payload_len - 1));
         let x := hton16 (Z.shiftl last 8) in
         s' ← udp_checksum_summer (le_bytes 2 x) 2;
         Ret (u32 (u32 (t + s) + s')));
  t ← fold_carry carry_fuel t;
  let t := if t =? 0 then 65535 else t in
  Ret (hton16 (Z.lnot t)).

Definition udp_checksum (header : udp_header) (payload : list Z) (source_addr dest_addr : Z) :
    cres Z :=
  s ← udp_checksum_summer (le_bytes 4 source_addr) 4;
  let t := u32 s in
  s ← udp_checksum_summer (le_bytes 4 dest_addr) 4;
  let t := u32 (t + s) in
  s ← udp_checksum_summer (le_bytes 2 (hton16 IPV4_PROTOCOL_UDP)) 2;
  let t := u32 (t + s) in
  s ← udp_checksum_summer (le_bytes 2 (hton16 (sizeof_udp_header + u16 (zlen payload)))) 2;
  let t := u32 (t + s) in
  s ← udp_checksum_summer (udp_header_bytes header) sizeof_udp_header;
  udp_checksum_end (u32 (t + s)) payload.

Definition udp_ip6_checksum (header : udp_header) (payload source_addr dest_addr : list Z) :
    cres Z :=
  s ← udp_checksum_summer source_addr 16;
  let t := u32 s in
  s ← udp_checksum_summer dest_addr 16;
  let t := u32 (t + s) in
  s ← udp_checksum_summer (le_bytes 4 (hton32 (sizeof_udp_header + u16 (zlen payload)))) 4;
  let t := u32 (t + s) in
  s ← udp_checksum_summer (le_bytes 4 (hton32 IPV6_NEXT_UDP)) 4;
  let t := u32 (t + s) in
  s ← udp_checksum_summer (udp_header_bytes header) sizeof_udp_header;
  udp_checksum_end (u32 (t + s)) payload.

Definition udp_check (data : list Z) : cres (option (udp_header * list Z)) :=
  if zlen data <? sizeof_udp_header then Ret None
  else
    h ← of_option (load data 0 sizeof_udp_header);
    let h := udp_header_of h in
    let data_len := zlen data - sizeof_udp_header in
    let udp_length := ntoh16 (length_ h) in
    if udp_length <? sizeof_udp_header then Ret None
    else if sizeof_udp_header + data_len <? udp_length then Ret None
    else
      payload ← of_option (load data sizeof_udp_header (udp_length - sizeof_udp_header));
      Ret (Some (h, payload)).

(** *** Structures and their bytes *)

Lemma le_field l o n k :
  bytes l -> 0 <= o -> k = Z.of_nat n -> o + k <= zlen l ->
  le_bytes n (le_val (slice o k l)) = slice o k l.
Proof.
  intros Hl Ho -> Hn. assert (Hlen : length (slice o (Z.of_nat n) l) = n)
    by (pose proof (length_slice l o (Z.of_nat n)); lia).
  rewrite <- Hlen at 1. apply le_bytes_val. apply bytes_take, bytes_drop, Hl.
Qed.
Lemma slice_all {A} (l : list A) n : n = zlen l -> slice 0 n l = l.
Proof. intros ->. unfold slice. rewrite drop_0, Nat2Z.id. by apply take_ge. Qed.

Lemma slice_join {A} (l : list A) o n1 o2 n2 n :
  0 <= o -> 0 <= n1 -> 0 <= n2 -> o2 = o + n1 -> n = n1 + n2 ->
  slice o n1 l ++ slice o2 n2 l = slice o n l.
Proof. intros ? ? ? -> ->. by rewrite slice_app. Qed.

Lemma slice_join_app {A} (l k : list A) o n1 o2 n2 n :
  0 <= o -> 0 <= n1 -> 0 <= n2 -> o2 = o + n1 -> n = n1 + n2 ->
  slice o n1 l ++ slice o2 n2 l ++ k = slice o n l ++ k.
Proof. intros. by rewrite app_assoc, (slice_join l o n1 o2 n2 n). Qed.

Lemma ipv4_header_bytes_of l :
  bytes l -> zlen l = 20 -> ipv4_header_bytes (ipv4_header_of l) = l.
Proof.
  intros Hb Hl. unfold ipv4_header_bytes, ipv4_header_of.
  cbn [version4_ihl4 ds total_length identification flags3_fragmentoffset13 ttl protocol checksum
    source_address destination_address].
  rewrite !le_field by (done || lia).
  rewrite (slice_join l 12 4 16 4 8), (slice_join l 10 2 12 8 10), (slice_join l 9 1 10 10 11),
    (slice_join l 8 1 9 11 12), (slice_join l 6 2 8 12 14), (slice_join l 4 2 6 14 16), (slice_join l 2 2 4 16 18),
    (slice_join l 1 1 2 18 19), (slice_join l 0 1 1 19 20) by lia.
  by apply slice_all.
Qed.
Lemma udp_header_bytes_of l :
  bytes l -> zlen l = 8 -> udp_header_bytes (udp_header_of l) = l.
Proof.
  intros Hb Hl. unfold udp_header_bytes, udp_header_of.
  cbn [source_port dest_port length_ udp_checksum_]. rewrite !le_field by (done || lia).
  rewrite (slice_join l 4 2 6 2 4), (slice_join l 2 2 4 4 6), (slice_join l 0 2 2 6 8) by lia.
  by apply slice_all.
Qed.
Lemma length_ipv4_header_bytes h : zlen (ipv4_header_bytes h) = 20.
Proof. unfold ipv4_header_bytes. rewrite !length_app, !length_le_bytes. done. Qed.
Lemma length_udp_header_bytes h : zlen (udp_header_bytes h) = 8.
Proof. unfold udp_header_bytes. rewrite !length_app, !length_le_bytes. done. Qed.
Lemma bytes_ipv4_header h : bytes (ipv4_header_bytes h).
Proof. unfold ipv4_header_bytes. eauto 15 with byte_db. Qed.
Lemma bytes_udp_header h : bytes (udp_header_bytes h).
Proof. unfold udp_header_bytes. eauto 15 with byte_db. Qed.

(** *** The checksums compute one's complement sums *)

Lemma even_zlen {A} (l : list A) : zlen l mod 2 = 0 <-> Nat.Even (length l).
Proof.
  split.
  - intros H. exists (Z.to_nat (zlen l / 2)). pose proof (Z.div_mod (zlen l) 2). lia.
  - intros [m ->]. replace (Z.of_nat (2 * m)) with (Z.of_nat m * 2) by lia. by rewrite Z.mod_mul.
Qed.

Lemma sum_bytes_small l : bytes l -> zlen l <= 70000 -> 0 <= sum (words l) < 2 ^ 32 - 65536.
Proof.
  intros Hb Hl. pose proof (sum_bytes l Hb) as H.
  assert ((zlen l + 1) / 2 <= 35001) by (apply Z.div_le_upper_bound; lia). lia.
Qed.

Lemma summer_ok d rest len :
  bytes d -> zlen d = len -> zlen d mod 2 = 0 -> zlen d <= 70000 ->
  udp_checksum_summer (d ++ rest) len = Ret (sum (words d)).
Proof.
  intros Hb <- He Hl. unfold udp_checksum_summer. rewrite He. cbn [Z.eqb assert]. rewrite bind_Ret.
  pose proof (sum_bytes_small d Hb Hl). pose proof (Z.div_mod (zlen d) 2).
  change 0 with (zlen (@nil Z) / 2) at 1.
  change (d ++ rest) with ([] ++ d ++ rest). rewrite sum_words_ok; [done|done|lia|by exists 0%nat|lia|lia].
Qed.
Lemma summer_all d len :
  bytes d -> zlen d = len -> len mod 2 = 0 -> len <= 70000 ->
  udp_checksum_summer d len = Ret (sum (words d)).
Proof. intros Hb <- He Hl. rewrite <- (app_nil_r d) at 1. by apply summer_ok. Qed.

Definition ones_complement (l : list Z) : Z := 65535 - ones_sum (words l).

(** A payload of odd length is padded with a zero byte. *)
Lemma payload_sum t payload :
  bytes payload -> zlen payload <= 65535 -> 0 <= t -> t + sum (words payload) < 2 ^ 32 ->
  (if zlen payload mod 2 =? 0 then
     s ← udp_checksum_summer payload (zlen payload); Ret (u32 (t + s))
   else
     s ← udp_checksum_summer payload (zlen payload - 1);
     last ← of_option (get payload (zlen payload - 1));
     s' ← udp_checksum_summer (le_bytes 2 (hton16 (Z.shiftl last 8))) 2;
     Ret (u32 (u32 (t + s) + s'))) = Ret (t + sum (words payload)).
Proof.
  intros Hpay Hlp Ht Hsum. pose proof (sum_bytes_small payload Hpay ltac:(lia)).
  destruct (Z.eqb_spec (zlen payload mod 2) 0) as [Ep|Ep].
  { rewrite summer_all, bind_Ret, u32_small by (done || lia). done. }
  destruct (@exists_last _ payload) as (p' & x & ->); [by intros ->|].
  apply bytes_app in Hpay as [Hp' Hx]. apply Forall_cons_1 in Hx as [Hx _]. unfold is_byte in Hx.
  rewrite length_app, Nat2Z.inj_add in *. cbn [length] in *. change (Z.of_nat 1) with 1 in *.
  assert (Hev : zlen p' mod 2 = 0).
  { pose proof (Z.mod_pos_bound (zlen p') 2 ltac:(lia)).
    rewrite Z.add_mod in Ep by lia. destruct (decide (zlen p' mod 2 = 1)) as [E1|]; [|lia].
    rewrite E1 in Ep. done. }
  rewrite summer_ok, bind_Ret by (done || lia).
  replace (zlen p' + 1 - 1) with (zlen p') by lia. rewrite get_app_here. cbn [of_option].
  rewrite bind_Ret, hton16_bytes, Z.shiftl_mul_pow2, (u16_small (x * 2 ^ 8)) by lia.
  rewrite words_app, sum_app in * by (by apply even_zlen).
  assert (Hbe : be_bytes 2 (x * 2 ^ 8) = [x; 0]).
  { unfold be_bytes. cbn [le_bytes rev app]. change (2 ^ 8) with 256.
    by rewrite Z.mod_mul, Z.div_mul, Z.mod_small by lia. }
  rewrite Hbe. rewrite summer_all by first [done | repeat constructor; unfold is_byte; lia].
  rewrite bind_Ret. assert (sum (words [x]) = 256 * x /\ sum (words [x; 0]) = 256 * x) as [H1 H2]
    by (cbn -[Z.mul]; lia). rewrite H1, H2 in *.
  pose proof (sum_bytes_small p' Hp' ltac:(lia)).
  rewrite (u32_small (_ + sum (words p'))), u32_small by lia. f_equal. lia.
Qed.

Lemma checksum_end_ok pre payload :
  bytes pre -> bytes payload -> zlen pre mod 2 = 0 -> zlen pre <= 1000 -> zlen payload <= 65535 ->
  0 < sum (words pre) ->
  udp_checksum_end (sum (words pre)) payload = Ret (hton16 (ones_complement (pre ++ payload))).
Proof.
  intros Hpre Hpay He Hl Hlp Hpos. unfold udp_checksum_end. rewrite u16_small by lia.
  assert (Hb : bytes (pre ++ payload)) by eauto with byte_db.
  pose proof (sum_bytes_small (pre ++ payload) Hb ltac:(llia)) as Hsum.
  assert (Hs : sum (words (pre ++ payload)) = sum (words pre) + sum (words payload))
    by (rewrite words_app, sum_app; [done|by apply even_zlen]).
  rewrite payload_sum, bind_Ret, <- Hs by (done || lia).
  rewrite fold_carry_ok, bind_Ret by (by apply words_range) || lia.
  destruct (ones_sum_reduces _ (words_range _ Hb)) as (Hr & _ & Hz).
  pose proof (sum_bytes_small payload Hpay ltac:(lia)).
  destruct (Z.eqb_spec (ones_sum (words (pre ++ payload))) 0) as [E0|]; [lia|].
  unfold ones_complement. f_equal. unfold hton16. rewrite complement16, u16_small by lia. done.
Qed.

(** Adding the sum of a further piece. *)
Lemma add_sum l k :
  bytes l -> bytes k -> zlen l mod 2 = 0 -> zlen l + zlen k <= 70000 ->
  u32 (sum (words l) + sum (words k)) = sum (words (l ++ k)).
Proof.
  intros Hl Hk He Hn. rewrite words_app, sum_app by (by apply even_zlen).
  pose proof (sum_bytes_small (l ++ k) ltac:(eauto with byte_db) ltac:(llia)) as H.
  rewrite words_app, sum_app in H by (by apply even_zlen). apply u32_small. lia.
Qed.
Lemma first_sum l : bytes l -> zlen l <= 70000 -> u32 (sum (words l)) = sum (words l).
Proof. intros Hl Hn. pose proof (sum_bytes_small l Hl Hn). apply u32_small. lia. Qed.

(** The pseudo headers of RFC 768 and RFC 8200, and the datagram. *)
Definition pseudo4 (src dst : Z) (h : udp_header) (payload : list Z) : list Z :=
  (le_bytes 4 src ++ le_bytes 4 dst ++ [0; 17] ++ be_bytes 2 (8 + zlen payload) ++
   udp_header_bytes h) ++ payload.
Definition pseudo6 (src dst : list Z) (h : udp_header) (payload : list Z) : list Z :=
  (src ++ dst ++ be_bytes 4 (8 + zlen payload) ++ [0; 0; 0; 17] ++ udp_header_bytes h) ++ payload.

#[local] Hint Resolve bytes_udp_header bytes_ipv4_header : byte_db.
#[local] Hint Extern 1 (is_byte _) => (unfold is_byte; lia) : byte_db.
Ltac piece := first [solve [eauto 20 with byte_db]
  | rewrite ?length_app, ?Nat2Z.inj_add, ?length_le_bytes, ?length_be_bytes, ?length_udp_header_bytes;
    cbn [length]; first [done | lia] ].

Lemma udp_checksum_ok h payload src dst :
  bytes payload -> zlen payload <= 65527 ->
  udp_checksum h payload src dst = Ret (hton16 (ones_complement (pseudo4 src dst h payload))).
Proof.
  intros Hp Hl. unfold udp_checksum, IPV4_PROTOCOL_UDP, sizeof_udp_header.
  rewrite !hton16_bytes, (u16_small (zlen payload)), (u16_small (8 + _)) by lia.
  change (be_bytes 2 (u16 17)) with [0; 17].
  rewrite !summer_all by piece. rewrite !bind_Ret. cbv zeta.
  rewrite first_sum, !add_sum by piece.
  rewrite checksum_end_ok; [|piece|piece|piece|piece|lia|].
  - unfold pseudo4. by rewrite <- !app_assoc.
  - rewrite <- !app_assoc. rewrite !words_app, !sum_app by (apply even_zlen; piece).
    pose proof (sum_bytes (le_bytes 4 src) ltac:(piece)). pose proof (sum_bytes (le_bytes 4 dst) ltac:(piece)).
    pose proof (sum_bytes (be_bytes 2 (8 + zlen payload)) ltac:(piece)).
    pose proof (sum_bytes (udp_header_bytes h) ltac:(piece)). change (sum (words [0; 17])) with 17. lia.
Qed.

Lemma udp_ip6_checksum_ok h payload src dst :
  bytes payload -> zlen payload <= 65527 -> bytes src -> bytes dst -> zlen src = 16 -> zlen dst = 16 ->
  udp_ip6_checksum h payload src dst = Ret (hton16 (ones_complement (pseudo6 src dst h payload))).
Proof.
  intros Hp Hl Hs Hd Hls Hld. unfold udp_ip6_checksum, IPV6_NEXT_UDP, sizeof_udp_header.
  rewrite !hton32_bytes, (u16_small (zlen payload)), (u32_small (8 + _)) by lia.
  change (be_bytes 4 (u32 17)) with [0; 0; 0; 17].
  rewrite !summer_all by piece. rewrite !bind_Ret. cbv zeta.
  rewrite first_sum, !add_sum by (rewrite ?length_app, ?Nat2Z.inj_add, ?Hls, ?Hld; piece).
  rewrite checksum_end_ok;
    [|piece|piece|rewrite !length_app, !Nat2Z.inj_add, Hls, Hld; piece
    |rewrite !length_app, !Nat2Z.inj_add, Hls, Hld; piece|lia|].
  - unfold pseudo6. by rewrite <- !app_assoc.
  - rewrite <- !app_assoc. rewrite !words_app, !sum_app by (apply even_zlen; rewrite ?Hls, ?Hld; piece).
    pose proof (sum_bytes src Hs). pose proof (sum_bytes dst Hd).
    pose proof (sum_bytes (be_bytes 4 (8 + zlen payload)) ltac:(piece)).
    pose proof (sum_bytes (udp_header_bytes h) ltac:(piece)).
    change (sum (words [0; 0; 0; 17])) with 17. lia.
Qed.

Lemma ipv4_checksum_ok h extra :
  bytes extra -> zlen extra mod 2 = 0 -> zlen extra <= 40 ->
  ipv4_checksum h extra = Ret (hton16 (ones_complement (ipv4_header_bytes h ++ extra))).
Proof.
  intros Hx He Hl. unfold ipv4_checksum. rewrite He. cbn [Z.eqb assert]. rewrite bind_Ret.
  pose proof (length_ipv4_header_bytes h) as Hh. pose proof (bytes_ipv4_header h) as Hbh.
  pose proof (sum_bytes_small _ Hbh ltac:(lia)). pose proof (sum_bytes_small _ Hx ltac:(lia)).
  pose proof (sum_bytes (ipv4_header_bytes h) Hbh) as H1. rewrite Hh in H1.
  pose proof (sum_bytes extra Hx) as H2.
  assert ((zlen extra + 1) / 2 <= 21) by (apply Z.div_le_upper_bound; lia).
  change ((20 + 1) / 2) with 10 in H1. pose proof (Z.div_mod (zlen extra) 2).
  change (Z.to_nat (sizeof_ipv4_header / 2)) with 10%nat.
  rewrite sum_words_all, bind_Ret, Z.add_0_l by (done || lia).
  rewrite sum_words_all, bind_Ret, <- sum_app, <- words_app by (done || lia || (apply even_zlen; by rewrite Hh)).
  assert (Hb : bytes (ipv4_header_bytes h ++ extra)) by eauto with byte_db.
  rewrite fold_carry_ok, bind_Ret;
    [|by apply words_range|rewrite words_app, sum_app by (apply even_zlen; by rewrite Hh); lia].
  pose proof (ones_sum_range _ (words_range _ Hb)).
  unfold ones_complement. f_equal. unfold hton16. rewrite complement16, u16_small by lia. done.
Qed.

(** *** Bytes of a packet *)

Definition byte (data : list Z) (i : Z) : Z := default 0 (get data i).
Definition be16 (data : list Z) (i : Z) : Z := 256 * byte data i + byte data (i + 1).

Lemma byte_range data i : bytes data -> is_byte (byte data i).
Proof.
  intros Hb. unfold byte. destruct (get data i) as [x|] eqn:E; cbn; [|unfold is_byte; lia].
  unfold get in E. destruct (i <? 0); [done|]. by eapply Forall_lookup_1 in E.
Qed.
Lemma slice_1 data i : 0 <= i < zlen data -> slice i 1 data = [byte data i].
Proof.
  intros Hi. unfold byte, slice, get. destruct (Z.ltb_spec i 0); [lia|].
  destruct (lookup_lt_is_Some_2 data (Z.to_nat i)) as [x Hx]; [lia|]. rewrite Hx. cbn [default].
  rewrite (drop_S _ _ _ Hx). change (Z.to_nat 1) with 1%nat. cbn. by rewrite take_0.
Qed.
Lemma slice_2 data i : 0 <= i -> i + 1 < zlen data -> slice i 2 data = [byte data i; byte data (i + 1)].
Proof.
  intros H1 H2. rewrite (slice_app _ i 1 1) by lia. by rewrite !slice_1 by lia.
Qed.
Lemma field16 data i : bytes data -> 0 <= i -> i + 1 < zlen data ->
  ntoh16 (le_val (slice i 2 data)) = be16 data i.
Proof. intros Hb H1 H2. rewrite slice_2 by done. by rewrite ntoh16_val by (by apply byte_range). Qed.

(** A checksum field at an even place is as computed, exactly when the whole
    sums to [0xFFFF] and the field is not [0xFFFF]. *)
Lemma checksum_field a k1 k2 b :
  bytes (a ++ [k1; k2] ++ b) -> zlen a mod 2 = 0 -> 0 < sum (words (a ++ [0; 0] ++ b)) ->
  le_val [k1; k2] = hton16 (ones_complement (a ++ [0; 0] ++ b)) <->
  ones_sum (words (a ++ [k1; k2] ++ b)) = 65535 /\ [k1; k2] <> [255; 255].
Proof.
  intros Hb He Hpos. assert (Hb0 : bytes (a ++ [0; 0] ++ b)).
  { rewrite !bytes_app in *. destruct Hb as (? & _ & ?). split; [done|]. split; [|done].
    repeat constructor; unfold is_byte; lia. }
  assert (Hk : is_byte k1 /\ is_byte k2).
  { rewrite !bytes_app in Hb. destruct Hb as (_ & Hk & _). apply Forall_cons_1 in Hk as [? Hk].
    by apply Forall_cons_1 in Hk as [? _]. }
  destruct Hk as [Hk1 Hk2].
  pose proof (ones_sum_reduces _ (words_range _ Hb)) as HR.
  pose proof (ones_sum_reduces _ (words_range _ Hb0)) as HS.
  assert (Hs : sum (words (a ++ [k1; k2] ++ b)) = sum (words (a ++ [0; 0] ++ b)) + (256 * k1 + k2)).
  { rewrite !words_app, !sum_app by (by apply even_zlen || by exists 1%nat). cbn -[Z.mul]. lia. }
  rewrite Hs in HR. unfold ones_complement. destruct HS as (HS & [q Hq] & Hz).
  destruct HR as (HR & [q' Hq'] & Hz'). unfold is_byte in *.
  set (S0 := ones_sum (words (a ++ [0; 0] ++ b))) in *. set (R := ones_sum _) in *.
  assert (Hlv : le_val [k1; k2] = hton16 (65535 - S0) <-> 256 * k1 + k2 = 65535 - S0).
  { split.
    - intros H%(f_equal ntoh16). rewrite ntoh16_val, hton16_val in H by (done || lia). lia.
    - intros H. rewrite <- H. by rewrite hton16_pair. }
  rewrite Hlv. split.
  - intros H. split; [nia|]. intros [= -> ->]. lia.
  - intros [H Hne]. assert (256 * k1 + k2 <> 65535) by (intros ?; apply Hne; f_equal; [lia|f_equal; lia]).
    nia.
Qed.

(** *** The checks are exact *)

(** RFC 791, with the checksum [0xFFFF] left out: the version is 4, the header
    has at least five words, the lengths fit, and the header sums to [0xFFFF]. *)
Definition header_len (data : list Z) : Z := 4 * (byte data 0 mod 16).
Definition ipv4_valid (data : list Z) : bool :=
  (20 <=? zlen data) && (byte data 0 / 16 =? 4) && (20 <=? header_len data) &&
  (header_len data <=? be16 data 2) && (be16 data 2 <=? zlen data) &&
  (ones_sum (words (slice 0 (header_len data) data)) =? 65535) && negb (be16 data 10 =? 65535).

Lemma ihl_version h b : is_byte b -> version4_ihl4 h = b ->
  IPV4_GET_VERSION h = b / 16 /\ IPV4_GET_IHL h = b mod 16.
Proof.
  intros Hb <-. unfold IPV4_GET_VERSION, IPV4_GET_IHL. split.
  - change 240 with (Z.shiftl 15 4). rewrite Z.shiftr_land, Z.shiftr_shiftl_l by lia.
    change (Z.shiftl 15 (4 - 4)) with (Z.ones 4). rewrite Z.land_ones, Z.shiftr_div_pow2 by lia.
    change (2 ^ 4) with 16. apply Z.mod_small. unfold is_byte in Hb.
    split; [apply Z.div_pos|apply Z.div_lt_upper_bound]; lia.
  - rewrite Z.shiftr_0_r. change 15 with (Z.ones 4). by rewrite Z.land_ones by lia.
Qed.

(** The header with its checksum cleared. *)
Lemma cleared_bytes data :
  bytes data -> 20 <= zlen data ->
  ipv4_header_bytes (set_checksum (ipv4_header_of (slice 0 20 data)) (hton16 0)) =
  slice 0 10 data ++ [0; 0] ++ slice 12 8 data.
Proof.
  intros Hb Hl. set (l := slice 0 20 data).
  assert (Hlb : bytes l) by (apply bytes_take, bytes_drop, Hb).
  assert (Hll : zlen l = 20) by (apply length_slice; lia).
  unfold ipv4_header_bytes, ipv4_header_of, set_checksum.
  cbn [version4_ihl4 ds total_length identification flags3_fragmentoffset13 ttl protocol checksum
    source_address destination_address].
  change (le_bytes 2 (hton16 0)) with [0; 0]. rewrite !le_field by (done || lia).
  rewrite (slice_join l 12 4 16 4 8) by lia.
  rewrite (slice_join_app l _ 8 1 9 1 2), (slice_join_app l _ 6 2 8 2 4), (slice_join_app l _ 4 2 6 4 6),
    (slice_join_app l _ 2 2 4 6 8), (slice_join_app l _ 1 1 2 8 9), (slice_join_app l _ 0 1 1 9 10) by lia.
  unfold l. rewrite !slice_slice by lia. done.
Qed.

Lemma bytes_slice o n data : bytes data -> bytes (slice o n data).
Proof. intros H. apply bytes_take, bytes_drop, H. Qed.
#[local] Hint Resolve bytes_slice : byte_db.

(** The comparison with the computed checksum. *)
Lemma ipv4_sum_ok data n :
  bytes data -> 20 <= n <= zlen data -> n <= 60 -> n mod 2 = 0 -> byte data 0 / 16 = 4 ->
  exists c, ipv4_checksum (set_checksum (ipv4_header_of (slice 0 20 data)) (hton16 0)) (slice 20 (n - 20) data)
      = Ret c /\
    (le_val (slice 10 2 data) =? c) =
      (ones_sum (words (slice 0 n data)) =? 65535) && negb (be16 data 10 =? 65535).
Proof.
  intros Hb Hn Hn60 He Hv. pose proof (length_slice data 20 (n - 20)) as Hxl.
  rewrite ipv4_checksum_ok; [|eauto with byte_db| |lia].
  2: { rewrite Hxl by lia. rewrite Zminus_mod, He. done. }
  rewrite cleared_bytes, <- !app_assoc by (done || lia). rewrite (slice_join data 12 8 20 (n - 20) (n - 12)) by lia.
  eexists. split; [reflexivity|].
  assert (Hw : slice 0 n data = slice 0 10 data ++ [byte data 10; byte data 11] ++ slice 12 (n - 12) data).
  { change [byte data 10; byte data 11] with [byte data 10; byte data (10 + 1)].
    rewrite <- slice_2 by lia. rewrite (slice_join_app data _ 0 10 10 2 12), (slice_join data 0 12 12 (n - 12) n) by lia.
    done. }
  pose proof (checksum_field (slice 0 10 data) (byte data 10) (byte data 11) (slice 12 (n - 12) data)) as Hc.
  rewrite <- Hw in Hc. rewrite (slice_2 data 10) by lia. change (10 + 1) with 11.
  rewrite (length_slice data 0 10) in Hc by lia. specialize (Hc ltac:(eauto with byte_db) eq_refl).
  assert (Hpos : 0 < sum (words (slice 0 10 data ++ [0; 0] ++ slice 12 (n - 12) data))).
  { rewrite words_app, sum_app by (apply even_zlen; by rewrite (length_slice data 0 10) by lia).
    rewrite <- (slice_join data 0 2 2 8 10), slice_2 by lia.
    pose proof (byte_range data 0 Hb) as Hb0. pose proof (byte_range data 1 Hb) as Hb1. unfold is_byte in *.
    pose proof (sum_range _ (words_range (slice 2 8 data) ltac:(eauto with byte_db))).
    pose proof (sum_range _ (words_range ([0; 0] ++ slice 12 (n - 12) data) ltac:(eauto with byte_db))).
    set (rest := sum (words ([0; 0] ++ _))) in *. clearbody rest.
    change (sum (words ([byte data 0; byte data (0 + 1)] ++ slice 2 8 data)))
      with (256 * byte data 0 + byte data 1 + sum (words (slice 2 8 data))).
    pose proof (Z.mod_pos_bound (byte data 0) 16). pose proof (Z.div_mod (byte data 0) 16). lia. }
  specialize (Hc Hpos). unfold be16. change (10 + 1) with 11.
  pose proof (byte_range data 10 Hb). pose proof (byte_range data 11 Hb). unfold is_byte in *.
  apply eq_true_iff_eq. rewrite andb_true_iff, negb_true_iff, Z.eqb_neq, !Z.eqb_eq, Hc.
  split; intros [H1 H2]; (split; [done|]).
  - intros E. apply H2. f_equal; [lia|f_equal; lia].
  - intros [= E1 E2]. lia.
Qed.

Lemma ipv4_check_ok data :
  bytes data ->
  ipv4_check data = Ret (if ipv4_valid data
    then Some (ipv4_header_of (slice 0 20 data), slice (header_len data) (be16 data 2 - header_len data) data)
    else None).
Proof.
  intros Hb. unfold ipv4_check, ipv4_valid, sizeof_ipv4_header.
  destruct (Z.ltb_spec (zlen data) 20), (Z.leb_spec 20 (zlen data)); try lia; [done|].
  rewrite load_Some by lia. cbn [of_option andb]. rewrite bind_Ret. cbv zeta.
  set (h := ipv4_header_of (slice 0 20 data)).
  assert (Hver : version4_ihl4 h = byte data 0).
  { unfold h. cbn [version4_ihl4 ipv4_header_of]. rewrite slice_slice by lia. change (0 + 0) with 0.
    rewrite slice_1 by lia. unfold le_val. lia. }
  destruct (ihl_version h _ (byte_range data 0 Hb) Hver) as [-> ->].
  pose proof (Z.mod_pos_bound (byte data 0) 16 ltac:(lia)) as Hm.
  rewrite u16_small by lia. replace (byte data 0 mod 16 * 4) with (header_len data) by (unfold header_len; lia).
  assert (Hhl : 0 <= header_len data <= 60) by (unfold header_len; lia).
  destruct (Z.eqb_spec (byte data 0 / 16) 4) as [Hv|]; cbn [negb andb]; [|done].
  destruct (Z.ltb_spec (header_len data) 20), (Z.leb_spec 20 (header_len data)); try lia; [done|]. cbn [andb].
  assert (Htl : ntoh16 (total_length h) = be16 data 2)
    by (unfold h; cbn [total_length ipv4_header_of]; rewrite slice_slice by lia; apply field16; [done|lia|lia]).
  rewrite Htl.
  destruct (Z.leb_spec (header_len data) (be16 data 2)), (Z.ltb_spec (be16 data 2) (header_len data)); try lia;
    cbn [andb]; [|by destruct (_ <? _)].
  destruct (Z.leb_spec (be16 data 2) (zlen data)), (Z.ltb_spec (zlen data) (be16 data 2)); try lia;
    cbn [andb]; [|by destruct (_ <? _)].
  destruct (Z.ltb_spec (zlen data) (header_len data)); [lia|].
  rewrite (load_Some data 20) by lia. cbn [of_option]. rewrite bind_Ret.
  destruct (ipv4_sum_ok data (header_len data) Hb ltac:(lia) ltac:(lia)) as (c & Ec & Hc); [|done|].
  { unfold header_len. replace (4 * (byte data 0 mod 16)) with (2 * (byte data 0 mod 16) * 2) by lia.
    by apply Z.mod_mul. }
  fold h in Ec. rewrite Ec, bind_Ret. cbn [checksum set_checksum].
  assert (Hck : checksum h = le_val (slice 10 2 data)) by (unfold h; cbn [checksum ipv4_header_of]; by rewrite slice_slice by lia).
  rewrite Hck, Hc. destruct (_ && _); cbn [negb]; [|done].
  rewrite load_Some by lia. cbn [of_option]. rewrite bind_Ret. rewrite <- Hck.
  by do 3 f_equal.
Qed.

Definition udp_valid (data : list Z) : bool :=
  (8 <=? zlen data) && (8 <=? be16 data 4) && (be16 data 4 <=? zlen data).

Lemma udp_check_ok data :
  bytes data ->
  udp_check data = Ret (if udp_valid data
    then Some (udp_header_of (slice 0 8 data), slice 8 (be16 data 4 - 8) data) else None).
Proof.
  intros Hb. unfold udp_check, udp_valid, sizeof_udp_header.
  destruct (Z.ltb_spec (zlen data) 8), (Z.leb_spec 8 (zlen data)); try lia; [done|].
  rewrite load_Some by lia. cbn [of_option andb]. rewrite bind_Ret. cbv zeta.
  assert (Hl : ntoh16 (length_ (udp_header_of (slice 0 8 data))) = be16 data 4)
    by (cbn [length_ udp_header_of]; rewrite slice_slice by lia; apply field16; [done|lia|lia]).
  rewrite Hl. replace (8 + (zlen data - 8)) with (zlen data) by lia.
  destruct (Z.ltb_spec (be16 data 4) 8), (Z.leb_spec 8 (be16 data 4)); try lia; [done|]. cbn [andb].
  destruct (Z.ltb_spec (zlen data) (be16 data 4)), (Z.leb_spec (be16 data 4) (zlen data)); try lia; [done|].
  by rewrite load_Some by lia.
Qed.

Definition ipv6_valid (data : list Z) : bool :=
  (40 <=? zlen data) && (byte data 0 / 16 =? 6) && (be16 data 4 <=? zlen data - 40).

Lemma ipv6_check_ok data :
  bytes data ->
  ipv6_check data = Ret (if ipv6_valid data
    then Some (ipv6_header_of (slice 0 40 data), slice 40 (be16 data 4) data) else None).
Proof.
  intros Hb. unfold ipv6_check, ipv6_valid, sizeof_ipv6_header.
  destruct (Z.ltb_spec (zlen data) 40), (Z.leb_spec 40 (zlen data)); try lia; [done|].
  rewrite load_Some by lia. cbn [of_option andb]. rewrite bind_Ret. cbv zeta.
  assert (Hv : Z.shiftr (ntoh8 (version4_tc4 (ipv6_header_of (slice 0 40 data)))) 4 = byte data 0 / 16).
  { cbn [version4_tc4 ipv6_header_of]. rewrite slice_slice by lia. change (0 + 0) with 0.
    rewrite slice_1, Z.shiftr_div_pow2 by lia. unfold ntoh8, hton8, le_val. f_equal. lia. }
  rewrite Hv. destruct (Z.eqb_spec (byte data 0 / 16) 6); cbn [negb andb]; [|done].
  assert (Hl : ntoh16 (payload_length (ipv6_header_of (slice 0 40 data))) = be16 data 4)
    by (cbn [payload_length ipv6_header_of]; rewrite slice_slice by lia; apply field16; [done|lia|lia]).
  rewrite Hl. destruct (Z.ltb_spec (zlen data - 40) (be16 data 4)), (Z.leb_spec (be16 data 4) (zlen data - 40));
    try lia; [done|].
  pose proof (byte_range data 4 Hb). pose proof (byte_range data (4 + 1) Hb). unfold is_byte, be16 in *.
  by rewrite load_Some by lia.
Qed.

(** *** Theorems *)

(** C29: the IPv4, IPv6 and UDP header checks read no byte outside the packet,
    return on every input, and accept exactly the packets whose version and
    lengths are consistent and whose IPv4 header has the one's complement sum
    [0xFFFF] (with the checksum field itself not [0xFFFF]); the payload they
    return is the part of the packet the lengths describe. *)
Theorem header_checks_exact data :
  bytes data ->
  ipv4_check data = Ret (if ipv4_valid data
    then Some (ipv4_header_of (slice 0 20 data), slice (header_len data) (be16 data 2 - header_len data) data)
    else None) /\
  ipv6_check data = Ret (if ipv6_valid data
    then Some (ipv6_header_of (slice 0 40 data), slice 40 (be16 data 4) data) else None) /\
  udp_check data = Ret (if udp_valid data
    then Some (udp_header_of (slice 0 8 data), slice 8 (be16 data 4 - 8) data) else None).
Proof. intros Hb. split; [by apply ipv4_check_ok|]. split; [by apply ipv6_check_ok|by apply udp_check_ok]. Qed.

(** A header with an option. *)
Definition option_packet : list Z :=
  [70; 0; 0; 26; 0; 0; 0; 0; 64; 17; 209; 204; 10; 0; 0; 1; 10; 0; 0; 2; 148; 4; 0; 0; 1; 2; 9].
Lemma header_checks_exact_witness :
  ipv4_valid option_packet = true /\
  ipv4_check option_packet = Ret (Some (ipv4_header_of (slice 0 20 option_packet), [1; 2])).
Proof.
  assert (Hb : bytes option_packet) by (repeat constructor; unfold is_byte; lia).
  destruct (header_checks_exact option_packet Hb) as [H _].
  split; [vm_compute; reflexivity|]. rewrite H. vm_compute. reflexivity.
Defined.

(** The checksum RFC 768 and RFC 8200 ask for: the complement of the sum, and
    [0xFFFF] where that is zero, since zero means that there is none. *)
Definition rfc_udp_checksum (l : list Z) : Z :=
  if ones_complement l =? 0 then 65535 else ones_complement l.

(** [udp_checksum] and [udp_ip6_checksum] sum the pseudo header, the UDP
    header and the payload without reading outside them and without overflow
    of the 32-bit sum, and return the complement of the one's complement sum
    of RFC 1071, padding an odd payload with zero. The value is the one RFC 768
    and RFC 8200 ask for except when the complement is zero: the code replaces
    a zero sum, which cannot occur, and not a zero complement, and returns
    zero where the RFCs ask for [0xFFFF]. *)
Theorem udp_checksum_exact h payload src dst src6 dst6 :
  bytes payload -> zlen payload <= 65527 ->
  bytes src6 -> bytes dst6 -> zlen src6 = 16 -> zlen dst6 = 16 ->
  udp_checksum h payload src dst = Ret (hton16 (ones_complement (pseudo4 src dst h payload))) /\
  udp_ip6_checksum h payload src6 dst6 = Ret (hton16 (ones_complement (pseudo6 src6 dst6 h payload))) /\
  (forall l c, c = ones_complement l ->
     c <> rfc_udp_checksum l <-> ones_sum (words l) = 65535 /\ c = 0).
Proof.
  intros Hp Hl Hs Hd Hls Hld. split; [by apply udp_checksum_ok|].
  split; [by apply udp_ip6_checksum_ok|]. intros l c ->. unfold rfc_udp_checksum.
  destruct (Z.eqb_spec (ones_complement l) 0) as [E|E]; unfold ones_complement in *; lia.
Qed.

(** A datagram whose sum is [0xFFFF]: the code asks for a zero checksum. *)
Lemma udp_checksum_exact_witness :
  udp_checksum (mkUdp 0 0 (hton16 10) 0) [255; 218] 0 0 = Ret 0 /\
  ones_complement (pseudo4 0 0 (mkUdp 0 0 (hton16 10) 0) [255; 218]) = 0 /\
  rfc_udp_checksum (pseudo4 0 0 (mkUdp 0 0 (hton16 10) 0) [255; 218]) = 65535.
Proof.
  assert (Hp : bytes [255; 218]) by (repeat constructor; unfold is_byte; lia).
  assert (Hz : bytes (repeat 0 16)) by (cbn; repeat constructor; unfold is_byte; lia).
  destruct (udp_checksum_exact (mkUdp 0 0 (hton16 10) 0) [255; 218] 0 0 (repeat 0 16) (repeat 0 16)
    Hp ltac:(cbn; lia) Hz Hz eq_refl eq_refl) as (H & _ & _).
  rewrite H. vm_compute. auto.
Defined.

End IpUdp.

(** ** The packet paths of tun2socks *)
Module Device.
Import ByteOrder Checksum IpUdp.

Inductive BAddr :=
| BADDR_TYPE_IPV4 (ip port : Z)
| BADDR_TYPE_IPV6 (ip : list Z) (port : Z).
#[export] Instance BAddr_eq_dec : EqDecision BAddr.
Proof. solve_decision. Defined.

(** The options and globals the packet paths read. *)
Record config := mkConfig {
  udpgw_remote_server_addr : bool;      (* a UDP gateway is given *)
  udpgw_transparent_dns : bool;
  netif_ip6addr : bool;                 (* IPv6 is enabled *)
  netif_ipaddr : Z;
  dnsgw : option (Z * Z);               (* address and port of the DNS gateway *)
  udp_mtu : Z;
  BTap_GetMTU : Z;
}.

(** *** The table of DNS queries *)
Record Connection := mkConnection {
  local_addr : BAddr;
  remote_addr : BAddr;
  port : Z;
  count : Z;
}.

(** The search tree of the connections, ordered by port, and whether it was
    initialised. *)
Record dns_state := mkDns { init : bool; connections_tree : gmap Z Connection }.

Definition find_connection (t : gmap Z Connection) (port : Z) : option Connection := t !! port.

Definition remove_connection (t : gmap Z Connection) (con : Connection) : gmap Z Connection :=
  let con := mkConnection (local_addr con) (remote_addr con) (port con) (s32 (count con - 1)) in
  if count con <=? 0 then delete (port con) t else <[port con := con]> t.

(** [mem]: [malloc] succeeds. Its result is written to without a check. *)
Definition insert_connection (mem : bool) (t : gmap Z Connection) (local remote : BAddr) (port : Z) :
    cres (gmap Z Connection) :=
  match find_connection t port with
  | Some con =>
      Ret (<[port := mkConnection (local_addr con) (remote_addr con) (Device.port con)
                       (s32 (count con + 1))]> t)
  | None => if mem then Ret (<[port := mkConnection local remote port 1]> t) else Undef
  end.

(** *** Packets from the device *)

(** [data_len > 0 ? data[0] >> 4 : 0] *)
Definition ip_version (data : list Z) : cres Z :=
  if 0 <? zlen data then b ← of_option (get data 0); Ret (Z.shiftr b 4) else Ret 0.

(** The test for a protocol field at [off] of a header of [size] bytes. *)
Definition has_protocol (data : list Z) (size off proto : Z) : cres bool :=
  if zlen data <? size then Ret false
  else b ← of_option (get data off); Ret (b =? proto).

(** What both functions do with an IPv4 packet: check the headers and the UDP
    checksum. *)
Definition parse_udp4 (data : list Z) : cres (option (ipv4_header * udp_header * list Z)) :=
  is_udp ← has_protocol data sizeof_ipv4_header 9 IPV4_PROTOCOL_UDP;
  if negb (is_udp : bool) then Ret None
  else
    r ← ipv4_check data;
    match r with
    | None => Ret None
    | Some (ipv4_header, data) =>
        r ← udp_check data;
        match r with
        | None => Ret None
        | Some (udp_header, data) =>
            let checksum_in_packet := udp_checksum_ udp_header in
            let udp_header := set_udp_checksum udp_header 0 in
            checksum_computed ← udp_checksum udp_header data (source_address ipv4_header)
                                  (destination_address ipv4_header);
            if negb (checksum_in_packet =? checksum_computed) then Ret None
            else Ret (Some (ipv4_header, udp_header, data))
        end
    end.

Definition parse_udp6 (data : list Z) : cres (option (ipv6_header * udp_header * list Z)) :=
  is_udp ← has_protocol data sizeof_ipv6_header 6 IPV6_NEXT_UDP;
  if negb (is_udp : bool) then Ret None
  else
    r ← ipv6_check data;
    match r with
    | None => Ret None
    | Some (ipv6_header, data) =>
        r ← udp_check data;
        match r with
        | None => Ret None
        | Some (udp_header, data) =>
            let checksum_in_packet := udp_checksum_ udp_header in
            let udp_header := set_udp_checksum udp_header 0 in
            checksum_computed ← udp_ip6_checksum udp_header data (source_address6 ipv6_header)
                                  (destination_address6 ipv6_header);
            if negb (checksum_in_packet =? checksum_computed) then Ret None
            else Ret (Some (ipv6_header, udp_header, data))
        end
    end.

(** The arguments of [SocksUdpGwClient_SubmitPacket]. *)
Record submission := mkSubmission {
  s_local : BAddr;
  s_remote : BAddr;
  s_is_dns : bool;
  s_data : list Z;
}.

Definition process_device_udp_packet (c : config) (data : list Z) : cres (option submission) :=
  if negb (udpgw_remote_server_addr c) then Ret None
  else
    v ← ip_version data;
    r ← (if v =? 4 then
           r ← parse_udp4 data;
           match r with
           | None => Ret None
           | Some (iph, udph, data) =>
               Ret (Some (mkSubmission
                 (BADDR_TYPE_IPV4 (source_address iph) (source_port udph))
                 (BADDR_TYPE_IPV4 (destination_address iph) (dest_port udph))
                 (udpgw_transparent_dns c && (destination_address iph =? netif_ipaddr c) &&
                  (dest_port udph =? hton16 53))
                 data))
           end
         else if v =? 6 then
           if negb (netif_ip6addr c) then Ret None
           else
             r ← parse_udp6 data;
             match r with
             | None => Ret None
             | Some (iph, udph, data) =>
                 Ret (Some (mkSubmission
                   (BADDR_TYPE_IPV6 (source_address6 iph) (source_port udph))
                   (BADDR_TYPE_IPV6 (destination_address6 iph) (dest_port udph))
                   false data))
             end
         else Ret None);
    match r with
    | None => Ret None
    | Some s => if udp_mtu c <? zlen (s_data s) then Ret None else Ret (Some s)
    end.

(** Write a packet into [device_write_buf]; what is sent are its first bytes. *)
Definition write_packet (buf iph udph data : list Z) : cres (list Z * list Z) :=
  buf ← of_option (store buf 0 iph);
  buf ← of_option (store buf (zlen iph) udph);
  buf ← of_option (store buf (zlen iph + zlen udph) data);
  packet ← of_option (load buf 0 (zlen iph + zlen udph + zlen data));
  Ret (buf, packet).

(** The translated headers and the table after it, or failure. The table holds
    only the IPv4 addresses this function puts there. *)
Definition translate (gw_ip gw_port netif : Z) (mem : bool) (st : dns_state) (iph : ipv4_header)
    (udph : udp_header) : cres (option (dns_state * ipv4_header * udp_header)) :=
  let to_dns := dest_port udph =? hton16 53 in
  let from_dns := source_port udph =? gw_port in
  if to_dns then
    let tree := if init st then connections_tree st else ∅ in
    let local := BADDR_TYPE_IPV4 (source_address iph) (source_port udph) in
    let remote := BADDR_TYPE_IPV4 (destination_address iph) (dest_port udph) in
    tree ← insert_connection mem tree local remote (source_port udph);
    Ret (Some (mkDns true tree, set_addresses iph netif gw_ip,
               mkUdp (source_port udph) gw_port (length_ udph) (udp_checksum_ udph)))
  else if from_dns then
    if negb (init st) then Ret None
    else match find_connection (connections_tree st) (dest_port udph) with
         | Some con =>
             match remote_addr con, local_addr con with
             | BADDR_TYPE_IPV4 rip rport, BADDR_TYPE_IPV4 lip _ =>
                 Ret (Some (mkDns true (remove_connection (connections_tree st) con),
                            set_addresses iph rip lip,
                            mkUdp rport (dest_port udph) (length_ udph) (udp_checksum_ udph)))
             | _, _ => Ret None
             end
         | None => Ret None
         end
  else Ret None.

(** Update both checksums and write the packet. *)
Definition finish_packet (buf : list Z) (iph : ipv4_header) (udph : udp_header) (data : list Z) :
    cres (list Z * list Z) :=
  let iph := set_checksum iph (hton16 0) in
  ck ← ipv4_checksum iph [];
  let iph := set_checksum iph ck in
  let udph := set_udp_checksum udph (hton16 0) in
  ck ← udp_checksum udph data (source_address iph) (destination_address iph);
  let udph := set_udp_checksum udph ck in
  write_packet buf (ipv4_header_bytes iph) (udp_header_bytes udph) data.

(** The state, the buffer, and the packet that is sent back to the device. *)
Definition process_device_dns_packet (c : config) (mem : bool) (st : dns_state) (buf data : list Z) :
    cres (dns_state * list Z * option (list Z)) :=
  match dnsgw c with
  | None => Ret (st, buf, None)
  | Some (gw_ip, gw_port) =>
      v ← ip_version data;
      if v =? 4 then
        r ← parse_udp4 data;
        match r with
        | None => Ret (st, buf, None)
        | Some (iph, udph, data) =>
            r ← translate gw_ip gw_port (netif_ipaddr c) mem st iph udph;
            match r with
            | None => Ret (st, buf, None)
            | Some (st, iph, udph) =>
                '(buf, packet) ← finish_packet buf iph udph data;
                Ret (st, buf, Some packet)
            end
        end
      else Ret (st, buf, None)
  end.

(** What becomes of a packet from the device. *)
Inductive device_action :=
| ToDevice (packet : list Z)
| ToUdpGw (s : submission)
| ToStack (packet : list Z)
| Dropped.

(** [mem]: [malloc] succeeds; [pbuf_ok]: [pbuf_alloc] succeeds. *)
Definition device_read_handler_send (c : config) (mem pbuf_ok : bool) (st : dns_state) (buf data : list Z) :
    cres (dns_state * list Z * device_action) :=
  '(st, buf, sent) ← process_device_dns_packet c mem st buf data;
  match sent with
  | Some packet => Ret (st, buf, ToDevice packet)
  | None =>
      r ← process_device_udp_packet c data;
      match r with
      | Some s => Ret (st, buf, ToUdpGw s)
      | None =>
          if 65535 <? zlen data then Ret (st, buf, Dropped)
          else if negb pbuf_ok then Ret (st, buf, Dropped)
          else Ret (st, buf, ToStack data)
      end
  end.

(** *** Packets from the UDP gateway *)
Definition udpgw_client_handler_received (c : config) (buf : list Z) (local remote : BAddr)
    (data : list Z) : cres (list Z * option (list Z)) :=
  let data_len := zlen data in
  _ ← assert (udpgw_remote_server_addr c);
  match local, remote with
  | BADDR_TYPE_IPV4 lip lport, BADDR_TYPE_IPV4 rip rport =>
      if (65535 - (sizeof_ipv4_header + sizeof_udp_header) <? data_len) ||
         (BTap_GetMTU c - (sizeof_ipv4_header + sizeof_udp_header) <? data_len)
      then Ret (buf, None)
      else
        let iph := mkIpv4 (IPV4_MAKE_VERSION_IHL sizeof_ipv4_header) (hton8 0)
                     (hton16 (sizeof_ipv4_header + sizeof_udp_header + data_len)) (hton16 0) (hton16 0)
                     (hton8 64) (hton8 IPV4_PROTOCOL_UDP) (hton16 0) rip lip in
        ck ← ipv4_checksum iph [];
        let iph := set_checksum iph ck in
        let udph := mkUdp rport lport (hton16 (sizeof_udp_header + data_len)) (hton16 0) in
        ck ← udp_checksum udph data (source_address iph) (destination_address iph);
        let udph := set_udp_checksum udph ck in
        '(buf, packet) ← write_packet buf (ipv4_header_bytes iph) (udp_header_bytes udph) data;
        Ret (buf, Some packet)
  | BADDR_TYPE_IPV6 lip lport, BADDR_TYPE_IPV6 rip rport =>
      if negb (netif_ip6addr c) then Ret (buf, None)
      else if (65535 - sizeof_udp_header <? data_len) ||
         (BTap_GetMTU c - (sizeof_ipv6_header + sizeof_udp_header) <? data_len)
      then Ret (buf, None)
      else
        let iph := mkIpv6 (hton8 (Z.shiftl 6 4)) (hton8 0) (hton16 0)
                     (hton16 (sizeof_udp_header + data_len)) (hton8 IPV6_NEXT_UDP) (hton8 64) rip lip in
        let udph := mkUdp rport lport (hton16 (sizeof_udp_header + data_len)) (hton16 0) in
        ck ← udp_ip6_checksum udph data (source_address6 iph) (destination_address6 iph);
        let udph := set_udp_checksum udph ck in
        '(buf, packet) ← write_packet buf (ipv6_header_bytes iph) (udp_header_bytes udph) data;
        Ret (buf, Some packet)
  | _, _ => Undef
  end.

(** *** Valid UDP packets *)

#[local] Hint Resolve bytes_slice bytes_udp_header bytes_ipv4_header : byte_db.
#[local] Hint Extern 1 (is_byte _) => (unfold is_byte; lia) : byte_db.

(** The pseudo header [pre] and the UDP segment [p] sum to [0xFFFF], and the
    checksum is not [0xFFFF]. *)
Definition segment_sum (pre p : list Z) : bool :=
  (ones_sum (words (pre ++ slice 0 (be16 p 4) p)) =? 65535) && negb (be16 p 6 =? 65535).

Lemma cleared_udp p : bytes p -> 8 <= zlen p ->
  udp_header_bytes (set_udp_checksum (udp_header_of (slice 0 8 p)) 0) = slice 0 6 p ++ [0; 0].
Proof.
  intros Hb Hl. unfold udp_header_bytes, set_udp_checksum, udp_header_of.
  cbn [source_port dest_port length_ udp_checksum_]. change (le_bytes 2 0) with [0; 0].
  assert (Hll : zlen (slice 0 8 p) = 8) by (apply length_slice; lia).
  rewrite !le_field by first [done | lia | eauto with byte_db]. rewrite !slice_slice by lia.
  change (0 + 0) with 0. change (0 + 2) with 2. change (0 + 4) with 4.
  by rewrite (slice_join_app p _ 2 2 4 2 4), (slice_join_app p _ 0 2 2 4 6) by lia.
Qed.

Lemma segment_compare pre p :
  bytes pre -> bytes p -> zlen pre mod 2 = 0 -> 0 < sum (words pre) -> udp_valid p = true ->
  (udp_checksum_ (udp_header_of (slice 0 8 p)) =?
   hton16 (ones_complement ((pre ++ udp_header_bytes (set_udp_checksum (udp_header_of (slice 0 8 p)) 0)) ++
                            slice 8 (be16 p 4 - 8) p))) = segment_sum pre p.
Proof.
  unfold udp_valid. intros Hpre Hp He Hpos Hv. rewrite !andb_true_iff, !Z.leb_le in Hv.
  rewrite cleared_udp by (done || lia). cbn [udp_checksum_ udp_header_of].
  rewrite slice_slice, slice_2 by lia. change (0 + 6) with 6. change (6 + 1) with 7.
  rewrite <- !app_assoc. rewrite (app_assoc pre).
  assert (Hw : pre ++ slice 0 (be16 p 4) p =
    (pre ++ slice 0 6 p) ++ [byte p 6; byte p 7] ++ slice 8 (be16 p 4 - 8) p).
  { change [byte p 6; byte p 7] with [byte p 6; byte p (6 + 1)]. rewrite <- slice_2 by lia.
    rewrite <- app_assoc. by rewrite (slice_join p 6 2 8 (be16 p 4 - 8) (be16 p 4 - 6)),
      (slice_join p 0 6 6 (be16 p 4 - 6) (be16 p 4)) by lia. }
  unfold segment_sum. rewrite Hw.
  assert (H6 : zlen (slice 0 6 p) = 6) by (apply length_slice; lia).
  assert (He' : zlen (pre ++ slice 0 6 p) mod 2 = 0)
    by (rewrite length_app, Nat2Z.inj_add, H6, Z.add_mod, He by lia; done).
  pose proof (byte_range p 6 Hp) as B6. pose proof (byte_range p 7 Hp) as B7.
  pose proof (checksum_field (pre ++ slice 0 6 p) (byte p 6) (byte p 7) (slice 8 (be16 p 4 - 8) p)
    ltac:(eauto 10 with byte_db) He') as Hc.
  assert (Hs : 0 < sum (words ((pre ++ slice 0 6 p) ++ [0; 0] ++ slice 8 (be16 p 4 - 8) p))).
  { rewrite <- app_assoc, words_app, sum_app by (by apply even_zlen).
    pose proof (sum_range _ (words_range (slice 0 6 p ++ [0; 0] ++ slice 8 (be16 p 4 - 8) p)
      ltac:(eauto 10 with byte_db))). lia. }
  specialize (Hc Hs). change (be16 p 6) with (256 * byte p 6 + byte p 7). unfold is_byte in *.
  apply eq_true_iff_eq. rewrite andb_true_iff, negb_true_iff, Z.eqb_neq, !Z.eqb_eq, Hc.
  split; intros [H1 H2]; (split; [done|]).
  - intros E. apply H2. f_equal; [lia|f_equal; lia].
  - intros [= E1 E2]. lia.
Qed.

(** The payload of an IPv4 packet, the pseudo headers, and valid packets. *)
Definition payload4 (data : list Z) : list Z :=
  slice (header_len data) (be16 data 2 - header_len data) data.
Definition payload6 (data : list Z) : list Z := slice 40 (be16 data 4) data.
Definition pre4 (data p : list Z) : list Z := slice 12 8 data ++ [0; 17] ++ slice 4 2 p.
Definition pre6 (data p : list Z) : list Z := slice 8 32 data ++ [0; 0] ++ slice 4 2 p ++ [0; 0; 0; 17].

Definition udp4_valid (data : list Z) : bool :=
  (20 <=? zlen data) && (byte data 9 =? 17) && ipv4_valid data && udp_valid (payload4 data) &&
  segment_sum (pre4 data (payload4 data)) (payload4 data).
Definition udp6_valid (data : list Z) : bool :=
  (40 <=? zlen data) && (byte data 6 =? 17) && ipv6_valid data && udp_valid (payload6 data) &&
  segment_sum (pre6 data (payload6 data)) (payload6 data).

Definition udp_payload (p : list Z) : list Z := slice 8 (be16 p 4 - 8) p.

Lemma has_protocol_ok data size off proto :
  0 <= off < size -> has_protocol data size off proto =
  Ret ((size <=? zlen data) && (byte data off =? proto)).
Proof.
  intros Ho. unfold has_protocol. destruct (Z.ltb_spec (zlen data) size), (Z.leb_spec size (zlen data));
    try lia; [done|]. cbn [andb]. destruct (get_Some data off) as [x Hx]; [lia|].
  unfold byte. by rewrite Hx.
Qed.
Lemma ip_version_ok data : bytes data -> ip_version data = Ret (byte data 0 / 16).
Proof.
  intros Hb. unfold ip_version, byte. destruct data as [|b data]; [done|].
  rewrite get_cons_0. cbn [length]. destruct (Z.ltb_spec 0 (Z.of_nat (S (length data)))); [|lia].
  cbn [of_option default]. by rewrite bind_Ret, Z.shiftr_div_pow2 by lia.
Qed.

Lemma be_bytes_be16 p i : bytes p -> 0 <= i -> i + 1 < zlen p -> be_bytes 2 (be16 p i) = slice i 2 p.
Proof.
  intros Hb H1 H2. rewrite slice_2 by done. unfold be16.
  pose proof (byte_range p i Hb). pose proof (byte_range p (i + 1) Hb). unfold is_byte in *.
  rewrite <- (be_bytes_val [byte p i; byte p (i + 1)]) by eauto with byte_db.
  f_equal. unfold be_val. cbn [rev app le_val]. lia.
Qed.

Lemma be16_range p i : bytes p -> 0 <= be16 p i < 2 ^ 16.
Proof.
  intros Hb. pose proof (byte_range p i Hb). pose proof (byte_range p (i + 1) Hb).
  unfold is_byte, be16 in *. lia.
Qed.
Lemma be_bytes_wide x : 0 <= x < 2 ^ 16 -> be_bytes 4 x = [0; 0] ++ be_bytes 2 x.
Proof.
  intros Hx. unfold be_bytes. cbn [le_bytes rev app].
  rewrite (Z.div_div x 256 256), (Z.div_small x (256 * 256)) by lia. done.
Qed.
Lemma valid_lengths p : bytes p -> udp_valid p = true ->
  8 <= be16 p 4 <= zlen p /\ zlen (udp_payload p) = be16 p 4 - 8 /\ zlen (udp_payload p) <= 65527.
Proof.
  unfold udp_valid. intros Hb Hv. rewrite !andb_true_iff, !Z.leb_le in Hv. pose proof (be16_range p 4 Hb).
  unfold udp_payload. rewrite length_slice by lia. lia.
Qed.

Lemma sum_pre4 data p : bytes data -> bytes p -> 20 <= zlen data -> 8 <= zlen p ->
  zlen (pre4 data p) mod 2 = 0 /\ 0 < sum (words (pre4 data p)).
Proof.
  intros Hd Hp Hl Hlp. unfold pre4. pose proof (length_slice data 12 8). pose proof (length_slice p 4 2).
  split; [rewrite !length_app, !Nat2Z.inj_add, H, H0 by lia; done|].
  rewrite !words_app, !sum_app by (apply even_zlen; rewrite ?H by lia; done).
  pose proof (sum_range _ (words_range (slice 12 8 data) ltac:(eauto with byte_db))).
  pose proof (sum_range _ (words_range (slice 4 2 p) ltac:(eauto with byte_db))).
  change (sum (words [0; 17])) with 17. lia.
Qed.
Lemma sum_pre6 data p : bytes data -> bytes p -> 40 <= zlen data -> 8 <= zlen p ->
  zlen (pre6 data p) mod 2 = 0 /\ 0 < sum (words (pre6 data p)).
Proof.
  intros Hd Hp Hl Hlp. unfold pre6. pose proof (length_slice data 8 32). pose proof (length_slice p 4 2).
  split; [rewrite !length_app, !Nat2Z.inj_add, H, H0 by lia; done|].
  rewrite !words_app, !sum_app by (apply even_zlen; rewrite ?H, ?H0 by lia; done).
  pose proof (sum_range _ (words_range (slice 8 32 data) ltac:(eauto with byte_db))).
  pose proof (sum_range _ (words_range (slice 4 2 p) ltac:(eauto with byte_db))).
  change (sum (words [0; 0])) with 0. change (sum (words [0; 0; 0; 17])) with 17. lia.
Qed.

(** The pseudo headers of the code are those of the packet. *)
Lemma pseudo4_pre4 data p :
  bytes data -> 20 <= zlen data -> bytes p -> udp_valid p = true ->
  pseudo4 (source_address (ipv4_header_of (slice 0 20 data)))
      (destination_address (ipv4_header_of (slice 0 20 data)))
      (set_udp_checksum (udp_header_of (slice 0 8 p)) 0) (udp_payload p) =
  (pre4 data p ++ udp_header_bytes (set_udp_checksum (udp_header_of (slice 0 8 p)) 0)) ++ udp_payload p.
Proof.
  intros Hb Hl Hp Hv. destruct (valid_lengths p Hp Hv) as (H1 & H2 & H3).
  unfold pseudo4, pre4. f_equal. cbn [source_address destination_address ipv4_header_of].
  rewrite !slice_slice by lia. change (0 + 12) with 12. change (0 + 16) with 16.
  rewrite !le_field by first [done | lia]. rewrite H2. replace (8 + (be16 p 4 - 8)) with (be16 p 4) by lia.
  rewrite be_bytes_be16 by (done || lia). rewrite <- !app_assoc.
  by rewrite (slice_join_app data _ 12 4 16 4 8) by lia.
Qed.
Lemma pseudo6_pre6 data p :
  40 <= zlen data -> bytes p -> udp_valid p = true ->
  pseudo6 (slice 8 16 data) (slice 24 16 data)
      (set_udp_checksum (udp_header_of (slice 0 8 p)) 0) (udp_payload p) =
  (pre6 data p ++ udp_header_bytes (set_udp_checksum (udp_header_of (slice 0 8 p)) 0)) ++ udp_payload p.
Proof.
  intros Hl Hp Hv. destruct (valid_lengths p Hp Hv) as (H1 & H2 & H3).
  unfold pseudo6, pre6. f_equal. rewrite H2. replace (8 + (be16 p 4 - 8)) with (be16 p 4) by lia.
  rewrite be_bytes_wide, be_bytes_be16 by first [done | lia | by apply be16_range]. rewrite <- !app_assoc.
  by rewrite (slice_join_app data _ 8 16 24 16 32) by lia.
Qed.

Lemma parse_udp4_ok data :
  bytes data ->
  parse_udp4 data = Ret (if udp4_valid data
    then Some (ipv4_header_of (slice 0 20 data),
               set_udp_checksum (udp_header_of (slice 0 8 (payload4 data))) 0, udp_payload (payload4 data))
    else None).
Proof.
  intros Hb. unfold parse_udp4, udp4_valid, sizeof_ipv4_header, IPV4_PROTOCOL_UDP.
  rewrite has_protocol_ok, bind_Ret by lia.
  destruct (Z.leb_spec 20 (zlen data)); cbn [andb negb]; [|done].
  destruct (byte data 9 =? 17); cbn [andb negb]; [|done].
  rewrite ipv4_check_ok, bind_Ret by done. destruct (ipv4_valid data); cbn [andb]; [|done].
  fold (payload4 data). set (p := payload4 data).
  assert (Hp : bytes p) by (unfold p, payload4; eauto with byte_db).
  rewrite udp_check_ok, bind_Ret by done. destruct (udp_valid p) eqn:Hv; cbn [andb]; [|done].
  destruct (valid_lengths p Hp Hv) as (H1 & H2 & H3). fold (udp_payload p).
  rewrite udp_checksum_ok, bind_Ret by (unfold udp_payload in *; first [lia | eauto with byte_db]).
  pose proof (pseudo4_pre4 data p Hb ltac:(lia) Hp Hv) as E.
  rewrite E. destruct (sum_pre4 data p Hb Hp ltac:(lia) ltac:(lia)).
  unfold udp_payload. rewrite segment_compare; [|unfold pre4; eauto 10 with byte_db|done|done|done|done].
  by destruct (segment_sum _ _).
Qed.

Lemma parse_udp6_ok data :
  bytes data ->
  parse_udp6 data = Ret (if udp6_valid data
    then Some (ipv6_header_of (slice 0 40 data),
               set_udp_checksum (udp_header_of (slice 0 8 (payload6 data))) 0, udp_payload (payload6 data))
    else None).
Proof.
  intros Hb. unfold parse_udp6, udp6_valid, sizeof_ipv6_header, IPV6_NEXT_UDP.
  rewrite has_protocol_ok, bind_Ret by lia.
  destruct (Z.leb_spec 40 (zlen data)); cbn [andb negb]; [|done].
  destruct (byte data 6 =? 17); cbn [andb negb]; [|done].
  rewrite ipv6_check_ok, bind_Ret by done. destruct (ipv6_valid data); cbn [andb]; [|done].
  fold (payload6 data). set (p := payload6 data).
  assert (Hp : bytes p) by (unfold p, payload6; eauto with byte_db).
  rewrite udp_check_ok, bind_Ret by done. destruct (udp_valid p) eqn:Hv; cbn [andb]; [|done].
  destruct (valid_lengths p Hp Hv) as (H1 & H2 & H3). fold (udp_payload p).
  cbn [source_address6 destination_address6 ipv6_header_of]. rewrite !slice_slice by lia.
  change (0 + 8) with 8. change (0 + 24) with 24.
  pose proof (length_slice data 8 16). pose proof (length_slice data 24 16).
  rewrite udp_ip6_checksum_ok, bind_Ret by (unfold udp_payload in *; first [lia | eauto with byte_db]).
  pose proof (pseudo6_pre6 data p ltac:(lia) Hp Hv) as E.
  rewrite E. destruct (sum_pre6 data p Hb Hp ltac:(lia) ltac:(lia)).
  unfold udp_payload. rewrite segment_compare; [|unfold pre6; eauto 15 with byte_db|done|done|done|done].
  by destruct (segment_sum _ _).
Qed.

(** *** The handler for UDP packets *)

Definition port_at (p : list Z) (i : Z) : Z := le_val (slice i 2 p).
Definition addr4_at (data : list Z) (i : Z) : Z := le_val (slice i 4 data).

(** What [process_device_udp_packet] must do with a packet. *)
Definition submission4 (c : config) (data : list Z) : submission :=
  let p := payload4 data in
  mkSubmission (BADDR_TYPE_IPV4 (addr4_at data 12) (port_at p 0))
    (BADDR_TYPE_IPV4 (addr4_at data 16) (port_at p 2))
    (udpgw_transparent_dns c && (addr4_at data 16 =? netif_ipaddr c) && (port_at p 2 =? hton16 53))
    (udp_payload p).
Definition submission6 (data : list Z) : submission :=
  let p := payload6 data in
  mkSubmission (BADDR_TYPE_IPV6 (slice 8 16 data) (port_at p 0))
    (BADDR_TYPE_IPV6 (slice 24 16 data) (port_at p 2)) false (udp_payload p).
Definition udp_spec (c : config) (data : list Z) : option submission :=
  let v := byte data 0 / 16 in
  let s := if (v =? 4) && udp4_valid data then Some (submission4 c data)
           else if (v =? 6) && netif_ip6addr c && udp6_valid data then Some (submission6 data)
           else None in
  match s with
  | Some s => if udpgw_remote_server_addr c && (zlen (s_data s) <=? udp_mtu c) then Some s else None
  | None => None
  end.

Lemma udp_ports p : 8 <= zlen p ->
  source_port (udp_header_of (slice 0 8 p)) = port_at p 0 /\
  dest_port (udp_header_of (slice 0 8 p)) = port_at p 2.
Proof. intros Hl. cbn [source_port dest_port udp_header_of]. by rewrite !slice_slice by lia. Qed.
Lemma udp4_valid_len data : udp4_valid data = true -> 20 <= zlen data /\ 8 <= zlen (payload4 data).
Proof. unfold udp4_valid, udp_valid. rewrite !andb_true_iff, !Z.leb_le. tauto. Qed.
Lemma udp6_valid_len data : udp6_valid data = true -> 40 <= zlen data /\ 8 <= zlen (payload6 data).
Proof. unfold udp6_valid, udp_valid. rewrite !andb_true_iff, !Z.leb_le. tauto. Qed.

Lemma process_udp_ok c data :
  bytes data -> process_device_udp_packet c data = Ret (udp_spec c data).
Proof.
  intros Hb. unfold process_device_udp_packet, udp_spec.
  destruct (udpgw_remote_server_addr c); cbn [negb andb].
  2: { by destruct (_ && _); [|destruct (_ && _)]. }
  rewrite ip_version_ok, bind_Ret by done.
  assert (Hmtu : forall s, (if udp_mtu c <? zlen (s_data s) then Ret None else Ret (Some s)) =
    Ret (if zlen (s_data s) <=? udp_mtu c then Some s else None)).
  { intros s. destruct (Z.ltb_spec (udp_mtu c) (zlen (s_data s))), (Z.leb_spec (zlen (s_data s)) (udp_mtu c)); done || lia. }
  destruct (Z.eqb_spec (byte data 0 / 16) 4) as [->|H4]; cbn [andb].
  - rewrite parse_udp4_ok, bind_Ret by done. destruct (udp4_valid data) eqn:Ev; [|done].
    rewrite bind_Ret. destruct (udp4_valid_len _ Ev) as [Hl Hp]. destruct (udp_ports _ Hp) as [Ep Ed].
    cbn [source_port dest_port set_udp_checksum]. rewrite Ep, Ed.
    cbn [source_address destination_address ipv4_header_of]. rewrite !slice_slice by lia. apply Hmtu.
  - destruct (Z.eqb_spec (byte data 0 / 16) 6) as [_|_]; cbn [andb]; [|done].
    destruct (netif_ip6addr c); cbn [negb andb]; [|done].
    rewrite parse_udp6_ok, bind_Ret by done. destruct (udp6_valid data) eqn:Ev; [|done].
    rewrite bind_Ret. destruct (udp6_valid_len _ Ev) as [Hl Hp]. destruct (udp_ports _ Hp) as [Ep Ed].
    cbn [source_port dest_port set_udp_checksum]. rewrite Ep, Ed.
    cbn [source_address6 destination_address6 ipv6_header_of]. rewrite !slice_slice by lia. apply Hmtu.
Qed.

(** *** Packets that are built *)

Record wf4 (h : ipv4_header) : Prop := {
  w_version : 0 <= version4_ihl4 h < 2 ^ 8;
  w_ds : 0 <= ds h < 2 ^ 8;
  w_total : 0 <= total_length h < 2 ^ 16;
  w_id : 0 <= identification h < 2 ^ 16;
  w_flags : 0 <= flags3_fragmentoffset13 h < 2 ^ 16;
  w_ttl : 0 <= ttl h < 2 ^ 8;
  w_protocol : 0 <= protocol h < 2 ^ 8;
  w_checksum : 0 <= checksum h < 2 ^ 16;
  w_source : 0 <= source_address h < 2 ^ 32;
  w_destination : 0 <= destination_address h < 2 ^ 32;
}.
Record wfu (h : udp_header) : Prop := {
  w_sport : 0 <= source_port h < 2 ^ 16;
  w_dport : 0 <= dest_port h < 2 ^ 16;
  w_length : 0 <= length_ h < 2 ^ 16;
  w_uchecksum : 0 <= udp_checksum_ h < 2 ^ 16;
}.

Lemma le_val_small n v : 0 <= v < 256 ^ Z.of_nat n -> le_val (le_bytes n v) = v.
Proof. intros H. rewrite le_val_bytes. by apply Z.mod_small. Qed.

Lemma ipv4_header_of_bytes h : wf4 h -> ipv4_header_of (ipv4_header_bytes h) = h.
Proof.
  intros []. destruct h. cbn in *. unfold ipv4_header_of.
  f_equal; match goal with |- _ = ?x =>
    first [apply (le_val_small 1 x) | apply (le_val_small 2 x) | apply (le_val_small 4 x)]; cbn; lia end.
Qed.
Lemma udp_header_of_bytes h : wfu h -> udp_header_of (udp_header_bytes h) = h.
Proof.
  intros []. destruct h. cbn in *. unfold udp_header_of.
  f_equal; match goal with |- _ = ?x =>
    first [apply (le_val_small 1 x) | apply (le_val_small 2 x) | apply (le_val_small 4 x)]; cbn; lia end.
Qed.

(** A packet put together from headers with the right lengths and checksums. *)
Lemma slice_front {A} (a b : list A) n : zlen a = n -> slice 0 n (a ++ b) = a.
Proof. intros <-. unfold slice. rewrite drop_0, Nat2Z.id. apply take_app_length. Qed.
Lemma slice_behind {A} (a b : list A) o n : zlen a = o -> n = zlen b -> slice o n (a ++ b) = b.
Proof.
  intros <- ->. unfold slice. rewrite !Nat2Z.id, drop_app_length. by apply take_ge.
Qed.
Lemma slice_left {A} (a b : list A) o n : 0 <= o -> 0 <= n -> o + n <= zlen a ->
  slice o n (a ++ b) = slice o n a.
Proof.
  intros H1 H2 H3. unfold slice. rewrite drop_app_le, take_app_le by llia. done.
Qed.
Lemma byte_left a b i : 0 <= i < zlen a -> byte (a ++ b) i = byte a i.
Proof. intros Hi. unfold byte. by rewrite get_app_l by lia. Qed.
Lemma be16_left a b i : 0 <= i -> i + 1 < zlen a -> be16 (a ++ b) i = be16 a i.
Proof. intros H1 H2. unfold be16. by rewrite !byte_left by lia. Qed.
Lemma be16_field l i : bytes l -> 0 <= i -> i + 1 < zlen l -> be16 l i = ntoh16 (le_val (slice i 2 l)).
Proof. intros. by rewrite field16. Qed.

Lemma built_udp_valid udph data :
  wfu udph -> bytes data -> length_ udph = hton16 (8 + zlen data) -> zlen data <= 65527 ->
  let p := udp_header_bytes udph ++ data in
  udp_valid p = true /\ udp_header_of (slice 0 8 p) = udph /\ udp_payload p = data /\
  be16 p 4 = 8 + zlen data.
Proof.
  intros Hw Hd Hlen Hl p. pose proof (length_udp_header_bytes udph) as Hh.
  assert (E4 : be16 p 4 = 8 + zlen data).
  { unfold p. rewrite be16_left by lia. rewrite be16_field by (done || lia || apply bytes_udp_header).
    change (slice 4 2 (udp_header_bytes udph)) with (le_bytes 2 (length_ udph)).
    rewrite le_val_small, Hlen, hton16_val by (cbn; try apply Hw; lia). done. }
  assert (Hpl : zlen p = 8 + zlen data) by (unfold p; llia).
  split; [unfold udp_valid; rewrite E4, Hpl; lia|].
  split; [unfold p; rewrite slice_front by done; by apply udp_header_of_bytes|]. split; [|done].
  unfold udp_payload. rewrite E4. by apply slice_behind; [|lia].
Qed.

Record good4 (iph : ipv4_header) (udph : udp_header) (data : list Z) : Prop := {
  g_ip : wf4 iph;
  g_udp : wfu udph;
  g_data : bytes data;
  g_len : zlen data <= 65535 - 28;
  g_ihl : version4_ihl4 iph = 69;
  g_proto : protocol iph = 17;
  g_total : total_length iph = hton16 (28 + zlen data);
  g_udplen : length_ udph = hton16 (8 + zlen data);
  g_ipsum : ipv4_checksum (set_checksum iph (hton16 0)) [] = Ret (checksum iph);
  g_udpsum : udp_checksum (set_udp_checksum udph (hton16 0)) data (source_address iph)
               (destination_address iph) = Ret (udp_checksum_ udph);
}.

(** The IP header of the packet is valid, and the rest is its payload. *)
Lemma built4_header iph rest :
  wf4 iph -> bytes rest -> 20 + zlen rest <= 65535 -> version4_ihl4 iph = 69 ->
  total_length iph = hton16 (20 + zlen rest) ->
  ipv4_checksum (set_checksum iph (hton16 0)) [] = Ret (checksum iph) ->
  let pkt := ipv4_header_bytes iph ++ rest in
  ipv4_valid pkt = true /\ payload4 pkt = rest /\ byte pkt 0 / 16 = 4.
Proof.
  intros Hw Hr Hl Hihl Htot Hsum pkt. pose proof (length_ipv4_header_bytes iph) as Hh.
  pose proof (bytes_ipv4_header iph) as Hbh. assert (Hb : bytes pkt) by (unfold pkt; eauto with byte_db).
  assert (E0 : byte pkt 0 = 69).
  { unfold pkt. rewrite byte_left by lia. change (byte (ipv4_header_bytes iph) 0) with (version4_ihl4 iph mod 256).
    by rewrite Hihl. }
  assert (Ehl : header_len pkt = 20) by (unfold header_len; by rewrite E0).
  assert (E2 : be16 pkt 2 = 20 + zlen rest).
  { unfold pkt. rewrite be16_left, be16_field by (done || lia).
    change (slice 2 2 (ipv4_header_bytes iph)) with (le_bytes 2 (total_length iph)).
    rewrite le_val_small, Htot, hton16_val by (cbn; try apply Hw; lia). done. }
  assert (Hpl : zlen pkt = 20 + zlen rest) by (unfold pkt; llia).
  split; [|split].
  - destruct (ipv4_sum_ok pkt 20 Hb ltac:(lia) ltac:(lia) eq_refl) as (c & Ec & Hc); [by rewrite E0|].
    change (20 - 20) with 0 in Ec. unfold pkt in Ec at 1. rewrite slice_front in Ec by done.
    rewrite ipv4_header_of_bytes in Ec by done. change (slice 20 0 pkt) with (@nil Z) in Ec.
    rewrite Hsum in Ec. injection Ec as <-. unfold pkt in Hc at 1. rewrite slice_left in Hc by lia.
    change (slice 10 2 (ipv4_header_bytes iph)) with (le_bytes 2 (checksum iph)) in Hc.
    rewrite le_val_small, Z.eqb_refl in Hc by (cbn; apply Hw).
    unfold ipv4_valid. rewrite Ehl, E0, E2, <- andb_assoc, <- Hc, Hpl.
    change (69 / 16 =? 4) with true. rewrite !andb_true_r. lia.
  - unfold payload4. rewrite Ehl, E2. apply slice_behind; [done|lia].
  - by rewrite E0.
Qed.

Lemma built4_valid iph udph data :
  good4 iph udph data ->
  let pkt := ipv4_header_bytes iph ++ udp_header_bytes udph ++ data in
  udp4_valid pkt = true /\ payload4 pkt = udp_header_bytes udph ++ data /\ byte pkt 0 / 16 = 4.
Proof.
  intros G pkt. set (p := udp_header_bytes udph ++ data). pose proof (g_len _ _ _ G).
  pose proof (length_udp_header_bytes udph) as Hu. pose proof (length_ipv4_header_bytes iph) as Hh.
  assert (Hp : bytes p) by (unfold p; pose proof (g_data _ _ _ G); eauto with byte_db).
  assert (Hpl : zlen p = 8 + zlen data) by (unfold p; llia).
  destruct (built4_header iph p) as (Hv & Hpay & H0); [apply G|done|lia|apply G| |apply G|].
  { rewrite Hpl, (g_total _ _ _ G). f_equal. lia. }
  change (ipv4_header_bytes iph ++ p) with pkt in Hv, Hpay, H0. split; [|done].
  unfold udp4_valid. rewrite Hpay, Hv.
  destruct (built_udp_valid udph data) as (Huv & Hof & Hup & _); [apply G|apply G|apply G|lia|].
  fold p in Huv, Hof, Hup. rewrite Huv.
  assert (E9 : byte pkt 9 = 17).
  { unfold pkt. rewrite byte_left by lia. change (byte (ipv4_header_bytes iph) 9) with (protocol iph mod 256).
    by rewrite (g_proto _ _ _ G). }
  rewrite E9. assert (Hb : bytes pkt) by (apply bytes_join; [apply bytes_ipv4_header|done]).
  assert (Hl : zlen pkt = 20 + zlen p) by (change pkt with (ipv4_header_bytes iph ++ p); llia).
  destruct (sum_pre4 pkt p Hb Hp ltac:(lia) ltac:(lia)) as [He Hs].
  pose proof (segment_compare (pre4 pkt p) p ltac:(unfold pre4; eauto 10 with byte_db) Hp He Hs Huv) as Hc.
  fold (udp_payload p) in Hc. rewrite <- pseudo4_pre4, Hof, Hup in Hc by (done || lia).
  pose proof (g_udpsum _ _ _ G) as Hus. rewrite udp_checksum_ok in Hus by (lia || apply G).
  assert (Hih : ipv4_header_of (slice 0 20 pkt) = iph).
  { unfold pkt. rewrite slice_front by done. apply ipv4_header_of_bytes, G. }
  rewrite Hih in Hc. change (hton16 0) with 0 in Hus. injection Hus as Hus. rewrite Hus, Z.eqb_refl in Hc.
  rewrite <- Hc. change (17 =? 17) with true. rewrite !andb_true_r. lia.
Qed.

Lemma write_packet_ok buf iph udph data :
  zlen iph + zlen udph + zlen data <= zlen buf ->
  exists buf', write_packet buf iph udph data = Ret (buf', iph ++ udph ++ data) /\ zlen buf' = zlen buf.
Proof.
  intros Hl. unfold write_packet.
  rewrite store_Some by lia. cbn [of_option]. rewrite bind_Ret.
  rewrite store_Some by (rewrite ?length_splice; lia). cbn [of_option]. rewrite bind_Ret.
  assert (Hl1 : length (splice (splice buf 0 iph) (zlen iph) udph) = length buf)
    by (rewrite !length_splice by (rewrite ?length_splice; lia); done).
  rewrite store_Some by (rewrite ?Hl1; lia). cbn [of_option]. rewrite bind_Ret.
  set (buf' := splice _ (zlen iph + zlen udph) data).
  assert (E : buf' = splice buf 0 (iph ++ udph ++ data)).
  { unfold buf'. rewrite <- (Z.add_0_l (zlen iph)). rewrite (splice_splice_adj buf 0 iph udph) by lia.
    replace (0 + zlen iph + zlen udph) with (0 + zlen (iph ++ udph)) by llia.
    rewrite splice_splice_adj by llia. by rewrite <- app_assoc. }
  assert (Hl2 : zlen buf' = zlen buf) by (rewrite E, length_splice by llia; done).
  rewrite load_Some by lia. cbn [of_option]. rewrite bind_Ret. exists buf'. split; [|done]. do 2 f_equal.
  rewrite E. replace (zlen iph + zlen udph + zlen data) with (zlen (iph ++ udph ++ data)) by llia.
  apply slice_splice_same; llia.
Qed.

(** The same for IPv6. *)
Record good6 (iph : ipv6_header) (udph : udp_header) (data : list Z) : Prop := {
  g6_version : version4_tc4 iph = 96;
  g6_next : next_header iph = 17;
  g6_src : bytes (source_address6 iph) /\ zlen (source_address6 iph) = 16;
  g6_dst : bytes (destination_address6 iph) /\ zlen (destination_address6 iph) = 16;
  g6_udp : wfu udph;
  g6_data : bytes data;
  g6_len : zlen data <= 65535 - 8;
  g6_total : payload_length iph = hton16 (8 + zlen data);
  g6_udplen : length_ udph = hton16 (8 + zlen data);
  g6_udpsum : udp_ip6_checksum (set_udp_checksum udph (hton16 0)) data (source_address6 iph)
                (destination_address6 iph) = Ret (udp_checksum_ udph);
}.

Lemma built6_header iph udph data rest :
  good6 iph udph data -> zlen rest = 8 + zlen data ->
  let pkt := ipv6_header_bytes iph ++ rest in
  ipv6_valid pkt = true /\ payload6 pkt = rest /\ byte pkt 0 / 16 = 6 /\ byte pkt 6 = 17 /\
  zlen (ipv6_header_bytes iph) = 40 /\ bytes (ipv6_header_bytes iph) /\
  slice 8 16 pkt = source_address6 iph /\ slice 24 16 pkt = destination_address6 iph.
Proof.
  intros G Hr pkt. destruct (g6_src _ _ _ G) as [Hsb Hsl], (g6_dst _ _ _ G) as [Hdb Hdl].
  pose proof (g6_len _ _ _ G).
  assert (Hb : bytes (ipv6_header_bytes iph)) by (unfold ipv6_header_bytes; eauto 15 with byte_db).
  assert (Hh : zlen (ipv6_header_bytes iph) = 40)
    by (unfold ipv6_header_bytes; rewrite !length_app, !length_le_bytes; lia).
  assert (E0 : byte pkt 0 = 96).
  { unfold pkt. rewrite byte_left by lia. change (byte (ipv6_header_bytes iph) 0) with (version4_tc4 iph mod 256).
    by rewrite (g6_version _ _ _ G). }
  assert (E6 : byte pkt 6 = 17).
  { unfold pkt. rewrite byte_left by lia. change (byte (ipv6_header_bytes iph) 6) with (next_header iph mod 256).
    by rewrite (g6_next _ _ _ G). }
  assert (E4 : be16 pkt 4 = 8 + zlen data).
  { unfold pkt. rewrite be16_left, be16_field by (done || lia).
    change (slice 4 2 (ipv6_header_bytes iph)) with (le_bytes 2 (payload_length iph)).
    rewrite (g6_total _ _ _ G), le_val_small, hton16_val by (cbn; try apply hton16_range; lia). done. }
  assert (Hpl : zlen pkt = 40 + zlen rest) by (unfold pkt; llia).
  split; [unfold ipv6_valid; rewrite E0, E4, Hpl; change (96 / 16 =? 6) with true; lia|].
  split; [unfold payload6; rewrite E4; apply slice_behind; [done|lia]|].
  split; [by rewrite E0|]. split; [done|]. split; [done|]. split; [done|].
  assert (Hsplit : ipv6_header_bytes iph = take 8 (ipv6_header_bytes iph) ++
    source_address6 iph ++ destination_address6 iph) by reflexivity.
  assert (H8 : zlen (take 8 (ipv6_header_bytes iph)) = 8) by (rewrite length_take; lia).
  unfold pkt. split; rewrite slice_left by lia; rewrite Hsplit.
  - rewrite app_assoc, slice_left by llia. by apply slice_behind.
  - rewrite app_assoc. apply slice_behind; [llia|done].
Qed.

Lemma built6_valid iph udph data :
  good6 iph udph data ->
  let pkt := ipv6_header_bytes iph ++ udp_header_bytes udph ++ data in
  udp6_valid pkt = true /\ payload6 pkt = udp_header_bytes udph ++ data /\ byte pkt 0 / 16 = 6 /\
  slice 8 16 pkt = source_address6 iph /\ slice 24 16 pkt = destination_address6 iph /\ bytes pkt.
Proof.
  intros G pkt. set (p := udp_header_bytes udph ++ data). pose proof (g6_len _ _ _ G).
  pose proof (length_udp_header_bytes udph) as Hu. pose proof (g6_data _ _ _ G) as Hd.
  assert (Hp : bytes p) by (unfold p; eauto with byte_db).
  assert (Hpl : zlen p = 8 + zlen data) by (unfold p; llia).
  destruct (built6_header iph udph data p G Hpl) as (Hv & Hpay & H0 & H6 & Hh & Hbh & Hs & Ht).
  change (ipv6_header_bytes iph ++ p) with pkt in *.
  assert (Hb : bytes pkt) by (apply bytes_join; done).
  split; [|done]. unfold udp6_valid. rewrite Hpay, Hv, H6.
  destruct (built_udp_valid udph data) as (Huv & Hof & Hup & _); [apply G|done|apply G|lia|].
  fold p in Huv, Hof, Hup. rewrite Huv.
  assert (Hl : zlen pkt = 40 + zlen p) by (change pkt with (ipv6_header_bytes iph ++ p); llia).
  destruct (sum_pre6 pkt p Hb Hp ltac:(lia) ltac:(lia)) as [He Hsum].
  pose proof (segment_compare (pre6 pkt p) p ltac:(unfold pre6; eauto 15 with byte_db) Hp He Hsum Huv) as Hc.
  fold (udp_payload p) in Hc. rewrite <- pseudo6_pre6, Hof, Hup, Hs, Ht in Hc by (done || lia).
  pose proof (g6_udpsum _ _ _ G) as Hus. destruct (g6_src _ _ _ G), (g6_dst _ _ _ G).
  rewrite udp_ip6_checksum_ok in Hus by (done || lia).
  change (hton16 0) with 0 in Hus. injection Hus as Hus. rewrite Hus, Z.eqb_refl in Hc.
  rewrite <- Hc. change (17 =? 17) with true. rewrite !andb_true_r. lia.
Qed.

Definition addr_ok (a : BAddr) : Prop :=
  match a with
  | BADDR_TYPE_IPV4 ip port => 0 <= ip < 2 ^ 32 /\ 0 <= port < 2 ^ 16
  | BADDR_TYPE_IPV6 ip port => (bytes ip /\ zlen ip = 16) /\ 0 <= port < 2 ^ 16
  end.
Definition same_type (a b : BAddr) : bool :=
  match a, b with
  | BADDR_TYPE_IPV4 _ _, BADDR_TYPE_IPV4 _ _ | BADDR_TYPE_IPV6 _ _, BADDR_TYPE_IPV6 _ _ => true
  | _, _ => false
  end.
(** The bytes in front of the payload, and whether a payload can be sent. *)
Definition overhead (a : BAddr) : Z := match a with BADDR_TYPE_IPV4 _ _ => 28 | BADDR_TYPE_IPV6 _ _ => 48 end.
Definition can_send (c : config) (a : BAddr) (n : Z) : bool :=
  match a with
  | BADDR_TYPE_IPV4 _ _ => (n <=? 65535 - 28) && (n <=? BTap_GetMTU c - 28)
  | BADDR_TYPE_IPV6 _ _ => netif_ip6addr c && (n <=? 65535 - 8) && (n <=? BTap_GetMTU c - 48)
  end.

(** A UDP datagram after the pseudo header [pre], byte by byte (RFC 768): ports in
    network order, the length, the payload, and the checksum: the whole has the
    one's complement sum [0xFFFF], and the field is the complement of the sum of
    the rest. The RFCs replace a complement of zero with [0xFFFF]; the code does
    not, and such a datagram carries zero. *)
Definition datagram (pre seg : list Z) (sport dport : Z) (data : list Z) : Prop :=
  let rest := pre ++ slice 0 6 seg ++ [0; 0] ++ data in
  zlen seg = 8 + zlen data /\ slice 0 2 seg = le_bytes 2 sport /\ slice 2 2 seg = le_bytes 2 dport /\
  be16 seg 4 = 8 + zlen data /\ slice 8 (zlen data) seg = data /\
  be16 seg 6 = (if ones_sum (words rest) =? 65535 then 0 else rfc_udp_checksum rest) /\
  ones_sum (words (pre ++ seg)) = 65535.

(** An IPv4 packet without options (RFC 791) and an IPv6 packet (RFC 8200) that
    are such a datagram: version, lengths, protocol, header checksum, addresses,
    each at its place. *)
Definition packet4 (pkt : list Z) (src sport dst dport : Z) (data : list Z) : Prop :=
  byte pkt 0 = 69 /\ be16 pkt 2 = zlen pkt /\ byte pkt 9 = 17 /\
  ones_sum (words (slice 0 20 pkt)) = 65535 /\
  slice 12 4 pkt = le_bytes 4 src /\ slice 16 4 pkt = le_bytes 4 dst /\
  datagram (le_bytes 4 src ++ le_bytes 4 dst ++ [0; 17] ++ be_bytes 2 (8 + zlen data))
    (slice 20 (zlen pkt - 20) pkt) sport dport data.
Definition packet6 (pkt src : list Z) (sport : Z) (dst : list Z) (dport : Z) (data : list Z) : Prop :=
  byte pkt 0 = 96 /\ be16 pkt 4 = zlen pkt - 40 /\ byte pkt 6 = 17 /\
  slice 8 16 pkt = src /\ slice 24 16 pkt = dst /\
  datagram (src ++ dst ++ be_bytes 4 (8 + zlen data) ++ [0; 0; 0; 17])
    (slice 40 (zlen pkt - 40) pkt) sport dport data.

(** The packet carries the payload from the remote to the local address. Besides,
    the program's own reader takes it for that. *)
Definition carries (pkt : list Z) (local remote : BAddr) (data : list Z) : Prop :=
  bytes pkt /\ zlen pkt = overhead local + zlen data /\
  match local, remote with
  | BADDR_TYPE_IPV4 lip lport, BADDR_TYPE_IPV4 rip rport => packet4 pkt rip rport lip lport data
  | BADDR_TYPE_IPV6 lip lport, BADDR_TYPE_IPV6 rip rport => packet6 pkt rip rport lip lport data
  | _, _ => False
  end /\
  forall c', udpgw_remote_server_addr c' = true -> netif_ip6addr c' = true -> zlen data <= udp_mtu c' ->
  exists is_dns, process_device_udp_packet c' pkt = Ret (Some (mkSubmission remote local is_dns data)).

Lemma oc_field l : (if ones_sum (words l) =? 65535 then 0 else rfc_udp_checksum l) = ones_complement l.
Proof.
  unfold rfc_udp_checksum, ones_complement. destruct (Z.eqb_spec (ones_sum (words l)) 65535); [lia|].
  destruct (Z.eqb_spec (65535 - ones_sum (words l)) 0); lia.
Qed.

Lemma built_datagram pre udph data :
  wfu udph -> bytes data -> bytes pre -> length_ udph = hton16 (8 + zlen data) -> zlen data <= 65527 ->
  zlen pre mod 2 = 0 -> 0 < sum (words pre) ->
  udp_checksum_ udph = hton16 (ones_complement ((pre ++ udp_header_bytes (set_udp_checksum udph 0)) ++ data)) ->
  datagram pre (udp_header_bytes udph ++ data) (source_port udph) (dest_port udph) data.
Proof.
  intros Hw Hd Hpre Hlen Hl He Hpos Hck. set (seg := udp_header_bytes udph ++ data).
  destruct (built_udp_valid udph data Hw Hd Hlen Hl) as (Huv & Hof & Hup & H4). fold seg in Huv, Hof, Hup, H4.
  pose proof (length_udp_header_bytes udph) as Hu.
  assert (Hs : bytes seg) by (unfold seg; eauto with byte_db).
  assert (Hsl : zlen seg = 8 + zlen data) by (unfold seg; llia).
  pose proof (segment_compare pre seg Hpre Hs He Hpos Huv) as Hc.
  fold (udp_payload seg) in Hc. rewrite Hof, Hup, Hck, Z.eqb_refl in Hc. symmetry in Hc.
  apply andb_true_iff in Hc as [Hc _]. apply Z.eqb_eq in Hc.
  rewrite H4, slice_all in Hc by lia.
  assert (H6 : udp_header_bytes (set_udp_checksum udph 0) = slice 0 6 seg ++ [0; 0])
    by (rewrite <- Hof; apply cleared_udp; [done|lia]).
  assert (E2 : forall o, 0 <= o -> o + 2 <= 8 -> slice o 2 seg = slice o 2 (udp_header_bytes udph))
    by (intros; unfold seg; by apply slice_left; lia).
  unfold datagram. cbv zeta. rewrite oc_field. split; [done|].
  split; [by rewrite E2 by lia|]. split; [by rewrite E2 by lia|]. split; [done|].
  split; [unfold seg; by apply slice_behind|]. split; [|done].
  rewrite H6, <- !app_assoc in Hck. rewrite be16_field by (done || lia). rewrite E2 by lia.
  change (slice 6 2 (udp_header_bytes udph)) with (le_bytes 2 (udp_checksum_ udph)).
  rewrite le_val_small by (cbn; apply Hw). rewrite Hck, hton16_val; [done|].
  pose proof (ones_sum_range _ (words_range (pre ++ slice 0 6 seg ++ [0; 0] ++ data) ltac:(eauto 10 with byte_db))).
  unfold ones_complement. lia.
Qed.

(** A pseudo header with the protocol number 17 in it does not sum to zero. *)
Lemma sum_middle a b c : Nat.Even (length a) -> Nat.Even (length b) -> bytes a -> bytes c ->
  0 < sum (words b) -> 0 < sum (words (a ++ b ++ c)).
Proof.
  intros Ea Eb Ha Hc Hb. rewrite !words_app, !sum_app by done.
  pose proof (sum_range _ (words_range a Ha)). pose proof (sum_range _ (words_range c Hc)). lia.
Qed.

Lemma built4_packet iph udph data :
  good4 iph udph data ->
  packet4 (ipv4_header_bytes iph ++ udp_header_bytes udph ++ data)
    (source_address iph) (source_port udph) (destination_address iph) (dest_port udph) data.
Proof.
  intros G. set (p := udp_header_bytes udph ++ data). pose proof (g_len _ _ _ G).
  pose proof (length_udp_header_bytes udph) as Hu. pose proof (length_ipv4_header_bytes iph) as Hh.
  assert (Hp : bytes p) by (unfold p; pose proof (g_data _ _ _ G); eauto with byte_db).
  assert (Hpl : zlen p = 8 + zlen data) by (unfold p; llia).
  destruct (built4_header iph p) as (Hv & _ & _); [apply G|done|lia|apply G| |apply G|].
  { rewrite Hpl, (g_total _ _ _ G). f_equal. lia. }
  set (pkt := ipv4_header_bytes iph ++ p) in *.
  assert (Hl : zlen pkt = 20 + zlen p) by (unfold pkt; llia).
  assert (Hbyte : forall i, 0 <= i < 20 -> byte pkt i = byte (ipv4_header_bytes iph) i)
    by (intros; unfold pkt; by apply byte_left; lia).
  assert (Hslice : forall o n, 0 <= o -> 0 <= n -> o + n <= 20 -> slice o n pkt = slice o n (ipv4_header_bytes iph))
    by (intros; unfold pkt; by apply slice_left; lia).
  assert (E0 : byte pkt 0 = 69).
  { rewrite Hbyte by lia. change (version4_ihl4 iph mod 256 = 69). by rewrite (g_ihl _ _ _ G). }
  unfold packet4. split; [done|]. split; [|split; [|split; [|split; [|split]]]].
  - unfold pkt at 1. rewrite be16_left, be16_field by (lia || apply bytes_ipv4_header).
    change (slice 2 2 (ipv4_header_bytes iph)) with (le_bytes 2 (total_length iph)).
    rewrite le_val_small, (g_total _ _ _ G), hton16_val by (cbn; try apply (g_ip _ _ _ G); lia). lia.
  - rewrite Hbyte by lia. change (protocol iph mod 256 = 17). by rewrite (g_proto _ _ _ G).
  - unfold ipv4_valid, header_len in Hv. rewrite E0, !andb_true_iff in Hv. change (4 * (69 mod 16)) with 20 in Hv.
    destruct Hv as [[_ Hv] _]. by apply Z.eqb_eq.
  - by rewrite Hslice by lia.
  - by rewrite Hslice by lia.
  - assert (slice 20 (zlen pkt - 20) pkt = p) as -> by (unfold pkt at 2; apply slice_behind; lia).
    apply built_datagram; [apply G|apply G|eauto 10 with byte_db|apply G|lia|..].
    + by rewrite !length_app, !length_le_bytes, !length_be_bytes.
    + rewrite app_assoc. apply sum_middle; [..|done].
      * rewrite length_app, !length_le_bytes. by exists 4%nat.
      * by exists 1%nat.
      * eauto 10 with byte_db.
      * eauto 10 with byte_db.
    + pose proof (g_udpsum _ _ _ G) as Hus. rewrite udp_checksum_ok in Hus by (lia || apply G).
      injection Hus as Hus. rewrite <- Hus. unfold pseudo4. change (hton16 0) with 0. by rewrite <- !app_assoc.
Qed.

Lemma built6_packet iph udph data :
  good6 iph udph data ->
  packet6 (ipv6_header_bytes iph ++ udp_header_bytes udph ++ data)
    (source_address6 iph) (source_port udph) (destination_address6 iph) (dest_port udph) data.
Proof.
  intros G. set (p := udp_header_bytes udph ++ data). pose proof (g6_len _ _ _ G).
  pose proof (length_udp_header_bytes udph) as Hu. assert (Hpl : zlen p = 8 + zlen data) by (unfold p; llia).
  destruct (built6_header iph udph data p G Hpl) as (_ & _ & _ & H6 & Hh & Hbh & Hs & Hd).
  destruct (g6_src _ _ _ G) as [Hsb Hsl], (g6_dst _ _ _ G) as [Hdb Hdl].
  set (pkt := ipv6_header_bytes iph ++ p) in *.
  assert (Hl : zlen pkt = 40 + zlen p) by (unfold pkt; llia).
  unfold packet6. split; [|split; [|split; [done|split; [done|split; [done|]]]]].
  - unfold pkt. rewrite byte_left by lia. change (version4_tc4 iph mod 256 = 96). by rewrite (g6_version _ _ _ G).
  - unfold pkt at 1. rewrite be16_left, be16_field by (done || lia).
    change (slice 4 2 (ipv6_header_bytes iph)) with (le_bytes 2 (payload_length iph)).
    rewrite (g6_total _ _ _ G), le_val_small, hton16_val by (cbn; try apply hton16_range; lia). lia.
  - assert (slice 40 (zlen pkt - 40) pkt = p) as -> by (unfold pkt at 2; apply slice_behind; lia).
    apply built_datagram; [apply G|apply G|eauto 10 with byte_db|apply G|lia|..].
    + rewrite !length_app, !length_be_bytes, !Nat2Z.inj_add, Hsl, Hdl. done.
    + rewrite !app_assoc, <- (app_nil_r [0; 0; 0; 17]). apply sum_middle; [..|done]; eauto 10 with byte_db.
      * apply even_zlen. rewrite !length_app, !length_be_bytes, !Nat2Z.inj_add, Hsl, Hdl. done.
      * by exists 2%nat.
    + pose proof (g6_udpsum _ _ _ G) as Hus. rewrite udp_ip6_checksum_ok in Hus by (done || lia || apply G).
      injection Hus as Hus. rewrite <- Hus. unfold pseudo6. change (hton16 0) with 0. by rewrite <- !app_assoc.
Qed.

Lemma built4_carries iph udph data lport rport :
  good4 iph udph data -> source_port udph = rport -> dest_port udph = lport ->
  carries (ipv4_header_bytes iph ++ udp_header_bytes udph ++ data)
    (BADDR_TYPE_IPV4 (destination_address iph) lport) (BADDR_TYPE_IPV4 (source_address iph) rport) data.
Proof.
  intros G <- <-. destruct (built4_valid iph udph data G) as (Hv & Hp & H0).
  set (pkt := _ ++ _) in *. pose proof (length_ipv4_header_bytes iph) as Hh. pose proof (length_udp_header_bytes udph) as Hu.
  pose proof (g_len _ _ _ G).
  assert (Hb : bytes pkt).
  { apply bytes_join; [apply bytes_ipv4_header|]. apply bytes_join; [apply bytes_udp_header|apply G]. }
  split; [done|]. split; [unfold pkt; cbn [overhead]; llia|]. split; [by apply built4_packet|]. intros c' Hg _ Hm.
  rewrite process_udp_ok by done. unfold udp_spec. rewrite Hv, H0, Hg. cbn [andb Z.eqb Pos.eqb].
  unfold submission4. rewrite Hp. cbn [s_data].
  destruct (built_udp_valid udph data) as (Huv & Hof & Hup & _); [apply G|apply G|apply G|lia|].
  rewrite Hup. destruct (Z.leb_spec (zlen data) (udp_mtu c')); [|lia].
  assert (Hpl : 8 <= zlen (udp_header_bytes udph ++ data)) by llia.
  destruct (udp_ports _ Hpl) as [<- <-]. rewrite Hof. destruct (g_ip _ _ _ G).
  unfold addr4_at, pkt. rewrite !slice_left by lia.
  change (slice 12 4 (ipv4_header_bytes iph)) with (le_bytes 4 (source_address iph)).
  change (slice 16 4 (ipv4_header_bytes iph)) with (le_bytes 4 (destination_address iph)).
  rewrite !le_val_small by (cbn; lia). by eexists.
Qed.

Lemma built6_carries iph udph data lport rport :
  good6 iph udph data -> source_port udph = rport -> dest_port udph = lport ->
  carries (ipv6_header_bytes iph ++ udp_header_bytes udph ++ data)
    (BADDR_TYPE_IPV6 (destination_address6 iph) lport) (BADDR_TYPE_IPV6 (source_address6 iph) rport) data.
Proof.
  intros G <- <-. destruct (built6_valid iph udph data G) as (Hv & Hp & H0 & Hs & Hd & Hb).
  pose proof (length_udp_header_bytes udph) as Hu. pose proof (g6_len _ _ _ G).
  destruct (built6_header iph udph data (udp_header_bytes udph ++ data) G ltac:(llia)) as (_ & _ & _ & _ & Hh & _).
  set (pkt := _ ++ _) in *.
  split; [done|]. split; [unfold pkt; cbn [overhead]; llia|]. split; [by apply built6_packet|]. intros c' Hg H6 Hm.
  rewrite process_udp_ok by done. unfold udp_spec. rewrite Hv, H0, Hg, H6. cbn [andb Z.eqb Pos.eqb].
  unfold submission6. rewrite Hp, Hs, Hd. cbn [s_data].
  destruct (built_udp_valid udph data) as (Huv & Hof & Hup & _); [apply G|apply G|apply G|lia|].
  rewrite Hup. destruct (Z.leb_spec (zlen data) (udp_mtu c')); [|lia].
  assert (Hpl : 8 <= zlen (udp_header_bytes udph ++ data)) by llia.
  destruct (udp_ports _ Hpl) as [<- <-]. rewrite Hof. by eexists.
Qed.

(** A checksum as an unknown 16-bit value. *)
Lemma ipv4_checksum_some h : exists ck, ipv4_checksum h [] = Ret ck /\ 0 <= ck < 2 ^ 16.
Proof.
  rewrite ipv4_checksum_ok by first [apply bytes_nil | done]. eexists. split; [done|apply hton16_range].
Qed.
Lemma udp_checksum_some h data src dst : bytes data -> zlen data <= 65527 ->
  exists ck, udp_checksum h data src dst = Ret ck /\ 0 <= ck < 2 ^ 16.
Proof. intros. rewrite udp_checksum_ok by done. eexists. split; [done|apply hton16_range]. Qed.
Lemma udp_ip6_checksum_some h data src dst :
  bytes data -> zlen data <= 65527 -> bytes src /\ zlen src = 16 -> bytes dst /\ zlen dst = 16 ->
  exists ck, udp_ip6_checksum h data src dst = Ret ck /\ 0 <= ck < 2 ^ 16.
Proof.
  intros ? ? [] []. rewrite udp_ip6_checksum_ok by done. eexists. split; [done|apply hton16_range].
Qed.

Lemma received4 c buf lip lport rip rport data :
  udpgw_remote_server_addr c = true -> zlen buf = BTap_GetMTU c -> bytes data ->
  addr_ok (BADDR_TYPE_IPV4 lip lport) -> addr_ok (BADDR_TYPE_IPV4 rip rport) ->
  can_send c (BADDR_TYPE_IPV4 lip lport) (zlen data) = true ->
  exists buf' pkt, udpgw_client_handler_received c buf (BADDR_TYPE_IPV4 lip lport)
      (BADDR_TYPE_IPV4 rip rport) data = Ret (buf', Some pkt) /\ zlen buf' = zlen buf /\
    carries pkt (BADDR_TYPE_IPV4 lip lport) (BADDR_TYPE_IPV4 rip rport) data.
Proof.
  intros Hg Hbuf Hd [Hl1 Hl2] [Hr1 Hr2] Hs. unfold udpgw_client_handler_received. rewrite Hg. cbn [assert].
  rewrite bind_Ret. cbn [can_send] in Hs. unfold sizeof_ipv4_header, sizeof_udp_header.
  replace ((65535 - (20 + 8) <? zlen data) || (BTap_GetMTU c - (20 + 8) <? zlen data)) with false by lia.
  set (iph0 := mkIpv4 _ _ _ _ _ _ _ _ _ _). destruct (ipv4_checksum_some iph0) as (ck & E1 & Hck).
  rewrite E1, bind_Ret. set (iph := set_checksum iph0 ck). change (source_address iph) with rip.
  change (destination_address iph) with lip. set (udph0 := mkUdp _ _ _ _).
  destruct (udp_checksum_some udph0 data rip lip Hd ltac:(lia)) as (uck & E2 & Huck). rewrite E2, bind_Ret.
  set (udph := set_udp_checksum udph0 uck).
  destruct (write_packet_ok buf (ipv4_header_bytes iph) (udp_header_bytes udph) data) as (buf' & -> & Hl).
  { rewrite length_ipv4_header_bytes, length_udp_header_bytes. lia. }
  rewrite bind_Ret. eexists _, _. split; [reflexivity|]. split; [done|].
  refine (built4_carries iph udph data lport rport _ eq_refl eq_refl).
  split; [| |done|lia|reflexivity|reflexivity|reflexivity|reflexivity|exact E1|exact E2].
  - split; first [apply hton16_range | assumption | split; vm_compute; congruence].
  - split; first [apply hton16_range | assumption].
Qed.

Lemma received6 c buf lip lport rip rport data :
  udpgw_remote_server_addr c = true -> zlen buf = BTap_GetMTU c -> bytes data ->
  addr_ok (BADDR_TYPE_IPV6 lip lport) -> addr_ok (BADDR_TYPE_IPV6 rip rport) ->
  can_send c (BADDR_TYPE_IPV6 lip lport) (zlen data) = true ->
  exists buf' pkt, udpgw_client_handler_received c buf (BADDR_TYPE_IPV6 lip lport)
      (BADDR_TYPE_IPV6 rip rport) data = Ret (buf', Some pkt) /\ zlen buf' = zlen buf /\
    carries pkt (BADDR_TYPE_IPV6 lip lport) (BADDR_TYPE_IPV6 rip rport) data.
Proof.
  intros Hg Hbuf Hd [[Hl0 Hl1] Hl2] [[Hr0 Hr1] Hr2] Hs. unfold udpgw_client_handler_received. rewrite Hg. cbn [assert].
  rewrite bind_Ret. cbn [can_send] in Hs. rewrite !andb_true_iff in Hs. destruct Hs as [[H6 Hs1] Hs2].
  rewrite H6. cbn [negb]. unfold sizeof_ipv6_header, sizeof_udp_header.
  replace ((65535 - 8 <? zlen data) || (BTap_GetMTU c - (40 + 8) <? zlen data)) with false by lia.
  cbn [source_address6 destination_address6]. set (udph0 := mkUdp _ _ _ _).
  destruct (udp_ip6_checksum_some udph0 data rip lip Hd ltac:(lia)) as (uck & E2 & Huck); [done|done|].
  rewrite E2, bind_Ret. set (iph := mkIpv6 _ _ _ _ _ _ _ _). set (udph := set_udp_checksum udph0 uck).
  assert (Hh : zlen (ipv6_header_bytes iph) = 40)
    by (unfold ipv6_header_bytes; rewrite !length_app, !length_le_bytes; cbn [iph source_address6 destination_address6]; lia).
  destruct (write_packet_ok buf (ipv6_header_bytes iph) (udp_header_bytes udph) data) as (buf' & -> & Hl).
  { rewrite Hh, length_udp_header_bytes. lia. }
  rewrite bind_Ret. eexists _, _. split; [reflexivity|]. split; [done|].
  refine (built6_carries iph udph data lport rport _ eq_refl eq_refl).
  split; [reflexivity|reflexivity|done|done| |done|lia|reflexivity|reflexivity|exact E2].
  split; first [apply hton16_range | assumption].
Qed.

(** *** DNS queries and answers *)

Inductive event :=
| Query (port : Z) (local remote : BAddr)
| Answer (port : Z).

(** What a packet from the device is to the DNS gateway at [gw_port]. *)
Definition event_of (gw_port : Z) (data : list Z) : option event :=
  let p := payload4 data in
  if (byte data 0 / 16 =? 4) && udp4_valid data then
    if port_at p 2 =? hton16 53 then
      Some (Query (port_at p 0) (BADDR_TYPE_IPV4 (addr4_at data 12) (port_at p 0))
              (BADDR_TYPE_IPV4 (addr4_at data 16) (port_at p 2)))
    else if port_at p 0 =? gw_port then Some (Answer (port_at p 2))
    else None
  else None.

(** For a port: the queries since it was last without unanswered ones, and the
    number of the unanswered ones. *)
Definition step_port (p : Z) (s : list (BAddr * BAddr) * nat) (e : event) : list (BAddr * BAddr) * nat :=
  match e with
  | Query p' local remote => if p' =? p then (s.1 ++ [(local, remote)], S s.2) else s
  | Answer p' =>
      if p' =? p then match s.2 with S (S n) => (s.1, S n) | _ => ([], O) end else s
  end.
Definition replay (log : list event) (p : Z) : list (BAddr * BAddr) * nat :=
  fold_left (step_port p) log ([], O).

(** The source and destination of the packet that goes back to the device. *)
Definition dns_spec (c : config) (gw_ip gw_port : Z) (log : list event) (data : list Z) :
    option (BAddr * BAddr) :=
  match event_of gw_port data with
  | Some (Query p _ _) => Some (BADDR_TYPE_IPV4 (netif_ipaddr c) p, BADDR_TYPE_IPV4 gw_ip gw_port)
  | Some (Answer p) =>
      match (replay log p).1 with
      | (BADDR_TYPE_IPV4 lip _, remote) :: _ => Some (remote, BADDR_TYPE_IPV4 lip p)
      | _ => None
      end
  | None => None
  end.

(** A packet without IP options that the UDP datagram fills. *)
Definition plain (data : list Z) : bool :=
  (header_len data =? 20) && (be16 (payload4 data) 4 =? zlen (payload4 data)).

(** The table as the log describes it. *)
Definition table (st : dns_state) : gmap Z Connection := if init st then connections_tree st else ∅.
Definition expected (s : list (BAddr * BAddr) * nat) (p : Z) : option Connection :=
  match s.1 with
  | (local, remote) :: _ => Some (mkConnection local remote p (Z.of_nat s.2))
  | [] => None
  end.
Definition describes (log : list event) (st : dns_state) : Prop :=
  forall p, table st !! p = expected (replay log p) p.

Definition log_next (log : list event) (e : option event) : list event :=
  match e with Some e => log ++ [e] | None => log end.

Lemma replay_snoc log e p : replay (log ++ [e]) p = step_port p (replay log p) e.
Proof. unfold replay. by rewrite fold_left_app. Qed.

(** Both parts of the replay are empty together, and every pair is of a query. *)
Definition event_ok (e : event) : Prop :=
  match e with
  | Query p local remote =>
      (exists ip rip rport, local = BADDR_TYPE_IPV4 ip p /\ remote = BADDR_TYPE_IPV4 rip rport) /\
      addr_ok local /\ addr_ok remote
  | Answer p => True
  end.
Definition query_ok (p : Z) (q : BAddr * BAddr) : Prop :=
  (exists ip rip rport, q.1 = BADDR_TYPE_IPV4 ip p /\ q.2 = BADDR_TYPE_IPV4 rip rport) /\
  addr_ok q.1 /\ addr_ok q.2.
Lemma replay_ok log p :
  Forall event_ok log ->
  let s := replay log p in
  (s.1 = [] <-> s.2 = O) /\ (s.2 <= length log)%nat /\ Forall (query_ok p) s.1.
Proof.
  induction log as [|e log IH] using rev_ind; intros Hlog.
  { cbn. split; [done|]. split; [lia|constructor]. }
  apply Forall_app in Hlog as [Hlog He]. apply Forall_cons_1 in He as [He _].
  specialize (IH Hlog). rewrite replay_snoc, length_app. cbn [length].
  destruct (replay log p) as [qs n]. cbn [fst snd] in *. destruct IH as (H1 & H2 & H3).
  destruct e as [p' local remote|p']; cbn [step_port fst snd].
  - destruct (Z.eqb_spec p' p) as [->|]; cbn [fst snd]; [|split; [done|split; [lia|done]]].
    split; [split; [|done]; by destruct qs|]. split; [lia|]. apply Forall_app. split; [done|].
    by constructor.
  - destruct (Z.eqb_spec p' p) as [->|]; cbn [fst snd]; [|split; [done|split; [lia|done]]].
    destruct n as [|[|n]]; cbn [fst snd]; (split; [|split; [lia|try done]]); try done.
    split; [|done]. intros ->. by destruct H1 as [H1 _]; specialize (H1 eq_refl).
Qed.

Lemma s32_count n : Z.of_nat n < 2 ^ 31 -> s32 (Z.of_nat n) = Z.of_nat n.
Proof. intros. apply s32_small. lia. Qed.

(** The table follows the log. *)
Definition inserted (t : gmap Z Connection) (local remote : BAddr) (p : Z) : gmap Z Connection :=
  match t !! p with
  | Some con => <[p := mkConnection (local_addr con) (remote_addr con) (port con) (s32 (count con + 1))]> t
  | None => <[p := mkConnection local remote p 1]> t
  end.
Lemma insert_connection_ok mem t local remote p :
  mem = true \/ t !! p <> None -> insert_connection mem t local remote p = Ret (inserted t local remote p).
Proof.
  unfold insert_connection, find_connection, inserted. destruct (t !! p); [done|]. by intros [->|H].
Qed.
Lemma describes_query log st p local remote :
  Forall event_ok log -> describes log st -> zlen log < 2 ^ 31 - 1 ->
  describes (log ++ [Query p local remote]) (mkDns true (inserted (table st) local remote p)).
Proof.
  intros Hlog Hd Hn q. destruct (replay_ok log p Hlog) as (H1 & H2 & _).
  unfold table at 1. cbn [init connections_tree]. rewrite replay_snoc. cbn [step_port].
  unfold inserted. rewrite (Hd p).
  destruct (Z.eqb_spec p q) as [<-|Hne].
  - unfold expected. destruct (replay log p) as [[|[l r] qs] n]; cbn [fst snd app] in *.
    + rewrite lookup_insert_eq. by rewrite (proj1 H1 eq_refl).
    + rewrite lookup_insert_eq. cbn [local_addr remote_addr port count].
      replace (Z.of_nat n + 1) with (Z.of_nat (S n)) by lia. by rewrite s32_count by lia.
  - rewrite <- (Hd q). destruct (expected _ _); by rewrite lookup_insert_ne by done.
Qed.

Lemma describes_answer log st p con :
  Forall event_ok log -> describes log st -> zlen log < 2 ^ 31 - 1 ->
  expected (replay log p) p = Some con -> init st = true ->
  describes (log ++ [Answer p]) (mkDns true (remove_connection (connections_tree st) con)).
Proof.
  intros Hlog Hd Hn He Hi q. destruct (replay_ok log p Hlog) as (H1 & H2 & _).
  unfold table. cbn [init connections_tree]. rewrite replay_snoc. cbn [step_port].
  unfold expected in He. destruct (replay log p) as [[|[l r] qs] n] eqn:Er; cbn [fst snd] in *; [done|].
  injection He as <-. unfold remove_connection. cbn [local_addr remote_addr port count].
  assert (Hn0 : n <> O) by (intros ->; by destruct H1 as [_ H1]; specialize (H1 eq_refl)).
  replace (Z.of_nat n - 1) with (Z.of_nat (pred n)) by lia. rewrite s32_count by lia.
  specialize (Hd q). unfold table in Hd. rewrite Hi in Hd.
  destruct (Z.eqb_spec p q) as [<-|Hne].
  - destruct n as [|[|n]]; [done| |]; cbn [pred].
    + change (Z.of_nat 0 <=? 0) with true. cbv iota. rewrite lookup_delete_eq, Er. done.
    + destruct (Z.leb_spec (Z.of_nat (S n)) 0); [lia|]. rewrite lookup_insert_eq, Er. done.
  - rewrite <- Hd. destruct (_ <=? 0); [by rewrite lookup_delete_ne|by rewrite lookup_insert_ne].
Qed.

(** *** Translated packets *)

Lemma field_range l o n k : bytes l -> 0 <= o -> k = Z.of_nat n -> o + k <= zlen l ->
  0 <= le_val (slice o k l) < 256 ^ k.
Proof.
  intros Hb Ho -> Hl. pose proof (le_val_range (slice o (Z.of_nat n) l) ltac:(eauto with byte_db)) as H.
  by rewrite length_slice in H by lia.
Qed.
Lemma field_hton16 l i : bytes l -> 0 <= i -> i + 1 < zlen l -> le_val (slice i 2 l) = hton16 (be16 l i).
Proof.
  intros Hb H1 H2. rewrite slice_2 by done. unfold be16. by rewrite hton16_pair by (by apply byte_range).
Qed.
Lemma port_range p i : bytes p -> 0 <= i -> i + 2 <= zlen p -> 0 <= port_at p i < 2 ^ 16.
Proof. intros. by apply (field_range p i 2 2). Qed.
Lemma addr4_range data i : bytes data -> 0 <= i -> i + 4 <= zlen data -> 0 <= addr4_at data i < 2 ^ 32.
Proof. intros. by apply (field_range data i 4 4). Qed.

Lemma wf4_header_of data : bytes data -> 20 <= zlen data -> wf4 (ipv4_header_of (slice 0 20 data)).
Proof.
  intros Hb Hl. assert (Hl' : zlen (slice 0 20 data) = 20) by (apply length_slice; lia).
  assert (Hb' : bytes (slice 0 20 data)) by eauto with byte_db.
  split; unfold ipv4_header_of;
    cbn [version4_ihl4 ds total_length identification flags3_fragmentoffset13 ttl protocol checksum
      source_address destination_address];
    first [apply (field_range _ _ 1 1); [done|lia|done|lia] | apply (field_range _ _ 2 2); [done|lia|done|lia]
          | apply (field_range _ _ 4 4); [done|lia|done|lia] ].
Qed.
Lemma plain_fields data : bytes data -> udp4_valid data = true -> plain data = true ->
  let h := ipv4_header_of (slice 0 20 data) in
  version4_ihl4 h = 69 /\ protocol h = 17 /\
  total_length h = hton16 (28 + zlen (udp_payload (payload4 data))) /\
  length_ (udp_header_of (slice 0 8 (payload4 data))) = hton16 (8 + zlen (udp_payload (payload4 data))) /\
  zlen (udp_payload (payload4 data)) <= 65535 - 28.
Proof.
  intros Hb Hv Hp h. assert (Hbp : bytes (payload4 data)) by (unfold payload4; eauto with byte_db).
  unfold udp4_valid, ipv4_valid in Hv. rewrite !andb_true_iff in Hv.
  destruct Hv as [[[[Hl H9] [[[[[[_ H4] H20] Ht] Htl] _] _]] Huv] _].
  unfold plain in Hp. rewrite andb_true_iff in Hp. destruct Hp as [Hh Hf].
  destruct (valid_lengths _ Hbp Huv) as (H1 & H2 & H3).
  apply Z.eqb_eq in H4, H9, Hh, Hf. apply Z.leb_le in Hl, Ht, Htl.
  assert (Hpl : zlen (payload4 data) = be16 data 2 - 20)
    by (unfold payload4; rewrite length_slice by lia; lia).
  pose proof (be16_range data 2 Hb).
  unfold h. cbn [version4_ihl4 protocol total_length length_ ipv4_header_of udp_header_of].
  rewrite !slice_slice, !slice_1 by lia. rewrite !field_hton16 by first [done | lia].
  change (0 + 0) with 0. change (0 + 9) with 9. change (0 + 2) with 2. change (0 + 4) with 4.
  unfold le_val. split; [|split; [lia|]].
  - unfold header_len in Hh. pose proof (Z.div_mod (byte data 0) 16). lia.
  - split; [f_equal; lia|]. split; [f_equal; lia|lia].
Qed.

Lemma finish_ok data buf src dst sport dport :
  bytes data -> udp4_valid data = true -> zlen data <= zlen buf ->
  0 <= src < 2 ^ 32 -> 0 <= dst < 2 ^ 32 -> 0 <= sport < 2 ^ 16 -> 0 <= dport < 2 ^ 16 ->
  let h := udp_header_of (slice 0 8 (payload4 data)) in
  exists buf' pkt, finish_packet buf (set_addresses (ipv4_header_of (slice 0 20 data)) src dst)
      (mkUdp sport dport (length_ h) 0) (udp_payload (payload4 data)) = Ret (buf', pkt) /\
    zlen buf' = zlen buf /\
    (plain data = true -> carries pkt (BADDR_TYPE_IPV4 dst dport) (BADDR_TYPE_IPV4 src sport)
       (udp_payload (payload4 data))).
Proof.
  intros Hb Hv Hl Hsrc Hdst Hsp Hdp h. set (p := payload4 data).
  assert (Hbp : bytes p) by (unfold p, payload4; eauto with byte_db).
  assert (Huv : udp_valid p = true) by (unfold udp4_valid in Hv; rewrite !andb_true_iff in Hv; tauto).
  destruct (valid_lengths p Hbp Huv) as (H1 & H2 & H3).
  assert (Hlp : 20 + zlen p <= zlen data).
  { unfold udp4_valid, ipv4_valid in Hv. rewrite !andb_true_iff, !Z.leb_le in Hv.
    unfold p, payload4. rewrite length_slice by lia. lia. }
  assert (Hbd : bytes (udp_payload p)) by (unfold udp_payload; eauto with byte_db).
  unfold finish_packet. set (iph0 := set_checksum _ (hton16 0)).
  destruct (ipv4_checksum_some iph0) as (ck & E1 & Hck). rewrite E1, bind_Ret.
  set (iph := set_checksum iph0 ck). change (source_address iph) with src. change (destination_address iph) with dst.
  set (udph0 := set_udp_checksum _ _).
  destruct (udp_checksum_some udph0 (udp_payload p) src dst Hbd H3) as (uck & E2 & Huck). rewrite E2, bind_Ret.
  set (udph := set_udp_checksum udph0 uck).
  destruct (write_packet_ok buf (ipv4_header_bytes iph) (udp_header_bytes udph) (udp_payload p)) as (buf' & -> & Hlb).
  { rewrite length_ipv4_header_bytes, length_udp_header_bytes. lia. }
  exists buf', (ipv4_header_bytes iph ++ udp_header_bytes udph ++ udp_payload p).
  split; [done|]. split; [done|]. intros Hplain.
  destruct (plain_fields data Hb Hv Hplain) as (F1 & F2 & F3 & F4 & F5). fold p h in F3, F4, F5.
  refine (built4_carries iph udph (udp_payload p) dport sport _ eq_refl eq_refl).
  destruct (wf4_header_of data Hb ltac:(lia)).
  split; [by split| |done|done|exact F1|exact F2|exact F3|exact F4|exact E1|exact E2].
  pose proof (hton16_range (8 + zlen (udp_payload p))) as Hr. rewrite <- F4 in Hr.
  split; assumption.
Qed.

(** What is translated, and into what. *)
Lemma event_of_ok gw_port data e : bytes data -> event_of gw_port data = Some e -> event_ok e.
Proof.
  intros Hb. unfold event_of. destruct (_ && udp4_valid data) eqn:E; [|done].
  apply andb_true_iff in E as [_ E]. destruct (udp4_valid_len _ E) as [H1 H2].
  assert (Hp : bytes (payload4 data)) by (unfold payload4; eauto with byte_db).
  destruct (_ =? _).
  - intros [= <-]. split; [by eexists _, _, _|].
    split; (split; [apply addr4_range|apply port_range]); done || lia.
  - destruct (_ =? _); [|done]. by intros [= <-].
Qed.

Lemma process_dns_parse c mem st buf data gw_ip gw_port :
  dnsgw c = Some (gw_ip, gw_port) -> bytes data ->
  process_device_dns_packet c mem st buf data =
  if (byte data 0 / 16 =? 4) && udp4_valid data then
    r ← translate gw_ip gw_port (netif_ipaddr c) mem st (ipv4_header_of (slice 0 20 data))
          (set_udp_checksum (udp_header_of (slice 0 8 (payload4 data))) 0);
    match r with
    | None => Ret (st, buf, None)
    | Some (st, iph, udph) =>
        '(buf, packet) ← finish_packet buf iph udph (udp_payload (payload4 data));
        Ret (st, buf, Some packet)
    end
  else Ret (st, buf, None).
Proof.
  intros Hg Hb. unfold process_device_dns_packet. rewrite Hg, ip_version_ok, bind_Ret by done.
  destruct (_ =? 4); cbn [andb]; [|done]. rewrite parse_udp4_ok, bind_Ret by done.
  by destruct (udp4_valid data).
Qed.

(** A query for which a connection has to be allocated. *)
Definition new_query (gw_port : Z) (log : list event) (data : list Z) : bool :=
  match event_of gw_port data with
  | Some (Query p _ _) => match (replay log p).1 with [] => true | _ => false end
  | _ => false
  end.

Lemma translate_ok gw_ip gw_port netif mem log st data :
  bytes data -> Forall event_ok log -> describes log st ->
  (byte data 0 / 16 =? 4) && udp4_valid data = true ->
  let h := ipv4_header_of (slice 0 20 data) in
  let u := set_udp_checksum (udp_header_of (slice 0 8 (payload4 data))) 0 in
  let len := length_ (udp_header_of (slice 0 8 (payload4 data))) in
  translate gw_ip gw_port netif mem st h u =
  if new_query gw_port log data && negb mem then Undef else
  Ret (match event_of gw_port data with
  | Some (Query p local remote) =>
      Some (mkDns true (inserted (table st) local remote p),
            set_addresses h netif gw_ip, mkUdp p gw_port len 0)
  | Some (Answer p) =>
      match (replay log p).1 with
      | (BADDR_TYPE_IPV4 lip lport, BADDR_TYPE_IPV4 rip rport) :: _ =>
          Some (mkDns true (remove_connection (connections_tree st)
                  (mkConnection (BADDR_TYPE_IPV4 lip lport) (BADDR_TYPE_IPV4 rip rport) p
                     (Z.of_nat (replay log p).2))),
                set_addresses h rip lip, mkUdp rport p len 0)
      | _ => None
      end
  | None => None
  end).
Proof.
  intros Hb Hlog Hd E h u len. unfold new_query, event_of. rewrite E. apply andb_true_iff in E as [_ E].
  destruct (udp4_valid_len _ E) as [Hl Hp]. destruct (udp_ports _ Hp) as [Es Ed].
  unfold translate, u. cbn [source_port dest_port set_udp_checksum length_ udp_checksum_].
  rewrite Es, Ed. unfold h. cbn [source_address destination_address ipv4_header_of].
  rewrite !slice_slice by lia.
  destruct (port_at (payload4 data) 2 =? hton16 53).
  { fold (table st). set (q := port_at (payload4 data) 0). pose proof (Hd q) as Hq. unfold expected in Hq.
    unfold insert_connection, find_connection, inserted. rewrite Hq.
    destruct (replay log q).1 as [|[l r] qs]; [|done]. by destruct mem. }
  destruct (port_at (payload4 data) 0 =? gw_port); [|done].
  set (p := port_at (payload4 data) 2). pose proof (Hd p) as Hdp. unfold table in Hdp.
  destruct (replay_ok log p Hlog) as (_ & _ & Hq). unfold expected in Hdp.
  destruct (init st); cbn [negb].
  - unfold find_connection. rewrite Hdp. destruct (replay log p) as [[|[l r] qs] n]; cbn [fst snd] in *; [done|].
    cbn [local_addr remote_addr]. apply Forall_cons_1 in Hq as [[(ip & rip & rport & H1 & H2) _] _].
    cbn [fst snd] in H1, H2. by subst l r.
  - destruct (replay log p) as [[|[l r] qs] n]; cbn [fst snd] in *; [done|]. by rewrite lookup_empty in Hdp.
Qed.

(** One packet. *)
Lemma dns_step_ok c mem log st buf data gw_ip gw_port :
  dnsgw c = Some (gw_ip, gw_port) -> 0 <= gw_ip < 2 ^ 32 -> 0 <= gw_port < 2 ^ 16 ->
  0 <= netif_ipaddr c < 2 ^ 32 ->
  Forall event_ok log -> describes log st -> zlen log < 2 ^ 31 - 1 ->
  bytes data -> zlen data <= zlen buf ->
  if new_query gw_port log data && negb mem then process_device_dns_packet c mem st buf data = Undef else
  exists st' buf' r, process_device_dns_packet c mem st buf data = Ret (st', buf', r) /\
    zlen buf' = zlen buf /\
    match dns_spec c gw_ip gw_port log data with
    | Some (src, dst) => exists pkt, r = Some pkt /\
        (plain data = true -> carries pkt dst src (udp_payload (payload4 data))) /\
        describes (log_next log (event_of gw_port data)) st'
    | None => r = None /\ st' = st
    end.
Proof.
  intros Hg Hgi Hgp Hn Hlog Hd Hll Hb Hl. rewrite (process_dns_parse _ _ _ _ _ _ _ Hg Hb). unfold dns_spec.
  destruct (_ && udp4_valid data) eqn:E.
  2: { unfold new_query, event_of. rewrite E. exists st, buf, None. done. }
  rewrite (translate_ok _ _ _ _ log) by done.
  destruct (new_query gw_port log data && negb mem); [done|]. rewrite bind_Ret.
  pose proof E as [_ Ev]%andb_true_iff. destruct (udp4_valid_len _ Ev) as [Hld Hlp].
  assert (Hbp : bytes (payload4 data)) by (unfold payload4; eauto with byte_db).
  pose proof (event_of_ok gw_port data) as Hev.
  destruct (event_of gw_port data) as [[p local remote|p]|] eqn:Ee.
  - destruct (Hev _ Hb eq_refl) as [(ip & rip & rport & -> & ->) [[_ Hp] _]].
    destruct (finish_ok data buf (netif_ipaddr c) gw_ip p gw_port) as (buf' & pkt & -> & Hlb & Hc); try done.
    rewrite bind_Ret. eexists _, _, _. split; [reflexivity|]. split; [done|]. exists pkt. split; [done|].
    split; [done|]. cbn [log_next]. by apply describes_query.
  - destruct (replay_ok log p Hlog) as (_ & _ & Hq). pose proof (describes_answer log st p) as Hda.
    assert (Hp : 0 <= p < 2 ^ 16).
    { unfold event_of in Ee. rewrite E in Ee. destruct (port_at (payload4 data) 2 =? hton16 53); [done|].
      destruct (port_at (payload4 data) 0 =? gw_port); [|done].
      injection Ee as <-. apply port_range; done || lia. }
    unfold expected in Hda. destruct (replay log p) as [[|[l r] qs] n] eqn:Er; cbn [fst snd] in *.
    { exists st, buf, None. done. }
    apply Forall_cons_1 in Hq as [[(ip & rip & rport & H1 & H2) [Ha1 Ha2]] _].
    cbn [fst snd] in *. subst l r. destruct Ha1 as [Hip _], Ha2 as [Hrip Hrp].
    destruct (finish_ok data buf rip ip rport p) as (buf' & pkt & -> & Hlb & Hc); try done.
    rewrite bind_Ret. eexists _, _, _. split; [reflexivity|]. split; [done|]. exists pkt. split; [done|].
    split; [done|]. cbn [log_next]. apply Hda; try done. specialize (Hd p). unfold table in Hd.
    destruct (init st); [done|]. unfold expected in Hd. rewrite Er in Hd. cbn in Hd. by rewrite lookup_empty in Hd.
  - exists st, buf, None. done.
Qed.

(** The states the DNS path reaches, with the packets translated so far. *)
Definition log_after (log : list event) (gw_port : Z) (data : list Z) (r : option (list Z)) : list event :=
  match r with Some _ => log_next log (event_of gw_port data) | None => log end.
Inductive dns_run (c : config) (gw_port : Z) : list event -> dns_state -> list Z -> Prop :=
| run_start buf : zlen buf = BTap_GetMTU c -> dns_run c gw_port [] (mkDns false ∅) buf
| run_packet log mem st buf data st' buf' r :
    dns_run c gw_port log st buf -> bytes data -> zlen data <= BTap_GetMTU c ->
    process_device_dns_packet c mem st buf data = Ret (st', buf', r) ->
    dns_run c gw_port (log_after log gw_port data r) st' buf'.

Section gateway.
Context (c : config) (gw_ip gw_port : Z).
Context (Hgw : dnsgw c = Some (gw_ip, gw_port)).
Context (Hgi : 0 <= gw_ip < 2 ^ 32) (Hgp : 0 <= gw_port < 2 ^ 16) (Hni : 0 <= netif_ipaddr c < 2 ^ 32).

Lemma step_keeps log mem st buf data st' buf' r :
  Forall event_ok log -> describes log st -> zlen log < 2 ^ 31 - 1 -> bytes data -> zlen data <= zlen buf ->
  process_device_dns_packet c mem st buf data = Ret (st', buf', r) ->
  Forall event_ok (log_after log gw_port data r) /\ describes (log_after log gw_port data r) st' /\
  zlen buf' = zlen buf.
Proof using Hgw Hgi Hgp Hni.
  intros Hlog Hd Hll Hb Hl E.
  pose proof (dns_step_ok c mem log st buf data gw_ip gw_port Hgw Hgi Hgp Hni Hlog Hd Hll Hb Hl) as Hstep.
  destruct (_ && _); [by rewrite E in Hstep|]. destruct Hstep as (st1 & buf1 & r1 & E1 & Hlb & Hs).
  rewrite E in E1. injection E1 as <- <- <-.
  assert (Hev : Forall event_ok (log_next log (event_of gw_port data))).
  { unfold log_next. destruct (event_of gw_port data) as [e|] eqn:Ee; [|done]. apply Forall_app. split; [done|].
    constructor; [|constructor]. by eapply event_of_ok. }
  destruct (dns_spec c gw_ip gw_port log data) as [[src dst]|].
  - destruct Hs as (pkt & -> & _ & Hd'). done.
  - by destruct Hs as [-> ->].
Qed.

Lemma log_grows log data r : (length log <= length (log_after log gw_port data r))%nat.
Proof.
  destruct r; cbn; [|done]. destruct (event_of gw_port data); cbn; [|done]. rewrite length_app. cbn. lia.
Qed.

Lemma dns_run_inv log st buf :
  dns_run c gw_port log st buf -> zlen log < 2 ^ 31 - 1 ->
  Forall event_ok log /\ describes log st /\ zlen buf = BTap_GetMTU c.
Proof using Hgw Hgi Hgp Hni.
  induction 1 as [buf Hbuf|log mem st buf data st' buf' r _ IH Hb Hl E]; intros Hll.
  { split; [constructor|]. split; [|done]. intros p. apply lookup_empty. }
  pose proof (log_grows log data r). destruct IH as (H1 & H2 & H3); [lia|].
  destruct (step_keeps log mem st buf data st' buf' r) as (? & ? & ?); try done; try lia.
  split; [done|]. split; [done|lia].
Qed.
End gateway.

(** *** Theorems *)

(** [process_device_udp_packet] returns on every packet without reading
    outside it, and hands to the UDP gateway exactly the valid UDP packets
    within the MTU: IPv4 (or IPv6 where it is enabled) packets whose version,
    lengths and checksums are right, with their source as the local and their
    destination as the remote address and exactly the UDP payload. Everything
    else is left to the TCP/IP stack. *)
Theorem device_udp_exact c data :
  bytes data -> process_device_udp_packet c data = Ret (udp_spec c data).
Proof. apply process_udp_ok. Qed.

(** A DNS query of three bytes from 10.0.0.2:4000 to 8.8.8.8:53. *)
Definition query_packet : list Z :=
  [69; 0; 0; 31; 0; 0; 0; 0; 64; 17; 96; 189; 10; 0; 0; 2; 8; 8; 8; 8;
   15; 160; 0; 53; 0; 11; 209; 239; 1; 2; 3].
Definition example_config : config :=
  mkConfig true false false (le_val [172; 16; 0; 2]) (Some (le_val [172; 16; 0; 1], hton16 8153)) 1472 1500.
Definition ip (a b c d : Z) : Z := le_val [a; b; c; d].

Lemma query_bytes : bytes query_packet.
Proof. repeat constructor; unfold is_byte; lia. Qed.

Lemma device_udp_exact_witness :
  process_device_udp_packet example_config query_packet =
  Ret (Some (mkSubmission (BADDR_TYPE_IPV4 (ip 10 0 0 2) (hton16 4000))
                          (BADDR_TYPE_IPV4 (ip 8 8 8 8) (hton16 53)) false [1; 2; 3])).
Proof.
  pose proof (device_udp_exact example_config query_packet query_bytes) as H.
  etransitivity; [exact H|]. vm_compute. reflexivity.
Defined.

(** C35: what the UDP gateway sends back becomes a packet that says it: for
    addresses of one kind the handler writes inside the device buffer and
    produces a packet exactly when the payload fits the length fields and the
    MTU (and IPv6 is enabled, for IPv6). The packet is, byte by byte, the IPv4 or
    IPv6 packet from the remote to the local address with that payload: version,
    lengths, protocol, addresses, ports and payload at their places, the IPv4
    header and the UDP datagram with its pseudo header each with the one's
    complement sum [0xFFFF] ([packet4], [packet6]). One field is not as the RFCs
    ask: a datagram the rest of which sums to [0xFFFF] carries the checksum 0
    instead of [0xFFFF], which in IPv4 means that there is none and which IPv6
    forbids ([datagram]). Besides, [process_device_udp_packet] reads from the
    packet the same addresses and payload. *)
Theorem udpgw_packet_roundtrip c buf local remote data :
  udpgw_remote_server_addr c = true -> zlen buf = BTap_GetMTU c -> bytes data ->
  addr_ok local -> addr_ok remote -> same_type local remote = true ->
  exists buf' r, udpgw_client_handler_received c buf local remote data = Ret (buf', r) /\
    zlen buf' = zlen buf /\
    (if can_send c local (zlen data)
     then exists pkt, r = Some pkt /\ zlen pkt <= BTap_GetMTU c /\ carries pkt local remote data
     else r = None).
Proof.
  intros Hg Hbuf Hd Hl Hr Ht. destruct local as [lip lport|lip lport], remote as [rip rport|rip rport]; try done.
  - destruct (can_send c (BADDR_TYPE_IPV4 lip lport) (zlen data)) eqn:Es.
    + destruct (received4 c buf lip lport rip rport data) as (buf' & pkt & E & Hlb & Hc); try done.
      exists buf', (Some pkt). split; [done|]. split; [done|]. exists pkt. split; [done|]. split; [|done].
      destruct Hc as (_ & -> & _). cbn [overhead can_send] in *. lia.
    + exists buf, None. split; [|done]. unfold udpgw_client_handler_received. rewrite Hg. cbn [assert].
      rewrite bind_Ret. cbn [can_send] in Es. unfold sizeof_ipv4_header, sizeof_udp_header.
      by replace ((65535 - (20 + 8) <? zlen data) || (BTap_GetMTU c - (20 + 8) <? zlen data)) with true by lia.
  - destruct (can_send c (BADDR_TYPE_IPV6 lip lport) (zlen data)) eqn:Es.
    + destruct (received6 c buf lip lport rip rport data) as (buf' & pkt & E & Hlb & Hc); try done.
      exists buf', (Some pkt). split; [done|]. split; [done|]. exists pkt. split; [done|]. split; [|done].
      destruct Hc as (_ & -> & _). cbn [overhead can_send] in *. lia.
    + exists buf, None. split; [|done]. unfold udpgw_client_handler_received. rewrite Hg. cbn [assert].
      rewrite bind_Ret. cbn [can_send] in Es. destruct (netif_ip6addr c); cbn [negb andb] in *; [|done].
      unfold sizeof_ipv6_header, sizeof_udp_header.
      by replace ((65535 - 8 <? zlen data) || (BTap_GetMTU c - (40 + 8) <? zlen data)) with true by lia.
Qed.

Lemma udpgw_packet_roundtrip_witness :
  exists buf' pkt,
    udpgw_client_handler_received example_config (repeat 0 1500)
      (BADDR_TYPE_IPV4 (ip 10 0 0 2) (hton16 4000)) (BADDR_TYPE_IPV4 (ip 8 8 8 8) (hton16 53)) [9; 9] =
    Ret (buf', Some pkt) /\ zlen pkt = 30.
Proof.
  destruct (udpgw_packet_roundtrip example_config (repeat 0 1500)
    (BADDR_TYPE_IPV4 (ip 10 0 0 2) (hton16 4000)) (BADDR_TYPE_IPV4 (ip 8 8 8 8) (hton16 53)) [9; 9])
    as (buf' & r & E & _ & H).
  - reflexivity.
  - reflexivity.
  - repeat constructor; unfold is_byte; lia.
  - split; vm_compute; split; congruence.
  - split; vm_compute; split; congruence.
  - reflexivity.
  - cbn [can_send] in H. destruct H as (pkt & -> & _ & (_ & Hl & _)).
    exists buf', pkt. split; [exact E|]. rewrite Hl. reflexivity.
Defined.

(** C28: the DNS gateway translates addresses both ways. Over every sequence of
    packets that fit the device, of which fewer than 2^31 - 1 were translated (the
    counters are [int]): [process_device_dns_packet] writes through a null pointer
    exactly when [malloc] fails for a query from a port without unanswered
    queries ([new_query]); otherwise it returns, without writing outside its
    buffer. It takes exactly the valid UDP packets to port 53, which it sends to
    the gateway from the interface's address, and the valid answers of the gateway
    to a port with unanswered queries, which get the server of the first query
    since the port had none as source and that query's sender as destination.
    What comes out for a packet without IP options whose UDP datagram fills it is,
    byte by byte, the IPv4 packet with these addresses and ports and the same
    payload, with right lengths and one's complement sums ([packet4]). *)
Theorem dns_gateway_refines c gw_ip gw_port log mem st buf data :
  dnsgw c = Some (gw_ip, gw_port) -> 0 <= gw_ip < 2 ^ 32 -> 0 <= gw_port < 2 ^ 16 ->
  0 <= netif_ipaddr c < 2 ^ 32 ->
  dns_run c gw_port log st buf -> zlen log < 2 ^ 31 - 1 ->
  bytes data -> zlen data <= BTap_GetMTU c ->
  if new_query gw_port log data && negb mem then process_device_dns_packet c mem st buf data = Undef else
  exists st' buf' r, process_device_dns_packet c mem st buf data = Ret (st', buf', r) /\
    match dns_spec c gw_ip gw_port log data with
    | Some (src, dst) => exists pkt, r = Some pkt /\
        (plain data = true -> carries pkt dst src (udp_payload (payload4 data)))
    | None => r = None /\ st' = st
    end.
Proof.
  intros Hg Hgi Hgp Hni Hrun Hll Hb Hl.
  destruct (dns_run_inv c gw_ip gw_port Hg Hgi Hgp Hni log st buf Hrun Hll) as (Hlog & Hd & Hbuf).
  pose proof (dns_step_ok c mem log st buf data gw_ip gw_port Hg Hgi Hgp Hni Hlog Hd Hll Hb ltac:(lia)) as Hstep.
  destruct (_ && _); [done|]. destruct Hstep as (st' & buf' & r & E & _ & Hs).
  exists st', buf', r. split; [done|]. destruct (dns_spec c gw_ip gw_port log data) as [[src dst]|]; [|done].
  destruct Hs as (pkt & ? & ? & _). eauto.
Qed.

(** The gateway's answer to 172.16.0.2:4000. *)
Definition answer_packet : list Z :=
  [69; 0; 0; 30; 0; 0; 0; 0; 64; 17; 34; 172; 172; 16; 0; 1; 172; 16; 0; 2;
   31; 217; 15; 160; 0; 10; 111; 52; 9; 9].
(** What the asker must see: from 8.8.8.8:53 to 10.0.0.2:4000. *)
Definition restored_packet : list Z :=
  [69; 0; 0; 30; 0; 0; 0; 0; 64; 17; 96; 190; 8; 8; 8; 8; 10; 0; 0; 2;
   0; 53; 15; 160; 0; 10; 204; 234; 9; 9].

Definition after_query : dns_state :=
  mkDns true {[ hton16 4000 := mkConnection (BADDR_TYPE_IPV4 (ip 10 0 0 2) (hton16 4000))
                                  (BADDR_TYPE_IPV4 (ip 8 8 8 8) (hton16 53)) (hton16 4000) 1 ]}.

Lemma query_run : exists buf,
  dns_run example_config (hton16 8153) [Query (hton16 4000) (BADDR_TYPE_IPV4 (ip 10 0 0 2) (hton16 4000))
    (BADDR_TYPE_IPV4 (ip 8 8 8 8) (hton16 53))] after_query buf.
Proof.
  destruct (process_device_dns_packet example_config true (mkDns false ∅) (repeat 0 1500) query_packet)
    as [[[st buf] [pkt|]]| |] eqn:E; [|vm_compute in E; discriminate E..].
  assert (st = after_query) as -> by (vm_compute in E; injection E as <- _ _; vm_compute; reflexivity).
  exists buf. refine (run_packet _ _ [] true (mkDns false ∅) (repeat 0 1500) query_packet _ _ (Some pkt) _ _ _ E).
  - by apply run_start.
  - apply query_bytes.
  - vm_compute. congruence.
Qed.

Lemma dns_gateway_refines_witness :
  exists st buf st' buf' pkt,
    process_device_dns_packet example_config true st buf answer_packet = Ret (st', buf', Some pkt) /\
    st = after_query /\
    carries pkt (BADDR_TYPE_IPV4 (ip 10 0 0 2) (hton16 4000)) (BADDR_TYPE_IPV4 (ip 8 8 8 8) (hton16 53)) [9; 9].
Proof.
  destruct query_run as [buf Hrun].
  assert (Hb : bytes answer_packet) by (repeat constructor; unfold is_byte; lia).
  destruct (dns_gateway_refines example_config (le_val [172; 16; 0; 1]) (hton16 8153) _ true _ buf answer_packet
    eq_refl ltac:(vm_compute; split; congruence) ltac:(vm_compute; split; congruence)
    ltac:(vm_compute; split; congruence) Hrun ltac:(cbn; lia) Hb ltac:(vm_compute; congruence))
    as (st' & buf' & r & E & H).
  exists after_query, buf, st', buf'.
  change (dns_spec example_config (le_val [172; 16; 0; 1]) (hton16 8153) _ answer_packet)
    with (Some (BADDR_TYPE_IPV4 (ip 8 8 8 8) (hton16 53), BADDR_TYPE_IPV4 (ip 10 0 0 2) (hton16 4000))) in H.
  destruct H as (pkt & -> & Hc). exists pkt. split; [exact E|]. split; [reflexivity|].
  apply Hc. vm_compute. reflexivity.
Defined.

(** *** Examples *)

(** The packets a sequence of packets leads to. *)
Fixpoint run_with (step : dns_state -> list Z -> list Z -> cres (dns_state * list Z * option (list Z)))
    (st : dns_state) (buf : list Z) (ps : list (list Z)) : cres (list (option (list Z))) :=
  match ps with
  | [] => Ret []
  | p :: ps =>
      '(st, buf, r) ← step st buf p;
      rs ← run_with step st buf ps;
      Ret (r :: rs)
  end.
Definition run_packets : dns_state -> list Z -> list (list Z) -> cres (list (option (list Z))) :=
  run_with (process_device_dns_packet example_config true).
Definition source_of (pkt : list Z) : list Z := slice 12 4 pkt.

Example answer_restored :
  (rs ← run_packets (mkDns false ∅) (repeat 0 1500) [query_packet; answer_packet; answer_packet];
   Ret (tl rs)) = Ret [Some restored_packet; None].
Proof. vm_compute. reflexivity. Qed.

(** A second query from the same port, to 8.8.4.4: both answers come back from
    8.8.8.8. *)
Definition second_query : list Z :=
  [69; 0; 0; 29; 0; 0; 0; 0; 64; 17; 100; 195; 10; 0; 0; 2; 8; 8; 4; 4;
   15; 160; 0; 53; 0; 9; 213; 249; 4].
Example answers_of_two_servers :
  (rs ← run_packets (mkDns false ∅) (repeat 0 1500) [query_packet; second_query; answer_packet; answer_packet];
   Ret (map (fun r => source_of (default [] r)) (drop 2 rs))) = Ret [[8; 8; 8; 8]; [8; 8; 8; 8]].
Proof. vm_compute. reflexivity. Qed.

(** A query with an IP option: the packet that comes out still announces the
    option it no longer has, and its checksum does not cover one. *)
Definition option_query : list Z :=
  [70; 0; 0; 35; 0; 0; 0; 0; 64; 17; 203; 180; 10; 0; 0; 2; 8; 8; 8; 8; 148; 4; 0; 0;
   15; 160; 0; 53; 0; 11; 209; 239; 1; 2; 3].
Example option_query_broken :
  udp4_valid option_query = true /\
  (rs ← run_packets (mkDns false ∅) (repeat 0 1500) [option_query];
   Ret (map (fun r => ipv4_valid (default [] r)) rs)) = Ret [false].
Proof. vm_compute. auto. Qed.

End Device.
