(* ===== verification/TcpClient.v ===== *)
(** * tun2socks/tun2socks.c: the TCP clients

    Every TCP connection that an application opens through the VPN device is
    terminated by lwIP and becomes a [tcp_client], which copies the data to a
    SOCKS connection and back. This file models the handlers that lwIP and the
    SOCKS client call, with everything they do to the client.
    - A client is an object of the heap; freeing it removes it, and an access to
      a freed client is undefined.
    - The pcb of lwIP that a client owns and its embedded [BSocksClient] are
      parts of the client, with what they know of the connection: the callbacks
      that are set, the receive window, the operations in progress and the bytes
      that passed. A freed pcb or [BSocksClient] is [None].
    - The answers of lwIP ([tcp_close], [tcp_sndbuf], [tcp_write], [tcp_output])
      are an arbitrary sequence [env].
    - [SYNC_COMMIT] runs pending jobs in the middle of a handler. These call
      handlers of the SOCKS side, so that the handler is given the sequence of
      events that happen there.
    - An event that its source cannot produce in a state does nothing ([fire]). *)
From stdpp Require Import gmap.
From S2P Require Import Prelude Handlers DevicePackets.
Local Open Scope Z_scope.

Module TcpClient.
Export Device.
Import ByteOrder.

Definition TCP_WND : Z := 4 * 1460.
Definition CLIENT_SOCKS_RECV_BUF_SIZE : Z := 8192.
Definition ERR_OK : Z := 0.
Definition ERR_MEM : Z := -1.
Definition ERR_ABRT : Z := -10.

(** What lwIP knows of a connection. *)
Record tcp_pcb := mkPcb {
  cb_err : bool; cb_recv : bool; cb_sent : bool;
  rcv_wnd : Z;                  (* how much lwIP may still deliver *)
  unacked : Z;                  (* written and not yet confirmed *)
}.
(** What the SOCKS client knows of it. *)
Record BSocksClient := mkSocks {
  s_dest : BAddr;
  s_up : bool;
  s_sending : option (list Z);  (* the data that is offered for sending *)
  s_receiving : bool;
}.
(** The bytes that passed each of the four interfaces. *)
Record streams := mkStreams {
  delivered : list Z;           (* by lwIP to client_recv_func *)
  taken : list Z;               (* by the SOCKS client *)
  given : list Z;               (* by the SOCKS client *)
  written : list Z;             (* to lwIP by tcp_write *)
}.

Record tcp_client := mkClient {
  dead_client : option nat;
  local_addr : BAddr;
  remote_addr : BAddr;
  pcb : option tcp_pcb;
  client_closed : bool;
  buf : list Z;
  buf_used : Z;
  socks_client : option BSocksClient;
  socks_up : bool;
  socks_closed : bool;
  socks_recv_buf : list Z;
  socks_recv_buf_used : Z;
  socks_recv_buf_sent : Z;
  socks_recv_waiting : bool;
  socks_recv_tcp_pending : Z;
  passed : streams;
}.

Record tun := mkTun {
  heap : gmap Z tcp_client;
  tcp_clients : list Z;
  num_clients : Z;
  stack : list bool;            (* the variables of DEAD_ENTER *)
  asked : nat;                  (* answers of lwIP so far *)
}.

(** ** Access to a client *)
#[local] Abbreviation act := (prog tun).
Definition client (c : Z) : act tcp_client := fun w => lift (of_option (heap w !! c)) w.
Definition set_client (w : tun) (c : Z) (cl : tcp_client) : tun :=
  mkTun (<[c := cl]> (heap w)) (tcp_clients w) (num_clients w) (stack w) (asked w).
Definition put (c : Z) (cl : tcp_client) : act unit := fun w => Ret (tt, set_client w c cl).
Definition modify (c : Z) (f : tcp_client -> tcp_client) : act unit := cl ← client c; put c (f cl).
(** Assignments to the members of a client. *)
Definition with_pcb p (cl : tcp_client) := mkClient (dead_client cl) (local_addr cl) (remote_addr cl) p (client_closed cl) (buf cl) (buf_used cl)
  (socks_client cl) (socks_up cl) (socks_closed cl) (socks_recv_buf cl) (socks_recv_buf_used cl) (socks_recv_buf_sent cl)
  (socks_recv_waiting cl) (socks_recv_tcp_pending cl) (passed cl).
Definition with_client_closed b (cl : tcp_client) := mkClient (dead_client cl) (local_addr cl) (remote_addr cl) (pcb cl) b (buf cl) (buf_used cl)
  (socks_client cl) (socks_up cl) (socks_closed cl) (socks_recv_buf cl) (socks_recv_buf_used cl) (socks_recv_buf_sent cl)
  (socks_recv_waiting cl) (socks_recv_tcp_pending cl) (passed cl).
Definition with_buf m n (cl : tcp_client) := mkClient (dead_client cl) (local_addr cl) (remote_addr cl) (pcb cl) (client_closed cl) m n
  (socks_client cl) (socks_up cl) (socks_closed cl) (socks_recv_buf cl) (socks_recv_buf_used cl) (socks_recv_buf_sent cl)
  (socks_recv_waiting cl) (socks_recv_tcp_pending cl) (passed cl).
Definition with_socks s (cl : tcp_client) := mkClient (dead_client cl) (local_addr cl) (remote_addr cl) (pcb cl) (client_closed cl) (buf cl) (buf_used cl)
  s (socks_up cl) (socks_closed cl) (socks_recv_buf cl) (socks_recv_buf_used cl) (socks_recv_buf_sent cl)
  (socks_recv_waiting cl) (socks_recv_tcp_pending cl) (passed cl).
Definition with_socks_up b (cl : tcp_client) := mkClient (dead_client cl) (local_addr cl) (remote_addr cl) (pcb cl) (client_closed cl) (buf cl) (buf_used cl)
  (socks_client cl) b (socks_closed cl) (socks_recv_buf cl) (socks_recv_buf_used cl) (socks_recv_buf_sent cl)
  (socks_recv_waiting cl) (socks_recv_tcp_pending cl) (passed cl).
Definition with_socks_closed b (cl : tcp_client) := mkClient (dead_client cl) (local_addr cl) (remote_addr cl) (pcb cl) (client_closed cl) (buf cl) (buf_used cl)
  (socks_client cl) (socks_up cl) b (socks_recv_buf cl) (socks_recv_buf_used cl) (socks_recv_buf_sent cl)
  (socks_recv_waiting cl) (socks_recv_tcp_pending cl) (passed cl).
Definition with_recv_buf m (cl : tcp_client) := mkClient (dead_client cl) (local_addr cl) (remote_addr cl) (pcb cl) (client_closed cl) (buf cl) (buf_used cl)
  (socks_client cl) (socks_up cl) (socks_closed cl) m (socks_recv_buf_used cl) (socks_recv_buf_sent cl)
  (socks_recv_waiting cl) (socks_recv_tcp_pending cl) (passed cl).
Definition with_recv used sent waiting pending (cl : tcp_client) := mkClient (dead_client cl) (local_addr cl) (remote_addr cl) (pcb cl) (client_closed cl)
  (buf cl) (buf_used cl) (socks_client cl) (socks_up cl) (socks_closed cl) (socks_recv_buf cl) used sent waiting pending (passed cl).
Definition with_dead d (cl : tcp_client) := mkClient d (local_addr cl) (remote_addr cl) (pcb cl) (client_closed cl) (buf cl) (buf_used cl)
  (socks_client cl) (socks_up cl) (socks_closed cl) (socks_recv_buf cl) (socks_recv_buf_used cl) (socks_recv_buf_sent cl)
  (socks_recv_waiting cl) (socks_recv_tcp_pending cl) (passed cl).
Definition with_passed p (cl : tcp_client) := mkClient (dead_client cl) (local_addr cl) (remote_addr cl) (pcb cl) (client_closed cl) (buf cl) (buf_used cl)
  (socks_client cl) (socks_up cl) (socks_closed cl) (socks_recv_buf cl) (socks_recv_buf_used cl) (socks_recv_buf_sent cl)
  (socks_recv_waiting cl) (socks_recv_tcp_pending cl) p.

(** ** The calls of lwIP and the SOCKS client *)
Section code.
Context (env : nat -> Z).

Definition answer : act Z := fun w =>
  Ret (env (asked w), mkTun (heap w) (tcp_clients w) (num_clients w) (stack w) (S (asked w))).

Definition the_pcb (c : Z) : act tcp_pcb := cl ← client c; lift (of_option (pcb cl)).
Definition set_pcb (c : Z) (f : tcp_pcb -> tcp_pcb) : act unit := p ← the_pcb c; modify c (with_pcb (Some (f p))).
Definition tcp_err (c : Z) (b : bool) : act unit :=
  set_pcb c (fun p => mkPcb b (cb_recv p) (cb_sent p) (rcv_wnd p) (unacked p)).
Definition tcp_recv (c : Z) (b : bool) : act unit :=
  set_pcb c (fun p => mkPcb (cb_err p) b (cb_sent p) (rcv_wnd p) (unacked p)).
Definition tcp_sent (c : Z) (b : bool) : act unit :=
  set_pcb c (fun p => mkPcb (cb_err p) (cb_recv p) b (rcv_wnd p) (unacked p)).
Definition tcp_recved (c : Z) (len : Z) : act unit :=
  set_pcb c (fun p => mkPcb (cb_err p) (cb_recv p) (cb_sent p) (rcv_wnd p + len) (unacked p)).
Definition tcp_close (c : Z) : act Z :=
  _ ← the_pcb c; err ← answer; _ ← when (err =? ERR_OK) (modify c (with_pcb None)); mret err.
Definition tcp_abort (c : Z) : act unit := _ ← the_pcb c; modify c (with_pcb None).
Definition tcp_sndbuf (c : Z) : act Z := _ ← the_pcb c; a ← answer; mret (u16 a).
Definition tcp_output (c : Z) : act Z := _ ← the_pcb c; answer.
(** With [TCP_WRITE_FLAG_COPY]. *)
Definition tcp_write (c : Z) (data : list Z) : act Z :=
  _ ← the_pcb c; err ← answer;
  _ ← when (err =? ERR_OK)
    (_ ← set_pcb c (fun p => mkPcb (cb_err p) (cb_recv p) (cb_sent p) (rcv_wnd p) (unacked p + zlen data));
     modify c (fun cl => with_passed (mkStreams (delivered (passed cl)) (taken (passed cl)) (given (passed cl))
       (written (passed cl) ++ data)) cl));
  mret err.

Definition the_socks (c : Z) : act BSocksClient := cl ← client c; lift (of_option (socks_client cl)).
Definition BSocksClient_Free (c : Z) : act unit := _ ← the_socks c; modify c (with_socks None).
(** [StreamPassInterface_Sender_Send(client->socks_send_if, client->buf, client->buf_used)]:
    the interface must be idle, the length positive. *)
Definition Sender_Send (c : Z) : act unit :=
  s ← the_socks c; cl ← client c;
  _ ← ASSERT (s_up s && (match s_sending s with None => true | Some _ => false end) && (0 <? buf_used cl));
  data ← lift (of_option (load (buf cl) 0 (buf_used cl)));
  modify c (with_socks (Some (mkSocks (s_dest s) (s_up s) (Some data) (s_receiving s)))).
(** [StreamRecvInterface_Receiver_Recv(client->socks_recv_if, client->socks_recv_buf, ...)] *)
Definition Receiver_Recv (c : Z) : act unit :=
  s ← the_socks c;
  _ ← ASSERT (s_up s && negb (s_receiving s));
  modify c (with_socks (Some (mkSocks (s_dest s) (s_up s) (s_sending s) true))).

(** ** misc/dead.h *)
Definition set_stack (st : list bool) : act unit := fun w =>
  Ret (tt, mkTun (heap w) (tcp_clients w) (num_clients w) st (asked w)).
Definition get_stack : act (list bool) := fun w => Ret (stack w, w).
Definition DEAD_KILL (ptr : option nat) : act unit :=
  match ptr with
  | None => mret tt
  | Some k => st ← get_stack; _ ← lift (of_option (st !! k)); set_stack (<[k := true]> st)
  end.
(** The variable of this frame and the previous pointer. *)
Definition DEAD_ENTER (c : Z) : act (nat * option nat) :=
  cl ← client c; st ← get_stack;
  _ ← set_stack (st ++ [false]);
  _ ← modify c (with_dead (Some (length st)));
  mret (length st, dead_client cl).
(** Returns [DEAD_KILLED]. *)
Definition DEAD_LEAVE2 (c : Z) (frame : nat * option nat) : act bool :=
  let '(k, prev) := frame in
  st ← get_stack;
  killed ← lift (of_option (st !! k));
  _ ← when (negb killed) (modify c (with_dead prev));
  _ ← (match prev with
       | Some j => _ ← lift (of_option (st !! j)); set_stack (take k (<[j := killed]> st))
       | None => set_stack (take k st)
       end);
  mret killed.

(** ** The handlers *)
Definition remove_callbacks (c : Z) : act unit :=
  _ ← tcp_err c false; _ ← tcp_recv c false; tcp_sent c false.

(** [LinkedList1_Append] and [num_clients++]; [num_clients--], [LinkedList1_Remove]
    and [free]. [client->dead] is never entered, so that killing it does nothing;
    the user name is not modelled. *)
Definition add_client (c : Z) : act unit := fun w =>
  Ret (tt, mkTun (heap w) (tcp_clients w ++ [c]) (num_clients w + 1) (stack w) (asked w)).
Definition remove_client (c : Z) : act unit := fun w =>
  _ ← assert (0 <? num_clients w);
  Ret (tt, mkTun (delete c (heap w)) (filter (fun d => d <> c) (tcp_clients w)) (num_clients w - 1) (stack w) (asked w)).
Definition client_dealloc (c : Z) : act unit :=
  cl ← client c;
  _ ← ASSERT (client_closed cl);
  _ ← ASSERT (socks_closed cl);
  remove_client c.

(** [client_handle_freed_client], [client_free_client] and [client_free_socks]
    call each other; [client_free_socks] is run with the client closed or not. *)
Definition client_free_socks_ (free_client : Z -> act unit) (c : Z) : act unit :=
  cl ← client c;
  _ ← ASSERT (negb (socks_closed cl));
  _ ← when (socks_up cl && negb (client_closed cl)) (tcp_recv c false);
  _ ← BSocksClient_Free c;
  _ ← modify c (with_socks_closed true);
  cl ← client c;
  if socks_up cl && ((0 <=? socks_recv_buf_used cl) || (0 <? socks_recv_tcp_pending cl)) && negb (client_closed cl) then mret tt
  else if negb (client_closed cl) then free_client c else client_dealloc c.
Definition client_handle_freed_client (c : Z) : act unit :=
  cl ← client c;
  _ ← ASSERT (negb (client_closed cl));
  _ ← DEAD_KILL (dead_client cl);
  _ ← modify c (with_client_closed true);
  cl ← client c;
  if (0 <? buf_used cl) && negb (socks_closed cl) then mret tt
  else if negb (socks_closed cl) then client_free_socks_ (fun _ => lift Undef) c else client_dealloc c.
Definition client_free_client (c : Z) : act unit :=
  cl ← client c;
  _ ← ASSERT (negb (client_closed cl));
  _ ← remove_callbacks c;
  err ← tcp_close c;
  _ ← when (negb (err =? ERR_OK)) (tcp_abort c);
  client_handle_freed_client c.
Definition client_abort_client (c : Z) : act unit :=
  cl ← client c;
  _ ← ASSERT (negb (client_closed cl));
  _ ← remove_callbacks c;
  _ ← tcp_abort c;
  client_handle_freed_client c.
Definition client_free_socks (c : Z) : act unit := client_free_socks_ client_free_client c.

Definition client_murder (c : Z) : act unit :=
  cl ← client c;
  _ ← when (negb (client_closed cl))
        (_ ← remove_callbacks c; _ ← tcp_abort c; _ ← DEAD_KILL (dead_client cl); modify c (with_client_closed true));
  _ ← when (negb (socks_closed cl)) (_ ← BSocksClient_Free c; modify c (with_socks_closed true));
  client_dealloc c.

Definition client_err_func (c : Z) : act unit :=
  cl ← client c;
  _ ← ASSERT (negb (client_closed cl));
  client_handle_freed_client c.

Definition client_send_to_socks (c : Z) : act unit :=
  cl ← client c;
  _ ← ASSERT (negb (socks_closed cl));
  _ ← ASSERT (socks_up cl);
  _ ← ASSERT (0 <? buf_used cl);
  Sender_Send c.

Definition client_socks_send_handler_done (c data_len : Z) : act unit :=
  cl ← client c;
  _ ← ASSERT (negb (socks_closed cl));
  _ ← ASSERT (socks_up cl);
  _ ← ASSERT (0 <? buf_used cl);
  _ ← ASSERT (0 <? data_len);
  _ ← ASSERT (data_len <=? buf_used cl);
  rest ← lift (of_option (load (buf cl) data_len (buf_used cl - data_len)));
  buf' ← lift (of_option (store (buf cl) 0 rest));
  _ ← modify c (with_buf buf' (buf_used cl - data_len));
  _ ← when (negb (client_closed cl)) (tcp_recved c data_len);
  cl ← client c;
  if 0 <? buf_used cl then Sender_Send c
  else if client_closed cl then client_free_socks c
  else mret tt.

Definition client_socks_recv_initiate (c : Z) : act unit :=
  cl ← client c;
  _ ← ASSERT (negb (client_closed cl));
  _ ← ASSERT (negb (socks_closed cl));
  _ ← ASSERT (socks_up cl);
  _ ← ASSERT (socks_recv_buf_used cl =? -1);
  Receiver_Recv c.

(** The [do]-loop: false if the client was aborted. Each round sends something. *)
Fixpoint send_out_loop (fuel : nat) (c : Z) : act bool :=
  match fuel with
  | O => fun _ => OutOfFuel
  | S fuel =>
      cl ← client c;
      sndbuf ← tcp_sndbuf c;
      let to_write := Z.min (socks_recv_buf_used cl - socks_recv_buf_sent cl) sndbuf in
      if to_write =? 0 then mret true
      else
        data ← lift (of_option (load (socks_recv_buf cl) (socks_recv_buf_sent cl) to_write));
        err ← tcp_write c data;
        if negb (err =? ERR_OK) then
          if err =? ERR_MEM then mret true
          else _ ← client_abort_client c; mret false
        else
          _ ← modify c (fun cl => with_recv (socks_recv_buf_used cl) (socks_recv_buf_sent cl + to_write)
                (socks_recv_waiting cl) (socks_recv_tcp_pending cl + to_write) cl);
          cl ← client c;
          if socks_recv_buf_sent cl <? socks_recv_buf_used cl then send_out_loop fuel c else mret true
  end.
(** Returns 0 or -1. *)
Definition client_socks_recv_send_out (c : Z) : act Z :=
  cl ← client c;
  _ ← ASSERT (negb (client_closed cl));
  _ ← ASSERT (socks_up cl);
  _ ← ASSERT (0 <? socks_recv_buf_used cl);
  _ ← ASSERT (socks_recv_buf_sent cl <? socks_recv_buf_used cl);
  _ ← ASSERT (negb (socks_recv_waiting cl));
  alive ← send_out_loop (Z.to_nat (socks_recv_buf_used cl - socks_recv_buf_sent cl)) c;
  if negb alive then mret (-1)
  else
    err ← tcp_output c;
    if negb (err =? ERR_OK) then _ ← client_abort_client c; mret (-1)
    else
      cl ← client c;
      if socks_recv_buf_sent cl <? socks_recv_buf_used cl then
        if socks_recv_tcp_pending cl =? 0 then _ ← client_abort_client c; mret (-1)
        else
          _ ← modify c (fun cl => with_recv (socks_recv_buf_used cl) (socks_recv_buf_sent cl) true (socks_recv_tcp_pending cl) cl);
          mret 0
      else
        _ ← modify c (fun cl => with_recv (-1) (socks_recv_buf_sent cl) (socks_recv_waiting cl) (socks_recv_tcp_pending cl) cl);
        mret 0.

Definition client_socks_recv_handler_done (c data_len : Z) : act unit :=
  cl ← client c;
  _ ← ASSERT (0 <? data_len);
  _ ← ASSERT (data_len <=? zlen (socks_recv_buf cl));
  _ ← ASSERT (negb (socks_closed cl));
  _ ← ASSERT (socks_up cl);
  _ ← ASSERT (socks_recv_buf_used cl =? -1);
  if client_closed cl then mret tt
  else
    _ ← modify c (fun cl => with_recv data_len 0 false (socks_recv_tcp_pending cl) cl);
    r ← client_socks_recv_send_out c;
    if r <? 0 then mret tt
    else
      cl ← client c;
      when (socks_recv_buf_used cl =? -1) (client_socks_recv_initiate c).

Inductive socks_ev := EVENT_ERROR | EVENT_UP | EVENT_ERROR_CLOSED.
Definition client_socks_handler (c : Z) (event : socks_ev) : act unit :=
  cl ← client c;
  _ ← ASSERT (negb (socks_closed cl));
  match event with
  | EVENT_ERROR => client_free_socks c
  | EVENT_UP =>
      _ ← ASSERT (negb (socks_up cl));
      _ ← modify c (fun cl => with_recv (-1) (socks_recv_buf_sent cl) (socks_recv_waiting cl) 0 cl);
      _ ← when (negb (client_closed cl)) (tcp_sent c true);
      _ ← modify c (with_socks_up true);
      _ ← when (0 <? buf_used cl) (client_send_to_socks c);
      cl ← client c;
      when (negb (client_closed cl)) (client_socks_recv_initiate c)
  | EVENT_ERROR_CLOSED =>
      _ ← ASSERT (socks_up cl);
      client_free_socks c
  end.

(** ** Events of the SOCKS side *)
Inductive socks_event :=
| SocksEvent (c : Z) (event : socks_ev)
| SendDone (c data_len : Z)         (* the SOCKS client took the first bytes *)
| RecvDone (c : Z) (data : list Z). (* it put data into the buffer *)

(** What the SOCKS client does before it calls the handler. *)
Definition fire_socks (e : socks_event) : act unit := fun w =>
  match e with
  | SocksEvent c event =>
      match heap w !! c ≫= socks_client with
      | Some s =>
          if (match event with EVENT_ERROR => true | EVENT_UP => negb (s_up s) | EVENT_ERROR_CLOSED => s_up s end) then
            (_ ← modify c (with_socks (Some (mkSocks (s_dest s)
                   (match event with EVENT_UP => true | _ => s_up s end) (s_sending s) (s_receiving s))));
             client_socks_handler c event) w
          else Ret (tt, w)
      | None => Ret (tt, w)
      end
  | SendDone c n =>
      match heap w !! c ≫= socks_client with
      | Some (mkSocks dest up (Some data) rcv) =>
          if (0 <? n) && (n <=? zlen data) then
            (_ ← modify c (fun cl => with_passed (mkStreams (delivered (passed cl)) (taken (passed cl) ++ take (Z.to_nat n) data)
                   (given (passed cl)) (written (passed cl))) cl);
             _ ← modify c (with_socks (Some (mkSocks dest up None rcv)));
             client_socks_send_handler_done c n) w
          else Ret (tt, w)
      | _ => Ret (tt, w)
      end
  | RecvDone c data =>
      match heap w !! c ≫= socks_client with
      | Some (mkSocks dest up snd true) =>
          if (0 <? zlen data) && (zlen data <=? CLIENT_SOCKS_RECV_BUF_SIZE) then
            (cl ← client c;
             m ← lift (of_option (store (socks_recv_buf cl) 0 data));
             _ ← modify c (with_recv_buf m);
             _ ← modify c (fun cl => with_passed (mkStreams (delivered (passed cl)) (taken (passed cl))
                   (given (passed cl) ++ data) (written (passed cl))) cl);
             _ ← modify c (with_socks (Some (mkSocks dest up snd false)));
             client_socks_recv_handler_done c (zlen data)) w
          else Ret (tt, w)
      | _ => Ret (tt, w)
      end
  end.
(** [BReactor_Synchronize]: the jobs that run before the mark is reached. *)
Fixpoint sync (es : list socks_event) : act unit :=
  match es with [] => mret tt | e :: es => _ ← fire_socks e; sync es end.

(** ** The handlers that lwIP calls *)

(** [DEAD_ENTER]; [SYNC_COMMIT]; [DEAD_LEAVE2] *)
Definition sync_dead (c : Z) (es : list socks_event) : act bool :=
  frame ← DEAD_ENTER c; _ ← sync es; DEAD_LEAVE2 c frame.

(** [p] is the data of the pbuf chain or [None]. The result is the error code and
    whether the pbuf was freed. *)
Definition client_recv_func (c : Z) (p : option (list Z)) (es : list socks_event) : act (Z * bool) :=
  cl ← client c;
  _ ← ASSERT (negb (client_closed cl));
  match p with
  | None => _ ← client_free_client c; mret (ERR_ABRT, false)
  | Some data =>
      _ ← ASSERT (0 <? zlen data);
      if zlen (buf cl) - buf_used cl <? zlen data then mret (ERR_MEM, false)
      else
        m ← lift (of_option (store (buf cl) (buf_used cl) data));
        _ ← modify c (with_buf m (buf_used cl + zlen data));
        cl ← client c;
        if (buf_used cl =? zlen data) && socks_up cl then
          _ ← ASSERT (negb (socks_closed cl));
          _ ← client_send_to_socks c;
          killed ← sync_dead c es;
          if killed : bool then mret (ERR_ABRT, false) else mret (ERR_OK, true)
        else mret (ERR_OK, true)
  end.

Definition client_sent_func (c len : Z) (es : list socks_event) : act Z :=
  cl ← client c;
  _ ← ASSERT (negb (client_closed cl));
  _ ← ASSERT (socks_up cl);
  _ ← ASSERT (0 <? len);
  _ ← ASSERT (len <=? socks_recv_tcp_pending cl);
  _ ← modify c (fun cl => with_recv (socks_recv_buf_used cl) (socks_recv_buf_sent cl) (socks_recv_waiting cl)
        (socks_recv_tcp_pending cl - len) cl);
  cl ← client c;
  if 0 <? socks_recv_buf_used cl then
    _ ← ASSERT (socks_recv_waiting cl);
    _ ← ASSERT (socks_recv_buf_sent cl <? socks_recv_buf_used cl);
    _ ← modify c (fun cl => with_recv (socks_recv_buf_used cl) (socks_recv_buf_sent cl) false (socks_recv_tcp_pending cl) cl);
    r ← client_socks_recv_send_out c;
    if r <? 0 then mret ERR_ABRT
    else
      cl ← client c;
      _ ← ASSERT (0 <? socks_recv_tcp_pending cl);
      if (socks_recv_buf_used cl =? -1) && negb (socks_closed cl) then
        _ ← client_socks_recv_initiate c;
        killed ← sync_dead c es;
        if killed : bool then mret ERR_ABRT else mret ERR_OK
      else mret ERR_OK
  else if socks_closed cl && (socks_recv_tcp_pending cl =? 0) then
    _ ← client_free_client c; mret ERR_ABRT
  else mret ERR_OK.

Definition baddr_from_lwip (is_ipv6 : bool) (ip4 : Z) (ip6 : list Z) (port_hostorder : Z) : BAddr :=
  if is_ipv6 then BADDR_TYPE_IPV6 ip6 (hton16 port_hostorder) else BADDR_TYPE_IPV4 ip4 (hton16 port_hostorder).

(** The new pcb: its addresses. *)
Record new_pcb := mkNewPcb { is_ipv6 : bool; l_ip4 : Z; l_ip6 : list Z; l_port : Z; r_ip4 : Z; r_ip6 : list Z; r_port : Z }.
(** The memory that [malloc] returns, and whether [concat_strings] (if it is
    called) and [BSocksClient_Init] succeed. *)
Record resources := mkResources { a_client : option (Z * tcp_client); a_username : bool; a_socks : bool }.

Definition listener_accept_func (newpcb : new_pcb) (res : resources) (es : list socks_event) : act Z :=
  match a_client res with
  | None => mret ERR_MEM
  | Some (c, memory) =>
      let local := baddr_from_lwip (is_ipv6 newpcb) (l_ip4 newpcb) (l_ip6 newpcb) (l_port newpcb) in
      let remote := baddr_from_lwip (is_ipv6 newpcb) (r_ip4 newpcb) (r_ip6 newpcb) (r_port newpcb) in
      if negb (a_username res && a_socks res) then mret ERR_MEM
      else
        _ ← put c (mkClient None local remote (Some (mkPcb true true false TCP_WND 0)) false (buf memory) 0
                     (Some (mkSocks local false None false)) false false (socks_recv_buf memory) (socks_recv_buf_used memory)
                     (socks_recv_buf_sent memory) (socks_recv_waiting memory) (socks_recv_tcp_pending memory)
                     (mkStreams [] [] [] []));
        _ ← add_client c;
        killed ← sync_dead c es;
        if killed : bool then mret ERR_ABRT else mret ERR_OK
  end.

(** ** Events *)
Inductive event :=
| Accept (newpcb : new_pcb) (res : resources) (es : list socks_event)
| TcpErr (c : Z)
| TcpRecv (c : Z) (p : option (list Z)) (es : list socks_event)
| TcpSent (c len : Z) (es : list socks_event)
| Socks (e : socks_event).

(** Memory of [malloc] is not in use and has the arrays of a client. *)
Definition fresh_memory (w : tun) (res : resources) : bool :=
  match a_client res with
  | None => true
  | Some (c, m) => (match heap w !! c with None => true | Some _ => false end) &&
      (zlen (buf m) =? TCP_WND) && (zlen (socks_recv_buf m) =? CLIENT_SOCKS_RECV_BUF_SIZE)
  end.
Definition fire (e : event) : act unit := fun w =>
  match e with
  | Accept newpcb res es =>
      if fresh_memory w res then (_ ← listener_accept_func newpcb res es; mret tt) w else Ret (tt, w)
  | TcpErr c =>
      match heap w !! c ≫= pcb with
      | Some p => if cb_err p then (_ ← modify c (with_pcb None); client_err_func c) w else Ret (tt, w)
      | None => Ret (tt, w)
      end
  | TcpRecv c data es =>
      match heap w !! c ≫= pcb with
      | Some p =>
          match data with
          | None => if cb_recv p then (_ ← client_recv_func c None es; mret tt) w else Ret (tt, w)
          | Some data =>
              if cb_recv p && (0 <? zlen data) && (zlen data <=? rcv_wnd p) then
                (_ ← modify c (with_pcb (Some (mkPcb (cb_err p) (cb_recv p) (cb_sent p) (rcv_wnd p - zlen data) (unacked p))));
                 _ ← modify c (fun cl => with_passed (mkStreams (delivered (passed cl) ++ data) (taken (passed cl))
                       (given (passed cl)) (written (passed cl))) cl);
                 _ ← client_recv_func c (Some data) es; mret tt) w
              else Ret (tt, w)
          end
      | None => Ret (tt, w)
      end
  | TcpSent c len es =>
      match heap w !! c ≫= pcb with
      | Some p =>
          if cb_sent p && (0 <? len) && (len <=? unacked p) && (len <? 2 ^ 16) then
            (_ ← modify c (with_pcb (Some (mkPcb (cb_err p) (cb_recv p) (cb_sent p) (rcv_wnd p) (unacked p - len))));
             _ ← client_sent_func c len es; mret tt) w
          else Ret (tt, w)
      | None => Ret (tt, w)
      end
  | Socks e => fire_socks e w
  end.
Fixpoint run (es : list event) : act unit := match es with [] => mret tt | e :: es => _ ← fire e; run es end.
Definition init : tun := mkTun ∅ [] 0 [] 0.

(** The end of [main]: as long as there is a client. *)
Fixpoint free_clients (fuel : nat) : act unit := fun w =>
  match tcp_clients w with
  | [] => Ret (tt, w)
  | c :: _ => match fuel with O => OutOfFuel | S fuel => (_ ← client_murder c; free_clients fuel) w end
  end.
End code.

(** ** The state of a client between events *)

(** The data that came from SOCKS and the pcb. *)
Definition recv_ok (cl : tcp_client) : Prop :=
  0 <= socks_recv_tcp_pending cl /\
  ((socks_recv_buf_used cl = -1 /\ given (passed cl) = written (passed cl)) \/
   (0 <= socks_recv_buf_sent cl < socks_recv_buf_used cl /\ socks_recv_buf_used cl <= CLIENT_SOCKS_RECV_BUF_SIZE /\
    socks_recv_waiting cl = true /\ 0 < socks_recv_tcp_pending cl /\
    given (passed cl) = written (passed cl) ++
      slice (socks_recv_buf_sent cl) (socks_recv_buf_used cl - socks_recv_buf_sent cl) (socks_recv_buf cl))).
Record tcp_ok (cl : tcp_client) (p : tcp_pcb) : Prop := {
  t_open : client_closed cl = false;
  t_err : cb_err p = true;
  t_recv : cb_recv p = negb (socks_closed cl);
  t_sent : cb_sent p = socks_up cl;
  t_wnd : socks_closed cl = false -> rcv_wnd p = TCP_WND - buf_used cl;
  t_down : if socks_up cl then unacked p = socks_recv_tcp_pending cl /\ recv_ok cl
           else unacked p = 0 /\ given (passed cl) = [] /\ written (passed cl) = [];
}.
Record socks_ok (cl : tcp_client) (s : BSocksClient) : Prop := {
  s_open : socks_closed cl = false;
  s_to : s_dest s = local_addr cl;
  s_is_up : s_up s = socks_up cl;
  s_send : match s_sending s with
           | Some d => socks_up cl = true /\ 0 < zlen d <= buf_used cl /\ d = take (length d) (buf cl)
           | None => socks_up cl = true -> buf_used cl = 0
           end;
  s_recv : s_receiving s = true -> socks_up cl = true /\ socks_recv_buf_used cl = -1;
  s_recv' : client_closed cl = false -> socks_up cl = true -> socks_recv_buf_used cl = -1 -> s_receiving s = true;
}.
Record client_inv (cl : tcp_client) : Prop := {
  ci_buf : zlen (buf cl) = TCP_WND;
  ci_used : 0 <= buf_used cl <= TCP_WND;
  ci_rbuf : zlen (socks_recv_buf cl) = CLIENT_SOCKS_RECV_BUF_SIZE;
  ci_up : delivered (passed cl) = taken (passed cl) ++ take (Z.to_nat (buf_used cl)) (buf cl);
  (* a closed client waits until its data is sent *)
  ci_pcb : match pcb cl with
           | Some p => tcp_ok cl p
           | None => client_closed cl = true /\ 0 < buf_used cl /\ socks_closed cl = false
           end;
  (* a client without SOCKS waits until its data is confirmed *)
  ci_socks : match socks_client cl with
             | Some s => socks_ok cl s
             | None => socks_closed cl = true /\ socks_up cl = true /\ 0 < socks_recv_tcp_pending cl
             end;
}.

(** ** Running handlers *)
Section one.
Context (env : nat -> Z) (w : tun) (c : Z).

(** The state in which only the client, the stack and the answers may differ. *)
Definition live (cl : tcp_client) (st : list bool) (n : nat) : tun :=
  mkTun (<[c := cl]> (heap w)) (tcp_clients w) (num_clients w) st n.
Definition gone (st : list bool) (n : nat) : tun :=
  mkTun (delete c (heap w)) (filter (fun d => d <> c) (tcp_clients w)) (num_clients w - 1) st n.

Lemma wp_client cl st n Q : Q cl (live cl st n) -> wp (client c) (live cl st n) Q.
Proof. intros H. exists cl, (live cl st n). split; [|done]. unfold client, lift. cbn. by rewrite lookup_insert_eq. Qed.
Lemma wp_modify f cl st n (Q : unit -> tun -> Prop) : Q tt (live (f cl) st n) -> wp (modify c f) (live cl st n) Q.
Proof.
  intros H. unfold modify. apply wp_bind, wp_client. exists tt, (live (f cl) st n). split; [|done].
  unfold put, set_client, live. cbn. by rewrite insert_insert_eq.
Qed.
Lemma wp_answer cl st n Q : Q (env n) (live cl st (S n)) -> wp (answer env) (live cl st n) Q.
Proof. intros H. by exists (env n), (live cl st (S n)). Qed.
Lemma wp_the_pcb cl p st n Q : pcb cl = Some p -> Q p (live cl st n) -> wp (the_pcb c) (live cl st n) Q.
Proof. intros E H. unfold the_pcb. apply wp_bind, wp_client. by apply (wp_some _ p). Qed.
Lemma wp_set_pcb f cl p st n (Q : unit -> tun -> Prop) :
  pcb cl = Some p -> Q tt (live (with_pcb (Some (f p)) cl) st n) -> wp (set_pcb c f) (live cl st n) Q.
Proof. intros E H. unfold set_pcb. apply wp_bind. eapply wp_the_pcb; [exact E|]. by apply wp_modify. Qed.
Lemma wp_the_socks cl s st n Q : socks_client cl = Some s -> Q s (live cl st n) -> wp (the_socks c) (live cl st n) Q.
Proof. intros E H. unfold the_socks. apply wp_bind, wp_client. by apply (wp_some _ s). Qed.
Lemma wp_abort cl p st n (Q : unit -> tun -> Prop) :
  pcb cl = Some p -> Q tt (live (with_pcb None cl) st n) -> wp (tcp_abort c) (live cl st n) Q.
Proof. intros E H. unfold tcp_abort. apply wp_bind. eapply wp_the_pcb; [exact E|]. by apply wp_modify. Qed.
Lemma wp_socks_free cl s st n (Q : unit -> tun -> Prop) :
  socks_client cl = Some s -> Q tt (live (with_socks None cl) st n) -> wp (BSocksClient_Free c) (live cl st n) Q.
Proof. intros E H. unfold BSocksClient_Free. apply wp_bind. eapply wp_the_socks; [exact E|]. by apply wp_modify. Qed.

(** [DEAD_KILL] of the variable of a frame. *)
Definition kill (d : option nat) (st : list bool) : list bool :=
  match d with Some k => <[k := true]> st | None => st end.
Definition in_stack (d : option nat) (st : list bool) : Prop := match d with Some k => (k < length st)%nat | None => True end.
Lemma wp_kill d cl st n (Q : unit -> tun -> Prop) : in_stack d st -> Q tt (live cl (kill d st) n) -> wp (DEAD_KILL d) (live cl st n) Q.
Proof.
  intros Hd H. destruct d as [k|]; [|by apply wp_ret]. cbn in Hd.
  destruct (lookup_lt_is_Some_2 st k Hd) as [b Hb]. exists tt, (live cl (<[k := true]> st) n). split; [|done].
  unfold DEAD_KILL, mbind, prog_bind, get_stack, lift, set_stack. cbn. by rewrite Hb.
Qed.
Lemma wp_dealloc cl st n (Q : unit -> tun -> Prop) :
  client_closed cl = true -> socks_closed cl = true -> 0 < num_clients w -> Q tt (gone st n) -> wp (client_dealloc c) (live cl st n) Q.
Proof.
  intros E1 E2 Hn H. unfold client_dealloc. apply wp_bind, wp_client. apply wp_bind, wp_ASSERT; [done|].
  apply wp_bind, wp_ASSERT; [done|]. exists tt, (gone st n). split; [|done]. unfold remove_client, live, gone. cbn.
  rewrite (proj2 (Z.ltb_lt 0 (num_clients w)) Hn). cbn. by rewrite delete_insert_eq.
Qed.
End one.

(** ** What the handlers leave behind *)

(** What holds of a client whose pcb is just being freed. *)
Record base_ok (cl : tcp_client) : Prop := {
  b_buf : zlen (buf cl) = TCP_WND;
  b_used : 0 <= buf_used cl <= TCP_WND;
  b_rbuf : zlen (socks_recv_buf cl) = CLIENT_SOCKS_RECV_BUF_SIZE;
  b_up : delivered (passed cl) = taken (passed cl) ++ take (Z.to_nat (buf_used cl)) (buf cl);
  b_socks : match socks_client cl with Some s => socks_ok cl s | None => socks_closed cl = true end;
}.
Lemma client_inv_base cl : client_inv cl -> base_ok cl.
Proof. intros [H1 H2 H3 H4 H5 H6]. constructor; try done. destruct (socks_client cl); [done|by destruct H6]. Qed.
Lemma base_with_pcb p cl : base_ok cl -> base_ok (with_pcb p cl).
Proof. intros [H1 H2 H3 H4 H5]. constructor; try done. cbn. destruct (socks_client cl); [|done]. destruct H5. by constructor. Qed.
Lemma base_with_recv u s b p cl : socks_up cl = true -> base_ok cl ->
  (forall k, socks_client cl = Some k -> s_receiving k = true -> u = -1) ->
  (forall k, socks_client cl = Some k -> client_closed cl = false -> u = -1 -> s_receiving k = true) ->
  base_ok (with_recv u s b p cl).
Proof.
  intros Hu [H1 H2 H3 H4 H5] H6 H7. constructor; try done. cbn. destruct (socks_client cl) as [k|]; [|done].
  destruct H5. constructor; cbn; eauto.
Qed.

(** Strip one call off a handler that runs on a live client. *)
Ltac wp1 :=
  lazymatch goal with
  | |- wp (_ ≫= _) _ _ => apply wp_bind
  | |- wp (client _) _ _ => apply wp_client
  | |- wp (modify _ _) _ _ => apply wp_modify
  | |- wp (mret _) _ _ => apply wp_ret
  | |- wp (ASSERT _) _ _ => apply wp_ASSERT
  | |- wp (tcp_err _ _) _ _ => eapply wp_set_pcb
  | |- wp (tcp_recv _ _) _ _ => eapply wp_set_pcb
  | |- wp (tcp_sent _ _) _ _ => eapply wp_set_pcb
  | |- wp (tcp_recved _ _) _ _ => eapply wp_set_pcb
  | |- wp (set_pcb _ _) _ _ => eapply wp_set_pcb
  | |- wp (the_pcb _) _ _ => eapply wp_the_pcb
  | |- wp (the_socks _) _ _ => eapply wp_the_socks
  | |- wp (tcp_abort _) _ _ => eapply wp_abort
  | |- wp (BSocksClient_Free _) _ _ => eapply wp_socks_free
  | |- wp (answer _) _ _ => apply wp_answer
  end.
Ltac wps := repeat (wp1; cbn beta; try (cbn; done)).

Section handlers.
Context (env : nat -> Z) (w : tun) (c : Z) (Hnum : 0 < num_clients w).
#[local] Abbreviation live := (live w c).
#[local] Abbreviation gone := (gone w c).

(** The client is closed, or no longer exists. *)
Inductive shut (st : list bool) : tun -> Prop :=
| shut_closed cl n : client_inv cl -> client_closed cl = true -> shut st (live cl st n)
| shut_gone n : shut st (gone st n).
(** The result of a handler that was called with the client closed or not. *)
Definition settled (closed : bool) (d : option nat) (st : list bool) (w' : tun) : Prop :=
  if closed then shut st w'
  else (exists cl n, w' = live cl st n /\ client_inv cl /\ client_closed cl = false /\ dead_client cl = d) \/ shut (kill d st) w'.

Lemma free_socks_closed f cl st n : base_ok cl -> client_closed cl = true -> socks_closed cl = false -> pcb cl = None ->
  wp (client_free_socks_ f c) (live cl st n) (fun _ => shut st).
Proof.
  intros [H1 H2 H3 H4 H5] Hc Hs Hp. destruct (socks_client cl) as [s|] eqn:Es; [|congruence].
  unfold client_free_socks_. wps; [by rewrite Hs|]. apply wp_when_false; [rewrite Hc; by destruct (socks_up cl)|].
  wps. cbn. rewrite Hc, !andb_false_r. cbn.
  apply wp_dealloc; [done|done|done|]. apply shut_gone.
Qed.
Lemma handle_freed cl st n : base_ok cl -> client_closed cl = false -> pcb cl = None -> in_stack (dead_client cl) st ->
  wp (client_handle_freed_client c) (live cl st n) (fun _ => shut (kill (dead_client cl) st)).
Proof.
  intros Hb Hc Hp Hd. pose proof Hb as [H1 H2 H3 H4 H5]. unfold client_handle_freed_client.
  wps; [by rewrite Hc|]. apply wp_kill; [done|]. wps. cbn.
  assert (Hb' : base_ok (with_client_closed true cl)).
  { constructor; try done. cbn. destruct (socks_client cl) as [s|]; [|done]. destruct H5. by constructor. }
  destruct (socks_closed cl) eqn:Es; cbn.
  { rewrite andb_false_r. apply wp_dealloc; [done|done|done|]. apply shut_gone. }
  destruct (0 <? buf_used cl) eqn:Eu; cbn.
  - apply wp_ret. apply shut_closed; [|done]. apply Z.ltb_lt in Eu. constructor; cbn; try done; [by rewrite Hp|].
    destruct Hb' as [_ _ _ _ H]. cbn in H. destruct (socks_client cl); [done|congruence].
  - by apply free_socks_closed.
Qed.
Lemma abort_client p cl st n : base_ok cl -> client_closed cl = false -> pcb cl = Some p -> in_stack (dead_client cl) st ->
  wp (client_abort_client c) (live cl st n) (fun _ => shut (kill (dead_client cl) st)).
Proof.
  intros Hb Hc Hp Hd. unfold client_abort_client, remove_callbacks. wps; [by rewrite Hc|]. wps.
  eapply wp_mono; [apply handle_freed; try done; by repeat apply base_with_pcb|done].
Qed.
Lemma free_client p cl st n : base_ok cl -> client_closed cl = false -> pcb cl = Some p -> in_stack (dead_client cl) st ->
  wp (client_free_client env c) (live cl st n) (fun _ => shut (kill (dead_client cl) st)).
Proof.
  intros Hb Hc Hp Hd. unfold client_free_client, remove_callbacks, tcp_close. wps; [by rewrite Hc|]. wps.
  destruct (env n =? ERR_OK) eqn:Ea; cbn [when].
  - wps. rewrite Ea. cbn [negb when]. wps. eapply wp_mono; [apply handle_freed; try done; by repeat apply base_with_pcb|done].
  - wps. rewrite Ea. cbn [negb when]. wps. eapply wp_mono; [apply handle_freed; try done; by repeat apply base_with_pcb|done].
Qed.

(** A client that loses SOCKS waits if data is on its way. *)
Lemma waits_for_tcp p cl : client_inv cl -> client_closed cl = false -> socks_closed cl = false -> pcb cl = Some p ->
  socks_up cl = true -> (0 <=? socks_recv_buf_used cl) || (0 <? socks_recv_tcp_pending cl) = true ->
  client_inv (with_socks_closed true (with_socks None (with_pcb (Some (mkPcb (cb_err p) false (cb_sent p) (rcv_wnd p) (unacked p))) cl))).
Proof.
  intros [H1 H2 H3 H4 H5 H6] Hc Hs Hp Hu Hd. rewrite Hp in H5. destruct H5 as [T1 T2 T3 T4 T5 T6]. rewrite Hu in T6.
  assert (0 < socks_recv_tcp_pending cl).
  { destruct T6 as [_ [? [[Hm _]|(_ & _ & _ & ? & _)]]]; [|lia]. rewrite Hm in Hd. cbn in Hd. by apply Z.ltb_lt in Hd. }
  constructor; cbn; try done. constructor; cbn; try done. by rewrite Hu.
Qed.
(** Only an open client has a frame. *)
Definition in_frame (cl : tcp_client) (st : list bool) : Prop := client_closed cl = false -> in_stack (dead_client cl) st.
Lemma free_socks cl st n : client_inv cl -> socks_closed cl = false -> in_frame cl st ->
  wp (client_free_socks env c) (live cl st n) (fun _ => settled (client_closed cl) (dead_client cl) st).
Proof.
  intros Hi Hs Hd. pose proof (client_inv_base _ Hi) as Hb. destruct (client_closed cl) eqn:Hc.
  { apply free_socks_closed; try done. destruct Hi as [_ _ _ _ H _]. destruct (pcb cl); [|done]. destruct H. congruence. }
  specialize (Hd Hc). pose proof Hi as [_ _ _ _ H5 H6]. destruct (pcb cl) as [p|] eqn:Ep; [|destruct H5; congruence].
  destruct (socks_client cl) as [s|] eqn:Es; [|destruct H6; congruence].
  unfold client_free_socks, client_free_socks_. wps; [by rewrite Hs|]. rewrite Hc. cbn [negb andb]. rewrite andb_true_r.
  destruct (socks_up cl) eqn:Hu; cbn [when].
  - wps. cbn. rewrite Hu, Hc. cbn [negb andb]. rewrite andb_true_r.
    destruct ((0 <=? socks_recv_buf_used cl) || (0 <? socks_recv_tcp_pending cl)) eqn:Ew; cbn.
    + wps. left. eexists _, _. split; [done|]. split; [|done]. by apply waits_for_tcp.
    + eapply wp_mono; [eapply free_client; [|done..]|]; [|intros ? ? H; by right].
      destruct Hb. by constructor.
  - wps. cbn. rewrite Hu, Hc. cbn [negb andb].
    eapply wp_mono; [eapply free_client; [|done..]|]; [|intros ? ? H; by right]. destruct Hb. by constructor.
Qed.
Lemma err_func cl st n : base_ok cl -> client_closed cl = false -> pcb cl = None -> in_stack (dead_client cl) st ->
  wp (client_err_func c) (live cl st n) (fun _ => shut (kill (dead_client cl) st)).
Proof. intros Hb Hc Hp Hd. unfold client_err_func. wps; [by rewrite Hc|]. by apply handle_freed. Qed.
(** *** Sending to SOCKS *)
Lemma wp_Send cl s st n (Q : unit -> tun -> Prop) :
  socks_client cl = Some s -> s_up s = true -> s_sending s = None -> 0 < buf_used cl <= zlen (buf cl) ->
  Q tt (live (with_socks (Some (mkSocks (s_dest s) (s_up s) (Some (take (Z.to_nat (buf_used cl)) (buf cl))) (s_receiving s))) cl) st n) ->
  wp (Sender_Send c) (live cl st n) Q.
Proof.
  intros Es Hu Hi Hb H. unfold Sender_Send. wps; [rewrite Hu, Hi; cbn; lia|].
  eapply wp_some; [apply load_Some; lia|]. wps.
Qed.
Lemma wp_send_to_socks cl s st n (Q : unit -> tun -> Prop) :
  socks_client cl = Some s -> socks_up cl = true -> socks_closed cl = false -> s_up s = true -> s_sending s = None ->
  0 < buf_used cl <= zlen (buf cl) ->
  Q tt (live (with_socks (Some (mkSocks (s_dest s) (s_up s) (Some (take (Z.to_nat (buf_used cl)) (buf cl))) (s_receiving s))) cl) st n) ->
  wp (client_send_to_socks c) (live cl st n) Q.
Proof.
  intros Es Hu Hs Hu' Hi Hb H. unfold client_send_to_socks. wps; [by rewrite Hs|lia|].
  eapply wp_Send; done.
Qed.
(** The offer of everything in the buffer. *)
Lemma all_offered (m : list Z) u : 0 < u <= zlen m ->
  0 < zlen (take (Z.to_nat u) m) <= u /\ take (Z.to_nat u) m = take (length (take (Z.to_nat u) m)) m.
Proof. intros H. split; [llia|]. rewrite length_take. by replace (Z.to_nat u `min` length m)%nat with (Z.to_nat u) by lia. Qed.
(** [memmove] of the rest of the buffer to its start. *)
Lemma rest_moved (m : list Z) u k : 0 <= k <= u -> u <= zlen m ->
  let m' := splice m 0 (slice k (u - k) m) in
  store m 0 (slice k (u - k) m) = Some m' /\ length m' = length m /\
  take (Z.to_nat u) m = take (Z.to_nat k) m ++ take (Z.to_nat (u - k)) m'.
Proof.
  intros Hk Hu m'. pose proof (length_slice m k (u - k) ltac:(lia) ltac:(lia) ltac:(lia)) as Hl.
  split; [apply store_Some; lia|]. split; [apply length_splice; lia|].
  assert (Hs : slice 0 (u - k) m' = slice k (u - k) m).
  { rewrite <- Hl at 1. apply slice_splice_same; lia. }
  change (take (Z.to_nat (u - k)) m') with (slice 0 (u - k) m'). rewrite Hs. unfold slice.
  rewrite take_take_drop. f_equal. lia.
Qed.

(** A client whose SOCKS side is up and is not sending. *)
Record idle_socks (cl : tcp_client) (s : BSocksClient) : Prop := {
  id_open : socks_closed cl = false;
  id_up : socks_up cl = true /\ s_up s = true;
  id_to : s_dest s = local_addr cl;
  id_idle : s_sending s = None;
  id_recv : s_receiving s = true -> socks_recv_buf_used cl = -1;
  id_recv' : client_closed cl = false -> socks_recv_buf_used cl = -1 -> s_receiving s = true;
}.
Record unsent (cl : tcp_client) (s : BSocksClient) : Prop := {
  un_buf : zlen (buf cl) = TCP_WND;
  un_used : 0 <= buf_used cl <= TCP_WND;
  un_rbuf : zlen (socks_recv_buf cl) = CLIENT_SOCKS_RECV_BUF_SIZE;
  un_up : delivered (passed cl) = taken (passed cl) ++ take (Z.to_nat (buf_used cl)) (buf cl);
  un_pcb : match pcb cl with Some p => tcp_ok cl p | None => client_closed cl = true end;
  un_socks : socks_client cl = Some s;
  un_idle : idle_socks cl s;
}.
Lemma unsent_offered cl s : unsent cl s -> 0 < buf_used cl ->
  client_inv (with_socks (Some (mkSocks (s_dest s) (s_up s) (Some (take (Z.to_nat (buf_used cl)) (buf cl))) (s_receiving s))) cl).
Proof.
  intros [H1 H2 H3 H4 H5 H6 [I1 [I2 I3] I4 I5 I6 I7]] Hb. destruct (all_offered (buf cl) (buf_used cl)) as [A1 A2]; [lia|].
  constructor; cbn; try done.
  - destruct (pcb cl); [|done]. destruct H5. by constructor.
  - constructor; cbn; try done; try congruence; auto.
Qed.
Lemma unsent_inv cl s : unsent cl s -> buf_used cl = 0 -> client_closed cl = false -> client_inv cl.
Proof.
  intros [H1 H2 H3 H4 H5 H6 [I1 [I2 I3] I4 I5 I6 I7]] Hb Hc. constructor; cbn; try done.
  - destruct (pcb cl); [done|congruence].
  - rewrite H6. constructor; cbn; try done; try congruence; auto. by rewrite I5.
Qed.
Lemma unsent_base cl s : unsent cl s -> buf_used cl = 0 -> base_ok cl.
Proof.
  intros [H1 H2 H3 H4 H5 H6 [I1 [I2 I3] I4 I5 I6 I7]] Hb. constructor; cbn; try done.
  rewrite H6. constructor; cbn; try done; try congruence; auto. by rewrite I5.
Qed.
Definition send_further : act unit :=
  cl ← client c;
  if 0 <? buf_used cl then Sender_Send c
  else if client_closed cl then client_free_socks env c
  else mret tt.
Lemma sends_further cl s st n : unsent cl s -> in_frame cl st ->
  wp send_further (live cl st n) (fun _ => settled (client_closed cl) (dead_client cl) st).
Proof.
  intros Hu Hd. unfold send_further. wps. pose proof Hu as [H1 H2 H3 H4 H5 H6 [I1 [I2 I3] I4 I5 I6 I7]].
  destruct (Z.ltb_spec 0 (buf_used cl)).
  - eapply wp_Send; try done; [lia|]. pose proof (unsent_offered cl s Hu ltac:(done)) as Hi.
    destruct (client_closed cl) eqn:Hc; [by apply shut_closed|]. left. by eexists _, _.
  - assert (buf_used cl = 0) by lia. destruct (client_closed cl) eqn:Hc.
    + apply free_socks_closed; try done; [by eapply unsent_base|]. destruct (pcb cl); [|done]. destruct H5. congruence.
    + apply wp_ret. left. eexists _, _. split; [done|]. split; [by eapply unsent_inv|done].
Qed.
Lemma send_done cl dest data rcv k st n : client_inv cl ->
  socks_client cl = Some (mkSocks dest (socks_up cl) (Some data) rcv) -> 0 < k <= zlen data -> in_frame cl st ->
  wp (client_socks_send_handler_done env c k)
    (live (with_socks (Some (mkSocks dest (socks_up cl) None rcv)) (with_passed (mkStreams (delivered (passed cl))
       (taken (passed cl) ++ take (Z.to_nat k) data) (given (passed cl)) (written (passed cl))) cl)) st n)
    (fun _ => settled (client_closed cl) (dead_client cl) st).
Proof.
  intros [H1 H2 H3 H4 H5 H6] Es Hk Hd. rewrite Es in H6. destruct H6 as [S1 S2 S3 S4 S5 S6]. cbn in *.
  destruct S4 as (Hu & Hl & Hdata). destruct (rest_moved (buf cl) (buf_used cl) k) as (Est & Hlen & Hrest); [lia..|].
  set (m' := splice (buf cl) 0 (slice k (buf_used cl - k) (buf cl))) in *.
  assert (Hup : delivered (passed cl) = (taken (passed cl) ++ take (Z.to_nat k) data) ++ take (Z.to_nat (buf_used cl - k)) m').
  { rewrite H4, Hrest, Hdata, take_take, <- app_assoc. do 3 f_equal. lia. }
  assert (Hsk : idle_socks cl (mkSocks dest (socks_up cl) None rcv)) by (constructor; cbn; naive_solver).
  unfold client_socks_send_handler_done. wps; [cbn; by rewrite S1|cbn; lia|lia|cbn; lia|].
  eapply wp_some; [apply load_Some; cbn; lia|]. wps. eapply wp_some; [exact Est|]. wps. fold send_further. cbn [client_closed with_passed with_socks].
  destruct (pcb cl) as [p|] eqn:Ep.
  - pose proof H5 as [T1 T2 T3 T4 T5 T6]. rewrite T1. cbn [negb when]. wps. rewrite <- T1. eapply wp_mono; [eapply sends_further|done]; [|done].
    constructor; cbn; try done; [lia|lia| |by destruct Hsk; constructor].
    constructor; cbn; try done. intros _. rewrite T5 by done. lia.
  - destruct H5 as [T1 _]. rewrite T1. cbn [negb when]. wps. rewrite <- T1. eapply wp_mono; [eapply sends_further|done]; [|done].
    constructor; cbn; try done; [lia|lia|by rewrite Ep|by destruct Hsk; constructor].
Qed.
(** *** Sending to the client *)

(** A client in the middle of [client_socks_recv_send_out]. *)
Record queuing (cl : tcp_client) (p : tcp_pcb) : Prop := {
  q_base : base_ok cl;
  q_pcb : pcb cl = Some p;
  q_open : client_closed cl = false;
  q_up : socks_up cl = true;
  q_cb : cb_err p = true /\ cb_recv p = negb (socks_closed cl) /\ cb_sent p = true;
  q_wnd : socks_closed cl = false -> rcv_wnd p = TCP_WND - buf_used cl;
  q_unacked : unacked p = socks_recv_tcp_pending cl;
  q_pending : 0 <= socks_recv_tcp_pending cl;
  q_range : 0 <= socks_recv_buf_sent cl <= socks_recv_buf_used cl;
  q_used : 0 < socks_recv_buf_used cl <= CLIENT_SOCKS_RECV_BUF_SIZE;
  q_given : given (passed cl) = written (passed cl) ++
    slice (socks_recv_buf_sent cl) (socks_recv_buf_used cl - socks_recv_buf_sent cl) (socks_recv_buf cl);
}.
Definition wrote (k : Z) (p : tcp_pcb) (cl : tcp_client) : tcp_client :=
  let data := slice (socks_recv_buf_sent cl) k (socks_recv_buf cl) in
  with_recv (socks_recv_buf_used cl) (socks_recv_buf_sent cl + k) (socks_recv_waiting cl) (socks_recv_tcp_pending cl + k)
    (with_passed (mkStreams (delivered (passed cl)) (taken (passed cl)) (given (passed cl)) (written (passed cl) ++ data))
      (with_pcb (Some (mkPcb (cb_err p) (cb_recv p) (cb_sent p) (rcv_wnd p) (unacked p + zlen data))) cl)).
Lemma base_with_passed g wr cl : base_ok cl -> base_ok (with_passed (mkStreams (delivered (passed cl)) (taken (passed cl)) g wr) cl).
Proof. intros [H1 H2 H3 H4 H5]. constructor; try done. cbn. destruct (socks_client cl); [|done]. destruct H5. by constructor. Qed.
Lemma not_receiving cl s : base_ok cl -> 0 < socks_recv_buf_used cl -> socks_client cl = Some s -> s_receiving s = false.
Proof. intros [_ _ _ _ H] Hu Es. rewrite Es in H. destruct H as [_ _ _ _ H _]. destruct (s_receiving s); [destruct H; [done|lia]|done]. Qed.
Lemma base_with_recv_pos u s b p cl : base_ok cl -> 0 < socks_recv_buf_used cl -> 0 < u -> base_ok (with_recv u s b p cl).
Proof.
  intros Hb H0 Hu. pose proof Hb as [H1 H2 H3 H4 H5]. constructor; try done. cbn. destruct (socks_client cl) as [k|] eqn:Es; [|done].
  pose proof (not_receiving cl k Hb H0 Es) as Hr. destruct H5. constructor; cbn; try done; rewrite Hr; [done|lia].
Qed.
Lemma queuing_wrote k p cl : queuing cl p -> 0 < k <= socks_recv_buf_used cl - socks_recv_buf_sent cl ->
  exists p', queuing (wrote k p cl) p'.
Proof.
  intros [H1 H2 H3 H4 H5 H6 H7 H8 H9 H10 H11] Hk.
  assert (Hl : zlen (slice (socks_recv_buf_sent cl) k (socks_recv_buf cl)) = k) by (destruct H1; apply length_slice; lia).
  eexists. constructor; cbn; rewrite ?Hl; try done; try lia.
  - apply base_with_recv_pos; [|cbn; lia..]. by apply (base_with_passed _ _ (with_pcb _ cl)), base_with_pcb.
  - cbn. lia.
  - rewrite H11, <- app_assoc. f_equal.
    rewrite <- slice_app by lia. f_equal. lia.
Qed.
Lemma wp_sndbuf p cl st n (Q : Z -> tun -> Prop) : pcb cl = Some p -> Q (u16 (env n)) (live cl st (S n)) ->
  wp (tcp_sndbuf env c) (live cl st n) Q.
Proof. intros Hp H. unfold tcp_sndbuf. by wps. Qed.
Lemma loop_ok fuel : forall cl p st n, queuing cl p -> socks_recv_buf_sent cl < socks_recv_buf_used cl ->
  socks_recv_buf_used cl - socks_recv_buf_sent cl <= Z.of_nat fuel -> in_stack (dead_client cl) st ->
  wp (send_out_loop env fuel c) (live cl st n) (fun alive w' =>
    if alive then exists cl' p' n', w' = live cl' st n' /\ queuing cl' p' /\ dead_client cl' = dead_client cl /\
      socks_closed cl' = socks_closed cl /\ socks_recv_buf_used cl' = socks_recv_buf_used cl /\ socks_recv_buf_sent cl <= socks_recv_buf_sent cl' /\
      socks_recv_tcp_pending cl' - socks_recv_buf_sent cl' = socks_recv_tcp_pending cl - socks_recv_buf_sent cl
    else shut (kill (dead_client cl) st) w').
Proof.
  induction fuel as [|fuel IH]; [lia|]. intros cl p st n Hq Hlt Hf Hd.
  pose proof Hq as [H1 H2 H3 H4 H5 H6 H7 H8 H9 H10 H11]. cbn [send_out_loop]. wps. eapply wp_sndbuf; [done|].
  set (k := Z.min _ _). assert (Hk : 0 <= k <= socks_recv_buf_used cl - socks_recv_buf_sent cl).
  { unfold k, u16. pose proof (Z.mod_pos_bound (env n) (2 ^ 16)). lia. }
  destruct (Z.eqb_spec k 0). { apply wp_ret. exists cl, p. eexists. split; [done|]. split; [exact Hq|]. split_and!; try done; lia. }
  wps. eapply wp_some; [apply load_Some; destruct H1; lia|]. unfold tcp_write. wps.
  destruct (env (S n) =? ERR_OK) eqn:Ea; cbn [when].
  - wps. rewrite Ea. cbn [negb]. wps.
    destruct (queuing_wrote k p cl Hq) as [p' Hq']; [lia|]. fold (wrote k p cl). cbn.
    destruct (Z.ltb_spec (socks_recv_buf_sent cl + k) (socks_recv_buf_used cl)).
    + eapply wp_mono; [eapply IH; [exact Hq'|cbn; lia|cbn; lia|done]|]. intros [] w'; [|done]. cbn.
      intros (cl' & p2 & n' & E1 & E2 & E3 & E4 & E5 & E6 & E7). exists cl', p2, n'. split_and!; try done; lia.
    + apply wp_ret. eexists _, _, _. split; [done|]. split; [exact Hq'|]. cbn. repeat split; try done; lia.
  - wps. rewrite Ea. cbn [negb]. destruct (env (S n) =? ERR_MEM).
    { apply wp_ret. exists cl, p. eexists. split; [done|]. split; [exact Hq|]. split_and!; try done; lia. }
    wps. eapply wp_mono; [by eapply abort_client|]. intros ? ? H. by apply wp_ret.
Qed.
(** The client after [client_socks_recv_initiate], if SOCKS is open. *)
Definition started (cl : tcp_client) : tcp_client :=
  match socks_client cl with
  | Some s => with_socks (Some (mkSocks (s_dest s) (s_up s) (s_sending s) true)) cl
  | None => cl
  end.
Definition ready (cl : tcp_client) : Prop :=
  socks_recv_buf_used cl = -1 /\ client_inv (started cl) /\
  forall s, socks_client cl = Some s -> s_receiving s = false /\ s_up s = true.
Definition sent_out (d : option nat) (sc : bool) (st : list bool) (r : Z) (w' : tun) : Prop :=
  (r = 0 /\ exists cl n, w' = live cl st n /\ client_closed cl = false /\ dead_client cl = d /\ socks_closed cl = sc /\
     socks_up cl = true /\ 0 < socks_recv_tcp_pending cl /\ (ready cl \/ 0 < socks_recv_buf_used cl /\ client_inv cl)) \/
  (r = -1 /\ shut (kill d st) w').

Lemma queuing_waits cl p : queuing cl p -> socks_recv_buf_sent cl < socks_recv_buf_used cl -> 0 < socks_recv_tcp_pending cl ->
  client_inv (with_recv (socks_recv_buf_used cl) (socks_recv_buf_sent cl) true (socks_recv_tcp_pending cl) cl).
Proof.
  intros [H1 H2 H3 H4 H5 H6 H7 H8 H9 H10 H11] Hlt Hp.
  pose proof (base_with_recv_pos (socks_recv_buf_used cl) (socks_recv_buf_sent cl) true (socks_recv_tcp_pending cl) cl H1
    ltac:(lia) ltac:(lia)) as [B1 B2 B3 B4 B5]. constructor; try done.
  - cbn. rewrite H2. destruct H5 as (C1 & C2 & C3). constructor; cbn; try done; [by rewrite H4|].
    rewrite H4. split; [done|]. split; [done|]. right. cbn. split_and!; try done; lia.
  - cbn in *. destruct (socks_client cl); done.
Qed.
Lemma queuing_ready cl p : queuing cl p -> socks_recv_buf_sent cl = socks_recv_buf_used cl -> 0 < socks_recv_tcp_pending cl ->
  ready (with_recv (-1) (socks_recv_buf_sent cl) (socks_recv_waiting cl) (socks_recv_tcp_pending cl) cl).
Proof.
  intros [H1 H2 H3 H4 H5 H6 H7 H8 H9 H10 H11] He Hp. destruct H5 as (C1 & C2 & C3).
  assert (Hg : given (passed cl) = written (passed cl)).
  { rewrite H11, He, Z.sub_diag. apply app_nil_r. }
  pose proof (fun s => not_receiving cl s H1 ltac:(lia)) as Hr. destruct H1 as [B1 B2 B3 B4 B5].
  split; [done|]. split.
  - unfold started. cbn. destruct (socks_client cl) as [s|] eqn:Es; constructor; cbn; rewrite ?H2; try done.
    + constructor; cbn; try done; [by rewrite H4|]. rewrite H4. split; [done|]. split; [done|]. by left.
    + destruct B5. by constructor.
    + constructor; cbn; try done; [by rewrite H4|]. rewrite H4. split; [done|]. split; [done|]. by left.
    + by rewrite Es.
  - cbn. intros s Es. split; [by apply Hr|]. rewrite Es in B5. destruct B5. congruence.
Qed.
Lemma send_out_ok cl p st n : queuing cl p -> socks_recv_buf_sent cl < socks_recv_buf_used cl ->
  socks_recv_waiting cl = false -> in_stack (dead_client cl) st ->
  wp (client_socks_recv_send_out env c) (live cl st n) (sent_out (dead_client cl) (socks_closed cl) st).
Proof.
  intros Hq Hlt Hw Hd. pose proof Hq as [H1 H2 H3 H4 H5 H6 H7 H8 H9 H10 H11]. unfold client_socks_recv_send_out.
  wps; [by rewrite H3|lia|lia|by rewrite Hw|]. wps. eapply wp_mono; [eapply loop_ok; [done|done|lia|done]|].
  intros [] w' H; cbn [negb]; [|apply wp_ret; by right].
  destruct H as (cl' & p' & n' & -> & Hq' & E1 & E2 & E3 & E4 & E5). unfold tcp_output.
  pose proof Hq' as [Q1 Q2 Q3 Q4 _ _ _ Q8 Q9 Q10 _]. rewrite <- E1 in *. wps.
  assert (Ha : forall m, wp (client_abort_client c) (live cl' st m) (fun _ w' => wp (mret (-1)) w' (sent_out (dead_client cl') (socks_closed cl) st))).
  { intros m. eapply wp_mono; [by eapply abort_client|]. intros ? ? H. apply wp_ret. by right. }
  destruct (env n' =? ERR_OK); cbn [negb]; [|wps; apply Ha]. wps.
  destruct (Z.ltb_spec (socks_recv_buf_sent cl') (socks_recv_buf_used cl')).
  - destruct (Z.eqb_spec (socks_recv_tcp_pending cl') 0); [wps; apply Ha|]. wps. left. split; [done|].
    eexists _, _. split; [done|]. cbn. split_and!; try done; [lia|]. right. split; [lia|]. eapply queuing_waits; [done..|lia].
  - wps. left. split; [done|]. eexists _, _. split; [done|]. cbn. split_and!; try done; [lia|]. left.
    eapply queuing_ready; [done|lia..].
Qed.
Lemma wp_recv_initiate cl s st n (Q : unit -> tun -> Prop) : socks_client cl = Some s ->
  client_closed cl = false -> socks_closed cl = false -> socks_up cl = true -> socks_recv_buf_used cl = -1 ->
  s_up s = true -> s_receiving s = false -> Q tt (live (started cl) st n) -> wp (client_socks_recv_initiate c) (live cl st n) Q.
Proof.
  intros Es Hc Hs Hu Hm Hsu Hr. unfold started. rewrite Es. intros H. unfold client_socks_recv_initiate, Receiver_Recv.
  wps; [by rewrite Hc|by rewrite Hs|by rewrite Hm|]. wps. by rewrite Hsu, Hr.
Qed.
Lemma ready_initiate cl s st n : ready cl -> client_closed cl = false -> socks_closed cl = false -> socks_up cl = true ->
  socks_client cl = Some s -> wp (client_socks_recv_initiate c) (live cl st n) (fun _ w' => w' = live (started cl) st n).
Proof. intros (Hu & Hi & Hr) Hc Hs Hup Es. destruct (Hr s Es) as [Hr1 Hr2]. by eapply wp_recv_initiate. Qed.
Lemma started_fields cl : client_closed (started cl) = client_closed cl /\ dead_client (started cl) = dead_client cl /\
  socks_closed (started cl) = socks_closed cl /\ socks_recv_tcp_pending (started cl) = socks_recv_tcp_pending cl.
Proof. unfold started. by destruct (socks_client cl). Qed.
(** *** Receiving from SOCKS *)
Lemma data_arrived cl dest snd data : client_inv cl -> client_closed cl = false ->
  socks_client cl = Some (mkSocks dest (socks_up cl) snd true) -> 0 < zlen data <= CLIENT_SOCKS_RECV_BUF_SIZE ->
  exists p, queuing (with_recv (zlen data) 0 false (socks_recv_tcp_pending cl) (with_socks (Some (mkSocks dest (socks_up cl) snd false))
    (with_passed (mkStreams (delivered (passed cl)) (taken (passed cl)) (given (passed cl) ++ data) (written (passed cl)))
      (with_recv_buf (splice (socks_recv_buf cl) 0 data) cl)))) p.
Proof.
  intros [H1 H2 H3 H4 H5 H6] Hc Es Hl. rewrite Es in H6. destruct H6 as [S1 S2 S3 S4 S5 S6]. cbn in *. destruct S5 as [Hu Hm]; [done|].
  destruct (pcb cl) as [p|] eqn:Ep; [|destruct H5; congruence]. destruct H5 as [T1 T2 T3 T4 T5 T6]. rewrite Hu in *.
  destruct T6 as [T6 [T7 [[T8 T9]|[T8 _]]]]; [|lia]. exists p. constructor; cbn; try done; try lia.
  - constructor; cbn; try done; [rewrite length_splice; lia|]. constructor; cbn; try done; [by rewrite Hu|intros; lia].
  - rewrite T9. f_equal. rewrite Z.sub_0_r. symmetry. apply slice_splice_same; lia.
Qed.
(** [client_socks_recv_send_out] followed by [client_socks_recv_initiate] if needed. *)
Lemma sent_out_settled d st r w' : sent_out d false st r w' ->
  wp (if r <? 0 then mret tt else cl ← client c; when (socks_recv_buf_used cl =? -1) (client_socks_recv_initiate c)) w'
    (fun _ => settled false d st).
Proof.
  intros [[-> (cl & n & -> & Hc & Hd & Hs & Hu & Hp & H)]|[-> H]]; cbn; [|apply wp_ret; by right]. wps.
  destruct H as [H|[Hm H]].
  - assert (Hi : client_inv (started cl)) by apply H. rewrite (proj1 H). cbn [Z.eqb when].
    destruct (socks_client cl) as [s|] eqn:Es.
    + eapply wp_mono; [by eapply ready_initiate|]. intros _ ? ->. left. eexists _, _. split; [done|].
      destruct (started_fields cl) as (-> & -> & _). done.
    + destruct Hi as [_ _ _ _ _ Hi]. unfold started in Hi. rewrite Es in Hi. rewrite Es in Hi. destruct Hi; congruence.
  - rewrite (proj2 (Z.eqb_neq _ _)) by lia. apply wp_ret. left. by eexists _, _.
Qed.
Lemma recv_done cl dest snd data st n : client_inv cl ->
  socks_client cl = Some (mkSocks dest (socks_up cl) snd true) -> 0 < zlen data <= CLIENT_SOCKS_RECV_BUF_SIZE -> in_frame cl st ->
  wp (client_socks_recv_handler_done env c (zlen data)) (live (with_socks (Some (mkSocks dest (socks_up cl) snd false))
    (with_passed (mkStreams (delivered (passed cl)) (taken (passed cl)) (given (passed cl) ++ data) (written (passed cl)))
      (with_recv_buf (splice (socks_recv_buf cl) 0 data) cl))) st n) (fun _ => settled (client_closed cl) (dead_client cl) st).
Proof.
  intros Hi Es Hl Hd. pose proof Hi as [H1 H2 H3 H4 H5 H6]. rewrite Es in H6. destruct H6 as [S1 S2 S3 S4 S5 S6]. cbn in *.
  destruct S5 as [Hu Hm]; [done|]. unfold client_socks_recv_handler_done.
  wps; [lia|cbn; rewrite length_splice; lia|cbn; by rewrite S1|cbn; by rewrite Hm|]. cbn [client_closed with_passed with_socks with_recv_buf].
  destruct (client_closed cl) eqn:Hc.
  - wps. apply shut_closed; [|done]. constructor; cbn; try done; [rewrite length_splice; lia| |].
    + destruct (pcb cl); [destruct H5; congruence|]. by rewrite Hc.
    + by constructor; cbn; try done; rewrite ?Hc.
  - wps. destruct (data_arrived cl dest snd data Hi Hc Es Hl) as [p Hq].
    eapply wp_mono; [eapply (send_out_ok _ p); [exact Hq|cbn; lia|done|exact (Hd Hc)]|]. cbn. rewrite S1. intros r w'. apply sent_out_settled.
Qed.

(** *** The SOCKS connection comes up *)
Definition upped (dest : BAddr) (cl : tcp_client) : tcp_client :=
  with_socks_up true (with_pcb (option_map (fun p => mkPcb (cb_err p) (cb_recv p) true (rcv_wnd p) (unacked p)) (pcb cl))
    (with_recv (-1) (socks_recv_buf_sent cl) (socks_recv_waiting cl) 0 (with_socks (Some (mkSocks dest true None false)) cl))).
Lemma upped_inv cl dest snd rcv snd' : client_inv cl -> socks_client cl = Some (mkSocks dest false snd rcv) ->
  (snd' = if 0 <? buf_used cl then Some (take (Z.to_nat (buf_used cl)) (buf cl)) else None) ->
  client_inv (with_socks (Some (mkSocks dest true snd' (negb (client_closed cl)))) (upped dest cl)).
Proof.
  intros [H1 H2 H3 H4 H5 H6] Es ->. rewrite Es in H6. destruct H6 as [S1 S2 S3 S4 S5 S6]. cbn in *.
  constructor; cbn; try done.
  - destruct (pcb cl) as [p|]; [|done]. destruct H5 as [T1 T2 T3 T4 T5 T6]. constructor; cbn; try done.
    rewrite <- S3 in T6. destruct T6 as (T6 & T7 & T8). split; [done|]. split; [done|]. left. split; [done|]. cbn. congruence.
  - constructor; cbn; try done; [|by intros ->]. destruct (Z.ltb_spec 0 (buf_used cl)); [|lia].
    split; [done|]. by apply all_offered; lia.
Qed.
Lemma not_up_idle cl dest snd rcv : client_inv cl -> socks_client cl = Some (mkSocks dest false snd rcv) ->
  snd = None /\ rcv = false /\ socks_up cl = false /\ socks_closed cl = false.
Proof.
  intros [_ _ _ _ _ H] Es. rewrite Es in H. destruct H as [S1 S2 S3 S4 S5 S6]. cbn in *. rewrite <- S3 in *.
  split_and!; try done; [destruct snd; [by destruct S4|done]|]. destruct rcv; [by destruct S5|done].
Qed.
Lemma socks_came_up cl dest snd rcv st n : client_inv cl -> socks_client cl = Some (mkSocks dest false snd rcv) ->
  wp (client_socks_handler env c EVENT_UP) (live (with_socks (Some (mkSocks dest true snd rcv)) cl) st n)
    (fun _ => settled (client_closed cl) (dead_client cl) st).
Proof.
  intros Hi Es. destruct (not_up_idle _ _ _ _ Hi Es) as (-> & -> & Hu & Hs). pose proof (upped_inv _ _ _ _ _ Hi Es eq_refl) as Hi'.
  pose proof Hi as [H1 H2 H3 H4 H5 H6]. unfold client_socks_handler. wps; [cbn; by rewrite Hs|cbn; by rewrite Hu|].
  cbn [client_closed with_socks buf_used]. unfold upped in Hi'. destruct (pcb cl) as [p|] eqn:Ep.
  - destruct H5 as [Hc _ _ _ _ _]. rewrite Hc in *. cbn [negb when]. wps.
    destruct (Z.ltb_spec 0 (buf_used cl)); cbn [when].
    + eapply wp_send_to_socks; [done..|cbn; lia|]. wps. cbn. rewrite Hc. cbn [negb when].
      eapply wp_recv_initiate; [done..|]. left. by eexists _, _.
    + wps. cbn. rewrite Hc. cbn [negb when]. eapply wp_recv_initiate; [done..|]. left. by eexists _, _.
  - destruct H5 as (Hc & Hb & _). rewrite Hc in *. cbn [negb when]. wps.
    rewrite (proj2 (Z.ltb_lt 0 (buf_used cl)) Hb) in *. cbn [when].
    eapply wp_send_to_socks; [done..|cbn; lia|]. wps. cbn. rewrite Hc. cbn [negb when].
    apply wp_ret. apply shut_closed; [|done]. unfold with_socks, with_socks_up, with_recv, with_pcb in *. cbn in *. by rewrite Ep.
Qed.
Lemma socks_handler cl dest up snd rcv event st n : client_inv cl -> socks_client cl = Some (mkSocks dest up snd rcv) ->
  (match event with EVENT_ERROR => true | EVENT_UP => negb up | EVENT_ERROR_CLOSED => up end = true) -> in_frame cl st ->
  wp (client_socks_handler env c event) (live (with_socks (Some (mkSocks dest (match event with EVENT_UP => true | _ => up end) snd rcv)) cl) st n)
    (fun _ => settled (client_closed cl) (dead_client cl) st).
Proof.
  intros Hi Es He Hd. destruct event; [|destruct up; [done|by eapply socks_came_up]|].
  all: assert (Hsc : socks_closed cl = false /\ up = socks_up cl) by (destruct Hi as [_ _ _ _ _ H]; rewrite Es in H; by destruct H).
  all: assert (Hi' : client_inv (with_socks (Some (mkSocks dest up snd rcv)) cl)) by (destruct cl; cbn in *; by rewrite <- Es).
  all: destruct Hsc as [Hs Hu]; unfold client_socks_handler; wps; try (cbn; by rewrite Hs).
  all: wps; try (cbn; by rewrite <- Hu).
  all: (eapply wp_mono; [by apply free_socks|done]).
Qed.
(** *** One event of the SOCKS side *)
Definition ev_client (e : socks_event) : Z := match e with SocksEvent c _ | SendDone c _ | RecvDone c _ => c end.
Lemma settled_refl cl st n : client_inv cl -> settled (client_closed cl) (dead_client cl) st (live cl st n).
Proof.
  intros Hi. unfold settled. destruct (client_closed cl) eqn:Hc; [by apply shut_closed|]. left. by eexists _, _.
Qed.
Ltac refold := match goal with |- exists _ _, ?m (TcpClient.live w c ?cl ?st ?n) = _ /\ _ =>
  change (wp m (live cl st n) (fun _ => settled (client_closed cl) (dead_client cl) st)) end.
Lemma socks_is_up cl dest up snd rcv : client_inv cl -> socks_client cl = Some (mkSocks dest up snd rcv) -> up = socks_up cl.
Proof. intros [_ _ _ _ _ H] Es. rewrite Es in H. by destruct H. Qed.
Lemma fire_socks_client e cl st n : ev_client e = c -> client_inv cl -> in_frame cl st ->
  wp (fire_socks env e) (live cl st n) (fun _ => settled (client_closed cl) (dead_client cl) st).
Proof.
  intros He Hi Hd. pose proof (settled_refl cl st n Hi) as Hr. unfold wp, fire_socks.
  assert (Hl : heap (live cl st n) !! c = Some cl) by apply lookup_insert_eq.
  destruct e as [c' event|c' k|c' data]; cbn in He; subst c'; rewrite Hl; cbn [mbind option_bind].
  - destruct (socks_client cl) as [[dest up snd rcv]|] eqn:Es; [|by eexists _, _]. cbn [s_dest s_up s_sending s_receiving].
    destruct (match event with EVENT_ERROR => true | EVENT_UP => negb up | EVENT_ERROR_CLOSED => up end) eqn:Ev; [|by eexists _, _].
    refold.
    wps. by eapply socks_handler.
  - destruct (socks_client cl) as [[dest up [data|] rcv]|] eqn:Es; [|by eexists _, _..].
    destruct ((0 <? k) && (k <=? zlen data)) eqn:Ek; [|by eexists _, _]. pose proof (socks_is_up _ _ _ _ _ Hi Es) as ->.
    refold.
    wps. apply andb_true_iff in Ek as [E1%Z.ltb_lt E2%Z.leb_le]. by apply (send_done cl).
  - destruct (socks_client cl) as [[dest up snd []]|] eqn:Es; [|by eexists _, _..].
    destruct ((0 <? zlen data) && (zlen data <=? CLIENT_SOCKS_RECV_BUF_SIZE)) eqn:Ek; [|by eexists _, _].
    pose proof (socks_is_up _ _ _ _ _ Hi Es) as ->. apply andb_true_iff in Ek as [E1%Z.ltb_lt E2%Z.leb_le].
    refold.
    wps. eapply wp_some; [apply store_Some; [lia|]; destruct Hi; lia|]. wps. by apply (recv_done cl).
Qed.
End handlers.

(** ** The state between events *)
Definition is_open (w : tun) (c : Z) : bool :=
  match heap w !! c with Some cl => negb (client_closed cl) | None => false end.
(** [fr] is the client for which a frame of [DEAD_ENTER] is on the stack. *)
Definition frame_of (fr : option Z) (c : Z) : option nat := if decide (fr = Some c) then Some 0%nat else None.
Lemma frame_none c : frame_of None c = None.
Proof. unfold frame_of. by rewrite decide_False. Qed.
Definition frame_stack (fr : option Z) (w : tun) : list bool :=
  match fr with Some c => [negb (is_open w c)] | None => [] end.
Record winv (fr : option Z) (w : tun) : Prop := {
  w_inv : forall c cl, heap w !! c = Some cl -> client_inv cl;
  w_dead : forall c cl, heap w !! c = Some cl -> client_closed cl = false -> dead_client cl = frame_of fr c;
  w_nodup : NoDup (tcp_clients w);
  w_list : forall c, c ∈ tcp_clients w <-> is_Some (heap w !! c);
  w_num : num_clients w = zlen (tcp_clients w);
  w_stack : stack w = frame_stack fr w;
}.
Lemma live_self w c cl : heap w !! c = Some cl -> live w c cl (stack w) (asked w) = w.
Proof. intros H. destruct w. unfold live. cbn in *. by rewrite insert_id. Qed.
Lemma winv_some fr w c cl : winv fr w -> heap w !! c = Some cl -> 0 < num_clients w /\ client_inv cl.
Proof.
  intros [H1 H2 H3 H4 H5 H6] Hc. split; [|eauto]. rewrite H5. assert (Hin : c ∈ tcp_clients w) by (apply H4; eauto).
  destruct (tcp_clients w); [by apply elem_of_nil in Hin|]. cbn. lia.
Qed.
Lemma winv_live fr w c cl cl' st n : winv fr w -> heap w !! c = Some cl -> client_inv cl' ->
  (client_closed cl' = false -> dead_client cl' = frame_of fr c) -> st = frame_stack fr (live w c cl' st n) -> winv fr (live w c cl' st n).
Proof.
  intros [H1 H2 H3 H4 H5 H6] Hc Hi Hd Hs. constructor; cbn; try done.
  - intros a x. destruct (decide (a = c)) as [->|]; [rewrite lookup_insert_eq; by intros [= <-]|rewrite lookup_insert_ne by done; eauto].
  - intros a x. destruct (decide (a = c)) as [->|]; [rewrite lookup_insert_eq; by intros [= <-]|rewrite lookup_insert_ne by done; eauto].
  - intros a. rewrite H4. destruct (decide (a = c)) as [->|]; [rewrite lookup_insert_eq, Hc|by rewrite lookup_insert_ne]. split; eauto.
Qed.
Lemma length_filter_ne (l : list Z) c : NoDup l -> c ∈ l -> S (length (filter (fun d => d <> c) l)) = length l.
Proof.
  induction l as [|a l IH]; intros Hn Hc; [by apply elem_of_nil in Hc|]. apply list_relations.list.NoDup_cons in Hn as [Ha Hn].
  rewrite filter_cons. destruct (decide (a <> c)) as [Hne|Heq].
  - cbn. f_equal. apply IH; [done|]. apply elem_of_cons in Hc as [->|]; done.
  - apply dec_stable in Heq as ->. cbn. f_equal. clear IH Hn Hc. induction l as [|b l IH]; [done|].
    apply not_elem_of_cons in Ha as [Hb Ha]. rewrite filter_cons. rewrite decide_True by done. cbn. f_equal. by apply IH.
Qed.
Lemma winv_gone fr w c cl st n : winv fr w -> heap w !! c = Some cl -> st = frame_stack fr (gone w c st n) -> winv fr (gone w c st n).
Proof.
  intros [H1 H2 H3 H4 H5 H6] Hc Hs. constructor; cbn; try done.
  - intros a x [_ Ha]%lookup_delete_Some. eauto.
  - intros a x [_ Ha]%lookup_delete_Some. eauto.
  - by apply list_relations.list.NoDup_filter.
  - intros a. rewrite list_elem_of_filter, H4. destruct (decide (a = c)) as [->|].
    + rewrite lookup_delete_eq. split; [by intros []|by intros []].
    + rewrite lookup_delete_ne by done. tauto.
  - rewrite <- (length_filter_ne (tcp_clients w) c) in H5; [lia|done|]. apply H4. eauto.
Qed.
Lemma is_open_live w c cl st n a : is_open (live w c cl st n) a = if decide (a = c) then negb (client_closed cl) else is_open w a.
Proof. unfold is_open, live. cbn. destruct (decide (a = c)) as [->|]; [by rewrite lookup_insert_eq|by rewrite lookup_insert_ne]. Qed.
Lemma is_open_gone w c st n a : is_open (gone w c st n) a = if decide (a = c) then false else is_open w a.
Proof. unfold is_open, gone. cbn. destruct (decide (a = c)) as [->|]; [by rewrite lookup_delete_eq|by rewrite lookup_delete_ne]. Qed.
(** The frame of a client is killed when the client closes. *)
Lemma stack_after fr w c w' : winv fr w -> is_open w c = true -> (forall a, is_open w' a = if decide (a = c) then false else is_open w a) ->
  kill (frame_of fr c) (stack w) = frame_stack fr w'.
Proof.
  intros Hw Ho H. rewrite (w_stack _ _ Hw). unfold frame_of, frame_stack. destruct fr as [a|]; [|done]. rewrite H.
  destruct (decide (Some a = Some c)) as [[= ->]|Hne]; [by rewrite decide_True|]. by rewrite decide_False by congruence.
Qed.
Lemma stack_same fr w w' : winv fr w -> (forall a, is_open w' a = is_open w a) -> stack w = frame_stack fr w'.
Proof. intros Hw H. rewrite (w_stack _ _ Hw). destruct fr; cbn; [|done]. by rewrite H. Qed.
Lemma shut_winv fr w c cl w' : winv fr w -> heap w !! c = Some cl ->
  shut w c (if client_closed cl then stack w else kill (frame_of fr c) (stack w)) w' -> winv fr w' /\ is_open w' c = false.
Proof.
  intros Hw Hc. assert (Ho : is_open w c = negb (client_closed cl)) by (unfold is_open; by rewrite Hc).
  intros [cl' n Hi Hcl|n].
  - split; [|by rewrite is_open_live, decide_True, Hcl]. eapply winv_live; [done|done|done|congruence|].
    destruct (client_closed cl); [eapply stack_same|eapply stack_after]; try done; intros a; rewrite is_open_live, Hcl; [|done].
    by destruct (decide (a = c)) as [->|].
  - split; [|by rewrite is_open_gone, decide_True]. eapply winv_gone; [done|done|].
    destruct (client_closed cl); [eapply stack_same|eapply stack_after]; try done; intros a; rewrite is_open_gone; [|done].
    by destruct (decide (a = c)) as [->|].
Qed.
Lemma settled_winv fr w c cl w' : winv fr w -> heap w !! c = Some cl ->
  settled w c (client_closed cl) (dead_client cl) (stack w) w' -> winv fr w'.
Proof.
  intros Hw Hc Hs. pose proof (w_dead _ _ Hw c cl Hc) as Hd. pose proof (shut_winv fr w c cl w' Hw Hc) as Hshut.
  unfold settled in Hs. destruct (client_closed cl) eqn:Hcl; [by apply Hshut|]. rewrite Hd in * by done.
  destruct Hs as [(cl' & n & -> & Hi & Hcl' & Hd')|Hs]; [|by apply Hshut]. eapply winv_live; [done..|].
  eapply stack_same; [done|]. intros a. rewrite is_open_live. destruct (decide (a = c)) as [->|]; [|done].
  unfold is_open. by rewrite Hc, Hcl, Hcl'.
Qed.
Lemma winv_in_stack fr w c cl : winv fr w -> heap w !! c = Some cl -> client_closed cl = false -> in_stack (dead_client cl) (stack w).
Proof.
  intros Hw Hc Hcl. rewrite (w_dead _ _ Hw c cl Hc Hcl), (w_stack _ _ Hw). unfold frame_of, frame_stack.
  destruct fr as [a|]; [|done]. destruct (decide (Some a = Some c)); cbn; [lia|done].
Qed.
Lemma fire_socks_winv env fr e w : winv fr w -> wp (fire_socks env e) w (fun _ => winv fr).
Proof.
  intros Hw. destruct (heap w !! ev_client e) as [cl|] eqn:Hc.
  - destruct (winv_some _ _ _ _ Hw Hc) as [Hn Hi].
    pose proof (fire_socks_client env w (ev_client e) Hn e cl (stack w) (asked w) eq_refl Hi (winv_in_stack fr w _ cl Hw Hc)) as H.
    rewrite live_self in H by done. eapply wp_mono; [exact H|]. intros ? w'. by apply settled_winv.
  - apply (wp_noop _ tt); [|done]. destruct e; cbn in *; by rewrite Hc.
Qed.
Lemma sync_winv env fr es : forall w, winv fr w -> wp (sync env es) w (fun _ => winv fr).
Proof.
  induction es as [|e es IH]; intros w Hw; cbn; [by apply wp_ret|]. apply wp_bind.
  eapply wp_mono; [by apply fire_socks_winv|]. intros ? w' Hw'. by apply IH.
Qed.
Lemma client_inv_with_dead d cl : client_inv cl -> client_inv (with_dead d cl).
Proof.
  intros [H1 H2 H3 H4 H5 H6]. constructor; try done; cbn.
  - destruct (pcb cl); [|done]. destruct H5. by constructor.
  - destruct (socks_client cl); [|done]. destruct H6. by constructor.
Qed.
(** [DEAD_ENTER] and [DEAD_LEAVE2] *)
Lemma enter_winv w c cl : winv None w -> heap w !! c = Some cl -> client_closed cl = false ->
  wp (DEAD_ENTER c) w (fun frame w' => frame = (0%nat, None) /\ winv (Some c) w').
Proof.
  intros Hw Hc Hcl. pose proof (w_stack _ _ Hw) as Hs. pose proof (w_dead _ _ Hw _ _ Hc Hcl) as Hd. cbn in Hs, Hd.
  destruct w as [h l k st n]. cbn in *. subst st. unfold DEAD_ENTER, wp.
  unfold modify, mbind, prog_bind, client, get_stack, set_stack, put, lift. cbn. rewrite Hc. cbn. rewrite Hc. cbn.
  eexists _, _. split; [done|]. rewrite Hd. split; [done|]. destruct Hw as [H1 H2 H3 H4 H5 H6]. unfold set_client. cbn in *.
  constructor; cbn; try done.
  - intros a x. destruct (decide (a = c)) as [->|]; [|rewrite lookup_insert_ne by done; by apply H1]. rewrite lookup_insert_eq. intros [= <-].
    by apply client_inv_with_dead, (H1 c).
  - intros a x. unfold frame_of. destruct (decide (a = c)) as [->|]; [rewrite lookup_insert_eq, decide_True by done; by intros [= <-]|].
    rewrite lookup_insert_ne, decide_False by congruence. intros Ha Hx. by rewrite (H2 a x Ha Hx).
  - intros a. rewrite H4. destruct (decide (a = c)) as [->|]; [rewrite lookup_insert_eq, Hc|by rewrite lookup_insert_ne]. split; eauto.
  - unfold is_open. cbn. rewrite lookup_insert_eq. cbn. by rewrite Hcl.
Qed.
Lemma leave_winv w c : winv (Some c) w ->
  wp (DEAD_LEAVE2 c (0%nat, None)) w (fun killed w' => killed = negb (is_open w' c) /\ winv None w').
Proof.
  intros Hw. pose proof (w_stack _ _ Hw) as Hs. unfold frame_stack, is_open in Hs. cbn in Hs. destruct w as [h l k st n]. cbn in *. subst st.
  destruct Hw as [H1 H2 H3 H4 H5 H6]. cbn in *. unfold DEAD_LEAVE2, wp, is_open.
  unfold when, modify, mbind, prog_bind, client, get_stack, set_stack, put, lift. cbn. destruct (h !! c) as [cl|] eqn:Hc; cbn.
  - destruct (client_closed cl) eqn:Hcl; cbn.
    + eexists _, _. split; [done|]. cbn. rewrite ?Hc, ?Hcl. split; [done|]. constructor; cbn; try done. intros a x Ha Hx.
      rewrite (H2 a x Ha Hx). unfold frame_of. by rewrite decide_False by congruence.
    + rewrite ?Hc. cbn. rewrite ?Hc. eexists _, _. split; [done|]. cbn. rewrite lookup_insert_eq. cbn. rewrite Hcl. split; [done|].
      constructor; cbn; try done.
      * intros a x. destruct (decide (a = c)) as [->|]; [|rewrite lookup_insert_ne by done; by apply H1]. rewrite lookup_insert_eq.
        intros [= <-]. by apply client_inv_with_dead, (H1 c).
      * intros a x. destruct (decide (a = c)) as [->|]; [rewrite lookup_insert_eq; by intros [= <-]|]. rewrite lookup_insert_ne by done.
        intros Ha Hx. rewrite (H2 a x Ha Hx). unfold frame_of. by rewrite decide_False by congruence.
      * intros a. rewrite H4. destruct (decide (a = c)) as [->|]; [rewrite lookup_insert_eq, Hc|by rewrite lookup_insert_ne]. split; eauto.
  - eexists _, _. split; [done|]. cbn. rewrite ?Hc. split; [done|]. constructor; cbn; try done. intros a x Ha Hx.
    rewrite (H2 a x Ha Hx). unfold frame_of. by rewrite decide_False by congruence.
Qed.
Lemma sync_dead_winv env es w c cl : winv None w -> heap w !! c = Some cl -> client_closed cl = false ->
  wp (sync_dead env c es) w (fun killed w' => killed = negb (is_open w' c) /\ winv None w').
Proof.
  intros Hw Hc Hcl. unfold sync_dead. apply wp_bind. eapply wp_mono; [by eapply enter_winv|]. intros frame w1 [-> H1]. apply wp_bind.
  eapply wp_mono; [by apply sync_winv|]. intros ? w2 H2. by apply leave_winv.
Qed.

(** ** The handlers that lwIP calls *)
(** lwIP must be told [ERR_ABRT] if and only if the pcb is gone. *)
Definition reported (r : Z) (w : tun) (c : Z) : Prop :=
  winv None w /\ r = if is_open w c then ERR_OK else ERR_ABRT.

Section lwip.
Context (env : nat -> Z) (w : tun) (c : Z) (cl : tcp_client) (p : tcp_pcb).
Context (Hw : winv None w) (Hc : heap w !! c = Some cl) (Hp : pcb cl = Some p).
Let st := stack w.

Lemma the_client : client_inv cl /\ tcp_ok cl p /\ 0 < num_clients w /\ client_closed cl = false /\ dead_client cl = None.
Proof.
  destruct (winv_some _ _ _ _ Hw Hc) as [Hn Hi]. pose proof Hi as [_ _ _ _ H _]. rewrite Hp in H.
  assert (client_closed cl = false) by apply H. split_and!; try done. by apply (w_dead _ _ Hw c).
Qed.
Lemma still_open cl' n : client_inv cl' -> client_closed cl' = false -> dead_client cl' = None ->
  reported ERR_OK (live w c cl' st n) c /\ heap (live w c cl' st n) !! c = Some cl'.
Proof.
  intros Hi Hcl Hd. destruct the_client as (_ & _ & _ & Hcl0 & Hd0). split; [|apply lookup_insert_eq]. split.
  - eapply settled_winv; [exact Hw|exact Hc|]. rewrite Hcl0, Hd0. left. by eexists _, _.
  - by rewrite is_open_live, decide_True, Hcl.
Qed.
Lemma now_shut w' : shut w c st w' -> reported ERR_ABRT w' c.
Proof.
  intros H. destruct the_client as (_ & _ & _ & Hcl0 & Hd0). destruct (shut_winv None w c cl w' Hw Hc) as [H1 H2].
  - by rewrite Hcl0.
  - split; [done|]. by rewrite H2.
Qed.
Lemma err_reported : wp (client_err_func c) (live w c (with_pcb None cl) st (asked w)) (fun _ w' => reported ERR_ABRT w' c).
Proof.
  destruct the_client as (Hi & _ & Hn & Hcl & Hd). eapply wp_mono.
  - apply err_func; [done|by apply base_with_pcb, client_inv_base|done|done|]. cbn. by rewrite Hd.
  - cbn. rewrite Hd. intros _ w' H. by apply now_shut.
Qed.
(** The end of the data *)
Lemma eof_reported es : wp (client_recv_func env c None es) (live w c cl st (asked w)) (fun r w' => r = (ERR_ABRT, false) /\ reported ERR_ABRT w' c).
Proof.
  destruct the_client as (Hi & _ & Hn & Hcl & Hd). unfold client_recv_func. wps; [by rewrite Hcl|]. wps.
  eapply wp_mono; [eapply free_client; [done|by apply client_inv_base|done|done|by rewrite Hd]|]. rewrite Hd. intros ? w' H.
  apply wp_ret. split; [done|]. by apply now_shut.
Qed.
(** lwIP delivers data. *)
Definition delivers (data : list Z) : tcp_client :=
  with_passed (mkStreams (delivered (passed cl) ++ data) (taken (passed cl)) (given (passed cl)) (written (passed cl)))
    (with_pcb (Some (mkPcb (cb_err p) (cb_recv p) (cb_sent p) (rcv_wnd p - zlen data) (unacked p))) cl).
Definition buffered (data : list Z) : tcp_client :=
  with_buf (splice (buf cl) (buf_used cl) data) (buf_used cl + zlen data) (delivers data).
Lemma delivers_fits (data : list Z) : cb_recv p = true -> 0 < zlen data <= rcv_wnd p ->
  socks_closed cl = false /\ 0 <= buf_used cl /\ zlen (buf cl) = TCP_WND /\ rcv_wnd p = TCP_WND - buf_used cl /\ buf_used cl + zlen data <= TCP_WND.
Proof.
  intros Hr Hl. destruct the_client as ([H1 H2 _ _ _ _] & [T1 T2 T3 T4 T5 T6] & _). rewrite Hr in T3.
  destruct (socks_closed cl); [done|]. rewrite (T5 eq_refl) in *. lia.
Qed.
Lemma buffered_up (data : list Z) : cb_recv p = true -> 0 < zlen data <= rcv_wnd p ->
  zlen (buf (buffered data)) = TCP_WND /\ 0 <= buf_used (buffered data) <= TCP_WND /\
  delivered (passed (buffered data)) = taken (passed (buffered data)) ++ take (Z.to_nat (buf_used (buffered data))) (buf (buffered data)) /\
  exists p', pcb (buffered data) = Some p' /\ tcp_ok (buffered data) p'.
Proof.
  intros Hr Hl. destruct (delivers_fits data Hr Hl) as (F1 & F2 & F3 & F4 & F5).
  destruct the_client as ([H1 H2 _ H4 _ _] & [T1 T2 T3 T4 T5 T6] & _). cbn. rewrite length_splice by lia. split_and!; try done; try lia.
  - rewrite take_splice, H4, app_assoc by lia. done.
  - eexists. split; [done|]. constructor; cbn; try done. lia.
Qed.
Lemma buffered_inv (data : list Z) : cb_recv p = true -> 0 < zlen data <= rcv_wnd p -> (socks_up cl = true -> 0 < buf_used cl) -> client_inv (buffered data).
Proof.
  intros Hr Hl Hb. destruct (delivers_fits data Hr Hl) as (F1 & F2 & F3 & F4 & F5).
  destruct (buffered_up data Hr Hl) as (U1 & U2 & U3 & p' & U4 & U5). destruct the_client as ([_ _ H3 _ _ H6] & _).
  constructor; try done; [by rewrite U4|]. cbn. destruct (socks_client cl) as [s|]; [|by destruct H6].
  destruct H6 as [S1 S2 S3 S4 S5 S6]. constructor; cbn; try done. destruct (s_sending s) as [d|].
  - destruct S4 as (A & B & D). split; [done|]. split; [lia|]. rewrite take_splice_before by lia. done.
  - intros Hu. specialize (S4 Hu). specialize (Hb Hu). lia.
Qed.
Lemma buffered_unsent (data : list Z) : cb_recv p = true -> 0 < zlen data <= rcv_wnd p -> socks_up cl = true -> buf_used cl = 0 ->
  exists s, unsent (buffered data) s.
Proof.
  intros Hr Hl Hu Hb. destruct (delivers_fits data Hr Hl) as (F1 & F2 & F3 & F4 & F5).
  destruct (buffered_up data Hr Hl) as (U1 & U2 & U3 & p' & U4 & U5). destruct the_client as ([_ _ H3 _ _ H6] & _).
  destruct (socks_client cl) as [s|] eqn:Es; [|destruct H6; congruence]. destruct H6 as [S1 S2 S3 S4 S5 S6]. exists s.
  constructor; try done; [by rewrite U4|]. constructor; cbn; try done; [split; congruence| |naive_solver..].
  destruct (s_sending s); [lia|done].
Qed.
Lemma recv_reported (data : list Z) es : cb_recv p = true -> 0 < zlen data <= rcv_wnd p ->
  wp (client_recv_func env c (Some data) es) (live w c (delivers data) st (asked w))
    (fun r w' => reported (fst r) w' c /\ snd r = is_open w' c).
Proof.
  intros Hr Hl. destruct (delivers_fits data Hr Hl) as (F1 & F2 & F3 & F4 & F5). destruct the_client as (Hi & _ & Hn & Hcl & Hd).
  unfold client_recv_func. wps; [cbn; by rewrite Hcl|lia|]. cbn. rewrite (proj2 (Z.ltb_ge _ _)) by lia. wps.
  eapply wp_some; [apply store_Some; lia|]. wps. fold (buffered data). cbn.
  assert (Hdone : client_inv (buffered data) -> wp (mret (ERR_OK, true)) (live w c (buffered data) st (asked w))
    (fun r w' => reported (fst r) w' c /\ snd r = is_open w' c)).
  { intros Hb. apply wp_ret. destruct (still_open (buffered data) (asked w)) as [H _]; [done..|]. split; [done|].
    by rewrite is_open_live, decide_True; cbn; rewrite ?Hcl. }
  destruct (Z.eqb_spec (buf_used cl + zlen data) (zlen data)); cbn; [|apply Hdone, buffered_inv; try done; lia].
  destruct (socks_up cl) eqn:Hu; [|apply Hdone, buffered_inv; by rewrite ?Hu].
  destruct (buffered_unsent data Hr Hl Hu) as [s Hs]; [lia|]. pose proof Hs as [N1 N2 N3 N4 N5 N6 [I1 [I2 I3] I4 I5 I6 I7]].
  wps; [by rewrite F1|]. wps. eapply wp_send_to_socks; [done..|cbn in N1, N2 |- *; lia|]. wps.
  pose proof (unsent_offered _ _ Hs ltac:(cbn; lia)) as Hi'. destruct (still_open _ (asked w) Hi') as [[Hw' _] Hc']; [done..|].
  eapply wp_mono; [by eapply sync_dead_winv|]. intros killed w' [-> Hw2]. destruct (is_open w' c) eqn:Ho; cbn; apply wp_ret.
  - split; [|done]. split; [done|]. by rewrite Ho.
  - split; [|done]. split; [done|]. by rewrite Ho.
Qed.
(** lwIP confirms data. *)
Definition acked (len : Z) : tcp_client :=
  with_pcb (Some (mkPcb (cb_err p) (cb_recv p) (cb_sent p) (rcv_wnd p) (unacked p - len))) cl.
Definition confirmed (waiting : bool) (len : Z) : tcp_client :=
  with_recv (socks_recv_buf_used cl) (socks_recv_buf_sent cl) waiting (socks_recv_tcp_pending cl - len) (acked len).
Lemma acked_up (len : Z) : cb_sent p = true -> socks_up cl = true /\ unacked p = socks_recv_tcp_pending cl /\ recv_ok cl.
Proof. intros Hs. destruct the_client as (_ & [T1 T2 T3 T4 T5 T6] & _). rewrite <- T4, Hs in T6. by rewrite <- T4. Qed.
Lemma confirmed_queuing (len : Z) : cb_sent p = true -> 0 < len <= unacked p -> 0 < socks_recv_buf_used cl ->
  exists p', queuing (confirmed false len) p' /\ socks_recv_buf_sent cl < socks_recv_buf_used cl /\ socks_recv_waiting cl = true.
Proof.
  intros Hs Hl Hu. destruct (acked_up len Hs) as (Hup & Hun & H1 & [[H2 _]|(H2 & H3 & H4 & H5 & H6)]); [lia|].
  destruct the_client as (Hi & [T1 T2 T3 T4 T5 T6] & _). eexists. split_and!; [|lia|done].
  constructor; try done; cbn; try lia.
  apply base_with_recv_pos; [|done|done]. by apply base_with_pcb, client_inv_base.
Qed.
Lemma confirmed_inv (len : Z) : cb_sent p = true -> 0 < len <= unacked p -> socks_recv_buf_used cl <= 0 ->
  socks_closed cl && (socks_recv_tcp_pending cl - len =? 0) = false -> client_inv (confirmed (socks_recv_waiting cl) len).
Proof.
  intros Hs Hl Hu Hd. destruct (acked_up len Hs) as (Hup & Hun & H1 & [[H2 H3]|(H2 & _)]); [|lia].
  destruct the_client as ([I1 I2 I3 I4 I5 I6] & [T1 T2 T3 T4 T5 T6] & _). constructor; cbn; try done.
  - constructor; cbn; try done. rewrite Hup. split; [lia|]. split; cbn; [lia|by left].
  - destruct (socks_client cl) as [s|]; [destruct I6; by constructor|]. destruct I6 as (J1 & J2 & J3). split_and!; try done.
    rewrite J1 in Hd. cbn in Hd. apply Z.eqb_neq in Hd. lia.
Qed.
Lemma synced (m : act unit) cl' n es :
  wp m (live w c cl' st n) (fun _ w' => w' = live w c (started cl') st n) ->
  client_inv (started cl') -> client_closed cl' = false -> dead_client cl' = None ->
  wp (_ ← m; killed ← sync_dead env c es; if killed : bool then mret ERR_ABRT else mret ERR_OK) (live w c cl' st n)
    (fun r w' => reported r w' c).
Proof.
  intros Hm Hi Hcl Hd. destruct (started_fields cl') as (F1 & F2 & _). apply wp_bind. eapply wp_mono; [exact Hm|]. intros ? ? ->. wps.
  destruct (still_open _ n Hi) as [[Hw' _] Hc']; [congruence..|]. eapply wp_mono; [eapply sync_dead_winv; try done; congruence|].
  intros killed w' [-> Hw2]. destruct (is_open w' c) eqn:Ho; cbn; apply wp_ret; split; try done; by rewrite Ho.
Qed.
Lemma sent_reported len es : cb_sent p = true -> 0 < len <= unacked p ->
  wp (client_sent_func env c len es) (live w c (acked len) st (asked w)) (fun r w' => reported r w' c).
Proof.
  intros Hs Hl. destruct (acked_up len Hs) as (Hup & Hun & Hrecv). destruct the_client as (Hi & _ & Hn & Hcl & Hd).
  unfold client_sent_func. wps; [cbn; by rewrite Hcl|lia|cbn; lia|]. wps. fold (confirmed (socks_recv_waiting cl) len). cbn.
  destruct (Z.ltb_spec 0 (socks_recv_buf_used cl)).
  - destruct (confirmed_queuing len Hs Hl) as (p' & Hq & Hlt & Hwt); [done|]. wps; [cbn; lia|]. wps.
    change (live _ _ _ _ _) with (live w c (confirmed false len) st (asked w)).
    eapply wp_mono; [eapply send_out_ok; [exact Hn|exact Hq|exact Hlt|done|cbn; by rewrite Hd]|]. cbn. rewrite Hd.
    intros r w' [[-> (cl' & n' & -> & E1 & E2 & E3 & E4 & E5 & E6)]|[-> Hsh]]; cbn; [|apply wp_ret; by apply now_shut].
    wps; [lia|]. destruct E6 as [E6|[E6 Hi']].
    + rewrite (proj1 E6). cbn. destruct (socks_closed cl') eqn:Es; cbn.
      * apply wp_ret. apply still_open; try done. destruct E6 as (_ & E6 & _). unfold started in E6.
        destruct (socks_client cl') as [s|] eqn:Esk; [|done]. destruct E6 as [_ _ _ _ _ E6]. cbn in E6. destruct E6. cbn in *. congruence.
      * destruct (socks_client cl') as [s|] eqn:Esk.
        -- apply synced; try done; [by eapply ready_initiate|apply E6].
        -- destruct E6 as (_ & [_ _ _ _ _ E6] & _). unfold started in E6. rewrite Esk, Esk in E6. destruct E6; congruence.
    + rewrite (proj2 (Z.eqb_neq _ _)) by lia. cbn. apply wp_ret. by apply still_open.
  - destruct (socks_closed cl && (socks_recv_tcp_pending cl - len =? 0)) eqn:Ed.
    + wps. eapply wp_mono; [eapply free_client; [done| |done|done|cbn; by rewrite Hd]|].
      * destruct (acked_up len Hs) as (_ & _ & _ & [[J1 J2]|(J1 & _)]); [|lia].
        apply base_with_recv; [done|by apply base_with_pcb, client_inv_base|by intros; rewrite J1|].
        cbn. intros k Ek _ _. destruct Hi as [_ _ _ _ _ Hk]. rewrite Ek in Hk. destruct Hk as [S1 _ _ _ _ S6]. by apply S6.
      * cbn. rewrite Hd. intros ? w' Hsh. apply wp_ret. by apply now_shut.
    + apply wp_ret. apply still_open; try done. by apply confirmed_inv.
Qed.
End lwip.

(** ** A connection is accepted *)
Definition accepted (local remote : BAddr) (memory : tcp_client) : tcp_client :=
  mkClient None local remote (Some (mkPcb true true false TCP_WND 0)) false (buf memory) 0
    (Some (mkSocks local false None false)) false false (socks_recv_buf memory) (socks_recv_buf_used memory)
    (socks_recv_buf_sent memory) (socks_recv_waiting memory) (socks_recv_tcp_pending memory) (mkStreams [] [] [] []).
Lemma accepted_inv local remote memory : zlen (buf memory) = TCP_WND -> zlen (socks_recv_buf memory) = CLIENT_SOCKS_RECV_BUF_SIZE ->
  client_inv (accepted local remote memory).
Proof.
  intros H1 H2. by constructor.
Qed.
Lemma winv_add w c cl : winv None w -> heap w !! c = None -> client_inv cl -> dead_client cl = None ->
  winv None (mkTun (<[c := cl]> (heap w)) (tcp_clients w ++ [c]) (num_clients w + 1) (stack w) (asked w)).
Proof.
  intros [H1 H2 H3 H4 H5 H6] Hc Hi Hd. constructor; cbn; try done.
  - intros a x [[-> <-]|[? ?]]%lookup_insert_Some; eauto.
  - intros a x [[-> <-]|[? ?]]%lookup_insert_Some; eauto.
  - apply list_relations.list.NoDup_app. split_and!; [done| |apply NoDup_singleton]. intros a Ha ->%list_elem_of_singleton.
    apply H4 in Ha as [? ?]. congruence.
  - intros a. rewrite elem_of_app, list_elem_of_singleton, H4. destruct (decide (a = c)) as [->|].
    + rewrite lookup_insert_eq. split; eauto.
    + rewrite lookup_insert_ne by done. split; [by intros [|]|by left].
  - rewrite H5. llia.
Qed.
Lemma accept_ok env newpcb res es w : winv None w -> fresh_memory w res = true ->
  wp (listener_accept_func env newpcb res es) w (fun r w' => winv None w' /\
    (r = ERR_MEM /\ w' = w \/ exists c m, a_client res = Some (c, m) /\ reported r w' c)).
Proof.
  intros Hw Hf. unfold listener_accept_func, fresh_memory in *. destruct (a_client res) as [[c m]|]; [|apply wp_ret; auto].
  apply andb_true_iff in Hf as [[Hc Hb%Z.eqb_eq]%andb_true_iff Hr%Z.eqb_eq].
  destruct (a_username res && a_socks res); cbn [negb]; [|apply wp_ret; auto].
  destruct (heap w !! c) eqn:Ec; [done|]. set (cl := mkClient _ _ _ _ _ _ _ _ _ _ _ _ _ _ _ _).
  assert (Hi : client_inv cl) by (by apply accepted_inv). apply wp_bind.
  exists tt, (set_client w c cl). split; [done|]. apply wp_bind. eexists tt, _. split; [done|]. cbn. apply wp_bind.
  pose proof (winv_add w c cl Hw Ec Hi eq_refl) as Hw'. eapply wp_mono; [eapply sync_dead_winv; [exact Hw'|apply lookup_insert_eq|done]|].
  intros killed w' [-> Hw2]. destruct (is_open w' c) eqn:Ho; cbn; apply wp_ret; (split; [done|right; exists c, m; split; [done|]; split; [done|]]).
  all: by rewrite Ho.
Qed.

(** ** All events *)
Lemma wp_modify_here w c f cl (Q : unit -> tun -> Prop) : heap w !! c = Some cl -> Q tt (live w c (f cl) (stack w) (asked w)) -> wp (modify c f) w Q.
Proof.
  intros Hc H. rewrite <- (live_self w c cl Hc). by apply wp_modify.
Qed.
Ltac as_wp := match goal with |- exists _ _, ?m ?w = _ /\ _ => change (wp m w (fun _ => winv None)) end.
Lemma fire_winv env e w : winv None w -> wp (fire env e) w (fun _ => winv None).
Proof.
  intros Hw. assert (Hr : exists a w', Ret (tt, w) = Ret (a, w') /\ winv None w') by by eexists _, _.
  destruct e as [newpcb res es|c|c data es|c len es|e]; [| | | |by apply fire_socks_winv]; unfold wp, fire.
  { destruct (fresh_memory w res) eqn:Hf; [|done]. as_wp. apply wp_unit. eapply wp_mono; [by apply accept_ok|]. by intros r w' [H _]. }
  all: destruct (heap w !! c) as [cl|] eqn:Hc; cbn [mbind option_bind]; [|done]; destruct (pcb cl) as [p|] eqn:Hp; [|done].
  - destruct (cb_err p); [|done]. as_wp. apply wp_bind. eapply wp_modify_here; [done|].
    eapply wp_mono; [by eapply err_reported|]. by intros r w' [H _].
  - destruct data as [data|].
    + destruct (cb_recv p && (0 <? zlen data) && (zlen data <=? rcv_wnd p)) eqn:E; [|done].
      apply andb_true_iff in E as [[E1 E2%Z.ltb_lt]%andb_true_iff E3%Z.leb_le]. as_wp. apply wp_bind. eapply wp_modify_here; [done|].
      wps. eapply wp_mono; [by eapply (recv_reported env w c cl p)|]. intros r w' [[H _] _]. by apply wp_ret.
    + destruct (cb_recv p) eqn:E; [|done]. as_wp. apply wp_unit. rewrite <- (live_self w c cl Hc) at 1.
      eapply wp_mono; [by eapply eof_reported|]. by intros r w' [_ [H _]].
  - destruct (cb_sent p && (0 <? len) && (len <=? unacked p) && (len <? 2 ^ 16)) eqn:E; [|done].
    apply andb_true_iff in E as [[[E1 E2%Z.ltb_lt]%andb_true_iff E3%Z.leb_le]%andb_true_iff _]. as_wp. apply wp_bind.
    eapply wp_modify_here; [done|]. apply wp_unit. eapply wp_mono; [by eapply (sent_reported env w c cl p)|]. by intros r w' [H _].
Qed.
Lemma run_winv env es : forall w, winv None w -> wp (run env es) w (fun _ => winv None).
Proof.
  induction es as [|e es IH]; intros w Hw; cbn; [by apply wp_ret|]. apply wp_bind. eapply wp_mono; [by apply fire_winv|].
  intros ? w' Hw'. by apply IH.
Qed.
Lemma init_winv : winv None init.
Proof. constructor; cbn; try done. - apply NoDup_nil_2. - intros c. split; [by intros ?%elem_of_nil|by intros []]. Qed.

(** ** The end of the program *)
Lemma murdered w c cl : winv None w -> heap w !! c = Some cl ->
  wp (client_murder c) w (fun _ w' => w' = gone w c [] (asked w)).
Proof.
  intros Hw Hc. destruct (winv_some _ _ _ _ Hw Hc) as [Hn Hi]. pose proof (w_stack _ _ Hw) as Hs. cbn in Hs.
  pose proof Hi as [_ _ _ _ H5 H6]. rewrite <- (live_self w c cl Hc) at 1. rewrite Hs. unfold client_murder, remove_callbacks. wps.
  destruct (client_closed cl) eqn:Hcl; cbn [negb when].
  - destruct (pcb cl); [destruct H5; congruence|]. destruct H5 as (_ & _ & H5). wps. rewrite H5. cbn [negb when].
    destruct (socks_client cl) eqn:Es; [|destruct H6; congruence]. wps. by apply wp_dealloc.
  - destruct (pcb cl) eqn:Ep; [|destruct H5; congruence]. pose proof (w_dead _ _ Hw c cl Hc Hcl) as Hd. rewrite frame_none in Hd.
    wps. rewrite Hd. apply wp_kill; [done|]. wps. destruct (socks_client cl) eqn:Es.
    + assert (Hsc : socks_closed cl = false) by apply H6. rewrite Hsc. cbn [negb when]. wps. by apply wp_dealloc.
    + destruct H6 as (Hsc & _). rewrite Hsc. cbn [negb when]. wps. by apply wp_dealloc.
Qed.
Lemma all_freed fuel : forall w, winv None w -> (length (tcp_clients w) <= fuel)%nat ->
  wp (free_clients fuel) w (fun _ w' => winv None w' /\ tcp_clients w' = []).
Proof.
  induction fuel as [|fuel IH]; intros w Hw Hf; unfold wp; cbn [free_clients]; destruct (tcp_clients w) as [|c l] eqn:El.
  1,3: by eexists _, _. { cbn in Hf. lia. }
  match goal with |- exists _ _, ?m ?w = _ /\ _ => change (wp m w (fun _ w' => winv None w' /\ tcp_clients w' = [])) end.
  apply wp_bind. destruct (proj1 (w_list _ _ Hw c)) as [cl Hc]; [rewrite El; by left|].
  eapply wp_mono; [by eapply murdered|]. intros ? ? ->. apply IH.
  - by eapply winv_gone.
  - pose proof (length_filter_ne (tcp_clients w) c (w_nodup _ _ Hw)) as Hl.
    assert (Hl' : length (tcp_clients w) = S (length l)) by by rewrite El. cbn [length] in Hf. change (tcp_clients (gone _ _ _ _)) with
      (filter (fun d => d <> c) (tcp_clients w)). rewrite El in Hl at 1. specialize (Hl (list_elem_of_here _ _)). lia.
Qed.

(** ** The theorems *)

(** What came from SOCKS and was not written to lwIP. *)
Definition unwritten (cl : tcp_client) : list Z :=
  if socks_up cl && (0 <? socks_recv_buf_used cl)
  then slice (socks_recv_buf_sent cl) (socks_recv_buf_used cl - socks_recv_buf_sent cl) (socks_recv_buf cl) else [].
(** The two streams of a client are intact, lwIP may send exactly what fits into
    the buffer, and SOCKS connects to where the application wanted to connect. *)
Record relays (cl : tcp_client) : Prop := {
  rl_up : delivered (passed cl) = taken (passed cl) ++ take (Z.to_nat (buf_used cl)) (buf cl);
  rl_down : is_Some (pcb cl) -> given (passed cl) = written (passed cl) ++ unwritten cl;
  rl_wnd : forall p, pcb cl = Some p -> socks_closed cl = false -> rcv_wnd p = TCP_WND - buf_used cl;
  rl_dest : forall s, socks_client cl = Some s -> s_dest s = local_addr cl;
}.
Lemma client_inv_relays cl : client_inv cl -> relays cl.
Proof.
  intros [H1 H2 H3 H4 H5 H6]. constructor; try done.
  - intros [p Hp]. rewrite Hp in H5. destruct H5 as [T1 T2 T3 T4 T5 T6]. unfold unwritten. destruct (socks_up cl); cbn.
    + destruct T6 as [_ [_ [[E ->]|(E & _ & _ & _ & ->)]]]; [rewrite E; by rewrite app_nil_r|]. rewrite (proj2 (Z.ltb_lt _ _)) by lia. done.
    + destruct T6 as (_ & -> & ->). done.
  - intros p Hp. rewrite Hp in H5. by destruct H5.
  - intros s Hs. rewrite Hs in H6. by destruct H6.
Qed.
(** A client waits for something that is in progress. *)
Definition waits (cl : tcp_client) : Prop :=
  match pcb cl, socks_client cl with
  | None, None => False
  | None, Some s => 0 < buf_used cl /\ (s_up s = true -> exists d, s_sending s = Some d /\ 0 < zlen d)
  | Some p, None => cb_sent p = true /\ 0 < unacked p
  | Some p, Some s =>
      cb_err p = true /\ cb_recv p = true /\
      (s_up s = true -> (0 < buf_used cl -> exists d, s_sending s = Some d /\ 0 < zlen d) /\
                        (s_receiving s = true \/ cb_sent p = true /\ 0 < unacked p))
  end.
Lemma client_inv_waits cl : client_inv cl -> waits cl.
Proof.
  intros [H1 H2 H3 H4 H5 H6]. unfold waits.
  assert (Hsend : forall s, socks_client cl = Some s -> s_up s = true -> 0 < buf_used cl -> exists d, s_sending s = Some d /\ 0 < zlen d).
  { intros s Hs Hu Hb. rewrite Hs in H6. destruct H6 as [S1 S2 S3 S4 _ _]. destruct (s_sending s) as [d|]; [exists d; split; [done|lia]|].
    rewrite S4 in Hb; [lia|congruence]. }
  destruct (pcb cl) as [p|], (socks_client cl) as [s|].
  - destruct H5 as [T1 T2 T3 T4 T5 T6], H6 as [S1 S2 S3 S4 S5 S6]. split; [done|]. split; [by rewrite T3, S1|]. intros Hu.
    split; [by apply Hsend|]. rewrite S3 in Hu. rewrite Hu in *. destruct T6 as [E [_ [[E2 _]|(E2 & _ & _ & E3 & _)]]]; [by left; apply S6|].
    right. split; [done|lia].
  - destruct H5 as [T1 T2 T3 T4 T5 T6], H6 as (S1 & S2 & S3). rewrite S2 in *. destruct T6 as [E _]. split; [done|lia].
  - destruct H5 as (_ & H5 & _). auto.
  - destruct H5 as (_ & _ & H5), H6 as [H6 _]. congruence.
Qed.

(** C5: whatever lwIP and the SOCKS server do, no handler of the TCP clients fails
    an assertion, touches a freed client, pcb or SOCKS object or leaves its
    buffers; the clients in the list are those in memory, and each of them has
    lost, repeated or reordered nothing: what lwIP delivered is what SOCKS took
    and what is buffered, what SOCKS gave is what was written to lwIP and what is
    still to be written. *)
Theorem tcp_clients_relay env es : exists w, run env es init = Ret (tt, w) /\
  num_clients w = zlen (tcp_clients w) /\ NoDup (tcp_clients w) /\ (forall c, c ∈ tcp_clients w <-> is_Some (heap w !! c)) /\
  forall c cl, heap w !! c = Some cl -> relays cl.
Proof.
  destruct (run_winv env es init init_winv) as ([] & w & E & Hw). exists w. split; [done|]. destruct Hw.
  split_and!; try done. intros c cl Hc. eapply client_inv_relays; eauto.
Qed.

(** C6: no client is ever stuck: in every state that is reached, a client whose pcb
    is gone has data that SOCKS is taking, a client whose SOCKS side is gone has
    data that lwIP will confirm, and a client with both is receiving from both
    sides or waits for one that is slower. *)
Theorem tcp_clients_progress env es : exists w, run env es init = Ret (tt, w) /\ stack w = [] /\
  forall c cl, heap w !! c = Some cl -> waits cl.
Proof.
  destruct (run_winv env es init init_winv) as ([] & w & E & Hw). exists w. split; [done|]. destruct Hw.
  split_and!; try done. intros c cl Hc. eapply client_inv_waits; eauto.
Qed.

(** C36: data that lwIP delivers within the window is never refused for lack of
    buffer; [client_recv_func] returns [ERR_ABRT] exactly if the pcb was freed
    while it ran, and then it has not freed the packet. *)
Theorem client_recv_reports env es c cl p data es' w :
  run env es init = Ret (tt, w) -> heap w !! c = Some cl -> pcb cl = Some p -> cb_recv p = true -> 0 < zlen data <= rcv_wnd p ->
  exists r freed w', client_recv_func env c (Some data) es' (live w c (delivers cl p data) (stack w) (asked w)) = Ret ((r, freed), w') /\
    r = (if is_open w' c then ERR_OK else ERR_ABRT) /\ freed = is_open w' c.
Proof.
  intros E Hc Hp Hr Hl. destruct (run_winv env es init init_winv) as ([] & w0 & E0 & Hw). rewrite E in E0. injection E0 as <-.
  destruct (recv_reported env w c cl p Hw Hc Hp data es' Hr Hl) as ([r freed] & w' & E1 & [_ H1] & H2). by exists r, freed, w'.
Qed.

(** When the program ends, freeing the clients one after another terminates
    and frees them all. *)
Theorem tcp_clients_freed env es : exists w w', run env es init = Ret (tt, w) /\
  free_clients (length (tcp_clients w)) w = Ret (tt, w') /\ tcp_clients w' = [] /\ heap w' = ∅ /\ num_clients w' = 0.
Proof.
  destruct (run_winv env es init init_winv) as ([] & w & E & Hw). destruct (all_freed _ w Hw (le_n _)) as ([] & w' & E' & Hw' & Hl).
  exists w, w'. split_and!; try done; [|rewrite (w_num _ _ Hw'), Hl; done]. apply map_empty. intros c.
  destruct (heap w' !! c) eqn:Hc; [|done]. assert (Hin : c ∈ tcp_clients w') by (apply (w_list _ _ Hw'); eauto).
  rewrite Hl in Hin. by apply elem_of_nil in Hin.
Qed.
(** An accepted connection whose SOCKS side came up. *)
Definition example_memory : tcp_client := accepted (BADDR_TYPE_IPV4 0 0) (BADDR_TYPE_IPV4 0 0)
  (mkClient None (BADDR_TYPE_IPV4 0 0) (BADDR_TYPE_IPV4 0 0) None true (repeat 0 (Z.to_nat TCP_WND)) 0 None false true
    (repeat 0 (Z.to_nat CLIENT_SOCKS_RECV_BUF_SIZE)) 7 7 true 7 (mkStreams [] [] [] [])).
Definition example_events : list event :=
  [Accept (mkNewPcb false 1 [] 80 2 [] 5000) (mkResources (Some (1, example_memory)) true true) []; Socks (SocksEvent 1 EVENT_UP)].
Definition example_state : tun := match run (fun _ => 0) example_events init with Ret (_, w) => w | _ => init end.
Definition example_client : tcp_client := default example_memory (heap example_state !! 1).
Lemma client_recv_reports_witness : exists r freed w',
  client_recv_func (fun _ => 0) 1 (Some [7; 8]) [SocksEvent 1 EVENT_ERROR]
    (live example_state 1 (delivers example_client (mkPcb true true true TCP_WND 0) [7; 8]) (stack example_state) (asked example_state))
    = Ret ((r, freed), w') /\ r = (if is_open w' 1 then ERR_OK else ERR_ABRT) /\ freed = is_open w' 1.
Proof.
  apply (client_recv_reports (fun _ => 0) example_events 1 example_client (mkPcb true true true TCP_WND 0) [7; 8] [SocksEvent 1 EVENT_ERROR]
    example_state); [vm_compute; reflexivity..|vm_compute; split; congruence].
Defined.
(** The connection ends while the data is handed over: the packet is not freed. *)
Example recv_not_freed :
  (match client_recv_func (fun _ => 0) 1 (Some [7; 8]) [SocksEvent 1 EVENT_ERROR]
    (live example_state 1 (delivers example_client (mkPcb true true true TCP_WND 0) [7; 8]) (stack example_state) (asked example_state))
   with Ret (r, w) => Some (r, is_open w 1) | _ => None end) = Some ((ERR_ABRT, false), false).
Proof. vm_compute. reflexivity. Qed.
End TcpClient.
