(* ===== verification/UdpGateway.v ===== *)
(** * tun2socks/SocksUdpGwClient.c: UDP through the SOCKS server

    On Android, tun2socks sends the UDP packets of the device to the SOCKS
    server itself: one datagram socket per pair of addresses, at most
    [max_connections] of them, the least recently used one being reused.
    - [Address]: comparison of addresses (system/BAddr.h);
    - [ConTable]: what the tables of connections use of structure/BAVL.h and
      structure/LinkedList1.h. Connections are objects of a heap, a tree is a set
      of nodes whose keys are read from the heap (UdpTree.v shows that the trees
      implement it), a list is the sequence of its nodes;
    - [SocksUdpGwClient]: the client, with a [WriterFlow] per connection. *)
From stdpp Require Import gmap.
From S2P Require Import Prelude ChunkBuffer2 PacketBuffer BufferWriter SocksClient DevicePackets.
Local Open Scope Z_scope.

(** ** Addresses *)
Module Address.
Export Device.
Import ByteOrder.

Definition B_COMPARE (a b : Z) : Z := Z.b2z (b <? a) - Z.b2z (a <? b).

Fixpoint memcmp (a b : list Z) : Z :=
  match a, b with
  | x :: a, y :: b => if x =? y then memcmp a b else B_COMPARE x y
  | _, _ => 0
  end.

Definition ntoh32 (x : Z) : Z := hton32 x.

Definition type (a : BAddr) : Z := match a with BADDR_TYPE_IPV4 _ _ => 1 | BADDR_TYPE_IPV6 _ _ => 2 end.

Definition BAddr_Compare (addr1 addr2 : BAddr) : bool :=
  match addr1, addr2 with
  | BADDR_TYPE_IPV4 ip1 port1, BADDR_TYPE_IPV4 ip2 port2 => (ip1 =? ip2) && (port1 =? port2)
  | BADDR_TYPE_IPV6 ip1 port1, BADDR_TYPE_IPV6 ip2 port2 => (memcmp ip1 ip2 =? 0) && (port1 =? port2)
  | _, _ => false
  end.

Definition BAddr_CompareOrder (addr1 addr2 : BAddr) : Z :=
  let cmp := B_COMPARE (type addr1) (type addr2) in
  if negb (cmp =? 0) then cmp
  else
    match addr1, addr2 with
    | BADDR_TYPE_IPV4 ip1 port1, BADDR_TYPE_IPV4 ip2 port2 =>
        let cmp := B_COMPARE (ntoh32 ip1) (ntoh32 ip2) in
        if negb (cmp =? 0) then cmp else B_COMPARE (ntoh16 port1) (ntoh16 port2)
    | BADDR_TYPE_IPV6 ip1 port1, BADDR_TYPE_IPV6 ip2 port2 =>
        let cmp := memcmp ip1 ip2 in
        if negb (cmp =? 0) then B_COMPARE cmp 0 else B_COMPARE (ntoh16 port1) (ntoh16 port2)
    | _, _ => 0
    end.

Record conaddr_t := mkConaddr { local_addr : BAddr; remote_addr : BAddr }.
#[export] Instance conaddr_eq_dec : EqDecision conaddr_t.
Proof. solve_decision. Defined.

Definition conaddr_comparator (v1 v2 : conaddr_t) : Z :=
  let r := BAddr_CompareOrder (remote_addr v1) (remote_addr v2) in
  if negb (r =? 0) then r else BAddr_CompareOrder (local_addr v1) (local_addr v2).

Definition conaddr_ok (a : conaddr_t) : Prop := addr_ok (local_addr a) /\ addr_ok (remote_addr a).

Lemma B_COMPARE_eq a b : B_COMPARE a b = 0 <-> a = b.
Proof. unfold B_COMPARE. destruct (Z.ltb_spec b a), (Z.ltb_spec a b); cbn; lia. Qed.
Lemma memcmp_eq a b : length a = length b -> memcmp a b = 0 <-> a = b.
Proof.
  revert b. induction a as [|x a IH]; intros [|y b] Hl; try done.
  cbn [memcmp length] in *. destruct (Z.eqb_spec x y) as [->|Hne].
  - rewrite IH by lia. split; [by intros ->|by intros [= ->]].
  - rewrite B_COMPARE_eq. split; [done|by intros [= ?]].
Qed.
Lemma hton16_inj x y : 0 <= x < 2 ^ 16 -> 0 <= y < 2 ^ 16 -> hton16 x = hton16 y -> x = y.
Proof. intros Hx Hy E. rewrite <- (hton16_val x), <- (hton16_val y) by done. by rewrite E. Qed.
Lemma hton32_inj x y : 0 <= x < 2 ^ 32 -> 0 <= y < 2 ^ 32 -> hton32 x = hton32 y -> x = y.
Proof.
  intros Hx Hy E. unfold hton32, badvpn_reverse32 in E. rewrite !u32_small in E by done.
  apply (f_equal (be_bytes 4)) in E.
  fold (be_val (le_bytes 4 x)) in E. fold (be_val (le_bytes 4 y)) in E.
  change 4%nat with (length (le_bytes 4 x)) in E at 1.
  change 4%nat with (length (le_bytes 4 y)) in E at 3.
  rewrite !be_bytes_val in E by apply bytes_le_bytes.
  apply (f_equal le_val) in E. rewrite !le_val_bytes in E.
  change (256 ^ Z.of_nat 4) with (2 ^ 32) in E. by rewrite !Z.mod_small in E by done.
Qed.

Lemma CompareOrder_eq a b : addr_ok a -> addr_ok b -> BAddr_CompareOrder a b = 0 <-> a = b.
Proof.
  intros Ha Hb. unfold BAddr_CompareOrder.
  destruct a as [ip1 p1|ip1 p1], b as [ip2 p2|ip2 p2]; cbn [type addr_ok] in *; try done.
  - destruct Ha as [Hi1 Hp1], Hb as [Hi2 Hp2]. change (B_COMPARE 1 1) with 0. cbn [Z.eqb negb].
    destruct (Z.eqb_spec (B_COMPARE (ntoh32 ip1) (ntoh32 ip2)) 0) as [E|E]; cbn [negb]; rewrite B_COMPARE_eq in E.
    + apply hton32_inj in E as ->; [|done..]. rewrite B_COMPARE_eq.
      split; [intros ->%hton16_inj; done|by intros [= ->]].
    + rewrite B_COMPARE_eq. split; [done|by intros [= -> _]].
  - destruct Ha as [[_ Hi1] Hp1], Hb as [[_ Hi2] Hp2]. change (B_COMPARE 2 2) with 0. cbn [Z.eqb negb].
    pose proof (memcmp_eq ip1 ip2 ltac:(lia)) as Hm.
    destruct (Z.eqb_spec (memcmp ip1 ip2) 0) as [E|E]; cbn [negb]; rewrite B_COMPARE_eq.
    + apply Hm in E as ->. split; [intros ->%hton16_inj; done|by intros [= ->]].
    + split; [done|]. intros [= -> _]. by destruct E; apply Hm.
Qed.
Lemma Compare_eq a b : addr_ok a -> addr_ok b -> BAddr_Compare a b = bool_decide (a = b).
Proof.
  intros Ha Hb. apply Bool.eq_iff_eq_true. rewrite bool_decide_eq_true. unfold BAddr_Compare.
  destruct a as [ip1 p1|ip1 p1], b as [ip2 p2|ip2 p2]; cbn [addr_ok] in *; try done.
  - rewrite andb_true_iff, !Z.eqb_eq. split; [by intros [-> ->]|by intros [= -> ->]].
  - destruct Ha as [[_ Hi1] _], Hb as [[_ Hi2] _].
    rewrite andb_true_iff, !Z.eqb_eq, memcmp_eq by lia. split; [by intros [-> ->]|by intros [= -> ->]].
Qed.
Lemma comparator_eq a b : conaddr_ok a -> conaddr_ok b -> conaddr_comparator a b = 0 <-> a = b.
Proof.
  destruct a as [la ra], b as [lb rb]. intros [Hla Hra] [Hlb Hrb]. cbn in *. unfold conaddr_comparator. cbn.
  destruct (Z.eqb_spec (BAddr_CompareOrder ra rb) 0) as [E|E]; cbn [negb].
  - apply CompareOrder_eq in E as ->; [|done..]. rewrite CompareOrder_eq by done.
    split; [by intros ->|by intros [= ->]].
  - split; [done|]. intros [= _ ->]. destruct E. by apply CompareOrder_eq.
Qed.

End Address.

(** ** Tables of connections *)
Module ConTable.
Section table.
Context {C K : Type} (key : C -> K) (cmp : K -> K -> Z).
Implicit Types (heap : gmap Z C) (tree ll : list Z).

(** [BAVL_LookupExact]: the node with an equal key. *)
Fixpoint BAVL_LookupExact heap tree (k : K) : option Z :=
  match tree with
  | [] => None
  | p :: tree =>
      match heap !! p with
      | Some c => if cmp k (key c) =? 0 then Some p else BAVL_LookupExact heap tree k
      | None => None
      end
  end.
(** [BAVL_Insert] fails if there is a node with an equal key. *)
Definition BAVL_Insert heap tree (p : Z) : option (list Z) :=
  match heap !! p with
  | Some c => match BAVL_LookupExact heap tree (key c) with Some _ => None | None => Some (p :: tree) end
  | None => None
  end.
Definition BAVL_Remove tree (p : Z) : list Z := filter (fun q => q <> p) tree.

Definition LinkedList1_Append ll (p : Z) : list Z := ll ++ [p].
Definition LinkedList1_Remove ll (p : Z) : list Z := filter (fun q => q <> p) ll.

(** The nodes of a tree exist and their keys differ. *)
Record tree_ok (ok : K -> Prop) heap tree : Prop := {
  to_nodes : forall p, p ∈ tree -> exists c, heap !! p = Some c /\ ok (key c);
  to_nodup : NoDup tree;
  to_keys : forall p q c c', p ∈ tree -> q ∈ tree -> heap !! p = Some c -> heap !! q = Some c' ->
    key c = key c' -> p = q;
}.

Context (ok : K -> Prop) (cmp_eq : forall a b, ok a -> ok b -> cmp a b = 0 <-> a = b).

Lemma lookup_Some heap tree k p :
  tree_ok ok heap tree -> ok k ->
  BAVL_LookupExact heap tree k = Some p <-> p ∈ tree /\ exists c, heap !! p = Some c /\ key c = k.
Proof.
  intros Ht Hk. assert (Hn := to_nodes _ _ _ Ht). assert (Hu := to_keys _ _ _ Ht). clear Ht.
  induction tree as [|q tree IH]; cbn [BAVL_LookupExact].
  - split; [done|]. intros [H _]. by apply elem_of_nil in H.
  - destruct (Hn q) as (c & Hc & Hcok); [left|]. rewrite Hc.
    destruct (Z.eqb_spec (cmp k (key c)) 0) as [E|E]; rewrite cmp_eq in E by done.
    + subst k. split.
      * intros [= ->]. split; [left|eauto].
      * intros (Hp & c' & Hc' & E'). f_equal. eapply Hu; eauto. left.
    + rewrite IH by (intros; first [apply Hn; by right | eapply Hu; eauto; by right]).
      rewrite elem_of_cons. split; [naive_solver|]. intros ([-> | Hp] & c' & Hc' & E').
      * rewrite Hc in Hc'. injection Hc' as <-. congruence.
      * eauto.
Qed.
Lemma lookup_None heap tree k :
  tree_ok ok heap tree -> ok k ->
  BAVL_LookupExact heap tree k = None <-> forall p c, p ∈ tree -> heap !! p = Some c -> key c <> k.
Proof.
  intros Ht Hk. split.
  - intros E p c Hp Hc Hkey. assert (H : BAVL_LookupExact heap tree k = Some p)
      by (apply lookup_Some; eauto). congruence.
  - intros H. destruct (BAVL_LookupExact heap tree k) as [p|] eqn:E; [|done].
    apply lookup_Some in E as (Hp & c & Hc & Hkey); [|done..]. by destruct (H p c).
Qed.

(** A new connection is put into the tree. *)
Lemma insert_tree heap tree p c :
  tree_ok ok heap tree -> heap !! p = Some c -> ok (key c) -> p ∉ tree ->
  (forall q c', q ∈ tree -> heap !! q = Some c' -> key c' <> key c) ->
  BAVL_Insert heap tree p = Some (p :: tree) /\ tree_ok ok heap (p :: tree).
Proof.
  intros Ht Hc Hok Hp Hk. split.
  - unfold BAVL_Insert. rewrite Hc. by rewrite (proj2 (lookup_None _ _ _ Ht Hok)).
  - destruct Ht as [Hn Hd Hu]. split.
    + intros q [-> | Hq]%elem_of_cons; eauto.
    + by constructor.
    + intros q q' c1 c2 [-> | Hq]%elem_of_cons [-> | Hq']%elem_of_cons H1 H2 E; auto.
      * rewrite Hc in H1. injection H1 as <-. by destruct (Hk q' c2).
      * rewrite Hc in H2. injection H2 as <-. by destruct (Hk q c1).
      * eauto.
Qed.
Lemma remove_tree heap tree p : tree_ok ok heap tree -> tree_ok ok heap (BAVL_Remove tree p).
Proof.
  intros [Hn Hd Hu]. unfold BAVL_Remove. split.
  - intros q [_ Hq]%list_elem_of_filter. auto.
  - by apply list_relations.list.NoDup_filter.
  - intros q q' c1 c2 [_ Hq]%list_elem_of_filter [_ Hq']%list_elem_of_filter. by apply Hu.
Qed.
(** Changing an object that is not in the tree. *)
Lemma update_tree heap tree p c : tree_ok ok heap tree -> p ∉ tree -> tree_ok ok (<[p := c]> heap) tree.
Proof.
  intros [Hn Hd Hu] Hp. split; [|done|].
  - intros q Hq. rewrite lookup_insert_ne by (intros ->; done). auto.
  - intros q q' c1 c2 Hq Hq'. rewrite !lookup_insert_ne by (intros ->; done). by apply Hu.
Qed.
(** Changing an object without changing its key. *)
Lemma same_key_tree heap tree p c c' :
  tree_ok ok heap tree -> heap !! p = Some c -> key c' = key c -> tree_ok ok (<[p := c']> heap) tree.
Proof.
  intros [Hn Hd Hu] Hc E. split; [|done|].
  - intros q Hq. destruct (decide (q = p)) as [->|Hne]; [|by rewrite lookup_insert_ne by done; auto].
    rewrite lookup_insert_eq. destruct (Hn p Hq) as (c0 & H0 & Hok). rewrite Hc in H0. injection H0 as <-.
    exists c'. by rewrite E.
  - assert (Hl : forall q c1, <[p := c']> heap !! q = Some c1 -> exists c2, heap !! q = Some c2 /\ key c2 = key c1).
    { intros q c1. destruct (decide (q = p)) as [->|Hne].
      - rewrite lookup_insert_eq. intros [= <-]. eauto.
      - rewrite lookup_insert_ne by done. eauto. }
    intros q q' c1 c2 Hq Hq' (d1 & H1 & E1)%Hl (d2 & H2 & E2)%Hl E12. apply (Hu q q' d1 d2); auto. congruence.
Qed.
End table.

Lemma elem_of_remove (l : list Z) p q : q ∈ LinkedList1_Remove l p <-> q <> p /\ q ∈ l.
Proof. unfold LinkedList1_Remove. by rewrite list_elem_of_filter. Qed.
Lemma remove_notin (l : list Z) p : p ∉ l -> LinkedList1_Remove l p = l.
Proof.
  unfold LinkedList1_Remove. induction l as [|q l IH]; [done|]. intros Hp. rewrite not_elem_of_cons in Hp.
  rewrite filter_cons. rewrite decide_True by naive_solver. f_equal. apply IH, Hp.
Qed.
Lemma remove_perm (l : list Z) p : NoDup l -> p ∈ l -> p :: LinkedList1_Remove l p ≡ₚ l.
Proof.
  intros Hn Hp. apply NoDup_Permutation; [|done|].
  - constructor; [rewrite elem_of_remove; tauto|]. by apply list_relations.list.NoDup_filter.
  - intros q. rewrite elem_of_cons, elem_of_remove. destruct (decide (q = p)) as [->|]; naive_solver.
Qed.
End ConTable.

(** ** The client *)
Module SocksUdpGwClient.
Import Address ConTable BSize BufferWriter PacketRecvInterface.

Definition sizeof_socks_udp_header : Z := 4.
Definition sizeof_udpgw_addr_ipv4 : Z := 6.
Definition sizeof_udpgw_addr_ipv6 : Z := 18.
Definition CONNECTION_UDP_BUFFER_SIZE : Z := 1.
Definition UINT16_MAX : Z := 65535.

Definition udpgw_compute_mtu (dgram_mtu : Z) : Z :=
  let bs := bsize_add (bsize_fromsize sizeof_socks_udp_header)
              (bsize_add (bsize_max (bsize_fromsize sizeof_udpgw_addr_ipv4) (bsize_fromsize sizeof_udpgw_addr_ipv6))
                 (bsize_fromint dgram_mtu)) in
  match bsize_toint bs with None => -1 | Some s => s end.

(** What a connection consists of, and what is done with it. *)
Inductive resource :=
| r_struct | r_first_job | r_dgram | r_send_async | r_recv_async | r_writer | r_send_buffer
| r_recv_if | r_recv_buffer.
Inductive action := Acquire (r : resource) | Release (r : resource).
#[export] Instance resource_eq_dec : EqDecision resource.
Proof. solve_decision. Defined.

Record connection := mkConnection {
  conaddr : conaddr_t;
  first_job : bool;             (* the job is pending *)
  first_data : list Z;
  flow : WriterFlow.flow ChunkBuffer2.ChunkBuffer2;  (* udp_send_writer, udp_send_buffer *)
}.

Record SocksUdpGwClient := mkClient {
  udp_mtu : Z;
  udpgw_mtu : Z;
  num_connections : Z;
  max_connections : Z;
  connections_tree : list Z;
  connections_list : list Z;
  heap : gmap Z connection;
}.

(** What the system answers while a connection is made. *)
Record answers := mkAnswers {
  a_malloc : option Z;
  a_dgram : bool;               (* BDatagram_Init *)
  a_reuse : bool;               (* BDatagram_SetReuseAddr *)
  a_mem : Z -> option (list Z); (* the allocation in PacketBuffer_Init *)
  a_garbage : Z;
  a_recv_buffer : bool;         (* SinglePacketBuffer_Init *)
}.

Definition SocksUdpGwClient_Init (mtu max : Z) : SocksUdpGwClient :=
  mkClient mtu (udpgw_compute_mtu mtu) 0
    (if UINT16_MAX + 1 <? max then UINT16_MAX + 1 else max) [] [] ∅.

Definition find_connection (o : SocksUdpGwClient) (a : conaddr_t) : option Z :=
  BAVL_LookupExact conaddr conaddr_comparator (heap o) (connections_tree o) a.

Definition set_tables (o : SocksUdpGwClient) (num : Z) (tree ll : list Z) (h : gmap Z connection) : SocksUdpGwClient :=
  mkClient (udp_mtu o) (udpgw_mtu o) num (max_connections o) tree ll h.
Definition set_heap (o : SocksUdpGwClient) (h : gmap Z connection) : SocksUdpGwClient :=
  set_tables o (num_connections o) (connections_tree o) (connections_list o) h.

Definition reuse_connection (o : SocksUdpGwClient) (a : conaddr_t) : cres (SocksUdpGwClient * Z) :=
  _ ← assert (bool_decide (find_connection o a = None));
  _ ← assert (0 <? num_connections o);
  con ← of_option (head (connections_list o));
  let tree := BAVL_Remove (connections_tree o) con in
  c ← of_option (heap o !! con);
  let h := <[con := mkConnection a (first_job c) (first_data c) (flow c)]> (heap o) in
  tree ← of_option (BAVL_Insert conaddr conaddr_comparator h tree con);
  Ret (set_tables o (num_connections o) tree (connections_list o) h, con).

Definition header_bytes (a : BAddr) : list Z :=
  le_bytes 2 0 ++ [0] ++ [match a with BADDR_TYPE_IPV4 _ _ => BSocksClient.SOCKS_ATYP_IPV4 | BADDR_TYPE_IPV6 _ _ => BSocksClient.SOCKS_ATYP_IPV6 end].
Definition addr_bytes (a : BAddr) : list Z :=
  match a with
  | BADDR_TYPE_IPV4 ip port => le_bytes 4 ip ++ le_bytes 2 port
  | BADDR_TYPE_IPV6 ip port => ip ++ le_bytes 2 port
  end.

(** [connection_send] on the writer of a connection. *)
Definition send (f : WriterFlow.flow ChunkBuffer2.ChunkBuffer2) (remote : BAddr) (data : list Z) :
    cres (WriterFlow.flow ChunkBuffer2.ChunkBuffer2) :=
  match StartPacket (WriterFlow.writer f) with
  | None => Ret f
  | Some out =>
      let out_pos := 0 in
      x ← st_write (PacketBuffer.buf (WriterFlow.buffer f)) (out + out_pos) (header_bytes remote);
      let out_pos := out_pos + zlen (header_bytes remote) in
      x ← st_write x (out + out_pos) (addr_bytes remote);
      let out_pos := out_pos + zlen (addr_bytes remote) in
      x ← st_write x (out + out_pos) data;
      let out_pos := out_pos + zlen data in
      w ← EndPacket (WriterFlow.writer f) out_pos;
      Ret (WriterFlow.mkFlow w (PacketBuffer.set_buf (WriterFlow.buffer f) x))
  end.
Definition set_flow (c : connection) (f : WriterFlow.flow ChunkBuffer2.ChunkBuffer2) : connection :=
  mkConnection (conaddr c) (first_job c) (first_data c) f.
Definition connection_send (o : SocksUdpGwClient) (con : Z) (data : list Z) : cres SocksUdpGwClient :=
  c ← of_option (heap o !! con);
  f ← send (flow c) (remote_addr (conaddr c)) data;
  Ret (set_heap o (<[con := set_flow c f]> (heap o))).

(** The job is taken off the pending group and runs. *)
Definition connection_first_job_handler (o : SocksUdpGwClient) (con : Z) : cres SocksUdpGwClient :=
  c ← of_option (heap o !! con);
  _ ← assert (first_job c);
  let o := set_heap o (<[con := mkConnection (conaddr c) false (first_data c) (flow c)]> (heap o)) in
  connection_send o con (first_data c).

Definition connection_init (o : SocksUdpGwClient) (a : conaddr_t) (data : list Z) (w : answers) :
    cres (SocksUdpGwClient * option Z * list action) :=
  match a_malloc w with
  | None => Ret (o, None, [])
  | Some con =>
      let fail := [Release r_first_job; Release r_struct] in
      let fail1 := Release r_dgram :: fail in
      let fail2 := Release r_writer :: Release r_recv_async :: Release r_send_async :: fail1 in
      let fail3 := Release r_recv_if :: Release r_send_buffer :: fail2 in
      let done := [Acquire r_struct; Acquire r_first_job] in
      if negb (a_dgram w) then Ret (o, None, done ++ fail)
      else
        let done := done ++ [Acquire r_dgram] in
        if negb (a_reuse w) then Ret (o, None, done ++ fail1)
        else
          let done := done ++ [Acquire r_send_async; Acquire r_recv_async; Acquire r_writer] in
          f ← WriterFlow.Init (udp_mtu o) CONNECTION_UDP_BUFFER_SIZE (a_garbage w) (a_mem w);
          match f with
          | None => Ret (o, None, done ++ fail2)
          | Some f =>
              let done := done ++ [Acquire r_send_buffer; Acquire r_recv_if] in
              if negb (a_recv_buffer w) then Ret (o, None, done ++ fail3)
              else
                let done := done ++ [Acquire r_recv_buffer] in
                let h := <[con := mkConnection a true data f]> (heap o) in
                tree ← of_option (BAVL_Insert conaddr conaddr_comparator h (connections_tree o) con);
                Ret (set_tables o (num_connections o + 1) tree (LinkedList1_Append (connections_list o) con) h,
                     Some con, done)
          end
  end.

(** The whole structure is gone; [first_job] is not freed. *)
Definition connection_free (o : SocksUdpGwClient) (con : Z) : cres (SocksUdpGwClient * list action) :=
  _ ← of_option (heap o !! con);
  Ret (set_tables o (num_connections o - 1) (BAVL_Remove (connections_tree o) con)
         (LinkedList1_Remove (connections_list o) con) (delete con (heap o)),
       [Release r_recv_buffer; Release r_recv_if; Release r_send_buffer; Release r_writer;
        Release r_recv_async; Release r_send_async; Release r_dgram; Release r_struct]).

Fixpoint free_loop (fuel : nat) (o : SocksUdpGwClient) : cres SocksUdpGwClient :=
  match connections_list o with
  | [] => Ret o
  | con :: _ =>
      match fuel with
      | O => OutOfFuel
      | S fuel => '(o, _) ← connection_free o con; free_loop fuel o
      end
  end.
Definition SocksUdpGwClient_Free (o : SocksUdpGwClient) : cres SocksUdpGwClient :=
  free_loop (length (connections_list o)) o.

Definition SocksUdpGwClient_SubmitPacket (o : SocksUdpGwClient) (local remote : BAddr) (data : list Z) (w : answers) :
    cres (SocksUdpGwClient * list action) :=
  _ ← assert (zlen data <=? udp_mtu o);
  let a := mkConaddr local remote in
  let con := find_connection o a in
  '(o, con) ← (if bool_decide (con = None) && (num_connections o =? max_connections o)
               then '(o, con) ← reuse_connection o a; Ret (o, Some con)
               else Ret (o, con));
  match con with
  | None => '(o, _, acts) ← connection_init o a data w; Ret (o, acts)
  | Some con =>
      let ll := LinkedList1_Append (LinkedList1_Remove (connections_list o) con) con in
      let o := set_tables o (num_connections o) (connections_tree o) ll (heap o) in
      o ← connection_send o con data; Ret (o, [])
  end.

(** A datagram from the server for a connection: what is passed to the user.
    The packet has been accepted before it is looked at. *)
Definition dgram_handler_received (o : SocksUdpGwClient) (con : Z) (data : list Z) :
    cres (option (BAddr * BAddr * list Z)) :=
  c ← of_option (heap o !! con);
  _ ← assert (zlen data <=? udpgw_mtu o);
  if zlen data <? sizeof_socks_udp_header then Ret None
  else
    header ← of_option (load data 0 sizeof_socks_udp_header);
    let data := drop (Z.to_nat sizeof_socks_udp_header) data in
    frag ← of_option (get header 2);
    atyp ← of_option (get header 3);
    if negb (frag =? 0) then Ret None
    else
      r ← (if atyp =? BSocksClient.SOCKS_ATYP_IPV6 then
             if zlen data <? sizeof_udpgw_addr_ipv6 then Ret None
             else
               a ← of_option (load data 0 sizeof_udpgw_addr_ipv6);
               Ret (Some (BADDR_TYPE_IPV6 (slice 0 16 a) (le_val (slice 16 2 a)),
                          drop (Z.to_nat sizeof_udpgw_addr_ipv6) data))
           else
             if zlen data <? sizeof_udpgw_addr_ipv4 then Ret None
             else
               a ← of_option (load data 0 sizeof_udpgw_addr_ipv4);
               Ret (Some (BADDR_TYPE_IPV4 (le_val (slice 0 4 a)) (le_val (slice 4 2 a)),
                          drop (Z.to_nat sizeof_udpgw_addr_ipv4) data)));
      match r with
      | None => Ret None
      | Some (remote_addr, data) =>
          if negb (BAddr_Compare remote_addr (Address.remote_addr (conaddr c))) then Ret None
          else if udp_mtu o <? zlen data then Ret None
          else Ret (Some (local_addr (conaddr c), remote_addr, data))
      end.

(** *** Running it *)

(** [Submit]: a packet from the device. [FirstJob], [WriterJob]: a job of a
    connection runs. [Sent]: its socket has sent a datagram. *)
Inductive event :=
| Submit (local remote : BAddr) (data : list Z) (w : answers)
| FirstJob (con : Z)
| WriterJob (con : Z)
| Sent (con : Z).

Definition with_flow (o : SocksUdpGwClient) (con : Z)
    (k : WriterFlow.flow ChunkBuffer2.ChunkBuffer2 -> cres (WriterFlow.flow ChunkBuffer2.ChunkBuffer2 * list (list Z))) :
    cres (SocksUdpGwClient * list (Z * list Z)) :=
  c ← of_option (heap o !! con);
  '(f, ps) ← k (flow c);
  Ret (set_heap o (<[con := set_flow c f]> (heap o)), map (pair con) ps).

(** The client and the datagrams sent. *)
Definition step (o : SocksUdpGwClient) (e : event) : cres (SocksUdpGwClient * list (Z * list Z)) :=
  match e with
  | Submit l r data w => '(o, _) ← SocksUdpGwClient_SubmitPacket o l r data w; Ret (o, [])
  | FirstJob con => o ← connection_first_job_handler o con; Ret (o, [])
  | WriterJob con => with_flow o con (fun f => f ← WriterFlow.job f; Ret (f, []))
  | Sent con => with_flow o con (fun f => '(f, p) ← WriterFlow.sent f; Ret (f, [p]))
  end.

(** *** Sending *)

Definition message (remote : BAddr) (data : list Z) : list Z := header_bytes remote ++ addr_bytes remote ++ data.
(** The packet fits into what the sockets are initialised for. *)
Definition sized (o : SocksUdpGwClient) (remote : BAddr) (data : list Z) : Prop :=
  zlen (message remote data) <= udp_mtu o.

(** Writes that follow each other are one write. *)
Lemma write_app (b : ChunkBuffer2.ChunkBuffer2) d l1 l2 :
  (x ← st_write b d l1; st_write x (d + zlen l1) l2) = st_write b d (l1 ++ l2).
Proof.
  cbn. unfold store, inside. rewrite length_app, Nat2Z.inj_add.
  destruct (Z.leb_spec 0 d) as [H0|H0]; cbn [andb]; [|done].
  rewrite (proj2 (Z.leb_le 0 (zlen l1))), (proj2 (Z.leb_le 0 (zlen l1 + zlen l2))) by lia. cbn [andb].
  destruct (Z.leb_spec (d + zlen l1) (zlen (ChunkBuffer2.buffer b))) as [H1|H1]; cbn.
  - rewrite length_splice by lia. rewrite !(proj2 (Z.leb_le 0 _)) by lia. cbn [andb]. rewrite Z.add_assoc.
    destruct (Z.leb_spec (d + zlen l1 + zlen l2) (zlen (ChunkBuffer2.buffer b))) as [H2|H2]; cbn; [|done].
    by rewrite splice_splice_adj by lia.
  - destruct (Z.leb_spec (d + (zlen l1 + zlen l2)) (zlen (ChunkBuffer2.buffer b))); cbn; [lia|done].
Qed.
Lemma bind_assoc {X Y W} (c : cres X) (f : X -> cres Y) (g : Y -> cres W) :
  ((c ≫= f) ≫= g) = (c ≫= fun x => f x ≫= g).
Proof. by destruct c. Qed.

(** [connection_send] is one best-effort write of the message. *)
Lemma send_write f remote data :
  send f remote data = ('(f, _) ← WriterFlow.write f (message remote data); Ret f).
Proof.
  unfold send, WriterFlow.write. destruct (StartPacket _) as [out|]; [|done]. cbv zeta.
  rewrite Z.add_0_r, bind_assoc. unfold message. rewrite <- write_app, bind_assoc.
  destruct (st_write _ out _) as [x| |]; [|done..]. rewrite !bind_Ret.
  rewrite Z.add_0_l, <- (write_app x), !bind_assoc. destruct (st_write x _ _) as [y| |]; [|done..]. rewrite !bind_Ret.
  rewrite Z.add_assoc. destruct (st_write y _ data) as [z| |]; [|done..]. rewrite !bind_Ret.
  rewrite !length_app, !Nat2Z.inj_add, Z.add_assoc. by destruct (EndPacket _ _).
Qed.

(** *** The invariant *)

Record con_ok (o : SocksUdpGwClient) (c : connection) : Prop := {
  co_flow : exists ps staged, WriterFlow.flow_inv CONNECTION_UDP_BUFFER_SIZE (flow c) ps staged;
  co_mtu : PacketBuffer.input_mtu (WriterFlow.buffer (flow c)) = udp_mtu o;
  co_first : first_job c = true -> sized o (remote_addr (conaddr c)) (first_data c);
}.
Record client_inv (o : SocksUdpGwClient) : Prop := {
  ci_mtu : 0 <= udp_mtu o;
  ci_tree : tree_ok conaddr conaddr_ok (heap o) (connections_tree o);
  ci_perm : connections_tree o ≡ₚ connections_list o;
  ci_num : num_connections o = zlen (connections_list o);
  ci_max : 0 < max_connections o /\ num_connections o <= max_connections o;
  ci_heap : forall p, is_Some (heap o !! p) <-> p ∈ connections_list o;
  ci_cons : forall p c, heap o !! p = Some c -> con_ok o c;
}.

Lemma con_ok_same o o' c : udp_mtu o' = udp_mtu o -> con_ok o c -> con_ok o' c.
Proof. intros E [H1 H2 H3]. split; auto; unfold sized; rewrite E; auto. Qed.

(** A packet that fits is written or dropped, nothing else happens. *)
Lemma send_ok o c remote data :
  con_ok o c -> sized o remote data ->
  exists f ok, WriterFlow.write (flow c) (message remote data) = Ret (f, ok) /\
    send (flow c) remote data = Ret f /\
    ok = out_have (WriterFlow.writer (flow c)) /\ con_ok o (set_flow c f).
Proof.
  intros [(ps & staged & Hf) Hm Hj] Hs. rewrite send_write.
  destruct (WriterFlow.write_inv _ _ _ _ (message remote data) Hf) as [(-> & E) | (-> & _ & f & E & Hf')].
  - cbn. unfold sized in Hs. by rewrite Hm.
  - rewrite E. exists (flow c), false. split; [done|]. split; [done|]. split; [done|]. split; cbn; eauto.
  - rewrite E. exists f, true. split; [done|]. split; [done|]. split; [done|].
    split; cbn; auto; [by eauto|]. by rewrite (WriterFlow.write_mtu _ _ _ _ E).
Qed.

(** Replacing a connection by one with the same addresses. *)
Lemma replace_inv o p c c' :
  client_inv o -> heap o !! p = Some c -> conaddr c' = conaddr c -> con_ok o c' ->
  client_inv (set_heap o (<[p := c']> (heap o))).
Proof.
  intros [Hm Ht Hp Hn Hx Hh Hc] Hpc Ek Hok. split; cbn; auto.
  - by eapply same_key_tree.
  - intros q. destruct (decide (q = p)) as [->|Hne].
    + rewrite lookup_insert_eq, <- Hh. split; [by eexists|by eauto].
    + by rewrite lookup_insert_ne by done.
  - intros q d. destruct (decide (q = p)) as [->|Hne].
    + rewrite lookup_insert_eq. intros [= <-]. by apply con_ok_same with o.
    + rewrite lookup_insert_ne by done. intros Hq%Hc. by apply con_ok_same with o.
Qed.

Lemma connection_send_ok o p c data :
  client_inv o -> heap o !! p = Some c -> sized o (remote_addr (conaddr c)) data ->
  exists f, WriterFlow.write (flow c) (message (remote_addr (conaddr c)) data) =
      Ret (f, out_have (WriterFlow.writer (flow c))) /\
    connection_send o p data = Ret (set_heap o (<[p := set_flow c f]> (heap o))) /\
    client_inv (set_heap o (<[p := set_flow c f]> (heap o))).
Proof.
  intros Hi Hp Hs. destruct (send_ok o c _ data (ci_cons _ Hi _ _ Hp) Hs) as (f & ok & E1 & E2 & -> & Hok).
  exists f. split; [done|]. unfold connection_send. rewrite Hp. cbn [of_option]. rewrite bind_Ret, E2, bind_Ret.
  split; [done|]. by apply replace_inv with c.
Qed.

(** *** Least recently used connections *)

Definition lru_of (h : gmap Z connection) (l : list Z) : list conaddr_t := omap (fun p => conaddr <$> h !! p) l.
Definition lru (o : SocksUdpGwClient) : list conaddr_t := lru_of (heap o) (connections_list o).

(** The specification: a cache of [max] addresses; [made] tells whether a new
    connection could be made. *)
Definition lru_submit (max : Z) (k : conaddr_t) (made : bool) (l : list conaddr_t) : list conaddr_t :=
  if decide (k ∈ l) then filter (fun x => x <> k) l ++ [k]
  else if zlen l =? max then tail l ++ [k]
  else if made then l ++ [k] else l.

Lemma lru_of_app h l1 l2 : lru_of h (l1 ++ l2) = lru_of h l1 ++ lru_of h l2.
Proof. apply omap_app. Qed.
Lemma lru_of_one h p c : h !! p = Some c -> lru_of h [p] = [conaddr c].
Proof. intros H. unfold lru_of. cbn. by rewrite H. Qed.
Lemma lru_of_ext h h' l : (forall p, p ∈ l -> conaddr <$> h' !! p = conaddr <$> h !! p) -> lru_of h' l = lru_of h l.
Proof.
  unfold lru_of. induction l as [|p l IH]; intros H; [done|]. cbn. rewrite H by left.
  rewrite IH; [done|]. intros q Hq. apply H. by right.
Qed.
Lemma lru_of_notin h p c l : p ∉ l -> lru_of (<[p := c]> h) l = lru_of h l.
Proof. intros Hp. apply lru_of_ext. intros q Hq. by rewrite lookup_insert_ne by (intros ->; done). Qed.
Lemma lru_of_same h p c c' l :
  h !! p = Some c -> conaddr c' = conaddr c -> lru_of (<[p := c']> h) l = lru_of h l.
Proof.
  intros Hp E. apply lru_of_ext. intros q _. destruct (decide (q = p)) as [->|Hne].
  - rewrite lookup_insert_eq, Hp. cbn. by rewrite E.
  - by rewrite lookup_insert_ne by done.
Qed.
Lemma elem_of_lru h l k : k ∈ lru_of h l <-> exists p c, p ∈ l /\ h !! p = Some c /\ conaddr c = k.
Proof.
  unfold lru_of. rewrite list_elem_of_omap. split.
  - intros (p & Hp & E). destruct (h !! p) as [c|] eqn:Ec; [|done]. injection E as <-. eauto 6.
  - intros (p & c & Hp & Hc & <-). exists p. rewrite Hc. done.
Qed.
Lemma lru_of_remove h l p c :
  h !! p = Some c -> (forall q d, q ∈ l -> q <> p -> h !! q = Some d -> conaddr d <> conaddr c) ->
  lru_of h (LinkedList1_Remove l p) = filter (fun x => x <> conaddr c) (lru_of h l).
Proof.
  intros Hp. unfold LinkedList1_Remove, lru_of. induction l as [|q l IH]; intros Hu; [done|].
  rewrite filter_cons. cbn [omap list_omap].
  assert (IH' := IH (fun q' d Hq' => Hu q' d (proj2 (elem_of_cons l q' q) (or_intror Hq')))).
  destruct (decide (q = p)) as [->|Hne].
  - rewrite decide_False by tauto. rewrite IH', Hp. cbn [fmap option_fmap option_map].
    rewrite filter_cons, decide_False by tauto. done.
  - rewrite decide_True by done. cbn [omap list_omap]. unfold omap in IH'.
    destruct (h !! q) as [d|] eqn:Eq; cbn [fmap option_fmap option_map].
    + rewrite filter_cons, decide_True by (eapply Hu; eauto; left). by f_equal.
    + done.
Qed.

Lemma find_iff o k p :
  client_inv o -> conaddr_ok k ->
  find_connection o k = Some p <-> exists c, heap o !! p = Some c /\ conaddr c = k.
Proof.
  intros Hi Hk. unfold find_connection.
  rewrite (lookup_Some conaddr conaddr_comparator conaddr_ok comparator_eq) by (done || apply Hi).
  rewrite (ci_perm _ Hi), <- (ci_heap _ Hi). split; [by intros [_ ?]|].
  intros (c & Hc & E). split; [by eexists|eauto].
Qed.
Lemma find_lru o k : client_inv o -> conaddr_ok k -> k ∈ lru o <-> exists p, find_connection o k = Some p.
Proof.
  intros Hi Hk. unfold lru. rewrite elem_of_lru. split.
  - intros (p & c & _ & Hc & E). exists p. apply find_iff; eauto.
  - intros (p & (c & Hc & E)%find_iff); [|done..]. exists p, c. split; [|done]. apply (ci_heap _ Hi). by eexists.
Qed.

(** The connection becomes the most recently used one. *)
Definition touch (o : SocksUdpGwClient) (con : Z) : SocksUdpGwClient :=
  set_tables o (num_connections o) (connections_tree o)
    (LinkedList1_Append (LinkedList1_Remove (connections_list o) con) con) (heap o).
Lemma list_nodup o : client_inv o -> NoDup (connections_list o).
Proof. intros Hi. rewrite <- (ci_perm _ Hi). apply (to_nodup _ _ _ _ (ci_tree _ Hi)). Qed.
Lemma touch_perm o con : client_inv o -> con ∈ connections_list o -> connections_list (touch o con) ≡ₚ connections_list o.
Proof.
  intros Hi Hp. cbn. unfold LinkedList1_Append. rewrite Permutation_app_comm. cbn.
  apply remove_perm; [by apply list_nodup|done].
Qed.
Lemma touch_inv o con c : client_inv o -> heap o !! con = Some c -> client_inv (touch o con).
Proof.
  intros Hi Hc. assert (Hp : con ∈ connections_list o) by (apply (ci_heap _ Hi); by eexists).
  pose proof (touch_perm _ _ Hi Hp) as Hperm. destruct Hi as [Hm Ht Hp' Hn Hx Hh Hcs].
  split; auto.
  - cbn. cbn in Hperm. by rewrite Hperm.
  - change (num_connections o = zlen (connections_list (touch o con))). by rewrite (Permutation_length Hperm).
  - intros p. rewrite Hperm. apply Hh.
  - intros p d Hd. apply con_ok_same with o; eauto.
Qed.
Lemma touch_lru o con c :
  client_inv o -> heap o !! con = Some c ->
  lru (touch o con) = filter (fun x => x <> conaddr c) (lru o) ++ [conaddr c].
Proof.
  intros Hi Hc. change (lru (touch o con)) with (lru_of (heap o) (LinkedList1_Remove (connections_list o) con ++ [con])).
  rewrite lru_of_app, (lru_of_one _ _ c) by done. f_equal. apply lru_of_remove; [done|].
  intros q d Hq Hne Hd E. apply Hne. pose proof (ci_perm _ Hi) as Hperm.
  apply (to_keys _ _ _ _ (ci_tree _ Hi) q con d c); auto; rewrite Hperm; [done|].
  apply (ci_heap _ Hi). by eexists.
Qed.

Definition same_limits (o o' : SocksUdpGwClient) : Prop :=
  udp_mtu o' = udp_mtu o /\ max_connections o' = max_connections o.

(** The least recently used connection gets new addresses. *)
Lemma reuse_ok o k :
  client_inv o -> conaddr_ok k -> find_connection o k = None -> num_connections o = max_connections o ->
  (forall p c, heap o !! p = Some c -> first_job c = false) ->
  exists con rest c o', connections_list o = con :: rest /\ heap o !! con = Some c /\
    reuse_connection o k = Ret (o', con) /\ client_inv o' /\
    heap o' !! con = Some (mkConnection k (first_job c) (first_data c) (flow c)) /\
    connections_list o' = connections_list o /\ same_limits o o' /\
    lru (touch o' con) = tail (lru o) ++ [k].
Proof.
  intros Hi Hk Hnone Hmax Hjobs. pose proof (list_nodup _ Hi) as Hnd.
  assert (Hlist : exists con rest, connections_list o = con :: rest).
  { pose proof (ci_num _ Hi). pose proof (ci_max _ Hi). destruct (connections_list o); [cbn in *; lia|eauto]. }
  destruct Hlist as (con & rest & El). assert (Hin : con ∈ connections_list o) by (rewrite El; left).
  destruct (proj2 (ci_heap _ Hi con) Hin) as [c Hc].
  set (c' := mkConnection k (first_job c) (first_data c) (flow c)). set (h := <[con := c']> (heap o)).
  assert (Hnot : con ∉ BAVL_Remove (connections_tree o) con) by (unfold BAVL_Remove; rewrite list_elem_of_filter; tauto).
  destruct (insert_tree conaddr conaddr_comparator conaddr_ok comparator_eq h
    (BAVL_Remove (connections_tree o) con) con c') as [Hins Htree]; auto.
  { apply update_tree; [|done]. apply remove_tree, Hi. }
  { apply lookup_insert_eq. }
  { intros q d [Hne Hq]%list_elem_of_filter. unfold h. rewrite lookup_insert_ne by done. intros Hd E. cbn in E.
    assert (find_connection o k = Some q) by (apply find_iff; eauto). congruence. }
  exists con, rest, c, (set_tables o (num_connections o) (con :: BAVL_Remove (connections_tree o) con)
    (connections_list o) h).
  split; [done|]. split; [done|]. split; [|split; [|split; [|split; [|split]]]]; try done.
  - unfold reuse_connection. rewrite bool_decide_true by done. cbn [assert]. rewrite bind_Ret.
    rewrite (proj2 (Z.ltb_lt _ _)) by (pose proof (ci_max _ Hi); lia). cbn [assert]. rewrite bind_Ret.
    rewrite El. cbn [head of_option]. rewrite bind_Ret, Hc. cbn [of_option]. rewrite bind_Ret.
    fold c' h. rewrite Hins. done.
  - destruct Hi as [Hm Ht Hp Hn Hx Hh Hcs]. split; cbn; auto.
    + rewrite <- Hp. apply (remove_perm (connections_tree o)); [apply Ht|]. by rewrite Hp.
    + intros p. unfold h. destruct (decide (p = con)) as [->|Hne].
      * rewrite lookup_insert_eq. split; [done|by eexists].
      * by rewrite lookup_insert_ne by done.
    + intros p d. unfold h. destruct (decide (p = con)) as [->|Hne].
      * rewrite lookup_insert_eq. intros [= <-]. destruct (Hcs con c Hc) as [H1 H2 _]. split; auto.
        cbn. by rewrite (Hjobs con c Hc).
      * rewrite lookup_insert_ne by done. intros Hd. apply con_ok_same with o; eauto.
  - apply lookup_insert_eq.
  - rewrite El in Hnd. apply list_relations.list.NoDup_cons in Hnd as [Hnr Hnd].
    change (lru (touch _ con)) with (lru_of h (LinkedList1_Remove (connections_list o) con ++ [con])).
    rewrite El, lru_of_app, (lru_of_one _ _ c') by apply lookup_insert_eq.
    unfold LinkedList1_Remove. rewrite filter_cons, decide_False by tauto. fold (LinkedList1_Remove rest con).
    rewrite remove_notin by done. unfold h. rewrite lru_of_notin by done.
    f_equal. unfold lru, lru_of at 2. rewrite El. cbn. by rewrite Hc.
Qed.

Lemma lru_length o : client_inv o -> zlen (lru o) = zlen (connections_list o).
Proof.
  intros Hi. assert (H : forall p, p ∈ connections_list o -> is_Some (heap o !! p)) by (intros p; apply Hi).
  unfold lru. induction (connections_list o) as [|p l IH]; [done|].
  destruct (H p) as [c Hc]; [left|]. unfold lru_of. cbn. rewrite Hc. cbn. fold (lru_of (heap o) l).
  rewrite !Nat2Z.inj_succ. f_equal. apply IH. intros q Hq. apply H. by right.
Qed.

(** *** Making and freeing connections *)

(** Ownership: nothing is acquired twice, only what is held is released. *)
Fixpoint own (held : list resource) (acts : list action) : option (list resource) :=
  match acts with
  | [] => Some held
  | Acquire r :: acts => if decide (r ∈ held) then None else own (held ++ [r]) acts
  | Release r :: acts => if decide (r ∈ held) then own (filter (fun x => x <> r) held) acts else None
  end.
Definition all_resources : list resource :=
  [r_struct; r_first_job; r_dgram; r_send_async; r_recv_async; r_writer; r_send_buffer; r_recv_if; r_recv_buffer].

(** Everything that is asked of the system succeeds. *)
Definition made (o : SocksUdpGwClient) (w : answers) : bool :=
  match a_malloc w, WriterFlow.Init (udp_mtu o) CONNECTION_UDP_BUFFER_SIZE (a_garbage w) (a_mem w) with
  | Some _, Ret (Some _) => a_dgram w && a_reuse w && a_recv_buffer w
  | _, _ => false
  end.
(** [malloc] returns new memory. *)
Record answers_ok (o : SocksUdpGwClient) (w : answers) : Prop := {
  ao_new : forall p, a_malloc w = Some p -> heap o !! p = None;
  ao_mem : PacketBuffer.alloc_ok (a_mem w);
}.

(** A connection that was just made. *)
Definition add_connection (o : SocksUdpGwClient) (con : Z) (c : connection) : SocksUdpGwClient :=
  set_tables o (num_connections o + 1) (con :: connections_tree o) (LinkedList1_Append (connections_list o) con)
    (<[con := c]> (heap o)).
Lemma add_inv o con c :
  client_inv o -> heap o !! con = None -> conaddr_ok (conaddr c) -> find_connection o (conaddr c) = None ->
  num_connections o < max_connections o -> con_ok o c ->
  BAVL_Insert conaddr conaddr_comparator (<[con := c]> (heap o)) (connections_tree o) con =
    Some (con :: connections_tree o) /\
  client_inv (add_connection o con c) /\ lru (add_connection o con c) = lru o ++ [conaddr c].
Proof.
  intros Hi Hnew Hk Hnone Hlt Hok. set (h := <[con := c]> (heap o)).
  assert (Hnl : con ∉ connections_list o) by (rewrite <- (ci_heap _ Hi), Hnew; by intros [? ?]).
  assert (Hnt : con ∉ connections_tree o) by (by rewrite (ci_perm _ Hi)).
  destruct (insert_tree conaddr conaddr_comparator conaddr_ok comparator_eq h (connections_tree o) con c)
    as [Hins Htree]; auto.
  { apply update_tree; [apply Hi|done]. }
  { apply lookup_insert_eq. }
  { intros q d Hq. unfold h. rewrite lookup_insert_ne by (intros ->; done). intros Hd E.
    assert (find_connection o (conaddr c) = Some q) by (apply find_iff; eauto). congruence. }
  split; [done|]. split.
  - destruct Hi as [Hm Ht Hp Hn Hx Hh Hcs]. split; cbn; auto; unfold LinkedList1_Append.
    + rewrite Permutation_app_comm. by apply Permutation_cons.
    + rewrite length_app. cbn. lia.
    + lia.
    + intros p. unfold h. rewrite elem_of_app, list_elem_of_singleton, <- Hh.
      destruct (decide (p = con)) as [->|Hne].
      * rewrite lookup_insert_eq. split; [tauto|by eexists].
      * rewrite lookup_insert_ne by done. tauto.
    + intros p d. unfold h. destruct (decide (p = con)) as [->|Hne].
      * rewrite lookup_insert_eq. intros [= <-]. by apply con_ok_same with o.
      * rewrite lookup_insert_ne by done. intros Hd. apply con_ok_same with o; eauto.
  - change (lru (add_connection o con c)) with (lru_of h (connections_list o ++ [con])).
    rewrite lru_of_app, (lru_of_one _ _ c) by apply lookup_insert_eq. unfold h. by rewrite lru_of_notin.
Qed.

Lemma connection_init_ok o k data w :
  client_inv o -> conaddr_ok k -> find_connection o k = None -> num_connections o < max_connections o ->
  sized o (remote_addr k) data -> answers_ok o w ->
  exists o' acts, connection_init o k data w = Ret (o', if made o w then a_malloc w else None, acts) /\
    own [] acts = Some (if made o w then all_resources else []) /\ client_inv o' /\
    lru o' = (if made o w then lru o ++ [k] else lru o) /\
    if made o w then exists con f, a_malloc w = Some con /\ o' = add_connection o con (mkConnection k true data f) /\
      WriterFlow.Init (udp_mtu o) CONNECTION_UDP_BUFFER_SIZE (a_garbage w) (a_mem w) = Ret (Some f)
    else o' = o.
Proof.
  intros Hi Hk Hnone Hlt Hs [Hnew Hmem]. unfold connection_init, made.
  destruct (a_malloc w) as [con|] eqn:Em; [|by eexists _, _].
  destruct (WriterFlow.flow_init_total (udp_mtu o) CONNECTION_UDP_BUFFER_SIZE (a_garbage w) (a_mem w))
    as [Ef | (f & Ef & Hf & Hmtu)]; [apply Hi|done|done|..]; rewrite Ef.
  - destruct (a_dgram w), (a_reuse w); cbn [negb]; rewrite ?bind_Ret; by eexists _, _.
  - destruct (a_dgram w); cbn [negb andb]; [|by eexists _, _].
    destruct (a_reuse w); cbn [negb andb]; [|by eexists _, _].
    rewrite bind_Ret. destruct (a_recv_buffer w); cbn [negb]; [|by eexists _, _].
    destruct (add_inv o con (mkConnection k true data f)) as (Hins & Hi' & Hlru); auto.
    { split; cbn; eauto. }
    rewrite Hins. cbn [of_option]. rewrite bind_Ret.
    eexists _, _. split; [reflexivity|]. split; [done|]. split; [done|]. split; [done|]. eauto.
Qed.

(** *** Submitting a packet *)

(** The jobs of new connections run before the next packet is read, and the
    packet and its headers fit into the socket's MTU. *)
Record submit_ready (o : SocksUdpGwClient) (local remote : BAddr) (data : list Z) (w : answers) : Prop := {
  sr_addr : conaddr_ok (mkConaddr local remote);
  sr_size : sized o remote data;
  sr_jobs : forall p c, heap o !! p = Some c -> first_job c = false;
  sr_answers : answers_ok o w;
}.

(** What a write does: a writer that holds no place in its buffer drops the
    packet and stays as it is; otherwise the packet is the newest of the flow,
    behind the packets queued there. *)
Definition written (f f' : WriterFlow.flow ChunkBuffer2.ChunkBuffer2) (packet : list Z) : Prop :=
  (out_have (WriterFlow.writer f) = false /\ f' = f) \/
  (out_have (WriterFlow.writer f) = true /\ exists ps,
     WriterFlow.flow_inv CONNECTION_UDP_BUFFER_SIZE f ps None /\
     WriterFlow.flow_inv CONNECTION_UDP_BUFFER_SIZE f' ps (Some packet)).

(** Where the packet is after it was submitted: in a new connection that will
    send it first, or written to the connection of its addresses, which drops it
    when its buffer is full. *)
Definition accepted (o o' : SocksUdpGwClient) (local remote : BAddr) (data : list Z) : Prop :=
  exists con c', heap o' !! con = Some c' /\ conaddr c' = mkConaddr local remote /\
    (exists older, connections_list o' = older ++ [con]) /\
    ((heap o !! con = None /\ first_job c' = true /\ first_data c' = data) \/
     exists c, heap o !! con = Some c /\
       WriterFlow.write (flow c) (message remote data) = Ret (flow c', out_have (WriterFlow.writer (flow c))) /\
       written (flow c) (flow c') (message remote data)).

Lemma length_message remote data : addr_ok remote ->
  zlen (message remote data) = 4 + (match remote with BADDR_TYPE_IPV4 _ _ => 6 | BADDR_TYPE_IPV6 _ _ => 18 end) + zlen data.
Proof.
  intros Ha. unfold message, header_bytes. rewrite !length_app.
  destruct remote as [ip port|ip port]; cbn [addr_bytes addr_ok] in *.
  - rewrite length_app, !length_le_bytes. cbn [length]. lia.
  - destruct Ha as [[_ Hip] _]. rewrite length_app, !length_le_bytes. cbn [length]. lia.
Qed.

Lemma touch_send o con c data :
  client_inv o -> heap o !! con = Some c -> sized o (remote_addr (conaddr c)) data ->
  exists f, WriterFlow.write (flow c) (message (remote_addr (conaddr c)) data) =
      Ret (f, out_have (WriterFlow.writer (flow c))) /\
    written (flow c) f (message (remote_addr (conaddr c)) data) /\
    connection_send (touch o con) con data = Ret (set_heap (touch o con) (<[con := set_flow c f]> (heap o))) /\
    client_inv (set_heap (touch o con) (<[con := set_flow c f]> (heap o))) /\
    lru (set_heap (touch o con) (<[con := set_flow c f]> (heap o))) = lru (touch o con).
Proof.
  intros Hi Hc Hs. pose proof (touch_inv o con c Hi Hc) as Hi1.
  destruct (connection_send_ok (touch o con) con c data Hi1 Hc Hs) as (f & Hw & Hrun & Hi2).
  exists f. split; [done|]. split; [|split; [done|split; [done|by apply (lru_of_same (heap o) con c)]]].
  destruct (ci_cons _ Hi _ _ Hc) as [(ps & staged & Hf) Hm _].
  destruct (WriterFlow.write_inv _ _ _ _ (message (remote_addr (conaddr c)) data) Hf) as [(E & E')|(E & -> & f' & E' & Hf')].
  - cbn. unfold sized in Hs. by rewrite Hm.
  - left. split; [done|]. rewrite E' in Hw. by injection Hw as <-.
  - right. split; [done|]. exists ps. split; [done|]. rewrite E' in Hw. by injection Hw as <-.
Qed.

Lemma submit_ok o local remote data w :
  client_inv o -> submit_ready o local remote data w ->
  exists o' acts, SocksUdpGwClient_SubmitPacket o local remote data w = Ret (o', acts) /\ client_inv o' /\ same_limits o o' /\
    lru o' = lru_submit (max_connections o) (mkConaddr local remote) (made o w) (lru o) /\
    (o' = o /\ made o w = false /\ own [] acts = Some [] \/
     accepted o o' local remote data /\ (own [] acts = Some [] \/ own [] acts = Some all_resources)).
Proof.
  intros Hi [Hk Hs Hj Hans]. unfold SocksUdpGwClient_SubmitPacket.
  rewrite (proj2 (Z.leb_le _ _)) by (unfold sized in Hs; rewrite length_message in Hs by apply Hk; destruct remote; lia).
  cbn [assert]. rewrite bind_Ret. set (k := mkConaddr local remote) in *. cbv zeta.
  pose proof (find_lru o k Hi Hk) as Hfind. unfold lru_submit.
  destruct (find_connection o k) as [con|] eqn:Ef; cbn [bool_decide].
  - rewrite bool_decide_false by done. cbn [andb]. rewrite bind_Ret. fold (touch o con).
    rewrite decide_True by (apply Hfind; eauto). apply find_iff in Ef as (c & Hc & E); [|done..].
    destruct (touch_send o con c data Hi Hc) as (f & Hw & Hwr & -> & Hi2 & Hl); [by rewrite E|].
    rewrite bind_Ret. eexists _, _. split; [reflexivity|]. split; [done|]. split; [done|]. split; [by rewrite Hl, (touch_lru _ _ c), E|].
    right. split; [|by left]. exists con, (set_flow c f). split; [apply lookup_insert_eq|]. split; [done|].
    split; [by eexists|]. right. exists c. split; [done|]. by rewrite E in Hw, Hwr.
  - rewrite bool_decide_true by done. cbn [andb]. rewrite decide_False by (rewrite Hfind; by intros [? ?]).
    assert (El : zlen (lru o) = num_connections o) by (rewrite (ci_num _ Hi); by apply lru_length).
    rewrite El. destruct (Z.eqb_spec (num_connections o) (max_connections o)) as [Em|Em].
    + destruct (reuse_ok o k Hi Hk Ef Em Hj) as (con & rest & c & o1 & Hrest & Hc & -> & Hi1 & Hc1 & Hl1 & [Hm1 Hx1] & Hlru).
      rewrite !bind_Ret. fold (touch o1 con).
      destruct (touch_send o1 con _ data Hi1 Hc1) as (f & Hw & Hwr & -> & Hi2 & Hl); [unfold sized; by rewrite Hm1|].
      rewrite bind_Ret. eexists _, _. split; [reflexivity|]. split; [done|]. split; [done|]. split; [by rewrite Hl|].
      right. split; [|by left]. eexists con, _. split; [apply lookup_insert_eq|]. split; [done|].
      split; [by eexists|]. right. exists c. done.
    + rewrite bind_Ret. pose proof (ci_max _ Hi).
      destruct (connection_init_ok o k data w Hi Hk Ef) as (o' & acts & -> & Hown & Hi' & Hl & Hnew); auto; [lia|].
      rewrite bind_Ret. exists o', acts. split; [done|]. split; [done|].
      destruct (made o w); [|subst o'; repeat split; auto; by left]. destruct Hnew as (con & f & Hm & -> & _).
      split; [done|]. split; [done|]. right. split; [|by right].
      eexists con, _. split; [apply lookup_insert_eq|]. split; [done|]. split; [by eexists|].
      left. split; [|done]. by apply Hans.
Qed.

(** *** Every step *)

Definition enabled (o : SocksUdpGwClient) (e : event) : Prop :=
  match e with
  | Submit l r data w => submit_ready o l r data w
  | FirstJob con => exists c, heap o !! con = Some c /\ first_job c = true
  | WriterJob con => exists c, heap o !! con = Some c /\ WriterFlow.enabled (flow c) WriterFlow.Job
  | Sent con => exists c, heap o !! con = Some c /\ WriterFlow.enabled (flow c) WriterFlow.Sent
  end.

Lemma with_flow_ok o con c k f ps :
  client_inv o -> heap o !! con = Some c -> k (flow c) = Ret (f, ps) -> con_ok o (set_flow c f) ->
  with_flow o con k = Ret (set_heap o (<[con := set_flow c f]> (heap o)), map (pair con) ps) /\
  client_inv (set_heap o (<[con := set_flow c f]> (heap o))) /\
  lru (set_heap o (<[con := set_flow c f]> (heap o))) = lru o.
Proof.
  intros Hi Hc Hk Hok. unfold with_flow. rewrite Hc. cbn [of_option]. rewrite bind_Ret, Hk, bind_Ret.
  split; [done|]. split; [by apply replace_inv with c|]. by apply (lru_of_same (heap o) con c).
Qed.

Lemma first_job_ok o con c :
  client_inv o -> heap o !! con = Some c -> first_job c = true ->
  exists f, WriterFlow.write (flow c) (message (remote_addr (conaddr c)) (first_data c)) =
      Ret (f, out_have (WriterFlow.writer (flow c))) /\
    let o' := set_heap o (<[con := mkConnection (conaddr c) false (first_data c) f]> (heap o)) in
    connection_first_job_handler o con = Ret o' /\ client_inv o' /\ lru o' = lru o.
Proof.
  intros Hi Hc Hj. pose proof (ci_cons _ Hi _ _ Hc) as Hok.
  set (c1 := mkConnection (conaddr c) false (first_data c) (flow c)).
  assert (Hi1 : client_inv (set_heap o (<[con := c1]> (heap o)))).
  { apply replace_inv with c; auto. destruct Hok as [H1 H2 _]. split; auto. done. }
  destruct (connection_send_ok _ con c1 (first_data c) Hi1) as (f & Hw & Hrun & Hi2).
  { apply lookup_insert_eq. }
  { by apply (co_first _ _ Hok). }
  exists f. split; [done|]. unfold connection_first_job_handler. rewrite Hc. cbn [of_option].
  rewrite bind_Ret, Hj. cbn [assert]. rewrite bind_Ret. fold c1. rewrite Hrun.
  cbn [heap set_heap set_tables] in *. rewrite insert_insert_eq in *. split; [done|]. split; [done|].
  by apply (lru_of_same (heap o) con c).
Qed.

Definition lru_step (o : SocksUdpGwClient) (e : event) : list conaddr_t :=
  match e with
  | Submit l r _ w => lru_submit (max_connections o) (mkConaddr l r) (made o w) (lru o)
  | _ => lru o
  end.
Lemma udp_step_ok o e : client_inv o -> enabled o e ->
  exists o' out, step o e = Ret (o', out) /\ client_inv o' /\ same_limits o o' /\ lru o' = lru_step o e.
Proof.
  intros Hi He. destruct e as [l r data w|con|con|con]; cbn [enabled step lru_step] in *.
  - destruct (submit_ok o l r data w Hi He) as (o' & acts & -> & Hi' & Hx & Hl & _).
    rewrite bind_Ret. eexists _, _. done.
  - destruct He as (c & Hc & Hj). destruct (first_job_ok o con c Hi Hc Hj) as (f & _ & -> & Hi' & Hl).
    rewrite bind_Ret. eexists _, _. split; [reflexivity|]. split; [exact Hi'|]. split; [by split|exact Hl].
  - destruct He as (c & Hc & Hen). destruct (ci_cons _ Hi _ _ Hc) as [(ps & staged & Hf) Hm Hj].
    destruct (WriterFlow.job_inv _ _ _ _ Hf Hen) as (f & E & Hf').
    destruct (with_flow_ok o con c (fun f => f ← WriterFlow.job f; Ret (f, [])) f [] Hi Hc) as (-> & Hi' & Hl); [by rewrite E|..].
    { split; cbn; eauto. by rewrite (WriterFlow.job_mtu _ _ E). }
    eexists _, _. split; [reflexivity|]. split; [exact Hi'|]. split; [by split|exact Hl].
  - destruct He as (c & Hc & Hen). destruct (ci_cons _ Hi _ _ Hc) as [(ps & staged & Hf) Hm Hj].
    destruct (WriterFlow.sent_inv _ _ _ _ Hf Hen) as (p & ps' & f & _ & E & Hf').
    destruct (with_flow_ok o con c (fun f => '(f, p) ← WriterFlow.sent f; Ret (f, [p])) f [p] Hi Hc)
      as (-> & Hi' & Hl); [by rewrite E|..].
    { split; cbn; eauto. by rewrite (WriterFlow.sent_mtu _ _ _ E). }
    eexists _, _. split; [reflexivity|]. split; [exact Hi'|]. split; [by split|exact Hl].
Qed.

Inductive reach (o0 : SocksUdpGwClient) : SocksUdpGwClient -> Prop :=
| reach_start : reach o0 o0
| reach_step o e o' out : reach o0 o -> enabled o e -> step o e = Ret (o', out) -> reach o0 o'.

Lemma Init_client_inv mtu max : 0 <= mtu -> 0 < max -> client_inv (SocksUdpGwClient_Init mtu max).
Proof.
  intros Hm Hx. split; cbn; auto.
  - split; [intros p Hp; by apply elem_of_nil in Hp|constructor|]. intros p q c c' Hp. by apply elem_of_nil in Hp.
  - unfold UINT16_MAX. destruct (_ <? _); lia.
  - intros p. rewrite elem_of_nil, lookup_empty. split; [by intros [? ?]|done].
  - intros p c. by rewrite lookup_empty.
Qed.
Lemma reach_inv mtu max o : 0 <= mtu -> 0 < max -> reach (SocksUdpGwClient_Init mtu max) o ->
  client_inv o /\ same_limits (SocksUdpGwClient_Init mtu max) o.
Proof.
  intros Hm Hx. induction 1 as [|o e o' out _ [IH [E1 E2]] He Hs]; [split; [by apply Init_client_inv|done]|].
  destruct (udp_step_ok o e IH He) as (o2 & out2 & E & Hi & [E3 E4] & _). rewrite Hs in E. injection E as <- <-.
  split; [done|]. split; congruence.
Qed.
Lemma lru_nodup o : client_inv o -> NoDup (lru o).
Proof.
  intros Hi. pose proof (list_nodup _ Hi) as Hnd. pose proof (ci_perm _ Hi) as Hp. pose proof (to_keys _ _ _ _ (ci_tree _ Hi)) as Hu.
  assert (Hu' : forall p q c c', p ∈ connections_list o -> q ∈ connections_list o -> heap o !! p = Some c ->
    heap o !! q = Some c' -> conaddr c = conaddr c' -> p = q).
  { intros p q c c' H1 H2. rewrite <- Hp in H1, H2. by apply Hu. }
  clear Hu Hp. unfold lru. induction (connections_list o) as [|p l IH]; [constructor|].
  apply list_relations.list.NoDup_cons in Hnd as [Hpl Hnd].
  assert (IH' : NoDup (lru_of (heap o) l)) by (apply IH; [done|]; intros q q' c c' H1 H2; apply Hu'; by right).
  unfold lru_of. cbn. destruct (heap o !! p) as [c|] eqn:Hc; cbn; fold (lru_of (heap o) l); [|done].
  constructor; [|done]. rewrite elem_of_lru. intros (q & d & Hq & Hd & E).
  apply Hpl. rewrite (Hu' p q c d); auto; [left|by right].
Qed.

(** C27: the connections are a least-recently-used cache. Packets are submitted
    only when they fit into [udp_mtu] together with the header that
    [connection_send] puts in front of them, and when no connection still waits
    for its first job ([submit_ready]; [udp_client_overflow] shows a packet
    without the first condition). In every state that such packets, jobs and
    completed sends can lead to: the pairs of addresses are distinct and at most
    [max_connections], itself at most 65536; every event that can happen is
    handled without a failed assertion or an access outside a buffer, and the
    list of address pairs changes as in the cache [lru_submit]. A submitted packet
    goes to the connection of exactly its addresses, which is now the most
    recently used: a new one sends it first; an old one stages it behind the
    packets queued there, or drops it when its writer has no place ([written]).
    When no connection could be made, nothing has changed and everything acquired
    is released again. *)
Theorem udp_client_lru mtu max o :
  0 <= mtu -> 0 < max -> reach (SocksUdpGwClient_Init mtu max) o ->
  NoDup (lru o) /\ zlen (lru o) <= max_connections o /\ max_connections o = Z.min max 65536 /\
  (forall e, enabled o e -> exists o' out, step o e = Ret (o', out) /\ lru o' = lru_step o e) /\
  (forall l r data w, submit_ready o l r data w ->
   exists o' acts, SocksUdpGwClient_SubmitPacket o l r data w = Ret (o', acts) /\
     (o' = o /\ made o w = false /\ own [] acts = Some [] \/
      accepted o o' l r data /\ (own [] acts = Some [] \/ own [] acts = Some all_resources))).
Proof.
  intros Hm Hx Hr. destruct (reach_inv _ _ _ Hm Hx Hr) as [Hi [_ E]].
  split; [by apply lru_nodup|]. split; [rewrite lru_length, <- (ci_num _ Hi) by done; apply Hi|]. split.
  { rewrite E. cbn. unfold UINT16_MAX. destruct (Z.ltb_spec (65535 + 1) max); lia. }
  split.
  - intros e He. destruct (udp_step_ok o e Hi He) as (o' & out & E' & _ & _ & Hl). eauto.
  - intros l r data w Hs. destruct (submit_ok o l r data w Hi Hs) as (o' & acts & E' & _ & _ & _ & H). eauto.
Qed.

Definition is_v6 (a : BAddr) : bool := match a with BADDR_TYPE_IPV6 _ _ => true | _ => false end.
Lemma length_addr_bytes a : addr_ok a -> zlen (addr_bytes a) = if is_v6 a then 18 else 6.
Proof.
  destruct a as [ip port|ip port]; cbn [addr_ok addr_bytes is_v6]; rewrite length_app, !length_le_bytes; [done|].
  intros [[_ H] _]. lia.
Qed.
Lemma le_bytes_inj n x y :
  0 <= x < 256 ^ Z.of_nat n -> 0 <= y < 256 ^ Z.of_nat n -> le_bytes n x = le_bytes n y -> x = y.
Proof. intros Hx Hy E. apply (f_equal le_val) in E. rewrite !le_val_bytes in E. by rewrite !Z.mod_small in E by done. Qed.
Lemma addr_bytes_inj a b : addr_ok a -> addr_ok b -> is_v6 a = is_v6 b -> addr_bytes a = addr_bytes b -> a = b.
Proof.
  destruct a as [ip port|ip port], b as [ip' port'|ip' port']; cbn [addr_ok addr_bytes is_v6]; try done.
  - intros [Hi Hp] [Hi' Hp'] _ E. apply app_inj_1 in E as [E1 E2]; [|by rewrite !length_le_bytes].
    apply le_bytes_inj in E1 as ->, E2 as ->; done.
  - intros [[_ Hi] Hp] [[_ Hi'] Hp'] _ E. apply app_inj_1 in E as [-> E2]; [|lia].
    apply le_bytes_inj in E2 as ->; done.
Qed.

Lemma le_bytes_of n l : length l = n -> bytes l -> le_bytes n (le_val l) = l.
Proof. intros <-. apply le_bytes_val. Qed.

(** The address at the front of the rest of a message. *)
Definition front_addr (v6 : bool) (l : list Z) : BAddr :=
  if v6 then BADDR_TYPE_IPV6 (take 16 l) (le_val (take 2 (drop 16 l)))
  else BADDR_TYPE_IPV4 (le_val (take 4 l)) (le_val (take 2 (drop 4 l))).
Definition addr_len (v6 : bool) : nat := if v6 then 18 else 6.
Lemma front_addr_ok v6 l : bytes l -> (addr_len v6 <= length l)%nat ->
  addr_ok (front_addr v6 l) /\ is_v6 (front_addr v6 l) = v6 /\
  addr_bytes (front_addr v6 l) ++ drop (addr_len v6) l = l.
Proof.
  intros Hb Hl. unfold front_addr, addr_len in *.
  assert (Hbt : forall n, bytes (take n l)) by (intros; by apply Forall_take).
  assert (Hbd : forall n k, bytes (take n (drop k l))) by (intros; by apply Forall_take, Forall_drop).
  destruct v6; cbn [addr_ok addr_bytes is_v6].
  - assert (Hlen : length (take 2 (drop 16 l)) = 2%nat) by (rewrite length_take, length_drop; lia).
    pose proof (le_val_range _ (Hbd 2%nat 16%nat)) as Hr. rewrite Hlen in Hr.
    split; [split; [split; [done|rewrite length_take; lia]|exact Hr]|]. split; [done|].
    rewrite (le_bytes_of 2 _ Hlen) by done. rewrite <- app_assoc.
    change 18%nat with (16 + 2)%nat. rewrite <- drop_drop, take_drop. apply take_drop.
  - assert (Hlen : length (take 2 (drop 4 l)) = 2%nat) by (rewrite length_take, length_drop; lia).
    assert (Hlen4 : length (take 4 l) = 4%nat) by (rewrite length_take; lia).
    pose proof (le_val_range _ (Hbd 2%nat 4%nat)) as Hr. rewrite Hlen in Hr.
    pose proof (le_val_range _ (Hbt 4%nat)) as Hr4. rewrite Hlen4 in Hr4.
    split; [split; [exact Hr4|exact Hr]|]. split; [done|].
    rewrite (le_bytes_of 4 _ Hlen4), (le_bytes_of 2 _ Hlen) by done. rewrite <- app_assoc.
    change 6%nat with (4 + 2)%nat. rewrite <- drop_drop, take_drop. apply take_drop.
Qed.

(** The handler in terms of [front_addr]. *)
Lemma received_eq o con c a b frag atyp l :
  heap o !! con = Some c -> conaddr_ok (conaddr c) -> bytes l -> zlen (a :: b :: frag :: atyp :: l) <= udpgw_mtu o ->
  let v6 := atyp =? 4 in
  dgram_handler_received o con (a :: b :: frag :: atyp :: l) =
  Ret (if (frag =? 0) && (Z.of_nat (addr_len v6) <=? zlen l) && bool_decide (front_addr v6 l = remote_addr (conaddr c)) &&
          (zlen (drop (addr_len v6) l) <=? udp_mtu o)
       then Some (local_addr (conaddr c), remote_addr (conaddr c), drop (addr_len v6) l) else None).
Proof.
  intros Hc Hk Hb Hlen v6. unfold dgram_handler_received. rewrite Hc. cbn [of_option]. rewrite bind_Ret.
  rewrite (proj2 (Z.leb_le _ _) Hlen). cbn [assert]. rewrite bind_Ret.
  replace (zlen (a :: b :: frag :: atyp :: l) <? sizeof_socks_udp_header) with false
    by (symmetry; apply Z.ltb_ge; unfold sizeof_socks_udp_header; cbn [length]; lia).
  rewrite (load_Some (a :: b :: frag :: atyp :: l) 0 sizeof_socks_udp_header)
    by (unfold sizeof_socks_udp_header; cbn [length]; lia). cbn [of_option]. rewrite bind_Ret.
  change (slice 0 sizeof_socks_udp_header (a :: b :: frag :: atyp :: l)) with [a; b; frag; atyp].
  change (drop (Z.to_nat sizeof_socks_udp_header) (a :: b :: frag :: atyp :: l)) with l.
  change (get [a; b; frag; atyp] 2) with (Some frag). change (get [a; b; frag; atyp] 3) with (Some atyp).
  cbn [of_option]. rewrite !bind_Ret. destruct (frag =? 0); cbn [negb andb]; [|done].
  change (atyp =? BSocksClient.SOCKS_ATYP_IPV6) with v6.
  set (r := if v6 then _ else _ : cres (option (BAddr * list Z))).
  assert (Er : r = Ret (if Z.of_nat (addr_len v6) <=? zlen l then Some (front_addr v6 l, drop (addr_len v6) l) else None)).
  { unfold r, front_addr, addr_len. destruct v6; cbv zeta.
    - unfold sizeof_udpgw_addr_ipv6. destruct (Z.ltb_spec (zlen l) 18), (Z.leb_spec (Z.of_nat 18) (zlen l)); try lia; [done|].
      rewrite load_Some by lia. cbn [of_option]. rewrite bind_Ret. unfold slice.
      rewrite !drop_0, skipn_firstn_comm, !take_take. done.
    - unfold sizeof_udpgw_addr_ipv4. destruct (Z.ltb_spec (zlen l) 6), (Z.leb_spec (Z.of_nat 6) (zlen l)); try lia; [done|].
      rewrite load_Some by lia. cbn [of_option]. rewrite bind_Ret. unfold slice.
      rewrite !drop_0, skipn_firstn_comm, !take_take. done. }
  rewrite Er, bind_Ret. destruct (Z.leb_spec (Z.of_nat (addr_len v6)) (zlen l)) as [Hl|Hl]; cbn [andb]; [|done].
  destruct (front_addr_ok v6 l Hb) as (Ha & _ & _); [lia|].
  rewrite Compare_eq by (done || apply Hk). destruct (bool_decide _) eqn:Eb; cbn [negb andb]; [|done].
  apply bool_decide_eq_true in Eb as ->.
  destruct (Z.ltb_spec (udp_mtu o) (zlen (drop (addr_len v6) l))), (Z.leb_spec (zlen (drop (addr_len v6) l)) (udp_mtu o));
    (lia || done).
Qed.

Lemma received_iff o con c data :
  heap o !! con = Some c -> conaddr_ok (conaddr c) -> bytes data -> zlen data <= udpgw_mtu o ->
  exists res, dgram_handler_received o con data = Ret res /\
  forall l r d, res = Some (l, r, d) <->
     l = local_addr (conaddr c) /\ r = remote_addr (conaddr c) /\ zlen d <= udp_mtu o /\
     exists x y atyp, data = [x; y; 0; atyp] ++ addr_bytes r ++ d /\ (atyp = 4 <-> is_v6 r = true).
Proof.
  intros Hc Hk Hb Hlen.
  destruct data as [|a [|b [|frag [|atyp rest]]]].
  1-4: eexists; split;
    [unfold dgram_handler_received; rewrite Hc; cbn [of_option]; rewrite bind_Ret, (proj2 (Z.leb_le _ _) Hlen); reflexivity|];
    intros l r d; split; [done|]; intros (_ & _ & _ & ? & ? & ? & ? & _); done.
  unfold bytes in Hb. do 4 apply Forall_cons_1 in Hb as [_ Hb].
  eexists. split; [by apply received_eq|]. intros l r d. set (v6 := atyp =? 4).
  destruct (_ && _) eqn:E.
  - rewrite !andb_true_iff, Z.eqb_eq, !Z.leb_le, bool_decide_eq_true in E. destruct E as (((-> & Hl) & Er) & Hd).
    destruct (front_addr_ok v6 rest Hb) as (Ha & Hv & Hr); [lia|]. rewrite Er in Hv, Hr.
    split.
    + intros [= <- <- <-]. repeat split; auto. exists a, b, atyp. rewrite Hr, Hv. split; [done|]. unfold v6. by rewrite Z.eqb_eq.
    + intros (-> & -> & Hd' & x & y & t & [= <- <- <- E] & _). f_equal. f_equal.
      rewrite <- Hr in E. by apply app_inv_head in E.
  - split; [done|]. intros (-> & -> & Hd & x & y & t & [= -> -> -> -> Hrest] & Ht). exfalso.
    assert (Hv : is_v6 (remote_addr (conaddr c)) = v6).
    { unfold v6. apply Bool.eq_iff_eq_true. rewrite Z.eqb_eq. tauto. }
    pose proof (length_addr_bytes _ (proj2 Hk)) as Hla. rewrite Hv in Hla.
    assert (Hal : addr_len v6 = length (addr_bytes (remote_addr (conaddr c)))) by (unfold addr_len; destruct v6; lia).
    assert (Hl2 : (addr_len v6 <= length rest)%nat) by (rewrite Hrest, length_app; lia).
    destruct (front_addr_ok v6 rest Hb Hl2) as (Ha & Hv' & Hr).
    assert (Edrop : drop (addr_len v6) rest = d) by (rewrite Hrest, Hal; apply drop_app_length).
    rewrite Edrop, Hrest in Hr. apply app_inv_tail in Hr.
    rewrite Edrop, !andb_false_iff, Z.eqb_neq, !Z.leb_gt, bool_decide_eq_false in E.
    destruct E as [[[E | E] | E] | E]; [done|lia| |lia].
    apply E. rewrite Hrest at 1. apply addr_bytes_inj; [by rewrite <- Hrest|apply Hk|by rewrite <- Hrest, Hv', Hv|done].
Qed.

(** Replies. A datagram for a connection is passed to the user exactly when
    it is a SOCKS UDP message that is not a fragment, comes from the remote
    address of the connection (an address type other than IPv6 is read as IPv4)
    and fits; then the user gets the local address of the connection, the remote
    address and the payload. In particular the message [connection_send] would
    send for the same data is passed on unchanged. *)
Theorem dgram_received_exact o con c data :
  heap o !! con = Some c -> conaddr_ok (conaddr c) -> bytes data -> zlen data <= udpgw_mtu o ->
  exists res, dgram_handler_received o con data = Ret res /\
  (forall l r d, res = Some (l, r, d) <->
     l = local_addr (conaddr c) /\ r = remote_addr (conaddr c) /\ zlen d <= udp_mtu o /\
     exists x y atyp, data = [x; y; 0; atyp] ++ addr_bytes r ++ d /\ (atyp = 4 <-> is_v6 r = true)) /\
  (forall d, data = message (remote_addr (conaddr c)) d -> zlen d <= udp_mtu o ->
     res = Some (local_addr (conaddr c), remote_addr (conaddr c), d)).
Proof.
  intros Hc Hk Hb Hlen. destruct (received_iff o con c data Hc Hk Hb Hlen) as (res & E & Hres).
  exists res. split; [done|]. split; [done|].
  intros d -> Hd. apply Hres. repeat split; auto. exists 0, 0, (if is_v6 (remote_addr (conaddr c)) then 4 else 1).
  unfold message, header_bytes. destruct (remote_addr (conaddr c)); done.
Qed.

(** *** The first packet *)

Lemma init_flow mtu garbage mem f :
  0 <= mtu -> PacketBuffer.alloc_ok mem ->
  WriterFlow.Init mtu CONNECTION_UDP_BUFFER_SIZE garbage mem = Ret (Some f) ->
  WriterFlow.flow_inv CONNECTION_UDP_BUFFER_SIZE f [] None /\ WriterFlow.enabled f WriterFlow.Job /\
  PacketBuffer.input_mtu (WriterFlow.buffer f) = mtu /\ state (recv_interface (WriterFlow.writer f)) = PRI_STATE_OPERATION_PENDING.
Proof.
  intros Hm Hal E.
  destruct (WriterFlow.flow_init_total mtu CONNECTION_UDP_BUFFER_SIZE garbage mem Hm eq_refl Hal) as [E' | (f' & E' & Hf & Hmtu)];
    rewrite E in E'; [done|]. injection E' as <-.
  assert (Ho : out_have (WriterFlow.writer f) = false).
  { unfold WriterFlow.Init in E. apply bind_Ret_inv in E as (w & Ew & E). apply bind_Ret_inv in E as (r & _ & E).
    destruct r as [b|]; [|done]. apply bind_Ret_inv in E as (f' & E & [= <-]).
    unfold BufferWriter.Init in Ew. apply bind_Ret_inv in Ew as (? & _ & [= <-]).
    unfold WriterFlow.connect in E. apply bind_Ret_inv in E as (i & _ & E). unfold WriterFlow.receive in E. cbn in E.
    destruct (state i), (PacketBuffer.input_op b); try (by injection E as <-).
    apply bind_Ret_inv in E as (i' & _ & [= <-]). done. }
  pose proof (PacketBuffer.receiving _ _ _ (WriterFlow.fi_buf _ _ _ _ Hf) eq_refl) as Hin.
  pose proof (WriterFlow.jobs_state _ _ _ _ Hf) as Hj. pose proof (WriterFlow.fi_state _ _ _ _ Hf) as Hs.
  split; [done|]. cbn. destruct (state (recv_interface (WriterFlow.writer f))).
  - by destruct Hs as (? & _).
  - rewrite Hj. done.
  - destruct Hs as (_ & ? & _). congruence.
  - by destruct Hs as (_ & ? & ? & _ & ? & _).
Qed.

(** The jobs of a new connection, in the order in which they run. *)
Definition first_jobs (f : WriterFlow.flow ChunkBuffer2.ChunkBuffer2) (remote : BAddr) (data : list Z) :
    cres (WriterFlow.flow ChunkBuffer2.ChunkBuffer2 * list Z) :=
  f ← WriterFlow.job f;
  f ← send f remote data;
  f ← WriterFlow.job f;
  WriterFlow.sent f.

Lemma first_jobs_ok mtu garbage mem f remote data :
  0 <= mtu -> PacketBuffer.alloc_ok mem -> zlen (message remote data) <= mtu ->
  WriterFlow.Init mtu CONNECTION_UDP_BUFFER_SIZE garbage mem = Ret (Some f) ->
  exists f', first_jobs f remote data = Ret (f', message remote data).
Proof.
  intros Hm Hal Hlen E. destruct (init_flow _ _ _ _ Hm Hal E) as (Hf & Hen & Hmtu & Hst).
  unfold first_jobs. destruct (WriterFlow.job_inv _ _ _ _ Hf Hen) as (f1 & E1 & Hf1). rewrite E1, bind_Ret, send_write.
  pose proof (WriterFlow.job_state _ _ _ _ _ Hf E1 Hst) as Hst1. pose proof (WriterFlow.job_mtu _ _ E1) as Hmtu1.
  pose proof (WriterFlow.fi_state _ _ _ _ Hf1) as Hs1. rewrite Hst1 in Hs1. destruct Hs1 as (_ & Ho & _).
  destruct (WriterFlow.write_inv _ _ _ _ (message remote data) Hf1) as [(? & _) | (_ & _ & f2 & E2 & Hf2)];
    [unfold WriterFlow.enabled; lia|congruence|]. rewrite E2, !bind_Ret.
  destruct (WriterFlow.job_inv _ _ _ _ Hf2) as (f3 & E3 & Hf3).
  { cbn. rewrite (WriterFlow.jobs_state _ _ _ _ Hf2). pose proof (WriterFlow.fi_state _ _ _ _ Hf2) as Hs2.
    destruct (state (recv_interface (WriterFlow.writer f2))); try done; by destruct Hs2 as (_ & _ & ?). }
  rewrite E3, bind_Ret. cbn [WriterFlow.pending app] in Hf3.
  destruct (WriterFlow.sent_inv _ _ _ _ Hf3) as (p & ps & f4 & Ep & E4 & _).
  { cbn. by apply (PacketBuffer.pbi_out _ _ _ (WriterFlow.fi_buf _ _ _ _ Hf3)). }
  injection Ep as <- _. eauto.
Qed.

(** The packet that a connection is made for is not lost. When the
    connection could be made, its jobs run in the reverse order of their
    setting: the writer gets a buffer, then [first_job] writes the packet, and
    the socket sends the SOCKS UDP message for it as its first datagram. *)
Theorem first_packet_sent mtu max o local remote data w o' con acts :
  0 <= mtu -> 0 < max -> reach (SocksUdpGwClient_Init mtu max) o ->
  submit_ready o local remote data w -> find_connection o (mkConaddr local remote) = None ->
  connection_init o (mkConaddr local remote) data w = Ret (o', Some con, acts) ->
  num_connections o < max_connections o ->
  exists c, heap o' !! con = Some c /\ conaddr c = mkConaddr local remote /\ first_data c = data /\
    exists f', first_jobs (flow c) remote data = Ret (f', message remote data).
Proof.
  intros Hm Hx Hr [Hk Hs Hj Hans] Hnone E Hlt. destruct (reach_inv _ _ _ Hm Hx Hr) as [Hi _].
  destruct (connection_init_ok o (mkConaddr local remote) data w) as (o2 & acts2 & E2 & _ & _ & _ & Hnew); auto.
  rewrite E in E2. injection E2 as <- Ecase <-.
  destruct (made o w); [|done]. destruct Hnew as (con' & f & Hcon & -> & Ef). rewrite Hcon in Ecase. injection Ecase as <-.
  eexists. split; [apply lookup_insert_eq|]. split; [done|]. split; [done|].
  eapply first_jobs_ok; [apply Hi|apply Hans|exact Hs|exact Ef].
Qed.

(** *** The packet that does not fit *)

Definition demo_answers (p : Z) : answers :=
  mkAnswers (Some p) true true
    (fun n => if (0 <=? n) && (n <=? 1000) then Some (replicate (Z.to_nat (4 * n)) 0) else None) 0 true.
Definition demo_local : BAddr := BADDR_TYPE_IPV4 0x0a000001 0x1234.
Definition demo_remote : BAddr := BADDR_TYPE_IPV4 0x08080808 0x3500.
Definition demo_run (o : SocksUdpGwClient) (es : list event) : SocksUdpGwClient :=
  foldl (fun o e => match step o e with Ret (o', _) => o' | _ => o end) o es.
Definition demo_events (n : Z) : list event :=
  [Submit demo_local demo_remote (replicate (Z.to_nat n) 7) (demo_answers 1);
   WriterJob 1; FirstJob 1; WriterJob 1; WriterJob 1].

Lemma demo_udp_mem_ok p : PacketBuffer.alloc_ok (a_mem (demo_answers p)).
Proof.
  intros n m. cbn. unfold ChunkBuffer2.block_size, ChunkBuffer2.INT_MAX.
  destruct (Z.leb_spec 0 n), (Z.leb_spec n 1000); try done. intros [= <-]. rewrite length_replicate. lia.
Qed.
Lemma demo_submit_ready mtu max n :
  0 <= n -> n + 10 <= mtu ->
  submit_ready (SocksUdpGwClient_Init mtu max) demo_local demo_remote (replicate (Z.to_nat n) 7) (demo_answers 1).
Proof.
  intros Hn Hm. split.
  - split; cbn; lia.
  - unfold sized. rewrite length_message by (cbn; lia). cbn. rewrite length_replicate. lia.
  - intros p c Hc. cbn in Hc. by rewrite lookup_empty in Hc.
  - split; [done|]. apply demo_udp_mem_ok.
Qed.

(** One step of the run. *)
Lemma demo_reach o0 o e :
  reach o0 o -> enabled o e -> (exists o' out, step o e = Ret (o', out)) -> reach o0 (demo_run o [e]).
Proof. intros Hr He (o' & out & E). unfold demo_run. cbn. rewrite E. by apply reach_step with o e out. Qed.
Lemma demo_reach_inv mtu max o e :
  0 <= mtu -> 0 < max -> reach (SocksUdpGwClient_Init mtu max) o -> enabled o e ->
  reach (SocksUdpGwClient_Init mtu max) (demo_run o [e]).
Proof.
  intros Hm Hx Hr He. destruct (reach_inv _ _ _ Hm Hx Hr) as [Hi _].
  destruct (udp_step_ok o e Hi He) as (o' & out & E & _). by apply demo_reach; eauto.
Qed.
Lemma demo_all mtu max n :
  0 <= mtu -> 0 < max -> 0 <= n -> n + 10 <= mtu ->
  (forall k, (0 < k < 5)%nat -> match drop k (demo_events n) with
     | e :: _ => enabled (demo_run (SocksUdpGwClient_Init mtu max) (take k (demo_events n))) e | [] => True end) ->
  reach (SocksUdpGwClient_Init mtu max) (demo_run (SocksUdpGwClient_Init mtu max) (demo_events n)).
Proof.
  intros Hm Hx Hn Hfit He. set (o0 := SocksUdpGwClient_Init mtu max) in *.
  assert (Hk : forall k, (k <= 5)%nat -> reach o0 (demo_run o0 (take k (demo_events n)))).
  { induction k as [|k IH]; intros Hk; [apply reach_start|].
    destruct (drop k (demo_events n)) as [|e es] eqn:Ed.
    { apply (f_equal length) in Ed. rewrite length_drop in Ed. cbn [demo_events length] in Ed. lia. }
    assert (Et : take (S k) (demo_events n) = take k (demo_events n) ++ [e]).
    { apply take_S_r. by rewrite <- (Nat.add_0_r k), <- lookup_drop, Ed. }
    rewrite Et. unfold demo_run. rewrite foldl_app. apply demo_reach_inv; [done..|by apply IH; lia|].
    destruct k as [|k]; [cbn in Ed; injection Ed as <- _; by apply demo_submit_ready|].
    specialize (He (S k) ltac:(lia)). by rewrite Ed in He. }
  apply (Hk 5%nat). done.
Qed.

(** Packets that pass the check of [SubmitPacket] can overflow the buffer.
    The sockets are initialised for packets of [udp_mtu] bytes, which does not
    count the header of the SOCKS UDP message. With an MTU of 1472 bytes, after
    a packet of 1462 bytes to the same address, a packet of 1472 bytes, which is
    not more than [udp_mtu], is written past the end of the memory that
    [PacketBuffer_Init] allocated. *)
Theorem udp_client_overflow :
  let o := demo_run (SocksUdpGwClient_Init 1472 256) (demo_events 1462) in
  let data := replicate (Z.to_nat 1472) 7 in
  reach (SocksUdpGwClient_Init 1472 256) o /\ zlen data <= udp_mtu o /\
  exists c out, heap o !! 1 = Some c /\ conaddr c = mkConaddr demo_local demo_remote /\
    StartPacket (WriterFlow.writer (flow c)) = Some out /\
    zlen (ChunkBuffer2.buffer (PacketBuffer.buf (WriterFlow.buffer (flow c)))) < out + zlen (message demo_remote data) /\
    SocksUdpGwClient_SubmitPacket o demo_local demo_remote data (demo_answers 2) = Undef.
Proof.
  cbv zeta. split.
  { apply demo_all; try lia. intros k Hk.
    assert (E : k = 1%nat \/ k = 2%nat \/ k = 3%nat \/ k = 4%nat) by lia.
    destruct E as [-> | [-> | [-> | ->]]]; cbn [demo_events drop take enabled];
      eexists; (split; [vm_compute; reflexivity|done]). }
  split; [vm_compute; done|].
  eexists _, _. split; [vm_compute; reflexivity|]. split; [reflexivity|]. split; [reflexivity|].
  split; [vm_compute; reflexivity|]. vm_compute. reflexivity.
Qed.

(** *** Freeing *)

Lemma udp_connection_free_ok o con c :
  client_inv o -> heap o !! con = Some c ->
  exists o' acts, connection_free o con = Ret (o', acts) /\ client_inv o' /\
    connections_list o' = LinkedList1_Remove (connections_list o) con /\
    heap o' = delete con (heap o) /\ own all_resources acts = Some [r_first_job].
Proof.
  intros Hi Hc. unfold connection_free. rewrite Hc. cbn [of_option]. rewrite bind_Ret.
  eexists _, _. split; [reflexivity|]. split; [|done].
  assert (Hin : con ∈ connections_list o) by (apply (ci_heap _ Hi); by eexists).
  pose proof (list_nodup _ Hi) as Hnd. pose proof (remove_perm _ _ Hnd Hin) as Hrem.
  destruct Hi as [Hm Ht Hp Hn Hx Hh Hcs]. destruct (remove_tree conaddr conaddr_ok _ _ con Ht) as [T1 T2 T3].
  assert (Hd : forall p, p ∈ BAVL_Remove (connections_tree o) con -> delete con (heap o) !! p = heap o !! p).
  { intros p [Hne _]%list_elem_of_filter. by rewrite lookup_delete_ne by done. }
  split; cbn; auto.
  - split; [intros p Hq; rewrite Hd by done; auto|done|].
    intros p q d d' Hp1 Hq1. rewrite !Hd by done. by apply T3.
  - unfold BAVL_Remove, LinkedList1_Remove. by rewrite Hp.
  - apply Permutation_length in Hrem. cbn in Hrem. lia.
  - apply Permutation_length in Hrem. cbn in Hrem. lia.
  - intros p. rewrite elem_of_remove, <- Hh. destruct (decide (p = con)) as [->|Hne].
    + rewrite lookup_delete_eq. split; [by intros [? ?]|tauto].
    + rewrite lookup_delete_ne by done. tauto.
  - intros p d. destruct (decide (p = con)) as [->|Hne]; [by rewrite lookup_delete_eq|].
    rewrite lookup_delete_ne by done. intros H. apply con_ok_same with o; eauto.
Qed.

Lemma free_loop_ok fuel : forall o, client_inv o -> (length (connections_list o) <= fuel)%nat ->
  exists o', free_loop fuel o = Ret o' /\ client_inv o' /\ connections_list o' = [].
Proof.
  induction fuel as [|fuel IH]; intros o Hi Hl.
  - destruct (connections_list o) as [|con l] eqn:El; [|cbn in Hl; lia]. exists o. cbn. by rewrite El.
  - cbn [free_loop]. destruct (connections_list o) as [|con l] eqn:El; [by exists o|].
    destruct (proj2 (ci_heap _ Hi con)) as [c Hc]; [rewrite El; left|].
    destruct (udp_connection_free_ok o con c Hi Hc) as (o1 & acts & -> & Hi1 & Hl1 & _ & _). rewrite bind_Ret.
    apply IH; [done|]. rewrite Hl1, El. unfold LinkedList1_Remove. rewrite filter_cons, decide_False by tauto.
    etransitivity; [apply length_filter|]. cbn in Hl. lia.
Qed.

(** Freeing the client. From every reachable state the loop of
    [SocksUdpGwClient_Free] ends, with no connection left in the list, the tree
    or memory; each connection is freed completely except for its [first_job],
    which [connection_free] does not take off the pending jobs. *)
Theorem udp_client_free mtu max o :
  0 <= mtu -> 0 < max -> reach (SocksUdpGwClient_Init mtu max) o ->
  (exists o', SocksUdpGwClient_Free o = Ret o' /\ connections_list o' = [] /\ connections_tree o' = [] /\
     heap o' = ∅ /\ num_connections o' = 0) /\
  (forall con c, heap o !! con = Some c -> exists o' acts, connection_free o con = Ret (o', acts) /\
     heap o' = delete con (heap o) /\ own all_resources acts = Some [r_first_job]).
Proof.
  intros Hm Hx Hr. destruct (reach_inv _ _ _ Hm Hx Hr) as [Hi _]. split.
  - destruct (free_loop_ok (length (connections_list o)) o Hi) as (o' & E & Hi' & El); [lia|].
    exists o'. split; [done|]. split; [done|]. pose proof (ci_perm _ Hi') as Hp. rewrite El in Hp.
    split; [by apply Permutation_nil; symmetry|]. split; [|rewrite (ci_num _ Hi'), El; done].
    apply map_empty. intros p. destruct (heap o' !! p) as [c|] eqn:E'; [|done].
    assert (Hp' : p ∈ connections_list o') by (apply (ci_heap _ Hi'); by eexists).
    rewrite El in Hp'. by apply elem_of_nil in Hp'.
  - intros con c Hc. destruct (udp_connection_free_ok o con c Hi Hc) as (o' & acts & E & _ & _ & Hh & Hown). eauto.
Qed.

(** Examples: a client for two connections, one packet. *)
Definition demo_client : SocksUdpGwClient := demo_run (SocksUdpGwClient_Init 100 2) (demo_events 5).
Lemma demo_client_reach : reach (SocksUdpGwClient_Init 100 2) demo_client.
Proof.
  apply demo_all; try lia. intros k Hk.
  assert (E : k = 1%nat \/ k = 2%nat \/ k = 3%nat \/ k = 4%nat) by lia.
  destruct E as [-> | [-> | [-> | ->]]]; cbn [demo_events drop take enabled];
    eexists; (split; [vm_compute; reflexivity|done]).
Qed.

Lemma udp_client_lru_witness :
  max_connections demo_client = 2 /\
  exists o' acts, SocksUdpGwClient_SubmitPacket (SocksUdpGwClient_Init 100 2) demo_local demo_remote
    (replicate (Z.to_nat 5) 7) (demo_answers 1) = Ret (o', acts) /\
  accepted (SocksUdpGwClient_Init 100 2) o' demo_local demo_remote (replicate (Z.to_nat 5) 7).
Proof.
  split.
  - exact (proj1 (proj2 (proj2 (udp_client_lru 100 2 demo_client ltac:(lia) ltac:(lia) demo_client_reach)))).
  - destruct (proj2 (proj2 (proj2 (proj2 (udp_client_lru 100 2 _ ltac:(lia) ltac:(lia) (reach_start _))))) demo_local demo_remote
      (replicate (Z.to_nat 5) 7) (demo_answers 1) (demo_submit_ready 100 2 5 ltac:(lia) ltac:(lia)))
      as (o' & acts & E & [(_ & Hm & _) | [Ha _]]); [vm_compute in Hm; done|eauto].
Defined.

Lemma dgram_received_exact_witness : exists c, heap demo_client !! 1 = Some c /\
  dgram_handler_received demo_client 1 (message demo_remote [1; 2; 3]) = Ret (Some (demo_local, demo_remote, [1; 2; 3])).
Proof.
  assert (H : exists c, heap demo_client !! 1 = Some c /\ conaddr c = mkConaddr demo_local demo_remote)
    by (eexists; split; [vm_compute; reflexivity|reflexivity]).
  destruct H as (c & Hc & E). exists c. split; [done|].
  destruct (dgram_received_exact demo_client 1 c (message demo_remote [1; 2; 3]) Hc) as (res & -> & _ & H).
  - rewrite E. split; cbn; lia.
  - change (message demo_remote [1; 2; 3]) with [0; 0; 0; 1; 8; 8; 8; 8; 0; 53; 1; 2; 3].
    repeat (apply List.Forall_cons; [unfold is_byte; lia|]). apply List.Forall_nil.
  - vm_compute. done.
  - rewrite E in H. f_equal. apply H; [done|]. vm_compute. done.
Defined.

Lemma first_packet_sent_witness :
  exists o' con acts c f',
    connection_init (SocksUdpGwClient_Init 100 2) (mkConaddr demo_local demo_remote) (replicate (Z.to_nat 5) 7) (demo_answers 1) =
      Ret (o', Some con, acts) /\
    heap o' !! con = Some c /\
    first_jobs (flow c) demo_remote (replicate (Z.to_nat 5) 7) = Ret (f', message demo_remote (replicate (Z.to_nat 5) 7)).
Proof.
  assert (H : exists o' acts, connection_init (SocksUdpGwClient_Init 100 2) (mkConaddr demo_local demo_remote)
    (replicate (Z.to_nat 5) 7) (demo_answers 1) = Ret (o', Some 1, acts)) by (eexists _, _; vm_compute; reflexivity).
  destruct H as (o' & acts & E).
  destruct (first_packet_sent 100 2 (SocksUdpGwClient_Init 100 2) demo_local demo_remote (replicate (Z.to_nat 5) 7)
    (demo_answers 1) o' 1 acts ltac:(lia) ltac:(lia) (reach_start _) (demo_submit_ready 100 2 5 ltac:(lia) ltac:(lia))
    eq_refl E ltac:(vm_compute; reflexivity)) as (c & Hc & _ & _ & f' & Hf).
  exists o', 1, acts, c, f'. auto.
Defined.

Lemma udp_client_free_witness :
  exists o', SocksUdpGwClient_Free demo_client = Ret o' /\ heap o' = ∅.
Proof.
  destruct (proj1 (udp_client_free 100 2 demo_client ltac:(lia) ltac:(lia) demo_client_reach)) as (o' & E & _ & _ & H & _).
  eauto.
Defined.
End SocksUdpGwClient.
