(* ===== verification/UdpTree.v ===== *)
(** * The trees behind the tables of connections

    tun2socks/SocksUdpGwClient.c keeps its connections in a tree ordered by
    [conaddr_comparator]. UdpGateway.v models the tree as a set of nodes with
    their keys; here the trees of structure/BAVL.h are shown to implement it. *)
From stdpp Require Import gmap.
From S2P Require Import Prelude DevicePackets UdpGateway Bavl BavlSet.
Local Open Scope Z_scope.

(** ** The order of addresses *)
Module AddressOrder.
Export Address.
Import ByteOrder.

(** The laws of a comparator, for some of its arguments. *)
Record ordered {A} (ok : A -> Prop) (f : A -> A -> Z) : Prop := {
  o_range x y : f x y = -1 \/ f x y = 0 \/ f x y = 1;
  o_opp x y : f y x = - f x y;
  o_trans x y z : ok x -> ok y -> ok z -> f x y <= 0 -> f y z <= 0 -> f x z <= 0;
}.
Definition lex (a b : Z) : Z := if negb (a =? 0) then a else b.
Lemma ordered_lex {A} (ok : A -> Prop) f g : ordered ok f -> ordered ok g -> ordered ok (fun x y => lex (f x y) (g x y)).
Proof.
  intros [R1 O1 T1] [R2 O2 T2]. unfold lex. split.
  - intros x y. destruct (Z.eqb_spec (f x y) 0); cbn [negb]; auto.
  - intros x y. rewrite (O1 x y), (O2 x y). destruct (Z.eqb_spec (f x y) 0), (Z.eqb_spec (- f x y) 0); cbn [negb]; lia.
  - intros x y z Hx Hy Hz. pose proof (T1 x y z Hx Hy Hz) as H1. pose proof (T1 z x y Hz Hx Hy) as H2. pose proof (T1 y z x Hy Hz Hx) as H3.
    pose proof (T2 x y z Hx Hy Hz) as H4. pose proof (O1 x y). pose proof (O1 y z). pose proof (O1 x z).
    destruct (Z.eqb_spec (f x y) 0), (Z.eqb_spec (f y z) 0), (Z.eqb_spec (f x z) 0); cbn [negb]; lia.
Qed.
Lemma ordered_pull {A B} (ok : A -> Prop) (okB : B -> Prop) (h : B -> A) f :
  ordered ok f -> (forall b, okB b -> ok (h b)) -> ordered okB (fun x y => f (h x) (h y)).
Proof. intros [R O T] Hh. split; auto. intros x y z Hx Hy Hz. apply T; auto. Qed.
Lemma B_COMPARE_ordered : ordered (fun _ => True) B_COMPARE.
Proof.
  split; [intros x y|intros x y|intros x y z _ _ _]; unfold B_COMPARE; zcases; cbn; lia.
Qed.
Lemma memcmp_ordered n : ordered (fun l => length l = n) memcmp.
Proof.
  split.
  - intros x. induction x as [|a x IH]; intros [|b y]; cbn; auto. destruct (Z.eqb_spec a b); [apply IH|apply B_COMPARE_ordered].
  - intros x. induction x as [|a x IH]; intros [|b y]; cbn; auto.
    destruct (Z.eqb_spec a b), (Z.eqb_spec b a); try lia; [apply IH|apply B_COMPARE_ordered].
  - intros x. revert n. induction x as [|a x IH]; intros n [|b y] [|c z] Hx Hy Hz; cbn in *; try done; try (subst; done).
    destruct n as [|n]; [done|]. injection Hx as Hx. injection Hy as Hy. injection Hz as Hz. specialize (IH n y z Hx Hy Hz).
    unfold B_COMPARE. zcases; cbn; try lia. all: subst; zcases; cbn; try lia; auto.
Qed.

Definition order4 (a b : Z * Z) : Z := lex (B_COMPARE (ntoh32 (fst a)) (ntoh32 (fst b))) (B_COMPARE (ntoh16 (snd a)) (ntoh16 (snd b))).
Definition order6 (a b : list Z * Z) : Z := lex (memcmp (fst a) (fst b)) (B_COMPARE (ntoh16 (snd a)) (ntoh16 (snd b))).
Lemma order4_ordered : ordered (fun _ => True) order4.
Proof.
  apply (ordered_lex _ (fun a b => B_COMPARE (ntoh32 (fst a)) (ntoh32 (fst b))) (fun a b => B_COMPARE (ntoh16 (snd a)) (ntoh16 (snd b)))).
  - by apply (ordered_pull (fun _ => True) _ (fun a : Z * Z => ntoh32 (fst a)) _ B_COMPARE_ordered).
  - by apply (ordered_pull (fun _ => True) _ (fun a : Z * Z => ntoh16 (snd a)) _ B_COMPARE_ordered).
Qed.
Lemma order6_ordered : ordered (fun a => length (fst a) = 16%nat) order6.
Proof.
  apply (ordered_lex _ (fun a b => memcmp (fst a) (fst b)) (fun a b => B_COMPARE (ntoh16 (snd a)) (ntoh16 (snd b)))).
  - by apply (ordered_pull (fun l => length l = 16%nat) _ fst _ (memcmp_ordered 16)).
  - by apply (ordered_pull (fun _ => True) _ (fun a : list Z * Z => ntoh16 (snd a)) _ B_COMPARE_ordered).
Qed.
Lemma order6_eq ip1 p1 ip2 p2 : BAddr_CompareOrder (BADDR_TYPE_IPV6 ip1 p1) (BADDR_TYPE_IPV6 ip2 p2) = order6 (ip1, p1) (ip2, p2).
Proof.
  unfold BAddr_CompareOrder, order6, lex. cbn [type fst snd]. change (negb (B_COMPARE 2 2 =? 0)) with false.
  destruct (o_range _ _ (memcmp_ordered 16) ip1 ip2) as [-> | [-> | ->]]; done.
Qed.
Lemma CompareOrder_ordered : ordered addr_ok BAddr_CompareOrder.
Proof.
  split.
  - intros [i p|i p] [j q|j q]; [apply (o_range _ _ order4_ordered (i, p) (j, q))|by auto..|].
    rewrite order6_eq. apply order6_ordered.
  - intros [i p|i p] [j q|j q]; [apply (o_opp _ _ order4_ordered (i, p) (j, q))|done..|]. rewrite !order6_eq. apply order6_ordered.
  - intros [i p|i p] [j q|j q] [k r|k r] Hx Hy Hz; try (unfold BAddr_CompareOrder; cbn [type];
      change (B_COMPARE 1 2) with (-1); change (B_COMPARE 2 1) with 1; cbn [Z.eqb negb]; lia).
    + apply (o_trans _ _ order4_ordered (i, p) (j, q) (k, r)); done.
    + rewrite !order6_eq. destruct Hx as [[_ Hx] _], Hy as [[_ Hy] _], Hz as [[_ Hz] _]. apply order6_ordered; cbn; lia.
Qed.
#[export] Instance conaddr_order : Comparator conaddr_ok conaddr_comparator.
Proof.
  assert (H : ordered conaddr_ok conaddr_comparator).
  { apply (ordered_lex _ (fun a b => BAddr_CompareOrder (remote_addr a) (remote_addr b)) (fun a b => BAddr_CompareOrder (local_addr a) (local_addr b)));
      eapply ordered_pull; [apply CompareOrder_ordered|by intros ? []|apply CompareOrder_ordered|by intros ? []]. }
  destruct H as [R O T]. by split.
Qed.
End AddressOrder.

(** ** The tables *)
Module ConTree.
Import AddressOrder ConTable SocksUdpGwClient BavlSet.

(** The value at [offset] from a node: the addresses of the connection. The
    address of an object that does not exist is never used. *)
Definition no_addr : conaddr_t := mkConaddr (BADDR_TYPE_IPV4 0 0) (BADDR_TYPE_IPV4 0 0).
Definition key_at (h : gmap Z connection) (p : Z) : conaddr_t := match h !! p with Some c => conaddr c | None => no_addr end.

(** The tree [o] implements the set of nodes [tree]. *)
Definition implements (h : gmap Z connection) (tree : list Z) (o : Bavl.BAVL) : Prop :=
  tree_ok conaddr conaddr_ok h tree /\ exists ns, ns ≡ₚ tree /\ represents conaddr_ok (key_at h) conaddr_comparator o ns.

Section implements.
Context (h : gmap Z connection) (tree : list Z) (o : Bavl.BAVL) (Ho : implements h tree o).

Lemma key_at_node p : p ∈ tree -> exists c, h !! p = Some c /\ conaddr_ok (conaddr c) /\ key_at h p = conaddr c.
Proof. destruct Ho as [Ht _]. intros (c & Hc & Hok)%(to_nodes _ _ _ _ Ht). exists c. unfold key_at. by rewrite Hc. Qed.
Lemma lookup_implements k : conaddr_ok k ->
  Bavl.BAVL_LookupExact (key_at h) conaddr_comparator k o = Ret (default 0 (BAVL_LookupExact conaddr conaddr_comparator h tree k), o).
Proof.
  intros Hk. destruct Ho as [Ht (ns & Hns & Hr)].
  destruct (lookup_represents conaddr_ok _ _ o ns k Hk Hr) as [(p & Hp & E & -> & _) | (A & B & ref & -> & HA & HB & _ & -> & _)].
  - rewrite Hns in Hp. destruct (key_at_node p Hp) as (c & Hc & Hcok & Ek). rewrite Ek in E. apply comparator_eq in E; [|done..].
    by rewrite (proj2 (lookup_Some _ _ _ comparator_eq _ _ k p Ht Hk) (conj Hp (ex_intro _ c (conj Hc (eq_sym E))))).
  - rewrite (proj2 (lookup_None _ _ _ comparator_eq _ _ k Ht Hk)); [done|]. intros p c Hp Hc E.
    assert (E0 : conaddr_comparator k (key_at h p) = 0).
    { destruct (key_at_node p Hp) as (c' & Hc' & Hok & ->). apply comparator_eq; [done..|]. congruence. }
    rewrite <- Hns in Hp. apply elem_of_app in Hp as [Hp|Hp].
    + rewrite list_relations.list.Forall_forall in HA. apply HA in Hp. unfold above in Hp. lia.
    + rewrite list_relations.list.Forall_forall in HB. apply HB in Hp. unfold below in Hp. lia.
Qed.
Lemma insert_implements p c : h !! p = Some c -> conaddr_ok (conaddr c) -> p ∉ tree -> is_Some (Bavl.heap o !! p) ->
  match BAVL_Insert conaddr conaddr_comparator h tree p with
  | Some tree' => exists ref o', Bavl.BAVL_Insert (key_at h) conaddr_comparator p o = Ret ((true, ref), o') /\ implements h tree' o'
  | None => exists ref, Bavl.BAVL_Insert (key_at h) conaddr_comparator p o = Ret ((false, ref), o)
  end.
Proof.
  intros Hc Hok Hp Hn. pose proof (lookup_implements (conaddr c) Hok) as Hl. unfold BAVL_Insert. rewrite Hc.
  assert (Ek : key_at h p = conaddr c) by (unfold key_at; by rewrite Hc). destruct Ho as [Ht (ns & Hns & Hr)].
  destruct (insert_represents conaddr_ok _ _ o ns p Hr Hn) as [(q & Hq & E & Ei) | (A & B & ref & o' & -> & _ & Ei & Hr' & _)];
    [by rewrite Hns|by rewrite Ek|..].
  - rewrite Ek in E. rewrite Hns in Hq. destruct (key_at_node q Hq) as (c' & Hc' & Hok' & Eq). rewrite Eq in E.
    apply comparator_eq in E; [|done..].
    rewrite (proj2 (lookup_Some _ _ _ comparator_eq _ _ (conaddr c) q Ht Hok) (conj Hq (ex_intro _ c' (conj Hc' (eq_sym E))))). eauto.
  - assert (Hne : forall q c', q ∈ tree -> h !! q = Some c' -> conaddr c' <> conaddr c).
    { intros q c' Hq Hc' E. rewrite <- Hns in Hq. destruct Hr' as (_ & _ & _ & _ & _ & _ & Hs & _).
      apply nodes_sorted_app in Hs as (_ & [HB _]%sorted_cons & HA). rewrite list_relations.list.Forall_forall in HA, HB.
      assert (Eq : key_at h q = conaddr c) by (unfold key_at; by rewrite Hc').
      assert (E0 : conaddr_comparator (conaddr c) (conaddr c) = 0) by (by apply comparator_eq).
      apply elem_of_app in Hq as [Hq|Hq].
      - apply HA, Forall_cons_1 in Hq as [Hq _]. unfold less in Hq. rewrite Ek, Eq in Hq. lia.
      - apply HB in Hq. unfold less in Hq. rewrite Ek, Eq in Hq. lia. }
    destruct (insert_tree _ _ _ comparator_eq h tree p c Ht Hc Hok Hp Hne) as [E Ht']. unfold BAVL_Insert in E. rewrite Hc in E. rewrite E.
    exists ref, o'. split; [done|]. split; [done|]. exists (A ++ p :: B). split; [|done]. by rewrite <- Permutation_middle, Hns.
Qed.
Lemma remove_implements p : p ∈ tree -> exists o', Bavl.BAVL_Remove p o = Ret (tt, o') /\ implements h (BAVL_Remove tree p) o'.
Proof.
  intros Hp. destruct Ho as [Ht (ns & Hns & Hr)]. rewrite <- Hns in Hp. apply list_elem_of_split in Hp as (A & B & ->).
  destruct (remove_represents conaddr_ok _ _ o _ p A B Hr eq_refl) as (o' & E & Hr' & _). exists o'. split; [done|].
  split; [by apply remove_tree|]. exists (A ++ B). split; [|done]. pose proof (to_nodup _ _ _ _ Ht) as Hnd. rewrite <- Hns in Hnd.
  unfold BAVL_Remove. rewrite <- Hns, <- Permutation_middle. rewrite <- Permutation_middle in Hnd.
  apply list_relations.list.NoDup_cons in Hnd as [Hnp _]. rewrite filter_cons_False by auto.
  fold (LinkedList1_Remove (A ++ B) p). by rewrite remove_notin.
Qed.
Lemma update_implements p c : p ∉ tree -> implements (<[p := c]> h) tree o.
Proof.
  intros Hp. destruct Ho as [Ht (ns & Hns & Hr)]. split; [by apply update_tree|]. exists ns. split; [done|].
  eapply represents_ext; [|exact Hr]. intros n Hn. rewrite Hns in Hn. unfold key_at. by rewrite lookup_insert_ne by (intros ->; done).
Qed.
End implements.

(** The trees implement the tables of connections. If a tree stands for the
    set of connections that the client has in its table, then looking up a pair
    of addresses in the tree gives the connection of the table, inserting a
    connection succeeds in the tree exactly when it does in the table, and after
    inserting and removing the tree stands for the changed table. Changing a
    connection that is not in the table, its addresses included, is allowed. *)
Theorem con_table_tree h tree o : implements h tree o ->
  (forall k, conaddr_ok k ->
   Bavl.BAVL_LookupExact (key_at h) conaddr_comparator k o = Ret (default 0 (BAVL_LookupExact conaddr conaddr_comparator h tree k), o)) /\
  (forall p c, h !! p = Some c -> conaddr_ok (conaddr c) -> p ∉ tree -> is_Some (Bavl.heap o !! p) ->
   match BAVL_Insert conaddr conaddr_comparator h tree p with
   | Some tree' => exists ref o', Bavl.BAVL_Insert (key_at h) conaddr_comparator p o = Ret ((true, ref), o') /\ implements h tree' o'
   | None => exists ref, Bavl.BAVL_Insert (key_at h) conaddr_comparator p o = Ret ((false, ref), o)
   end) /\
  (forall p, p ∈ tree -> exists o', Bavl.BAVL_Remove p o = Ret (tt, o') /\ implements h (BAVL_Remove tree p) o') /\
  (forall p c, p ∉ tree -> implements (<[p := c]> h) tree o).
Proof.
  intros Ho. split; [intros k; by apply lookup_implements|]. split; [intros p c; by apply insert_implements|].
  split; [intros p; by apply remove_implements|intros p c; by apply update_implements].
Qed.

(** *** Example: the table of [demo_client] *)
Definition demo_con_tree : Bavl.BAVL := Bavl.state (Bavl.cells (Bavl.Node 1 0 Bavl.Leaf Bavl.Leaf) 0) 1.
Lemma demo_implements : implements (heap demo_client) [1] demo_con_tree.
Proof.
  assert (H : exists c, heap demo_client !! 1 = Some c /\ conaddr c = mkConaddr demo_local demo_remote)
    by (eexists; split; [vm_compute; reflexivity|reflexivity]).
  destruct H as (c & Hc & E). assert (Hok : conaddr_ok (conaddr c)) by (rewrite E; split; cbn; lia). split.
  - split; [|by apply NoDup_singleton|].
    + intros p ->%list_elem_of_singleton. eauto.
    + by intros p q ? ? ->%list_elem_of_singleton ->%list_elem_of_singleton.
  - exists [1]. split; [done|]. exists (Bavl.Node 1 0 Bavl.Leaf Bavl.Leaf), []. split; [done|]. split.
    + split; [by apply NoDup_singleton|]. by intros ?%list_elem_of_singleton.
    + split; [cbn; lia|]. split; [done|]. split; [repeat constructor|]. constructor; [|constructor]. unfold key_at. by rewrite Hc.
Qed.
Lemma con_table_tree_witness :
  Bavl.BAVL_LookupExact (key_at (heap demo_client)) conaddr_comparator (mkConaddr demo_local demo_remote) demo_con_tree =
    Ret (1, demo_con_tree) /\
  exists o', Bavl.BAVL_Remove 1 demo_con_tree = Ret (tt, o') /\ implements (heap demo_client) [] o'.
Proof.
  destruct (con_table_tree (heap demo_client) [1] demo_con_tree demo_implements) as (Hl & _ & Hr & _). split.
  - rewrite Hl by (split; cbn; lia). vm_compute. reflexivity.
  - destruct (Hr 1) as (o' & E & H); [by apply list_elem_of_singleton|]. exists o'. split; [exact E|exact H].
Defined.
End ConTree.
