(* ===== verification/Md5.v ===== *)
(** * redsocks/md5.c: the MD5 message digest

    redsocks computes digests for HTTP digest authentication. The C code
    unrolls the 64 operations of a block, reads little-endian words from the
    data, and takes the message in pieces of any size. The reference is the
    algorithm of RFC 1321: a loop over 64 steps with index formulas and the
    sine table, over the padded message.

    The lengths are [int]: a piece of 2^28 bytes or more overflows, which is
    undefined in C and in the model ([int]).

    - the model: [ROTATE_LEFT], [F] to [I], the lists [round1] to [round4] of the unrolled
      operations with [T1]..[T64], [md5_process], [md5_init], [md5_append],
      [md5_finish];
    - the reference: [rfc_step], [rfc_compress], [rfc_md5];
    - [md5_process_ok]: a block is processed as RFC 1321 says;
    - the invariant [repr]: the state stands for the message so far. *)
From S2P Require Import Prelude.
Local Open Scope Z_scope.

Module Md5.

(** *** The code *)

Definition T_MASK : Z := u32 (Z.lnot 0).

(** [T1] to [T64] *)
Definition T : list Z :=
  [Z.lxor T_MASK 0x28955b87; Z.lxor T_MASK 0x173848a9;
   0x242070db; Z.lxor T_MASK 0x3e423111;
   Z.lxor T_MASK 0x0a83f050; 0x4787c62a;
   Z.lxor T_MASK 0x57cfb9ec; Z.lxor T_MASK 0x02b96afe;
   0x698098d8; Z.lxor T_MASK 0x74bb0850;
   Z.lxor T_MASK 0x0000a44e; Z.lxor T_MASK 0x76a32841;
   0x6b901122; Z.lxor T_MASK 0x02678e6c;
   Z.lxor T_MASK 0x5986bc71; 0x49b40821;
   Z.lxor T_MASK 0x09e1da9d; Z.lxor T_MASK 0x3fbf4cbf;
   0x265e5a51; Z.lxor T_MASK 0x16493855;
   Z.lxor T_MASK 0x29d0efa2; 0x02441453;
   Z.lxor T_MASK 0x275e197e; Z.lxor T_MASK 0x182c0437;
   0x21e1cde6; Z.lxor T_MASK 0x3cc8f829;
   Z.lxor T_MASK 0x0b2af278; 0x455a14ed;
   Z.lxor T_MASK 0x561c16fa; Z.lxor T_MASK 0x03105c07;
   0x676f02d9; Z.lxor T_MASK 0x72d5b375;
   Z.lxor T_MASK 0x0005c6bd; Z.lxor T_MASK 0x788e097e;
   0x6d9d6122; Z.lxor T_MASK 0x021ac7f3;
   Z.lxor T_MASK 0x5b4115bb; 0x4bdecfa9;
   Z.lxor T_MASK 0x0944b49f; Z.lxor T_MASK 0x4140438f;
   0x289b7ec6; Z.lxor T_MASK 0x155ed805;
   Z.lxor T_MASK 0x2b10cf7a; 0x04881d05;
   Z.lxor T_MASK 0x262b2fc6; Z.lxor T_MASK 0x1924661a;
   0x1fa27cf8; Z.lxor T_MASK 0x3b53a99a;
   Z.lxor T_MASK 0x0bd6ddbb; 0x432aff97;
   Z.lxor T_MASK 0x546bdc58; Z.lxor T_MASK 0x036c5fc6;
   0x655b59c3; Z.lxor T_MASK 0x70f3336d;
   Z.lxor T_MASK 0x00100b82; Z.lxor T_MASK 0x7a7ba22e;
   0x6fa87e4f; Z.lxor T_MASK 0x01d3191f;
   Z.lxor T_MASK 0x5cfebceb; 0x4e0811a1;
   Z.lxor T_MASK 0x08ac817d; Z.lxor T_MASK 0x42c50dca;
   0x2ad7d2bb; Z.lxor T_MASK 0x14792c6e].

Definition ROTATE_LEFT (x n : Z) : Z := Z.lor (u32 (Z.shiftl x n)) (Z.shiftr x (32 - n)).
(** [~x] on 32 bits *)
Definition not32 (x : Z) : Z := u32 (Z.lnot x).
Definition F (x y z : Z) : Z := Z.lor (Z.land x y) (Z.land (not32 x) z).
Definition G (x y z : Z) : Z := Z.lor (Z.land x z) (Z.land y (not32 z)).
Definition H (x y z : Z) : Z := Z.lxor (Z.lxor x y) z.
Definition I (x y z : Z) : Z := Z.lxor y (Z.lor x (not32 z)).

(** The local variables [a], [b], [c], [d] of [md5_process]. *)
Inductive reg := ra | rb | rc | rd.
Record regs := mkRegs { va : Z; vb : Z; vc : Z; vd : Z }.
Definition rget (v : regs) (r : reg) : Z :=
  match r with ra => va v | rb => vb v | rc => vc v | rd => vd v end.
Definition rset (v : regs) (r : reg) (x : Z) : regs :=
  match r with
  | ra => mkRegs x (vb v) (vc v) (vd v)
  | rb => mkRegs (va v) x (vc v) (vd v)
  | rc => mkRegs (va v) (vb v) x (vd v)
  | rd => mkRegs (va v) (vb v) (vc v) x
  end.

(** [SET(a, b, c, d, k, s, Ti)], the index of [Ti] from zero. *)
Record SET_t := mkSET { s_a : reg; s_b : reg; s_c : reg; s_d : reg; s_k : Z; s_s : Z; s_t : nat }.

Definition SET (f : Z -> Z -> Z -> Z) (X : Z -> Z) (v : regs) (o : SET_t) : regs :=
  let t := u32 (rget v (s_a o) + f (rget v (s_b o)) (rget v (s_c o)) (rget v (s_d o)) + X (s_k o) +
                nth (s_t o) T 0) in
  rset v (s_a o) (u32 (ROTATE_LEFT t (s_s o) + rget v (s_b o))).

Definition round1 : list SET_t :=
  [mkSET ra rb rc rd 0 7 0;
   mkSET rd ra rb rc 1 12 1;
   mkSET rc rd ra rb 2 17 2;
   mkSET rb rc rd ra 3 22 3;
   mkSET ra rb rc rd 4 7 4;
   mkSET rd ra rb rc 5 12 5;
   mkSET rc rd ra rb 6 17 6;
   mkSET rb rc rd ra 7 22 7;
   mkSET ra rb rc rd 8 7 8;
   mkSET rd ra rb rc 9 12 9;
   mkSET rc rd ra rb 10 17 10;
   mkSET rb rc rd ra 11 22 11;
   mkSET ra rb rc rd 12 7 12;
   mkSET rd ra rb rc 13 12 13;
   mkSET rc rd ra rb 14 17 14;
   mkSET rb rc rd ra 15 22 15].
Definition round2 : list SET_t :=
  [mkSET ra rb rc rd 1 5 16;
   mkSET rd ra rb rc 6 9 17;
   mkSET rc rd ra rb 11 14 18;
   mkSET rb rc rd ra 0 20 19;
   mkSET ra rb rc rd 5 5 20;
   mkSET rd ra rb rc 10 9 21;
   mkSET rc rd ra rb 15 14 22;
   mkSET rb rc rd ra 4 20 23;
   mkSET ra rb rc rd 9 5 24;
   mkSET rd ra rb rc 14 9 25;
   mkSET rc rd ra rb 3 14 26;
   mkSET rb rc rd ra 8 20 27;
   mkSET ra rb rc rd 13 5 28;
   mkSET rd ra rb rc 2 9 29;
   mkSET rc rd ra rb 7 14 30;
   mkSET rb rc rd ra 12 20 31].
Definition round3 : list SET_t :=
  [mkSET ra rb rc rd 5 4 32;
   mkSET rd ra rb rc 8 11 33;
   mkSET rc rd ra rb 11 16 34;
   mkSET rb rc rd ra 14 23 35;
   mkSET ra rb rc rd 1 4 36;
   mkSET rd ra rb rc 4 11 37;
   mkSET rc rd ra rb 7 16 38;
   mkSET rb rc rd ra 10 23 39;
   mkSET ra rb rc rd 13 4 40;
   mkSET rd ra rb rc 0 11 41;
   mkSET rc rd ra rb 3 16 42;
   mkSET rb rc rd ra 6 23 43;
   mkSET ra rb rc rd 9 4 44;
   mkSET rd ra rb rc 12 11 45;
   mkSET rc rd ra rb 15 16 46;
   mkSET rb rc rd ra 2 23 47].
Definition round4 : list SET_t :=
  [mkSET ra rb rc rd 0 6 48;
   mkSET rd ra rb rc 7 10 49;
   mkSET rc rd ra rb 14 15 50;
   mkSET rb rc rd ra 5 21 51;
   mkSET ra rb rc rd 12 6 52;
   mkSET rd ra rb rc 3 10 53;
   mkSET rc rd ra rb 10 15 54;
   mkSET rb rc rd ra 1 21 55;
   mkSET ra rb rc rd 8 6 56;
   mkSET rd ra rb rc 15 10 57;
   mkSET rc rd ra rb 6 15 58;
   mkSET rb rc rd ra 13 21 59;
   mkSET ra rb rc rd 4 6 60;
   mkSET rd ra rb rc 11 10 61;
   mkSET rc rd ra rb 2 15 62;
   mkSET rb rc rd ra 9 21 63].

(** [X[k]]: the bytes of the block as little-endian words. *)
Definition word (data : list Z) (k : Z) : Z := le_val (slice (4 * k) 4 data).

Record md5_state_t := mkMd5 { count0 : Z; count1 : Z; abcd : regs; buf : list Z }.

Definition md5_process (pms : md5_state_t) (data : list Z) : md5_state_t :=
  let X := word data in
  let v := abcd pms in
  let v := fold_left (SET F X) round1 v in
  let v := fold_left (SET G X) round2 v in
  let v := fold_left (SET H X) round3 v in
  let v := fold_left (SET I X) round4 v in
  mkMd5 (count0 pms) (count1 pms)
    (mkRegs (u32 (va (abcd pms) + va v)) (u32 (vb (abcd pms) + vb v))
            (u32 (vc (abcd pms) + vc v)) (u32 (vd (abcd pms) + vd v)))
    (buf pms).

Definition md5_init (b : list Z) : md5_state_t :=
  mkMd5 0 0 (mkRegs 0x67452301 (Z.lxor T_MASK 0x10325476) (Z.lxor T_MASK 0x67452301) 0x10325476) b.

(** [for (; left >= 64; p += 64, left -= 64) md5_process(pms, p)]; returns what
    is left. *)
Fixpoint process_full (fuel : nat) (pms : md5_state_t) (p : list Z) : cres (md5_state_t * list Z) :=
  if 64 <=? zlen p then
    match fuel with
    | O => OutOfFuel
    | S fuel =>
        block ← of_option (load p 0 64);
        process_full fuel (md5_process pms block) (drop 64 p)
    end
  else Ret (pms, p).

Definition set_buf (pms : md5_state_t) (b : list Z) : md5_state_t :=
  mkMd5 (count0 pms) (count1 pms) (abcd pms) b.

(** The full blocks, and the final partial block. *)
Definition absorb_rest (pms : md5_state_t) (p : list Z) : cres md5_state_t :=
  '(pms, p) ← process_full (length p) pms p;
  if negb (zlen p =? 0) then b ← of_option (store (buf pms) 0 p); Ret (set_buf pms b)
  else Ret pms.

(** The result of an [int] operation; overflow is undefined. *)
Definition int (x : Z) : cres Z := if (- 2 ^ 31 <=? x) && (x <? 2 ^ 31) then Ret x else Undef.

(** [nbytes], an [int], is the length of the data. *)
Definition md5_append (pms : md5_state_t) (data : list Z) : cres md5_state_t :=
  nbytes ← int (zlen data);
  let offset := Z.land (Z.shiftr (count0 pms) 3) 63 in
  shifted ← int (Z.shiftl nbytes 3);
  let nbits := u32 shifted in
  if nbytes <=? 0 then Ret pms
  else
    let c1 := u32 (count1 pms + Z.shiftr nbytes 29) in
    let c0 := u32 (count0 pms + nbits) in
    let c1 := if c0 <? nbits then u32 (c1 + 1) else c1 in
    let pms := mkMd5 c0 c1 (abcd pms) (buf pms) in
    if negb (offset =? 0) then
      total ← int (offset + nbytes);
      let copy := if 64 <? total then 64 - offset else nbytes in
      piece ← of_option (load data 0 copy);
      b ← of_option (store (buf pms) offset piece);
      let pms := set_buf pms b in
      if offset + copy <? 64 then Ret pms
      else absorb_rest (md5_process pms b) (drop (Z.to_nat copy) data)
    else absorb_rest pms data.

Definition pad : list Z := 0x80 :: repeat 0 63.

Definition md5_finish (pms : md5_state_t) : cres (md5_state_t * list Z) :=
  let data := le_bytes 4 (count0 pms) ++ le_bytes 4 (count1 pms) in
  p ← of_option (load pad 0 (Z.land (u32 (55 - Z.shiftr (count0 pms) 3)) 63 + 1));
  pms ← md5_append pms p;
  pms ← md5_append pms data;
  let v := abcd pms in
  Ret (pms, le_bytes 4 (va v) ++ le_bytes 4 (vb v) ++ le_bytes 4 (vc v) ++ le_bytes 4 (vd v)).

(** *** RFC 1321 *)

(** [T[i]] is the integer part of [2^32 * abs(sin(i + 1))]. *)
Definition rfc_T : list Z :=
  [3614090360; 3905402710; 606105819; 3250441966; 4118548399;
   1200080426; 2821735955; 4249261313; 1770035416; 2336552879;
   4294925233; 2304563134; 1804603682; 4254626195; 2792965006;
   1236535329; 4129170786; 3225465664; 643717713; 3921069994;
   3593408605; 38016083; 3634488961; 3889429448; 568446438;
   3275163606; 4107603335; 1163531501; 2850285829; 4243563512;
   1735328473; 2368359562; 4294588738; 2272392833; 1839030562;
   4259657740; 2763975236; 1272893353; 4139469664; 3200236656;
   681279174; 3936430074; 3572445317; 76029189; 3654602809;
   3873151461; 530742520; 3299628645; 4096336452; 1126891415;
   2878612391; 4237533241; 1700485571; 2399980690; 4293915773;
   2240044497; 1873313359; 4264355552; 2734768916; 1309151649;
   4149444226; 3174756917; 718787259; 3951481745].
Definition rfc_s : list Z := [7; 12; 17; 22; 5; 9; 14; 20; 4; 11; 16; 23; 6; 10; 15; 21].
Definition rfc_k (i : nat) : Z :=
  match (i / 16)%nat with
  | O => Z.of_nat i
  | 1%nat => (5 * Z.of_nat i + 1) mod 16
  | 2%nat => (3 * Z.of_nat i + 5) mod 16
  | _ => (7 * Z.of_nat i) mod 16
  end.
Definition rfc_f (i : nat) (x y z : Z) : Z :=
  match (i / 16)%nat with
  | O => Z.lor (Z.land x y) (Z.land (not32 x) z)
  | 1%nat => Z.lor (Z.land x z) (Z.land y (not32 z))
  | 2%nat => Z.lxor (Z.lxor x y) z
  | _ => Z.lxor y (Z.lor x (not32 z))
  end.
Definition rotl (x n : Z) : Z := Z.lor (u32 (Z.shiftl x n)) (Z.shiftr x (32 - n)).

(** One step; the registers move by one place. *)
Definition rfc_step (X : Z -> Z) (v : regs) (i : nat) : regs :=
  let t := u32 (va v + rfc_f i (vb v) (vc v) (vd v) + X (rfc_k i) + nth i rfc_T 0) in
  mkRegs (vd v) (u32 (vb v + rotl t (nth (4 * (i / 16) + i mod 4) rfc_s 0))) (vb v) (vc v).

Definition rfc_compress (h : regs) (block : list Z) : regs :=
  let v := fold_left (rfc_step (word block)) (seq 0 64) h in
  mkRegs (u32 (va h + va v)) (u32 (vb h + vb v)) (u32 (vc h + vc v)) (u32 (vd h + vd v)).

Fixpoint rfc_blocks (n : nat) (h : regs) (m : list Z) : regs :=
  match n with
  | O => h
  | S n => rfc_blocks n (rfc_compress h (take 64 m)) (drop 64 m)
  end.

Definition rfc_init : regs := mkRegs 0x67452301 0xefcdab89 0x98badcfe 0x10325476.
Definition rfc_pad (m : list Z) : list Z :=
  m ++ [0x80] ++ repeat 0 (Z.to_nat ((55 - zlen m) mod 64)) ++ le_bytes 8 (8 * zlen m).
Definition regs_bytes (v : regs) : list Z :=
  le_bytes 4 (va v) ++ le_bytes 4 (vb v) ++ le_bytes 4 (vc v) ++ le_bytes 4 (vd v).
Definition rfc_md5 (m : list Z) : list Z :=
  let p := rfc_pad m in regs_bytes (rfc_blocks (length p / 64) rfc_init p).

(** *** A block is processed as RFC 1321 says *)

(** The unrolled operation number [i]. *)
Definition entry (i : nat) : SET_t :=
  let s := nth (4 * (i / 16) + i mod 4) rfc_s 0 in
  match (i mod 4)%nat with
  | O => mkSET ra rb rc rd (rfc_k i) s i
  | 1%nat => mkSET rd ra rb rc (rfc_k i) s i
  | 2%nat => mkSET rc rd ra rb (rfc_k i) s i
  | _ => mkSET rb rc rd ra (rfc_k i) s i
  end.

Lemma rounds_entries :
  round1 = map entry (seq 0 16) /\ round2 = map entry (seq 16 16) /\
  round3 = map entry (seq 32 16) /\ round4 = map entry (seq 48 16).
Proof. vm_compute. auto. Qed.
Lemma T_sines : T = rfc_T.
Proof. vm_compute. reflexivity. Qed.

(** The registers of the RFC after [i] steps, from the variables of the code. *)
Definition turned (i : nat) (v : regs) : regs :=
  match (i mod 4)%nat with
  | O => v
  | 1%nat => mkRegs (vd v) (va v) (vb v) (vc v)
  | 2%nat => mkRegs (vc v) (vd v) (va v) (vb v)
  | _ => mkRegs (vb v) (vc v) (vd v) (va v)
  end.

Lemma succ_mod4 i : (S i mod 4 = S (i mod 4) mod 4)%nat.
Proof.
  pose proof (Nat.div_mod_eq i 4). replace (S i) with (S (i mod 4) + i / 4 * 4)%nat by lia.
  apply Nat.Div0.mod_add.
Qed.

Lemma SET_rfc f X i v :
  (forall x y z, f x y z = rfc_f i x y z) ->
  turned (S i) (SET f X v (entry i)) = rfc_step X (turned i v) i.
Proof.
  intros Hf. pose proof (Nat.mod_upper_bound i 4 ltac:(lia)) as Hi. unfold turned, entry.
  destruct (i mod 4)%nat as [|[|[|[|]]]] eqn:E; [| | | |lia].
  - rewrite (succ_mod4 i), E. cbn [Nat.modulo Nat.divmod Nat.sub snd].
    unfold SET, rfc_step. cbn [rget rset s_a s_b s_c s_d s_k s_s s_t va vb vc vd]. by rewrite T_sines, Hf, E, (Z.add_comm (ROTATE_LEFT _ _)).
  - rewrite (succ_mod4 i), E. cbn [Nat.modulo Nat.divmod Nat.sub snd].
    unfold SET, rfc_step. cbn [rget rset s_a s_b s_c s_d s_k s_s s_t va vb vc vd]. by rewrite T_sines, Hf, E, (Z.add_comm (ROTATE_LEFT _ _)).
  - rewrite (succ_mod4 i), E. cbn [Nat.modulo Nat.divmod Nat.sub snd].
    unfold SET, rfc_step. cbn [rget rset s_a s_b s_c s_d s_k s_s s_t va vb vc vd]. by rewrite T_sines, Hf, E, (Z.add_comm (ROTATE_LEFT _ _)).
  - rewrite (succ_mod4 i), E. cbn [Nat.modulo Nat.divmod Nat.sub snd].
    unfold SET, rfc_step. cbn [rget rset s_a s_b s_c s_d s_k s_s s_t va vb vc vd]. by rewrite T_sines, Hf, E, (Z.add_comm (ROTATE_LEFT _ _)).
Qed.

Lemma round_rfc f X n : forall i v,
  (forall j x y z, (i <= j < i + n)%nat -> f x y z = rfc_f j x y z) ->
  turned (i + n) (fold_left (SET f X) (map entry (seq i n)) v) =
  fold_left (rfc_step X) (seq i n) (turned i v).
Proof.
  induction n as [|n IH]; intros i v Hf; cbn [seq map fold_left]; [by rewrite Nat.add_0_r|].
  rewrite <- (SET_rfc f) by (intros; apply Hf; lia). rewrite <- IH by (intros; apply Hf; lia).
  f_equal. lia.
Qed.

Lemma rfc_f_round j r : (16 * r <= j < 16 * r + 16)%nat -> (j / 16)%nat = r.
Proof. intros Hj. symmetry. apply (Nat.div_unique _ 16 r (j - 16 * r)); lia. Qed.

Lemma md5_process_ok pms data :
  md5_process pms data = mkMd5 (count0 pms) (count1 pms) (rfc_compress (abcd pms) data) (buf pms).
Proof.
  unfold md5_process, rfc_compress. destruct rounds_entries as (-> & -> & -> & ->).
  change (seq 0 64) with (seq 0 16 ++ seq 16 16 ++ seq 32 16 ++ seq 48 16).
  rewrite !fold_left_app. set (X := word data). set (v := abcd pms).
  assert (Hr : forall f r w, (forall x y z j, (j / 16)%nat = r -> f x y z = rfc_f j x y z) ->
    fold_left (SET f X) (map entry (seq (16 * r) 16)) w = fold_left (rfc_step X) (seq (16 * r) 16) w).
  { intros f r w Hf. pose proof (round_rfc f X 16 (16 * r) w) as H0.
    assert (Ht : forall k u, turned (16 * k) u = u).
    { intros k u. unfold turned. replace (16 * k)%nat with ((4 * k) * 4)%nat by lia. by rewrite Nat.Div0.mod_mul. }
    replace (16 * r + 16)%nat with (16 * (r + 1))%nat in H0 by lia. rewrite !Ht in H0. apply H0.
    intros j x y z Hj. apply Hf, rfc_f_round. lia. }
  rewrite (Hr F 0%nat), (Hr G 1%nat), (Hr H 2%nat), (Hr I 3%nat); [done|..];
    intros x y z j Hj; unfold rfc_f; by rewrite Hj.
Qed.

(** *** The state stands for a message *)

Lemma rfc_blocks_add a : forall b h m,
  rfc_blocks (a + b) h m = rfc_blocks b (rfc_blocks a h m) (drop (64 * a) m).
Proof.
  induction a as [|a IH]; intros b h m; cbn [rfc_blocks Nat.add]; [by rewrite Nat.mul_0_r, drop_0|].
  rewrite IH, drop_drop. do 2 f_equal. lia.
Qed.
Lemma rfc_blocks_prefix n : forall h m k,
  (64 * n <= length m)%nat -> rfc_blocks n h (m ++ k) = rfc_blocks n h m.
Proof.
  induction n as [|n IH]; intros h m k Hl; cbn [rfc_blocks]; [done|].
  rewrite take_app_le, drop_app_le by lia. apply IH. rewrite length_drop. lia.
Qed.

Record repr (pms : md5_state_t) (m : list Z) : Prop := {
  r_count0 : count0 pms = u32 (8 * zlen m);
  r_count1 : count1 pms = u32 (8 * zlen m / 2 ^ 32);
  r_abcd : abcd pms = rfc_blocks (length m / 64) rfc_init m;
  r_buf : length (buf pms) = 64%nat;
  r_rest : take (length m mod 64) (buf pms) = drop (64 * (length m / 64)) m;
}.

Lemma process_full_ok fuel : forall pms p,
  (length p / 64 <= fuel)%nat ->
  process_full fuel pms p =
  Ret (mkMd5 (count0 pms) (count1 pms) (rfc_blocks (length p / 64) (abcd pms) p) (buf pms),
       drop (64 * (length p / 64)) p).
Proof.
  induction fuel as [|fuel IH]; intros pms p Hf; cbn [process_full].
  - pose proof (Nat.div_mod_eq (length p) 64). pose proof (Nat.mod_upper_bound (length p) 64).
    destruct (Z.leb_spec 64 (zlen p)); [lia|]. replace (length p / 64)%nat with 0%nat by lia.
    cbn [rfc_blocks]. rewrite Nat.mul_0_r, drop_0. by destruct pms.
  - destruct (Z.leb_spec 64 (zlen p)).
    + rewrite load_Some by lia. cbn [of_option]. rewrite bind_Ret, md5_process_ok.
      assert (E : (length p / 64 = S (length (drop 64 p) / 64))%nat).
      { rewrite length_drop. replace (length p) with (length p - 64 + 1 * 64)%nat at 1 by lia.
        rewrite Nat.div_add by lia. lia. }
      rewrite IH by lia. cbn [count0 count1 abcd buf]. rewrite E. cbn [rfc_blocks].
      rewrite drop_drop. do 2 f_equal. f_equal. lia.
    + rewrite Nat.div_small by lia. cbn [rfc_blocks]. rewrite Nat.mul_0_r, drop_0. by destruct pms.
Qed.

(** From a state that has absorbed [q] blocks of [m], the rest. *)
Lemma absorb_rest_ok pms m q :
  abcd pms = rfc_blocks q rfc_init m -> (64 * q <= length m)%nat -> length (buf pms) = 64%nat ->
  count0 pms = u32 (8 * zlen m) -> count1 pms = u32 (8 * zlen m / 2 ^ 32) ->
  exists pms', absorb_rest pms (drop (64 * q) m) = Ret pms' /\ repr pms' m.
Proof.
  intros Ha Hq Hb H0 H1. unfold absorb_rest. set (p := drop (64 * q) m).
  assert (Hlp : length p = (length m - 64 * q)%nat) by apply length_drop.
  rewrite process_full_ok, bind_Ret by (apply Nat.Div0.div_le_upper_bound; lia).
  assert (Hdiv : (q + length p / 64 = length m / 64)%nat).
  { rewrite Hlp. replace (length m) with (length m - 64 * q + q * 64)%nat at 2 by lia.
    rewrite Nat.div_add by lia. lia. }
  assert (Hrest : drop (64 * (length p / 64)) p = drop (64 * (length m / 64)) m)
    by (rewrite <- Hdiv, Nat.mul_add_distr_l, <- drop_drop; done).
  assert (Habcd : rfc_blocks (length p / 64) (abcd pms) p = rfc_blocks (length m / 64) rfc_init m)
    by (rewrite <- Hdiv, rfc_blocks_add, Ha; done).
  rewrite Hrest, Habcd. set (rest := drop (64 * (length m / 64)) m).
  pose proof (Nat.div_mod_eq (length m) 64). pose proof (Nat.mod_upper_bound (length m) 64 ltac:(lia)).
  assert (Hlr : length rest = (length m mod 64)%nat) by (unfold rest; rewrite length_drop; lia).
  destruct (Z.eqb_spec (zlen rest) 0) as [E|E]; cbn [negb].
  - eexists. split; [reflexivity|]. split; cbn [count0 count1 abcd buf]; try done.
    fold rest. rewrite <- Hlr. destruct rest; [|cbn in E; lia]. cbn [length]. by rewrite take_0.
  - rewrite store_Some by (cbn [buf]; lia). cbn [of_option]. rewrite bind_Ret. eexists. split; [reflexivity|].
    split; cbn [set_buf count0 count1 abcd buf]; try done.
    + rewrite length_splice; [done|lia|lia].
    + fold rest. rewrite <- Hlr. pose proof (take_splice (buf pms) 0 rest ltac:(lia) ltac:(lia)) as Ht.
      rewrite Z.add_0_l, Nat2Z.id, take_0 in Ht. exact Ht.
Qed.

Lemma count_add a n :
  0 <= a -> 0 <= n < 2 ^ 31 ->
  let nbits := u32 (Z.shiftl n 3) in
  let c0 := u32 (u32 (8 * a) + nbits) in
  let c1 := u32 (u32 (8 * a / 2 ^ 32) + Z.shiftr n 29) in
  c0 = u32 (8 * (a + n)) /\ (if c0 <? nbits then u32 (c1 + 1) else c1) = u32 (8 * (a + n) / 2 ^ 32).
Proof.
  intros Ha Hn nbits c0 c1. subst c1 c0 nbits. unfold u32. rewrite Z.shiftl_mul_pow2, Z.shiftr_div_pow2 by lia.
  replace (n / 2 ^ 29) with (8 * n / 2 ^ 32).
  2: { change (2 ^ 32) with (8 * 2 ^ 29). rewrite Z.div_mul_cancel_l by lia. done. }
  replace (n * 2 ^ 3) with (8 * n) by lia. replace (8 * (a + n)) with (8 * a + 8 * n) by lia.
  split; [by rewrite <- Zplus_mod|]. set (A := 8 * a). set (B := 8 * n).
  pose proof (Z.div_mod A (2 ^ 32)). pose proof (Z.div_mod B (2 ^ 32)).
  pose proof (Z.mod_pos_bound A (2 ^ 32)). pose proof (Z.mod_pos_bound B (2 ^ 32)).
  destruct (Z.leb_spec (2 ^ 32) (A mod 2 ^ 32 + B mod 2 ^ 32)) as [Hc|Hc].
  - replace ((A mod 2 ^ 32 + B mod 2 ^ 32) mod 2 ^ 32) with (A mod 2 ^ 32 + B mod 2 ^ 32 - 2 ^ 32)
      by (apply (Z.mod_unique_pos _ _ 1); lia).
    destruct (Z.ltb_spec (A mod 2 ^ 32 + B mod 2 ^ 32 - 2 ^ 32) (B mod 2 ^ 32)); [|lia].
    replace ((A + B) / 2 ^ 32) with (A / 2 ^ 32 + B / 2 ^ 32 + 1)
      by (apply (Z.div_unique_pos _ _ _ (A mod 2 ^ 32 + B mod 2 ^ 32 - 2 ^ 32)); lia).
    rewrite Zplus_mod_idemp_l, <- !Z.add_assoc, Zplus_mod_idemp_l. done.
  - rewrite (Z.mod_small (_ + _)) by lia.
    destruct (Z.ltb_spec (A mod 2 ^ 32 + B mod 2 ^ 32) (B mod 2 ^ 32)); [lia|].
    replace ((A + B) / 2 ^ 32) with (A / 2 ^ 32 + B / 2 ^ 32)
      by (apply (Z.div_unique_pos _ _ _ (A mod 2 ^ 32 + B mod 2 ^ 32)); lia).
    by rewrite Zplus_mod_idemp_l.
Qed.

Lemma offset_ok pms m : repr pms m -> Z.land (Z.shiftr (count0 pms) 3) 63 = Z.of_nat (length m mod 64).
Proof.
  intros R. rewrite (r_count0 _ _ R). change 63 with (Z.ones 6). rewrite Z.land_ones, Z.shiftr_div_pow2 by lia.
  unfold u32. rewrite Nat2Z.inj_mod. change (2 ^ 6) with 64. change (Z.of_nat 64) with 64.
  change (2 ^ 32) with (8 * 2 ^ 29). rewrite Zmult_mod_distr_l. change (2 ^ 3) with 8.
  rewrite (Z.mul_comm 8), Z.div_mul by lia. change (2 ^ 29) with (64 * 2 ^ 23).
  rewrite Z.rem_mul_r by lia. rewrite (Z.mul_comm 64), Z.mod_add by lia. by rewrite Z.mod_mod.
Qed.

(** The bytes that are copied after the rest of the last block. *)
Lemma buffer_filled pms m data copy : repr pms m ->
  let o := (length m mod 64)%nat in let q := (length m / 64)%nat in
  0 <= copy <= zlen data -> Z.of_nat o + copy <= 64 ->
  take (Z.to_nat (Z.of_nat o + copy)) (splice (buf pms) (Z.of_nat o) (slice 0 copy data)) =
  take (Z.to_nat (Z.of_nat o + copy)) (drop (64 * q) (m ++ data)).
Proof.
  intros R o q Hc Ho. pose proof (Nat.div_mod_eq (length m) 64) as Hdm. fold o q in Hdm.
  assert (Hlp : zlen (slice 0 copy data) = copy) by (apply length_slice; lia). pose proof (r_buf _ _ R) as Hbuf.
  transitivity (drop (64 * q) m ++ take (Z.to_nat copy) data).
  - rewrite <- Hlp at 1. rewrite take_splice by lia. rewrite Nat2Z.id. unfold o at 1. by rewrite (r_rest _ _ R).
  - rewrite drop_app_le by lia. rewrite take_app_ge by (rewrite length_drop; lia). do 2 f_equal. rewrite length_drop. lia.
Qed.

Lemma int_ok x : - 2 ^ 31 <= x < 2 ^ 31 -> int x = Ret x.
Proof.
  intros Hx. unfold int. destruct (Z.leb_spec (- 2 ^ 31) x), (Z.ltb_spec x (2 ^ 31)); try lia. done.
Qed.
Lemma shift3 x : Z.shiftl x 3 = 8 * x.
Proof. rewrite Z.shiftl_mul_pow2 by lia. lia. Qed.

(** From 2^28 bytes on, the shift overflows. *)
Lemma md5_append_overflow pms data : 2 ^ 28 <= zlen data -> md5_append pms data = Undef.
Proof.
  intros Hl. unfold md5_append.
  assert (int (zlen data) = Ret (zlen data) \/ int (zlen data) = Undef) as [-> | ->]; [|rewrite bind_Ret|done].
  { unfold int. destruct (_ && _); auto. }
  assert (int (Z.shiftl (zlen data) 3) = Undef) as ->; [|done]. rewrite shift3. unfold int.
  destruct (Z.ltb_spec (8 * zlen data) (2 ^ 31)); [lia|]. by rewrite andb_false_r.
Qed.

Lemma md5_append_ok pms m data :
  repr pms m -> zlen data < 2 ^ 28 -> exists pms', md5_append pms data = Ret pms' /\ repr pms' (m ++ data).
Proof.
  intros R Hn. unfold md5_append. rewrite (int_ok (zlen data)), bind_Ret by lia. rewrite (offset_ok pms m R).
  rewrite (int_ok (Z.shiftl _ _)), bind_Ret by (rewrite shift3; lia).
  destruct (Z.leb_spec (zlen data) 0) as [Hz|Hz].
  { destruct data; [|cbn in *; lia]. rewrite app_nil_r. eauto. }
  destruct (count_add (zlen m) (zlen data) ltac:(lia) ltac:(lia)) as [Hc0 Hc1].
  rewrite (r_count0 _ _ R), (r_count1 _ _ R), Hc1, Hc0. clear Hc0 Hc1.
  replace (zlen m + zlen data) with (zlen (m ++ data)) by llia.
  pose proof (Nat.div_mod_eq (length m) 64) as Hdm. pose proof (Nat.mod_upper_bound (length m) 64 ltac:(lia)) as Hmb.
  set (q := (length m / 64)%nat) in *. set (o := (length m mod 64)%nat) in *.
  assert (Hl : length (m ++ data) = (length m + length data)%nat) by apply length_app.
  assert (Hblk : forall k, (64 * k <= length m)%nat -> rfc_blocks k rfc_init (m ++ data) = rfc_blocks k rfc_init m)
    by (intros; by apply rfc_blocks_prefix).
  destruct (Z.eqb_spec (Z.of_nat o) 0) as [Eo|Eo]; cbn [negb].
  { assert (Ed : drop (64 * q) (m ++ data) = data)
      by (rewrite drop_app_ge by lia; replace (64 * q - length m)%nat with 0%nat by lia; apply drop_0).
    pose proof (fun st => absorb_rest_ok st (m ++ data) q) as Habs. rewrite Ed in Habs.
    apply Habs; cbn [abcd buf count0 count1]; try done; [|lia|apply R].
    rewrite Hblk by lia. apply R. }
  rewrite int_ok, bind_Ret by lia.
  set (copy := if 64 <? Z.of_nat o + zlen data then 64 - Z.of_nat o else zlen data).
  assert (Hcopy : 0 <= copy <= zlen data /\ Z.of_nat o + copy <= 64) by (unfold copy; zcases; lia).
  rewrite load_Some by lia. cbn [of_option]. rewrite bind_Ret. cbn [buf].
  assert (Hlp : zlen (slice 0 copy data) = copy) by (apply length_slice; lia).
  pose proof (r_buf _ _ R) as Hbuf. rewrite store_Some by lia. cbn [of_option]. rewrite bind_Ret.
  set (b := splice (buf pms) (Z.of_nat o) (slice 0 copy data)).
  assert (Hlb : length b = 64%nat) by (unfold b; rewrite length_splice; lia).
  assert (Htk : take (Z.to_nat (Z.of_nat o + copy)) b = take (Z.to_nat (Z.of_nat o + copy)) (drop (64 * q) (m ++ data)))
    by (apply buffer_filled; tauto).
  destruct (Z.ltb_spec (Z.of_nat o + copy) 64) as [Hf|Hf].
  - assert (Ec : copy = zlen data) by (revert Hf; unfold copy; zcases; lia).
    eexists. split; [reflexivity|].
    assert (Hq : (length (m ++ data) / 64 = q)%nat) by (symmetry; apply (Nat.div_unique _ 64 q (o + length data)); lia).
    assert (Hr : (length (m ++ data) mod 64 = o + length data)%nat) by (symmetry; apply (Nat.mod_unique _ 64 q); lia).
    split; cbn [set_buf count0 count1 abcd buf]; try done.
    + rewrite Hq, Hblk by lia. apply R.
    + rewrite Hq, Hr. replace (o + length data)%nat with (Z.to_nat (Z.of_nat o + copy)) by lia.
      rewrite Htk. apply take_ge. rewrite length_drop. lia.
  - assert (Ec : copy = 64 - Z.of_nat o) by (revert Hf; unfold copy; zcases; lia).
    rewrite md5_process_ok. cbn [set_buf count0 count1 abcd buf].
    replace (drop (Z.to_nat copy) data) with (drop (64 * (q + 1)) (m ++ data)).
    2: { rewrite drop_app_ge by lia. f_equal. lia. }
    apply absorb_rest_ok; cbn [count0 count1 abcd buf]; try done; [|lia].
    rewrite rfc_blocks_add, Hblk by lia. cbn [rfc_blocks]. rewrite (r_abcd _ _ R). fold q.
    f_equal. rewrite Ec in Htk. replace (Z.to_nat (Z.of_nat o + (64 - Z.of_nat o))) with 64%nat in * by lia.
    rewrite <- Htk. symmetry. apply take_ge. lia.
Qed.

Lemma md5_init_ok b : length b = 64%nat -> repr (md5_init b) [].
Proof. by split. Qed.

(** The length of the padding. *)
Lemma pad_length pms m :
  repr pms m -> Z.land (u32 (55 - Z.shiftr (count0 pms) 3)) 63 = (55 - zlen m) mod 64.
Proof.
  intros R. pose proof (offset_ok pms m R) as Ho. change 63 with (Z.ones 6) in *.
  rewrite Z.land_ones in * by lia. change (2 ^ 6) with 64 in *. unfold u32. change (2 ^ 32) with (64 * 2 ^ 26).
  rewrite Z.rem_mul_r, (Z.mul_comm 64), Z.mod_add, Z.mod_mod by lia.
  rewrite Zminus_mod, Ho, Nat2Z.inj_mod, <- Zminus_mod. done.
Qed.

Lemma length_rfc_pad m : (length (rfc_pad m) = 64 * (length (rfc_pad m) / 64))%nat.
Proof.
  pose proof (Z.mod_pos_bound (55 - zlen m) 64 ltac:(lia)) as Hb.
  pose proof (Z.div_mod (55 - zlen m) 64 ltac:(lia)) as Hd.
  assert (E : length (rfc_pad m) = (64 * Z.to_nat (- ((55 - zlen m) / 64) + 1))%nat).
  { unfold rfc_pad. rewrite !length_app, repeat_length, length_le_bytes. cbn [length]. lia. }
  set (n := Z.to_nat _) in E. rewrite E, (Nat.mul_comm 64 n), Nat.div_mul by lia. lia.
Qed.

Lemma le_bytes_app n k : forall v, le_bytes (n + k) v = le_bytes n v ++ le_bytes k (v / 256 ^ Z.of_nat n).
Proof.
  induction n as [|n IH]; intros v; cbn [le_bytes Nat.add app]; [by rewrite Z.div_1_r|].
  rewrite IH, Nat2Z.inj_succ, Z.pow_succ_r, Z.div_div by lia. done.
Qed.
Lemma le_bytes_mod n : forall v, le_bytes n (v mod 256 ^ Z.of_nat n) = le_bytes n v.
Proof.
  induction n as [|n IH]; intros v; cbn [le_bytes]; [done|].
  rewrite Nat2Z.inj_succ, Z.pow_succ_r, Z.rem_mul_r by lia.
  rewrite (Z.mul_comm 256), Z.mod_add, Z.div_add, Z.mod_mod, (Z.div_small (v mod 256)) by
    first [lia | apply Z.mod_pos_bound; lia].
  by rewrite Z.add_0_l, IH.
Qed.

Lemma md5_finish_ok pms m :
  repr pms m -> exists pms', md5_finish pms = Ret (pms', rfc_md5 m).
Proof.
  intros R. unfold md5_finish. rewrite (pad_length pms m R).
  pose proof (Z.mod_pos_bound (55 - zlen m) 64 ltac:(lia)) as Hb. set (k := (55 - zlen m) mod 64) in *.
  rewrite load_Some by (cbn; lia). cbn [of_option]. rewrite bind_Ret.
  assert (Hpad : slice 0 (k + 1) pad = [0x80] ++ repeat 0 (Z.to_nat k)).
  { unfold slice, pad. rewrite drop_0. replace (Z.to_nat (k + 1)) with (S (Z.to_nat k)) by lia. cbn [firstn app].
    f_equal. replace 63%nat with (Z.to_nat k + (63 - Z.to_nat k))%nat by lia. rewrite repeat_app.
    apply take_app_length'. by rewrite repeat_length. }
  rewrite Hpad. set (p := [0x80] ++ repeat 0 (Z.to_nat k)).
  assert (Hp : zlen p = k + 1) by (unfold p; cbn; rewrite repeat_length; lia).
  destruct (md5_append_ok pms m p R ltac:(lia)) as (s1 & -> & R1). rewrite bind_Ret.
  assert (Hd : le_bytes 4 (count0 pms) ++ le_bytes 4 (count1 pms) = le_bytes 8 (8 * zlen m)).
  { rewrite (r_count0 _ _ R), (r_count1 _ _ R). change 8%nat with (4 + 4)%nat. rewrite le_bytes_app.
    unfold u32. change (2 ^ 32) with (256 ^ Z.of_nat 4). by rewrite !le_bytes_mod. }
  rewrite Hd. destruct (md5_append_ok s1 (m ++ p) (le_bytes 8 (8 * zlen m)) R1) as (s2 & -> & R2).
  { rewrite length_le_bytes. lia. }
  rewrite bind_Ret. eexists. do 2 f_equal.
  assert (Hm : (m ++ p) ++ le_bytes 8 (8 * zlen m) = rfc_pad m) by (unfold rfc_pad, p; by rewrite <- !app_assoc).
  rewrite Hm in R2. unfold rfc_md5, regs_bytes. by rewrite <- (r_abcd _ _ R2).
Qed.

(** *** Theorems *)

(** The calls of a user: initialise, append the pieces, finish. *)
Fixpoint append_all (pms : md5_state_t) (pieces : list (list Z)) : cres md5_state_t :=
  match pieces with
  | [] => Ret pms
  | p :: pieces => pms ← md5_append pms p; append_all pms pieces
  end.
Definition md5 (b : list Z) (pieces : list (list Z)) : cres (list Z) :=
  pms ← append_all (md5_init b) pieces;
  '(_, digest) ← md5_finish pms;
  Ret digest.

Definition small (p : list Z) : bool := zlen p <? 2 ^ 28.

Lemma append_all_ok pieces : forall pms m,
  repr pms m ->
  if forallb small pieces
  then exists pms', append_all pms pieces = Ret pms' /\ repr pms' (m ++ concat pieces)
  else append_all pms pieces = Undef.
Proof.
  induction pieces as [|p pieces IH]; intros pms m R; cbn [append_all concat forallb].
  - rewrite app_nil_r. eauto.
  - unfold small at 1. destruct (Z.ltb_spec (zlen p) (2 ^ 28)) as [Hp|Hp]; cbn [andb].
    + destruct (md5_append_ok pms m p R Hp) as (s1 & -> & R1). rewrite bind_Ret.
      specialize (IH s1 (m ++ p) R1). destruct (forallb small pieces); [|done].
      by rewrite app_assoc.
    + by rewrite md5_append_overflow.
Qed.

(** C37: the digest of redsocks is MD5. Whatever pieces of fewer than 2^28 bytes
    the message is passed in, initialising, appending and finishing reads and
    writes only inside the buffer and the data, no [int] overflows, and the
    result is the digest RFC 1321 defines for the whole message (of any length):
    the loop of 64 steps with the sine table over the padded message. With a
    larger piece the [int] [nbytes << 3] overflows, which is undefined. *)
Theorem md5_rfc1321 b pieces :
  length b = 64%nat ->
  md5 b pieces = if forallb small pieces then Ret (rfc_md5 (concat pieces)) else Undef.
Proof.
  intros Hb. unfold md5. pose proof (append_all_ok pieces _ [] (md5_init_ok b Hb)) as H.
  destruct (forallb small pieces); [|by rewrite H]. destruct H as (s & -> & R).
  rewrite bind_Ret. destruct (md5_finish_ok s (concat pieces) R) as (s' & ->). done.
Qed.

(** The test of RFC 1321 for [message digest], in three pieces. *)
Lemma md5_rfc1321_witness :
  md5 (repeat 7 64) [[109; 101; 115; 115]; [97; 103; 101; 32; 100; 105; 103; 101]; [115; 116]] =
  Ret [0xf9; 0x6b; 0x69; 0x7d; 0x7c; 0xb7; 0x93; 0x8d; 0x52; 0x5a; 0x2f; 0x31; 0xaa; 0xf1; 0x61; 0xd0].
Proof.
  rewrite (md5_rfc1321 (repeat 7 64) [[109; 101; 115; 115]; [97; 103; 101; 32; 100; 105; 103; 101]; [115; 116]]).
  - vm_compute. reflexivity.
  - reflexivity.
Defined.

End Md5.
