(* ===== verification/Base64.v ===== *)
(** * redsocks/base64.c: Base64

    redsocks encodes user names and passwords for HTTP basic authentication.
    The encoder keeps a bit buffer of which the last bits have not been put out
    yet; the decoder shifts the digits into an integer. The reference is the
    encoding of RFC 4648 by groups of three bytes. *)
From S2P Require Import Prelude.
Local Open Scope Z_scope.

Module Base64.

(** *** The code *)

Definition map2 : list Z :=
  [0x3e; 0xff; 0xff; 0xff; 0x3f; 0x34; 0x35; 0x36;
   0x37; 0x38; 0x39; 0x3a; 0x3b; 0x3c; 0x3d; 0xff;
   0xff; 0xff; 0xff; 0xff; 0xff; 0xff; 0x00; 0x01;
   0x02; 0x03; 0x04; 0x05; 0x06; 0x07; 0x08; 0x09;
   0x0a; 0x0b; 0x0c; 0x0d; 0x0e; 0x0f; 0x10; 0x11;
   0x12; 0x13; 0x14; 0x15; 0x16; 0x17; 0x18; 0x19;
   0xff; 0xff; 0xff; 0xff; 0xff; 0xff; 0x1a; 0x1b;
   0x1c; 0x1d; 0x1e; 0x1f; 0x20; 0x21; 0x22; 0x23;
   0x24; 0x25; 0x26; 0x27; 0x28; 0x29; 0x2a; 0x2b;
   0x2c; 0x2d; 0x2e; 0x2f; 0x30; 0x31; 0x32; 0x33].

(** [ABC..Zabc..z0123456789+/] *)
Definition b64 : list Z :=
  map Z.of_nat (seq 65 26 ++ seq 97 26 ++ seq 48 10) ++ [43; 47].

Definition PAD : Z := 61.
Definition UINT_MAX : Z := 2 ^ 32 - 1.
Definition BASE64_SIZE (x : Z) : Z := (x + 2) / 3 * 4 + 1.

(** The loop of [base64_decode] from index [i]. The result is [None] for the
    return value -1, otherwise the buffer and [dst - out]. The integer [v] wraps
    at 32 bits. *)
Fixpoint decode_loop (fuel : nat) (out : list Z) (inp : list Z) (out_size i v dst : Z) :
    cres (option (list Z * Z)) :=
  match fuel with
  | O => OutOfFuel
  | S fuel =>
      c ← of_option (get inp i);
      if (c =? 0) || (c =? PAD) then Ret (Some (out, dst))
      else
        let index := u32 (c - 43) in
        if zlen map2 <=? index then Ret None
        else
          m ← of_option (get map2 index);
          if m =? 0xff then Ret None
          else
            let v := s32 (Z.shiftl v 6 + m) in
            if negb (Z.land i 3 =? 0) && (dst <? out_size) then
              out ← of_option (store out dst [u8 (Z.shiftr v (6 - 2 * Z.land i 3))]);
              decode_loop fuel out inp out_size (i + 1) v (dst + 1)
            else decode_loop fuel out inp out_size (i + 1) v dst
  end.
Definition base64_decode (out inp : list Z) (out_size : Z) : cres (option (list Z * Z)) :=
  decode_loop (S (length inp)) out inp out_size 0 0 0.

(** The do-while loop of [base64_encode]. *)
Fixpoint emit (fuel : nat) (out : list Z) (dst i_bits i_shift bytes_remaining : Z) :
    cres (list Z * Z * Z) :=
  match fuel with
  | O => OutOfFuel
  | S fuel =>
      c ← of_option (get b64 (Z.land (Z.shiftr (u32 (Z.shiftl i_bits 6)) i_shift) 0x3f));
      out ← of_option (store out dst [c]);
      let dst := dst + 1 in
      let i_shift := i_shift - 6 in
      if (6 <? i_shift) || ((bytes_remaining =? 0) && (0 <? i_shift))
      then emit fuel out dst i_bits i_shift bytes_remaining
      else Ret (out, dst, i_shift)
  end.
(** A byte adds at most 8 bits to at most 6: three rounds at most. *)
Definition emit_fuel : nat := 3.

Fixpoint encode_loop (out : list Z) (dst : Z) (inp : list Z) (i_bits i_shift : Z) :
    cres (list Z * Z) :=
  match inp with
  | [] => Ret (out, dst)
  | x :: inp =>
      let i_bits := u32 (u32 (Z.shiftl i_bits 8) + x) in
      '(out, dst, i_shift) ← emit emit_fuel out dst i_bits (i_shift + 8) (zlen inp);
      encode_loop out dst inp i_bits i_shift
  end.

(** [while ((dst - ret) & 3) *dst++ = '=' ] *)
Fixpoint pad_loop (fuel : nat) (out : list Z) (dst : Z) : cres (list Z * Z) :=
  if Z.land dst 3 =? 0 then Ret (out, dst)
  else match fuel with
       | O => OutOfFuel
       | S fuel => out ← of_option (store out dst [PAD]); pad_loop fuel out (dst + 1)
       end.

(** The buffer, or a null pointer. *)
Definition base64_encode (out : list Z) (out_size : Z) (inp : list Z) : cres (option (list Z)) :=
  let in_size := zlen inp in
  if (UINT_MAX / 4 <=? in_size) || (out_size <? BASE64_SIZE in_size) then Ret None
  else
    '(out, dst) ← encode_loop out 0 inp 0 0;
    '(out, dst) ← pad_loop 3 out dst;
    out ← of_option (store out dst [0]);
    Ret (Some out).

(** *** RFC 4648 *)

(** The 6-bit digits of the groups. *)
Fixpoint digits (l : list Z) : list Z :=
  match l with
  | a :: b :: c :: l =>
      a / 4 :: (a mod 4) * 16 + b / 16 :: (b mod 16) * 4 + c / 64 :: c mod 64 :: digits l
  | [a; b] => [a / 4; (a mod 4) * 16 + b / 16; (b mod 16) * 4]
  | [a] => [a / 4; (a mod 4) * 16]
  | [] => []
  end.
Definition padding (l : list Z) : list Z :=
  match (length l mod 3)%nat with 1%nat => [PAD; PAD] | 2%nat => [PAD] | _ => [] end.
Definition letter (d : Z) : Z := nth (Z.to_nat d) b64 0.
Definition rfc_encode (l : list Z) : list Z := map letter (digits l) ++ padding l.

(** *** The encoder *)

Lemma store_next {A} (front rest : list A) c :
  (1 <= length rest)%nat ->
  store (front ++ rest) (zlen front) [c] = Some ((front ++ [c]) ++ drop 1 rest).
Proof.
  intros Hl. destruct rest as [|x rest]; cbn in Hl; [lia|]. rewrite store_Some by llia. f_equal.
  change (x :: rest) with ([x] ++ rest). rewrite splice_mid by done. by rewrite <- app_assoc.
Qed.

Lemma b64_length : length b64 = 64%nat.
Proof. reflexivity. Qed.
Lemma letter_get d : 0 <= d < 64 -> get b64 d = Some (letter d).
Proof.
  intros Hd. unfold get, letter. destruct (Z.ltb_spec d 0); [lia|].
  destruct (lookup_lt_is_Some_2 b64 (Z.to_nat d)) as [x Hx].
  { rewrite b64_length. lia. }
  rewrite Hx. f_equal. symmetry. by apply nth_lookup_Some.
Qed.

(** The digit of the upper six of [t] bits. *)
Definition top (B t : Z) : Z := (B mod 2 ^ t) * 64 / 2 ^ t.

Lemma top_range B t : 0 <= t -> 0 <= top B t < 64.
Proof.
  intros Ht. unfold top. pose proof (Z.mod_pos_bound B (2 ^ t) ltac:(apply Z.pow_pos_nonneg; lia)).
  split; [apply Z.div_pos; lia|apply Z.div_lt_upper_bound; lia].
Qed.

Lemma sextet B t : 0 <= t <= 26 ->
  Z.land (Z.shiftr (u32 (Z.shiftl B 6)) t) 0x3f = top B t.
Proof.
  intros Ht. change 0x3f with (Z.ones 6). rewrite Z.land_ones, Z.shiftr_div_pow2, Z.shiftl_mul_pow2 by lia.
  unfold u32, top. assert (Hp : 0 < 2 ^ t) by (apply Z.pow_pos_nonneg; lia).
  replace (2 ^ 32) with (2 ^ t * (2 ^ 6 * 2 ^ (26 - t))) by (rewrite <- !Z.pow_add_r by lia; f_equal; lia).
  assert (HK : 0 < 2 ^ (26 - t)) by (apply Z.pow_pos_nonneg; lia).
  change (2 ^ 6) with 64. set (K := 2 ^ (26 - t)) in *. set (P := 2 ^ t) in *.
  rewrite (Z.rem_mul_r _ P) by lia. rewrite (Z.mul_comm P (_ mod _)), Z.div_add by lia.
  rewrite (Z.div_small (_ mod P)), Z.add_0_l by (apply Z.mod_pos_bound; lia).
  rewrite (Z.rem_mul_r _ 64) by lia. rewrite (Z.mul_comm 64 (_ mod K)), Z.mod_add, Z.mod_mod by lia.
  rewrite (Z.div_mod B P) at 1 by lia.
  replace ((P * (B / P) + B mod P) * 64) with (B mod P * 64 + B / P * 64 * P) by lia.
  rewrite Z.div_add, Z.mod_add by lia. apply Z.mod_small.
  pose proof (Z.mod_pos_bound B P Hp). split; [apply Z.div_pos; lia|apply Z.div_lt_upper_bound; lia].
Qed.

(** One round of the inner loop. *)
Lemma emit_digit fuel front rest B t r :
  0 <= t <= 14 -> (1 <= length rest)%nat ->
  emit (S fuel) (front ++ rest) (zlen front) B t r =
  let front := front ++ [letter (top B t)] in
  if (6 <? t - 6) || ((r =? 0) && (0 <? t - 6))
  then emit fuel (front ++ drop 1 rest) (zlen front) B (t - 6) r
  else Ret (front ++ drop 1 rest, zlen front, t - 6).
Proof.
  intros Ht Hl. cbn [emit]. rewrite sextet, letter_get by (lia || (apply top_range; lia)).
  cbn [of_option]. rewrite bind_Ret, store_next by done. cbn [of_option]. rewrite bind_Ret.
  replace (zlen front + 1) with (zlen (front ++ [letter (top B t)])) by llia. done.
Qed.

(** The bit buffer after another byte. *)
Lemma next_bits B x s : 0 <= s <= 6 -> 0 <= x < 256 ->
  u32 (u32 (Z.shiftl B 8) + x) mod 2 ^ (s + 8) = B mod 2 ^ s * 256 + x.
Proof.
  intros Hs Hx. unfold u32. rewrite Z.shiftl_mul_pow2 by lia.
  assert (Hp : 0 < 2 ^ s) by (apply Z.pow_pos_nonneg; lia).
  replace (2 ^ 32) with (2 ^ (s + 8) * 2 ^ (24 - s)) by (rewrite <- Z.pow_add_r by lia; f_equal; lia).
  rewrite Zplus_mod_idemp_l. assert (HK : 0 < 2 ^ (24 - s)) by (apply Z.pow_pos_nonneg; lia).
  assert (HP : 0 < 2 ^ (s + 8)) by (apply Z.pow_pos_nonneg; lia).
  rewrite (Z.rem_mul_r _ (2 ^ (s + 8))) by lia.
  rewrite (Z.mul_comm (2 ^ (s + 8)) (_ mod _)), Z.mod_add, Z.mod_mod by lia. clear HP HK.
  rewrite Z.pow_add_r by lia. change (2 ^ 8) with 256.
  rewrite (Z.div_mod B (2 ^ s)) at 1 by lia.
  replace ((2 ^ s * (B / 2 ^ s) + B mod 2 ^ s) * 256 + x)
    with (B mod 2 ^ s * 256 + x + B / 2 ^ s * (2 ^ s * 256)) by lia.
  rewrite Z.mod_add by lia. apply Z.mod_small. pose proof (Z.mod_pos_bound B (2 ^ s) Hp). nia.
Qed.
Lemma low_bits B t u : 0 <= t <= u -> (B mod 2 ^ u) mod 2 ^ t = B mod 2 ^ t.
Proof.
  intros H. replace u with (t + (u - t)) by lia. rewrite Z.pow_add_r by lia.
  assert (0 < 2 ^ t /\ 0 < 2 ^ (u - t)) as [HP HK] by (split; apply Z.pow_pos_nonneg; lia).
  rewrite (Z.rem_mul_r _ (2 ^ t)), (Z.mul_comm (2 ^ t) (_ mod _)), Z.mod_add, Z.mod_mod by lia. done.
Qed.

(** Shares of digits. *)
Ltac dlia := Z.to_euclidean_division_equations; lia.
Lemma share_8 x : x * 64 / 256 = x / 4.
Proof. dlia. Qed.
Lemma share_2 x : x mod 4 * 64 / 4 = x mod 4 * 16.
Proof. dlia. Qed.
Lemma share_14 p x : 0 <= x < 256 -> (p * 256 + x) * 64 / 16384 = p.
Proof. intros. dlia. Qed.
Lemma share_10 x : x * 64 / 1024 = x / 16.
Proof. dlia. Qed.
Lemma share_12 x : x * 64 / 4096 = x / 64.
Proof. dlia. Qed.
Lemma share_4 x : x mod 16 * 64 / 16 = x mod 16 * 4.
Proof. dlia. Qed.
Lemma share_6 x : x mod 64 * 64 / 64 = x mod 64 * 1.
Proof. dlia. Qed.

(** What the digits of a byte are, and which bits stay. *)
Lemma top_val B t v w : B mod 2 ^ t = v -> v * 64 / 2 ^ t = w -> top B t = w.
Proof. intros <- <-. reflexivity. Qed.

Definition pending (B s : Z) : list Z := if s =? 0 then [] else [B mod 64].

Lemma map_snoc {A B} (f : A -> B) l x : map f l ++ [f x] = map f (l ++ [x]).
Proof. by rewrite map_app. Qed.

(** The first byte of a group, with or without a digit left from the group
    before; [r] bytes remain. *)
Lemma emit_first front rest B x s r :
  s = 0 \/ s = 6 -> is_byte x -> 0 <= r -> (3 <= length rest)%nat \/ (0 < r /\ (2 <= length rest)%nat) \/ (s = 0 /\ (2 <= length rest)%nat) ->
  let B' := u32 (u32 (Z.shiftl B 8) + x) in
  let ds := pending B s ++ (if r =? 0 then [x / 4; x mod 4 * 16] else [x / 4]) in
  let out := front ++ map letter ds in
  emit emit_fuel (front ++ rest) (zlen front) B' (s + 8) r =
  Ret (out ++ drop (length ds) rest, zlen out, if r =? 0 then -4 else 2) /\ B' mod 2 ^ 2 = x mod 4.
Proof.
  intros Hs Hx Hr Hl B' ds out. unfold is_byte in Hx. subst ds out.
  assert (H14 : s = 6 -> B' mod 2 ^ 14 = B mod 64 * 256 + x) by (intros _; apply (next_bits B x 6); lia).
  assert (H8 : B' mod 2 ^ 8 = x).
  { unfold B'. pose proof (next_bits B x 0 ltac:(lia) Hx) as H. change (2 ^ 0) with 1 in H.
    rewrite Z.mod_1_r in H. exact H. }
  assert (H2 : B' mod 2 ^ 2 = x mod 4) by (rewrite <- (low_bits B' 2 8), H8 by lia; done).
  split; [|done]. pose proof (Z.mod_pos_bound B 64 ltac:(lia)).
  assert (T8 : top B' 8 = x / 4) by (eapply top_val; [exact H8|apply share_8]).
  assert (T2 : top B' 2 = x mod 4 * 16) by (eapply top_val; [exact H2|apply share_2]).
  unfold emit_fuel, pending. destruct Hs as [-> | ->]; cbn [Z.eqb app].
  - rewrite emit_digit by lia. rewrite (T8 : top B' (0 + 8) = x / 4). cbv zeta.
    change (6 <? 0 + 8 - 6) with false. cbn [orb]. destruct (Z.eqb_spec r 0) as [->|]; cbn [andb].
    + change (0 <? 0 + 8 - 6) with true. cbv iota. rewrite emit_digit by (rewrite ?length_drop; lia).
      change (0 + 8 - 6) with 2. rewrite T2. cbv zeta. change (6 <? 2 - 6) with false. change (0 <? 2 - 6) with false.
      cbn [orb andb]. rewrite !drop_drop, <- !app_assoc. done.
    + rewrite <- !app_assoc. done.
  - rewrite emit_digit by lia. assert (T14 : top B' (6 + 8) = B mod 64)
      by (eapply top_val; [by apply H14|by apply share_14]).
    rewrite T14. cbv zeta. change (6 <? 6 + 8 - 6) with true. cbn [orb].
    rewrite emit_digit by (rewrite ?length_drop; lia). change (6 + 8 - 6) with 8. rewrite T8. cbv zeta.
    change (6 <? 8 - 6) with false. cbn [orb]. destruct (Z.eqb_spec r 0) as [->|]; cbn [andb].
    + change (0 <? 8 - 6) with true. cbv iota. rewrite emit_digit by (rewrite ?length_drop; lia).
      change (8 - 6) with 2. rewrite T2. cbv zeta. change (6 <? 2 - 6) with false. change (0 <? 2 - 6) with false.
      cbn [orb andb]. rewrite !drop_drop, <- !app_assoc. done.
    + rewrite !drop_drop, <- !app_assoc. done.
Qed.

(** The other bytes of a group: [s] is 2 or 4 and [p] the bits that stayed. *)
Lemma emit_next front rest B x s r :
  s = 2 \/ s = 4 -> is_byte x -> 0 <= r -> (2 <= length rest)%nat \/ (0 < r /\ (1 <= length rest)%nat) ->
  let B' := u32 (u32 (Z.shiftl B 8) + x) in
  let low := B mod 2 ^ s * 256 + x in
  let d := low / 2 ^ (s + 2) in
  let e := low mod 2 ^ (s + 2) * 2 ^ (4 - s) in
  let ds := if r =? 0 then [d; e] else [d] in
  let out := front ++ map letter ds in
  emit emit_fuel (front ++ rest) (zlen front) B' (s + 8) r =
  Ret (out ++ drop (length ds) rest, zlen out, if r =? 0 then s - 4 else s + 2) /\
  B' mod 2 ^ (s + 2) = low mod 2 ^ (s + 2).
Proof.
  intros Hs Hx Hr Hl B' low d e ds out. unfold is_byte in Hx. subst ds out.
  assert (H1 : B' mod 2 ^ (s + 8) = low) by (apply next_bits; lia).
  assert (H2 : B' mod 2 ^ (s + 2) = low mod 2 ^ (s + 2)) by (rewrite <- (low_bits B' (s + 2) (s + 8)), H1 by lia; done).
  split; [|done]. assert (Hlow : 0 <= low).
  { unfold low. pose proof (Z.mod_pos_bound B (2 ^ s) ltac:(apply Z.pow_pos_nonneg; lia)). lia. }
  assert (T1 : top B' (s + 8) = d).
  { eapply top_val; [exact H1|]. unfold d. destruct Hs as [-> | ->].
    - apply share_10.
    - apply share_12. }
  assert (T2 : top B' (s + 2) = e).
  { eapply top_val; [exact H2|]. unfold e. destruct Hs as [-> | ->].
    - apply share_4.
    - apply share_6. }
  unfold emit_fuel. rewrite emit_digit by lia. rewrite T1. cbv zeta. replace (s + 8 - 6) with (s + 2) by lia.
  replace (6 <? s + 2) with false by lia. replace (0 <? s + 2) with true by lia. cbn [orb].
  destruct (Z.eqb_spec r 0) as [->|]; cbn [andb]; [|done].
  rewrite emit_digit by (rewrite ?length_drop; lia). rewrite T2. cbv zeta.
  replace (s + 2 - 6) with (s - 4) by lia. replace (6 <? s - 4) with false by lia.
  replace (0 <? s - 4) with false by lia. cbn [orb andb]. rewrite !drop_drop, <- !app_assoc. done.
Qed.

Lemma second_digit a b : 0 <= b < 256 -> (a mod 4 * 256 + b) / 16 = a mod 4 * 16 + b / 16.
Proof. intros. dlia. Qed.
Lemma second_rest a b : (a mod 4 * 256 + b) mod 16 = b mod 16.
Proof. dlia. Qed.
Lemma third_digit b c : 0 <= c < 256 -> (b mod 16 * 256 + c) / 64 = b mod 16 * 4 + c / 64.
Proof. intros. dlia. Qed.
Lemma third_rest b c : (b mod 16 * 256 + c) mod 64 = c mod 64.
Proof. dlia. Qed.

Lemma triples_ind {A} (P : list A -> Prop) :
  P [] -> (forall a, P [a]) -> (forall a b, P [a; b]) -> (forall a b c l, P l -> P (a :: b :: c :: l)) ->
  forall l, P l.
Proof.
  intros H0 H1 H2 H3. fix IH 1. intros [|a [|b [|c l]]]; [exact H0|apply H1|apply H2|apply H3, IH].
Qed.

(** After a byte of the group. *)
Lemma encode_first front rest B x s inp :
  s = 0 \/ s = 6 -> is_byte x -> inp <> [] -> (2 <= length rest)%nat ->
  exists B', encode_loop (front ++ rest) (zlen front) (x :: inp) B s =
    encode_loop ((front ++ map letter (pending B s ++ [x / 4])) ++ drop (length (pending B s ++ [x / 4])) rest)
      (zlen (front ++ map letter (pending B s ++ [x / 4]))) inp B' 2 /\ B' mod 2 ^ 2 = x mod 4.
Proof.
  intros Hs Hx Hi Hl. destruct inp as [|y inp]; [done|].
  destruct (emit_first front rest B x s (zlen (y :: inp)) Hs Hx ltac:(lia)) as [E HB]; [cbn; lia|].
  eexists. split; [|exact HB]. cbn [encode_loop]. replace (zlen (y :: inp) =? 0) with false in E by (symmetry; apply Z.eqb_neq; cbn [length]; lia).
  rewrite E, bind_Ret. done.
Qed.
Lemma encode_next front rest B x s inp p :
  s = 2 \/ s = 4 -> is_byte x -> inp <> [] -> (1 <= length rest)%nat -> B mod 2 ^ s = p ->
  exists B', encode_loop (front ++ rest) (zlen front) (x :: inp) B s =
    encode_loop ((front ++ [letter ((p * 256 + x) / 2 ^ (s + 2))]) ++ drop 1 rest)
      (zlen (front ++ [letter ((p * 256 + x) / 2 ^ (s + 2))])) inp B' (s + 2) /\
    B' mod 2 ^ (s + 2) = (p * 256 + x) mod 2 ^ (s + 2).
Proof.
  intros Hs Hx Hi Hl Hp. destruct inp as [|y inp]; [done|].
  destruct (emit_next front rest B x s (zlen (y :: inp)) Hs Hx ltac:(lia)) as [E HB]; [cbn; lia|].
  rewrite Hp in E, HB. eexists. split; [|exact HB]. cbn [encode_loop].
  replace (zlen (y :: inp) =? 0) with false in E by (symmetry; apply Z.eqb_neq; cbn [length]; lia). rewrite E, bind_Ret. done.
Qed.
Lemma encode_last front rest B x s p :
  s = 2 \/ s = 4 -> is_byte x -> (2 <= length rest)%nat -> B mod 2 ^ s = p ->
  let ds := [(p * 256 + x) / 2 ^ (s + 2); (p * 256 + x) mod 2 ^ (s + 2) * 2 ^ (4 - s)] in
  encode_loop (front ++ rest) (zlen front) [x] B s =
  Ret ((front ++ map letter ds) ++ drop 2 rest, zlen (front ++ map letter ds)).
Proof.
  intros Hs Hx Hl Hp. cbv zeta.
  destruct (emit_next front rest B x s 0 Hs Hx ltac:(lia) ltac:(lia)) as [E _].
  rewrite Hp in E. cbn [encode_loop length]. change (Z.of_nat 0) with 0. cbn [Z.eqb] in E. rewrite E, bind_Ret. done.
Qed.

Definition encoded (front rest ds : list Z) : cres (list Z * Z) :=
  Ret ((front ++ map letter ds) ++ drop (length ds) rest, zlen (front ++ map letter ds)).
Lemma encoded_app front rest ds es :
  encoded (front ++ map letter ds) (drop (length ds) rest) es = encoded front rest (ds ++ es).
Proof. unfold encoded. by rewrite drop_drop, map_app, (length_app ds es), !app_assoc. Qed.

Lemma encode_loop_ok l : forall front rest B s,
  bytes l -> s = 0 \/ (s = 6 /\ l <> []) -> (length (pending B s ++ digits l) <= length rest)%nat ->
  encode_loop (front ++ rest) (zlen front) l B s = encoded front rest (pending B s ++ digits l).
Proof.
  induction l as [|a|a b|a b c l IH] using triples_ind; intros front rest B s Hb Hs Hl.
  - destruct Hs as [-> | [_ ?]]; [|done]. unfold encoded. cbn. by rewrite !app_nil_r, drop_0.
  - apply Forall_cons_1 in Hb as [Ha _]. rewrite length_app in Hl. cbn [digits length] in Hl.
    assert (Hs' : s = 0 \/ s = 6) by tauto.
    destruct (emit_first front rest B a s 0 Hs' Ha ltac:(lia)) as [E _].
    { destruct Hs' as [-> | ->]; cbn in Hl; lia. }
    cbn [encode_loop length]. change (Z.of_nat 0) with 0. cbn [Z.eqb] in E. rewrite E, bind_Ret. done.
  - apply Forall_cons_1 in Hb as [Ha Hb]. apply Forall_cons_1 in Hb as [Hb _].
    rewrite length_app in Hl. cbn [digits length] in Hl. assert (Hs' : s = 0 \/ s = 6) by tauto.
    destruct (encode_first front rest B a s [b] Hs' Ha ltac:(done) ltac:(lia)) as (B1 & -> & HB1).
    rewrite (encode_last _ _ B1 b 2 (a mod 4)) by (auto; rewrite length_drop, length_app; cbn [length]; lia).
    change (2 ^ (2 + 2)) with 16. change (2 ^ (4 - 2)) with 4.
    rewrite second_digit, second_rest by apply Hb.
    change (Ret _) with (encoded (front ++ map letter (pending B s ++ [a / 4]))
      (drop (length (pending B s ++ [a / 4])) rest) [a mod 4 * 16 + b / 16; b mod 16 * 4]).
    rewrite encoded_app, <- app_assoc. done.
  - apply Forall_cons_1 in Hb as [Ha Hb]. apply Forall_cons_1 in Hb as [Hb Hc]. apply Forall_cons_1 in Hc as [Hc Hbl].
    rewrite length_app in Hl. cbn [digits length] in Hl. assert (Hs' : s = 0 \/ s = 6) by tauto.
    destruct (encode_first front rest B a s (b :: c :: l) Hs' Ha ltac:(done) ltac:(lia)) as (B1 & -> & HB1).
    destruct (encode_next (front ++ map letter (pending B s ++ [a / 4])) (drop (length (pending B s ++ [a / 4])) rest)
      B1 b 2 (c :: l) (a mod 4)) as (B2 & -> & HB2); auto.
    { rewrite length_drop, length_app. cbn [length]. lia. }
    change (2 ^ (2 + 2)) with 16 in *. rewrite second_digit in * by apply Hb. rewrite second_rest in HB2.
    change [letter (a mod 4 * 16 + b / 16)] with (map letter [a mod 4 * 16 + b / 16]).
    rewrite <- (app_assoc front), <- map_app, drop_drop, <- (app_assoc (pending B s)). cbn [app].
    set (front2 := front ++ _). set (rest2 := drop _ rest).
    assert (Hr2 : (2 + length (digits l) <= length rest2)%nat).
    { unfold rest2. rewrite length_drop, length_app. cbn [length]. lia. }
    assert (Efin : forall ds, encoded front2 rest2 ds =
      encoded front rest (pending B s ++ [a / 4; a mod 4 * 16 + b / 16] ++ ds)).
    { intros ds. rewrite app_assoc, <- encoded_app. unfold front2, rest2. rewrite !length_app. cbn [length].
      by replace (length (pending B s) + 1 + 1)%nat with (length (pending B s) + 2)%nat by lia. }
    change (2 + 2) with 4 in *. destruct l as [|x l].
    + rewrite (encode_last front2 rest2 B2 c 4 (b mod 16)) by (auto; cbn in Hr2; lia).
      change (2 ^ (4 + 2)) with 64. change (2 ^ (4 - 4)) with 1.
      rewrite third_digit, third_rest, Z.mul_1_r by apply Hc.
      change (Ret _) with (encoded front2 rest2 [b mod 16 * 4 + c / 64; c mod 64]). by rewrite Efin.
    + destruct (encode_next front2 rest2 B2 c 4 (x :: l) (b mod 16)) as (B3 & -> & HB3); auto; [lia|].
      change (2 ^ (4 + 2)) with 64 in *. rewrite third_digit in * by apply Hc. rewrite third_rest in HB3.
      change (4 + 2) with 6. rewrite (IH _ _ B3 6) by (auto; rewrite length_app, length_drop; cbn [length pending Z.eqb]; lia).
      unfold pending at 1. cbn [Z.eqb]. rewrite HB3.
      change [letter (b mod 16 * 4 + c / 64)] with (map letter [b mod 16 * 4 + c / 64]).
      change (drop 1 rest2) with (drop (length [b mod 16 * 4 + c / 64]) rest2).
      rewrite encoded_app, Efin. done.
Qed.

Lemma length_encoding l : zlen (digits l ++ padding l) = (zlen l + 2) / 3 * 4.
Proof.
  unfold padding. induction l as [|a|a b|a b c l IH] using triples_ind; try done.
  replace (length (a :: b :: c :: l)) with (length l + 1 * 3)%nat by (cbn [length]; lia).
  rewrite Nat.Div0.mod_add. rewrite length_app in *. cbn [digits length].
  replace (Z.of_nat (length l + 1 * 3) + 2) with (zlen l + 2 + 1 * 3) by lia.
  rewrite Z.div_add by done. lia.
Qed.
Lemma padding_repeat l : exists k, (k <= 3)%nat /\ padding l = repeat PAD k.
Proof. unfold padding. destruct (length l mod 3)%nat as [|[|[|]]]; [exists 0%nat|exists 2%nat|exists 1%nat|exists 0%nat]; split; (lia || done). Qed.
Lemma land_3 x : Z.land x 3 = x mod 4.
Proof. apply (Z.land_ones x 2). lia. Qed.

Lemma pad_loop_ok k : forall fuel front rest,
  (k <= fuel)%nat -> (k <= 3)%nat -> (k <= length rest)%nat -> (zlen front + Z.of_nat k) mod 4 = 0 ->
  pad_loop fuel (front ++ rest) (zlen front) =
  Ret ((front ++ repeat PAD k) ++ drop k rest, zlen (front ++ repeat PAD k)).
Proof.
  induction k as [|k IH]; intros fuel front rest Hf H3 Hr Hm.
  - rewrite Z.add_0_r in Hm. cbn [repeat]. rewrite app_nil_r, drop_0.
    destruct fuel; cbn [pad_loop]; by rewrite land_3, Hm.
  - destruct fuel as [|fuel]; [lia|]. cbn [pad_loop]. rewrite land_3.
    replace (zlen front mod 4 =? 0) with false
      by (symmetry; apply Z.eqb_neq; Z.to_euclidean_division_equations; lia).
    rewrite store_next by lia. cbn [of_option]. rewrite bind_Ret.
    replace (zlen front + 1) with (zlen (front ++ [PAD])) by llia.
    rewrite IH by (rewrite ?length_app, ?length_drop; cbn [length];
      first [lia | rewrite <- Hm; f_equal; lia]).
    rewrite drop_drop. cbn [repeat]. by rewrite <- !app_assoc.
Qed.

Lemma encode_exact out out_size inp :
  bytes inp -> out_size <= zlen out ->
  base64_encode out out_size inp =
  Ret (if (UINT_MAX / 4 <=? zlen inp) || (out_size <? BASE64_SIZE (zlen inp)) then None
       else Some (rfc_encode inp ++ 0 :: drop (S (length (rfc_encode inp))) out)).
Proof.
  intros Hb Hout. unfold base64_encode. destruct (_ || _) eqn:Hg; [done|].
  apply orb_false_iff in Hg as [_ Hg]. apply Z.ltb_ge in Hg. unfold BASE64_SIZE in Hg.
  pose proof (length_encoding inp) as Hlen. rewrite <- Hlen, length_app in Hg. rewrite length_app in Hlen.
  change (encode_loop out 0) with (encode_loop ([] ++ out) (zlen (@nil Z))).
  rewrite (encode_loop_ok inp [] out 0 0) by (auto; cbn [pending Z.eqb app]; lia).
  unfold pending. cbn [Z.eqb app]. unfold encoded. rewrite bind_Ret. cbn [app].
  destruct (padding_repeat inp) as (k & Hk & Ek). unfold rfc_encode. rewrite Ek in *. rewrite repeat_length in *.
  rewrite (pad_loop_ok k) by (rewrite ?length_drop, ?length_map; first [lia |
    replace (zlen (digits inp) + Z.of_nat k) with ((zlen inp + 2) / 3 * 4) by lia; by apply Z.mod_mul]).
  rewrite bind_Ret, drop_drop. set (text := map letter (digits inp) ++ repeat PAD k).
  assert (Ht : length text = (length (digits inp) + k)%nat) by (unfold text; by rewrite length_app, length_map, repeat_length).
  rewrite store_next by (rewrite length_drop; lia). cbn [of_option]. rewrite bind_Ret.
  rewrite drop_drop, <- app_assoc, Ht. cbn [app].
  by replace (S (length (digits inp) + k)) with (length (digits inp) + k + 1)%nat by lia.
Qed.

(** *** The decoder *)

(** What a sequence of digits stands for, from a digit at position [i] that
    follows the digit [p]: a byte for each digit but the first of a group of
    four. *)
Fixpoint undigits (i p : Z) (ds : list Z) : list Z :=
  match ds with
  | [] => []
  | d :: ds =>
      let k := i mod 4 in
      (if k =? 0 then [] else [(p * 64 + d) / 2 ^ (6 - 2 * k) mod 256]) ++ undigits (i + 1) d ds
  end.

Definition is_digit (d : Z) : Prop := 0 <= d < 64.
Definition stops (c : Z) : bool := (c =? 0) || (c =? PAD).
(** A character that is neither a letter of the alphabet nor a terminator. *)
Definition invalid (c : Z) : bool := negb (stops c) && negb (existsb (Z.eqb c) b64).

Lemma letter_value d : is_digit d ->
  stops (letter d) = false /\ (zlen map2 <=? u32 (letter d - 43)) = false /\
  get map2 (u32 (letter d - 43)) = Some d /\ (d =? 0xff) = false.
Proof.
  intros Hd.
  assert (H : forallb (fun n => let d := Z.of_nat n in
    negb (stops (letter d)) && negb (zlen map2 <=? u32 (letter d - 43)) &&
    match get map2 (u32 (letter d - 43)) with Some m => m =? d | None => false end && negb (d =? 0xff))
    (seq 0 64) = true) by (vm_compute; done).
  rewrite forallb_forall in H. specialize (H (Z.to_nat d)). cbv zeta in H.
  rewrite Z2Nat.id in H by apply Hd.
  destruct (get map2 _) as [m|]; rewrite !andb_true_iff, ?negb_true_iff in H;
    destruct H as [[[H1 H2] H3] H4]; try done; try (apply in_seq; unfold is_digit in Hd; lia).
  apply Z.eqb_eq in H3 as ->. done.
Qed.
Lemma invalid_value c : is_byte c -> invalid c = true ->
  stops c = false /\
  ((zlen map2 <=? u32 (c - 43)) = true \/
   (zlen map2 <=? u32 (c - 43)) = false /\ get map2 (u32 (c - 43)) = Some 0xff).
Proof.
  intros Hc.
  assert (H : forallb (fun n => let c := Z.of_nat n in negb (invalid c) || negb (stops c) &&
    (if zlen map2 <=? u32 (c - 43) then true
     else match get map2 (u32 (c - 43)) with Some m => m =? 0xff | None => false end)) (seq 0 256) = true)
    by (vm_compute; done).
  rewrite forallb_forall in H. specialize (H (Z.to_nat c)). cbv zeta in H.
  rewrite Z2Nat.id in H by apply Hc. intros Hi. rewrite Hi in H. cbn [negb orb] in H.
  apply andb_true_iff in H as [H1 H2]; [|apply in_seq; unfold is_byte in Hc; lia].
  apply negb_true_iff in H1. split; [done|].
  destruct (_ <=? _); [by left|right]. split; [done|].
  destruct (get _ _); [|done]. by apply Z.eqb_eq in H2 as ->.
Qed.

(** The accumulator keeps the last two digits in its twelve low bits. *)
Lemma low12 v p d : v mod 64 = p -> is_digit d ->
  s32 (Z.shiftl v 6 + d) mod 64 = d /\
  forall k, 1 <= k < 4 ->
    u8 (Z.shiftr (s32 (Z.shiftl v 6 + d)) (6 - 2 * k)) = (p * 64 + d) / 2 ^ (6 - 2 * k) mod 256.
Proof.
  intros Hp Hd. unfold is_digit in Hd.
  assert (exists N, s32 (Z.shiftl v 6 + d) = N * 4096 + (p * 64 + d)) as [N ->].
  { exists (v / 64 - (Z.shiftl v 6 + d + 2 ^ 31) / 2 ^ 32 * 2 ^ 20). unfold s32.
    pose proof (Z_div_mod_eq_full (Z.shiftl v 6 + d + 2 ^ 31) (2 ^ 32)).
    pose proof (Z_div_mod_eq_full v 64). rewrite Z.shiftl_mul_pow2 in * by lia. lia. }
  split.
  - replace (N * 4096 + (p * 64 + d)) with (d + (N * 64 + p) * 64) by lia.
    rewrite Z.mod_add by lia. apply Z.mod_small. lia.
  - intros k Hk. rewrite Z.shiftr_div_pow2 by lia.
    replace (N * 4096) with (N * 2 ^ (6 + 2 * k) * 2 ^ (6 - 2 * k))
      by (rewrite <- Z.mul_assoc, <- Z.pow_add_r by lia; by replace (6 + 2 * k + (6 - 2 * k)) with 12 by lia).
    rewrite Z.div_add_l by lia. unfold u8.
    replace (6 + 2 * k) with (2 * k - 2 + 8) by lia. rewrite Z.pow_add_r, Z.mul_assoc by lia.
    rewrite Z.add_comm. by apply Z.mod_add.
Qed.

Lemma decode_stop fuel out inp0 c inp1 out_size v dst :
  is_byte c -> (stops c || invalid c) = true ->
  decode_loop (S fuel) out (inp0 ++ c :: inp1) out_size (zlen inp0) v dst =
  Ret (if invalid c then None else Some (out, dst)).
Proof.
  intros Hc Hstop. cbn [decode_loop]. rewrite get_app_here. cbn [of_option]. rewrite bind_Ret. fold (stops c).
  destruct (invalid c) eqn:Hi.
  - destruct (invalid_value c Hc Hi) as [-> [-> | [-> ->]]]; done.
  - rewrite orb_false_r in Hstop. by rewrite Hstop.
Qed.
(** The loop on valid digits up to a character that ends it. *)
Lemma decode_loop_ok ds : forall fuel inp0 c inp1 out0 out1 out_size v p,
  Forall is_digit ds -> (length ds < fuel)%nat -> v mod 64 = p -> is_byte c ->
  (stops c || invalid c) = true -> zlen out0 <= out_size <= zlen (out0 ++ out1) ->
  let w := undigits (zlen inp0) p ds in
  let n := Z.to_nat (Z.min (out_size - zlen out0) (zlen w)) in
  decode_loop fuel (out0 ++ out1) (inp0 ++ map letter ds ++ c :: inp1) out_size (zlen inp0) v (zlen out0) =
  Ret (if invalid c then None
       else Some (out0 ++ take n w ++ drop n out1, zlen out0 + Z.of_nat n)).
Proof.
  induction ds as [|d ds IH]; intros [|fuel] inp0 c inp1 out0 out1 out_size v p Hds Hf Hp Hc Hstop Hout w n;
    cbn [length] in Hf; try lia; cbn [map app].
  - rewrite (decode_stop fuel) by done.
    destruct (invalid c); [done|]. unfold n, w. cbn [undigits length].
    rewrite Z.min_r by lia. change (Z.to_nat (Z.of_nat 0)) with 0%nat. cbn [take app Z.of_nat].
    by rewrite drop_0, Z.add_0_r.
  - apply Forall_cons_1 in Hds as [Hd Hds]. destruct (letter_value d Hd) as (E1 & E2 & E3 & E4).
    cbn [decode_loop]. rewrite get_app_here. cbn [of_option]. rewrite bind_Ret. fold (stops (letter d)).
    rewrite E1, E2, E3. cbn [of_option]. rewrite bind_Ret, E4.
    destruct (low12 v p d Hp Hd) as [Hv Hbyte].
    set (v' := s32 _) in *. clearbody v'.
    replace (inp0 ++ letter d :: map letter ds ++ c :: inp1) with ((inp0 ++ [letter d]) ++ map letter ds ++ c :: inp1)
      by (by rewrite <- app_assoc).
    replace (zlen inp0 + 1) with (zlen (inp0 ++ [letter d])) by llia.
    rewrite land_3. unfold n, w. cbn [undigits].
    assert (Hk : 0 <= zlen inp0 mod 4 < 4) by (apply Z.mod_pos_bound; lia).
    destruct (Z.eqb_spec (zlen inp0 mod 4) 0) as [Hk0|Hk0]; cbn [negb andb].
    { rewrite (IH fuel _ c inp1 out0 out1 out_size v' d) by (auto; lia). cbn [app].
      by replace (zlen (inp0 ++ [letter d])) with (zlen inp0 + 1) by llia. }
    rewrite Hbyte by lia. set (x := (p * 64 + d) / _ mod 256).
    replace (zlen inp0 + 1) with (zlen (inp0 ++ [letter d])) by llia. cbn [app].
    set (w' := undigits _ d ds).
    destruct (Z.ltb_spec (zlen out0) out_size) as [Hlt|Hge].
    + rewrite length_app in Hout. destruct out1 as [|y out1]; cbn [length] in Hout; [lia|].
      rewrite store_next by (cbn [length]; lia). cbn [of_option]. rewrite bind_Ret. cbn [drop].
      replace (zlen out0 + 1) with (zlen (out0 ++ [x])) by llia.
      rewrite (IH fuel _ c inp1 (out0 ++ [x]) out1 out_size v' d) by (auto; rewrite ?length_app; cbn [length]; lia).
      fold w'. destruct (invalid c); [done|].
      replace (Z.to_nat (Z.min (out_size - zlen out0) (zlen (x :: w'))))
        with (S (Z.to_nat (Z.min (out_size - zlen (out0 ++ [x])) (zlen w')))) by llia.
      cbn [take drop]. rewrite <- app_assoc. cbn [app]. do 3 f_equal. llia.
    + rewrite (IH fuel _ c inp1 out0 out1 out_size v' d) by (auto; lia). fold w'.
      destruct (invalid c); [done|].
      replace (out_size - zlen out0) with 0 by lia. by rewrite !Z.min_l by lia.
Qed.

Local Ltac byte_heads :=
  unfold bytes in *;
  repeat match goal with H : Forall is_byte (_ :: _) |- _ => apply Forall_cons_1 in H as [? H] end.
Lemma digits_digit l : bytes l -> Forall is_digit (digits l).
Proof.
  induction l as [|a|a b|a b c l IH] using triples_ind; intros Hb; cbn [digits];
    byte_heads;
    unfold is_byte in *; repeat apply List.Forall_cons; auto; unfold is_digit;
    Z.to_euclidean_division_equations; lia.
Qed.
Lemma group_bytes a b c : is_byte a -> is_byte b -> is_byte c ->
  ((a / 4 * 64 + (a mod 4 * 16 + b / 16)) / 16) mod 256 = a /\
  (((a mod 4 * 16 + b / 16) * 64 + (b mod 16 * 4 + c / 64)) / 4) mod 256 = b /\
  (((b mod 16 * 4 + c / 64) * 64 + c mod 64) / 1) mod 256 = c.
Proof.
  intros Ha Hb Hc. unfold is_byte in *. repeat split; Z.to_euclidean_division_equations; lia.
Qed.
Lemma undigits_digits l : forall i p, bytes l -> i mod 4 = 0 -> undigits i p (digits l) = l.
Proof.
  induction l as [|a|a b|a b c l IH] using triples_ind; intros i p Hb Hi; cbn [digits undigits]; [done|..];
    byte_heads;
    rewrite ?Hi;
    replace ((i + 1) mod 4) with 1 by (Z.to_euclidean_division_equations; lia);
    try replace ((i + 1 + 1) mod 4) with 2 by (Z.to_euclidean_division_equations; lia);
    try replace ((i + 1 + 1 + 1) mod 4) with 3 by (Z.to_euclidean_division_equations; lia);
    cbn [Z.eqb app];
    change (2 ^ (6 - 2 * 1)) with 16; change (2 ^ (6 - 2 * 2)) with 4; change (2 ^ (6 - 2 * 3)) with 1.
  - destruct (group_bytes a 0 0) as (E & _ & _); try done. by rewrite Z.add_0_r in E; rewrite E.
  - destruct (group_bytes a b 0) as (E1 & E2 & _); try done. rewrite Z.add_0_r in E2. by rewrite E1, E2.
  - destruct (group_bytes a b c) as (E1 & E2 & E3); try done. rewrite E1, E2, E3.
    rewrite IH by (done || Z.to_euclidean_division_equations; lia). done.
Qed.

Lemma decode_exact ds c tl out out_size :
  Forall is_digit ds -> is_byte c -> (stops c || invalid c) = true -> 0 <= out_size <= zlen out ->
  let w := undigits 0 0 ds in
  let n := Z.to_nat (Z.min out_size (zlen w)) in
  base64_decode out (map letter ds ++ c :: tl) out_size =
  Ret (if invalid c then None else Some (take n w ++ drop n out, Z.of_nat n)).
Proof.
  intros Hds Hc Hs Hout w n. unfold base64_decode.
  pose proof (decode_loop_ok ds (S (length (map letter ds ++ c :: tl))) [] c tl [] out out_size 0 0) as E.
  cbv zeta in E. change (zlen (@nil Z)) with 0 in E. cbn [app] in E. rewrite E by (auto; rewrite ?length_app, ?length_map; cbn [length app]; lia).
  by rewrite Z.sub_0_r.
Qed.

Lemma letter_of c : existsb (Z.eqb c) b64 = true -> exists d, is_digit d /\ c = letter d.
Proof.
  intros H. apply existsb_exists in H as (x & Hx & E). apply Z.eqb_eq in E as <-.
  apply (In_nth _ _ 0) in Hx as (n & Hn & <-). exists (Z.of_nat n). unfold letter. rewrite Nat2Z.id.
  split; [|done]. change (length b64) with 64%nat in Hn. unfold is_digit. lia.
Qed.
Lemma letters_prefix s : bytes s -> In 0 s -> exists ds c tl,
  s = map letter ds ++ c :: tl /\ Forall is_digit ds /\ is_byte c /\ (stops c || invalid c) = true.
Proof.
  induction s as [|x s IH]; intros Hb H0; [done|]. apply Forall_cons_1 in Hb as [Hx Hb].
  destruct (stops x || invalid x) eqn:Ex; [by exists [], x, s; auto|].
  apply orb_false_iff in Ex as [Es Ei]. unfold invalid in Ei. rewrite Es in Ei. cbn [negb andb] in Ei.
  apply negb_false_iff, letter_of in Ei as (d & Hd & ->).
  destruct H0 as [E0 | H0]; [by rewrite E0 in Es|].
  destruct (IH Hb H0) as (ds & c & tl & -> & Hds & Hc & Hs). exists (d :: ds), c, tl. auto.
Qed.

(** [base64_encode] returns a null pointer exactly when the input is too
    long or the buffer smaller than [BASE64_SIZE]; otherwise the buffer starts
    with the RFC 4648 encoding and a terminating zero and is unchanged behind
    it. It never writes outside the buffer and always terminates. *)
Theorem base64_encode_exact out out_size inp :
  bytes inp -> out_size <= zlen out ->
  base64_encode out out_size inp =
  Ret (if (UINT_MAX / 4 <=? zlen inp) || (out_size <? BASE64_SIZE (zlen inp)) then None
       else Some (rfc_encode inp ++ 0 :: drop (S (length (rfc_encode inp))) out)).
Proof. apply encode_exact. Qed.
Lemma base64_encode_exact_witness :
  base64_encode (repeat 7 10) 10 [72; 105; 33; 33] =
  Ret (Some [83; 71; 107; 104; 73; 81; 61; 61; 0; 7]).
Proof. rewrite (base64_encode_exact (repeat 7 10) 10 [72; 105; 33; 33]); [reflexivity | repeat (apply List.Forall_cons; [unfold is_byte; lia|]); apply List.Forall_nil | reflexivity || (cbn; lia)]. Defined.

(** [base64_decode] undoes [base64_encode]: on the string the encoder
    wrote, it writes the first [out_size] bytes of the input of the encoder (all
    of them if there is room) and returns their number. *)
Theorem base64_roundtrip buf size inp text out out_size :
  bytes inp -> size <= zlen buf -> 0 <= out_size <= zlen out ->
  base64_encode buf size inp = Ret (Some text) ->
  let n := Z.to_nat (Z.min out_size (zlen inp)) in
  base64_decode out text out_size = Ret (Some (take n inp ++ drop n out, Z.of_nat n)).
Proof.
  intros Hb Hsz Hout E. cbv zeta. rewrite encode_exact in E by done. destruct (_ || _); [done|]. injection E as <-.
  unfold rfc_encode. rewrite <- app_assoc. set (tl := _ :: drop _ buf).
  assert (exists c tl', padding inp ++ tl = c :: tl' /\ (c = 0 \/ c = PAD)) as (c & tl' & -> & Hc).
  { unfold padding. destruct (length inp mod 3)%nat as [|[|[|]]]; eexists _, _; (split; [reflexivity|auto]). }
  rewrite (decode_exact (digits inp) c tl') by (done || apply digits_digit, Hb || destruct Hc as [-> | ->]; done).
  replace (invalid c) with false by (by destruct Hc as [-> | ->]).
  by rewrite undigits_digits.
Qed.
Lemma base64_roundtrip_witness :
  base64_decode (repeat 7 6) [83; 71; 107; 104; 73; 81; 61; 61; 0; 7] 6 = Ret (Some ([72; 105; 33; 33; 7; 7], 4)).
Proof.
  apply (base64_roundtrip (repeat 7 10) 10 [72; 105; 33; 33]);
    [repeat (apply List.Forall_cons; [unfold is_byte; lia|]); apply List.Forall_nil | cbn; lia | cbn; lia | reflexivity].
Defined.

(** What [base64_decode] does on any string: the string is a sequence of
    letters of the alphabet up to a character that is the end of the string,
    padding or invalid; an invalid character gives -1, otherwise the bytes the
    letters stand for are written, [out_size] of them at most, and their number
    is returned. *)
Theorem base64_decode_exact s out out_size :
  bytes s -> In 0 s -> 0 <= out_size <= zlen out ->
  exists ds c tl, s = map letter ds ++ c :: tl /\ Forall is_digit ds /\ (stops c || invalid c) = true /\
  let w := undigits 0 0 ds in
  let n := Z.to_nat (Z.min out_size (zlen w)) in
  base64_decode out s out_size = Ret (if invalid c then None else Some (take n w ++ drop n out, Z.of_nat n)).
Proof.
  intros Hb H0 Hout. destruct (letters_prefix s Hb H0) as (ds & c & tl & -> & Hds & Hc & Hs).
  exists ds, c, tl. repeat split; auto. by apply decode_exact.
Qed.
Lemma base64_decode_exact_witness : exists ds c tl,
  [81; 85; 42; 0] = map letter ds ++ c :: tl /\ Forall is_digit ds /\ (stops c || invalid c) = true /\
  let w := undigits 0 0 ds in
  let n := Z.to_nat (Z.min 3 (zlen w)) in
  base64_decode [7; 7; 7] [81; 85; 42; 0] 3 = Ret (if invalid c then None else Some (take n w ++ drop n [7; 7; 7], Z.of_nat n)).
Proof.
  apply (base64_decode_exact [81; 85; 42; 0] [7; 7; 7] 3);
    [repeat (apply List.Forall_cons; [unfold is_byte; lia|]); apply List.Forall_nil | cbn; tauto | cbn; lia].
Defined.

End Base64.
