(* ===== verification/Redsocks.v ===== *)
(** * redsocks: connections through a SOCKS proxy

    redsocks accepts a redirected connection, opens one to the proxy (the relay),
    negotiates with the proxy in the protocol of the instance and then copies data
    in both directions. This file holds the code: redsocks.c, the protocols of
    socks5.c and socks4.c, [red_connect_relay] of utils.c, and of libevent the
    functions of bufferevent_sock.c and bufferevent.c that run the callbacks.
    - A connection is its [redsocks_client], with the two bufferevents, and the two
      sockets. [self] is [None] once the client is freed; a later access is
      undefined, as is closing a socket that is not open.
    - A socket keeps the bytes that were read from it and written to it, and what
      was shut down. A socket that reported the end of its stream gives no more
      data, and one that was shut down for writing takes no more.
    - System calls and allocations fail as the oracle [ok] says.
    - Only [BEV_SUSPEND_WM] can suspend reading, and nothing suspends writing: there
      are no rate limits and no lookups, callbacks are not deferred, and
      [connecting] is not set, because the sockets are connected by hand.
    - A bufferevent that is freed in its own callback stays until the callback has
      returned ([refcnt]); nothing uses it in between.
    - The time stamps of a client are only printed; [fini], [instance_fini] and
      [connect_relay] are NULL for socks4 and socks5. *)
From stdpp Require Import gmap.
From S2P Require Import Prelude Handlers.
Local Open Scope Z_scope.

(** ** Data *)
Module Bufferevent.

(** A set of [EV_READ] and [EV_WRITE]. *)
Record evs := Evs { EV_READ : bool; EV_WRITE : bool }.
Definition evs_or (a b : evs) : evs := Evs (EV_READ b || EV_READ a) (EV_WRITE b || EV_WRITE a).
Definition evs_diff (a b : evs) : evs := Evs (negb (EV_READ b) && EV_READ a) (negb (EV_WRITE b) && EV_WRITE a).
Definition no_ev : evs := Evs false false.
Definition ev_read_only : evs := Evs true false.
Definition ev_write_only : evs := Evs false true.
Definition ev_both : evs := Evs true true.

Inductive side := Client | Relay.
Definition other (s : side) : side := match s with Client => Relay | Relay => Client end.
#[export] Instance side_eq_dec : EqDecision side.
Proof. solve_decision. Defined.

(** What [readcb] and [writecb] point to. *)
Inductive callback :=
| CConnected                 (* redsocks_relay_connected *)
| CSubsysRead | CSubsysWrite (* of the protocol *)
| CRelayRead (from : side)   (* redsocks_relay_clientreadcb, redsocks_relay_relayreadcb *)
| CRelayWrite (to : side).   (* redsocks_relay_clientwritecb, redsocks_relay_relaywritecb *)
#[export] Instance callback_eq_dec : EqDecision callback.
Proof. solve_decision. Defined.

Record watermark := Mark { low : Z; high : Z }.
Record bufferevent := mkBev {
  ev_read : bool;            (* the events are pending *)
  ev_write : bool;
  input : list Z;
  output : list Z;
  wm_read : watermark;
  wm_write : watermark;
  readcb : option callback;
  writecb : option callback;
  enabled : evs;
  read_suspended : bool;
}.
Definition with_evs r wr (b : bufferevent) := mkBev r wr (input b) (output b) (wm_read b) (wm_write b) (readcb b) (writecb b) (enabled b) (read_suspended b).
Definition with_input l (b : bufferevent) := mkBev (ev_read b) (ev_write b) l (output b) (wm_read b) (wm_write b) (readcb b) (writecb b) (enabled b) (read_suspended b).
Definition with_output l (b : bufferevent) := mkBev (ev_read b) (ev_write b) (input b) l (wm_read b) (wm_write b) (readcb b) (writecb b) (enabled b) (read_suspended b).
Definition with_marks r wr (b : bufferevent) := mkBev (ev_read b) (ev_write b) (input b) (output b) r wr (readcb b) (writecb b) (enabled b) (read_suspended b).
Definition with_cbs r wr (b : bufferevent) := mkBev (ev_read b) (ev_write b) (input b) (output b) (wm_read b) (wm_write b) r wr (enabled b) (read_suspended b).
Definition with_enabled e (b : bufferevent) := mkBev (ev_read b) (ev_write b) (input b) (output b) (wm_read b) (wm_write b) (readcb b) (writecb b) e (read_suspended b).
Definition with_suspended x (b : bufferevent) := mkBev (ev_read b) (ev_write b) (input b) (output b) (wm_read b) (wm_write b) (readcb b) (writecb b) (enabled b) x.

Definition BEV_EVENT_READING : Z := 1.
Definition BEV_EVENT_WRITING : Z := 2.
Definition BEV_EVENT_EOF : Z := 16.
Definition BEV_EVENT_ERROR : Z := 32.
Definition MAX_TO_READ_EVER : Z := 16384.
Definition MAX_TO_WRITE_EVER : Z := 16384.
Definition EVBUFFER_MAX_READ : Z := 4096.

(** [bufferevent_new], [bufferevent_socket_new], [bufferevent_init_common] *)
Definition bufferevent_new (rcb wcb : option callback) : bufferevent :=
  mkBev false false [] [] (Mark 0 0) (Mark 0 0) rcb wcb ev_write_only false.

(** [enabled &= ~event], [event_del]. *)
Definition be_socket_disable (e : evs) (b : bufferevent) : bufferevent :=
  with_evs (negb (EV_READ e) && ev_read b) (negb (EV_WRITE e) && ev_write b) b.
Definition bufferevent_disable (e : evs) (b : bufferevent) : bufferevent :=
  be_socket_disable e (with_enabled (evs_diff (enabled b) e) b).
(** [bufferevent_suspend_read(bufev, BEV_SUSPEND_WM)] *)
Definition bufferevent_wm_suspend_read (b : bufferevent) : bufferevent :=
  with_suspended true (if read_suspended b then b else be_socket_disable ev_read_only b).
End Bufferevent.

Module Redsocks.
Export Bufferevent.

Record sockaddr_in := mkAddr { sin_addr : list Z; sin_port : list Z }.
Inductive proxy_type := socks4 | socks5.
(** Of [redsocks_config], what a connection uses. *)
Record redsocks_config := mkConfig {
  type : proxy_type;
  login : option (list Z);
  password : option (list Z);
  min_backoff_ms : Z;
  max_backoff_ms : Z;
}.
(** Of [redsocks_instance], what changes: whether the [tracked_event]s are inserted, the
    time in milliseconds that the second was inserted with, and [accept_backoff_ms]. *)
Record redsocks_instance := mkInst { listener : bool; accept_backoff : bool; tvdelay : Z; accept_backoff_ms : Z }.

Record redsocks_client := mkClient {
  instance : nat;
  client : option bufferevent;
  relay : option bufferevent;
  destaddr : sockaddr_in;
  state : Z;
  client_evshut : evs;
  relay_evshut : evs;
  do_password : bool;        (* socks5_client *)
  to_skip : Z;
}.
Definition bev_of (s : side) (c : redsocks_client) : option bufferevent := match s with Client => client c | Relay => relay c end.
Definition evshut_of (s : side) (c : redsocks_client) : evs := match s with Client => client_evshut c | Relay => relay_evshut c end.
Definition with_bev (s : side) b (c : redsocks_client) := match s with
  | Client => mkClient (instance c) b (relay c) (destaddr c) (state c) (client_evshut c) (relay_evshut c) (do_password c) (to_skip c)
  | Relay => mkClient (instance c) (client c) b (destaddr c) (state c) (client_evshut c) (relay_evshut c) (do_password c) (to_skip c)
  end.
Definition with_evshut (s : side) e (c : redsocks_client) := match s with
  | Client => mkClient (instance c) (client c) (relay c) (destaddr c) (state c) e (relay_evshut c) (do_password c) (to_skip c)
  | Relay => mkClient (instance c) (client c) (relay c) (destaddr c) (state c) (client_evshut c) e (do_password c) (to_skip c)
  end.
Definition with_state x (c : redsocks_client) :=
  mkClient (instance c) (client c) (relay c) (destaddr c) x (client_evshut c) (relay_evshut c) (do_password c) (to_skip c).
Definition with_do_password x (c : redsocks_client) :=
  mkClient (instance c) (client c) (relay c) (destaddr c) (state c) (client_evshut c) (relay_evshut c) x (to_skip c).
Definition with_to_skip x (c : redsocks_client) :=
  mkClient (instance c) (client c) (relay c) (destaddr c) (state c) (client_evshut c) (relay_evshut c) (do_password c) x.

(** A socket as the system sees it. *)
Inductive sock_status := Unused | Open | Closed.
Record sock := mkSock {
  status : sock_status;
  got : list Z;              (* read from it *)
  wrote : list Z;            (* written to it *)
  eof : bool;                (* reading reported the end of the stream *)
  shut : evs;
}.
Record conn := mkConn {
  self : option redsocks_client;
  sock_client : sock;
  sock_relay : sock;
  early : bool;              (* the application closed its side too early; see [note_early] *)
  relayed : bool;            (* [redsocks_start_relay] was called *)
  inst_of : nat;             (* the instance that accepted it, and where it was to go *)
  dest_of : sockaddr_in;
}.
Definition sock_of (s : side) (k : conn) : sock := match s with Client => sock_client k | Relay => sock_relay k end.
Definition with_self c (k : conn) := mkConn c (sock_client k) (sock_relay k) (early k) (relayed k) (inst_of k) (dest_of k).
Definition with_sock (s : side) x (k : conn) := match s with
  | Client => mkConn (self k) x (sock_relay k) (early k) (relayed k) (inst_of k) (dest_of k)
  | Relay => mkConn (self k) (sock_client k) x (early k) (relayed k) (inst_of k) (dest_of k)
  end.
Definition with_early x (k : conn) := mkConn (self k) (sock_client k) (sock_relay k) x (relayed k) (inst_of k) (dest_of k).
Definition with_relayed x (k : conn) := mkConn (self k) (sock_client k) (sock_relay k) (early k) x (inst_of k) (dest_of k).
Record world := mkW { me : conn; insts : list redsocks_instance; asked : nat }.
Definition with_me k (w : world) := mkW k (insts w) (asked w).
Definition with_insts l (w : world) := mkW (me w) l (asked w).

(** What can fail, or has two outcomes. *)
Inductive call := CCalloc | CCallocRequest | CEvbuffer | CBufferevent | CEventAdd | CEventDel | CSocket | CFcntl | CSetsockopt | CConnect
  | CGetsockopt | CGetsockname | CGetdestaddr | CTime | CShutdown | CClose | CBackoffPassed.

#[local] Abbreviation act := (prog world).

Section code.
Context (ok : call -> nat -> bool) (cfg : nat -> redsocks_config).

Definition answer (c : call) : act bool := fun w => Ret (ok c (asked w), mkW (me w) (insts w) (S (asked w))).
Definition the_client : act redsocks_client := c ← gets (fun w => self (me w)); lift (of_option c).
Definition put (c : option redsocks_client) : act unit := sets (fun w => with_me (with_self c (me w)) w).
Definition modify (f : redsocks_client -> redsocks_client) : act unit := c ← the_client; put (Some (f c)).
Definition bev (s : side) : act bufferevent := c ← the_client; lift (of_option (bev_of s c)).
Definition set_bev (s : side) (b : bufferevent) : act unit := modify (with_bev s (Some b)).
Definition the_sock (s : side) : act sock := gets (fun w => sock_of s (me w)).
Definition set_sock (s : side) (x : sock) : act unit := sets (fun w => with_me (with_sock s x (me w)) w).

(** ** libevent *)

(** [event_add] of an event that is pending does nothing. *)
Definition event_add (pending : bool) : act bool := if pending then mret true else answer CEventAdd.
Definition be_socket_enable (e : evs) (b : bufferevent) : act (bool * bufferevent) :=
  r ← (if EV_READ e then event_add (ev_read b) else mret true);
  let b := with_evs (if EV_READ e then r else ev_read b) (ev_write b) b in
  if negb r then mret (false, b) else
  r ← (if EV_WRITE e then event_add (ev_write b) else mret true);
  mret (r, with_evs (ev_read b) (if EV_WRITE e then r else ev_write b) b).
Definition bufferevent_enable (e : evs) (b : bufferevent) : act (bool * bufferevent) :=
  let impl := Evs (EV_READ e && negb (read_suspended b)) (EV_WRITE e) in
  let b := with_enabled (evs_or (enabled b) e) b in
  if EV_READ impl || EV_WRITE impl then be_socket_enable impl b else mret (true, b).
Definition enable (s : side) (e : evs) : act bool := b ← bev s; '(r, b) ← bufferevent_enable e b; _ ← set_bev s b; mret r.
Definition disable (s : side) (e : evs) : act unit := b ← bev s; set_bev s (bufferevent_disable e b).

(** [evbuffer_add_buffer] to the output, which calls this if data was added. *)
Definition bufferevent_socket_outbuf_cb (b : bufferevent) : act bufferevent :=
  if EV_WRITE (enabled b) && negb (ev_write b) then r ← event_add false; mret (with_evs (ev_read b) r b) else mret b.
Definition bufferevent_write_buffer (s : side) (data : list Z) : act unit :=
  b ← bev s;
  match data with
  | [] => mret tt
  | _ => b ← bufferevent_socket_outbuf_cb (with_output (output b ++ data) b); set_bev s b
  end.

(** ** redsocks.c *)
Definition clamp_value (value min_val max_val : Z) : Z :=
  let value := if value <? min_val then min_val else value in if max_val <? value then max_val else value.

Definition the_inst (i : nat) : act redsocks_instance := l ← gets insts; lift (of_option (l !! i)).
Definition set_inst (i : nat) (x : redsocks_instance) : act unit := sets (fun w => with_insts (<[i := x]> (insts w)) w).
Definition set_listener (i : nat) (v : bool) : act unit :=
  x ← the_inst i; set_inst i (mkInst v (accept_backoff x) (tvdelay x) (accept_backoff_ms x)).
Definition set_accept_backoff (i : nat) (v : bool) : act unit :=
  x ← the_inst i; set_inst i (mkInst (listener x) v (tvdelay x) (accept_backoff_ms x)).
Definition set_pause (i : nat) (delay : Z) (v : bool) : act unit :=
  x ← the_inst i; set_inst i (mkInst (listener x) v delay (accept_backoff_ms x)).
Definition tracked_event_add (set : bool -> act unit) : act unit := r ← answer CEventAdd; when r (set true).
Definition tracked_event_del (set : bool -> act unit) : act unit := r ← answer CEventDel; when r (set false).
Definition redsocks_accept_backoff (i : nat) : act unit :=
  _ ← tracked_event_del (set_accept_backoff i); tracked_event_add (set_listener i).

(** The loop over the instances from [i] on. *)
Fixpoint close_loop (n i : nat) : act unit :=
  match n with
  | O => mret tt
  | S n =>
      x ← the_inst i;
      passed ← (if accept_backoff x then answer CBackoffPassed else mret false);
      if passed : bool then redsocks_accept_backoff i else close_loop n (S i)
  end.
Definition redsocks_close (s : side) : act unit :=
  x ← the_sock s;
  _ ← ASSERT (match status x with Open => true | _ => false end);
  _ ← set_sock s (mkSock Closed (got x) (wrote x) (eof x) (shut x));
  r ← answer CClose;
  when r (l ← gets insts; close_loop (length l) 0).

(** [bufferevent_free] and [free] are the end of [self]. *)
Definition redsocks_drop_client : act unit :=
  c ← the_client;
  _ ← (match client c with Some _ => redsocks_close Client | None => mret tt end);
  _ ← (match relay c with Some _ => redsocks_close Relay | None => mret tt end);
  put None.

Definition redsocks_shutdown (s : side) (evhow : evs) : act unit :=
  c ← the_client;
  _ ← when (negb (EV_READ evhow && negb (EV_WRITE evhow) && EV_WRITE (evshut_of s c)))
        (r ← answer CShutdown; x ← the_sock s;
         when r (set_sock s (mkSock (status x) (got x) (wrote x) (eof x) (evs_or (shut x) evhow))));
  _ ← disable s evhow;
  _ ← modify (fun c => with_evshut s (evs_or (evshut_of s c) evhow) c);
  c ← the_client;
  when (EV_READ (relay_evshut c) && EV_WRITE (relay_evshut c) && EV_READ (client_evshut c) && EV_WRITE (client_evshut c))
    redsocks_drop_client.

Definition redsocks_relay_readcb (from to : side) : act unit :=
  t ← bev to;
  if zlen (output t) <? high (wm_write t) then
    f ← bev from; _ ← set_bev from (with_input [] f); bufferevent_write_buffer to (input f)
  else disable from ev_read_only.
Definition redsocks_relay_writecb (from to : side) : act unit :=
  c ← the_client; f ← bev from; t ← bev to;
  if (zlen (input f) =? 0) && EV_READ (evshut_of from c) then redsocks_shutdown to ev_write_only
  else if zlen (output t) <? high (wm_write t) then
    _ ← set_bev from (with_input [] f); _ ← bufferevent_write_buffer to (input f);
    _ ← enable from ev_read_only; mret tt
  else mret tt.

Definition REDSOCKS_RELAY_HALFBUFF : Z := 4096.
Definition relay_bev (s : side) (b : bufferevent) : bufferevent :=
  with_cbs (Some (CRelayRead s)) (Some (CRelayWrite s))
    (with_marks (Mark 0 REDSOCKS_RELAY_HALFBUFF) (Mark 0 REDSOCKS_RELAY_HALFBUFF) b).
Definition redsocks_start_relay : act unit :=
  _ ← sets (fun w => with_me (with_relayed true (me w)) w);
  r ← bev Relay; c ← bev Client;
  _ ← set_bev Relay (relay_bev Relay r);
  _ ← set_bev Client (relay_bev Client c);
  ok1 ← enable Client ev_both;
  ok2 ← (if ok1 : bool then enable Relay ev_both else mret false);
  when (negb ok2) redsocks_drop_client.

(** Ghost: the application closed its side before data is relayed, or when data that it
    sent during the negotiation still waits in [input]. *)
Definition note_early : act unit :=
  f ← bev Client; t ← bev Relay;
  when (bool_decide (readcb t <> Some (CRelayRead Relay)) || (negb (zlen (input f) =? 0) && (zlen (output t) =? 0)))
    (sets (fun w => with_me (with_early true (me w)) w)).
Definition redsocks_event_error (s : side) (what : Z) : act unit :=
  if what =? Z.lor BEV_EVENT_READING BEV_EVENT_EOF then
    _ ← when (bool_decide (s = Client)) note_early;
    _ ← redsocks_shutdown s ev_read_only;
    c ← the_client;
    match bev_of (other s) c with
    | Some antiev => when (zlen (output antiev) =? 0) (redsocks_shutdown (other s) ev_write_only)
    | None => mret tt
    end
  else redsocks_drop_client.

Definition sizes_equal (a b : Z) : bool := a =? b.
Definition sizes_greater_equal (a b : Z) : bool := b <=? a.
(** On the input of the relay. [None] if the client was dropped. *)
Definition redsocks_read_expected (comparator : Z -> Z -> bool) (expected : Z) : act (option (list Z)) :=
  b ← bev Relay;
  if comparator (zlen (input b)) expected then
    let data := take (Z.to_nat expected) (input b) in
    _ ← set_bev Relay (with_input (drop (Z.to_nat expected) (input b)) b);
    _ ← ASSERT (zlen data =? expected);
    mret (Some data)
  else _ ← redsocks_drop_client; mret None.

Definition mkevbuffer (data : list Z) : act (option (list Z)) :=
  r ← answer CEvbuffer;
  if negb r then mret None else r ← answer CEvbuffer; mret (if r : bool then Some data else None).

(** To the relay, as all callers do. *)
Definition redsocks_write_helper_ex (mkmessage : option (act (option (list Z)))) (st wm_low wm_high : Z) : act bool :=
  buff ← (match mkmessage with Some mk => mk | None => mret (Some []) end);
  match buff with
  | None => _ ← redsocks_drop_client; mret false
  | Some buff =>
      _ ← (match mkmessage with Some _ => bufferevent_write_buffer Relay buff | None => mret tt end);
      _ ← modify (with_state st);
      b ← bev Relay;
      _ ← set_bev Relay (with_marks (Mark wm_low wm_high) (wm_write b) b);
      _ ← enable Relay ev_read_only;
      mret true
  end.
Definition redsocks_write_helper (mkmessage : option (act (option (list Z)))) (st wm_only : Z) : act unit :=
  _ ← redsocks_write_helper_ex mkmessage st wm_only wm_only; mret tt.

(** A protocol: [relay_subsys]. *)
Record relay_subsys := mkSubsys { ss_readcb : act unit; ss_writecb : act unit; ss_init : act unit }.

(** ** socks5.c *)
Definition socks5_new : Z := 0.
Definition socks5_method_sent : Z := 1.
Definition socks5_auth_sent : Z := 2.
Definition socks5_request_sent : Z := 3.
Definition socks5_skip_domain : Z := 4.
Definition socks5_skip_address : Z := 5.
Definition socks5_ver : Z := 5.
Definition socks5_auth_none : Z := 0.
Definition socks5_auth_password : Z := 2.
Definition socks5_auth_invalid : Z := 255.
Definition socks5_password_ver : Z := 1.
Definition socks5_password_passed : Z := 0.
Definition socks5_addrtype_ipv4 : Z := 1.
Definition socks5_addrtype_domain : Z := 3.
Definition socks5_addrtype_ipv6 : Z := 4.
Definition socks5_status_succeeded : Z := 0.
Definition socks5_cmd_connect : Z := 1.

Definition socks5_is_valid_cred (log pass : option (list Z)) : bool :=
  match log, pass with
  | Some l, Some p => if 255 <? zlen l then false else if 255 <? zlen p then false else true
  | _, _ => false
  end.
Definition config : act redsocks_config := c ← the_client; mret (cfg (instance c)).
Definition socks5_client_init : act unit :=
  conf ← config;
  _ ← modify (with_state socks5_new);
  modify (with_do_password (socks5_is_valid_cred (login conf) (password conf))).

(** [calloc] is not checked: the next line writes to what it returned. *)
Definition socks5_mkmethods_plain (pw : bool) : act (option (list Z)) :=
  r ← answer CCallocRequest;
  _ ← ASSERT r;
  mkevbuffer ([socks5_ver; 1 + (if pw then 1 else 0); socks5_auth_none] ++ (if pw then [socks5_auth_password] else [])).
Definition socks5_mkmethods : act (option (list Z)) := c ← the_client; socks5_mkmethods_plain (do_password c).
Definition socks5_mkpassword_plain (log pass : option (list Z)) : act (option (list Z)) :=
  l ← lift (of_option log); p ← lift (of_option pass);
  mkevbuffer ([socks5_password_ver; u8 (zlen l)] ++ l ++ [u8 (zlen p)] ++ p).
Definition socks5_mkpassword : act (option (list Z)) := conf ← config; socks5_mkpassword_plain (login conf) (password conf).
Definition socks5_mkcommand_plain (cmd : Z) (dest : sockaddr_in) : act (option (list Z)) :=
  mkevbuffer ([socks5_ver; cmd; 0; socks5_addrtype_ipv4] ++ sin_addr dest ++ sin_port dest).
Definition socks5_mkconnect : act (option (list Z)) := c ← the_client; socks5_mkcommand_plain socks5_cmd_connect (destaddr c).

Definition socks5_write_cb : act unit :=
  c ← the_client;
  when (state c =? socks5_new) (redsocks_write_helper (Some socks5_mkmethods) socks5_method_sent 2).

(** Whether there is an error to report. *)
Definition socks5_is_known_auth_method (ver method : Z) (pw : bool) : bool :=
  if negb (ver =? socks5_ver) then false
  else if method =? socks5_auth_invalid then false
  else if negb (method =? socks5_auth_none) && negb ((method =? socks5_auth_password) && pw) then false
  else true.
Definition socks5_read_auth_methods : act unit :=
  reply ← redsocks_read_expected sizes_equal 2;
  match reply with
  | None => mret tt
  | Some [ver; method] =>
      c ← the_client;
      if negb (socks5_is_known_auth_method ver method (do_password c)) then redsocks_drop_client
      else if method =? socks5_auth_none then redsocks_write_helper (Some socks5_mkconnect) socks5_request_sent 4
      else when (method =? socks5_auth_password) (redsocks_write_helper (Some socks5_mkpassword) socks5_auth_sent 2)
  | Some _ => lift Undef
  end.
Definition socks5_read_auth_reply : act unit :=
  reply ← redsocks_read_expected sizes_equal 2;
  match reply with
  | None => mret tt
  | Some [ver; status] =>
      if negb (ver =? socks5_password_ver) then redsocks_drop_client
      else if status =? socks5_password_passed then redsocks_write_helper (Some socks5_mkconnect) socks5_request_sent 4
      else redsocks_drop_client
  | Some _ => lift Undef
  end.
Definition socks5_read_reply : act unit :=
  reply ← redsocks_read_expected sizes_greater_equal 4;
  match reply with
  | None => mret tt
  | Some [ver; status; _; addrtype] =>
      if negb (ver =? socks5_ver) then redsocks_drop_client
      else if status =? socks5_status_succeeded then
        if addrtype =? socks5_addrtype_ipv4 then
          _ ← modify (with_to_skip 6); redsocks_write_helper None socks5_skip_address 6
        else if addrtype =? socks5_addrtype_ipv6 then
          _ ← modify (with_to_skip 18); redsocks_write_helper None socks5_skip_address 18
        else if addrtype =? socks5_addrtype_domain then redsocks_write_helper None socks5_skip_domain 1
        else redsocks_drop_client
      else redsocks_drop_client
  | Some _ => lift Undef
  end.
Definition socks5_read_cb : act unit :=
  c ← the_client;
  if state c =? socks5_method_sent then socks5_read_auth_methods
  else if state c =? socks5_auth_sent then socks5_read_auth_reply
  else if state c =? socks5_request_sent then socks5_read_reply
  else if state c =? socks5_skip_domain then
    x ← redsocks_read_expected sizes_greater_equal 1;
    match x with
    | None => mret tt
    | Some [size] => _ ← modify (with_to_skip (u8 size + 2)); redsocks_write_helper None socks5_skip_address (u8 size + 2)
    | Some _ => lift Undef
    end
  else if state c =? socks5_skip_address then
    x ← redsocks_read_expected sizes_greater_equal (to_skip c);
    match x with None => mret tt | Some _ => redsocks_start_relay end
  else redsocks_drop_client.
Definition socks5_subsys : relay_subsys := mkSubsys socks5_read_cb socks5_write_cb socks5_client_init.

(** ** socks4.c *)
Definition socks4_new : Z := 0.
Definition socks4_request_sent : Z := 1.
Definition socks4_reply_came : Z := 2.
Definition socks4_ver : Z := 4.
Definition socks4_cmd_connect : Z := 1.
Definition socks4_status_ok : Z := 90.

Definition socks4_client_init : act unit := modify (with_state socks4_new).
Definition socks4_read_cb : act unit :=
  c ← the_client;
  _ ← ASSERT (socks4_request_sent <=? state c);
  when (state c =? socks4_request_sent)
    (reply ← redsocks_read_expected sizes_greater_equal 8;
     match reply with
     | None => mret tt
     | Some (ver :: status :: _) =>
         _ ← modify (with_state socks4_reply_came);
         if negb (ver =? 0) then redsocks_drop_client
         else if status =? socks4_status_ok then redsocks_start_relay
         else redsocks_drop_client
     | Some _ => lift Undef
     end).
(** Here, too, [calloc] is not checked. *)
Definition socks4_mkconnect : act (option (list Z)) :=
  conf ← config; c ← the_client;
  let username := match login conf with Some l => l | None => [] end in
  r ← answer CCallocRequest;
  _ ← ASSERT r;
  mkevbuffer ([socks4_ver; socks4_cmd_connect] ++ sin_port (destaddr c) ++ sin_addr (destaddr c) ++ username ++ [0]).
Definition socks4_write_cb : act unit :=
  c ← the_client;
  if state c =? socks4_new then redsocks_write_helper (Some socks4_mkconnect) socks4_request_sent 8
  else when (socks4_request_sent <=? state c) (disable Relay ev_write_only).
Definition socks4_subsys : relay_subsys := mkSubsys socks4_read_cb socks4_write_cb socks4_client_init.

Definition relay_ss (i : nat) : relay_subsys := match type (cfg i) with socks4 => socks4_subsys | socks5 => socks5_subsys end.

(** ** Connections *)
Definition redsocks_relay_connected : act unit :=
  r ← answer CGetsockopt;          (* red_is_socket_connected_ok *)
  if negb r then redsocks_drop_client else
  c ← the_client; b ← bev Relay;
  _ ← set_bev Relay (with_cbs (Some CSubsysRead) (Some CSubsysWrite) b);
  ss_writecb (relay_ss (instance c)).

Definition open_sock (s : side) : act unit := set_sock s (mkSock Open [] [] false no_ev).
(** The first call that fails closes the socket. *)
Definition red_connect_relay : act (option bufferevent) :=
  r ← answer CSocket;
  if negb r then mret None else
  _ ← open_sock Relay;
  r1 ← answer CFcntl; r2 ← answer CSetsockopt; r3 ← answer CConnect; r4 ← answer CBufferevent;
  if negb (r1 && r2 && r3 && r4) then _ ← redsocks_close Relay; mret None else
  '(r, b) ← bufferevent_enable ev_write_only (bufferevent_new None (Some CConnected));
  if negb r then _ ← redsocks_close Relay; mret None else mret (Some b).
Definition redsocks_connect_relay : act unit :=
  b ← red_connect_relay;
  _ ← modify (with_bev Relay b);
  match b with None => redsocks_drop_client | Some _ => mret tt end.

(** The part after [accept], on the socket of the application. *)
Definition new_client (i : nat) (dest : sockaddr_in) : redsocks_client := mkClient i None None dest 0 no_ev no_ev false 0.
Definition accepted (i : nat) (dest : sockaddr_in) : act unit :=
  _ ← open_sock Client;
  x ← the_inst i;
  _ ← set_inst i (mkInst (listener x) (accept_backoff x) (tvdelay x) 0);
  r1 ← answer CGetsockname; r2 ← answer CGetdestaddr; r3 ← answer CSetsockopt; r4 ← answer CCalloc;
  if negb (r1 && r2 && r3 && r4) then redsocks_close Client else
  _ ← put (Some (new_client i dest));
  _ ← ss_init (relay_ss i);
  r1 ← answer CTime; r2 ← answer CBufferevent;
  if negb (r1 && r2) then _ ← redsocks_drop_client; redsocks_close Client else
  _ ← set_bev Client (bufferevent_new None None);
  r ← enable Client ev_read_only;
  if negb r then redsocks_drop_client else redsocks_connect_relay.
(** [errno] says whether there was a lack of descriptors or memory; [rnd] is what
    [random] returns, a number of 31 bits. The remainder by zero is undefined. *)
Definition accept_failed (i : nat) (lack : bool) (rnd : Z) : act unit :=
  when lack
    (x ← the_inst i;
     let ms := u16 (Z.shiftl (accept_backoff_ms x) 1 + 1) in
     let ms := clamp_value ms (min_backoff_ms (cfg i)) (max_backoff_ms (cfg i)) in
     _ ← set_inst i (mkInst (listener x) (accept_backoff x) (tvdelay x) ms);
     _ ← ASSERT (negb (ms =? 0));
     let delay := (rnd mod 2 ^ 31) mod ms + 1 in
     _ ← tracked_event_del (set_listener i);
     tracked_event_add (set_pause i delay)).
Inductive accept_result := AcceptFailed (lack : bool) (rnd : Z) | Accepted (dest : sockaddr_in).
Definition redsocks_accept_client (i : nat) (res : accept_result) : act unit :=
  match res with AcceptFailed lack rnd => accept_failed i lack rnd | Accepted dest => accepted i dest end.

(** ** libevent: running the callbacks *)
Definition run_callback (cb : option callback) : act unit :=
  match cb with
  | None => mret tt
  | Some CConnected => redsocks_relay_connected
  | Some CSubsysRead => c ← the_client; ss_readcb (relay_ss (instance c))
  | Some CSubsysWrite => c ← the_client; ss_writecb (relay_ss (instance c))
  | Some (CRelayRead from) => redsocks_relay_readcb from (other from)
  | Some (CRelayWrite to) => redsocks_relay_writecb (other to) to
  end.

(** What the system answers to [readv] and [writev]. *)
Inductive read_result := RData (data : list Z) | REof | RAgain | RError.
Inductive write_result := WTook (n : Z) | WNothing | WAgain | WError.
(** [evbuffer_read]: at most [howmuch] bytes; what does not fit stays in the socket. *)
Definition evbuffer_read (s : side) (howmuch : Z) (r : read_result) : act read_result :=
  x ← the_sock s;
  let r := match r with
           | RData data => match take (Z.to_nat (Z.min howmuch EVBUFFER_MAX_READ)) data with [] => REof | d => RData d end
           | r => r
           end in
  let r := match r with RData _ => if eof x then REof else r | _ => r end in
  match r with
  | RData data =>
      _ ← set_sock s (mkSock (status x) (got x ++ data) (wrote x) (eof x) (shut x));
      b ← bev s; _ ← set_bev s (with_input (input b ++ data) b); mret r
  | REof => _ ← set_sock s (mkSock (status x) (got x) (wrote x) true (shut x)); mret r
  | _ => mret r
  end.
Definition evbuffer_write_atmost (s : side) (atmost : Z) (r : write_result) : act write_result :=
  x ← the_sock s; b ← bev s;
  let howmuch := Z.min atmost (zlen (output b)) in
  let r := match r with WTook n => if n <=? 0 then WNothing else WTook (Z.min n howmuch) | r => r end in
  let r := match r with WTook _ | WNothing => if EV_WRITE (shut x) then WError else r | _ => r end in
  match r with
  | WTook n =>
      _ ← set_sock s (mkSock (status x) (got x) (wrote x ++ take (Z.to_nat n) (output b)) (eof x) (shut x));
      _ ← set_bev s (with_output (drop (Z.to_nat n) (output b)) b); mret r
  | _ => mret r
  end.

(** [what] is what was read or went wrong. *)
Definition bufferevent_readcb (s : side) (r : read_result) : act unit :=
  b ← bev s;
  let howmuch := high (wm_read b) - zlen (input b) in
  if negb (high (wm_read b) =? 0) && (howmuch <=? 0) then set_bev s (bufferevent_wm_suspend_read b) else
  let howmuch := if high (wm_read b) =? 0 then MAX_TO_READ_EVER else Z.min howmuch MAX_TO_READ_EVER in
  if read_suspended b then mret tt else
  r ← evbuffer_read s howmuch r;
  match r with
  | RAgain => mret tt
  | RError => _ ← disable s ev_read_only; redsocks_event_error s (Z.lor BEV_EVENT_READING BEV_EVENT_ERROR)
  | REof => _ ← disable s ev_read_only; redsocks_event_error s (Z.lor BEV_EVENT_READING BEV_EVENT_EOF)
  | RData _ => b ← bev s; when (low (wm_read b) <=? zlen (input b)) (run_callback (readcb b))
  end.
Definition event_del_write (s : side) : act unit := b ← bev s; set_bev s (with_evs (ev_read b) false b).
Definition bufferevent_writecb (s : side) (r : write_result) : act unit :=
  b ← bev s;
  r ← (if zlen (output b) =? 0 then mret None else r ← evbuffer_write_atmost s MAX_TO_WRITE_EVER r; mret (Some r));
  match r with
  | Some WAgain => b ← bev s; when (zlen (output b) =? 0) (event_del_write s)
  | Some WError => _ ← disable s ev_write_only; redsocks_event_error s (Z.lor BEV_EVENT_WRITING BEV_EVENT_ERROR)
  | Some WNothing => _ ← disable s ev_write_only; redsocks_event_error s (Z.lor BEV_EVENT_WRITING BEV_EVENT_EOF)
  | None | Some (WTook _) =>
      b ← bev s;
      _ ← when (zlen (output b) =? 0) (event_del_write s);
      when (zlen (output b) <=? low (wm_write b)) (run_callback (writecb b))
  end.

(** ** Events *)
Inductive event := Readable (s : side) (r : read_result) | Writable (s : side) (r : write_result).
(** An event that is not pending does not happen. *)
Definition pending (e : event) (k : conn) : bool :=
  match self k with
  | None => false
  | Some c =>
      match e with
      | Readable s _ => match bev_of s c with Some b => ev_read b | None => false end
      | Writable s _ => match bev_of s c with Some b => ev_write b | None => false end
      end
  end.
Definition handle (e : event) : act unit :=
  match e with Readable s r => bufferevent_readcb s r | Writable s r => bufferevent_writecb s r end.
Definition fire (e : event) : act unit := fun w => if pending e (me w) then handle e w else Ret (tt, w).
End code.

(** The whole program: connections share the instances. *)
Record system := mkSystem { conns : gmap nat conn; sys_insts : list redsocks_instance; sys_asked : nat }.
Inductive sys_event := Conn (k : nat) (e : event) | AcceptEvent (i k : nat) (res : accept_result) | BackoffTimer (i : nat).
Definition unused_sock : sock := mkSock Unused [] [] false no_ev.
Definition new_conn (i : nat) (dest : sockaddr_in) : conn := mkConn None unused_sock unused_sock false false i dest.
(** Run a handler for one connection, or for none. *)
Definition on_conn (k : nat) (c : conn) (m : prog world unit) (s : system) : cres system :=
  '(_, w) ← m (mkW c (sys_insts s) (sys_asked s)); Ret (mkSystem (<[k := me w]> (conns s)) (insts w) (asked w)).
Definition on_none (m : prog world unit) (s : system) : cres system :=
  '(_, w) ← m (mkW (new_conn 0 (mkAddr [] [])) (sys_insts s) (sys_asked s)); Ret (mkSystem (conns s) (insts w) (asked w)).
Definition sys_step (ok : call -> nat -> bool) (cfg : nat -> redsocks_config) (e : sys_event) (s : system) : cres system :=
  match e with
  | Conn k e => match conns s !! k with Some c => on_conn k c (fire ok cfg e) s | None => Ret s end
  | AcceptEvent i k res =>
      match conns s !! k, sys_insts s !! i with
      | None, Some x =>
          if listener x then
            match res with
            | Accepted dest => on_conn k (new_conn i dest) (redsocks_accept_client ok cfg i res) s
            | AcceptFailed _ _ => on_none (redsocks_accept_client ok cfg i res) s
            end
          else Ret s
      | _, _ => Ret s
      end
  | BackoffTimer i =>
      match sys_insts s !! i with
      | Some x => if accept_backoff x then on_none (redsocks_accept_backoff ok i) s else Ret s
      | None => Ret s
      end
  end.
Fixpoint sys_run (ok : call -> nat -> bool) (cfg : nat -> redsocks_config) (es : list sys_event) (s : system) : cres system :=
  match es with [] => Ret s | e :: es => s ← sys_step ok cfg e s; sys_run ok cfg es s end.
(** After [redsocks_init_instance] of [n] instances. *)
Definition init (n : nat) : system := mkSystem ∅ (replicate n (mkInst true false 0 0)) 0.
End Redsocks.
