(* ===== verification/RedsocksInv.v ===== *)
(** * redsocks: the invariant of a connection

    The state of a connection between events, and that every handler of Redsocks.v
    keeps it. The protocols are described by the class [RelaySubsys]; the proofs of
    this file use only its laws, which RedsocksSocks.v proves for socks5 and socks4. *)
From stdpp Require Import gmap.
From S2P Require Import Prelude Handlers Redsocks.
Local Open Scope Z_scope.

Module RedsocksInv.
Export Redsocks.
#[local] Abbreviation act := (prog world).

Section invariant.
Context (ok : call -> nat -> bool) (cfg : nat -> redsocks_config).

(** Nothing that libevent does fails. *)
Definition events_ok : Prop := forall n, ok CEventAdd n = true /\ ok CEventDel n = true.
(** The allocations that the code does not check succeed. *)
Definition requests_ok : Prop := forall n, ok CCallocRequest n = true.

(** ** Instances *)
Definition backoff_ok (conf : redsocks_config) : Prop := 0 < min_backoff_ms conf <= max_backoff_ms conf.
Definition inst_ok (i : nat) (x : redsocks_instance) : Prop :=
  (events_ok -> accept_backoff x = negb (listener x)) /\
  (accept_backoff_ms x = 0 \/ min_backoff_ms (cfg i) <= accept_backoff_ms x <= max_backoff_ms (cfg i)) /\
  (accept_backoff x = true -> 1 <= tvdelay x <= max_backoff_ms (cfg i)) /\
  (events_ok -> accept_backoff x = true -> tvdelay x <= accept_backoff_ms x).
Definition insts_ok (l : list redsocks_instance) : Prop := forall i x, l !! i = Some x -> inst_ok i x.

(** ** Rules for the calls *)
Lemma wp_ask c k l n (Q : bool -> world -> Prop) : Q (ok c n) (mkW k l (S n)) -> wp (answer ok c) (mkW k l n) Q.
Proof. intros H. by eexists _, _. Qed.
Lemma wp_the_client c k l n (Q : redsocks_client -> world -> Prop) : self k = Some c -> Q c (mkW k l n) -> wp the_client (mkW k l n) Q.
Proof. intros E H. unfold the_client. apply wp_bind, wp_gets. by apply (wp_some _ c). Qed.
Lemma wp_put o k l n (Q : unit -> world -> Prop) : Q tt (mkW (with_self o k) l n) -> wp (put o) (mkW k l n) Q.
Proof. intros H. by apply wp_sets. Qed.
Lemma wp_update f c k l n (Q : unit -> world -> Prop) :
  self k = Some c -> Q tt (mkW (with_self (Some (f c)) k) l n) -> wp (modify f) (mkW k l n) Q.
Proof. intros E H. unfold modify. eapply wp_bind, wp_the_client; [done|]. by apply wp_put. Qed.
Lemma wp_bev s c b k l n (Q : bufferevent -> world -> Prop) :
  self k = Some c -> bev_of s c = Some b -> Q b (mkW k l n) -> wp (bev s) (mkW k l n) Q.
Proof. intros E E2 H. unfold bev. eapply wp_bind, wp_the_client; [done|]. by apply (wp_some _ b). Qed.
Lemma wp_set_bev s b c k l n (Q : unit -> world -> Prop) :
  self k = Some c -> Q tt (mkW (with_self (Some (with_bev s (Some b) c)) k) l n) -> wp (set_bev s b) (mkW k l n) Q.
Proof. apply wp_update. Qed.
Lemma wp_the_sock s k l n (Q : sock -> world -> Prop) : Q (sock_of s k) (mkW k l n) -> wp (the_sock s) (mkW k l n) Q.
Proof. intros H. by apply wp_gets. Qed.
Lemma wp_set_sock s x k l n (Q : unit -> world -> Prop) : Q tt (mkW (with_sock s x k) l n) -> wp (set_sock s x) (mkW k l n) Q.
Proof. intros H. by apply wp_sets. Qed.

(** ** libevent *)
(** [b'] is [b] with the events [e] enabled. *)
Definition enabled_as (e : evs) (r : bool) (b b' : bufferevent) : Prop :=
  exists er ew, b' = with_evs er ew (with_enabled (evs_or (enabled b) e) b) /\
    (er = true -> ev_read b = true \/ (EV_READ e = true /\ read_suspended b = false)) /\
    (ev_read b = true -> er = true) /\ (ev_write b = true -> ew = true) /\
    (events_ok -> r = true /\ (EV_READ e = true -> read_suspended b = false -> er = true) /\ (EV_WRITE e = true -> ew = true)).
Lemma wp_event_add p k l n (Q : bool -> world -> Prop) :
  (forall r n', (p = true -> r = true) -> (events_ok -> r = true) -> Q r (mkW k l n')) -> wp (event_add ok p) (mkW k l n) Q.
Proof.
  intros H. unfold event_add. destruct p; [by apply wp_ret, H|]. apply wp_ask, H; [done|]. intros Ho. apply Ho.
Qed.
Local Ltac solve_evs := split_and!; first [reflexivity | by (match goal with b : bufferevent |- _ => destruct b end) | intuition congruence].
Lemma bufferevent_enable_ok e b k l n (Q : bool * bufferevent -> world -> Prop) :
  (forall r b' n', enabled_as e r b b' -> Q (r, b') (mkW k l n')) -> wp (bufferevent_enable ok e b) (mkW k l n) Q.
Proof.
  intros H. unfold bufferevent_enable. destruct (EV_READ e && negb (read_suspended b)) eqn:Er; cbn.
  - apply andb_prop in Er as [Er Es%negb_true_iff]. unfold be_socket_enable. cbn. apply wp_bind, wp_event_add. intros r n1 H1 H2.
    destruct r; cbn.
    + apply wp_bind. destruct (EV_WRITE e) eqn:Ew.
      * apply wp_event_add. intros r n2 H3 H4. apply wp_ret, H. exists true, r. solve_evs.
      * apply wp_ret, wp_ret, H. exists true, (ev_write b). solve_evs.
    + apply wp_ret, H. exists false, (ev_write b). solve_evs.
  - assert (Hr : EV_READ e = true -> read_suspended b = false -> False) by (intros E1 E2; by rewrite E1, E2 in Er).
    destruct (EV_WRITE e) eqn:Ew; cbn.
    + unfold be_socket_enable. cbn. apply wp_bind, wp_ret. apply wp_bind, wp_event_add. intros r n1 H1 H2. apply wp_ret, H.
      exists (ev_read b), r. solve_evs.
    + apply wp_ret, H. exists (ev_read b), (ev_write b). solve_evs.
Qed.

Lemma same_self c k : self k = Some c -> with_self (Some c) k = k.
Proof. intros E. destruct k. cbn in *. by rewrite E. Qed.
Lemma same_bev s b c : bev_of s c = Some b -> with_bev s (Some b) c = c.
Proof. intros E. destruct s, c; cbn in *; by rewrite E. Qed.
Lemma wp_enable s e c b k l n (Q : bool -> world -> Prop) : self k = Some c -> bev_of s c = Some b ->
  (forall r b' n', enabled_as e r b b' -> Q r (mkW (with_self (Some (with_bev s (Some b') c)) k) l n')) -> wp (enable ok s e) (mkW k l n) Q.
Proof.
  intros E E2 H. unfold enable. eapply wp_bind, wp_bev; [done..|]. apply wp_bind, bufferevent_enable_ok. intros r b' n' Hb.
  eapply wp_bind, wp_set_bev; [done|]. apply wp_ret. by apply H.
Qed.
Lemma wp_disable s e c b k l n (Q : unit -> world -> Prop) : self k = Some c -> bev_of s c = Some b ->
  Q tt (mkW (with_self (Some (with_bev s (Some (bufferevent_disable e b)) c)) k) l n) -> wp (disable s e) (mkW k l n) Q.
Proof. intros E E2 H. unfold disable. eapply wp_bind, wp_bev; [done..|]. by eapply wp_set_bev. Qed.

(** [b'] is [b] with [data] in its output. *)
Definition fed (data : list Z) (b b' : bufferevent) : Prop :=
  exists ew, b' = with_evs (ev_read b) ew (with_output (output b ++ data) b) /\ (ev_write b = true -> ew = true) /\
    (events_ok -> data <> [] -> EV_WRITE (enabled b) = true -> ew = true).
Lemma wp_write_buffer s data c b k l n (Q : unit -> world -> Prop) : self k = Some c -> bev_of s c = Some b ->
  (forall b' n', fed data b b' -> Q tt (mkW (with_self (Some (with_bev s (Some b') c)) k) l n')) ->
  wp (bufferevent_write_buffer ok s data) (mkW k l n) Q.
Proof.
  intros E E2 H. unfold bufferevent_write_buffer. eapply wp_bind, wp_bev; [done..|]. destruct data as [|x data].
  { apply wp_ret. specialize (H b n). rewrite same_bev, same_self in H by done. apply H. exists (ev_write b).
    rewrite app_nil_r. split_and!; [by destruct b|done|done]. }
  apply wp_bind. unfold bufferevent_socket_outbuf_cb. cbn. destruct (EV_WRITE (enabled b) && negb (ev_write b)) eqn:Ew.
  - apply wp_bind, (wp_event_add false). intros r n' _ Ho. apply wp_ret. eapply wp_set_bev; [done|]. apply H.
    apply andb_prop in Ew as [_ Ew%negb_true_iff]. exists r. split_and!; [done|congruence|auto].
  - apply wp_ret. eapply wp_set_bev; [done|]. apply H. exists (ev_write b). split_and!; [done|done|].
    intros _ _ E3. rewrite E3 in Ew. by destruct (ev_write b).
Qed.

(** ** Instances *)
Lemma wp_the_inst i x k l n (Q : redsocks_instance -> world -> Prop) : l !! i = Some x -> Q x (mkW k l n) -> wp (the_inst i) (mkW k l n) Q.
Proof. intros E H. unfold the_inst. apply wp_bind, wp_gets. by apply (wp_some _ x). Qed.
Lemma wp_set_inst i x k l n (Q : unit -> world -> Prop) : Q tt (mkW k (<[i := x]> l) n) -> wp (set_inst i x) (mkW k l n) Q.
Proof. intros H. by apply wp_sets. Qed.
Lemma insts_ok_insert i x l : insts_ok l -> inst_ok i x -> insts_ok (<[i := x]> l).
Proof. intros Hl Hx j y [(-> & -> & _)|[_ E]]%list_lookup_insert_Some; [done|]. by apply Hl. Qed.
(** One event is deleted and the other added. *)
Lemma exchange_ok (set1 set2 : bool -> act unit) i k l n x (f1 f2 : redsocks_instance -> bool -> redsocks_instance) :
  l !! i = Some x ->
  (forall b y l n Q, l !! i = Some y -> Q tt (mkW k (<[i := f1 y b]> l) n) -> wp (set1 b) (mkW k l n) Q) ->
  (forall b y l n Q, l !! i = Some y -> Q tt (mkW k (<[i := f2 y b]> l) n) -> wp (set2 b) (mkW k l n) Q) ->
  wp (_ ← tracked_event_del ok set1; tracked_event_add ok set2) (mkW k l n)
    (fun _ w => exists x' n', w = mkW k (<[i := x']> l) n' /\
       (x' = x \/ x' = f1 x false \/ x' = f2 x true \/ x' = f2 (f1 x false) true) /\ (events_ok -> x' = f2 (f1 x false) true)).
Proof.
  intros E H1 H2. unfold tracked_event_del, tracked_event_add. apply wp_bind, wp_bind, wp_ask.
  assert (Hi : (i < length l)%nat) by (by eapply lookup_lt_Some).
  assert (Hs : forall y, (<[i := y]> l : list _) !! i = Some y) by (intros; by apply list_lookup_insert_eq).
  apply wp_when.
  - intros _. eapply H1; [done|]. apply wp_bind, wp_ask. apply wp_when.
    + intros _. eapply H2; [apply Hs|]. eexists _, _. rewrite list_insert_insert_eq. split; [done|]. split; [auto 6|done].
    + intros F. eexists _, _. split; [done|]. split; [auto|]. intros Ho. destruct (Ho (S n)). congruence.
  - intros F. apply wp_bind, wp_ask. apply wp_when.
    + intros _. eapply H2; [done|]. eexists _, _. split; [done|]. split; [auto|]. intros Ho. destruct (Ho n). congruence.
    + intros _. exists x. eexists. rewrite list_insert_id by done. split; [done|]. split; [auto|]. intros Ho. destruct (Ho n). congruence.
Qed.
Lemma wp_set_listener i b y k l n (Q : unit -> world -> Prop) : l !! i = Some y ->
  Q tt (mkW k (<[i := mkInst b (accept_backoff y) (tvdelay y) (accept_backoff_ms y)]> l) n) -> wp (set_listener i b) (mkW k l n) Q.
Proof. intros E H. unfold set_listener. eapply wp_bind, wp_the_inst; [done|]. by apply wp_set_inst. Qed.
Lemma wp_set_accept_backoff i b y k l n (Q : unit -> world -> Prop) : l !! i = Some y ->
  Q tt (mkW k (<[i := mkInst (listener y) b (tvdelay y) (accept_backoff_ms y)]> l) n) -> wp (set_accept_backoff i b) (mkW k l n) Q.
Proof. intros E H. unfold set_accept_backoff. eapply wp_bind, wp_the_inst; [done|]. by apply wp_set_inst. Qed.
Lemma wp_set_pause i d b y k l n (Q : unit -> world -> Prop) : l !! i = Some y ->
  Q tt (mkW k (<[i := mkInst (listener y) b d (accept_backoff_ms y)]> l) n) -> wp (set_pause i d b) (mkW k l n) Q.
Proof. intros E H. unfold set_pause. eapply wp_bind, wp_the_inst; [done|]. by apply wp_set_inst. Qed.

(** What other connections may do to the instances. *)
Definition insts_kept (l l' : list redsocks_instance) : Prop := insts_ok l' /\ length l' = length l.
Lemma accept_backoff_kept i x k l n : insts_ok l -> l !! i = Some x ->
  wp (redsocks_accept_backoff ok i) (mkW k l n) (fun _ w => exists l' n', w = mkW k l' n' /\ insts_kept l l').
Proof.
  intros Hl E. unfold redsocks_accept_backoff. eapply wp_mono.
  { eapply (exchange_ok _ _ i _ _ _ x (fun y b => mkInst (listener y) b (tvdelay y) (accept_backoff_ms y)) (fun y b => mkInst b (accept_backoff y) (tvdelay y) (accept_backoff_ms y))); [done| |].
    - intros b y l' n' Q. apply wp_set_accept_backoff.
    - intros b y l' n' Q. apply wp_set_listener. }
  intros _ w' (x' & n' & -> & Hx & Ho). eexists _, _. split; [done|]. split; [|by rewrite length_insert].
  apply insts_ok_insert; [done|]. destruct (Hl _ _ E) as (H1 & H2 & H3 & H4). split; [by intros ->%Ho|].
  split; [by destruct Hx as [->|[->|[->| ->]]]|]. split; [by destruct Hx as [->|[->|[->| ->]]]|]. by intros ->%Ho.
Qed.
Lemma close_loop_kept m i k l n : insts_ok l -> (i + m <= length l)%nat ->
  wp (close_loop ok m i) (mkW k l n) (fun _ w => exists l' n', w = mkW k l' n' /\ insts_kept l l').
Proof.
  intros Hl. revert i n. induction m as [|m IH]; intros i n Hm; cbn; [apply wp_ret; by eexists _, _|].
  destruct (lookup_lt_is_Some_2 l i) as [x E]; [lia|]. eapply wp_bind, wp_the_inst; [done|]. apply wp_bind.
  assert (Hrest : forall n, wp (close_loop ok m (S i)) (mkW k l n) (fun _ w => exists l' n', w = mkW k l' n' /\ insts_kept l l')) by (intros; apply IH; lia).
  destruct (accept_backoff x); [apply wp_ask|apply wp_ret; apply Hrest]. destruct (ok CBackoffPassed n); [|apply Hrest].
  by eapply accept_backoff_kept.
Qed.
Definition closed (x : sock) : sock := mkSock Closed (got x) (wrote x) (eof x) (shut x).
Lemma redsocks_close_ok s k l n : insts_ok l -> status (sock_of s k) = Open ->
  wp (redsocks_close ok s) (mkW k l n) (fun _ w => exists l' n', w = mkW (with_sock s (closed (sock_of s k)) k) l' n' /\ insts_kept l l').
Proof.
  intros Hl E. unfold redsocks_close. apply wp_bind, wp_the_sock. apply wp_bind, wp_ASSERT; [by rewrite E|].
  apply wp_bind, wp_set_sock. apply wp_bind, wp_ask. apply wp_when; [|by eexists _, _]. intros _. apply wp_bind, wp_gets.
  by apply close_loop_kept.
Qed.
(** A connection whose client was dropped. *)
Definition dropped (k : conn) : conn := mkConn None (closed (sock_client k)) (closed (sock_relay k)) (early k) (relayed k) (inst_of k) (dest_of k).
Lemma insts_kept_trans l1 l2 l3 : insts_kept l1 l2 -> insts_kept l2 l3 -> insts_kept l1 l3.
Proof. intros [? E1] [? E2]. split; [done|congruence]. Qed.
Lemma drop_client_ok c bc br k l n : insts_ok l -> self k = Some c -> client c = Some bc -> relay c = Some br ->
  status (sock_client k) = Open -> status (sock_relay k) = Open ->
  wp (redsocks_drop_client ok) (mkW k l n) (fun _ w => exists l' n', w = mkW (dropped k) l' n' /\ insts_kept l l').
Proof.
  intros Hl E Ec Er Oc Or. unfold redsocks_drop_client. eapply wp_bind, wp_the_client; [done|]. rewrite Ec, Er.
  apply wp_bind. eapply wp_mono; [by apply redsocks_close_ok|]. intros _ w' (l1 & n1 & -> & K1).
  apply wp_bind. eapply wp_mono; [apply redsocks_close_ok; [apply K1|done]|]. intros _ w' (l2 & n2 & -> & K2).
  apply wp_put. eexists _, _. split; [by destruct k|]. by eapply insts_kept_trans.
Qed.

Definition with_shut (e : evs) (x : sock) : sock := mkSock (status x) (got x) (wrote x) (eof x) e.
(** Strip one call off a handler whose client is known. *)
Local Ltac rs1 :=
  lazymatch goal with
  | |- wp (_ ≫= _) _ _ => apply wp_bind
  | |- wp (mret _) _ _ => apply wp_ret
  | |- wp the_client _ _ => eapply wp_the_client; [reflexivity|]
  | |- wp (bev _) _ _ => eapply wp_bev; [reflexivity|reflexivity|]
  | |- wp (set_bev _ _) _ _ => eapply wp_set_bev; [reflexivity|]
  | |- wp (modify _) _ _ => eapply wp_update; [reflexivity|]
  | |- wp (disable _ _) _ _ => eapply wp_disable; [reflexivity|reflexivity|]
  | |- wp (the_sock _) _ _ => apply wp_the_sock
  | |- wp (set_sock _ _) _ _ => apply wp_set_sock
  | |- wp (answer _ _) _ _ => apply wp_ask
  | |- wp (put _) _ _ => apply wp_put
  end.
Local Ltac conns := cbn [with_self with_bev with_evshut with_sock with_state with_to_skip with_do_password with_early with_relayed self sock_client sock_relay early relayed inst_of dest_of
  sock_of bev_of evshut_of client relay instance destaddr state client_evshut relay_evshut do_password to_skip other].
Local Ltac rs := repeat (rs1; conns).
Local Ltac bevs := cbn [with_input with_output with_evs with_enabled with_marks with_cbs with_suspended bufferevent_disable be_socket_disable bufferevent_wm_suspend_read
  ev_read ev_write input output wm_read wm_write readcb writecb enabled read_suspended EV_READ EV_WRITE evs_or evs_diff ev_read_only ev_write_only
  ev_both no_ev low high status got wrote eof shut with_shut closed
  with_self with_bev with_evshut with_sock with_state with_to_skip with_do_password with_early with_relayed self sock_client sock_relay early relayed inst_of dest_of
  sock_of bev_of evshut_of client relay instance destaddr state client_evshut relay_evshut do_password to_skip other negb andb orb].

(** ** Protocols *)
(** [mk] makes the message [msg], or fails. *)
Definition makes (mk : act (option (list Z))) (c : redsocks_client) (msg : list Z) : Prop :=
  forall k l n, self k = Some c ->
    wp mk (mkW k l n) (fun r w => exists n', w = mkW k l n' /\ (r = None \/ r = Some msg)).
(** The input of the relay was consumed; the protocol may change its own members. *)
Definition consumed (c : redsocks_client) (br : bufferevent) (st skip : Z) : redsocks_client :=
  with_state st (with_to_skip skip (with_bev Relay (Some (with_input [] br)) c)).

(** What redsocks.c expects of a protocol: [dialogue dest M R fin] says that the messages
    [M] were sent and the replies [R] received, and whether the negotiation succeeded;
    [talk] describes the state of a client after them, when a reply of [wm] bytes is
    expected. The callbacks end in one of the calls of redsocks.c. *)
Class RelaySubsys (i : nat) (ss : relay_subsys) := {
  dialogue : sockaddr_in -> list Z -> list Z -> bool -> Prop;
  fresh : Z -> bool -> Prop;
  talk : sockaddr_in -> Z -> bool -> Z -> Z -> list Z -> list Z -> Prop;
  sends : Z -> bool;
  dialogue_start dest : dialogue dest [] [] false;
  talk_dialogue dest st pw skip wm M R : talk dest st pw skip wm M R -> 0 < wm /\ dialogue dest M R false;
  init_law c k l n : self k = Some c -> instance c = i ->
    wp (ss_init ss) (mkW k l n) (fun _ w => exists st pw,
      w = mkW (with_self (Some (with_do_password pw (with_state st c))) k) l n /\ fresh st pw);
  first_law c k l n (Q : unit -> world -> Prop) : self k = Some c -> instance c = i -> fresh (state c) (do_password c) ->
    (forall mk msg st wm, makes mk c msg -> talk (destaddr c) st (do_password c) (to_skip c) wm msg [] ->
       wp (redsocks_write_helper ok (Some mk) st wm) (mkW k l n) Q) ->
    wp (ss_writecb ss) (mkW k l n) Q;
  write_law c wm M R k l n (Q : unit -> world -> Prop) : self k = Some c -> instance c = i ->
    talk (destaddr c) (state c) (do_password c) (to_skip c) wm M R ->
    Q tt (mkW k l n) -> (sends (state c) = false -> wp (disable Relay ev_write_only) (mkW k l n) Q) ->
    wp (ss_writecb ss) (mkW k l n) Q;
  read_law c br wm M R k l n (Q : unit -> world -> Prop) : self k = Some c -> instance c = i -> relay c = Some br ->
    talk (destaddr c) (state c) (do_password c) (to_skip c) wm M R -> zlen (input br) = wm ->
    (forall st skip, wp (redsocks_drop_client ok) (mkW (with_self (Some (consumed c br st skip)) k) l n) Q) ->
    (forall mk msg st skip st' wm', sends (state c) = true -> makes mk (consumed c br st skip) msg ->
       talk (destaddr c) st' (do_password c) skip wm' (M ++ msg) (R ++ input br) ->
       wp (redsocks_write_helper ok (Some mk) st' wm') (mkW (with_self (Some (consumed c br st skip)) k) l n) Q) ->
    (forall st skip st' wm', (sends st' = true -> sends (state c) = true) ->
       talk (destaddr c) st' (do_password c) skip wm' M (R ++ input br) ->
       wp (redsocks_write_helper ok None st' wm') (mkW (with_self (Some (consumed c br st skip)) k) l n) Q) ->
    (forall st skip, dialogue (destaddr c) M (R ++ input br) true ->
       wp (redsocks_start_relay ok) (mkW (with_self (Some (consumed c br st skip)) k) l n) Q) ->
    wp (ss_readcb ss) (mkW k l n) Q;
}.
#[local] Arguments dialogue i {ss _}.
#[local] Arguments fresh i {ss _}.
#[local] Arguments talk i {ss _}.
#[local] Arguments sends i {ss _}.
Context {Hss : forall i, RelaySubsys i (relay_ss ok cfg i)}.

(** ** The state of a connection *)

(** The bufferevent of the application before data is relayed. *)
Record unrelayed (b : bufferevent) (x : sock) : Prop := {
  u_readcb : readcb b = None; u_writecb : writecb b = None;
  u_output : output b = []; u_wrote : wrote x = []; u_input : input b = got x;
  u_wm : wm_read b = Mark 0 0; u_wm' : wm_write b = Mark 0 0; u_susp : read_suspended b = false;
}.
Record relays (s : side) (b : bufferevent) : Prop := {
  r_readcb : readcb b = Some (CRelayRead s); r_writecb : writecb b = Some (CRelayWrite s);
  r_wm : wm_read b = Mark 0 REDSOCKS_RELAY_HALFBUFF; r_wm' : wm_write b = Mark 0 REDSOCKS_RELAY_HALFBUFF;
}.
(** One direction: [fR] and [tW] tell whether the end of the stream was seen on the one side
    and passed on to the other; [inp] and [out] are the buffers. *)
Record dir (fR tW : bool) (inp : list Z) (evr susp : bool) (out : list Z) (enw evw : bool) : Prop := {
  d_shut : tW = true -> inp = [] /\ out = [];
  d_en : tW = false -> enw = true;
  d_eof : tW = false -> fR = true -> out <> [];
  d_write : events_ok -> tW = false -> inp <> [] \/ out <> [] -> evw = true;
  d_read : events_ok -> tW = false -> fR = false -> evr = true \/ inp <> [] \/ susp = true;
}.
Inductive phase (c : redsocks_client) (bc br : bufferevent) (sc sr : sock) (e : bool) : bool -> Prop :=
| Connecting :
    fresh (instance c) (state c) (do_password c) -> unrelayed bc sc ->
    readcb br = None -> writecb br = Some CConnected -> input br = [] -> output br = [] -> ev_read br = false ->
    wm_read br = Mark 0 0 -> wm_write br = Mark 0 0 -> read_suspended br = false ->
    got sr = [] -> wrote sr = [] -> EV_READ (relay_evshut c) = false ->
    (e = false -> EV_READ (client_evshut c) = false /\ EV_WRITE (enabled br) = true /\
       (events_ok -> ev_read bc = true /\ ev_write br = true)) ->
    phase c bc br sc sr e false
| Negotiating M R wm :
    talk (instance c) (destaddr c) (state c) (do_password c) (to_skip c) wm M R -> unrelayed bc sc ->
    readcb br = Some CSubsysRead -> writecb br = Some CSubsysWrite ->
    wm_read br = Mark wm wm -> wm_write br = Mark 0 0 -> zlen (input br) < wm -> read_suspended br = false ->
    wrote sr ++ output br = M -> got sr = R ++ input br ->
    (EV_READ (relay_evshut c) = true -> EV_WRITE (client_evshut c) = true) ->
    (e = false -> EV_READ (client_evshut c) = false /\ (sends (instance c) (state c) = true -> EV_WRITE (enabled br) = true) /\
       (events_ok -> ev_read bc = true /\ (output br <> [] -> ev_write br = true) /\
          (EV_READ (relay_evshut c) = false -> ev_read br = true))) ->
    phase c bc br sc sr e false
| Relaying M R :
    dialogue (instance c) (destaddr c) M R true -> relays Client bc -> relays Relay br ->
    wrote sr ++ output br ++ input bc = M ++ got sc ->
    R ++ wrote sc ++ output bc ++ input br = got sr ->
    read_suspended br = false -> (ev_read br = true -> input br = []) -> (input br <> [] -> output bc <> []) ->
    dir (EV_READ (relay_evshut c)) (EV_WRITE (client_evshut c)) (input br) (ev_read br) (read_suspended br)
      (output bc) (EV_WRITE (enabled bc)) (ev_write bc) ->
    (e = false -> dir (EV_READ (client_evshut c)) (EV_WRITE (relay_evshut c)) (input bc) (ev_read bc) (read_suspended bc)
      (output br) (EV_WRITE (enabled br)) (ev_write br)) ->
    phase c bc br sc sr e true.

(** A side is closed for writing only after the other one ended; not everything is closed. *)
Record flags (ce re : evs) (sc sr : sock) : Prop := {
  f_client : EV_WRITE ce = true -> EV_READ re = true;
  f_relay : EV_WRITE re = true -> EV_READ ce = true;
  f_open : EV_WRITE ce = true -> EV_WRITE re = true -> False;
  f_eof : EV_READ ce = true -> eof sc = true;
  f_eof' : EV_READ re = true -> eof sr = true;
  f_shut : EV_WRITE (shut sc) = true -> EV_WRITE ce = true;
  f_shut' : EV_WRITE (shut sr) = true -> EV_WRITE re = true;
}.
Record alive (k : conn) (c : redsocks_client) (bc br : bufferevent) : Prop := {
  a_inst : instance c = inst_of k; a_dest : destaddr c = dest_of k;
  a_client : client c = Some bc; a_relay : relay c = Some br;
  a_open : status (sock_client k) = Open; a_open' : status (sock_relay k) = Open;
  a_flags : flags (client_evshut c) (relay_evshut c) (sock_client k) (sock_relay k);
  a_phase : phase c bc br (sock_client k) (sock_relay k) (early k) (relayed k);
}.
(** What the two sockets have seen. *)
Definition traffic (i : nat) (dest : sockaddr_in) (fin : bool) (sc sr : sock) (e : bool) : Prop := exists M R,
  dialogue i dest M R fin /\
  if fin : bool then
    wrote sr `prefix_of` M ++ got sc /\ R ++ wrote sc `prefix_of` got sr /\
    (EV_WRITE (shut sc) = true -> got sr = R ++ wrote sc) /\
    (e = false -> EV_WRITE (shut sr) = true -> wrote sr = M ++ got sc)
  else wrote sc = [] /\ wrote sr `prefix_of` M /\ R `prefix_of` got sr.
Definition conn_inv (k : conn) : Prop :=
  match self k with
  | Some c => exists bc br, alive k c bc br
  | None => status (sock_client k) <> Open /\ status (sock_relay k) <> Open /\ traffic (inst_of k) (dest_of k) (relayed k) (sock_client k) (sock_relay k) (early k)
  end.

Lemma phase_traffic i dest fin c bc br sc sr e : instance c = i -> destaddr c = dest -> (EV_WRITE (shut sc) = true -> EV_WRITE (client_evshut c) = true) ->
  (EV_WRITE (shut sr) = true -> EV_WRITE (relay_evshut c) = true) -> phase c bc br sc sr e fin -> traffic i dest fin sc sr e.
Proof.
  intros <- <- F1 F2 [Hf Hu _ _ _ _ _ _ _ _ G W _ _ | M R wm Ht Hu _ _ _ _ _ _ E1 E2 _ _ | M R Hd _ _ E1 E2 _ _ _ D1 D2].
  - exists [], []. split; [apply dialogue_start|]. destruct Hu. rewrite W, G. by split_and!.
  - exists M, R. split; [by eapply talk_dialogue|]. destruct Hu. split_and!; [done| |].
    + rewrite <- E1. by apply prefix_app_r.
    + rewrite E2. by apply prefix_app_r.
  - exists M, R. split; [done|]. split_and!.
    + rewrite <- E1. by apply prefix_app_r.
    + rewrite <- E2, app_assoc. by apply prefix_app_r.
    + intros Hs. destruct D1 as [D _ _ _ _]. destruct D as [Di Do]; [auto|]. by rewrite <- E2, Di, Do, !app_nil_r.
    + intros He Hs. destruct (D2 He) as [D _ _ _ _]. destruct D as [Di Do]; [auto|]. by rewrite <- E1, Di, Do, !app_nil_r.
Qed.

(** ** Handlers *)
Definition post (l : list redsocks_instance) (w : world) : Prop :=
  exists k l' n, w = mkW k l' n /\ conn_inv k /\ insts_kept l l'.
Lemma post_alive k c bc br l l' n : insts_kept l l' -> self k = Some c -> alive k c bc br -> post l (mkW k l' n).
Proof. intros Hl E H. exists k, l', n. split; [done|]. split; [|done]. unfold conn_inv. rewrite E. eauto. Qed.
Lemma drop_post c bc br k l n : insts_ok l -> self k = Some c -> client c = Some bc -> relay c = Some br ->
  status (sock_client k) = Open -> status (sock_relay k) = Open -> traffic (inst_of k) (dest_of k) (relayed k) (sock_client k) (sock_relay k) (early k) ->
  wp (redsocks_drop_client ok) (mkW k l n) (fun _ => post l).
Proof.
  intros Hl E Ec Er Oc Or T. eapply wp_mono; [by eapply drop_client_ok|]. intros _ w' (l' & n' & -> & K).
  exists (dropped k), l', n'. split; [done|]. split; [|done]. by split_and!.
Qed.
Lemma same_sock s k : with_sock s (sock_of s k) k = k.
Proof. by destruct s, k. Qed.
Definition all_shut (c : redsocks_client) : bool :=
  EV_READ (relay_evshut c) && EV_WRITE (relay_evshut c) && EV_READ (client_evshut c) && EV_WRITE (client_evshut c).
Lemma shutdown_ok s e c b k l n (Q : unit -> world -> Prop) : self k = Some c -> bev_of s c = Some b ->
  (forall sh n', let c' := with_evshut s (evs_or (evshut_of s c) e) (with_bev s (Some (bufferevent_disable e b)) c) in
     (EV_WRITE sh = true -> EV_WRITE (shut (sock_of s k)) = true \/ EV_WRITE e = true) ->
     wp (when (all_shut c') (redsocks_drop_client ok)) (mkW (with_self (Some c') (with_sock s (with_shut sh (sock_of s k)) k)) l n') Q) ->
  wp (redsocks_shutdown ok s e) (mkW k l n) Q.
Proof.
  intros E Eb H. unfold redsocks_shutdown. eapply wp_bind, wp_the_client; [done|]. apply wp_bind.
  assert (Hrest : forall sh n', (EV_WRITE sh = true -> EV_WRITE (shut (sock_of s k)) = true \/ EV_WRITE e = true) ->
    wp (_ ← disable s e; _ ← modify (fun c => with_evshut s (evs_or (evshut_of s c) e) c); c ← the_client; when (all_shut c) (redsocks_drop_client ok))
      (mkW (with_sock s (with_shut sh (sock_of s k)) k) l n') Q).
  { intros sh n' Hsh. eapply wp_bind, wp_disable; [by destruct s|done|]. eapply wp_bind, wp_update; [by destruct s|].
    eapply wp_bind, wp_the_client; [by destruct s|]. specialize (H sh n' Hsh). by destruct s. }
  assert (Hs : with_sock s (with_shut (shut (sock_of s k)) (sock_of s k)) k = k) by (by destruct s, k as [? [] [] ? ? ? ?]).
  apply wp_when.
  - intros _. apply wp_bind, wp_ask. apply wp_bind, wp_the_sock. apply wp_when.
    + intros _. apply wp_set_sock. apply (Hrest (evs_or (shut (sock_of s k)) e)). intros [?|?]%orb_true_iff; [by right|by left].
    + intros _. pose proof (Hrest (shut (sock_of s k)) (S n)) as Hr. rewrite Hs in Hr. apply Hr. auto.
  - intros _. pose proof (Hrest (shut (sock_of s k)) n) as Hr. rewrite Hs in Hr. apply Hr. auto.
Qed.

(** [event_error] when the stream did not end. *)
Lemma event_error_drop s what l w : what <> 17 -> wp (redsocks_drop_client ok) w (fun _ => post l) ->
  wp (redsocks_event_error ok s what) w (fun _ => post l).
Proof. intros Hw H. unfold redsocks_event_error. by destruct (Z.eqb_spec what (Z.lor BEV_EVENT_READING BEV_EVENT_EOF)). Qed.

Definition read_more (s : side) (b : bufferevent) (data : list Z) (c : redsocks_client) (k : conn) : conn :=
  let x := sock_of s k in
  with_self (Some (with_bev s (Some (with_input (input b ++ data) b)) c))
    (with_sock s (mkSock (status x) (got x ++ data) (wrote x) (eof x) (shut x)) k).
Definition read_end (s : side) (b : bufferevent) (c : redsocks_client) (k : conn) : conn :=
  let x := sock_of s k in
  with_self (Some (with_bev s (Some (bufferevent_disable ev_read_only b)) c)) (with_sock s (mkSock (status x) (got x) (wrote x) true (shut x)) k).
Definition room (b : bufferevent) : Z := if high (wm_read b) =? 0 then MAX_TO_READ_EVER else high (wm_read b) - zlen (input b).
Lemma evbuffer_read_ok s hm r c b k l n (Q : read_result -> world -> Prop) : self k = Some c -> bev_of s c = Some b ->
  (forall r', r' = RAgain \/ r' = RError -> Q r' (mkW k l n)) ->
  (let x := sock_of s k in Q REof (mkW (with_sock s (mkSock (status x) (got x) (wrote x) true (shut x)) k) l n)) ->
  (forall data, data <> [] -> zlen data <= hm -> eof (sock_of s k) = false -> Q (RData data) (mkW (read_more s b data c k) l n)) ->
  wp (evbuffer_read s hm r) (mkW k l n) Q.
Proof.
  intros E Eb Hn He Hd. unfold evbuffer_read. apply wp_bind, wp_the_sock. cbn beta zeta.
  assert (Hend : wp (_ ← set_sock s (mkSock (status (sock_of s k)) (got (sock_of s k)) (wrote (sock_of s k)) true (shut (sock_of s k))); mret REof) (mkW k l n) Q)
    by (apply wp_bind, wp_set_sock, wp_ret, He).
  destruct r as [data| | |]; [|done|apply wp_ret, Hn; auto|apply wp_ret, Hn; auto].
  destruct (take _ data) as [|x d] eqn:Et; [done|]. destruct (eof (sock_of s k)) eqn:Ee; [done|].
  assert (Hl : zlen (x :: d) <= hm) by (apply (f_equal length) in Et; rewrite length_take in Et; cbn [length] in *; lia).
  apply wp_bind, wp_set_sock. eapply wp_bind, wp_bev; [by destruct s|done|].
  eapply wp_bind, wp_set_bev; [by destruct s|]. apply wp_ret. specialize (Hd (x :: d) ltac:(done) Hl eq_refl). unfold read_more in Hd.
  rewrite Ee in Hd. by destruct s.
Qed.
Lemma readcb_cases s r c b k l n (Q : unit -> world -> Prop) : self k = Some c -> bev_of s c = Some b ->
  (room b <= 0 -> Q tt (mkW (with_self (Some (with_bev s (Some (bufferevent_wm_suspend_read b)) c)) k) l n)) ->
  Q tt (mkW k l n) ->
  (forall what, what <> 17 -> wp (redsocks_event_error ok s what) (mkW (with_self (Some (with_bev s (Some (bufferevent_disable ev_read_only b)) c)) k) l n) Q) ->
  wp (redsocks_event_error ok s 17) (mkW (read_end s b c k) l n) Q ->
  (forall data, data <> [] -> zlen data <= room b -> eof (sock_of s k) = false ->
     wp (when (low (wm_read b) <=? zlen (input b ++ data)) (run_callback ok cfg (readcb b))) (mkW (read_more s b data c k) l n) Q) ->
  wp (bufferevent_readcb ok cfg s r) (mkW k l n) Q.
Proof.
  intros E Eb Hsus Hagain Herr Heof Hdata. unfold bufferevent_readcb. eapply wp_bind, wp_bev; [done..|].
  assert (Hread : forall hm, hm <= room b ->
    wp (r ← evbuffer_read s hm r; match r with
        | RAgain => mret tt
        | RError => _ ← disable s ev_read_only; redsocks_event_error ok s (Z.lor BEV_EVENT_READING BEV_EVENT_ERROR)
        | REof => _ ← disable s ev_read_only; redsocks_event_error ok s (Z.lor BEV_EVENT_READING BEV_EVENT_EOF)
        | RData _ => b ← bev s; when (low (wm_read b) <=? zlen (input b)) (run_callback ok cfg (readcb b))
        end) (mkW k l n) Q).
  { intros hm Hhm. eapply wp_bind, evbuffer_read_ok; [done..| | |].
    - intros r' [-> | ->]; [by apply wp_ret|]. eapply wp_bind, wp_disable; [done..|]. by apply Herr.
    - eapply wp_bind, wp_disable; [by destruct s|done|]. by destruct s.
    - intros data Hd Hl He. eapply wp_bind, wp_bev; [by destruct s|by destruct s|]. apply Hdata; [done|lia|done]. }
  unfold room in *. destruct (high (wm_read b) =? 0); cbn [negb andb]; [destruct (read_suspended b); [by apply wp_ret|by apply Hread]|].
  destruct (Z.leb_spec (high (wm_read b) - zlen (input b)) 0); [by eapply wp_set_bev; [|apply Hsus]|].
  destruct (read_suspended b); [by apply wp_ret|]. apply Hread. lia.
Qed.

Definition wrote_more (s : side) (b : bufferevent) (sent rest : list Z) (c : redsocks_client) (k : conn) : conn :=
  let x := sock_of s k in
  with_self (Some (with_bev s (Some (with_evs (ev_read b) (if zlen rest =? 0 then false else ev_write b) (with_output rest b))) c))
    (with_sock s (mkSock (status x) (got x) (wrote x ++ sent) (eof x) (shut x)) k).
Lemma writecb_cases s r c b k l n (Q : unit -> world -> Prop) : self k = Some c -> bev_of s c = Some b ->
  Q tt (mkW k l n) ->
  (forall what, what <> 17 -> wp (redsocks_event_error ok s what) (mkW (with_self (Some (with_bev s (Some (bufferevent_disable ev_write_only b)) c)) k) l n) Q) ->
  (forall sent rest, output b = sent ++ rest -> (EV_WRITE (shut (sock_of s k)) = true -> sent = []) ->
     wp (when (zlen rest <=? low (wm_write b)) (run_callback ok cfg (writecb b))) (mkW (wrote_more s b sent rest c k) l n) Q) ->
  wp (bufferevent_writecb ok cfg s r) (mkW k l n) Q.
Proof.
  intros E Eb Hagain Herr Hdone. unfold bufferevent_writecb. eapply wp_bind, wp_bev; [done..|]. apply wp_bind.
  assert (Hrun : forall sent rest, output b = sent ++ rest -> (EV_WRITE (shut (sock_of s k)) = true -> sent = []) ->
    wp (b ← bev s; _ ← when (zlen (output b) =? 0) (event_del_write s); when (zlen (output b) <=? low (wm_write b)) (run_callback ok cfg (writecb b)))
      (mkW (with_self (Some (with_bev s (Some (with_output rest b)) c)) (with_sock s (mkSock (status (sock_of s k)) (got (sock_of s k)) (wrote (sock_of s k) ++ sent) (eof (sock_of s k)) (shut (sock_of s k))) k)) l n) Q).
  { intros sent rest Eo Hsh. eapply wp_bind, wp_bev; [by destruct s|by destruct s|]. cbn [output with_output].
    specialize (Hdone sent rest Eo Hsh). unfold wrote_more in Hdone. apply wp_bind, wp_when.
    - intros Ez. unfold event_del_write. eapply wp_bind, wp_bev; [by destruct s|by destruct s|]. eapply wp_set_bev; [by destruct s|].
      rewrite Ez in Hdone. by destruct s.
    - intros Ez. rewrite Ez in Hdone. by destruct s, b. }
  assert (Hsame : output b = [] -> with_self (Some (with_bev s (Some (with_output [] b)) c)) (with_sock s (mkSock (status (sock_of s k)) (got (sock_of s k)) (wrote (sock_of s k) ++ []) (eof (sock_of s k)) (shut (sock_of s k))) k) = k).
  { intros Eo. rewrite app_nil_r. assert (with_output [] b = b) as -> by (by destruct b; cbn in *; subst). rewrite same_bev by done.
    destruct s, k as [? [] [] ? ? ? ?]; cbn in *; by rewrite E. }
  destruct (Z.eqb_spec (zlen (output b)) 0) as [Hz|Hz].
  - apply wp_ret. destruct (output b) eqn:Eo; [|cbn in Hz; lia]. rewrite <- (Hsame eq_refl). by apply Hrun.
  - apply wp_bind. unfold evbuffer_write_atmost. apply wp_bind, wp_the_sock. eapply wp_bind, wp_bev; [done..|]. cbn zeta.
    assert (He : forall what, what <> 17 -> wp (_ ← disable s ev_write_only; redsocks_event_error ok s what) (mkW k l n) Q)
      by (intros; eapply wp_bind, wp_disable; [done..|]; by apply Herr).
    destruct r as [m| | |].
    + destruct (Z.leb_spec m 0); destruct (EV_WRITE (shut (sock_of s k))) eqn:Es; try (apply wp_ret, wp_ret, He; done).
      set (m' := Z.to_nat _). apply wp_bind, wp_set_sock. eapply wp_bind, wp_set_bev; [by destruct s|]. apply wp_ret, wp_ret.
      specialize (Hrun (take m' (output b)) (drop m' (output b))). rewrite take_drop in Hrun. specialize (Hrun eq_refl ltac:(done)). by destruct s.
    + destruct (EV_WRITE (shut (sock_of s k))); apply wp_ret, wp_ret, He; done.
    + apply wp_ret, wp_ret. eapply wp_bind, wp_bev; [done..|]. by apply wp_when_false; [apply Z.eqb_neq|].
    + by apply wp_ret, wp_ret, He.
Qed.

(** ** Relaying *)
Lemma dir_moved fR tW inp evr susp out enw evw data ew : dir fR tW inp evr susp out enw evw -> fR = false -> tW = false ->
  (evw = true -> ew = true) -> (events_ok -> inp ++ data <> [] -> enw = true -> ew = true) ->
  dir fR tW [] true susp (out ++ inp ++ data) enw ew.
Proof.
  intros [D1 D2 D3 D4 D5] -> -> H1 H2. constructor; try done; [|by left]. intros Ho _ Hn.
  destruct (inp ++ data) eqn:E; [|apply H2; auto]. rewrite app_nil_r in Hn. apply H1, D4; naive_solver.
Qed.
Lemma dir_blocked fR tW inp evr susp out enw evw data : dir fR tW inp evr susp out enw evw -> fR = false -> tW = false ->
  out <> [] -> data <> [] -> dir fR tW (inp ++ data) false susp out enw evw.
Proof.
  intros [D1 D2 D3 D4 D5] -> -> Ho Hd. constructor; try done; [auto|]. intros _ _ _. right; left. by destruct inp.
Qed.
Lemma dir_ended fR tW inp evr susp out enw evw : dir fR tW inp evr susp out enw evw -> out <> [] -> dir true tW inp false susp out enw evw.
Proof. intros [D1 D2 D3 D4 D5] Ho. by constructor. Qed.
Lemma dir_shut fR inp evr susp out enw evw : inp = [] -> out = [] -> dir fR true inp evr susp out enw evw.
Proof. intros -> ->. by constructor. Qed.
Lemma dir_wrote fR tW inp evr susp sent rest enw evw : dir fR tW inp evr susp (sent ++ rest) enw evw -> rest <> [] ->
  dir fR tW inp evr susp rest enw evw.
Proof.
  intros [D1 D2 D3 D4 D5] Hr. constructor; try done; [|intros; apply D4; auto; right; by destruct sent].
  intros Ht. destruct (D1 Ht) as [_ E]. by apply app_eq_nil in E as [_ ->].
Qed.
(** The output is empty and takes the input. *)
Lemma dir_refilled fR tW inp evr susp out enw evw er ew : dir fR tW inp evr susp out enw evw -> (fR = true -> inp <> []) ->
  (events_ok -> inp <> [] -> enw = true -> ew = true) -> (events_ok -> susp = false -> er = true) ->
  dir fR tW [] er susp inp enw ew.
Proof.
  intros [D1 D2 D3 D4 D5] Hf Hw Hr. constructor; try done.
  - intros Ht. by destruct (D1 Ht).
  - intros Ho Ht [?|?]; [done|]. auto.
  - intros Ho _ _. destruct susp; auto.
Qed.
(** Events of the other direction do not matter. *)
Lemma dir_mono fR tW inp evr susp out enw evw evr' evw' : dir fR tW inp evr susp out enw evw ->
  (evr = true -> evr' = true) -> (evw = true -> evw' = true) -> dir fR tW inp evr' susp out enw evw'.
Proof. intros [D1 D2 D3 D4 D5] H1 H2. constructor; try done; [auto|]. intros Ho Ht HR. destruct (D5 Ho Ht HR); auto. Qed.

Lemma nonempty (l : list Z) : 0 < zlen l -> l <> [].
Proof. by destruct l. Qed.
Lemma empty (l : list Z) : zlen l = 0 -> l = [].
Proof. by destruct l. Qed.

Section relaying.
Context (i : nat) (dest : sockaddr_in) (st : Z) (pw : bool) (skip : Z) (M R : list Z) (l : list redsocks_instance) (Hl : insts_ok l).
#[local] Abbreviation C bc br ce re := (mkClient i (Some bc) (Some br) dest st ce re pw skip).
#[local] Abbreviation K bc br ce re sc sr e := (mkConn (Some (C bc br ce re)) sc sr e true i dest).
(** Equations between byte streams. *)
Ltac streams H := cbn [app]; rewrite ?app_nil_r, ?app_assoc; rewrite ?app_nil_r, ?app_assoc in H; first [by rewrite H | by rewrite <- H].
(** What holds of the buffers, and of the two directions. *)
Record relaying (bc br : bufferevent) (sc sr : sock) : Prop := {
  g_dialogue : dialogue i dest M R true; g_client : relays Client bc; g_relay : relays Relay br;
  g_up : wrote sr ++ output br ++ input bc = M ++ got sc;
  g_down : R ++ wrote sc ++ output bc ++ input br = got sr;
  g_susp : read_suspended br = false;
}.
Definition down_ok (bc br : bufferevent) (ce re : evs) : Prop :=
  dir (EV_READ re) (EV_WRITE ce) (input br) (ev_read br) (read_suspended br) (output bc) (EV_WRITE (enabled bc)) (ev_write bc).
Definition up_ok (e : bool) (bc br : bufferevent) (ce re : evs) : Prop :=
  e = false -> dir (EV_READ ce) (EV_WRITE re) (input bc) (ev_read bc) (read_suspended bc) (output br) (EV_WRITE (enabled br)) (ev_write br).
(** The data of the proxy does not wait without a reason. *)
Definition drained (bc br : bufferevent) : Prop := (ev_read br = true -> input br = []) /\ (input br <> [] -> output bc <> []).
Lemma relaying_phase bc br ce re sc sr e : relaying bc br sc sr -> down_ok bc br ce re -> up_ok e bc br ce re -> drained bc br ->
  phase (C bc br ce re) bc br sc sr e true.
Proof. intros [] D1 D2 [H1 H2]. by eapply Relaying. Qed.
Lemma relaying_post bc br ce re sc sr e l' n : insts_kept l l' -> status sc = Open -> status sr = Open -> flags ce re sc sr ->
  relaying bc br sc sr -> down_ok bc br ce re -> up_ok e bc br ce re -> drained bc br ->
  post l (mkW (K bc br ce re sc sr e) l' n).
Proof. intros Hk O1 O2 F G D1 D2 H. eapply post_alive; [done|done|]. constructor; try done. by apply relaying_phase. Qed.
Lemma relays_same s b b' : relays s b -> readcb b' = readcb b -> writecb b' = writecb b -> wm_read b' = wm_read b -> wm_write b' = wm_write b -> relays s b'.
Proof. intros [] H1 H2 H3 H4. constructor; congruence. Qed.
Ltac same_relays := by eapply relays_same.

Definition got_more (x : sock) (data : list Z) : sock := mkSock (status x) (got x ++ data) (wrote x) (eof x) (shut x).
Lemma client_data bc br ce re sc sr e data n : relaying bc br sc sr -> down_ok bc br ce re -> up_ok e bc br ce re -> drained bc br ->
  flags ce re sc sr -> status sc = Open -> status sr = Open -> ev_read bc = true -> eof sc = false -> data <> [] ->
  wp (redsocks_relay_readcb ok Client Relay) (mkW (K (with_input (input bc ++ data) bc) br ce re (got_more sc data) sr e) l n) (fun _ => post l).
Proof.
  intros [G1 G2 G3 G4 G5 G6] D1 D2 H F O1 O2 Er Ee Hd. unfold redsocks_relay_readcb, got_more. rs.
  assert (Fc : EV_READ ce = false) by (destruct F; destruct (EV_READ ce); [specialize (f_eof0 eq_refl); congruence|done]).
  assert (Fr : EV_WRITE re = false) by (destruct F; destruct (EV_WRITE re); [specialize (f_relay0 eq_refl); congruence|done]).
  rewrite (r_wm' _ _ G3). cbn [high]. unfold up_ok in D2. rewrite Fc, Fr, Er in D2.
  assert (F' : flags ce re (got_more sc data) sr) by (destruct F; by constructor).
  destruct (Z.ltb_spec (zlen (output br)) REDSOCKS_RELAY_HALFBUFF).
  - rs. eapply wp_write_buffer; [reflexivity..|]. intros b' n' (ew & -> & Hw1 & Hw2). bevs. apply relaying_post; try done.
    + constructor; bevs; try done; [same_relays|same_relays|streams G4].
    + intros He. bevs. rewrite Fc, Fr, Er. eapply dir_moved; eauto.
  - rs. apply relaying_post; try done.
    + constructor; bevs; try done; [same_relays|streams G4].
    + intros He. bevs. rewrite Fc, Fr. eapply dir_blocked; eauto. intros E0. by rewrite E0 in *.
Qed.
Lemma relay_data bc br ce re sc sr e data n : relaying bc br sc sr -> down_ok bc br ce re -> up_ok e bc br ce re ->
  flags ce re sc sr -> status sc = Open -> status sr = Open -> ev_read br = true -> eof sr = false -> data <> [] ->
  wp (redsocks_relay_readcb ok Relay Client) (mkW (K bc (with_input (input br ++ data) br) ce re sc (got_more sr data) e) l n) (fun _ => post l).
Proof.
  intros [G1 G2 G3 G4 G5 G6] D1 D2 F O1 O2 Er Ee Hd. unfold redsocks_relay_readcb, got_more. rs.
  assert (Fr : EV_READ re = false) by (destruct F; destruct (EV_READ re); [specialize (f_eof'0 eq_refl); congruence|done]).
  assert (Fc : EV_WRITE ce = false) by (destruct F; destruct (EV_WRITE ce); [specialize (f_client0 eq_refl); congruence|done]).
  rewrite (r_wm' _ _ G2). cbn [high]. unfold down_ok in D1. rewrite Fc, Fr, Er in D1.
  assert (F' : flags ce re sc (got_more sr data)) by (destruct F; by constructor).
  destruct (Z.ltb_spec (zlen (output bc)) REDSOCKS_RELAY_HALFBUFF).
  - rs. eapply wp_write_buffer; [reflexivity..|]. intros b' n' (ew & -> & Hw1 & Hw2). bevs. apply relaying_post; try done.
    + constructor; bevs; try done; [same_relays|same_relays|streams G5].
    + red. bevs. rewrite Fc, Fr, Er. eapply dir_moved; eauto.
  - rs. assert (Ho : output bc <> []) by (intros E0; by rewrite E0 in *). apply relaying_post; try done.
    + constructor; bevs; try done; [same_relays|streams G5].
    + red. bevs. rewrite Fc, Fr. eapply dir_blocked; eauto.
Qed.

(** A side is closed for writing, and the client dropped if that was the last one. *)
Lemma shut_client bc br ce re sc sr e n : relaying bc br sc sr -> up_ok e bc br ce re -> flags ce re sc sr ->
  status sc = Open -> status sr = Open -> EV_READ re = true -> input br = [] -> output bc = [] ->
  wp (redsocks_shutdown ok Client ev_write_only) (mkW (K bc br ce re sc sr e) l n) (fun _ => post l).
Proof.
  intros [G1 G2 G3 G4 G5 G6] D2 F O1 O2 Hr Hi Ho. eapply shutdown_ok; [reflexivity..|]. intros sh n'. bevs. intros Hsh.
  set (bc' := bufferevent_disable ev_write_only bc).
  assert (G : relaying bc' br (with_shut sh sc) sr) by (constructor; bevs; try done; same_relays).
  assert (D1' : down_ok bc' br (evs_or ce ev_write_only) re) by (red; unfold bc'; bevs; by apply dir_shut).
  assert (D2' : up_ok e bc' br (evs_or ce ev_write_only) re) by (red; unfold bc'; by bevs).
  assert (H' : drained bc' br) by (split; congruence).
  apply wp_when; unfold all_shut; bevs.
  - intros _. eapply drop_post; try done. eapply phase_traffic; [..|by eapply relaying_phase]; destruct F; bevs; done.
  - intros Hn. apply relaying_post; bevs; try done.
    destruct F. constructor; bevs; try done. intros _ E. rewrite Hr, E, f_relay0 in Hn by done. done.
Qed.
Lemma shut_relay bc br ce re sc sr e n : relaying bc br sc sr -> down_ok bc br ce re -> drained bc br -> flags ce re sc sr ->
  status sc = Open -> status sr = Open -> EV_READ ce = true -> (e = false -> input bc = []) -> output br = [] ->
  wp (redsocks_shutdown ok Relay ev_write_only) (mkW (K bc br ce re sc sr e) l n) (fun _ => post l).
Proof.
  intros [G1 G2 G3 G4 G5 G6] D1 H F O1 O2 Hr Hi Ho. eapply shutdown_ok; [reflexivity..|]. intros sh n'. bevs. intros Hsh.
  set (br' := bufferevent_disable ev_write_only br).
  assert (G : relaying bc br' sc (with_shut sh sr)) by (constructor; bevs; try done; same_relays).
  assert (D1' : down_ok bc br' ce (evs_or re ev_write_only)) by (red; unfold br'; by bevs).
  assert (D2' : up_ok e bc br' ce (evs_or re ev_write_only)) by (intros He; bevs; apply dir_shut; auto).
  assert (H' : drained bc br') by (destruct H; split; unfold br'; by bevs).
  apply wp_when; unfold all_shut; bevs.
  - intros _. eapply drop_post; try done. eapply phase_traffic; [..|by eapply relaying_phase]; destruct F; bevs; done.
  - intros Hn. apply relaying_post; bevs; try done.
    destruct F. constructor; bevs; try done. intros E _. rewrite Hr, E, f_client0 in Hn by done. done.
Qed.
Definition got_end (x : sock) : sock := mkSock (status x) (got x) (wrote x) true (shut x).
Lemma client_eof bc br ce re sc sr e n : relaying bc br sc sr -> down_ok bc br ce re -> up_ok e bc br ce re -> drained bc br ->
  flags ce re sc sr -> status sc = Open -> status sr = Open ->
  wp (redsocks_event_error ok Client 17) (mkW (K (bufferevent_disable ev_read_only bc) br ce re (got_end sc) sr e) l n) (fun _ => post l).
Proof.
  intros [G1 G2 G3 G4 G5 G6] D1 D2 H F O1 O2. unfold redsocks_event_error. replace (17 =? _) with true by reflexivity.
  assert (Hrest : forall e', (e' = false -> e = false /\ (output br = [] -> input bc = [])) ->
    wp (_ ← redsocks_shutdown ok Client ev_read_only; c ← the_client;
        match bev_of Relay c with
        | Some antiev => when (zlen (output antiev) =? 0) (redsocks_shutdown ok Relay ev_write_only)
        | None => mret tt end) (mkW (K (bufferevent_disable ev_read_only bc) br ce re (got_end sc) sr e') l n) (fun _ => post l)).
  { intros e' He'. eapply wp_bind, shutdown_ok; [reflexivity..|]. intros sh n'. bevs. intros Hsh. apply wp_when_false.
    { unfold all_shut. bevs. destruct F. destruct (EV_WRITE ce), (EV_WRITE re); rewrite ?andb_false_r; try done. by destruct f_open0. }
    rs. set (bc' := bufferevent_disable ev_read_only (bufferevent_disable ev_read_only bc)).
    assert (G : relaying bc' br (with_shut sh (got_end sc)) sr) by (constructor; bevs; try done; same_relays).
    assert (D1' : down_ok bc' br (evs_or ce ev_read_only) re) by (red; unfold bc'; by bevs).
    assert (F' : flags (evs_or ce ev_read_only) re (with_shut sh (got_end sc)) sr).
    { destruct F. constructor; bevs; try done. intros E. by destruct (Hsh E); [apply f_shut0|]. }
    apply wp_when.
    - intros Ho%Z.eqb_eq%empty. apply shut_relay; try done. intros He. by apply He'.
    - intros Ho%Z.eqb_neq. apply relaying_post; try done. intros He. destruct (He' He) as [E1 _]. unfold bc'. bevs.
      eapply dir_ended; [by apply D2|]. intros E0. by rewrite E0 in Ho. }
  rewrite bool_decide_true by done. cbn [when]. unfold note_early. rs. bevs. rewrite (r_readcb _ _ G3).
  rewrite bool_decide_false by naive_solver. cbn [orb]. apply wp_when.
  - intros _. apply wp_sets. apply (Hrest true). done.
  - intros Hn. apply Hrest. intros He. split; [done|]. intros Ho. rewrite Ho in Hn. cbn [length Z.of_nat Z.eqb] in Hn. rewrite andb_true_r in Hn.
    apply negb_false_iff, Z.eqb_eq in Hn. by apply empty.
Qed.
Lemma relay_eof bc br ce re sc sr e n : relaying bc br sc sr -> down_ok bc br ce re -> up_ok e bc br ce re -> drained bc br ->
  flags ce re sc sr -> status sc = Open -> status sr = Open ->
  wp (redsocks_event_error ok Relay 17) (mkW (K bc (bufferevent_disable ev_read_only br) ce re sc (got_end sr) e) l n) (fun _ => post l).
Proof.
  intros [G1 G2 G3 G4 G5 G6] D1 D2 H F O1 O2. unfold redsocks_event_error. replace (17 =? _) with true by reflexivity.
  rewrite bool_decide_false by done. cbn [when]. apply wp_bind, wp_ret.
  eapply wp_bind, shutdown_ok; [reflexivity..|]. intros sh n'. bevs. intros Hsh. apply wp_when_false.
  { unfold all_shut. bevs. destruct F. destruct (EV_WRITE ce), (EV_WRITE re); rewrite ?andb_false_r; try done. by destruct f_open0. }
  rs. set (br' := bufferevent_disable ev_read_only (bufferevent_disable ev_read_only br)).
  assert (G : relaying bc br' sc (with_shut sh (got_end sr))) by (constructor; bevs; try done; same_relays).
  assert (D2' : up_ok e bc br' ce (evs_or re ev_read_only)) by (red; unfold br'; by bevs).
  assert (F' : flags ce (evs_or re ev_read_only) sc (with_shut sh (got_end sr))).
  { destruct F. constructor; bevs; try done. intros E. by destruct (Hsh E); [apply f_shut'0|]. }
  apply wp_when.
  - intros Ho%Z.eqb_eq%empty. apply shut_client; try done. unfold br'. bevs. destruct H as [_ H].
    destruct (input br); [done|]. by specialize (H ltac:(done)).
  - intros Ho%Z.eqb_neq. assert (Ho' : output bc <> []) by (intros E0; by rewrite E0 in Ho). apply relaying_post; try done.
    + red. unfold br'. bevs. by eapply dir_ended.
Qed.
(** The output is empty, [writecb] runs. *)
Definition emptied (b : bufferevent) : bufferevent := with_evs (ev_read b) false (with_output [] b).
Definition wrote_sock (x : sock) (sent : list Z) : sock := mkSock (status x) (got x) (wrote x ++ sent) (eof x) (shut x).
Lemma relay_written bc br ce re sc sr e n : relaying bc br sc sr -> down_ok bc br ce re -> up_ok e bc br ce re -> drained bc br ->
  flags ce re sc sr -> status sc = Open -> status sr = Open ->
  wp (redsocks_relay_writecb ok Client Relay) (mkW (K bc (emptied br) ce re sc (wrote_sock sr (output br)) e) l n) (fun _ => post l).
Proof.
  intros [G1 G2 G3 G4 G5 G6] D1 D2 H F O1 O2. unfold redsocks_relay_writecb, emptied, wrote_sock. rs.
  assert (F' : flags ce re sc (wrote_sock sr (output br))) by (destruct F; by constructor).
  destruct ((zlen (input bc) =? 0) && EV_READ ce) eqn:Es.
  - apply andb_prop in Es as [Hi%Z.eqb_eq%empty Hc]. apply shut_relay; try done.
    constructor; bevs; try done; [same_relays|]. rewrite Hi in *. streams G4.
  - bevs. rewrite (r_wm' _ _ G3). cbn [high length Z.of_nat]. replace (0 <? _) with true by reflexivity. rs.
    eapply wp_write_buffer; [reflexivity..|]. intros br' n1 (ew & -> & Hw1 & Hw2). bevs. apply wp_bind.
    eapply wp_enable; [reflexivity..|]. intros r bc' n2 (er & ew' & -> & _ & He2 & He3 & He4). bevs. rs. apply relaying_post; try done.
    + constructor; bevs; try done; [same_relays|same_relays|]. streams G4.
    + red. bevs. by eapply dir_mono.
    + intros He. bevs. cbn [app]. eapply dir_refilled; [by apply D2|..].
      * intros Hc E0. by rewrite E0, Hc in Es.
      * done.
      * intros Ho Hs. by destruct (He4 Ho) as (_ & He5 & _); apply He5.
Qed.
Lemma client_written bc br ce re sc sr e n : relaying bc br sc sr -> down_ok bc br ce re -> up_ok e bc br ce re -> drained bc br ->
  flags ce re sc sr -> status sc = Open -> status sr = Open ->
  wp (redsocks_relay_writecb ok Relay Client) (mkW (K (emptied bc) br ce re (wrote_sock sc (output bc)) sr e) l n) (fun _ => post l).
Proof.
  intros [G1 G2 G3 G4 G5 G6] D1 D2 H F O1 O2. unfold redsocks_relay_writecb, emptied, wrote_sock. rs.
  assert (F' : flags ce re (wrote_sock sc (output bc)) sr) by (destruct F; by constructor).
  destruct ((zlen (input br) =? 0) && EV_READ re) eqn:Es.
  - apply andb_prop in Es as [Hi%Z.eqb_eq%empty Hc]. apply shut_client; try done.
    constructor; bevs; try done; [same_relays|]. rewrite Hi in *. streams G5.
  - bevs. rewrite (r_wm' _ _ G2). cbn [high length Z.of_nat]. replace (0 <? _) with true by reflexivity. rs.
    eapply wp_write_buffer; [reflexivity..|]. intros bc' n1 (ew & -> & Hw1 & Hw2). bevs. apply wp_bind.
    eapply wp_enable; [reflexivity..|]. intros r br' n2 (er & ew' & -> & _ & He2 & He3 & He4). bevs. rs. apply relaying_post; try done.
    + constructor; bevs; try done; [same_relays|same_relays|]. streams G5.
    + red. bevs. cbn [app]. eapply dir_refilled; [done|..].
      * intros Hc E0. by rewrite E0, Hc in Es.
      * done.
      * intros Ho Hs. by destruct (He4 Ho) as (_ & He5 & _); apply He5.
    + intros He. bevs. eapply dir_mono; [by apply D2|done|done].
Qed.

Lemma relaying_drop bc br ce re sc sr e bc' br' n : relaying bc br sc sr -> down_ok bc br ce re -> up_ok e bc br ce re -> drained bc br ->
  flags ce re sc sr -> status sc = Open -> status sr = Open ->
  wp (redsocks_drop_client ok) (mkW (K bc' br' ce re sc sr e) l n) (fun _ => post l).
Proof.
  intros G D1 D2 H F O1 O2. eapply drop_post; try done. eapply phase_traffic; [..|by apply (relaying_phase bc br ce re sc sr e)]; by destruct F.
Qed.
Lemma relaying_readable s r bc br ce re sc sr e n : relaying bc br sc sr -> down_ok bc br ce re -> up_ok e bc br ce re -> drained bc br ->
  flags ce re sc sr -> status sc = Open -> status sr = Open ->
  pending (Readable s r) (K bc br ce re sc sr e) = true ->
  wp (bufferevent_readcb ok cfg s r) (mkW (K bc br ce re sc sr e) l n) (fun _ => post l).
Proof.
  intros G D1 D2 H F O1 O2 Hp. pose proof G as [G1 G2 G3 G4 G5 G6].
  assert (Hsame : forall n, post l (mkW (K bc br ce re sc sr e) l n)) by (intros; by apply relaying_post).
  destruct s; cbn in Hp.
  - eapply readcb_cases; [reflexivity..|intros Hr| | | |]; try done.
    + unfold bufferevent_wm_suspend_read. destruct (read_suspended bc) eqn:Es; conns; apply relaying_post; try done.
      * constructor; bevs; try done; same_relays.
      * intros He. specialize (D2 He). by rewrite Es in D2.
      * constructor; bevs; try done; same_relays.
      * intros He. destruct (D2 He) as [E1 E2 E3 E4 E5]. bevs. constructor; auto.
    + intros what Hw. apply event_error_drop; [done|]. by eapply (relaying_drop bc br).
    + by apply client_eof.
    + intros data Hd Hroom Ee. rewrite (r_wm _ _ G2), (r_readcb _ _ G2). apply wp_when_true; [apply Z.leb_le; cbn; lia|].
      by apply client_data.
  - eapply readcb_cases; [reflexivity..|intros Hr| | | |]; try done.
    + destruct H as [H1 _]. unfold room in Hr. rewrite (r_wm _ _ G3), (H1 Hp) in Hr. by cbn in Hr.
    + intros what Hw. apply event_error_drop; [done|]. by eapply (relaying_drop bc br).
    + by apply relay_eof.
    + intros data Hd Hroom Ee. rewrite (r_wm _ _ G3), (r_readcb _ _ G3). apply wp_when_true; [apply Z.leb_le; cbn; lia|].
      by apply relay_data.
Qed.
Lemma relaying_writable s r bc br ce re sc sr e n : relaying bc br sc sr -> down_ok bc br ce re -> up_ok e bc br ce re -> drained bc br ->
  flags ce re sc sr -> status sc = Open -> status sr = Open ->
  wp (bufferevent_writecb ok cfg s r) (mkW (K bc br ce re sc sr e) l n) (fun _ => post l).
Proof.
  intros G D1 D2 H F O1 O2. pose proof G as [G1 G2 G3 G4 G5 G6].
  assert (Hsame : forall n, post l (mkW (K bc br ce re sc sr e) l n)) by (intros; by apply relaying_post).
  destruct s.
  - eapply writecb_cases; [reflexivity..| | |]; try done.
    + intros what Hw. apply event_error_drop; [done|]. by eapply (relaying_drop bc br).
    + intros sent rest Eo Hsh. rewrite (r_wm' _ _ G2), (r_writecb _ _ G2). cbn [low]. unfold wrote_more. conns. apply wp_when.
      * intros Hr%Z.leb_le. assert (rest = []) as -> by (destruct rest; [done|cbn in Hr; lia]). rewrite app_nil_r in Eo. subst sent.
        by apply client_written.
      * intros Hr%Z.leb_gt. assert (Hne : rest <> []) by (by apply nonempty). destruct (Z.eqb_spec (zlen rest) 0); [lia|].
        assert (F' : flags ce re (wrote_sock sc sent) sr) by (destruct F; by constructor).
        unfold down_ok in D1. rewrite Eo in D1. apply dir_wrote in D1; [|done]. apply relaying_post; try done.
        -- constructor; bevs; try done; [same_relays|]. rewrite Eo in G5. streams G5.
        -- destruct H. by split; bevs.
  - eapply writecb_cases; [reflexivity..| | |]; try done.
    + intros what Hw. apply event_error_drop; [done|]. by eapply (relaying_drop bc br).
    + intros sent rest Eo Hsh. rewrite (r_wm' _ _ G3), (r_writecb _ _ G3). cbn [low]. unfold wrote_more. conns. apply wp_when.
      * intros Hr%Z.leb_le. assert (rest = []) as -> by (destruct rest; [done|cbn in Hr; lia]). rewrite app_nil_r in Eo. subst sent.
        by apply relay_written.
      * intros Hr%Z.leb_gt. assert (Hne : rest <> []) by (by apply nonempty). destruct (Z.eqb_spec (zlen rest) 0); [lia|].
        assert (F' : flags ce re sc (wrote_sock sr sent)) by (destruct F; by constructor).
        apply relaying_post; try done.
        -- constructor; bevs; try done; [same_relays|]. rewrite Eo in G4. streams G4.
        -- intros He. specialize (D2 He). rewrite Eo in D2. by eapply dir_wrote.
Qed.
End relaying.

(** ** Negotiating *)
Section negotiating.
Context (i : nat) (dest : sockaddr_in) (pw : bool) (l : list redsocks_instance) (Hl : insts_ok l).
#[local] Abbreviation C st skip bc br ce re := (mkClient i (Some bc) (Some br) dest st ce re pw skip).
#[local] Abbreviation K st skip bc br ce re sc sr e := (mkConn (Some (C st skip bc br ce re)) sc sr e false i dest).

(** The protocol may start to relay, or send its next message. *)
Record between (M R : list Z) (bc br : bufferevent) (ce re : evs) (sc sr : sock) : Prop := {
  b_client : unrelayed bc sc; b_input : input br = [];
  b_sent : wrote sr ++ output br = M; b_got : got sr = R;
  b_wm : wm_write br = Mark 0 0; b_susp : read_suspended br = false;
  b_readcb : readcb br = Some CSubsysRead; b_writecb : writecb br = Some CSubsysWrite;
  b_eof : EV_READ re = true -> EV_WRITE ce = true;
  b_traffic : forall e, traffic i dest false sc sr e;
}.
Definition may_send (e : bool) (bc br : bufferevent) (ce : evs) (sending : bool) : Prop :=
  e = false -> EV_READ ce = false /\ (sending = true -> EV_WRITE (enabled br) = true) /\
    (events_ok -> ev_read bc = true /\ (output br <> [] -> ev_write br = true)).

Lemma start_relay_ok st skip M R bc br ce re sc sr e sending n : between M R bc br ce re sc sr -> may_send e bc br ce sending ->
  dialogue i dest M R true -> flags ce re sc sr -> status sc = Open -> status sr = Open ->
  wp (redsocks_start_relay ok) (mkW (K st skip bc br ce re sc sr e) l n) (fun _ => post l).
Proof.
  intros [[U1 U2 U3 U4 U5 U6 U7 U8] B2 B3 B4 B5 B6 B7 B8 B9 B10] W Hd F O1 O2. unfold redsocks_start_relay, relay_bev. 
  assert (T : traffic i dest true sc sr e).
  { exists M, R. split; [done|]. rewrite U4, app_nil_r, B4. split_and!; [|done|done|].
    - rewrite <- B3, <- app_assoc. by apply prefix_app_r.
    - intros He Hs. destruct F. destruct (W He) as [Hc _]. rewrite f_relay0 in Hc; auto. done. }
  apply wp_bind, wp_sets. unfold with_me. cbn [me insts asked]. conns. rs.
  eapply wp_enable; [reflexivity..|]. intros r1 bc' n1 (er1 & ew1 & -> & _ & _ & _ & E1). rs.
  destruct r1.
  2:{ rs. cbn [negb when]. by eapply drop_post. }
  rs. eapply wp_enable; [reflexivity..|]. intros r2 br' n2 (er2 & ew2 & -> & _ & _ & _ & E2). rs.
  destruct r2; cbn [negb when]; [|by eapply drop_post]. rs. eapply relaying_post; try done.
  - constructor; bevs; try done; by rewrite ?B2, ?U3, ?U4, ?U5, ?B4, ?app_nil_r, ?app_assoc, ?B3.
  - red. bevs. rewrite B2, U3. constructor; try done; [|tauto|].
    + intros Hc Hr. rewrite B9 in Hc; done.
    + intros Ho _ _. left. by apply (E2 Ho).
  - intros He. destruct (W He) as (Hc & _ & Hev). bevs. rewrite Hc. constructor; try done.
    + intros Hr. destruct F. rewrite f_relay0 in Hc; done.
    + intros Ho _ _. by apply (E2 Ho).
    + intros Ho _ _. left. by apply (E1 Ho).
Qed.

(** ** The state between the events *)
Definition neg_phase (st skip : Z) (wm : Z) (M R : list Z) (bc br : bufferevent) (ce re : evs) (sc sr : sock) (e : bool) : Prop :=
  talk i dest st pw skip wm M R /\ unrelayed bc sc /\ readcb br = Some CSubsysRead /\ writecb br = Some CSubsysWrite /\
  wm_read br = Mark wm wm /\ wm_write br = Mark 0 0 /\ zlen (input br) < wm /\ read_suspended br = false /\
  wrote sr ++ output br = M /\ got sr = R ++ input br /\ (EV_READ re = true -> EV_WRITE ce = true) /\
  (e = false -> EV_READ ce = false /\ (sends i st = true -> EV_WRITE (enabled br) = true) /\
     (events_ok -> ev_read bc = true /\ (output br <> [] -> ev_write br = true) /\ (EV_READ re = false -> ev_read br = true))).
Lemma neg_post st skip wm M R bc br ce re sc sr e l' n : insts_kept l l' -> status sc = Open -> status sr = Open -> flags ce re sc sr ->
  neg_phase st skip wm M R bc br ce re sc sr e -> post l (mkW (K st skip bc br ce re sc sr e) l' n).
Proof.
  intros Hk O1 O2 F (H1 & H2 & H3 & H4 & H5 & H6 & H7 & H8 & H9 & H10 & H11 & H12). eapply post_alive; [done|done|].
  constructor; try done. by eapply Negotiating.
Qed.
(** The end of [redsocks_write_helper_ex]. *)
Lemma await_ok st' wm' st skip M R bc br ce re sc sr e sending n : between M R bc br ce re sc sr -> may_send e bc br ce sending ->
  talk i dest st' pw skip wm' M R -> (sends i st' = true -> sending = true) -> flags ce re sc sr -> status sc = Open -> status sr = Open ->
  wp (_ ← modify (with_state st'); b ← bev Relay; _ ← set_bev Relay (with_marks (Mark wm' wm') (wm_write b) b); _ ← enable ok Relay ev_read_only; mret true)
    (mkW (K st skip bc br ce re sc sr e) l n) (fun _ => post l).
Proof.
  intros [U B2 B3 B4 B5 B6 B7 B8 B9 B10] W Ht Hs F O1 O2. rs.
  eapply wp_enable; [reflexivity..|]. intros r br' n1 (er & ew & -> & _ & _ & Hw & Ho). rs. eapply neg_post; try done.
  unfold neg_phase. bevs. split_and!; try done; [|by rewrite B2, app_nil_r|].
  - rewrite B2. destruct (talk_dialogue _ _ _ _ _ _ _ Ht). done.
  - intros He. destruct (W He) as (W1 & W2 & W3). split_and!; [done|auto|]. intros Hev. destruct (W3 Hev) as [W4 W5].
    split_and!; [done|auto|]. intros _. by apply (Ho Hev).
Qed.
Lemma write_helper_msg mk msg st' wm' st skip M R bc br ce re sc sr e n : between M R bc br ce re sc sr -> may_send e bc br ce true ->
  makes mk (C st skip bc br ce re) msg -> talk i dest st' pw skip wm' (M ++ msg) R -> flags ce re sc sr -> status sc = Open -> status sr = Open ->
  wp (redsocks_write_helper ok (Some mk) st' wm') (mkW (K st skip bc br ce re sc sr e) l n) (fun _ => post l).
Proof.
  intros B W Hm Ht F O1 O2. pose proof B as [U B2 B3 B4 B5 B6 B7 B8 B9 B10]. unfold redsocks_write_helper, redsocks_write_helper_ex.
  apply wp_unit, wp_bind. eapply wp_mono; [by apply Hm|]. intros r w' (n1 & -> & [-> | ->]).
  { apply wp_bind. eapply wp_mono; [by eapply drop_post|]. intros ? ? Hp. by apply wp_ret. }
  apply wp_bind. eapply wp_write_buffer; [reflexivity..|]. intros br' n2 (ew & -> & Hw1 & Hw2). bevs.
  eapply (await_ok _ _ _ _ (M ++ msg) R _ _ _ _ _ _ _ true); try done.
  - constructor; bevs; try done. by rewrite app_assoc, B3.
  - intros He. destruct (W He) as (W1 & W2 & W3). bevs. split_and!; [done|done|]. intros Hev. destruct (W3 Hev) as [W4 W5]. split; [done|].
    intros Hne. destruct (output br) as [|x o]; [|by apply Hw1, W5]. apply Hw2; [done|done|by apply W2].
Qed.
Lemma write_helper_none st' wm' st skip M R bc br ce re sc sr e sending n : between M R bc br ce re sc sr -> may_send e bc br ce sending ->
  talk i dest st' pw skip wm' M R -> (sends i st' = true -> sending = true) -> flags ce re sc sr -> status sc = Open -> status sr = Open ->
  wp (redsocks_write_helper ok None st' wm') (mkW (K st skip bc br ce re sc sr e) l n) (fun _ => post l).
Proof.
  intros B W Ht Hs F O1 O2. unfold redsocks_write_helper, redsocks_write_helper_ex. apply wp_unit, wp_bind, wp_ret. apply wp_bind, wp_ret.
  by eapply await_ok.
Qed.
(** A reply is complete. *)
Lemma reply_ok st skip wm M R bc br ce re sc sr e n : neg_phase st skip wm M R bc br ce re sc sr e -> flags ce re sc sr ->
  status sc = Open -> status sr = Open -> forall data, zlen (input br ++ data) = wm ->
  wp (ss_readcb (relay_ss ok cfg i)) (mkW (K st skip bc (with_input (input br ++ data) br) ce re sc (got_more sr data) e) l n) (fun _ => post l).
Proof.
  intros (H1 & H2 & H3 & H4 & H5 & H6 & H7 & H8 & H9 & H10 & H11 & H12) F O1 O2 data Hz.
  assert (F' : flags ce re sc (got_more sr data)) by (destruct F; by constructor).
  set (br' := with_input [] (with_input (input br ++ data) br)).
  assert (T : forall e, traffic i dest false sc (got_more sr data) e).
  { intros e'. exists M, R. split; [by eapply talk_dialogue|]. destruct H2. split_and!; [done| |].
    - rewrite <- H9. by apply prefix_app_r.
    - cbn. rewrite H10, <- app_assoc. by apply prefix_app_r. }
  assert (B : between M (R ++ input br ++ data) bc br' ce re sc (got_more sr data)).
  { constructor; bevs; try done. by rewrite app_assoc, <- H10. }
  assert (W : may_send e bc br' ce (sends i st)).
  { intros He. destruct (H12 He) as (W1 & W2 & W3). bevs. split_and!; [done|done|]. intros Hev. by destruct (W3 Hev) as (? & ? & _). }
  eapply read_law; try done; unfold consumed; conns.
  - intros st1 sk1. by eapply drop_post.
  - intros mk msg st1 sk1 st2 wm' Hs Hm Ht. rewrite Hs in W. by eapply write_helper_msg.
  - intros st1 sk1 st2 wm' Hs Ht. by eapply write_helper_none.
  - intros st1 sk1 Hd. by eapply start_relay_ok.
Qed.

(** The application closes its side before data is relayed. *)
Lemma unstarted_early st skip bc br ce re sc sr e bc' br' ce' re' sc' sr' : phase (C st skip bc br ce re) bc br sc sr e false ->
  readcb br <> Some (CRelayRead Relay) ->
  (exists er ew en, bc' = with_evs er ew (with_enabled en bc)) -> (exists ew en, br' = with_evs (ev_read br) ew (with_enabled en br)) ->
  got sc' = got sc -> wrote sc' = wrote sc -> got sr' = got sr -> wrote sr' = wrote sr ->
  EV_READ re' = EV_READ re -> (EV_WRITE ce = true -> EV_WRITE ce' = true) ->
  phase (C st skip bc' br' ce' re') bc' br' sc' sr' true false.
Proof.
  intros P Hn (er & ew & en & ->) (ew' & en' & ->) E1 E2 E3 E4 E5 E6.
  assert (Hu : unrelayed bc sc -> unrelayed (with_evs er ew (with_enabled en bc)) sc') by (intros []; constructor; bevs; congruence).
  destruct P as [Hf U P1 P2 P3 P4 P5 P6 P7 P8 P9 P10 P11 _ | M R wm Ht U P1 P2 P3 P4 P5 P6 P7 P8 P9 _ | M R _ _ Hr _ _ _ _ _ _ _].
  - apply Connecting; bevs; auto; cbn in *; congruence.
  - eapply (Negotiating _ _ _ _ _ _ M R wm); bevs; cbn in *; auto; try congruence. rewrite E5. auto.
  - by destruct Hr.
Qed.
Lemma early_eof st skip bc br ce re sc sr e n : phase (C st skip bc br ce re) bc br sc sr e false -> readcb br <> Some (CRelayRead Relay) ->
  flags ce re sc sr -> status sc = Open -> status sr = Open ->
  wp (redsocks_event_error ok Client 17) (mkW (K st skip (bufferevent_disable ev_read_only bc) br ce re (got_end sc) sr e) l n) (fun _ => post l).
Proof.
  intros P Hn F O1 O2. unfold redsocks_event_error. replace (17 =? _) with true by reflexivity.
  rewrite bool_decide_true by done. cbn [when]. unfold note_early. rs. rewrite (bool_decide_true (readcb br <> _)) by done. cbn [orb when].
  apply wp_sets. unfold with_me. cbn [me insts asked]. conns. eapply wp_bind, shutdown_ok; [reflexivity..|]. intros sh n'. bevs. intros Hsh. apply wp_when_false.
  { unfold all_shut. bevs. destruct F. destruct (EV_WRITE ce), (EV_WRITE re); rewrite ?andb_false_r; try done. by destruct f_open0. }
  rs. set (bc' := bufferevent_disable ev_read_only (bufferevent_disable ev_read_only bc)).
  assert (Hb : exists er ew en, bc' = with_evs er ew (with_enabled en bc)) by (by eexists _, _, _).
  assert (F' : flags (evs_or ce ev_read_only) re (with_shut sh (got_end sc)) sr).
  { destruct F. constructor; bevs; try done. intros E. by destruct (Hsh E); [apply f_shut0|]. }
  apply wp_when.
  - intros _. eapply shutdown_ok; [reflexivity..|]. intros sh' n2. bevs. intros Hsh'.
    assert (P' : phase (C st skip bc' (bufferevent_disable ev_write_only br) (evs_or ce ev_read_only) (evs_or re ev_write_only)) bc' (bufferevent_disable ev_write_only br)
      (with_shut sh (got_end sc)) (with_shut sh' sr) true false).
    { eapply unstarted_early; try done; bevs; try done. eexists _, _. unfold bufferevent_disable, be_socket_disable. bevs. done. }
    apply wp_when.
    + intros _. eapply drop_post; try done. eapply phase_traffic; [..|exact P']; [done|done|apply F'|done].
    + intros Ha. unfold all_shut in Ha. eapply post_alive; [done|done|]. constructor; try done. destruct F'. constructor; bevs; try done; bevs; try done.
      intros Hc _. revert Ha. bevs. rewrite Hc, f_client0; [done|]. by bevs.
  - intros _. eapply post_alive; [done|done|]. constructor; try done. eapply unstarted_early; try done. exists (ev_write br), (enabled br). by destruct br.
Qed.

(** The proxy closes the connection during the negotiation. *)
Lemma neg_relay_eof st skip wm M R bc br ce re sc sr e n : neg_phase st skip wm M R bc br ce re sc sr e -> flags ce re sc sr ->
  status sc = Open -> status sr = Open ->
  wp (redsocks_event_error ok Relay 17) (mkW (K st skip bc (bufferevent_disable ev_read_only br) ce re sc (got_end sr) e) l n) (fun _ => post l).
Proof.
  intros (H1 & H2 & H3 & H4 & H5 & H6 & H7 & H8 & H9 & H10 & H11 & H12) F O1 O2.
  unfold redsocks_event_error. replace (17 =? _) with true by reflexivity.
  rewrite bool_decide_false by done. cbn [when]. apply wp_bind, wp_ret.
  eapply wp_bind, shutdown_ok; [reflexivity..|]. intros sh n'. bevs. intros Hsh. apply wp_when_false.
  { unfold all_shut. bevs. destruct F. destruct (EV_WRITE ce), (EV_WRITE re); rewrite ?andb_false_r; try done. by destruct f_open0. }
  rs. rewrite (u_output _ _ H2). cbn [length Z.of_nat Z.eqb when].
  eapply shutdown_ok; [reflexivity..|]. intros sh' n2. bevs. intros Hsh'.
  set (bc' := bufferevent_disable ev_write_only bc). set (br' := bufferevent_disable ev_read_only _).
  assert (P : neg_phase st skip wm M R bc' br' (evs_or ce ev_write_only) (evs_or re ev_read_only) (with_shut sh' sc) (with_shut sh (got_end sr)) e).
  { unfold neg_phase, bc', br'. bevs. split_and!; try done; [by destruct H2; constructor|].
    intros He. destruct (H12 He) as (W1 & W2 & W3). split_and!; [done|done|]. intros Hev. by destruct (W3 Hev) as (W4 & W5 & W6). }
  apply wp_when; unfold all_shut; bevs.
  - intros _. eapply drop_post; try done. destruct P as (P1 & P2 & P3 & P4 & P5 & P6 & P7 & P8 & P9 & P10 & P11 & P12).
    eapply phase_traffic; [..|by eapply (Negotiating (C st skip bc' br' _ _))]; [done..|]. bevs. intros E. destruct F. by destruct (Hsh E); [apply f_shut'0|].
  - intros Ha. eapply neg_post; try done. destruct F. constructor; bevs; try done.
    + intros _ Hr. rewrite Hr, f_relay0 in Ha by done. done.
    + intros E. by destruct (Hsh E); [apply f_shut'0|].
Qed.

Lemma neg_phase_alive st skip wm M R bc br ce re sc sr e : neg_phase st skip wm M R bc br ce re sc sr e -> phase (C st skip bc br ce re) bc br sc sr e false.
Proof. intros (P1 & P2 & P3 & P4 & P5 & P6 & P7 & P8 & P9 & P10 & P11 & P12). by eapply Negotiating. Qed.
Lemma unrelayed_read bc sc data : unrelayed bc sc -> unrelayed (with_input (input bc ++ data) bc) (got_more sc data).
Proof. intros []. constructor; bevs; try done. by rewrite u_input0. Qed.
Lemma unrelayed_written bc sc ew : unrelayed bc sc -> unrelayed (with_evs (ev_read bc) ew (with_output [] bc)) (wrote_sock sc []).
Proof. intros []. constructor; bevs; try done. cbn; by rewrite u_wrote0. Qed.

Lemma neg_drop st skip wm M R bc br ce re sc sr e bc' br' n : neg_phase st skip wm M R bc br ce re sc sr e -> flags ce re sc sr ->
  status sc = Open -> status sr = Open ->
  wp (redsocks_drop_client ok) (mkW (K st skip bc' br' ce re sc sr e) l n) (fun _ => post l).
Proof. intros P F O1 O2. eapply drop_post; try done. eapply phase_traffic; [..|by eapply neg_phase_alive]; by destruct F. Qed.
Lemma neg_readable s r st skip wm M R bc br ce re sc sr e n : neg_phase st skip wm M R bc br ce re sc sr e -> flags ce re sc sr ->
  status sc = Open -> status sr = Open ->
  wp (bufferevent_readcb ok cfg s r) (mkW (K st skip bc br ce re sc sr e) l n) (fun _ => post l).
Proof.
  intros P F O1 O2. pose proof P as (H1 & H2 & H3 & H4 & H5 & H6 & H7 & H8 & H9 & H10 & H11 & H12).
  assert (Hsame : forall n, post l (mkW (K st skip bc br ce re sc sr e) l n)) by (intros; by eapply neg_post).
  destruct s.
  - eapply readcb_cases; [reflexivity..|intros Hr| | | |]; try done.
    + unfold room in Hr. by rewrite (u_wm _ _ H2) in Hr.
    + intros what Hw. apply event_error_drop; [done|]. by eapply (neg_drop _ _ _ _ _ bc br).
    + eapply early_eof; try done; [by eapply neg_phase_alive|]. by rewrite H3.
    + intros data Hd Hroom Ee. rewrite (u_readcb _ _ H2). assert (Hres : post l (mkW (read_more Client bc data (C st skip bc br ce re) (K st skip bc br ce re sc sr e)) l n)).
      { eapply neg_post; try done; [by destruct F; constructor|]. unfold neg_phase. bevs. split_and!; try done. by apply (unrelayed_read bc sc data). }
      by apply wp_when; intros _; [apply wp_ret|].
  - eapply readcb_cases; [reflexivity..|intros Hr| | | |]; try done.
    + destruct (talk_dialogue _ _ _ _ _ _ _ H1) as [Hwm _]. unfold room in Hr. rewrite H5 in Hr. cbn [high] in Hr. destruct (wm =? 0) eqn:E0; [lia|lia].
    + intros what Hw. apply event_error_drop; [done|]. by eapply (neg_drop _ _ _ _ _ bc br).
    + by eapply neg_relay_eof.
    + intros data Hd Hroom Ee. destruct (talk_dialogue _ _ _ _ _ _ _ H1) as [Hwm _]. unfold room in Hroom. rewrite H5, H3 in *. cbn [low high] in *.
      destruct (Z.eqb_spec wm 0); [lia|]. apply wp_when.
      * intros Hz%Z.leb_le. cbn [run_callback]. rs. eapply reply_ok; try done. rewrite length_app in *. lia.
      * intros Hz%Z.leb_gt. eapply neg_post; try done; [by destruct F; constructor|]. unfold neg_phase. bevs. split_and!; try done. by rewrite H10, app_assoc.
Qed.
Lemma neg_writable s r st skip wm M R bc br ce re sc sr e n : neg_phase st skip wm M R bc br ce re sc sr e -> flags ce re sc sr ->
  status sc = Open -> status sr = Open ->
  wp (bufferevent_writecb ok cfg s r) (mkW (K st skip bc br ce re sc sr e) l n) (fun _ => post l).
Proof.
  intros P F O1 O2. pose proof P as (H1 & H2 & H3 & H4 & H5 & H6 & H7 & H8 & H9 & H10 & H11 & H12).
  assert (Hsame : forall n, post l (mkW (K st skip bc br ce re sc sr e) l n)) by (intros; by eapply neg_post).
  destruct s.
  - eapply writecb_cases; [reflexivity..| | |]; try done.
    + intros what Hw. apply event_error_drop; [done|]. by eapply (neg_drop _ _ _ _ _ bc br).
    + intros sent rest Eo _. rewrite (u_output _ _ H2) in Eo. symmetry in Eo. apply app_eq_nil in Eo as [-> ->]. rewrite (u_writecb _ _ H2), (u_wm' _ _ H2).
      apply wp_ret. eapply neg_post; try done; [by destruct F; constructor|]. unfold neg_phase. bevs. split_and!; try done. by apply unrelayed_written.
  - eapply writecb_cases; [reflexivity..| | |]; try done.
    + intros what Hw. apply event_error_drop; [done|]. by eapply (neg_drop _ _ _ _ _ bc br).
    + intros sent rest Eo _. rewrite H4, H6. cbn [low]. unfold wrote_more. conns.
      set (br' := with_evs _ _ _).
      assert (P' : neg_phase st skip wm M R bc br' ce re sc (wrote_sock sr sent) e).
      { unfold neg_phase, br'. bevs. split_and!; try done; [cbn; by rewrite <- app_assoc, <- Eo|]. intros He. destruct (H12 He) as (W1 & W2 & W3).
        split_and!; [done|done|]. intros Hev. destruct (W3 Hev) as (W4 & W5 & W6). split_and!; [done| |done]. intros Hr.
        destruct (Z.eqb_spec (zlen rest) 0) as [E0%empty|]; [done|]. apply W5. rewrite Eo. by destruct sent. }
      assert (F' : flags ce re sc (wrote_sock sr sent)) by (destruct F; by constructor).
      apply wp_when; [|intros _; by eapply neg_post]. intros Hr%Z.leb_le. assert (rest = []) as -> by (destruct rest; [done|cbn in Hr; lia]).
      cbn [run_callback]. rs. eapply write_law; try done; [by eapply neg_post|]. intros Hs. rs. eapply neg_post; try done.
      revert P'. unfold neg_phase, br'. bevs. intros P'. split_and!; try apply P'; try done. intros He. destruct (H12 He) as (W1 & W2 & W3). cbn in Hs. rewrite Hs. split_and!; [done|done|].
      intros Hev. by destruct (W3 Hev) as (W4 & W5 & W6).
Qed.

Definition connecting (st : Z) (bc br : bufferevent) (ce re : evs) (sc sr : sock) (e : bool) : Prop :=
  fresh i st pw /\ unrelayed bc sc /\ readcb br = None /\ writecb br = Some CConnected /\ input br = [] /\ output br = [] /\ ev_read br = false /\
  wm_read br = Mark 0 0 /\ wm_write br = Mark 0 0 /\ read_suspended br = false /\ got sr = [] /\ wrote sr = [] /\ EV_READ re = false /\
  (e = false -> EV_READ ce = false /\ EV_WRITE (enabled br) = true /\ (events_ok -> ev_read bc = true /\ ev_write br = true)).
Lemma connecting_phase st skip bc br ce re sc sr e : connecting st bc br ce re sc sr e -> phase (C st skip bc br ce re) bc br sc sr e false.
Proof. intros (H1 & H2 & H3 & H4 & H5 & H6 & H7 & H8 & H9 & H10 & H11 & H12 & H13 & H14). by apply Connecting. Qed.
Lemma connecting_post st skip bc br ce re sc sr e l' n : insts_kept l l' -> status sc = Open -> status sr = Open -> flags ce re sc sr ->
  connecting st bc br ce re sc sr e -> post l (mkW (K st skip bc br ce re sc sr e) l' n).
Proof. intros Hk O1 O2 F P. eapply post_alive; [done|done|]. constructor; try done. by apply connecting_phase. Qed.
Lemma connected_ok st skip bc br ce re sc sr e n : connecting st bc br ce re sc sr e -> flags ce re sc sr ->
  status sc = Open -> status sr = Open ->
  wp (redsocks_relay_connected ok cfg) (mkW (K st skip bc (emptied br) ce re sc (wrote_sock sr []) e) l n) (fun _ => post l).
Proof.
  intros (H1 & H2 & H3 & H4 & H5 & H6 & H7 & H8 & H9 & H10 & H11 & H12 & H13 & H14) F O1 O2.
  assert (T : forall e, traffic i dest false sc (wrote_sock sr []) e).
  { intros e'. exists [], []. split; [apply dialogue_start|]. destruct H2. cbn. rewrite H12, H11. done. }
  unfold redsocks_relay_connected. rs. destruct (ok CGetsockopt n); cbn [negb]; [|by eapply drop_post]. rs.
  set (br' := with_cbs _ _ _). eapply first_law; [reflexivity|done|done|]. intros mk msg st' wm Hm Ht.
  eapply (write_helper_msg mk msg st' wm _ _ [] []); try done.
  - constructor; try done; unfold br', emptied, wrote_sock; bevs; try done; [by rewrite H12|congruence].
  - intros He. destruct (H14 He) as (W1 & W2 & W3). unfold br', emptied. bevs. split_and!; [done|done|]. intros Hev. by destruct (W3 Hev).
  - destruct F. by constructor.
Qed.
Lemma connecting_event ev st skip bc br ce re sc sr e n : connecting st bc br ce re sc sr e -> flags ce re sc sr ->
  status sc = Open -> status sr = Open -> pending ev (K st skip bc br ce re sc sr e) = true ->
  wp (handle ok cfg ev) (mkW (K st skip bc br ce re sc sr e) l n) (fun _ => post l).
Proof.
  intros P F O1 O2 Hp. pose proof P as (H1 & H2 & H3 & H4 & H5 & H6 & H7 & H8 & H9 & H10 & H11 & H12 & H13 & H14).
  assert (Hsame : forall n, post l (mkW (K st skip bc br ce re sc sr e) l n)) by (intros; by eapply connecting_post).
  assert (Hdrop : forall bc' br' n, wp (redsocks_drop_client ok) (mkW (K st skip bc' br' ce re sc sr e) l n) (fun _ => post l)).
  { intros. eapply drop_post; try done. eapply phase_traffic; [..|by apply (connecting_phase st skip)]; by destruct F. }
  destruct ev as [[] r|[] r]; cbn in Hp |- *; [|congruence| |].
  - eapply readcb_cases; [reflexivity..|intros Hr| | | |]; try done.
    + unfold room in Hr. by rewrite (u_wm _ _ H2) in Hr.
    + intros what Hw. apply event_error_drop; [done|]. apply Hdrop.
    + eapply early_eof; try done; [by apply connecting_phase|]. by rewrite H3.
    + intros data Hd Hroom Ee. rewrite (u_readcb _ _ H2). assert (Hres : post l (mkW (read_more Client bc data (C st skip bc br ce re) (K st skip bc br ce re sc sr e)) l n)).
      { eapply connecting_post; try done; [by destruct F; constructor|]. unfold connecting. bevs. split_and!; try done. by apply (unrelayed_read bc sc data). }
      by apply wp_when; intros _; [apply wp_ret|].
  - eapply writecb_cases; [reflexivity..| | |]; try done.
    + intros what Hw. apply event_error_drop; [done|]. apply Hdrop.
    + intros sent rest Eo _. rewrite (u_output _ _ H2) in Eo. symmetry in Eo. apply app_eq_nil in Eo as [-> ->]. rewrite (u_writecb _ _ H2), (u_wm' _ _ H2).
      apply wp_ret. eapply connecting_post; try done; [by destruct F; constructor|]. unfold connecting. bevs. split_and!; try done. by apply unrelayed_written.
  - eapply writecb_cases; [reflexivity..| | |]; try done.
    + intros what Hw. apply event_error_drop; [done|]. apply Hdrop.
    + intros sent rest Eo _. rewrite H6 in Eo. symmetry in Eo. apply app_eq_nil in Eo as [-> ->]. rewrite H4, H9. cbn [low length Z.of_nat Z.leb Z.compare when].
      by apply connected_ok.
Qed.
End negotiating.

(** ** Any event *)
Lemma handle_ok ev k l n : insts_ok l -> conn_inv k -> pending ev k = true -> wp (handle ok cfg ev) (mkW k l n) (fun _ => post l).
Proof.
  intros Hl Hk Hp. destruct k as [[c|] sc sr e fin i0 d0]; [|done]. destruct Hk as (bc & br & [A3 A4 A1 A2 O1 O2 F P]).
  destruct c as [i cl re dest st ce rl pw skip]. cbn in *. subst cl re i0 d0.
  destruct P as [ | M R wm | M R Hd Gc Gr E1 E2 Hs H1 H2 D1 D2].
  - by apply connecting_event.
  - destruct ev; [by eapply (neg_readable i dest pw l Hl _ _ st skip wm M R)|by eapply (neg_writable i dest pw l Hl _ _ st skip wm M R)].
  - destruct ev; [by eapply (relaying_readable i dest st pw skip M R l Hl)|by eapply (relaying_writable i dest st pw skip M R l Hl)].
Qed.
Lemma fire_ok ev k l n : insts_ok l -> conn_inv k -> wp (fire ok cfg ev) (mkW k l n) (fun _ => post l).
Proof.
  intros Hl Hk. unfold wp, fire. destruct (pending ev (me (mkW k l n))) eqn:E; [by apply handle_ok|].
  eexists _, _. split; [done|]. by eexists k, l, n.
Qed.

(** ** Accepting *)
Lemma no_traffic i dest sc sr e : wrote sc = [] -> wrote sr = [] -> traffic i dest false sc sr e.
Proof.
  intros E1 E2. exists [], []. split; [apply dialogue_start|]. rewrite E1, E2. split_and!; [done..|]. apply prefix_nil.
Qed.
Lemma ended_post k l l' n : insts_kept l l' -> self k = None -> relayed k = false -> status (sock_client k) <> Open -> status (sock_relay k) <> Open ->
  wrote (sock_client k) = [] -> wrote (sock_relay k) = [] -> post l (mkW k l' n).
Proof. intros Hk E Ef S1 S2 W1 W2. exists k, l', n. split; [done|]. split; [|done]. unfold conn_inv. rewrite E, Ef. split_and!; [done..|]. by apply no_traffic. Qed.
Definition open_blank : sock := mkSock Open [] [] false no_ev.
(** A client without a relay is dropped. *)
Lemma drop_lonely c l n sr e i dest : insts_ok l -> relay c = None -> client c <> None -> status sr <> Open -> wrote sr = [] ->
  wp (redsocks_drop_client ok) (mkW (mkConn (Some c) open_blank sr e false i dest) l n) (fun _ => post l).
Proof.
  intros Hl Er Hc Hs Hw. unfold redsocks_drop_client. rs. rewrite Er. destruct (client c); [|done]. 
  eapply wp_mono; [by apply redsocks_close_ok|]. intros _ w' (l1 & n1 & -> & K1). rs. by apply ended_post.
Qed.
Lemma connect_relay_ok c bc l n : insts_ok l -> fresh (instance c) (state c) (do_password c) -> client c = Some bc -> relay c = None ->
  client_evshut c = no_ev -> relay_evshut c = no_ev -> unrelayed bc open_blank -> (events_ok -> ev_read bc = true) ->
  wp (redsocks_connect_relay ok) (mkW (mkConn (Some c) open_blank unused_sock false false (instance c) (destaddr c)) l n) (fun _ => post l).
Proof.
  intros Hl Hf Ec Er C1 C2 Hu Hev. destruct c as [i cl rl dest st ce re pw skip]. cbn in *. subst cl rl ce re.
  unfold redsocks_connect_relay, red_connect_relay, open_sock. rs.
  destruct (ok CSocket n); cbn [negb]; [|rs; by apply drop_lonely]. rs.
  destruct (_ && ok CBufferevent _); cbn [negb].
  2:{ rs. eapply wp_mono; [by apply redsocks_close_ok|]. intros _ w' (l1 & n1 & -> & K1). rs.
      eapply wp_mono; [apply drop_lonely; [apply K1|done..]|]. intros _ w' (k2 & l2 & n2 & -> & Hk & K2). exists k2, l2, n2. split_and!; [done|done|].
      by eapply insts_kept_trans. }
  apply wp_bind, bufferevent_enable_ok. intros r br n1 (er & ew & -> & R1 & _ & _ & R2). destruct r; cbn [negb].
  - rs. eapply connecting_post; [done..| |].
    + by constructor.
    + unfold connecting. bevs. split_and!; try done; [destruct er; [|done]; by destruct (R1 eq_refl) as [?|[? _]]|].
      intros _. split_and!; [done..|]. intros Ho. split; [by apply Hev|]. by apply (R2 Ho).
  - rs. eapply wp_mono; [by apply redsocks_close_ok|]. intros _ w' (l1 & n2 & -> & K1). rs.
    eapply wp_mono; [apply drop_lonely; [apply K1|done..]|]. intros _ w' (k2 & l2 & n3 & -> & Hk & K2). exists k2, l2, n3. split_and!; [done|done|].
    by eapply insts_kept_trans.
Qed.
Lemma post_from l l1 w : insts_kept l l1 -> post l1 w -> post l w.
Proof. intros K (k & l' & n & -> & H & K'). exists k, l', n. split_and!; [done|done|]. by eapply insts_kept_trans. Qed.
Lemma accepted_ok i dest x l n : insts_ok l -> l !! i = Some x -> listener x = true ->
  wp (accepted ok cfg i dest) (mkW (new_conn i dest) l n) (fun _ => post l).
Proof.
  intros Hl E El. unfold accepted, open_sock. rs. eapply wp_the_inst; [done|]. apply wp_bind, wp_set_inst.
  set (l1 := <[i := _]> l). assert (K : insts_kept l l1).
  { split; [|unfold l1; by rewrite length_insert]. apply insts_ok_insert; [done|]. destruct (Hl _ _ E) as (H1 & H2 & H3 & H4).
    split; [done|]. split; [by left|]. split; [done|]. cbn. intros Ho Hb. rewrite (H1 Ho), El in Hb. done. }
  assert (Hmono : forall m w, wp m w (fun _ : unit => post l1) -> wp m w (fun _ => post l)).
  { intros m w H. eapply wp_mono; [exact H|]. intros ? ?. by apply post_from. }
  apply Hmono. clear Hmono. assert (Hl1 : insts_ok l1) by apply K. rs. destruct (_ && ok CCalloc _); cbn [negb].
  2:{ eapply wp_mono; [by apply redsocks_close_ok|]. intros _ w' (l2 & n1 & -> & K1). by apply ended_post. }
  rs. eapply wp_mono; [by apply init_law|]. intros _ w' (st & pw & -> & Hf). rs.
  destruct (_ && ok CBufferevent _); cbn [negb].
  2:{ unfold redsocks_drop_client. rs. unfold new_client, new_conn. conns. rs. eapply wp_mono; [by apply redsocks_close_ok|]. intros _ w' (l2 & n1 & -> & K1). by apply ended_post. }
  rs. eapply wp_enable; [reflexivity..|]. intros r bc n1 (er & ew & -> & _ & _ & _ & R2). conns. destruct r; cbn [negb].
  - eapply connect_relay_ok; try done. intros Ho. by apply (R2 Ho).
  - by apply drop_lonely.
Qed.
Lemma clamp_bounds v lo hi : lo <= hi -> lo <= clamp_value v lo hi <= hi.
Proof. intros H. unfold clamp_value. destruct (Z.ltb_spec v lo); [|destruct (Z.ltb_spec hi v); lia]. destruct (Z.ltb_spec hi lo); lia. Qed.
Lemma accept_failed_ok i lack rnd x k l n : insts_ok l -> backoff_ok (cfg i) -> l !! i = Some x -> listener x = true ->
  wp (accept_failed ok cfg i lack rnd) (mkW k l n) (fun _ w => exists l' n', w = mkW k l' n' /\ insts_kept l l').
Proof.
  intros Hl Hb E El. unfold accept_failed. apply wp_when; [intros _|intros _; by eexists _, _]. eapply wp_bind, wp_the_inst; [done|]. apply wp_bind, wp_set_inst.
  pose proof (clamp_bounds (u16 (Z.shiftl (accept_backoff_ms x) 1 + 1)) _ _ (proj2 Hb)) as Hms. set (ms := clamp_value _ _ _) in *.
  assert (Hms0 : 0 < ms) by (unfold backoff_ok in Hb; lia). apply wp_bind, wp_ASSERT; [lia|].
  pose proof (Z.mod_pos_bound (rnd mod 2 ^ 31) ms Hms0) as Hd. set (d := _ mod ms) in *.
  set (x1 := mkInst _ _ _ _). assert (E1 : (<[i := x1]> l : list _) !! i = Some x1) by (apply list_lookup_insert_eq; by eapply lookup_lt_Some).
  eapply wp_mono.
  { eapply (exchange_ok _ _ i _ _ _ x1 (fun y b => mkInst b (accept_backoff y) (tvdelay y) (accept_backoff_ms y)) (fun y b => mkInst (listener y) b (d + 1) (accept_backoff_ms y))); [done| |].
    - intros b y l' n' Q. apply wp_set_listener.
    - intros b y l' n' Q. apply wp_set_pause. }
  intros _ w' (x' & n' & -> & Hx & Ho). rewrite list_insert_insert_eq. eexists _, _. split; [done|]. split; [|by rewrite length_insert].
  apply insts_ok_insert; [done|]. destruct (Hl _ _ E) as (H1 & _ & H3 & _). split; [by intros ->%Ho|].
  split; [right; by destruct Hx as [->|[->|[->| ->]]]|]. split; [|intros ->%Ho _; cbn; lia].
  destruct Hx as [->|[->|[->| ->]]]; cbn; try exact H3; intros _; lia.
Qed.
End invariant.
End RedsocksInv.
