(* ===== verification/RedsocksSocks.v ===== *)
(** * redsocks: the protocols and the whole program

    What a negotiation in SOCKS5 and in SOCKS4 is, that socks5.c and socks4.c follow it
    (the instances of [RelaySubsys]), and the properties of the program: what passes
    through a connection, how its end is passed on, what it waits for, and accepting. *)
From stdpp Require Import gmap.
From S2P Require Import Prelude Handlers Redsocks RedsocksInv.
Local Open Scope Z_scope.

Module RedsocksSocks.
Export RedsocksInv.
#[local] Abbreviation act := (prog world).

(** ** Negotiations *)

(** SOCKS5: the methods, and the user name and password if the proxy asks for them. *)
Definition methods_message (pw : bool) : list Z := if pw then [5; 2; 0; 2] else [5; 1; 0].
Definition can_login (conf : redsocks_config) : bool := socks5_is_valid_cred (login conf) (password conf).
Definition password_message (user pass : list Z) : list Z := [1; zlen user] ++ user ++ [zlen pass] ++ pass.
Inductive greeting (conf : redsocks_config) : list Z -> list Z -> Prop :=
| greet_none : greeting conf (methods_message (can_login conf)) [5; 0]
| greet_password user pass : can_login conf = true -> login conf = Some user -> password conf = Some pass ->
    greeting conf (methods_message true ++ password_message user pass) [5; 2; 1; 0].
Definition connect_message (dest : sockaddr_in) : list Z := [5; 1; 0; 1] ++ sin_addr dest ++ sin_port dest.
(** The address that the proxy reports: IPv4, a name with its length, or IPv6, and a port. *)
Inductive bound_address : Z -> list Z -> Prop :=
| bound_ipv4 a : zlen a = 4 + 2 -> bound_address 1 a
| bound_name n a : zlen a = u8 n + 2 -> bound_address 3 (n :: a)
| bound_ipv6 a : zlen a = 16 + 2 -> bound_address 4 a.
Inductive socks5_dialogue (conf : redsocks_config) (dest : sockaddr_in) : list Z -> list Z -> bool -> Prop :=
| s5_start : socks5_dialogue conf dest [] [] false
| s5_methods : socks5_dialogue conf dest (methods_message (can_login conf)) [] false
| s5_password user pass : can_login conf = true -> login conf = Some user -> password conf = Some pass ->
    socks5_dialogue conf dest (methods_message true ++ password_message user pass) [5; 2] false
| s5_request G A : greeting conf G A -> socks5_dialogue conf dest (G ++ connect_message dest) A false
| s5_reply G A x t a a' : greeting conf G A -> bound_address t (a ++ a') ->
    socks5_dialogue conf dest (G ++ connect_message dest) (A ++ [5; 0; x; t] ++ a) false
| s5_done G A x t a : greeting conf G A -> bound_address t a ->
    socks5_dialogue conf dest (G ++ connect_message dest) (A ++ [5; 0; x; t] ++ a) true.
(** SOCKS4: one request and one reply of eight bytes. *)
Definition socks4_message (conf : redsocks_config) (dest : sockaddr_in) : list Z :=
  [4; 1] ++ sin_port dest ++ sin_addr dest ++ (match login conf with Some l => l | None => [] end) ++ [0].
Inductive socks4_dialogue (conf : redsocks_config) (dest : sockaddr_in) : list Z -> list Z -> bool -> Prop :=
| s4_start : socks4_dialogue conf dest [] [] false
| s4_request : socks4_dialogue conf dest (socks4_message conf dest) [] false
| s4_done a : zlen a = 6 -> socks4_dialogue conf dest (socks4_message conf dest) ([0; 90] ++ a) true.

Section protocols.
Context (ok : call -> nat -> bool) (cfg : nat -> redsocks_config) (Hreq : requests_ok ok).

Lemma mkevbuffer_makes c msg : makes (mkevbuffer ok msg) c msg.
Proof.
  intros k l n E. unfold mkevbuffer. apply wp_bind, wp_ask. destruct (ok CEvbuffer n); cbn [negb]; [|apply wp_ret; eauto].
  apply wp_bind, wp_ask, wp_ret. eexists. split; [done|]. destruct (ok CEvbuffer (S n)); auto.
Qed.
Lemma mkmethods_makes c : makes (socks5_mkmethods ok) c (methods_message (do_password c)).
Proof.
  intros k l n E. unfold socks5_mkmethods, socks5_mkmethods_plain. eapply wp_bind, wp_the_client; [done|]. apply wp_bind, wp_ask.
  apply wp_bind, wp_ASSERT; [apply Hreq|]. pose proof (mkevbuffer_makes c (methods_message (do_password c)) k l (S n) E) as H. by destruct (do_password c).
Qed.
Lemma valid_cred conf : can_login conf = true -> exists user pass, login conf = Some user /\ password conf = Some pass /\ zlen user <= 255 /\ zlen pass <= 255.
Proof.
  unfold can_login, socks5_is_valid_cred. intros H. destruct (login conf) as [u|]; [|done]. destruct (password conf) as [p|]; [|done].
  destruct (Z.ltb_spec 255 (zlen u)); [done|]. destruct (Z.ltb_spec 255 (zlen p)); [done|]. eauto 10.
Qed.
Lemma mkpassword_makes c user pass : can_login (cfg (instance c)) = true -> login (cfg (instance c)) = Some user -> password (cfg (instance c)) = Some pass ->
  makes (socks5_mkpassword ok cfg) c (password_message user pass).
Proof.
  intros Hc E1 E2 k l n E. destruct (valid_cred _ Hc) as (u & p & E3 & E4 & L1 & L2). unfold socks5_mkpassword, config, socks5_mkpassword_plain.
  apply wp_bind. eapply wp_bind, wp_the_client; [done|]. apply wp_ret. rewrite E1, E2. apply wp_bind, (wp_some _ user); [done|].
  apply wp_bind, (wp_some _ pass); [done|]. assert (u = user /\ p = pass) as [-> ->] by (split; congruence).
  rewrite !u8_small by lia. by apply (mkevbuffer_makes c (password_message user pass)).
Qed.
Lemma mkconnect_makes c : makes (socks5_mkconnect ok) c (connect_message (destaddr c)).
Proof. intros k l n E. unfold socks5_mkconnect, socks5_mkcommand_plain. eapply wp_bind, wp_the_client; [done|]. by apply (mkevbuffer_makes c (connect_message (destaddr c))). Qed.
Lemma socks4_makes c : makes (socks4_mkconnect ok cfg) c (socks4_message (cfg (instance c)) (destaddr c)).
Proof.
  intros k l n E. unfold socks4_mkconnect, config. apply wp_bind. eapply wp_bind, wp_the_client; [done|]. apply wp_ret.
  eapply wp_bind, wp_the_client; [done|]. apply wp_bind, wp_ask. apply wp_bind, wp_ASSERT; [apply Hreq|].
  by apply (mkevbuffer_makes c (socks4_message (cfg (instance c)) (destaddr c))).
Qed.

(** A reply of the expected size. *)
Lemma wp_read_expected cmp m c br k l n (Q : option (list Z) -> world -> Prop) : self k = Some c -> relay c = Some br ->
  zlen (input br) = m -> cmp m m = true ->
  Q (Some (input br)) (mkW (with_self (Some (consumed c br (state c) (to_skip c))) k) l n) ->
  wp (redsocks_read_expected ok cmp m) (mkW k l n) Q.
Proof.
  intros E Er Hm Hc HQ. unfold redsocks_read_expected. eapply wp_bind, wp_bev; [done..|]. rewrite Hm, Hc.
  eapply wp_bind, wp_set_bev; [done|]. rewrite <- Hm, Nat2Z.id, drop_all, take_ge by lia.
  apply wp_bind, wp_ASSERT; [apply Z.eqb_refl|]. by apply wp_ret.
Qed.

(** ** SOCKS5 *)
Definition socks5_fresh (conf : redsocks_config) (st : Z) (pw : bool) : Prop := st = socks5_new /\ pw = can_login conf.
(** After the messages [M] and the replies [R]. *)
Inductive socks5_talk (conf : redsocks_config) (dest : sockaddr_in) : Z -> bool -> Z -> Z -> list Z -> list Z -> Prop :=
| t5_methods skip : socks5_talk conf dest socks5_method_sent (can_login conf) skip 2 (methods_message (can_login conf)) []
| t5_password skip user pass : can_login conf = true -> login conf = Some user -> password conf = Some pass ->
    socks5_talk conf dest socks5_auth_sent (can_login conf) skip 2 (methods_message true ++ password_message user pass) [5; 2]
| t5_request skip G A : greeting conf G A -> socks5_talk conf dest socks5_request_sent (can_login conf) skip 4 (G ++ connect_message dest) A
| t5_domain skip G A x : greeting conf G A ->
    socks5_talk conf dest socks5_skip_domain (can_login conf) skip 1 (G ++ connect_message dest) (A ++ [5; 0; x; 3])
| t5_address skip G A x t a : greeting conf G A -> 0 < skip -> (forall a', zlen a' = skip -> bound_address t (a ++ a')) ->
    socks5_talk conf dest socks5_skip_address (can_login conf) skip skip (G ++ connect_message dest) (A ++ [5; 0; x; t] ++ a).

Lemma zlen_2 (m : list Z) : zlen m = 2 -> exists a b, m = [a; b].
Proof. destruct m as [|a [|b [|]]]; cbn; try lia. eauto. Qed.
Lemma zlen_4 (m : list Z) : zlen m = 4 -> exists a b c d, m = [a; b; c; d].
Proof. destruct m as [|a [|b [|c [|d [|]]]]]; cbn; try lia. eauto. Qed.
Lemma zlen_1 (m : list Z) : zlen m = 1 -> exists a, m = [a].
Proof. destruct m as [|a [|]]; cbn; try lia. eauto. Qed.
Lemma zeros n : 0 <= n -> exists m : list Z, zlen m = n.
Proof. intros H. exists (replicate (Z.to_nat n) 0). rewrite length_replicate. lia. Qed.

Lemma socks5_talk_dialogue conf dest st pw skip wm M R : socks5_talk conf dest st pw skip wm M R -> 0 < wm /\ socks5_dialogue conf dest M R false.
Proof.
  intros [| | |sk G A x|sk G A x t a Hg Hs Hb]; split; try lia; try by econstructor.
  - destruct (zeros (u8 0 + 2)) as [m Hm]; [by vm_compute|]. apply (s5_reply _ _ _ _ x 3 [] (0 :: m)); [done|]. by constructor.
  - destruct (zeros sk) as [m Hm]; [lia|]. by eapply s5_reply, (Hb m).
Qed.
(** Unfolding the callbacks on a client whose state is known. *)
Section socks5_reads.
Context (i : nat) (c : redsocks_client) (br : bufferevent) (M R : list Z) (k : conn) (l : list redsocks_instance) (n : nat) (Q : unit -> world -> Prop).
Context (Ek : self k = Some c) (Ei : instance c = i) (Er : relay c = Some br).
Abbreviation at_consumed st skip := (mkW (with_self (Some (consumed c br st skip)) k) l n).
Context (Hdrop : forall st skip, wp (redsocks_drop_client ok) (at_consumed st skip) Q).
Context (Hsend : forall mk msg st skip st' wm', true = true -> makes mk (consumed c br st skip) msg ->
  socks5_talk (cfg i) (destaddr c) st' (do_password c) skip wm' (M ++ msg) (R ++ input br) ->
  wp (redsocks_write_helper ok (Some mk) st' wm') (at_consumed st skip) Q).
Context (Hwait : forall st skip st' wm', (true = true -> true = true) -> socks5_talk (cfg i) (destaddr c) st' (do_password c) skip wm' M (R ++ input br) ->
  wp (redsocks_write_helper ok None st' wm') (at_consumed st skip) Q).
Context (Hrelay : forall st skip, socks5_dialogue (cfg i) (destaddr c) M (R ++ input br) true -> wp (redsocks_start_relay ok) (at_consumed st skip) Q).

Lemma read_auth_methods_ok : do_password c = can_login (cfg i) -> zlen (input br) = 2 -> M = methods_message (do_password c) -> R = [] ->
  wp (socks5_read_auth_methods ok cfg) (mkW k l n) Q.
Proof.
  intros Hp Hz HM HR. unfold socks5_read_auth_methods. eapply wp_bind, wp_read_expected; [done..|].
  destruct (zlen_2 _ Hz) as (ver & method & Ein). rewrite Ein in *. eapply wp_bind, wp_the_client; [done|]. cbn [do_password consumed with_state with_to_skip with_bev].
  unfold socks5_is_known_auth_method. destruct (Z.eqb_spec ver socks5_ver) as [->|]; cbn [negb]; [|apply Hdrop].
  destruct (Z.eqb_spec method socks5_auth_invalid) as [->|_]; [apply Hdrop|].
  destruct (Z.eqb_spec method socks5_auth_none) as [->|_]; cbn [negb andb].
  - eapply Hsend; [done|apply mkconnect_makes|]. subst M R. rewrite Hp. apply t5_request. constructor.
  - destruct (Z.eqb_spec method socks5_auth_password) as [->|]; cbn [negb andb]; [|apply Hdrop].
    destruct (do_password c) eqn:Ed; cbn [negb]; [|apply Hdrop]. cbn [when].
    destruct (valid_cred (cfg i)) as (u & p & E1 & E2 & _); [done|]. rewrite <- Ei in E1, E2, Hp.
    eapply Hsend; [done|by apply (mkpassword_makes _ u p)|]. subst M R. rewrite Ei in *.
    pose proof (t5_password (cfg i) (destaddr c) (to_skip c) u p) as Ht. rewrite <- Hp in Ht. by apply Ht.
Qed.
Lemma read_auth_reply_ok user pass : do_password c = can_login (cfg i) -> can_login (cfg i) = true -> login (cfg i) = Some user -> password (cfg i) = Some pass ->
  zlen (input br) = 2 -> M = methods_message true ++ password_message user pass -> R = [5; 2] ->
  wp (socks5_read_auth_reply ok) (mkW k l n) Q.
Proof.
  intros Hp Hc E1 E2 Hz HM HR. unfold socks5_read_auth_reply. eapply wp_bind, wp_read_expected; [done..|].
  destruct (zlen_2 _ Hz) as (ver & stat & Ein). rewrite Ein in *.
  destruct (Z.eqb_spec ver socks5_password_ver) as [->|]; cbn [negb]; [|apply Hdrop].
  destruct (Z.eqb_spec stat socks5_password_passed) as [->|]; [|apply Hdrop].
  eapply Hsend; [done|apply mkconnect_makes|]. subst M R. rewrite Hp. apply t5_request. by constructor.
Qed.
Lemma read_reply_ok G : do_password c = can_login (cfg i) -> greeting (cfg i) G R -> M = G ++ connect_message (destaddr c) -> zlen (input br) = 4 ->
  wp (socks5_read_reply ok) (mkW k l n) Q.
Proof.
  intros Hp Hg HM Hz. unfold socks5_read_reply. eapply wp_bind, wp_read_expected; [done..|].
  destruct (zlen_4 _ Hz) as (ver & stat & x & t & Ein). rewrite Ein in *.
  destruct (Z.eqb_spec ver socks5_ver) as [->|]; cbn [negb]; [|apply Hdrop].
  destruct (Z.eqb_spec stat socks5_status_succeeded) as [->|]; [|apply Hdrop].
  destruct (Z.eqb_spec t socks5_addrtype_ipv4) as [->|_].
  { eapply wp_bind, wp_update; [done|]. eapply (Hwait (state c) 6); [done|]. subst M. rewrite Hp. apply (t5_address _ _ 6 G R x 1 []); [done|done|]. by constructor. }
  destruct (Z.eqb_spec t socks5_addrtype_ipv6) as [->|_].
  { eapply wp_bind, wp_update; [done|]. eapply (Hwait (state c) 18); [done|]. subst M. rewrite Hp. apply (t5_address _ _ 18 G R x 4 []); [done|done|]. by constructor. }
  destruct (Z.eqb_spec t socks5_addrtype_domain) as [->|_]; [|apply Hdrop].
  eapply Hwait; [done|]. subst M. rewrite Hp. by apply t5_domain.
Qed.
Lemma socks5_read_ok st pw sk wm M' R' : socks5_talk (cfg i) (destaddr c) st pw sk wm M' R' -> state c = st -> do_password c = pw -> to_skip c = sk ->
  M' = M -> R' = R -> zlen (input br) = wm -> wp (socks5_read_cb ok cfg) (mkW k l n) Q.
Proof.
  intros Ht Est Epw Esk EM ER Hz. unfold socks5_read_cb. eapply wp_bind, wp_the_client; [done|]. rewrite Est.
  destruct Ht as [sk|sk u p Hc E1 E2|sk G A Hg|sk G A x Hg|sk G A x t a Hg Hs Hb]; cbn [Z.eqb Pos.eqb socks5_method_sent socks5_auth_sent socks5_request_sent socks5_skip_domain socks5_skip_address].
  - apply read_auth_methods_ok; congruence.
  - by eapply read_auth_reply_ok.
  - eapply read_reply_ok; [done|by rewrite <- ER|done|done].
  - eapply wp_bind, wp_read_expected; [done..|]. destruct (zlen_1 _ Hz) as (size & Ein). rewrite Ein.
    eapply wp_bind, wp_update; [done|]. eapply (Hwait (state c) (u8 size + 2)); [done|]. rewrite Ein, <- EM, <- ER, <- app_assoc, Epw.
    apply (t5_address _ _ _ G A x 3 [size]); [done| |].
    + pose proof (u8_range size). lia.
    + intros a' Ha. by constructor.
  - eapply wp_bind, wp_read_expected; [done|done|by rewrite Esk|by apply Z.leb_le|]. eapply (Hrelay (state c) (to_skip c)).
    rewrite <- EM, <- ER, <- !app_assoc. apply s5_done; [done|]. by apply Hb.
Qed.
End socks5_reads.

#[export] Instance socks5_ok i : RelaySubsys ok i (socks5_subsys ok cfg).
Proof.
  refine {| dialogue := socks5_dialogue (cfg i); fresh := socks5_fresh (cfg i); talk := socks5_talk (cfg i); sends := fun _ => true |}.
  - constructor.
  - apply socks5_talk_dialogue.
  - intros c k l n E Ei. cbn. unfold socks5_client_init, config. apply wp_bind. eapply wp_bind, wp_the_client; [done|]. apply wp_ret.
    eapply wp_bind, wp_update; [done|]. eapply wp_update; [done|]. eexists _, _. split; [done|]. by rewrite Ei.
  - intros c k l n Q E Ei [Es Ep] H. cbn. unfold socks5_write_cb. eapply wp_bind, wp_the_client; [done|]. rewrite Es. cbn.
    eapply H; [by apply mkmethods_makes|]. rewrite Ep. constructor.
  - intros c wm M R k l n Q E Ei Ht HQ _. cbn. unfold socks5_write_cb. eapply wp_bind, wp_the_client; [done|]. apply wp_when_false; [|done].
    by inversion Ht.
  - intros c br wm M R k l n Q E Ei Er Ht Hz H1 H2 H3 H4. eapply (socks5_read_ok i); done.
Defined.

(** ** SOCKS4 *)
Inductive socks4_talk (conf : redsocks_config) (dest : sockaddr_in) : Z -> bool -> Z -> Z -> list Z -> list Z -> Prop :=
| t4_request pw skip : socks4_talk conf dest socks4_request_sent pw skip 8 (socks4_message conf dest) [].
Lemma socks4_read_ok i c br wm M R k l n (Q : unit -> world -> Prop) : self k = Some c -> relay c = Some br ->
  socks4_talk (cfg i) (destaddr c) (state c) (do_password c) (to_skip c) wm M R -> zlen (input br) = wm ->
  (forall st skip, wp (redsocks_drop_client ok) (mkW (with_self (Some (consumed c br st skip)) k) l n) Q) ->
  (forall st skip, socks4_dialogue (cfg i) (destaddr c) M (R ++ input br) true ->
     wp (redsocks_start_relay ok) (mkW (with_self (Some (consumed c br st skip)) k) l n) Q) ->
  wp (socks4_read_cb ok) (mkW k l n) Q.
Proof.
  intros E Er Ht Hz Hdrop Hrelay. unfold socks4_read_cb. eapply wp_bind, wp_the_client; [done|]. inversion Ht as [pw sk Es Ep Ek Ew EM ER]. subst wm.
  apply wp_bind, wp_ASSERT; [done|]. apply wp_when_true; [done|]. eapply wp_bind, wp_read_expected; [done..|].
  destruct (input br) as [|ver [|stat a]] eqn:Ein; [cbn in *; lia..|]. eapply wp_bind, wp_update; [done|].
  destruct (Z.eqb_spec ver 0) as [->|]; cbn [negb]; [|apply (Hdrop socks4_reply_came (to_skip c))].
  destruct (Z.eqb_spec stat socks4_status_ok) as [->|]; [|apply (Hdrop socks4_reply_came (to_skip c))].
  apply (Hrelay socks4_reply_came (to_skip c)). subst M R. apply (s4_done _ _ a). cbn in *. lia.
Qed.
#[export] Instance socks4_ok i : RelaySubsys ok i (socks4_subsys ok cfg).
Proof.
  refine {| dialogue := socks4_dialogue (cfg i); fresh := fun st _ => st = socks4_new; talk := socks4_talk (cfg i); sends := fun st => st =? socks4_new |}.
  - constructor.
  - intros dest st pw skip wm M R []. split; [done|]. constructor.
  - intros c k l n E Ei. cbn. unfold socks4_client_init. eapply wp_update; [done|]. exists socks4_new, (do_password c). by destruct c.
  - intros c k l n Q E Ei Es H. cbn. unfold socks4_write_cb. eapply wp_bind, wp_the_client; [done|]. rewrite Es. cbn.
    eapply H; [by apply socks4_makes|]. rewrite Ei. constructor.
  - intros c wm M R k l n Q E Ei Ht HQ Hd. cbn. unfold socks4_write_cb. eapply wp_bind, wp_the_client; [done|].
    inversion Ht as [pw sk Es Ep Ek Ew EM ER]. cbn. apply Hd. by rewrite <- Es.
  - intros c br wm M R k l n Q E Ei Er Ht Hz H1 H2 H3 H4. by eapply (socks4_read_ok i).
Defined.
(** The protocol of an instance. *)
#[export] Instance subsys_ok i : RelaySubsys ok i (relay_ss ok cfg i).
Proof. unfold relay_ss. destruct (type (cfg i)); [apply socks4_ok|apply socks5_ok]. Defined.
Definition proxy_dialogue (i : nat) (dest : sockaddr_in) (M R : list Z) (fin : bool) : Prop :=
  match type (cfg i) with socks4 => socks4_dialogue (cfg i) dest M R fin | socks5 => socks5_dialogue (cfg i) dest M R fin end.
Lemma dialogue_proxy i dest M R fin : @dialogue ok i (relay_ss ok cfg i) _ dest M R fin -> proxy_dialogue i dest M R fin.
Proof. unfold proxy_dialogue, subsys_ok, relay_ss. by destruct (type (cfg i)). Qed.

(** ** The program *)
Context (Hcfg : forall i, backoff_ok (cfg i)).
Definition sys_inv (s : system) : Prop := map_Forall (fun _ => conn_inv ok cfg) (conns s) /\ insts_ok ok cfg (sys_insts s).
Lemma on_conn_inv k c m s : sys_inv s -> wp m (mkW c (sys_insts s) (sys_asked s)) (fun _ => post ok cfg (sys_insts s)) ->
  exists s', on_conn k c m s = Ret s' /\ sys_inv s'.
Proof.
  intros [Hc Hl] (u & w & E & k' & l' & n' & -> & Hk & [Hl' _]).
  eexists. unfold on_conn. rewrite E. split; [done|]. split; [|done]. cbn. by apply map_Forall_insert_2.
Qed.
Lemma on_none_inv m s : sys_inv s ->
  (forall k, wp m (mkW k (sys_insts s) (sys_asked s)) (fun _ w => exists l' n', w = mkW k l' n' /\ insts_kept ok cfg (sys_insts s) l')) ->
  exists s', on_none m s = Ret s' /\ sys_inv s'.
Proof.
  intros [Hc Hl] H. destruct (H (new_conn 0 (mkAddr [] []))) as (u & w & E & l' & n' & -> & [Hl' _]).
  eexists. unfold on_none. rewrite E. by split.
Qed.
Lemma sys_step_inv e s : sys_inv s -> exists s', sys_step ok cfg e s = Ret s' /\ sys_inv s'.
Proof.
  intros Hs. pose proof Hs as [Hc Hl]. destruct e as [k e|i k res|i]; cbn [sys_step].
  - destruct (conns s !! k) as [c|] eqn:E; [|eauto]. apply on_conn_inv; [done|]. apply fire_ok; [done|]. by eapply (Hc k).
  - destruct (conns s !! k); [eauto|]. destruct (sys_insts s !! i) as [x|] eqn:Ex; [|eauto]. destruct (listener x) eqn:Elx; [|eauto].
    destruct res as [lack rnd|dest].
    + apply on_none_inv; [done|]. intros k0. by eapply accept_failed_ok.
    + apply on_conn_inv; [done|]. by eapply accepted_ok.
  - destruct (sys_insts s !! i) as [x|] eqn:Ex; [|eauto]. destruct (accept_backoff x); [|eauto].
    apply on_none_inv; [done|]. intros k0. by eapply accept_backoff_kept.
Qed.
Lemma sys_run_inv es s : sys_inv s -> exists s', sys_run ok cfg es s = Ret s' /\ sys_inv s'.
Proof.
  revert s. induction es as [|e es IH]; intros s Hs; [by exists s|]. destruct (sys_step_inv e s Hs) as (s1 & E & H1). cbn. rewrite E. by apply IH.
Qed.
Lemma sys_init_inv n : sys_inv (init n).
Proof.
  split; [apply map_Forall_empty|]. intros i x H. apply lookup_replicate in H as [-> _]. split; [done|]. split; [by left|]. by split.
Qed.
Lemma sys_reach_inv es n s : sys_run ok cfg es (init n) = Ret s -> sys_inv s.
Proof. intros E. destruct (sys_run_inv es (init n) (sys_init_inv n)) as (s' & E' & H). rewrite E in E'. by injection E' as ->. Qed.
Lemma conn_traffic c : conn_inv ok cfg c -> traffic ok cfg (inst_of c) (dest_of c) (relayed c) (sock_client c) (sock_relay c) (early c).
Proof.
  unfold conn_inv. destruct (self c); [|by intros (_ & _ & ?)]. intros (bc & br & [A1 A2 _ _ _ _ F P]). destruct F. by eapply phase_traffic.
Qed.
End protocols.

(** What a connection waits for. *)
Definition waits (c : redsocks_client) (bc br : bufferevent) : Prop :=
  match readcb br with
  | None => ev_read bc = true /\ ev_write br = true                       (* the connection to the proxy *)
  | Some CSubsysRead =>                                                   (* its next reply *)
      ev_read bc = true /\ (output br <> [] -> ev_write br = true) /\ (EV_READ (relay_evshut c) = false -> ev_read br = true)
  | _ =>
      (EV_WRITE (relay_evshut c) = false ->
         (input bc <> [] \/ output br <> [] -> ev_write br = true) /\ (read_suspended bc = false -> ev_read bc = true \/ ev_write br = true)) /\
      (EV_WRITE (client_evshut c) = false ->
         (input br <> [] \/ output bc <> [] -> ev_write bc = true) /\ (ev_read br = true \/ ev_write bc = true)) /\
      (EV_WRITE (relay_evshut c) = false \/ EV_WRITE (client_evshut c) = false)
  end.
Lemma dir_waits ok fR tW inp evr susp out enw evw : dir ok fR tW inp evr susp out enw evw -> events_ok ok -> tW = false ->
  (inp <> [] \/ out <> [] -> evw = true) /\ (susp = false -> evr = true \/ evw = true).
Proof.
  intros [D1 D2 D3 D4 D5] Ho Ht. split; [auto|]. intros Hs. destruct fR; [auto|]. destruct (D5 Ho Ht eq_refl) as [?|[?|?]]; [auto|auto|congruence].
Qed.
Lemma phase_waits ok cfg Hreq fin c bc br sc sr : flags (client_evshut c) (relay_evshut c) sc sr ->
  @phase ok cfg (fun i => subsys_ok ok cfg Hreq i) c bc br sc sr false fin -> events_ok ok -> waits c bc br.
Proof.
  intros F P Ho. unfold waits. destruct P as [Hf U P1 P2 P3 P4 P5 P6 P7 P8 P9 P10 P11 W | M R wm Ht U P1 P2 P3 P4 P5 P6 P7 P8 P9 W | M R _ Gc Gr _ _ Hs H1 H2 D1 D2].
  - rewrite P1. destruct (W eq_refl) as (_ & _ & W'). by apply W'.
  - rewrite P1. destruct (W eq_refl) as (_ & _ & W'). by apply W'.
  - rewrite (r_readcb _ _ Gr). split_and!.
    + intros Ht. by eapply dir_waits; [by apply D2| |].
    + intros Ht. destruct (dir_waits _ _ _ _ _ _ _ _ _ D1 Ho Ht); auto.
    + destruct F, (EV_WRITE (relay_evshut c)), (EV_WRITE (client_evshut c)); auto. by destruct f_open0.
Qed.

(** ** Claims *)

(** C9: redsocks relays exactly. Whatever happens (any sequence of events, sizes of reads and writes, failures), as long as the allocations
    that the code does not check succeed: every handler runs without undefined behaviour (no freed client or bufferevent is used, no
    socket is closed twice), a connection has both sockets open until its client is freed and none afterwards, and the bytes on its
    sockets are those of a negotiation for its destination in the protocol of its instance, followed, if this succeeded, by
    the data: what the proxy was sent is a prefix of the messages and the data of the application, and what the application was
    sent is a prefix of what followed the replies of the proxy. *)
Theorem redsocks_relays (ok : call -> nat -> bool) (cfg : nat -> redsocks_config) (n : nat) (es : list sys_event) :
  requests_ok ok -> (forall i, backoff_ok (cfg i)) ->
  exists s, sys_run ok cfg es (init n) = Ret s /\
  forall k c, conns s !! k = Some c ->
    match self c with
    | Some _ => status (sock_client c) = Open /\ status (sock_relay c) = Open
    | None => status (sock_client c) <> Open /\ status (sock_relay c) <> Open
    end /\
    exists M R, proxy_dialogue cfg (inst_of c) (dest_of c) M R (relayed c) /\
      if relayed c then
        wrote (sock_relay c) `prefix_of` M ++ got (sock_client c) /\ R ++ wrote (sock_client c) `prefix_of` got (sock_relay c)
      else wrote (sock_client c) = [] /\ wrote (sock_relay c) `prefix_of` M /\ R `prefix_of` got (sock_relay c).
Proof.
  intros Hreq Hcfg. destruct (sys_run_inv ok cfg Hreq Hcfg es (init n) (sys_init_inv ok cfg Hreq n)) as (s & E & [Hc _]). exists s. split; [done|].
  intros k c Hk. specialize (Hc k c Hk). split.
  - unfold conn_inv in Hc. destruct (self c); [|tauto]. by destruct Hc as (bc & br & []).
  - destruct (conn_traffic _ _ _ _ Hc) as (M & R & Hd & H). exists M, R. split; [by eapply dialogue_proxy|]. destruct (relayed c); tauto.
Qed.

(** C10: the end of a stream is passed on after its data. When redsocks shut down its connection to the application for writing
    and relayed data, everything that the proxy sent was written. When it shut down the connection to the proxy, everything
    that the application sent was written, unless the application closed its side before data was relayed, or while data from it was
    waiting although nothing was queued for the proxy, as data sent during the negotiation does at first ([note_early]; [early_data_lost] shows that
    data is lost then). *)
Theorem redsocks_half_close (ok : call -> nat -> bool) (cfg : nat -> redsocks_config) (n : nat) (es : list sys_event) (s : system) (k : nat) (c : conn) :
  requests_ok ok -> (forall i, backoff_ok (cfg i)) -> sys_run ok cfg es (init n) = Ret s -> conns s !! k = Some c -> relayed c = true ->
  exists M R, proxy_dialogue cfg (inst_of c) (dest_of c) M R true /\
    (EV_WRITE (shut (sock_client c)) = true -> got (sock_relay c) = R ++ wrote (sock_client c)) /\
    (early c = false -> EV_WRITE (shut (sock_relay c)) = true -> wrote (sock_relay c) = M ++ got (sock_client c)).
Proof.
  intros Hreq Hcfg E Hk Ef. destruct (sys_reach_inv ok cfg Hreq Hcfg es n s E) as [Hc _]. specialize (Hc k c Hk).
  destruct (conn_traffic _ _ _ _ Hc) as (M & R & Hd & H). rewrite Ef in *. exists M, R. split; [by eapply dialogue_proxy|]. tauto.
Qed.

(** C11: a connection does not stall, under four conditions: libevent takes and deletes all events, the requests can be allocated (the code
    does not check this), the application did not close its side too early ([note_early]: before data was relayed, or while data from it
    was waiting although nothing was queued for the proxy), and libevent has not suspended the reading of the application because of a watermark. Then a connection
    between events waits for something that can happen: for the connection to the proxy and the end of the application's
    stream, for the next reply, or, when it relays, in each direction that has not ended, for data or for room to write; and data
    that is buffered waits for room. Without the last two conditions this fails: [early_close_leaks], [early_data_stalls]. *)
Theorem redsocks_waits (ok : call -> nat -> bool) (cfg : nat -> redsocks_config) (n : nat) (es : list sys_event) (s : system) (k : nat) (c : conn) (cl : redsocks_client) :
  requests_ok ok -> (forall i, backoff_ok (cfg i)) -> events_ok ok -> sys_run ok cfg es (init n) = Ret s ->
  conns s !! k = Some c -> self c = Some cl -> early c = false ->
  exists bc br, client cl = Some bc /\ relay cl = Some br /\ waits cl bc br.
Proof.
  intros Hreq Hcfg Ho E Hk Ec He. destruct (sys_reach_inv ok cfg Hreq Hcfg es n s E) as [Hc _]. specialize (Hc k c Hk). unfold conn_inv in Hc. rewrite Ec in Hc.
  destruct Hc as (bc & br & [_ _ A1 A2 _ _ F P]). exists bc, br. split_and!; [done|done|]. rewrite He in P. by eapply phase_waits.
Qed.

(** C33: redsocks does not stop to accept. Whatever happens, if libevent takes and deletes all events, every instance either listens or waits for the
    end of a pause; the counter of milliseconds is 0 or within the configured bounds, in spite of its overflow; and a pause, whose
    length is random, is at least one millisecond and at most the counter and the configured maximum. *)
Theorem redsocks_accepts (ok : call -> nat -> bool) (cfg : nat -> redsocks_config) (n : nat) (es : list sys_event) (s : system) (i : nat) (x : redsocks_instance) :
  requests_ok ok -> (forall i, backoff_ok (cfg i)) -> events_ok ok -> sys_run ok cfg es (init n) = Ret s -> sys_insts s !! i = Some x ->
  accept_backoff x = negb (listener x) /\
  (accept_backoff_ms x = 0 \/ min_backoff_ms (cfg i) <= accept_backoff_ms x <= max_backoff_ms (cfg i)) /\
  (accept_backoff x = true -> 1 <= tvdelay x <= accept_backoff_ms x /\ tvdelay x <= max_backoff_ms (cfg i)).
Proof.
  intros Hreq Hcfg Ho E Ex. destruct (sys_reach_inv ok cfg Hreq Hcfg es n s E) as [_ Hl]. destruct (Hl i x Ex) as (H1 & H2 & H3 & H4).
  split; [auto|]. split; [auto|]. intros Hb. specialize (H3 Hb). specialize (H4 Ho Hb). lia.
Qed.

(** ** Examples *)
Definition all_ok (c : call) (n : nat) : bool := true.
Definition demo_config (i : nat) : redsocks_config := mkConfig socks5 None None 100 60000.
Definition demo_dest : sockaddr_in := mkAddr [10; 0; 0; 1] [0; 80].
Definition hello : list Z := [104; 101; 108; 108; 111].
(** The negotiation, during which the application sends [data]. *)
Definition negotiate (data : list read_result) : list sys_event :=
  [AcceptEvent 0 0 (Accepted demo_dest)] ++ map (fun r => Conn 0 (Readable Client r)) data ++
  map (Conn 0) [Writable Relay WAgain; Writable Relay (WTook 10); Readable Relay (RData [5; 0]); Writable Relay (WTook 10);
    Readable Relay (RData [5; 0; 0; 1]); Readable Relay (RData [0; 0; 0; 0; 0; 0])].
Definition demo_relay : list sys_event := negotiate [] ++
  map (Conn 0) [Writable Relay WAgain; Writable Client WAgain; Readable Client (RData hello); Writable Relay (WTook 2); Writable Relay (WTook 9);
    Readable Client REof; Readable Relay (RData [1; 2; 3])].
Definition demo_all : list sys_event := demo_relay ++ map (Conn 0) [Writable Client (WTook 3); Readable Relay REof].
Definition after (es : list sys_event) : system := match sys_run all_ok demo_config es (init 1) with Ret s => s | _ => init 1 end.
Definition conn_after (es : list sys_event) : option conn := conns (after es) !! 0%nat.
Definition demo_conn (es : list sys_event) : conn := match conn_after es with Some c => c | None => new_conn 0 demo_dest end.
Definition negotiated : list Z := [5; 1; 0; 5; 1; 0; 1; 10; 0; 0; 1; 0; 80].
Lemma all_requests_ok : requests_ok all_ok.
Proof. by intros n. Qed.
Lemma demo_backoff_ok i : backoff_ok (demo_config i).
Proof. unfold backoff_ok. cbn. lia. Qed.

Lemma redsocks_relays_witness : (exists s, sys_run all_ok demo_config demo_all (init 1) = Ret s /\
    forall k c, conns s !! k = Some c ->
    match self c with
    | Some _ => status (sock_client c) = Open /\ status (sock_relay c) = Open
    | None => status (sock_client c) <> Open /\ status (sock_relay c) <> Open
    end /\
    exists M R, proxy_dialogue demo_config (inst_of c) (dest_of c) M R (relayed c) /\
      if relayed c then
        wrote (sock_relay c) `prefix_of` M ++ got (sock_client c) /\ R ++ wrote (sock_client c) `prefix_of` got (sock_relay c)
      else wrote (sock_client c) = [] /\ wrote (sock_relay c) `prefix_of` M /\ R `prefix_of` got (sock_relay c)) /\
  wrote (sock_relay (demo_conn demo_all)) = negotiated ++ hello /\ wrote (sock_client (demo_conn demo_all)) = [1; 2; 3] /\ self (demo_conn demo_all) = None.
Proof. split; [apply (redsocks_relays all_ok demo_config 1 demo_all all_requests_ok demo_backoff_ok)|vm_compute; auto]. Defined.
Lemma redsocks_half_close_witness : exists M R, proxy_dialogue demo_config (inst_of (demo_conn demo_all)) (dest_of (demo_conn demo_all)) M R true /\
    (EV_WRITE (shut (sock_client (demo_conn demo_all))) = true -> got (sock_relay (demo_conn demo_all)) = R ++ wrote (sock_client (demo_conn demo_all))) /\
    (early (demo_conn demo_all) = false -> EV_WRITE (shut (sock_relay (demo_conn demo_all))) = true ->
       wrote (sock_relay (demo_conn demo_all)) = M ++ got (sock_client (demo_conn demo_all))).
Proof. apply (redsocks_half_close all_ok demo_config 1 demo_all (after demo_all) 0 (demo_conn demo_all) all_requests_ok demo_backoff_ok); vm_compute; reflexivity. Defined.
Definition demo_client : redsocks_client := match self (demo_conn demo_relay) with Some c => c | None => new_client 0 demo_dest end.
Lemma redsocks_waits_witness : exists bc br, client demo_client = Some bc /\ relay demo_client = Some br /\ waits demo_client bc br.
Proof.
  apply (redsocks_waits all_ok demo_config 1 demo_relay (after demo_relay) 0 (demo_conn demo_relay) demo_client all_requests_ok demo_backoff_ok);
    try (vm_compute; reflexivity). by intros n.
Defined.
(** Descriptors run out twice. *)
Definition demo_lack : list sys_event := [AcceptEvent 0 0 (AcceptFailed true 1234567); BackoffTimer 0; AcceptEvent 0 0 (AcceptFailed true 1234567)].
Lemma redsocks_accepts_witness : let x := mkInst false true (1234567 mod 201 + 1) 201 in
  accept_backoff x = negb (listener x) /\
  (accept_backoff_ms x = 0 \/ min_backoff_ms (demo_config 0) <= accept_backoff_ms x <= max_backoff_ms (demo_config 0)) /\
  (accept_backoff x = true -> 1 <= tvdelay x <= accept_backoff_ms x /\ tvdelay x <= max_backoff_ms (demo_config 0)).
Proof.
  apply (redsocks_accepts all_ok demo_config 1 demo_lack (after demo_lack) 0 (mkInst false true (1234567 mod 201 + 1) 201) all_requests_ok demo_backoff_ok);
    try (vm_compute; reflexivity). by intros n.
Defined.

(** ** What goes wrong *)

(** An application that closes its connection before the one to the proxy is established leaves a client that waits for nothing:
    it and its two sockets stay forever. *)
Theorem early_close_leaks : let c := demo_conn [AcceptEvent 0 0 (Accepted demo_dest); Conn 0 (Readable Client REof)] in
  (exists cl, self c = Some cl) /\ status (sock_client c) = Open /\ status (sock_relay c) = Open /\ forall e, pending e c = false.
Proof. split_and!; [eexists; vm_compute; reflexivity|reflexivity|reflexivity|]. intros [[] r|[] r]; reflexivity. Qed.
(** If the application sent data during the negotiation and the end of its stream is seen before the relay is writable, the stream
    to the proxy is closed without the data. *)
Theorem early_data_lost : let c := demo_conn (negotiate [RData hello] ++ [Conn 0 (Readable Client REof); Conn 0 (Writable Relay WAgain)]) in
  relayed c = true /\ got (sock_client c) = hello /\ EV_WRITE (shut (sock_relay c)) = true /\ wrote (sock_relay c) = negotiated /\
  pending (Writable Relay WAgain) c = false.
Proof. vm_compute. auto. Qed.
(** If it sent 4096 bytes or more and more data comes before the relay is writable, libevent suspends reading, because the high
    watermark was set behind its back; nothing ever resumes it, although everything that was read is passed on. *)
Definition stall : list sys_event :=
  negotiate [RData (repeat 7 4096)] ++ map (Conn 0) [Readable Client (RData hello); Writable Relay WAgain; Writable Relay (WTook 5000)].
Theorem early_data_stalls : let c := demo_conn stall in
  relayed c = true /\ early c = false /\ eof (sock_client c) = false /\ wrote (sock_relay c) = negotiated ++ repeat 7 4096 /\
  (forall r, pending (Readable Client r) c = false) /\ (forall r, pending (Writable Relay r) c = false).
Proof. split_and!; try (intros r); vm_compute; reflexivity. Qed.
(** The pause after a lack of descriptors is doubled in 16 bits: it does not grow to its maximum but wraps around. *)
Definition lacking (n : nat) : list sys_event := mjoin (repeat [AcceptEvent 0 0 (AcceptFailed true 1234567); BackoffTimer 0] n).
Theorem backoff_wraps : map (fun n => map accept_backoff_ms (sys_insts (after (lacking n)))) [10; 11; 12]%nat = [[51711]; [37887]; [10239]].
Proof. vm_compute. auto. Qed.
(** The result of [calloc] for a request is not checked. *)
Definition no_request_memory (c : call) (n : nat) : bool := match c with CCallocRequest => false | _ => true end.
Theorem request_not_checked :
  sys_run no_request_memory demo_config [AcceptEvent 0 0 (Accepted demo_dest); Conn 0 (Writable Relay WAgain)] (init 1) = Undef.
Proof. vm_compute. reflexivity. Qed.
End RedsocksSocks.
