(* ===== verification/RedsocksParser.v ===== *)
(** * redsocks: the parser of the configuration file

    parser.c reads the file line by line into a buffer that grows, takes tokens
    from the buffer and hands them to a small state machine, which calls the
    sections of the program. This file holds that code, with the value parsers, and
    the sections [redsocks] (redsocks.c) and [base] (base.c).
    - The buffer is a list of cells; a cell that was never written cannot be read
      as a character. [fgets] follows the C standard; a file that is [broken] ends in
      a read error.
    - A [char *] into the buffer is an index, and the C string there is found by
      [cstring]. [gettoken] works on that string; the character behind its last one
      is the terminating 0, which is not part of the list.
    - Characters are unsigned, as on ARM, and classified as in the C locale.
    - [asked] counts the calls of [malloc], [strdup] and [calloc], of which [ok] says
      whether they succeed; [grown] counts those of [realloc].
    - [log] is what the error handler is called with. A failed [assert] does nothing
      ([NDEBUG]).
    - [inet_aton] and [getaddrinfo] (with the random choice among its results) are
      parameters. *)
From Stdlib Require Import String Ascii.
From S2P Require Import Prelude Handlers.
Local Open Scope Z_scope.

Module RedsocksParser.

(** ** Characters *)
Definition chars (s : string) : list Z := map (fun c => Z.of_nat (nat_of_ascii c)) (list_ascii_of_string s).
Definition between (a b c : Z) : bool := (a <=? c) && (c <=? b).
Definition isspace (c : Z) : bool := between 9 13 c || (c =? 32).
Definition isdigit (c : Z) : bool := between 48 57 c.
Definition isalpha (c : Z) : bool := between 65 90 c || between 97 122 c.
Definition isalnum (c : Z) : bool := isdigit c || isalpha c.

(** The string at the start of some cells. *)
Fixpoint cstring (m : list (option Z)) : cres (list Z) :=
  match m with
  | Some c :: m => if c =? 0 then Ret [] else s ← cstring m; Ret (c :: s)
  | _ => Undef
  end.
(** [*s] *)
Definition first (s : list Z) : Z := match s with c :: _ => c | [] => 0 end.
(** What [strchr(s, '\n')] points to, and what [strstr] does for the end of a comment. *)
Fixpoint strchr_nl (s : list Z) : option (list Z) :=
  match s with [] => None | c :: s' => if c =? 10 then Some s else strchr_nl s' end.
Fixpoint strstr_end (s : list Z) : option (list Z) :=
  match s with [] => None | c :: s' => if (c =? 42) && (first s' =? 47) then Some s else strstr_end s' end.

(** [strtoul] with base 0 and 32 bits: the value, and what follows. *)
Definition digit (base c : Z) : option Z :=
  let d := if isdigit c then c - 48 else if between 65 90 c then c - 55 else if between 97 122 c then c - 87 else 99 in
  if d <? base then Some d else None.
Fixpoint digits (base : Z) (s : list Z) (v : Z) : Z * list Z :=
  match s with
  | c :: s' => match digit base c with Some d => digits base s' (v * base + d) | None => (v, s) end
  | [] => (v, s)
  end.
Fixpoint skip_spaces (s : list Z) : list Z :=
  match s with c :: s' => if isspace c then skip_spaces s' else s | [] => [] end.
Definition sign (s : list Z) : bool * list Z :=
  match s with
  | c :: s' => if c =? 45 then (true, s') else if c =? 43 then (false, s') else (false, s)
  | [] => (false, s)
  end.
Definition number (s : list Z) : option (Z * list Z) :=
  match s with
  | c :: s' =>
      if c =? 48 then
        match s' with
        | x :: ((h :: _) as s'') =>
            match (if (x =? 120) || (x =? 88) then digit 16 h else None) with
            | Some _ => Some (digits 16 s'' 0)
            | None => Some (digits 8 s 0)
            end
        | _ => Some (digits 8 s 0)
        end
      else match digit 10 c with Some _ => Some (digits 10 s 0) | None => None end
  | [] => None
  end.
Definition ULONG_MAX : Z := 2 ^ 32 - 1.
Definition strtoul (s : list Z) : Z * list Z :=
  let '(neg, s') := sign (skip_spaces s) in
  match number s' with
  | None => (0, s)
  | Some (v, e) => (if ULONG_MAX <? v then ULONG_MAX else if neg then u32 (- v) else v, e)
  end.

(** ** Data *)
Inductive parser_type := pt_bool | pt_pchar | pt_uint16 | pt_in_addr | pt_in_addr2.
(** What is stored through the address of an entry. *)
Inductive value := VBool (b : bool) | VStr (s : list Z) | VUint16 (n : Z) | VAddr (a : Z) | VMask (a : Z).

(** What [onenter] and [onexit] work on: the program's own data, and the parser's
    errors. They return whether they succeeded. *)
Record env (A : Type) := mkEnv { it : A; env_asked : nat; reported : list string }.
Arguments mkEnv {A}. Arguments it {A}. Arguments env_asked {A}. Arguments reported {A}.
(** [store] writes through the [addr] of an entry, if this is not NULL. *)
Record parser_section (A : Type) := mkSection {
  name : list Z;
  entries : list (list Z * parser_type);
  onenter : option (prog (env A) bool);
  onexit : option (prog (env A) bool);
  store_at : list Z -> value -> A -> option A }.
Arguments mkSection {A}. Arguments name {A}. Arguments entries {A}. Arguments onenter {A}. Arguments onexit {A}. Arguments store_at {A}.

Record parser_context (A : Type) := mkContext {
  own : A; asked : nat; line : Z; error : bool; log : list (string * Z) }.
Arguments mkContext {A}. Arguments own {A}. Arguments asked {A}. Arguments line {A}. Arguments error {A}. Arguments log {A}.

(** The variables of [parser_run] that do not depend on the buffer. *)
Record parsing (A : Type) := mkParsing {
  context : parser_context A;
  section : option (parser_section A);
  section_token : option (list Z);
  key_token : option (list Z);
  value_token : option (list Z) }.
Arguments mkParsing {A}. Arguments context {A}. Arguments section {A}. Arguments section_token {A}. Arguments key_token {A}. Arguments value_token {A}.

Record buffer := mkBuffer { size : Z; filled : Z; data : list (option Z) }.
Record file := mkFile { rest : list Z; broken : bool; feof : bool; ferror : bool }.

Record run_state (A : Type) := mkRun {
  ps : parsing A; buf : buffer; fd : file; grown : nat;
  in_comment : bool; need_more_space : bool; need_more_data : bool }.
Arguments mkRun {A}. Arguments ps {A}. Arguments buf {A}. Arguments fd {A}. Arguments grown {A}.
Arguments in_comment {A}. Arguments need_more_space {A}. Arguments need_more_data {A}.

(** ** [fgets] *)
Fixpoint take_line (n : nat) (f : list Z) : list Z * list Z :=
  match n, f with
  | S n, c :: f => if c =? 10 then ([c], f) else let '(l, f) := take_line n f in (c :: l, f)
  | _, _ => ([], f)
  end.
(** Ends at the limit, at the end of a line, or at the end of the file. *)
Definition fgets (n : Z) (f : file) : option (list Z) * file :=
  let '(l, r) := take_line (Z.to_nat (n - 1)) (rest f) in
  if (zlen l <? n - 1) && negb (List.last l 0 =? 10) then
    if broken f then (None, mkFile r true (feof f) true)
    else ((match l with [] => None | _ => Some l end), mkFile r false true (ferror f))
  else (Some l, mkFile r (broken f) (feof f) (ferror f)).

Section code.
Context {A : Type}.
Context (ok : nat -> bool) (realloc_ok : nat -> bool).
Context (inet_aton : list Z -> option Z) (getaddrinfo : list Z -> Z + string).
Context (sections : list (parser_section A)).
#[local] Abbreviation act := (prog (parsing A)).
#[local] Abbreviation run := (prog (run_state A)).

(** ** Errors and allocations *)
Definition in_context (f : parser_context A -> parser_context A) : act unit :=
  sets (fun p => mkParsing (f (context p)) (section p) (section_token p) (key_token p) (value_token p)).
Definition add_error (msg : string) (c : parser_context A) : parser_context A :=
  mkContext (own c) (asked c) (line c) true (log c ++ [(msg, line c)]).
Definition parser_error (msg : string) : act unit := in_context (add_error msg).
Definition alloc : act bool :=
  c ← gets context; _ ← in_context (fun c => mkContext (own c) (S (asked c)) (line c) (error c) (log c)); mret (ok (asked c)).
Definition is_error : act bool := gets (fun p => error (context p)).

(** ** Tokens *)
Definition unescape (c : Z) : Z :=
  if c =? 110 then 10 else if c =? 116 then 9 else if c =? 114 then 13
  else if (c =? 92) || (c =? 39) || (c =? 34) then c else 0.

(** The first pass: the length of the token. *)
Inductive counted := Incomplete | BadEscape | Length (len : nat).
Fixpoint count_cstr (p : list Z) (len : nat) : counted :=
  match p with
  | [] => Incomplete
  | c :: p =>
      if c =? 34 then Length len
      else if c =? 92 then
        match p with
        | [] => Incomplete
        | e :: p => if unescape e =? 0 then BadEscape else count_cstr p (S len)
        end
      else count_cstr p (S len)
  end.
Fixpoint count_number (p : list Z) (len : nat) : option nat :=
  match p with
  | [] => None
  | c :: p =>
      if isdigit c || (c =? 46) then count_number p (S len)
      else if c =? 47 then
        if isdigit (first p) then count_number p (S len)
        else if (first p =? 47) || (first p =? 42) then Some len
        else None
      else Some len
  end.
Fixpoint count_word (p : list Z) (len : nat) : option nat :=
  match p with
  | [] => None
  | c :: p => if isalnum c || (c =? 95) || (c =? 46) || (c =? 45) then count_word p (S len) else Some len
  end.
(** The second pass, for a string: [room] cells are left in the copy. *)
Fixpoint copy_cstr (iter : list Z) (room : nat) : cres (list Z * list Z) :=
  match room, iter with
  | S room, c :: iter =>
      if c =? 34 then Ret ([], iter)
      else if c =? 92 then
        match iter with
        | [] => Undef
        | e :: iter => '(ret, iter) ← copy_cstr iter room; Ret (unescape e :: ret, iter)
        end
      else '(ret, iter) ← copy_cstr iter room; Ret (c :: ret, iter)
  | _, _ => Undef
  end.
Definition copy_plain (iter : list Z) (len : nat) : cres (list Z * list Z) :=
  if (len <=? length iter)%nat then Ret (take len iter, drop len iter) else Undef.

(** A token, or NULL, and where [iter] points to then. *)
Definition gettoken (iter : list Z) : act (option (list Z) * list Z) :=
  let iter := skip_spaces iter in
  match iter with
  | [] => mret (None, iter)
  | c :: p =>
      let finish (len : nat) (copy : cres (list Z * list Z)) :=
        r ← alloc;
        if negb r then _ ← parser_error "malloc failed"; mret (None, iter)
        else '(ret, iter) ← lift copy; mret (Some ret, iter) in
      if c =? 34 then
        match count_cstr p 0 with
        | Incomplete => mret (None, iter)
        | BadEscape => _ ← parser_error "unknown escaped char after \"; mret (None, iter)
        | Length len => finish len (copy_cstr p (S len))
        end
      else if isdigit c then
        match count_number iter 0 with None => mret (None, iter) | Some len => finish len (copy_plain iter len) end
      else if isalpha c then
        match count_word iter 0 with None => mret (None, iter) | Some len => finish len (copy_plain iter len) end
      else if (c =? 123) || (c =? 125) || (c =? 61) || (c =? 59) then finish 1%nat (copy_plain iter 1)
      else if (c =? 47) && ((first p =? 47) || (first p =? 42)) then finish 2%nat (copy_plain iter 2)
      else _ ← parser_error "unexpected char"; mret (None, iter)
  end.

(** ** Values *)
Definition equal (a b : list Z) : bool := bool_decide (a = b).

(** [addr] is the key of the entry; the write fails if its address is NULL. *)
Definition write_at (addr : option (parser_section A * list Z)) (v : value) : act unit :=
  match addr with
  | None => lift Undef
  | Some (s, key) =>
      c ← gets context; a ← lift (of_option (store_at s key v (own c)));
      in_context (fun c => mkContext a (asked c) (line c) (error c) (log c))
  end.
#[local] Abbreviation address := (option (parser_section A * list Z)).
Definition vp_pbool (addr : address) (token : list Z) : act bool :=
  if existsb (equal token) (map chars ["ok"; "on"; "yes"; "true"]%string) then _ ← write_at addr (VBool true); mret true
  else if existsb (equal token) (map chars ["off"; "no"; "false"]%string) then _ ← write_at addr (VBool false); mret true
  else _ ← parser_error "boolean is not parsed"; mret false.
Definition vp_pchar (addr : address) (token : list Z) : act bool :=
  r ← alloc;
  if negb r then _ ← parser_error "strdup failed"; mret false
  else _ ← write_at addr (VStr token); mret true.
Definition vp_uint16 (addr : address) (token : list Z) : act bool :=
  let '(uli, e) := strtoul token in
  if 65535 <? uli then _ ← parser_error "integer out of 16bit range"; mret false
  else match e with
       | [] => _ ← write_at addr (VUint16 (u16 uli)); mret true
       | _ => _ ← parser_error "integer is not parsed"; mret false
       end.
Definition vp_in_addr (addr : address) (token : list Z) : act bool :=
  match inet_aton token with
  | Some ia => _ ← write_at addr (VAddr ia); mret true
  | None =>
      match getaddrinfo token with
      | inl ia => _ ← write_at addr (VAddr ia); mret true
      | inr msg => _ ← parser_error msg; mret false
      end
  end.
Fixpoint split_slash (s : list Z) : list Z * option (list Z) :=
  match s with
  | [] => ([], None)
  | c :: s => if c =? 47 then ([], Some s) else let '(h, m) := split_slash s in (c :: h, m)
  end.
Definition INADDR_BROADCAST : Z := 2 ^ 32 - 1.
Definition vp_mask (addr : address) (mask : list Z) : act bool :=
  let '(uli, e) := strtoul mask in
  if first e =? 46 then
    match inet_aton mask with
    | Some ia => _ ← write_at addr (VMask ia); mret true
    | None => _ ← parser_error "invalid IP address"; mret false
    end
  else if (0 <? uli) && (uli <? 32) then
    _ ← write_at addr (VMask (be_val (le_bytes 4 (u32 (Z.shiftl INADDR_BROADCAST (32 - uli)))))); mret true
  else _ ← parser_error "number of netmask bits out of range"; mret false.
Definition vp_in_addr2 (addr : address) (token : list Z) : act bool :=
  r ← alloc;
  if negb r then _ ← parser_error "strdup failed"; mret false else
  let '(host, mask) := split_slash token in
  r1 ← (match inet_aton host with
        | Some ia => _ ← write_at addr (VAddr ia); mret true
        | None => _ ← parser_error "invalid IP address"; mret false
        end);
  r2 ← (match mask with Some mask => vp_mask addr mask | None => mret true end);
  mret (r1 && r2).
Definition value_parser_by_type (t : parser_type) : address -> list Z -> act bool :=
  match t with
  | pt_bool => vp_pbool | pt_pchar => vp_pchar | pt_uint16 => vp_uint16
  | pt_in_addr => vp_in_addr | pt_in_addr2 => vp_in_addr2
  end.

(** ** What a token does *)
Definition set_section (s : option (parser_section A)) : act unit := sets (fun p => mkParsing (context p) s (section_token p) (key_token p) (value_token p)).
Definition set_section_token t : act unit := sets (fun p => mkParsing (context p) (section p) t (key_token p) (value_token p)).
Definition set_key_token t : act unit := sets (fun p => mkParsing (context p) (section p) (section_token p) t (value_token p)).
Definition set_value_token t : act unit := sets (fun p => mkParsing (context p) (section p) (section_token p) (key_token p) t).

(** Calls a function of the program; what it reports goes to the error handler. *)
Fixpoint report (msgs : list string) : act unit :=
  match msgs with [] => mret tt | m :: msgs => _ ← parser_error m; report msgs end.
Definition call (f : option (prog (env A) bool)) (failed : string) : act unit :=
  match f with
  | None => mret tt
  | Some f =>
      c ← gets context;
      '(r, e) ← lift (f (mkEnv (own c) (asked c) []));
      _ ← in_context (fun c => mkContext (it e) (env_asked e) (line c) (error c) (log c));
      _ ← report (reported e);
      when (negb r) (parser_error failed)
  end.

Definition open_brace : act unit :=
  p ← gets id;
  match section p, section_token p with
  | Some _, _ => parser_error "section-in-section is invalid"
  | None, None => parser_error "expected token before ``{''"
  | None, Some t =>
      let s := find (fun s => equal (name s) t) sections in
      _ ← set_section s;
      _ ← (match s with
           | Some s => call (onenter s) "section->onenter failed"
           | None => parser_error "unknown section"
           end);
      set_section_token None
  end.
Definition close_brace : act unit :=
  p ← gets id;
  match section p with
  | Some s => _ ← call (onexit s) "section->onexit failed"; set_section None
  | None => parser_error "can't close non-opened section"
  end.
Definition equals_sign : act unit :=
  p ← gets id;
  match section p, key_token p with
  | None, _ => parser_error "assignment used outside of any section"
  | Some _, None => parser_error "assignment used without key"
  | Some _, Some _ => mret tt
  end.
(** An unknown key leads to the entry that ends the list: it has type [pt_bool], which
    is 0, and no address. *)
Definition find_entry (s : parser_section A) (key : list Z) : parser_type * address :=
  match find (fun e => equal e.1 key) (entries s) with
  | Some e => (e.2, Some (s, e.1))
  | None => (pt_bool, None)
  end.
Definition assign (s : parser_section A) (key value : list Z) : act unit :=
  let '(t, addr) := find_entry s key in
  r ← value_parser_by_type t addr value;
  when (negb r) (parser_error "value can't be parsed").
Definition semicolon : act unit :=
  p ← gets id;
  _ ← (match section p, key_token p, value_token p with
       | None, _, _ => parser_error "assignment termination outside of any section"
       | Some _, Some _, None => parser_error "assignment has only key but no value"
       | Some s, Some k, Some v => assign s k v
       | Some _, None, _ => mret tt
       end);
  _ ← set_key_token None;
  set_value_token None.
Definition plain_token (token : list Z) : act unit :=
  p ← gets id;
  match section p, section_token p, key_token p, value_token p with
  | None, None, _, _ => set_section_token (Some token)
  | Some _, _, None, _ => set_key_token (Some token)
  | Some _, _, Some _, None => set_value_token (Some token)
  | _, _, _, _ => parser_error "invalid token order"
  end.
(** Whether [token] is still there to be freed. *)
Definition stored (p : parsing A) : bool :=
  match section p, section_token p, key_token p, value_token p with
  | None, None, _, _ | Some _, _, None, _ | Some _, _, Some _, None => true
  | _, _, _, _ => false
  end.
Definition is_punctuation (token : list Z) : bool := existsb (equal token) (map chars ["//"; "/*"; "{"; "}"; "="; ";"]%string).
Definition on_token (token : list Z) : act unit :=
  if equal token (chars "{") then open_brace
  else if equal token (chars "}") then close_brace
  else if equal token (chars "=") then equals_sign
  else if equal token (chars ";") then semicolon
  else plain_token token.

(** ** The loop *)
Definition on_ps {B} (m : act B) : run B := fun r =>
  '(b, p) ← m (ps r); Ret (b, mkRun p (buf r) (fd r) (grown r) (in_comment r) (need_more_space r) (need_more_data r)).
Definition set_buf b : run unit := sets (fun r => mkRun (ps r) b (fd r) (grown r) (in_comment r) (need_more_space r) (need_more_data r)).
Definition set_fd f : run unit := sets (fun r => mkRun (ps r) (buf r) f (grown r) (in_comment r) (need_more_space r) (need_more_data r)).
Definition set_in_comment x : run unit := sets (fun r => mkRun (ps r) (buf r) (fd r) (grown r) x (need_more_space r) (need_more_data r)).
Definition set_need_more_space x : run unit := sets (fun r => mkRun (ps r) (buf r) (fd r) (grown r) (in_comment r) x (need_more_data r)).
Definition set_need_more_data x : run unit := sets (fun r => mkRun (ps r) (buf r) (fd r) (grown r) (in_comment r) (need_more_space r) x).

Definition store_cells (off : Z) (cells : list (option Z)) : run unit :=
  b ← gets buf; m ← lift (of_option (store (data b) off cells)); set_buf (mkBuffer (size b) (filled b) m).
Definition context_filled_set (val : Z) : run unit :=
  b ← gets buf; _ ← set_buf (mkBuffer (size b) val (data b)); store_cells val [Some 0].
Definition context_filled_add (shift : Z) : run unit := b ← gets buf; context_filled_set (filled b + shift).
Definition memmove (dst src n : Z) : run unit :=
  b ← gets buf; cells ← lift (of_option (load (data b) src n)); store_cells dst cells.
(** The string at an index of the buffer. *)
Definition string_at (i : Z) : run (list Z) := b ← gets buf; lift (cstring (drop (Z.to_nat i) (data b))).

Inductive next := Go | Continue | Return.
Definition more_space : run next :=
  n ← gets grown; b ← gets buf;
  _ ← sets (fun r => mkRun (ps r) (buf r) (fd r) (S n) (in_comment r) (need_more_space r) (need_more_data r));
  if negb (realloc_ok n) then _ ← on_ps (parser_error "realloc failure"); mret Return else
  _ ← set_buf (mkBuffer (size b * 2) (filled b) (data b ++ repeat None (Z.to_nat (size b))));
  _ ← set_need_more_space false;
  mret Go.
Definition more_data : run next :=
  b ← gets buf; f ← gets fd;
  let '(l, f) := fgets (size b - filled b) f in
  _ ← set_fd f;
  match l with
  | None => if ferror f then _ ← on_ps (parser_error "file read failure"); mret Return else mret Continue
  | Some l =>
      _ ← store_cells (filled b) (map Some l ++ [Some 0]);
      s ← string_at (filled b);
      _ ← context_filled_add (zlen s);
      if (0 <? zlen s) && (List.last s 0 =? 10) then
        _ ← on_ps (in_context (fun c => mkContext (own c) (asked c) (line c + 1) (error c) (log c)));
        _ ← set_need_more_data false;
        mret Go
      else _ ← set_need_more_space true; mret Continue
  end.
Definition end_comment : run next :=
  s ← string_at 0; b ← gets buf;
  match strstr_end s with
  | Some endc =>
      let comment_len := zlen s - zlen endc + 2 in
      _ ← memmove 0 comment_len (filled b - comment_len);
      _ ← context_filled_add (- comment_len);
      _ ← set_in_comment false;
      mret Go
  | None =>
      _ ← context_filled_set 0;
      _ ← set_need_more_data true;
      mret Continue
  end.

(** Returns whether [token] is NULL when the loop ends, and [iter]. *)
Fixpoint token_loop (fuel : nat) (null : bool) (iter : Z) : run (bool * Z) :=
  match fuel with
  | O => lift OutOfFuel
  | S fuel =>
      e ← on_ps is_error; c ← gets in_comment;
      if e || c then mret (null, iter) else
      s ← string_at iter;
      '(token, s') ← on_ps (gettoken s);
      let iter := iter + (zlen s - zlen s') in
      b ← gets buf;
      match token with
      | None => mret (true, iter)
      | Some token =>
          if equal token (chars "//") then
            endc ← lift (of_option (strchr_nl s'));
            let endc := iter + (zlen s' - zlen endc) + 1 in
            let iter := iter - 2 in
            _ ← memmove iter endc (filled b - endc);
            _ ← context_filled_add (- (endc - iter));
            token_loop fuel false iter
          else if equal token (chars "/*") then
            _ ← memmove 0 iter (filled b - iter);
            _ ← context_filled_add (- iter);
            _ ← set_in_comment true;
            token_loop fuel false 0
          else
            p ← gets ps;
            _ ← on_ps (on_token token);
            token_loop fuel (negb (is_punctuation token) && stored p) iter
      end
  end.

(** One iteration. *)
Definition step : run next :=
  r ← gets id;
  x ← (if need_more_space r then more_space else mret Go);
  match x with
  | Return | Continue => mret x
  | Go =>
      r ← gets id;
      x ← (if need_more_data r then more_data else mret Go);
      match x with
      | Return | Continue => mret x
      | Go =>
          r ← gets id;
          x ← (if in_comment r then end_comment else mret Go);
          match x with
          | Return | Continue => mret x
          | Go =>
              b ← gets buf;
              '(null, iter) ← token_loop (S (S (Z.to_nat (filled b)))) true 0;
              b ← gets buf;
              _ ← memmove 0 iter (filled b - iter);
              _ ← context_filled_add (- iter);
              _ ← when null (set_need_more_data true);
              mret Continue
          end
      end
  end.

(** The checks after the loop, and the result: 0 or -1. *)
Definition finish : act Z :=
  p ← gets id;
  _ ← (match section p with Some _ => parser_error "unclosed section" | None => mret tt end);
  _ ← (match section_token p with Some _ => parser_error "stale section_token" | None => mret tt end);
  _ ← (match key_token p with Some _ => parser_error "stale key_token" | None => mret tt end);
  _ ← (match value_token p with Some _ => parser_error "stale value_token" | None => mret tt end);
  e ← is_error; mret (if e : bool then -1 else 0).
Fixpoint run_loop (fuel : nat) : run Z :=
  match fuel with
  | O => lift OutOfFuel
  | S fuel =>
      e ← on_ps is_error; f ← gets fd;
      if e || feof f then on_ps finish else
      x ← step;
      match x with Return => mret (-1) | _ => run_loop fuel end
  end.

(** [parser_start], with memory for the buffer, and [parser_run]. *)
Definition parser_start (a : A) (n : nat) (text : list Z) (broken : bool) : run_state A :=
  mkRun (mkParsing (mkContext a n 0 false []) None None None None)
    (mkBuffer 128 0 (repeat None 128)) (mkFile text broken false false) 0 false false true.
Definition parser_run (a : A) (n : nat) (text : list Z) (broken : bool) : cres (Z * parser_context A) :=
  '(r, s) ← run_loop (4 * length text + 4) (parser_start a n text broken); Ret (r, context (ps s)).
End code.
End RedsocksParser.
