(* ===== verification/ParserText.v ===== *)
(** * redsocks: the parser reads the text of the file

    [parser_run] works on a buffer of lines that it cuts and refills. Here it is
    proved to do what a reader of the whole text does, who takes one token after the
    other and knows nothing of buffers: [scan] is a lexer of one pass, [reading] runs
    the handlers of parser.c over the tokens of a text. *)
From Stdlib Require Import String.
From S2P Require Import Prelude Handlers RedsocksParser.
Import RedsocksParser.
Local Open Scope Z_scope.

Module ParserText.

(** ** The lexer *)
Inductive scanned := End | Err (msg : string) (here : list Z) | Got (tok : list Z) (after : list Z).
Definition prepend (c : Z) (x : scanned) : scanned := match x with Got t r => Got (c :: t) r | _ => x end.
Fixpoint scan_cstr (p : list Z) : scanned :=
  match p with
  | [] => End
  | c :: p' =>
      if c =? 34 then Got [] p'
      else if c =? 92 then
        match p' with
        | [] => End
        | e :: p'' => if unescape e =? 0 then Err "unknown escaped char after \" p else prepend (unescape e) (scan_cstr p'')
        end
      else prepend c (scan_cstr p')
  end.
Fixpoint scan_number (p : list Z) : scanned :=
  match p with
  | [] => End
  | c :: p' =>
      if isdigit c || (c =? 46) then prepend c (scan_number p')
      else if c =? 47 then
        if isdigit (first p') then prepend c (scan_number p')
        else if (first p' =? 47) || (first p' =? 42) then Got [] p else End
      else Got [] p
  end.
Fixpoint scan_word (p : list Z) : scanned :=
  match p with
  | [] => End
  | c :: p' => if isalnum c || (c =? 95) || (c =? 46) || (c =? 45) then prepend c (scan_word p') else Got [] p
  end.
Definition scan_here (s : list Z) : scanned :=
  match s with
  | [] => End
  | c :: p =>
      if c =? 34 then scan_cstr p
      else if isdigit c then scan_number s
      else if isalpha c then scan_word s
      else if (c =? 123) || (c =? 125) || (c =? 61) || (c =? 59) then Got [c] p
      else if (c =? 47) && ((first p =? 47) || (first p =? 42)) then Got [c; first p] (drop 1 p)
      else Err "unexpected char" s
  end.
Definition scan (s : list Z) : scanned := scan_here (skip_spaces s).

(** ** The reader of a text *)
(** The number of lines. *)
Fixpoint nl (s : list Z) : Z := match s with [] => 0 | c :: s => (if c =? 10 then 1 else 0) + nl s end.
Definition after_line (s : list Z) : list Z := match strchr_nl s with Some s' => drop 1 s' | None => [] end.
Definition after_comment (s : list Z) : list Z := match strstr_end s with Some s' => drop 2 s' | None => [] end.
Definition is_comment (tok : list Z) : bool := equal tok (chars "//") || equal tok (chars "/*").
Definition continue_at (tok r : list Z) : list Z :=
  if equal tok (chars "//") then after_line r else if equal tok (chars "/*") then after_comment r else r.

(** ** Scanning a part of a text

    A text whose last line is complete: *)
Definition complete (s : list Z) : Prop := List.last s 10 = 10.
Lemma complete_tail c s : complete (c :: s) -> complete s.
Proof. unfold complete. by destruct s. Qed.
Lemma complete_app s t : complete t -> complete s -> complete (s ++ t).
Proof. intros Ht Hs. induction s as [|c s IH]; [done|]. pose proof (IH (complete_tail _ _ Hs)) as H. destruct s; [by destruct t|done]. Qed.
Lemma complete_suffix s t : complete (s ++ t) -> complete t.
Proof. induction s as [|c s IH]; [done|]. intros H. by eapply IH, complete_tail. Qed.
Lemma complete_last s c t : complete (s ++ c :: t) -> c <> 10 -> t <> [].
Proof. intros H%complete_suffix Hc ->. done. Qed.
Lemma nl_app s t : nl (s ++ t) = nl s + nl t.
Proof. induction s; cbn; lia. Qed.
Lemma nl_nonneg s : 0 <= nl s.
Proof. induction s as [|c s IH]; cbn; [lia|]. destruct (c =? 10); lia. Qed.
(** A line: its only newline is its last character. *)
Definition is_line (s : list Z) : Prop := nl s = 1 /\ complete s.
Lemma complete_nl s : complete s -> s <> [] -> 1 <= nl s.
Proof.
  induction s as [|c s IH]; [done|]. intros H _. destruct s as [|d s]; [unfold complete in H; cbn in H; subst; done|].
  specialize (IH (complete_tail _ _ H) ltac:(done)). cbn [nl] in *. destruct (c =? 10); lia.
Qed.
Lemma line_suffix s r : is_line (s ++ r) -> r <> [] -> is_line r.
Proof.
  intros [H1 H2] Hr. pose proof (complete_suffix _ _ H2) as H3. split; [|done]. pose proof (complete_nl _ H3 Hr). rewrite nl_app in H1. pose proof (nl_nonneg s). lia.
Qed.

Lemma prepend_Got c x t r : prepend c x = Got t r -> exists t', t = c :: t' /\ x = Got t' r.
Proof. destruct x; try discriminate. intros [= <- <-]. eauto. Qed.
Lemma prepend_Err c x m r : prepend c x = Err m r -> x = Err m r.
Proof. by destruct x. Qed.
Lemma prepend_End c x : prepend c x = End -> x = End.
Proof. by destruct x. Qed.
Lemma skip_spaces_split s : exists x, s = x ++ skip_spaces s.
Proof. induction s as [|c s [x E]]; [by exists []|]. cbn. destruct (isspace c); [exists (c :: x); cbn; congruence|by exists []]. Qed.
Lemma skip_spaces_app s t : skip_spaces (skip_spaces s ++ t) = skip_spaces (s ++ t).
Proof. induction s as [|c s IH]; [done|]. cbn. destruct (isspace c) eqn:E; [done|]. cbn. by rewrite E. Qed.
Lemma skip_spaces_more s t : skip_spaces s <> [] -> skip_spaces (s ++ t) = skip_spaces s ++ t.
Proof. induction s as [|c s IH]; [done|]. cbn. destruct (isspace c) eqn:E; [done|]. done. Qed.
Lemma skip_spaces_none s t : skip_spaces s = [] -> skip_spaces (s ++ t) = skip_spaces t.
Proof. intros E. by rewrite <- skip_spaces_app, E. Qed.

Lemma scan_skip s t : scan (skip_spaces s ++ t) = scan (s ++ t).
Proof. unfold scan. by rewrite skip_spaces_app. Qed.

(** What is scanned, and what is left. *)
Definition parts (s : list Z) (x : scanned) : Prop :=
  match x with
  | End => True
  | Err _ r => r <> [] /\ exists y, s = y ++ r
  | Got t r => exists y c, s = y ++ c :: r /\ c <> 10 /\ (length t <= S (length y))%nat
  end.
Lemma parts_cons c s x : parts s x -> parts (c :: s) x.
Proof.
  destruct x as [|m r|t r]; [done| |].
  - intros [? [y ->]]. split; [done|]. by exists (c :: y).
  - intros (y & d & -> & ? & ?). exists (c :: y), d. split_and!; [done|done|cbn; lia].
Qed.
Lemma parts_prepend c d s x : parts s x -> parts (c :: s) (prepend d x).
Proof.
  destruct x as [|m r|t r]; [done|by apply parts_cons|]. intros (y & e & -> & ? & ?). exists (c :: y), e. split_and!; [done|done|cbn; lia].
Qed.
Lemma scan_cstr_parts s : parts s (scan_cstr s).
Proof.
  induction s as [s IH] using (induction_ltof1 _ (@length Z)); unfold ltof in IH. destruct s as [|c s]; [done|]. cbn [scan_cstr].
  destruct (Z.eqb_spec c 34) as [->|]; [exists [], 34; cbn; split_and!; [done|done|lia]|]. destruct (c =? 92).
  - destruct s as [|e s]; [done|]. destruct (unescape e =? 0); [split; [done|by exists []]|].
    apply parts_cons, parts_prepend, IH. cbn. lia.
  - apply parts_prepend, IH. cbn. lia.
Qed.
Definition plain (s : list Z) (x : scanned) : Prop :=
  match x with End => True | Err _ _ => False | Got t r => s = t ++ r /\ Forall (fun c => c <> 10) t end.
Lemma plain_prepend c s x : c <> 10 -> plain s x -> plain (c :: s) (prepend c x).
Proof. intros Hc. destruct x; [done|done|]. intros [-> H]. split; [done|]. by constructor. Qed.
Lemma plain_stop s : plain s (Got [] s).
Proof. done. Qed.
Lemma not_nl (f : Z -> bool) c : f c = true -> f 10 = false -> c <> 10.
Proof. intros H1 H2 ->. congruence. Qed.
Lemma scan_number_plain s : plain s (scan_number s).
Proof.
  induction s as [|c s IH]; [done|]. cbn [scan_number]. destruct (isdigit c || (c =? 46)) eqn:E1.
  - apply plain_prepend; [|done]. by apply (not_nl (fun c => isdigit c || (c =? 46))).
  - destruct (Z.eqb_spec c 47) as [->|]; [|apply plain_stop]. destruct (isdigit (first s)); [by apply plain_prepend|].
    destruct ((first s =? 47) || (first s =? 42)); [apply plain_stop|done].
Qed.
Definition word_char (c : Z) : bool := isalnum c || (c =? 95) || (c =? 46) || (c =? 45).
Lemma scan_word_plain s : plain s (scan_word s).
Proof.
  induction s as [|c s IH]; [done|]. cbn [scan_word]. fold (word_char c). destruct (word_char c) eqn:E1; [|apply plain_stop].
  apply plain_prepend; [|done]. by apply (not_nl word_char).
Qed.
Lemma plain_parts s x : plain s x -> (forall r, x <> Got [] r) -> parts s x.
Proof.
  destruct x as [|m r|t r]; [done|done|]. intros [-> H] Ht. destruct t as [|c t]; [by destruct (Ht r)|].
  destruct (exists_last (l := c :: t) ltac:(done)) as (y & d & Ed). rewrite Ed in *. apply Forall_app in H as [_ H]. exists y, d. rewrite <- app_assoc. split_and!.
  - done.
  - by inversion H.
  - rewrite length_app. cbn. lia.
Qed.
Lemma prepend_not_nil c x r : prepend c x <> Got [] r.
Proof. by destruct x. Qed.
Lemma scan_number_start c s r : isdigit c = true -> scan_number (c :: s) <> Got [] r.
Proof. cbn [scan_number]. intros ->. apply prepend_not_nil. Qed.
Lemma scan_word_start c s r : isalpha c = true -> scan_word (c :: s) <> Got [] r.
Proof. cbn [scan_word]. unfold isalnum. intros ->. rewrite orb_true_r. apply prepend_not_nil. Qed.
Lemma scan_here_parts s : parts s (scan_here s).
Proof.
  destruct s as [|c s]; [done|]. cbn [scan_here]. destruct (c =? 34); [apply parts_cons, scan_cstr_parts|].
  destruct (isdigit c) eqn:E1; [apply plain_parts; [apply scan_number_plain|intros r; by apply scan_number_start]|].
  destruct (isalpha c) eqn:E2; [apply plain_parts; [apply scan_word_plain|intros r; by apply scan_word_start]|].
  destruct (_ || _ || _ || _) eqn:E3; [exists [], c; split_and!; [done| |cbn; lia]; by apply (not_nl (fun c => (c =? 123) || (c =? 125) || (c =? 61) || (c =? 59)))|].
  destruct (_ && _) eqn:E4; [|split; [done|by exists []]].
  apply andb_prop in E4 as [_ E4]. destruct s as [|d s]; [done|]. exists [c], d. split_and!; [done| |cbn; lia].
  by apply (not_nl (fun d => (d =? 47) || (d =? 42))).
Qed.
Lemma parts_app y s x : parts s x -> parts (y ++ s) x.
Proof. intros H. induction y; [done|by apply parts_cons]. Qed.
Lemma scan_parts s : parts s (scan s).
Proof. destruct (skip_spaces_split s) as [y E]. rewrite E at 1. apply parts_app, scan_here_parts. Qed.

(** More text behind a token does not change it. *)
Definition extend (x : scanned) (T : list Z) : scanned :=
  match x with End => End | Err m r => Err m (r ++ T) | Got t r => Got t (r ++ T) end.
Lemma prepend_extend c x T : extend (prepend c x) T = prepend c (extend x T).
Proof. by destruct x. Qed.
Lemma scan_cstr_more s T : scan_cstr s <> End -> scan_cstr (s ++ T) = extend (scan_cstr s) T.
Proof.
  induction s as [s IH] using (induction_ltof1 _ (@length Z)); unfold ltof in IH. destruct s as [|c s]; [by intros []|]. cbn [scan_cstr app].
  destruct (c =? 34); [done|]. destruct (c =? 92).
  - destruct s as [|e s]; [by intros []|]. cbn [app]. destruct (unescape e =? 0); [done|]. intros H. rewrite prepend_extend, IH; [done|cbn; lia|]. by destruct (scan_cstr s).
  - intros H. rewrite prepend_extend, IH; [done|cbn; lia|]. by destruct (scan_cstr s).
Qed.
Lemma first_app s T : s <> [] -> first (s ++ T) = first s.
Proof. by destruct s. Qed.
Lemma scan_number_more s T : scan_number s <> End -> scan_number (s ++ T) = extend (scan_number s) T.
Proof.
  induction s as [|c s IH]; [by intros []|]. cbn [scan_number app]. destruct (isdigit c || (c =? 46)).
  - intros H. rewrite prepend_extend, IH; [done|]. by destruct (scan_number s).
  - destruct (c =? 47); [|done]. destruct s as [|d s]; [by intros []|]. rewrite first_app by done. destruct (isdigit _).
    + intros H. rewrite prepend_extend, IH; [done|]. by destruct (scan_number _).
    + by destruct ((first (d :: s) =? 47) || (first (d :: s) =? 42)).
Qed.
Lemma scan_word_more s T : scan_word s <> End -> scan_word (s ++ T) = extend (scan_word s) T.
Proof.
  induction s as [|c s IH]; [by intros []|]. cbn [scan_word app]. destruct (_ || _ || _ || _); [|done].
  intros H. rewrite prepend_extend, IH; [done|]. by destruct (scan_word s).
Qed.
Lemma scan_more s T : complete s -> scan s <> End -> scan (s ++ T) = extend (scan s) T.
Proof.
  unfold scan. intros Hs H. destruct (skip_spaces_split s) as [y E]. rewrite E in Hs. apply complete_suffix in Hs.
  assert (Hn : skip_spaces s <> []) by (by destruct (skip_spaces s)). rewrite skip_spaces_more by done.
  destruct (skip_spaces s) as [|c q]; [done|]. cbn [scan_here app] in *. destruct (c =? 34); [by apply scan_cstr_more|].
  destruct (isdigit c); [by apply (scan_number_more (c :: q))|]. destruct (isalpha c); [by apply (scan_word_more (c :: q))|].
  destruct (_ || _ || _ || _); [done|]. destruct q as [|d q].
  - unfold complete in Hs. cbn in Hs. by subst.
  - rewrite first_app by done. by destruct (_ && _).
Qed.

(** A token that is not complete in [s] ends behind [s]. *)
Definition ends_in (T : list Z) (x : scanned) : Prop :=
  match x with End => True | Err _ r | Got _ r => (length r <= length T)%nat end.
Lemma parts_ends s x : parts s x -> ends_in s x.
Proof. destruct x as [|m r|t r]; [done| |]; [intros [_ [y ->]]; cbn; llia|intros (y & c & -> & _); cbn; llia]. Qed.
Lemma prepend_ends c T x : ends_in T x -> ends_in T (prepend c x).
Proof. by destruct x. Qed.
Lemma complete_one c : complete [c] -> c = 10.
Proof. done. Qed.
Lemma scan_cstr_left s T : complete s -> scan_cstr s = End -> ends_in T (scan_cstr (s ++ T)).
Proof.
  induction s as [s IH] using (induction_ltof1 _ (@length Z)); unfold ltof in IH. destruct s as [|c s]; [intros; apply parts_ends, scan_cstr_parts|].
  cbn [scan_cstr app]. intros Hs. destruct (c =? 34); [done|]. destruct (Z.eqb_spec c 92) as [->|].
  - destruct s as [|e s]; [by apply complete_one in Hs|]. cbn [app]. destruct (unescape e =? 0); [done|]. intros H%prepend_End.
    apply prepend_ends, IH; [cbn; lia|by do 2 eapply complete_tail|done].
  - intros H%prepend_End. apply prepend_ends, IH; [cbn; lia|by eapply complete_tail|done].
Qed.
Lemma plain_ends s x : plain s x -> ends_in s x.
Proof. destruct x as [|m r|t r]; [done|done|]. intros [-> _]. cbn. llia. Qed.
Lemma scan_number_left s T : complete s -> scan_number s = End -> ends_in T (scan_number (s ++ T)).
Proof.
  induction s as [|c s IH]; [intros; apply plain_ends, scan_number_plain|]. cbn [scan_number app]. intros Hs. pose proof (complete_tail _ _ Hs).
  destruct (isdigit c || (c =? 46)); [intros ?%prepend_End; by apply prepend_ends, IH|]. destruct (Z.eqb_spec c 47) as [->|]; [|done].
  destruct s as [|d s]; [by apply complete_one in Hs|]. rewrite first_app by done. destruct (isdigit (first (d :: s))).
  - intros ?%prepend_End. by apply prepend_ends, IH.
  - by destruct ((first (d :: s) =? 47) || (first (d :: s) =? 42)).
Qed.
Lemma scan_word_left s T : scan_word s = End -> ends_in T (scan_word (s ++ T)).
Proof.
  induction s as [|c s IH]; [intros; apply plain_ends, scan_word_plain|]. cbn [scan_word app]. destruct (_ || _ || _ || _); [|done].
  intros ?%prepend_End. by apply prepend_ends, IH.
Qed.
Lemma scan_left s T : complete s -> scan s = End -> ends_in T (scan (s ++ T)).
Proof.
  unfold scan. intros Hs H. destruct (skip_spaces s) as [|c q] eqn:E.
  { rewrite skip_spaces_none by done. apply parts_ends. apply (scan_parts T). }
  destruct (skip_spaces_split s) as [y Ey]. rewrite E in Ey. rewrite Ey in Hs. apply complete_suffix in Hs.
  rewrite skip_spaces_more by congruence. rewrite E. cbn [scan_here app] in *. destruct (c =? 34); [apply scan_cstr_left; [by eapply complete_tail|done]|].
  destruct (isdigit c); [by apply (scan_number_left (c :: q))|]. destruct (isalpha c); [by apply (scan_word_left (c :: q))|].
  destruct (_ || _ || _ || _); [done|]. by destruct ((c =? 47) && ((first q =? 47) || (first q =? 42))).
Qed.
(** So that the rest of the text is a line if [T] is one. *)
Lemma suffix_short (s T y r : list Z) : s ++ T = y ++ r -> (length r <= length T)%nat -> exists z, T = z ++ r.
Proof.
  intros E H. pose proof (f_equal length E) as El. rewrite !length_app in El. exists (drop (length s) y).
  apply (f_equal (drop (length s))) in E. rewrite drop_app_length in E. rewrite E. apply drop_app_le. lia.
Qed.
Definition rest_line (x : scanned) : Prop := match x with End => True | Err _ r | Got _ r => is_line r end.
Lemma scan_rest s T : complete s -> is_line T -> scan s = End -> rest_line (scan (s ++ T)).
Proof.
  intros Hs HT H. pose proof (scan_left s T Hs H) as H1. pose proof (scan_parts (s ++ T)) as H2.
  destruct (scan (s ++ T)) as [|m r|t r]; [done| |]; cbn in H1 |- *.
  - destruct H2 as [Hr [y E]]. destruct (suffix_short _ _ _ _ E H1) as [z Ez]. rewrite Ez in HT. by eapply line_suffix.
  - destruct H2 as (y & c & E & Hc & _). assert (r <> []) as Hr.
    { apply (complete_last y c); [|done]. rewrite <- E. apply complete_app; [apply HT|done]. }
    replace (y ++ c :: r) with ((y ++ [c]) ++ r) in E by (by rewrite <- app_assoc).
    destruct (suffix_short _ _ _ _ E H1) as [z Ez]. rewrite Ez in HT. by eapply line_suffix.
Qed.

(** ** Comments *)
Lemma strchr_line r : is_line r -> strchr_nl r = Some [10].
Proof.
  induction r as [|c r IH]; [by intros []|]. intros H. cbn [strchr_nl]. destruct (Z.eqb_spec c 10) as [->|Hc].
  - destruct r as [|d r]; [done|]. destruct H as [H1 H2]. pose proof (complete_nl (d :: r) (complete_tail _ _ H2) ltac:(done)). cbn [nl] in *. cbn in H1. lia.
  - apply IH. apply (line_suffix [c]); [done|]. intros ->. destruct H as [_ H%complete_one]. done.
Qed.
Lemma after_line_more r T : is_line r -> after_line (r ++ T) = T.
Proof.
  intros H. unfold after_line. assert (strchr_nl (r ++ T) = Some (10 :: T)) as ->; [|done]. apply strchr_line in H.
  revert H. induction r as [|c r IH]; [done|]. cbn [strchr_nl app]. destruct (c =? 10); [by intros [= -> ->]|auto].
Qed.
Lemma strstr_found r e T : strstr_end r = Some e -> strstr_end (r ++ T) = Some (e ++ T) /\ exists x, r = x ++ e /\ (2 <= length e)%nat.
Proof.
  induction r as [|c r IH]; [done|]. cbn [strstr_end app]. destruct r as [|d r]; [by rewrite andb_false_r|]. rewrite first_app by done.
  destruct (_ && _); [intros [= <-]; split; [done|]; exists []; split; [done|cbn; lia]|].
  intros [H (x & E & Hl)]%IH. split; [done|]. exists (c :: x). by rewrite E.
Qed.
Lemma strstr_none r T : complete r -> strstr_end r = None -> strstr_end (r ++ T) = strstr_end T.
Proof.
  induction r as [|c r IH]; [done|]. intros Hr. pose proof (complete_tail _ _ Hr). cbn [strstr_end app]. destruct r as [|d r].
  - apply complete_one in Hr as ->. done.
  - rewrite first_app by done. destruct (_ && _); [done|auto].
Qed.
Lemma after_comment_none r T : complete r -> strstr_end r = None -> after_comment (r ++ T) = after_comment T.
Proof. intros. unfold after_comment. by rewrite strstr_none. Qed.
Lemma after_comment_found r e T : strstr_end r = Some e -> after_comment (r ++ T) = drop 2 e ++ T.
Proof. intros [H (x & _ & Hl)]%(strstr_found _ _ T). unfold after_comment. rewrite H. by rewrite drop_app_le. Qed.
Lemma strchr_length s e : strchr_nl s = Some e -> (length e <= length s)%nat.
Proof. induction s as [|c s IH]; [done|]. cbn. destruct (c =? 10); [intros [= <-]; cbn; lia|intros ?%IH; lia]. Qed.
Lemma continue_length tok r : (length (continue_at tok r) <= length r)%nat.
Proof.
  unfold continue_at, after_line, after_comment. destruct (equal _ _); [|destruct (equal _ _); [|done]].
  - destruct (strchr_nl r) eqn:E; [apply strchr_length in E; llia|cbn; lia].
  - destruct (strstr_end r) eqn:E; [apply (strstr_found _ _ []) in E as [_ (x & -> & _)]; llia|cbn; lia].
Qed.

Definition text_chars (t : list Z) : Prop := Forall (fun c => c <> 0) t.
(** ** Lines from the file *)
(** What is seen of a line: the characters before the first 0. *)
Fixpoint seen (l : list Z) : list Z := match l with [] => [] | c :: l => if c =? 0 then [] else c :: seen l end.
Lemma seen_text l : text_chars (seen l).
Proof. induction l as [|c l IH]; [constructor|]. cbn. destruct (Z.eqb_spec c 0); by constructor. Qed.
Lemma seen_all l : 0 ∉ l -> seen l = l.
Proof.
  induction l as [|c l IH]; [done|]. intros H. cbn. destruct (Z.eqb_spec c 0) as [->|]; [destruct H; by left|]. f_equal. apply IH. intros ?. apply H. by right.
Qed.
Lemma seen_prefix l : exists x, l = seen l ++ x.
Proof. induction l as [|c l [x E]]; [by exists []|]. cbn. destruct (c =? 0); [by exists (c :: l)|]. exists x. cbn. congruence. Qed.
Lemma cstring_seen l junk : cstring (map Some l ++ Some 0 :: junk) = Ret (seen l).
Proof. induction l as [|c l IH]; [done|]. cbn in *. destruct (c =? 0); [done|]. by rewrite IH. Qed.

(** A piece of a line: without a newline, or with one at its end. *)
Definition piece (l : list Z) : Prop := nl l = 0 \/ is_line l.
Lemma piece_tail c l : c <> 10 -> piece l -> piece (c :: l).
Proof.
  intros Hc [H|[H1 H2]]; [left|right; split; [|destruct l; [done|exact H2]]]; cbn [nl]; by destruct (Z.eqb_spec c 10).
Qed.
Lemma piece_prefix s x : piece (s ++ x) -> x <> [] -> nl s = 0.
Proof.
  intros [H|[H1 H2]] Hx; rewrite nl_app in *; pose proof (nl_nonneg s); pose proof (nl_nonneg x); [lia|].
  pose proof (complete_nl x (complete_suffix _ _ H2) Hx). lia.
Qed.
Lemma piece_last l : piece l -> List.last l 0 <> 10 -> nl l = 0.
Proof. intros [H|[H1 H2]] Hl; [done|]. destruct l as [|c l]; [done|]. destruct Hl. unfold complete in H2. clear H1. revert c H2. induction l as [|d l IH]; [done|]. intros c. apply IH. Qed.
Lemma piece_line l : piece l -> List.last l 0 = 10 -> is_line l.
Proof.
  intros [H|H] Hl; [|done]. destruct l as [|c l]; [done|]. assert (complete (c :: l)) as Hc.
  { unfold complete. revert Hl. clear H. revert c. induction l as [|d l IH]; [done|]. intros c. apply IH. }
  pose proof (complete_nl _ Hc ltac:(done)). lia.
Qed.
Lemma take_line_spec n f l r : take_line n f = (l, r) -> f = l ++ r /\ (length l <= n)%nat /\ piece l /\ ((length l < n)%nat -> List.last l 0 <> 10 -> r = []).
Proof.
  revert f l r. induction n as [|n IH]; intros f l r; cbn [take_line]; [intros [= <- <-]; split_and!; [done|done|by left|cbn; lia]|].
  destruct f as [|c f]; [intros [= <- <-]; split_and!; [done|cbn; lia|by left|done]|]. destruct (Z.eqb_spec c 10) as [->|Hc].
  { intros [= <- <-]. split_and!; [done|cbn; lia|by right|done]. }
  destruct (take_line n f) as [l' r'] eqn:E. intros [= <- <-]. destruct (IH _ _ _ E) as (-> & H1 & H2 & H3). split_and!; [done|cbn; lia|by apply piece_tail|].
  intros Hn Hl. apply H3; [cbn in Hn; lia|]. by destruct l'.
Qed.
Lemma fgets_spec n f x f' : 1 <= n -> feof f = false -> ferror f = false -> fgets n f = (x, f') ->
  match x with
  | None => if ferror f' then broken f = true else f' = mkFile [] false true false /\ rest f = [] /\ (1 < n)
  | Some l => rest f = l ++ rest f' /\ zlen l <= n - 1 /\ piece l /\ broken f' = broken f /\ ferror f' = false /\
      (feof f' = true -> rest f' = [] /\ l <> [] /\ nl l = 0) /\ (l = [] -> n = 1)
  end.
Proof.
  intros Hn E1 E2. unfold fgets. destruct (take_line _ _) as [l r] eqn:E. destruct (take_line_spec _ _ _ _ E) as (Ef & H1 & H2 & H3).
  destruct ((zlen l <? n - 1) && negb (List.last l 0 =? 10)) eqn:Ec.
  - apply andb_prop in Ec as [Ec1%Z.ltb_lt Ec2%negb_true_iff%Z.eqb_neq]. rewrite (H3 ltac:(lia) Ec2) in *. destruct (broken f) eqn:Eb; [by intros [= <- <-]|].
    destruct l as [|c l]; intros [= <- <-]; cbn [rest broken feof ferror]; rewrite E2; [split_and!; [done|done|cbn in Ec1; lia]|].
    split_and!; try done; [lia|]. intros _. split_and!; [done|done|]. by apply piece_last.
  - intros [= <- <-]. cbn [rest broken feof ferror]. rewrite E1, E2. split_and!; try done; [lia|]. intros ->. cbn in Ec. apply andb_false_iff in Ec as [Ec%Z.ltb_ge|Ec]; [lia|done].
Qed.

(** The lines of a text, without a last one that is not complete. *)
Fixpoint full_lines (s : list Z) : list Z :=
  match s with
  | [] => []
  | c :: s => match full_lines s with [] => if c =? 10 then [c] else [] | l => c :: l end
  end.
Lemma full_lines_line s t : complete s -> full_lines (s ++ t) = s ++ full_lines t.
Proof.
  induction s as [|c s IH]; [done|]. intros H. cbn [app full_lines]. rewrite (IH (complete_tail _ _ H)). destruct s as [|d s].
  - apply complete_one in H as ->. cbn. by destruct (full_lines t).
  - done.
Qed.
Lemma full_lines_prefix s : full_lines s `prefix_of` s.
Proof.
  induction s as [|c s IH]; [done|]. cbn. destruct (full_lines s) as [|d l] eqn:E; [|by apply prefix_cons].
  destruct (c =? 10); [apply prefix_cons, prefix_nil|apply prefix_nil].
Qed.
Lemma full_lines_sublist s : full_lines s `sublist_of` s.
Proof. destruct (full_lines_prefix s) as [x Ex]. rewrite Ex at 2. by apply sublist_inserts_r. Qed.
Lemma full_lines_part s : nl s = 0 -> full_lines s = [].
Proof. induction s as [|c s IH]; [done|]. cbn. pose proof (nl_nonneg s). destruct (c =? 10); intros; [lia|]. by rewrite IH by lia. Qed.

(** ** Tokens that are written are read *)
(** A token, how it is spelled, and the white space behind it. *)
Record item := mkItem { token : list Z; spelling : list Z; gap : list Z }.
Inductive escaped : list Z -> list Z -> Prop :=
| escaped_nil : escaped [] []
| escaped_char c t b : c <> 0 -> c <> 34 -> c <> 92 -> escaped t b -> escaped (c :: t) (c :: b)
| escaped_escape c e t b : unescape e = c -> c <> 0 -> escaped t b -> escaped (c :: t) (92 :: e :: b).
Inductive spelled : list Z -> list Z -> Prop :=
| spelled_quoted t b : escaped t b -> spelled t (34 :: b ++ [34])
| spelled_word c t : isalpha c = true -> forallb word_char t = true -> spelled (c :: t) (c :: t)
| spelled_number c t : isdigit c = true -> forallb (fun c => isdigit c || (c =? 46)) t = true -> spelled (c :: t) (c :: t)
| spelled_punctuation c : c ∈ [123; 125; 61; 59] -> spelled [c] [c].
Definition item_ok (i : item) : Prop :=
  spelled (token i) (spelling i) /\ is_comment (token i) = false /\ gap i <> [] /\ forallb isspace (gap i) = true.
Definition text_of (l : list item) : list Z := mjoin (map (fun i => spelling i ++ gap i) l).

Lemma scan_cstr_escaped t b r : escaped t b -> scan_cstr (b ++ 34 :: r) = Got t r.
Proof.
  induction 1 as [|c t b H0 H1 H2 H IH|c e t b He H0 H IH]; [done| |]; cbn [app scan_cstr].
  - destruct (Z.eqb_spec c 34); [done|]. destruct (Z.eqb_spec c 92); [done|]. by rewrite IH.
  - rewrite He, IH. destruct (Z.eqb_spec c 0); done.
Qed.
Lemma scan_run (f : Z -> bool) (g : list Z -> scanned) t d r : (forall c s, f c = true -> g (c :: s) = prepend c (g s)) -> g (d :: r) = Got [] (d :: r) ->
  forallb f t = true -> g (t ++ d :: r) = Got t (d :: r).
Proof. intros H1 H2 Ht. induction t as [|c t IH]; [done|]. cbn in Ht. apply andb_prop in Ht as [Hc Ht]. cbn. by rewrite (H1 _ _ Hc), IH. Qed.
Lemma space_stops d : isspace d = true -> isdigit d || (d =? 46) = false /\ (d =? 47) = false /\ word_char d = false.
Proof. unfold isspace, word_char, isalnum, isalpha, isdigit, between. zcases; cbn; try done; intros _; split_and!; done || lia. Qed.
Lemma word_start c : isalpha c = true -> (c =? 34) = false /\ isdigit c = false /\ isspace c = false /\ c <> 0 /\ word_char c = true.
Proof. unfold isspace, word_char, isalnum, isalpha, isdigit, between. zcases; cbn; try done; intros _; split_and!; done || lia. Qed.
Lemma number_start c : isdigit c = true -> (c =? 34) = false /\ isspace c = false /\ c <> 0.
Proof. unfold isspace, isdigit, between. zcases; cbn; try done; intros _; split_and!; done || lia. Qed.
Lemma scan_spelled t s d r : spelled t s -> isspace d = true -> scan (s ++ d :: r) = Got t (d :: r).
Proof.
  intros H Hd. destruct (space_stops d Hd) as (S1 & S2 & S3). unfold scan. destruct H as [t b H|c t Hc Ht|c t Hc Ht|c Hc].
  - rewrite <- app_comm_cons, <- app_assoc. cbn. by apply scan_cstr_escaped.
  - destruct (word_start c Hc) as (W1 & W2 & W3 & _ & W4). cbn [app skip_spaces]. rewrite W3. cbn [scan_here]. rewrite W1, W2, Hc.
    apply (scan_run word_char scan_word (c :: t)); [intros x s Hx; cbn [scan_word]; fold (word_char x); by rewrite Hx|cbn [scan_word]; fold (word_char d); by rewrite S3|cbn; by rewrite W4].
  - destruct (number_start c Hc) as (N1 & N2 & _). cbn [app skip_spaces]. rewrite N2. cbn [scan_here]. rewrite N1, Hc.
    apply (scan_run (fun c => isdigit c || (c =? 46)) scan_number (c :: t)); [intros x s Hx; cbn [scan_number]; by rewrite Hx|cbn [scan_number]; by rewrite S1, S2|cbn; by rewrite Hc].
  - repeat (apply elem_of_cons in Hc as [->|Hc]; [done|]). by apply elem_of_nil in Hc.
Qed.
Lemma skip_gap g s : forallb isspace g = true -> scan (g ++ s) = scan s.
Proof. unfold scan. induction g as [|c g IH]; [done|]. cbn. intros [-> Hg]%andb_prop. by apply IH. Qed.
Lemma escaped_text t b : escaped t b -> text_chars b.
Proof.
  induction 1 as [|c t b H0 H1 H2 H IH|c e t b He H0 H IH]; [constructor|by constructor|]. constructor; [done|]. constructor; [|done]. intros ->. by cbn in He.
Qed.
Lemma forall_text (f : Z -> bool) t : f 0 = false -> forallb f t = true -> text_chars t.
Proof. intros Hf. induction t as [|c t IH]; [constructor|]. cbn. intros [Hc Ht]%andb_prop. constructor; [|by apply IH]. intros ->. congruence. Qed.
Lemma spelled_text t s : spelled t s -> text_chars s.
Proof.
  intros [t' b H|c t' Hc Ht|c t' Hc Ht|c Hc].
  - constructor; [done|]. apply Forall_app. split; [by eapply escaped_text|by repeat constructor].
  - constructor; [by apply word_start|by apply (forall_text word_char)].
  - constructor; [by apply number_start|by apply (forall_text (fun c => isdigit c || (c =? 46)))].
  - constructor; [|constructor]. by intros ->; repeat (apply elem_of_cons in Hc as [?|Hc]; [done|]); apply elem_of_nil in Hc.
Qed.
Lemma items_text l : Forall item_ok l -> text_chars (text_of l).
Proof.
  induction 1 as [|i l (H1 & _ & _ & H4) Hl IH]; [constructor|]. unfold text_of. cbn. rewrite <- app_assoc. apply Forall_app. split; [by eapply spelled_text|].
  apply Forall_app. split; [by apply (forall_text isspace)|done].
Qed.

Section text.
Context {A : Type}.
Context (ok : nat -> bool) (realloc_ok : nat -> bool).
Context (inet_aton : list Z -> option Z) (getaddrinfo : list Z -> Z + string).
Context (sections : list (parser_section A)).
#[local] Abbreviation act := (prog (parsing A)).
#[local] Abbreviation run := (prog (run_state A)).
#[local] Abbreviation handler := (on_token ok inet_aton getaddrinfo sections).

Definition set_line (n : Z) : act unit := in_context (fun c => mkContext (own c) (asked c) n (error c) (log c)).
(** Reads the tokens of [s], the end of a text of [lines] lines, until an error. *)
Fixpoint read_text (n : nat) (lines : Z) (s : list Z) : act unit :=
  match n with
  | O => lift OutOfFuel
  | S n =>
      e ← is_error;
      if e : bool then mret tt else
      match scan s with
      | End => set_line lines
      | Err msg r => _ ← set_line (lines + 1 - nl r); parser_error msg
      | Got tok r =>
          _ ← set_line (lines + 1 - nl r);
          x ← alloc ok;
          if negb x then parser_error "malloc failed" else
          _ ← (if is_comment tok then mret tt else handler tok);
          read_text n lines (continue_at tok r)
      end
  end.
Definition reading (lines : Z) (s : list Z) : act unit := read_text (S (length s)) lines s.

(** ** The lexer of parser.c takes the same tokens *)
Lemma count_cstr_scan p len : match scan_cstr p with
  | End => count_cstr p len = Incomplete
  | Err m r => m = "unknown escaped char after \"%string /\ count_cstr p len = BadEscape
  | Got t r => count_cstr p len = Length (len + length t) /\ copy_cstr p (S (length t)) = Ret (t, r)
  end.
Proof.
  revert len. induction p as [p IH] using (induction_ltof1 _ (@length Z)); unfold ltof in IH. intros len. destruct p as [|c p]; [done|].
  cbn [scan_cstr count_cstr copy_cstr]. destruct (c =? 34); [by rewrite Nat.add_0_r|]. destruct (c =? 92).
  - destruct p as [|e p]; [done|]. destruct (unescape e =? 0); [done|]. specialize (IH p ltac:(cbn; lia) (S len)).
    destruct (scan_cstr p) as [|m r|t r]; cbn [prepend]; [done|done|]. destruct IH as [-> E]. split; [f_equal; cbn; lia|].
    cbn [length]. by rewrite E.
  - specialize (IH p ltac:(cbn; lia) (S len)). destruct (scan_cstr p) as [|m r|t r]; cbn [prepend]; [done|done|].
    destruct IH as [-> E]. split; [f_equal; cbn; lia|]. cbn [length]. by rewrite E.
Qed.
Lemma count_number_scan p len : match scan_number p with
  | End => count_number p len = None
  | Err _ _ => False
  | Got t r => count_number p len = Some (len + length t)%nat /\ p = t ++ r
  end.
Proof.
  revert len. induction p as [|c p IH]; intros len; cbn [scan_number count_number]; [done|]. specialize (IH (S len)).
  destruct (isdigit c || (c =? 46)); [|destruct (c =? 47); [destruct (isdigit (first p)); [|destruct ((first p =? 47) || (first p =? 42))]|]];
    try (by rewrite Nat.add_0_r); try done;
    (destruct (scan_number p); cbn [prepend]; [done|done|]; destruct IH as [-> ->]; split; [f_equal; cbn; lia|done]).
Qed.
Lemma count_word_scan p len : match scan_word p with
  | End => count_word p len = None
  | Err _ _ => False
  | Got t r => count_word p len = Some (len + length t)%nat /\ p = t ++ r
  end.
Proof.
  revert len. induction p as [|c p IH]; intros len; cbn [scan_word count_word]; [done|]. specialize (IH (S len)).
  destruct (isalnum c || (c =? 95) || (c =? 46) || (c =? 45)); [|by rewrite Nat.add_0_r].
  destruct (scan_word p); cbn [prepend]; [done|done|]. destruct IH as [-> ->]. split; [f_equal; cbn; lia|done].
Qed.
Lemma copy_plain_app t r : copy_plain (t ++ r) (length t) = Ret (t, r).
Proof. unfold copy_plain. rewrite take_app_length, drop_app_length. destruct (Nat.leb_spec (length t) (length (t ++ r))); [done|llia]. Qed.

(** The token is copied to memory that is allocated for it. *)
Definition copied (s : list Z) (copy : cres (list Z * list Z)) : act (option (list Z) * list Z) :=
  x ← alloc ok;
  if negb x then _ ← parser_error "malloc failed"; mret (None, s) else '(ret, i) ← lift copy; mret (Some ret, i).
Definition token_of (x : scanned) (s : list Z) : act (option (list Z) * list Z) :=
  match x with
  | End => mret (None, skip_spaces s)
  | Err m _ => _ ← parser_error m; mret (None, skip_spaces s)
  | Got t r => copied (skip_spaces s) (Ret (t, r))
  end.
Lemma gettoken_scan s : gettoken ok s = token_of (scan s) s.
Proof.
  unfold gettoken, token_of, scan, scan_here. destruct (skip_spaces s) as [|c q]; [done|]. destruct (c =? 34).
  { pose proof (count_cstr_scan q 0) as H. destruct (scan_cstr q) as [|m r|t r]; [by rewrite H|by destruct H as [-> ->]|].
    destruct H as [-> <-]. done. }
  destruct (isdigit c).
  { pose proof (count_number_scan (c :: q) 0) as H. destruct (scan_number (c :: q)) as [|m r|t r]; [by rewrite H|done|].
    destruct H as [-> E]. by rewrite <- copy_plain_app, <- E. }
  destruct (isalpha c).
  { pose proof (count_word_scan (c :: q) 0) as H. destruct (scan_word (c :: q)) as [|m r|t r]; [by rewrite H|done|].
    destruct H as [-> E]. by rewrite <- copy_plain_app, <- E. }
  destruct (_ || _ || _ || _); [done|].
  destruct ((c =? 47) && _) eqn:E; [|done]. apply andb_prop in E as [_ E]. by destruct q.
Qed.

(** ** The reader *)
Lemma bind_ext {B D} (m : act B) (k k' : B -> act D) p : (forall b p, k b p = k' b p) -> (m ≫= k) p = (m ≫= k') p.
Proof. intros H. unfold mbind, prog_bind. destruct (m p) as [[b p']| |]; [apply H|done|done]. Qed.
Definition read_token (k : act unit) (lines : Z) (tok r : list Z) : act unit :=
  _ ← set_line (lines + 1 - nl r);
  x ← alloc ok;
  if negb x then parser_error "malloc failed" else _ ← (if is_comment tok then mret tt else handler tok); k.
Lemma read_text_S n lines s p : read_text (S n) lines s p =
  if error (context p) then Ret (tt, p) else
  match scan s with
  | End => set_line lines p
  | Err msg r => (_ ← set_line (lines + 1 - nl r); parser_error msg) p
  | Got tok r => read_token (read_text n lines (continue_at tok r)) lines tok r p
  end.
Proof.
  cbn [read_text]. unfold is_error, gets. unfold mbind at 1, prog_bind at 1. cbn [mbind cres_bind]. destruct (error (context p)); [done|]. by destruct (scan s).
Qed.
Lemma read_token_ext k k' lines tok r p : (forall p, k p = k' p) -> read_token k lines tok r p = read_token k' lines tok r p.
Proof.
  intros H. apply bind_ext. intros _ p1. apply bind_ext. intros x p2. destruct x; [|done]. by apply bind_ext.
Qed.
Lemma read_text_fuel n m lines s p : (length s < n)%nat -> (length s < m)%nat -> read_text n lines s p = read_text m lines s p.
Proof.
  revert m s p. induction n as [|n IH]; intros m s p Hn Hm; [lia|]. destruct m as [|m]; [lia|]. rewrite !read_text_S. destruct (error (context p)); [done|].
  pose proof (scan_parts s) as H. destruct (scan s) as [|msg r|t r]; [done|done|]. destruct H as (y & c & -> & _). autorewrite with zlist in *.
  apply read_token_ext. intros p'. pose proof (continue_length t r). apply IH; cbn in *; lia.
Qed.
Lemma reading_fuel n lines s p : (length s < n)%nat -> read_text n lines s p = reading lines s p.
Proof. intros. apply read_text_fuel; lia. Qed.

(** [keeps m]: [m] does not change the line. *)
Definition keeps {B} (m : act B) : Prop := forall p b p', m p = Ret (b, p') -> line (context p') = line (context p).
Lemma keeps_bind {B D} (m : act B) (k : B -> act D) : keeps m -> (forall b, keeps (k b)) -> keeps (m ≫= k).
Proof.
  intros Hm Hk p d p' E. unfold mbind, prog_bind in E. destruct (m p) as [[b p1]| |] eqn:E1; [|done|done]. cbn in E.
  rewrite (Hk b _ _ _ E). by eapply Hm.
Qed.
Lemma keeps_ret {B} (b : B) : keeps (mret b : act B).
Proof. by intros p b' p' [= -> ->]. Qed.
Lemma keeps_lift {B} (x : cres B) : keeps (lift x : act B).
Proof. intros p b p' E. destruct x; [|done|done]. by injection E as -> ->. Qed.
Lemma keeps_gets {B} (f : parsing A -> B) : keeps (gets f).
Proof. by intros p b p' [= _ <-]. Qed.
Lemma keeps_sets (f : parsing A -> parsing A) : (forall p, line (context (f p)) = line (context p)) -> keeps (sets f).
Proof. intros H p b p' [= _ <-]. apply H. Qed.
Lemma keeps_error msg : keeps (parser_error msg : act unit).
Proof. by apply keeps_sets. Qed.
Lemma keeps_alloc : keeps (alloc ok : act bool).
Proof. apply keeps_bind; [apply keeps_gets|]. intros c. apply keeps_bind; [by apply keeps_sets|]. intros _. apply keeps_ret. Qed.
Create HintDb keeps_db.
#[local] Hint Resolve keeps_ret keeps_lift keeps_gets keeps_error keeps_alloc : keeps_db.
Ltac keeps := repeat first [apply keeps_bind; [|intros ?] | solve [eauto with keeps_db] | by apply keeps_sets
  | match goal with |- keeps (match ?x with _ => _ end) => destruct x end | match goal with |- keeps (if ?x then _ else _) => destruct x end ].
Lemma keeps_write addr v : keeps (write_at addr v : act unit).
Proof. destruct addr as [[s k]|]; cbn [write_at]; keeps. Qed.
#[local] Hint Resolve keeps_write : keeps_db.
Lemma keeps_value t addr tok : keeps (value_parser_by_type ok inet_aton getaddrinfo t addr tok : act bool).
Proof.
  destruct t; cbn [value_parser_by_type]; unfold vp_pbool, vp_pchar, vp_uint16, vp_in_addr, vp_in_addr2, vp_mask; keeps.
Qed.
#[local] Hint Resolve keeps_value : keeps_db.
Lemma keeps_report msgs : keeps (report msgs : act unit).
Proof. induction msgs; cbn [report]; keeps; auto. Qed.
#[local] Hint Resolve keeps_report : keeps_db.
Lemma keeps_call f msg : keeps (call f msg : act unit).
Proof. unfold call, when. keeps. Qed.
#[local] Hint Resolve keeps_call : keeps_db.
Lemma keeps_token tok : keeps (handler tok).
Proof.
  unfold on_token, open_brace, close_brace, equals_sign, semicolon, plain_token, assign, set_section, set_section_token, set_key_token, set_value_token, when. keeps.
Qed.

(** ** The buffer *)
Definition with_buf b (r : run_state A) : run_state A := mkRun (ps r) b (fd r) (grown r) (in_comment r) (need_more_space r) (need_more_data r).
Definition with_ps p (r : run_state A) : run_state A := mkRun p (buf r) (fd r) (grown r) (in_comment r) (need_more_space r) (need_more_data r).
Definition with_comment x (r : run_state A) : run_state A := mkRun (ps r) (buf r) (fd r) (grown r) x (need_more_space r) (need_more_data r).

(** The cells hold [t], and then others. *)
Definition cells (t : list Z) (junk : list (option Z)) : buffer := mkBuffer (zlen (map Some t ++ junk)) (zlen t) (map Some t ++ junk).
Definition holds (b : buffer) (t : list Z) : Prop := text_chars t /\ exists junk, b = cells t (Some 0 :: junk).

Lemma cstring_text t junk : text_chars t -> cstring (map Some t ++ Some 0 :: junk) = Ret t.
Proof. induction 1 as [|c t Hc Ht IH]; [done|]. cbn. destruct (Z.eqb_spec c 0); [done|]. cbn in IH. by rewrite IH. Qed.
Lemma string_at_holds (r : run_state A) pre cur i : holds (buf r) (pre ++ cur) -> i = zlen pre -> string_at i r = Ret (cur, r).
Proof.
  intros [Ht [junk Eb]] ->. apply Forall_app in Ht as [_ Ht]. unfold string_at, gets, mbind, prog_bind. cbn. rewrite Eb. cbn [cells data].
  rewrite map_app, <- app_assoc, drop_app_length' by (rewrite length_map; lia). by rewrite cstring_text.
Qed.
(** Removing characters with [memmove]. *)
Lemma store_split (m1 old m2 bs : list (option Z)) off : off = zlen m1 -> length bs = length old ->
  store (m1 ++ old ++ m2) off bs = Some (m1 ++ bs ++ m2).
Proof. intros -> E. rewrite store_Some by llia. by rewrite splice_mid. Qed.
Lemma load_split (m1 bs m2 : list (option Z)) off n : off = zlen m1 -> n = zlen bs -> load (m1 ++ bs ++ m2) off n = Some bs.
Proof.
  intros -> ->. rewrite load_Some by llia. unfold slice. rewrite !Nat2Z.id, drop_app_length, take_app_length. done.
Qed.
Lemma filled_set_holds (r : run_state A) t junk : text_chars t -> junk <> [] -> (data (buf r) = map Some t ++ junk) -> size (buf r) = zlen (data (buf r)) ->
  exists b, holds b t /\ size b = size (buf r) /\ context_filled_set (zlen t) r = Ret (tt, with_buf b r).
Proof.
  intros Ht Hj Ed Es. destruct junk as [|x junk]; [done|]. exists (cells t (Some 0 :: junk)). split_and!.
  - split; [done|eauto].
  - rewrite Es, Ed. cbn [size cells]. llia.
  - unfold context_filled_set, store_cells, set_buf, gets, sets, mbind, prog_bind. cbn. rewrite Ed, (store_split (map Some t) [x] junk); [|by rewrite length_map|done].
    cbn. unfold with_buf, cells. rewrite Es, Ed. do 4 f_equal. cbn. llia.
Qed.
Lemma move_left (m1 mid bs m2 : list (option Z)) : exists x, length x = (length mid + length m2)%nat /\
  load (m1 ++ mid ++ bs ++ m2) (zlen m1 + zlen mid) (zlen bs) = Some bs /\ store (m1 ++ mid ++ bs ++ m2) (zlen m1) bs = Some (m1 ++ bs ++ x).
Proof.
  exists (drop (length bs) (mid ++ bs ++ m2)). split_and!.
  - rewrite length_drop, !length_app. lia.
  - rewrite (app_assoc m1). apply load_split; llia.
  - rewrite <- (take_drop (length bs) (mid ++ bs ++ m2)) at 1. apply store_split; [done|]. rewrite length_take, !length_app. lia.
Qed.
Lemma cut_holds {B} (k : run B) (r : run_state A) pre del cur dst src n shift : holds (buf r) (pre ++ del ++ cur) ->
  dst = zlen pre -> src = zlen pre + zlen del -> n = zlen cur -> shift = - zlen del ->
  exists b, holds b (pre ++ cur) /\ size b = size (buf r) /\ (_ ← memmove dst src n; _ ← context_filled_add shift; k) r = k (with_buf b r).
Proof.
  intros [Ht [junk Eb]] -> -> -> ->. destruct r as [p b f g c ns nd]; cbn [buf] in *. subst b.
  destruct (move_left (map Some pre) (map Some del) (map Some cur) (Some 0 :: junk)) as (x & Hx & El & Es). rewrite !length_map in *.
  set (all := map Some pre ++ map Some del ++ map Some cur ++ Some 0 :: junk) in *.
  assert (Ea : map Some (pre ++ del ++ cur) ++ Some 0 :: junk = all) by (by rewrite !map_app, <- !app_assoc).
  set (b1 := mkBuffer (zlen all) (zlen (pre ++ del ++ cur)) (map Some pre ++ map Some cur ++ x)).
  destruct (filled_set_holds (mkRun p b1 f g c ns nd) (pre ++ cur) x) as (b & Hb & Eb & H).
  { apply Forall_app in Ht as [? [? ?]%Forall_app]. by apply Forall_app. }
  { intros ->. cbn in Hx. lia. }
  { cbn. by rewrite map_app, <- app_assoc. }
  { cbn. unfold all. rewrite !length_app, !length_map. cbn in Hx |- *. lia. }
  exists b. split; [done|]. cbn [buf size cells] in *. rewrite Ea. split; [done|].
  unfold memmove, context_filled_add, store_cells, gets, sets, set_buf, mbind, prog_bind in *. cbn -[context_filled_set]. rewrite Ea, El.
  cbn -[context_filled_set]. rewrite Ea, Es. cbn -[context_filled_set].
  replace (zlen (pre ++ del ++ cur) + - zlen del) with (zlen (pre ++ cur)) by llia. fold b1. by rewrite H.
Qed.

(** ** Tokens from the buffer *)
Definition asks (p : parsing A) : parsing A :=
  mkParsing (mkContext (own (context p)) (S (asked (context p))) (line (context p)) (error (context p)) (log (context p)))
    (section p) (section_token p) (key_token p) (value_token p).
Definition errs (msg : string) (p : parsing A) : parsing A :=
  mkParsing (add_error msg (context p)) (section p) (section_token p) (key_token p) (value_token p).
Lemma set_line_same n (p : parsing A) : line (context p) = n -> set_line n p = Ret (tt, p).
Proof. intros <-. by destruct p as [[]]. Qed.
Lemma reading_error L s p : error (context p) = true -> reading L s p = Ret (tt, p).
Proof. intros E. unfold reading. by rewrite read_text_S, E. Qed.
Lemma reading_Err L s p msg r : error (context p) = false -> scan s = Err msg r -> line (context p) = L + 1 - nl r ->
  reading L s p = Ret (tt, errs msg p).
Proof. intros E1 E2 E3. unfold reading. rewrite read_text_S, E1, E2. unfold mbind, prog_bind. by rewrite set_line_same. Qed.
Lemma reading_Got L s p tok r : error (context p) = false -> scan s = Got tok r -> line (context p) = L + 1 - nl r ->
  reading L s p = if ok (asked (context p)) then (_ ← (if is_comment tok then mret tt else handler tok); reading L (continue_at tok r)) (asks p)
    else Ret (tt, errs "malloc failed" (asks p)).
Proof.
  intros E1 E2 E3. pose proof (scan_parts s) as H. rewrite E2 in H. destruct H as (y & c & -> & _). unfold reading at 1. rewrite read_text_S, E1, E2.
  unfold read_token. unfold mbind at 1, prog_bind at 1. rewrite set_line_same by done. cbn [mbind cres_bind].
  change ((if negb (ok (asked (context p))) then parser_error "malloc failed" else
     _ ← (if is_comment tok then mret tt else handler tok); read_text (length (y ++ c :: r)) L (continue_at tok r)) (asks p) =
     if ok (asked (context p)) then (_ ← (if is_comment tok then mret tt else handler tok); reading L (continue_at tok r)) (asks p) else Ret (tt, errs "malloc failed" (asks p))).
  destruct (ok _); [|done]. apply bind_ext. intros _ p'. apply reading_fuel. pose proof (continue_length tok r). llia.
Qed.

(** The state after the loop over the tokens; [s0] is the text and [p0] the parser from before. *)
Definition same_input (r r' : run_state A) : Prop :=
  fd r' = fd r /\ grown r' = grown r /\ need_more_space r' = need_more_space r /\ need_more_data r' = need_more_data r /\ size (buf r') = size (buf r).
Record loop_post (L : Z) (T s0 : list Z) (r : run_state A) (len : nat) (null : bool) (iter : Z) (r' : run_state A) (pre cur : list Z) : Prop := {
  lp_buf : holds (buf r') (pre ++ cur);
  lp_same : same_input r r';
  lp_iter : iter = zlen pre;
  lp_line : line (context (ps r')) = L - nl T;
  lp_len : (length cur <= len)%nat;
  lp_read :
    if error (context (ps r')) then reading L s0 (ps r) = Ret (tt, ps r')
    else if in_comment r' then
      null = false /\ pre = [] /\ is_line cur /\ (length cur < len)%nat /\ reading L s0 (ps r) = reading L (after_comment (cur ++ T)) (ps r')
    else null = true /\ complete cur /\ scan cur = End /\ reading L s0 (ps r) = reading L (cur ++ T) (ps r') }.
Lemma loop_post_mono L T s0 s1 r r1 len len' null iter r' pre cur : same_input r r1 -> (len <= len')%nat ->
  reading L s0 (ps r) = reading L s1 (ps r1) -> loop_post L T s1 r1 len null iter r' pre cur -> loop_post L T s0 r len' null iter r' pre cur.
Proof.
  intros (S1 & S2 & S3 & S4 & S5) Hl E [P1 (Q1 & Q2 & Q3 & Q4 & Q5) P3 P4 P5 P6]. split; try done; [split_and!; congruence|lia|]. rewrite E.
  destruct (error _); [done|]. destruct (in_comment r'); [|done]. destruct P6 as (? & ? & ? & ? & ?). split_and!; [done|done|done|lia|done].
Qed.

Lemma bind_at {S B D} (m : prog S B) (k : B -> prog S D) r b r' : m r = Ret (b, r') -> (m ≫= k) r = k b r'.
Proof. intros E. unfold mbind, prog_bind. by rewrite E. Qed.
Lemma copied_at s t r p : copied s (Ret (t, r)) p =
  if ok (asked (context p)) then Ret ((Some t, r), asks p) else Ret ((None, s), errs "malloc failed" (asks p)).
Proof. unfold copied. rewrite (bind_at (alloc ok) _ p _ _ eq_refl). by destruct (ok (asked (context p))). Qed.
#[local] Abbreviation loop := (token_loop ok inet_aton getaddrinfo sections).
(** What the loop does with a token; [s'] is the string behind it. *)
Definition take_token (n : nat) (tok s' : list Z) (iter : Z) : run (bool * Z) :=
  b ← gets buf;
  if equal tok (chars "//") then
    endc ← lift (of_option (strchr_nl s'));
    let endc := iter + (zlen s' - zlen endc) + 1 in
    _ ← memmove (iter - 2) endc (filled b - endc);
    _ ← context_filled_add (- (endc - (iter - 2)));
    loop n false (iter - 2)
  else if equal tok (chars "/*") then
    _ ← memmove 0 iter (filled b - iter); _ ← context_filled_add (- iter); _ ← set_in_comment true; loop n false 0
  else p ← gets ps; _ ← on_ps (handler tok); loop n (negb (is_punctuation tok) && stored p) iter.
Lemma token_loop_S n null r pre cur : holds (buf r) (pre ++ cur) -> error (context (ps r)) = false -> in_comment r = false ->
  let none p := Ret (true, zlen pre + (zlen cur - zlen (skip_spaces cur)), with_ps p r) in
  loop (S n) null (zlen pre) r =
  match scan cur with
  | End => none (ps r)
  | Err msg _ => none (errs msg (ps r))
  | Got tok s' =>
      if ok (asked (context (ps r))) then take_token n tok s' (zlen pre + (zlen cur - zlen s')) (with_ps (asks (ps r)) r)
      else none (errs "malloc failed" (asks (ps r)))
  end.
Proof.
  intros Hb E1 E2 none. cbn [token_loop]. rewrite (bind_at (on_ps is_error) _ r false r); [|unfold on_ps; cbn; rewrite E1; by destruct r].
  rewrite (bind_at (gets in_comment) _ r false r) by (unfold gets; by rewrite E2). cbn [orb].
  rewrite (bind_at (string_at _) _ r cur r) by (by eapply string_at_holds). rewrite gettoken_scan. unfold token_of.
  destruct (scan cur) as [|msg r'|tok s']; [by destruct r|by destruct r|].
  destruct (ok (asked (context (ps r)))) eqn:Eo.
  - by rewrite (bind_at (on_ps _) _ r (Some tok, s') (with_ps (asks (ps r)) r)) by (unfold on_ps; by rewrite copied_at, Eo).
  - by rewrite (bind_at (on_ps _) _ r (None, skip_spaces cur) (with_ps (errs "malloc failed" (asks (ps r))) r)) by (unfold on_ps; by rewrite copied_at, Eo).
Qed.

Lemma reading_scan L s s' p : scan s = scan s' -> reading L s p = reading L s' p.
Proof.
  intros E. pose proof (scan_parts s) as H. pose proof (scan_parts s') as H'. unfold reading. rewrite !read_text_S, E in *. destruct (error _); [done|].
  destruct (scan s') as [|m r|t r]; [done|done|]. destruct H as (y & c & -> & _), H' as (y' & c' & -> & _). apply read_token_ext. intros p'.
  pose proof (continue_length t r). apply read_text_fuel; llia.
Qed.
Lemma loop_stop n null iter r : error (context (ps r)) || in_comment r = true -> loop (S n) null iter r = Ret (null, iter, r).
Proof.
  intros E. cbn [token_loop]. rewrite (bind_at (on_ps is_error) _ r (error (context (ps r))) r) by (by destruct r).
  rewrite (bind_at (gets in_comment) _ r (in_comment r) r) by done. by rewrite E.
Qed.

Definition sim (L : Z) (T s0 : list Z) (r : run_state A) (len : nat) (x : cres (bool * Z * run_state A)) : Prop :=
  match x with
  | Ret (null, iter, r') => exists pre cur, loop_post L T s0 r len null iter r' pre cur
  | Undef => reading L s0 (ps r) = Undef
  | OutOfFuel => reading L s0 (ps r) = OutOfFuel
  end.
Lemma sim_mono L T s0 s1 r r1 len len' x : same_input r r1 -> (len <= len')%nat ->
  reading L s0 (ps r) = reading L s1 (ps r1) -> sim L T s1 r1 len x -> sim L T s0 r len' x.
Proof.
  intros H1 H2 H3. unfold sim. destruct x as [[[null iter] r']| |]; [|congruence|congruence]. intros (pre & cur & H). exists pre, cur. by eapply loop_post_mono.
Qed.
Lemma same_asks p r : same_input r (with_ps p r).
Proof. done. Qed.
(** An error ends the loop. *)
Lemma sim_error L T s0 r pre cur len null iter r' : holds (buf r') (pre ++ cur) -> same_input r r' -> iter = zlen pre -> line (context (ps r')) = L - nl T ->
  (length cur <= len)%nat -> error (context (ps r')) = true -> reading L s0 (ps r) = Ret (tt, ps r') -> sim L T s0 r len (Ret (null, iter, r')).
Proof. intros ? ? ? ? ? E ?. exists pre, cur. split; try done. by rewrite E. Qed.

Section tokens.
Context (L : Z) (T : list Z) (n : nat).
Definition simulates : Prop := forall null r pre left ln, (length (left ++ ln) < n)%nat -> holds (buf r) (pre ++ left ++ ln) -> complete left -> scan left = End ->
  ln = [] \/ is_line ln -> in_comment r = false -> line (context (ps r)) = L - nl T ->
  sim L T (left ++ ln ++ T) r (length (left ++ ln)) (loop n null (zlen pre) r).
Context (IH : simulates).

(** [r] has the token and [s'] behind it in its buffer. *)
Lemma line_comment tok s' r pre y c : (length s' < n)%nat -> equal tok (chars "//") = true -> holds (buf r) (pre ++ y ++ c :: s') -> (length tok <= S (length y))%nat ->
  is_line s' -> in_comment r = false -> line (context (ps r)) = L - nl T ->
  sim L T T r 0 (take_token n tok s' (zlen pre + (zlen (y ++ c :: s') - zlen s')) r).
Proof.
  intros Hn Et Hb Hl Hs Hc HL. unfold take_token. rewrite (bind_at (gets buf) _ r (buf r) r) by done. rewrite Et. rewrite (strchr_line s') by done.
  rewrite (bind_at (lift _) _ r [10] r) by done. cbv zeta.
  assert (tok = chars "//") as -> by (by apply bool_decide_eq_true in Et). cbn in Hl.
  assert (Ey : y = take (length y - 1) y ++ drop (length y - 1) y) by (by rewrite take_drop).
  destruct (cut_holds (loop n false (zlen pre + (zlen (y ++ c :: s') - zlen s') - 2)) r (pre ++ take (length y - 1) y) (drop (length y - 1) y ++ c :: s') []
    (zlen pre + (zlen (y ++ c :: s') - zlen s') - 2) (zlen pre + (zlen (y ++ c :: s') - zlen s') + (zlen s' - zlen [10]) + 1)
    (filled (buf r) - (zlen pre + (zlen (y ++ c :: s') - zlen s') + (zlen s' - zlen [10]) + 1))
    (- (zlen pre + (zlen (y ++ c :: s') - zlen s') + (zlen s' - zlen [10]) + 1 - (zlen pre + (zlen (y ++ c :: s') - zlen s') - 2)))) as (b & Hb' & Es & ->).
  - rewrite app_nil_r, <- app_assoc, (app_assoc (take _ y)), <- Ey. done.
  - rewrite !length_app, length_take. cbn [length]. lia.
  - rewrite !length_app, length_take, length_drop. cbn [length]. lia.
  - destruct Hb as [_ [junk ->]]. cbn [filled cells]. rewrite !length_app. cbn [length]. lia.
  - rewrite !length_app, length_drop. cbn [length]. lia.
  - replace (zlen pre + (zlen (y ++ c :: s') - zlen s') - 2) with (zlen (pre ++ take (length y - 1) y)) by (rewrite !length_app, length_take; cbn [length]; lia).
    assert (same_input r (with_buf b r)) as Hsi by (split_and!; auto).
    eapply (sim_mono L T T T r (with_buf b r) 0); [done|done|done|]. apply (IH false (with_buf b r) (pre ++ take (length y - 1) y) [] []); try done.
    + cbn. lia.
    + by left.
Qed.
Lemma block_comment tok s' r pre y c : (length s' < n)%nat -> equal tok (chars "//") = false -> equal tok (chars "/*") = true -> holds (buf r) (pre ++ y ++ c :: s') ->
  is_line s' -> error (context (ps r)) = false -> line (context (ps r)) = L - nl T ->
  sim L T (after_comment (s' ++ T)) r (S (length s')) (take_token n tok s' (zlen pre + (zlen (y ++ c :: s') - zlen s')) r).
Proof.
  intros Hn Et' Et Hb Hs He HL. unfold take_token. rewrite (bind_at (gets buf) _ r (buf r) r) by done. rewrite Et, Et'.
  destruct (cut_holds (_ ← set_in_comment true; loop n false 0) r [] (pre ++ y ++ [c]) s' 0 (zlen pre + (zlen (y ++ c :: s') - zlen s'))
    (filled (buf r) - (zlen pre + (zlen (y ++ c :: s') - zlen s'))) (- (zlen pre + (zlen (y ++ c :: s') - zlen s')))) as (b & Hb' & Es & ->).
  - cbn. by rewrite <- !app_assoc.
  - done.
  - rewrite !length_app. cbn [length]. lia.
  - destruct Hb as [_ [junk ->]]. cbn [filled cells]. rewrite !length_app. cbn [length]. lia.
  - rewrite !length_app. cbn [length]. lia.
  - destruct n as [|n0]; [lia|]. rewrite (bind_at (set_in_comment true) _ _ tt (with_comment true (with_buf b r))) by done.
    rewrite loop_stop by (cbn; by rewrite orb_true_r). exists [], s'. split; try done; [lia|]. cbn. rewrite He. split_and!; try done. lia.
Qed.
Lemma other_token tok s' r pre y c : (length s' < n)%nat -> is_comment tok = false -> holds (buf r) (pre ++ y ++ c :: s') ->
  is_line s' -> in_comment r = false -> line (context (ps r)) = L - nl T ->
  match handler tok (ps r) with
  | Ret (_, p) => sim L T (s' ++ T) (with_ps p r) (length s') (take_token n tok s' (zlen pre + (zlen (y ++ c :: s') - zlen s')) r)
  | Undef => take_token n tok s' (zlen pre + (zlen (y ++ c :: s') - zlen s')) r = Undef
  | OutOfFuel => take_token n tok s' (zlen pre + (zlen (y ++ c :: s') - zlen s')) r = OutOfFuel
  end.
Proof.
  intros Hn [Et1 Et2]%orb_false_iff Hb Hs Hc HL. unfold take_token. rewrite (bind_at (gets buf) _ r (buf r) r) by done. rewrite Et1, Et2.
  rewrite (bind_at (gets ps) _ r (ps r) r) by done. unfold mbind at 1 2 3, prog_bind, on_ps. destruct (handler tok (ps r)) as [[[] p]| |] eqn:E; [|done|done]. cbn [mbind cres_bind].
  replace (zlen pre + (zlen (y ++ c :: s') - zlen s')) with (zlen (pre ++ y ++ [c])) by (rewrite !length_app; cbn [length]; lia).
  apply (IH _ (with_ps p r) (pre ++ y ++ [c]) [] s'); try done; [|by right|].
  - cbn. by rewrite <- !app_assoc.
  - cbn. by rewrite (keeps_token tok _ _ _ E).
Qed.
End tokens.

Lemma token_loop_sim n L T : simulates L T n.
Proof.
  induction n as [|n IH]; [intros null r pre left ln; lia|]. intros null r pre left ln Hn Hb Hl Hs Hln Hc HL.
  destruct (error (context (ps r))) eqn:He.
  { rewrite loop_stop by (by rewrite He). apply (sim_error _ _ _ _ pre (left ++ ln)); try done. by apply reading_error. }
  rewrite (token_loop_S n null r pre (left ++ ln)) by done. rewrite (app_assoc left ln T). set (cur := left ++ ln) in *.
  assert (complete cur /\ rest_line (scan cur)) as [Hcur Hrest].
  { destruct Hln as [->|Hln]; [|split; [apply complete_app; [apply Hln|done]|by apply scan_rest]]. unfold cur. rewrite app_nil_r, Hs. done. }
  destruct (skip_spaces_split cur) as [x Ex].
  assert (Hskip : holds (buf r) ((pre ++ x) ++ skip_spaces cur)) by (rewrite <- app_assoc, <- Ex; done).
  assert (Hit : zlen pre + (zlen cur - zlen (skip_spaces cur)) = zlen (pre ++ x)) by (rewrite Ex at 1; llia).
  assert (Hle : (length (skip_spaces cur) <= length cur)%nat) by (rewrite Ex at 2; llia).
  destruct (scan cur) as [|msg s'|tok s'] eqn:Esc; cbn [rest_line] in Hrest.
  - exists (pre ++ x), (skip_spaces cur). split; try done. cbn. rewrite He, Hc. split_and!; [done| | |].
    + rewrite Ex in Hcur. by apply complete_suffix in Hcur.
    + rewrite <- (app_nil_r (skip_spaces cur)), scan_skip. by rewrite app_nil_r.
    + apply reading_scan. symmetry. apply scan_skip.
  - apply (sim_error _ _ _ _ (pre ++ x) (skip_spaces cur)); try done. rewrite (reading_Err _ _ _ msg (s' ++ T)); [done|done| |].
    + rewrite scan_more, Esc; [done|done|congruence].
    + rewrite nl_app, HL. destruct Hrest. lia.
  - assert (Et : scan (cur ++ T) = Got tok (s' ++ T)) by (rewrite scan_more, Esc; [done|done|congruence]).
    assert (El : line (context (ps r)) = L + 1 - nl (s' ++ T)) by (rewrite nl_app, HL; destruct Hrest; lia).
    pose proof (reading_Got L (cur ++ T) (ps r) tok (s' ++ T) He Et El) as HR.
    destruct (ok (asked (context (ps r)))); [|by apply (sim_error _ _ _ _ (pre ++ x) (skip_spaces cur))].
    pose proof (scan_parts cur) as Hp. rewrite Esc in Hp. destruct Hp as (y & c & Ec & _ & Hlen).
    assert (Hlt : (length s' < length cur)%nat) by (rewrite Ec; llia). rewrite Ec in Hb. unfold is_comment, continue_at in HR.
    assert (Ez : zlen cur = zlen (y ++ c :: s')) by (by rewrite Ec). rewrite Ez.
    destruct (equal tok (chars "//")) eqn:E1; [|destruct (equal tok (chars "/*")) eqn:E2]; cbn [orb] in HR.
    + eapply (sim_mono _ _ _ T _ (with_ps (asks (ps r)) r) 0); [by apply same_asks|lia| |apply line_comment; [exact IH|lia|exact E1|exact Hb|exact Hlen|exact Hrest|exact Hc|exact HL]].
      rewrite HR. rewrite after_line_more by exact Hrest. reflexivity.
    + eapply (sim_mono _ _ _ (after_comment (s' ++ T)) _ (with_ps (asks (ps r)) r) (S (length s'))); [by apply same_asks|lia|exact HR|]. apply block_comment; [lia|exact E1|exact E2|exact Hb|exact Hrest|exact He|exact HL].
    + pose proof (other_token L T n IH tok s' (with_ps (asks (ps r)) r) pre y c) as Ho. unfold is_comment in Ho. rewrite E1, E2 in Ho. cbn [orb] in Ho.
      specialize (Ho ltac:(lia) eq_refl Hb Hrest Hc HL). unfold mbind, prog_bind in HR. cbn [ps with_ps] in Ho.
      destruct (handler tok (asks (ps r))) as [[[] p]| |]; cbn in HR; [|by rewrite Ho|by rewrite Ho].
      eapply (sim_mono _ _ _ (s' ++ T) _ (with_ps p r) (length s')); [by apply same_asks|lia|exact HR|exact Ho].
Qed.

(** ** One iteration *)
Lemma cells_inj t t' j j' : cells t j = cells t' j' -> t = t'.
Proof.
  unfold cells. intros [= _ El E]. assert (length t = length t') as Hl by lia. apply (f_equal (take (length t))) in E.
  rewrite take_app_length' in E by (by rewrite length_map). rewrite Hl, take_app_length' in E by (by rewrite length_map). by apply (inj (map Some)) in E.
Qed.
Lemma holds_inj b t t' : holds b t -> holds b t' -> t = t'.
Proof. intros [_ [j ->]] [_ [j' E]]. by apply cells_inj in E. Qed.
(** The text that the parser still has to read, when [T] follows the buffer. *)
Definition ahead (r : run_state A) (cur T : list Z) : list Z := if in_comment r then after_comment (cur ++ T) else cur ++ T.
Definition line_of (r : run_state A) : Z := line (context (ps r)).
(** [r] and [r'] are followed by [X ++ T] and [T]. *)
Definition reads (r : run_state A) (cur X : list Z) (r' : run_state A) (cur' : list Z) : Prop := forall T,
  line_of r + nl X = line_of r' /\
  reading (line_of r' + nl T) (ahead r cur (X ++ T)) (ps r) = reading (line_of r' + nl T) (ahead r' cur' T) (ps r').
(** The loop over the tokens, and what it leaves in the buffer. *)
Definition tokens : run next :=
  b ← gets buf;
  '(null, iter) ← loop (S (S (Z.to_nat (filled b)))) true 0;
  b ← gets buf;
  _ ← memmove 0 iter (filled b - iter);
  _ ← context_filled_add (- iter);
  _ ← when null (set_need_more_data true);
  mret Continue.
Record kept (r r' : run_state A) : Prop := {
  k_fd : fd r' = fd r; k_grown : grown r' = grown r; k_space : need_more_space r' = need_more_space r; k_size : size (buf r') = size (buf r) }.
Record after_tokens (r : run_state A) (len : nat) (r' : run_state A) (cur : list Z) : Prop := {
  at_kept : kept r r';
  at_buf : holds (buf r') cur;
  at_len : (length cur <= len)%nat;
  at_mode : error (context (ps r')) = false ->
    if in_comment r' then need_more_data r' = need_more_data r /\ is_line cur /\ (length cur < len)%nat
    else need_more_data r' = true /\ complete cur /\ scan cur = End }.
Lemma tokens_sim r left ln : holds (buf r) (left ++ ln) -> complete left -> scan left = End -> ln = [] \/ is_line ln -> in_comment r = false ->
  match tokens r with
  | Ret (x, r') => x = Continue /\ exists cur, after_tokens r (length (left ++ ln)) r' cur /\ reads r (left ++ ln) [] r' cur
  | Undef => forall T, reading (line_of r + nl T) (left ++ ln ++ T) (ps r) = Undef
  | OutOfFuel => forall T, reading (line_of r + nl T) (left ++ ln ++ T) (ps r) = OutOfFuel
  end.
Proof.
  intros Hb H1 H2 H3 H4. unfold tokens. rewrite (bind_at (gets buf) _ r (buf r) r) by done.
  assert (Hf : Z.to_nat (filled (buf r)) = length (left ++ ln)) by (destruct Hb as [_ [j ->]]; cbn [filled cells]; lia). rewrite Hf.
  assert (Hsim : forall T, sim (line_of r + nl T) T (left ++ ln ++ T) r (length (left ++ ln)) (loop (S (S (length (left ++ ln)))) true 0 r)).
  { intros T. apply (token_loop_sim _ _ T true r [] left ln); try done; [lia|]. unfold line_of. lia. }
  unfold mbind at 1, prog_bind at 1. destruct (loop _ true 0 r) as [[[null iter] r1]| |]; [|exact Hsim|exact Hsim].
  cbn [mbind cres_bind]. destruct (Hsim []) as (pre & cur & P). pose proof (lp_buf _ _ _ _ _ _ _ _ _ _ P) as Hb1. pose proof (lp_iter _ _ _ _ _ _ _ _ _ _ P) as ->.
  rewrite (bind_at (gets buf) _ r1 (buf r1) r1) by done.
  destruct (cut_holds (_ ← when null (set_need_more_data true); mret Continue) r1 [] pre cur 0 (zlen pre) (filled (buf r1) - zlen pre) (- zlen pre)) as (b & Hb' & Es & ->);
    [done|done|done| |done|].
  { destruct Hb1 as [_ [j ->]]. cbn [filled cells]. llia. }
  assert (Hpc : forall T pre' cur', loop_post (line_of r + nl T) T (left ++ ln ++ T) r (length (left ++ ln)) null (zlen pre) r1 pre' cur' -> pre' = pre /\ cur' = cur).
  { intros T pre' cur' Q. pose proof (holds_inj _ _ _ Hb1 (lp_buf _ _ _ _ _ _ _ _ _ _ Q)) as E. pose proof (lp_iter _ _ _ _ _ _ _ _ _ _ Q).
    symmetry in E. apply app_inj_1 in E; [done|lia]. }
  set (r' := if null then mkRun (ps r1) b (fd r1) (grown r1) (in_comment r1) (need_more_space r1) true else with_buf b r1).
  assert (Er : (_ ← when null (set_need_more_data true); mret Continue) (with_buf b r1) = Ret (Continue, r')) by (by destruct null). rewrite Er. split; [done|].
  exists cur. destruct P as [_ (S1 & S2 & S3 & S4 & S5) _ P4 P5 P6]. split.
  - split; [split|..]; unfold r'; destruct null; cbn; try congruence; try done; intros Ee; rewrite Ee in P6; destruct (in_comment r1); naive_solver.
  - intros T. destruct (Hsim T) as (pre' & cur' & Q). destruct (Hpc _ _ _ Q) as [-> ->]. destruct Q as [_ _ _ Q4 _ Q6].
    assert (line_of r' = line_of r) as El by (unfold r', line_of in *; destruct null; cbn; lia). rewrite El. cbn [nl app]. split; [lia|].
    assert (Ep : ps r' = ps r1) by (unfold r'; by destruct null). assert (Ec : in_comment r' = in_comment r1) by (unfold r'; by destruct null).
    unfold ahead. rewrite H4, Ec, Ep, <- app_assoc. destruct (error (context (ps r1))) eqn:Ee; [rewrite Q6; destruct (in_comment r1); by rewrite reading_error|].
    destruct (in_comment r1); [by destruct Q6 as (_ & _ & _ & _ & ->)|by destruct Q6 as (_ & _ & _ & ->)].
Qed.

(** The buffer between two reads: what follows the text may be no string. *)
Definition holds_open (b : buffer) (t : list Z) : Prop := text_chars t /\ exists junk, junk <> [] /\ b = cells t junk.
Lemma holds_opens b t : holds b t -> holds_open b t.
Proof. intros [H [j ->]]. split; [done|]. by exists (Some 0 :: j). Qed.
Definition next_line (p : parsing A) : parsing A :=
  mkParsing (mkContext (own (context p)) (asked (context p)) (line (context p) + 1) (error (context p)) (log (context p)))
    (section p) (section_token p) (key_token p) (value_token p).
Lemma store_line (t : list Z) (l : list Z) junk : zlen l < zlen junk -> exists junk', length junk = (length l + S (length junk'))%nat /\
  store (map Some t ++ junk) (zlen t) (map Some l ++ [Some 0]) = Some (map Some t ++ map Some l ++ Some 0 :: junk').
Proof.
  intros H. exists (drop (S (length l)) junk). split; [rewrite length_drop; lia|]. rewrite <- (take_drop (S (length l)) junk) at 1.
  rewrite store_split; [by rewrite <- app_assoc|by rewrite length_map|]. rewrite length_app, length_map, length_take. cbn [length]. lia.
Qed.
Lemma more_data_some r t l f : holds_open (buf r) t -> fgets (size (buf r) - filled (buf r)) (fd r) = (Some l, f) -> zlen l <= size (buf r) - filled (buf r) - 1 ->
  exists b, holds b (t ++ seen l) /\ size b = size (buf r) /\
  more_data r = if (0 <? zlen (seen l)) && (List.last (seen l) 0 =? 10)
    then Ret (Go, mkRun (next_line (ps r)) b f (grown r) (in_comment r) (need_more_space r) false)
    else Ret (Continue, mkRun (ps r) b f (grown r) (in_comment r) true (need_more_data r)).
Proof.
  intros [Ht (junk & Hj & Eb)] Ef Hl. destruct r as [p b0 f0 g c ns nd]. cbn [buf fd ps grown in_comment need_more_space need_more_data] in *. subst b0.
  cbn [size filled cells] in *. rewrite length_app, length_map in Hl. destruct (store_line t l junk ltac:(lia)) as (junk' & Hj' & Es).
  destruct (seen_prefix l) as [x Ex].
  set (b1 := mkBuffer (zlen (map Some t ++ junk)) (zlen t) (map Some t ++ map Some l ++ Some 0 :: junk')).
  destruct (filled_set_holds (mkRun p b1 f g c ns nd) (t ++ seen l) (map Some x ++ Some 0 :: junk')) as (b & Hb & Esz & H).
  { apply Forall_app. split; [done|apply seen_text]. }
  { by destruct x. }
  { cbn. rewrite Ex at 1. by rewrite !map_app, <- !app_assoc. }
  { cbn [buf size data b1]. rewrite !length_app, !length_map. cbn [length]. lia. }
  exists b. split; [done|]. split; [done|]. unfold more_data. erewrite bind_at by reflexivity. cbn [buf size filled cells]. erewrite bind_at by reflexivity.
  cbn [fd]. rewrite Ef. erewrite bind_at by reflexivity. erewrite (bind_at (store_cells _ _)).
  2:{ unfold store_cells. erewrite bind_at by reflexivity. cbn [buf data cells]. rewrite Es. reflexivity. }
  rewrite (bind_at (string_at _) _ _ (seen l) (mkRun p b1 f g c ns nd)).
  2:{ unfold string_at. erewrite bind_at by reflexivity. cbn [buf data b1]. rewrite drop_app_length' by (rewrite length_map; lia). by rewrite cstring_seen. }
  rewrite (bind_at (context_filled_add _) _ _ tt (with_buf b (mkRun p b1 f g c ns nd))).
  2:{ unfold context_filled_add. erewrite bind_at by reflexivity. cbn [buf filled b1]. rewrite <- H. f_equal. llia. }
  by destruct (_ && _).
Qed.
Lemma more_data_none (r : run_state A) f : fgets (size (buf r) - filled (buf r)) (fd r) = (None, f) ->
  more_data r = if ferror f then Ret (Return, mkRun (errs "file read failure" (ps r)) (buf r) f (grown r) (in_comment r) (need_more_space r) (need_more_data r))
    else Ret (Continue, mkRun (ps r) (buf r) f (grown r) (in_comment r) (need_more_space r) (need_more_data r)).
Proof.
  intros Ef. unfold more_data. rewrite (bind_at (gets buf) _ r (buf r) r), (bind_at (gets fd) _ r (fd r) r) by done. rewrite Ef.
  erewrite (bind_at (set_fd f)) by reflexivity. by destruct (ferror f).
Qed.

Lemma end_comment_found (r : run_state A) t e : holds (buf r) t -> strstr_end t = Some e -> exists b, holds b (drop 2 e) /\ size b = size (buf r) /\
  end_comment r = Ret (Go, with_comment false (with_buf b r)).
Proof.
  intros Hb He. destruct (strstr_found t e [] He) as [_ (x & -> & Hl)]. destruct e as [|c1 [|c2 e]]; [cbn in Hl; lia|cbn in Hl; lia|]. cbn [drop].
  unfold end_comment. rewrite (bind_at (string_at 0) _ r (x ++ c1 :: c2 :: e) r) by (by eapply (string_at_holds r [])).
  rewrite (bind_at (gets buf) _ r (buf r) r) by done. rewrite He.
  destruct (cut_holds (_ ← set_in_comment false; mret Go) r [] (x ++ [c1; c2]) e 0 (zlen (x ++ c1 :: c2 :: e) - zlen (c1 :: c2 :: e) + 2)
    (filled (buf r) - (zlen (x ++ c1 :: c2 :: e) - zlen (c1 :: c2 :: e) + 2)) (- (zlen (x ++ c1 :: c2 :: e) - zlen (c1 :: c2 :: e) + 2))) as (b & Hb' & Es & E).
  - cbn. by rewrite <- app_assoc.
  - done.
  - llia.
  - destruct Hb as [_ [j ->]]. cbn [filled cells]. llia.
  - llia.
  - exists b. split; [done|]. split; [done|]. exact E.
Qed.
Lemma end_comment_none (r : run_state A) t : holds (buf r) t -> strstr_end t = None -> exists b, holds b [] /\ size b = size (buf r) /\
  end_comment r = Ret (Continue, mkRun (ps r) b (fd r) (grown r) (in_comment r) (need_more_space r) true).
Proof.
  intros Hb He. destruct (filled_set_holds r [] (data (buf r))) as (b & Hb' & Es & E).
  { constructor. }
  { destruct Hb as [_ [j ->]]. cbn [data cells]. by destruct t. }
  { done. }
  { by destruct Hb as [_ [j ->]]. }
  exists b. split; [done|]. split; [done|].
  unfold end_comment. rewrite (bind_at (string_at 0) _ r t r) by (by eapply (string_at_holds r [])).
  rewrite (bind_at (gets buf) _ r (buf r) r) by done. rewrite He. by rewrite (bind_at (context_filled_set 0) _ r tt (with_buf b r)).
Qed.
(** The tokens of a line, or the end of a comment in it. *)
Definition comment_tokens : run next :=
  r ← gets id;
  x ← (if in_comment r then end_comment else mret Go);
  match x with Return | Continue => mret x | Go => tokens end.
Record settled (r : run_state A) (r' : run_state A) (cur : list Z) : Prop := {
  s_kept : kept r r';
  s_buf : holds (buf r') cur;
  s_mode : error (context (ps r')) = false ->
    if need_more_data r' then if in_comment r' then cur = [] else complete cur /\ scan cur = End
    else in_comment r' = true /\ is_line cur }.
Lemma comment_sim r left ln : holds (buf r) (left ++ ln) -> need_more_data r = false -> is_line ln ->
  (if in_comment r then left = [] else complete left /\ scan left = End) ->
  match comment_tokens r with
  | Ret (x, r') => x = Continue /\ exists cur, settled r r' cur /\ reads r (left ++ ln) [] r' cur /\ (length cur <= length (left ++ ln))%nat /\
      (in_comment r = true -> (length cur < length (left ++ ln))%nat)
  | Undef => forall T, reading (line_of r + nl T) (ahead r (left ++ ln) T) (ps r) = Undef
  | OutOfFuel => forall T, reading (line_of r + nl T) (ahead r (left ++ ln) T) (ps r) = OutOfFuel
  end.
Proof.
  intros Hb Hd Hl Hm. unfold comment_tokens. rewrite (bind_at (gets id) _ r r r) by done. destruct (in_comment r) eqn:Ec.
  2:{ rewrite (bind_at (mret Go) _ r Go r) by done. destruct Hm as [H1 H2]. pose proof (tokens_sim r left ln Hb H1 H2 (or_intror Hl) Ec) as H.
      unfold ahead. rewrite Ec. destruct (tokens r) as [[x r']| |]; [|by setoid_rewrite <- app_assoc|by setoid_rewrite <- app_assoc].
      destruct H as [-> (cur & [K B E M] & R)]. split; [done|]. exists cur. split_and!; [|done|done|done]. split; [done|done|]. intros Ee. specialize (M Ee).
      destruct (in_comment r'); destruct M as (M1 & M2 & M3); rewrite M1; [by rewrite Hd|done]. }
  subst left. cbn [app] in *. destruct (strstr_end ln) as [e|] eqn:Ee.
  - destruct (end_comment_found r ln e Hb Ee) as (b & Hb' & Es & E). rewrite (bind_at end_comment _ r _ _ E).
    set (r1 := with_comment false (with_buf b r)) in *. destruct (strstr_found ln e [] Ee) as [_ (x & Ex & Hle)].
    assert (Hl1 : drop 2 e = [] \/ is_line (drop 2 e)).
    { destruct (drop 2 e) eqn:Ed; [by left|right]. apply (line_suffix (x ++ take 2 e)); [|done]. by rewrite <- app_assoc, <- Ed, take_drop, <- Ex. }
    pose proof (tokens_sim r1 [] (drop 2 e) Hb' eq_refl eq_refl Hl1 eq_refl) as H. cbn [app] in H.
    assert (Ha : forall T, ahead r ln T = drop 2 e ++ T) by (intros T; unfold ahead; rewrite Ec; by apply after_comment_found).
    destruct (tokens r1) as [[y r']| |]; [|by setoid_rewrite Ha|by setoid_rewrite Ha]. destruct H as [-> (cur & [[K1 K2 K3 K4] B E1 M] & R)]. split; [done|]. exists cur.
    assert (length cur < length ln)%nat by (rewrite Ex; rewrite length_drop in E1; llia). split_and!; [|intros T; rewrite Ha; apply R|lia|done].
    split; [split; [done|done|done|cbn in K4; congruence]|done|]. intros He. specialize (M He).
    destruct (in_comment r'); destruct M as (M1 & M2 & M3); rewrite M1; [cbn; by rewrite Hd|done].
  - destruct (end_comment_none r ln Hb Ee) as (b & Hb' & Es & E). rewrite (bind_at end_comment _ r _ _ E). split; [done|]. exists []. split_and!.
    + split; [by split|done|]. intros _. cbn. by rewrite Ec.
    + intros T. unfold line_of, ahead. cbn. rewrite Ec. split; [lia|]. by rewrite after_comment_none by (done || apply Hl).
    + cbn. lia.
    + intros _. destruct ln; [by destruct Hl|cbn; lia].
Qed.

(** ** The loop *)
Definition measure (r : run_state A) : nat :=
  (4 * length (rest (fd r)) + 2 * Z.to_nat (filled (buf r)) + (if need_more_space r then 0 else 1) + (if feof (fd r) then 0 else 2))%nat.
(** Nothing goes wrong with the file or with the memory for the buffer. *)
Definition works (r : run_state A) : Prop := (forall n, realloc_ok n = true) /\ broken (fd r) = false.
(** The text [X ++ T] comes out of the text [s]: characters are lost only where there is a 0. *)
Definition comes_from (X T s : list Z) : Prop := (X ++ T) `sublist_of` s.
(** The start of an iteration: [cur] was looked at, and [part] is the start of the next line. *)
Record head (r : run_state A) (cur part : list Z) : Prop := {
  h_buf : holds_open (buf r) (cur ++ part);
  h_file : ferror (fd r) = false;
  h_feof : feof (fd r) = true -> rest (fd r) = [] /\ need_more_data r = true;
  h_part : nl part = 0;
  h_mode : if need_more_data r then if in_comment r then cur = [] else complete cur /\ scan cur = End
    else in_comment r = true /\ is_line cur /\ part = [] /\ need_more_space r = false /\ holds (buf r) cur }.
(** An iteration that continues, [slack] below [m]. *)
Definition goes_on (r : run_state A) (cur part : list Z) (m : nat) (r' : run_state A) : Prop := exists cur' part' X,
  (measure r' < m)%nat /\ (error (context (ps r')) = false -> head r' cur' part') /\ reads r cur X r' cur' /\
  (broken (fd r) = false -> broken (fd r') = false) /\ comes_from X (part' ++ rest (fd r')) (part ++ rest (fd r)) /\
  (0 ∉ rest (fd r) -> (0 ∉ rest (fd r')) /\ full_lines (part ++ rest (fd r)) = X ++ full_lines (part' ++ rest (fd r'))).
Definition stuck (r : run_state A) (cur part : list Z) (x : cres (unit * parsing A)) : Prop := exists X Y,
  (forall T, reading (line_of r + nl (X ++ T)) (ahead r cur (X ++ T)) (ps r) = x) /\
  comes_from X Y (part ++ rest (fd r)) /\ (0 ∉ rest (fd r) -> full_lines (part ++ rest (fd r)) = X ++ Y).
Definition outcome (r : run_state A) (cur part : list Z) (m : nat) (x : cres (next * run_state A)) : Prop :=
  match x with
  | Ret (Return, r') => (exists msg, ps r' = errs msg (ps r)) /\ ~ works r /\ need_more_data r = true
  | Ret (_, r') => goes_on r cur part m r'
  | Undef => stuck r cur part Undef
  | OutOfFuel => stuck r cur part OutOfFuel
  end.

Lemma settled_head r r' cur : settled r r' cur -> ferror (fd r) = false -> need_more_space r = false ->
  feof (fd r) = false -> error (context (ps r')) = false -> head r' cur [].
Proof.
  intros [[K1 K2 K3 K4] B M] Hf Hs He E. specialize (M E). split.
  - rewrite app_nil_r. by apply holds_opens.
  - by rewrite K1.
  - rewrite K1. congruence.
  - done.
  - destruct (need_more_data r'); [done|]. destruct M. split_and!; [done|done|done|congruence|done].
Qed.
Definition data_tokens : run next :=
  r ← gets id;
  x ← (if need_more_data r then more_data else mret Go);
  match x with Return | Continue => mret x | Go => comment_tokens end.

(** A comment goes on in the line that is in the buffer. *)
Lemma comment_goes_on r cur : head r cur [] -> need_more_data r = false -> outcome r cur [] (measure r) (comment_tokens r).
Proof.
  intros [H1 H2 H3 _ H5] Hd. rewrite Hd in *. destruct H5 as (Hc & Hl & _ & Hs & Hb).
  pose proof (comment_sim r [] cur Hb Hd Hl ltac:(by rewrite Hc)) as H. cbn [app] in H. destruct (comment_tokens r) as [[x r']| |].
  - destruct H as [-> (cur' & Hset & HR & _ & Hlt)]. specialize (Hlt Hc). exists cur', [], []. destruct (s_kept _ _ _ Hset) as [K1 K2 K3 K4]. split_and!.
    + unfold measure. rewrite K1, K3. destruct (s_buf _ _ _ Hset) as [_ [j ->]], Hb as [_ [j' ->]]. cbn [filled cells]. lia.
    + intros E. eapply settled_head; try done. destruct (feof (fd r)); [by destruct (H3 eq_refl)|done].
    + done.
    + by rewrite K1.
    + by rewrite K1.
    + rewrite K1. done.
  - exists [], (full_lines (rest (fd r))). split_and!; [done|apply full_lines_sublist|done].
  - exists [], (full_lines (rest (fd r))). split_and!; [done|apply full_lines_sublist|done].
Qed.
Lemma clean_seen (l f f' : list Z) : 0 ∉ f -> f = l ++ f' -> seen l = l /\ 0 ∉ f'.
Proof. intros C ->. apply not_elem_of_app in C as [C1 C2]. split; [by apply seen_all|done]. Qed.
Lemma seen_sublist l : seen l `sublist_of` l.
Proof. destruct (seen_prefix l) as [x Ex]. rewrite Ex at 2. by apply sublist_inserts_r. Qed.
Lemma seen_piece l : piece l -> piece (seen l) /\ (List.last (seen l) 0 = 10 -> nl l = 1).
Proof.
  intros H. destruct (seen_prefix l) as [x Ex]. destruct x as [|c x].
  - rewrite app_nil_r in Ex. rewrite <- Ex. split; [done|]. intros Hl. by apply piece_line.
  - rewrite Ex in H. apply piece_prefix in H; [|done]. split; [by left|]. intros Hl. destruct (piece_line (seen l) (or_introl H) Hl). lia.
Qed.
Lemma holds_filled b t : holds b t -> Z.to_nat (filled b) = length t.
Proof. intros [_ [j ->]]. cbn [filled cells]. lia. Qed.
Lemma open_filled b t : holds_open b t -> filled b = zlen t /\ zlen t < size b.
Proof. intros [_ (j & Hj & ->)]. cbn [filled size cells]. rewrite length_app, length_map. destruct j; [done|]. cbn [length]. lia. Qed.
Lemma seen_length l : (length (seen l) <= length l)%nat.
Proof. destruct (seen_prefix l) as [x Ex]. rewrite Ex at 2. llia. Qed.

(** A part of a line was read. *)
Lemma part_goes_on r cur part l b f : head r cur part -> need_more_data r = true -> need_more_space r = false -> feof (fd r) = false ->
  holds b ((cur ++ part) ++ seen l) -> rest (fd r) = l ++ rest f -> piece l -> broken f = broken (fd r) -> ferror f = false ->
  (feof f = true -> rest f = []) -> nl (seen l) = 0 ->
  goes_on r cur part (match l with [] => measure r | _ => measure r - 1 end) (mkRun (ps r) b f (grown r) (in_comment r) true (need_more_data r)).
Proof.
  intros [H1 H2 H3 H4 H5] Hd Hs Hf Hb F1 F3 F4 F5 F6 Hn. exists cur, (part ++ seen l), []. split_and!.
  - unfold measure. cbn [fd buf need_more_space]. rewrite Hs, Hf, F1, (holds_filled _ _ Hb). destruct (open_filled _ _ H1) as [-> _]. rewrite Nat2Z.id.
    pose proof (seen_length l). destruct l as [|c l]; rewrite !length_app; cbn [length seen] in *; destruct (feof f); lia.
  - intros _. split; cbn [buf fd need_more_data in_comment].
    + rewrite app_assoc. by apply holds_opens.
    + done.
    + intros E. split; [by apply F6|done].
    + rewrite nl_app. lia.
    + by rewrite Hd in *.
  - intros T. unfold line_of. cbn. split; [lia|done].
  - cbn [fd]. congruence.
  - unfold comes_from. cbn [fd app]. rewrite F1, <- app_assoc. apply sublist_app; [done|]. apply sublist_app; [apply seen_sublist|done].
  - intros Hc. destruct (clean_seen _ _ _ Hc F1) as [El Hc']. split; [done|].
    cbn [fd app]. by rewrite El, F1, <- app_assoc.
Qed.
(** The reader sets the line itself. *)
Lemma reading_next_line L s p : error (context p) = false -> reading L s (next_line p) = reading L s p.
Proof.
  intros E. unfold reading. rewrite !read_text_S, E. change (error (context (next_line p))) with (error (context p)). rewrite E.
  by destruct (scan s) as [|msg r|tok r].
Qed.
Lemma part_line part s : nl part = 0 -> is_line s -> is_line (part ++ s).
Proof.
  intros Hp [H1 H2]. split; [rewrite nl_app; lia|]. induction part as [|c part IH]; [done|]. cbn [nl] in Hp. pose proof (nl_nonneg part).
  assert (complete (part ++ s)) as Hc by (apply IH; destruct (c =? 10); lia). cbn. unfold complete in *. destruct (part ++ s) eqn:E; [|done].
  destruct part; [|done]. cbn in E. by subst s.
Qed.
(** A line was completed. *)
Lemma line_goes_on r cur part l b f : head r cur part -> need_more_data r = true -> need_more_space r = false -> error (context (ps r)) = false -> feof (fd r) = false ->
  holds b ((cur ++ part) ++ seen l) -> rest (fd r) = l ++ rest f -> piece l -> broken f = broken (fd r) -> ferror f = false ->
  (feof f = true -> nl l = 0) -> List.last (seen l) 0 = 10 ->
  outcome r cur part (measure r - 1) (comment_tokens (mkRun (next_line (ps r)) b f (grown r) (in_comment r) (need_more_space r) false)).
Proof.
  intros [H1 H2 H3 H4 H5] Hd Hs He Hf Hb F1 F3 F4 F5 F6 Hl. rewrite Hd in H5.
  set (r1 := mkRun _ _ _ _ _ _ _). destruct (seen_piece l F3) as [P1 P2]. specialize (P2 Hl).
  assert (Hln : is_line (part ++ seen l)) by (apply part_line; [done|by apply piece_line]).
  assert (Hfe : feof f = false) by (destruct (feof f); [specialize (F6 eq_refl); lia|done]).
  rewrite <- app_assoc in Hb. pose proof (comment_sim r1 cur (part ++ seen l) Hb eq_refl Hln H5) as H.
  assert (Ha : forall T, ahead r cur ((part ++ seen l) ++ T) = ahead r1 (cur ++ part ++ seen l) T) by (intros T; unfold ahead; cbn; by rewrite <- !app_assoc).
  assert (Hn1 : nl (part ++ seen l) = 1) by apply Hln.
  assert (Hcl : 0 ∉ rest (fd r) -> full_lines (part ++ rest (fd r)) = (part ++ seen l) ++ full_lines (rest f)).
  { intros Hc. destruct (clean_seen _ _ _ Hc F1) as [El _]. rewrite El in *. rewrite F1, app_assoc. apply full_lines_line, Hln. }
  assert (Hsub : forall t, t `sublist_of` rest f -> comes_from (part ++ seen l) t (part ++ rest (fd r))).
  { intros t Ht. unfold comes_from. rewrite F1, <- app_assoc. apply sublist_app; [done|]. apply sublist_app; [apply seen_sublist|done]. }
  assert (Hst : forall x, (forall T, reading (line_of r1 + nl T) (ahead r1 (cur ++ part ++ seen l) T) (ps r1) = x) -> stuck r cur part x).
  { intros x Hx. exists (part ++ seen l), (full_lines (rest f)). split; [|split; [apply Hsub, full_lines_sublist|done]]. intros T. specialize (Hx T). rewrite Ha, <- (reading_next_line _ _ (ps r)) by done.
    rewrite <- Hx. f_equal. rewrite nl_app, Hn1. unfold line_of. cbn. lia. }
  destruct (comment_tokens r1) as [[x r']| |]; [|by apply Hst|by apply Hst]. destruct H as [-> (cur' & Hset & HR & Hlen & _)].
  destruct (s_kept _ _ _ Hset) as [K1 K2 K3 K4]. exists cur', [], (part ++ seen l). split_and!.
  - unfold measure. rewrite K1, K3, (holds_filled _ _ (s_buf _ _ _ Hset)). cbn [fd need_more_space r1]. rewrite Hs, Hf, Hfe, F1.
    destruct (open_filled _ _ H1) as [-> _]. rewrite Nat2Z.id. pose proof (seen_length l). destruct l as [|c l]; [done|]. rewrite !length_app in *. cbn [length] in *. lia.
  - intros E. by eapply settled_head.
  - intros T. destruct (HR T) as [R1 R2]. rewrite Hn1. cbn [app nl] in R1, R2. split; [unfold line_of in *; cbn in R1; lia|].
    rewrite Ha, <- (reading_next_line _ _ (ps r)) by done. exact R2.
  - rewrite K1. cbn. congruence.
  - rewrite K1. by apply Hsub.
  - intros Hc. rewrite K1. destruct (clean_seen _ _ _ Hc F1) as [_ Hc']. split; [done|]. by apply Hcl.
Qed.
Lemma goes_on_mono r cur part m m' r' : (m <= m')%nat -> goes_on r cur part m r' -> goes_on r cur part m' r'.
Proof. intros Hm (cur' & part' & X & H1 & H2). exists cur', part', X. split; [lia|done]. Qed.
Lemma outcome_mono r cur part m m' x : (m <= m')%nat -> outcome r cur part m x -> outcome r cur part m' x.
Proof. intros Hm. destruct x as [[[] r']| |]; [by apply goes_on_mono|by apply goes_on_mono|done|done|done]. Qed.
Lemma data_goes_on r cur part : head r cur part -> need_more_data r = true -> need_more_space r = false -> error (context (ps r)) = false -> feof (fd r) = false ->
  outcome r cur part (if size (buf r) - filled (buf r) =? 1 then measure r else measure r - 1) (data_tokens r).
Proof.
  intros Hh Hd Hs He Hf. pose proof Hh as [H1 H2 H3 H4 H5]. destruct (open_filled _ _ H1) as [Ef Hroom].
  unfold data_tokens. rewrite (bind_at (gets id) _ r r r) by done. rewrite Hd. destruct (fgets (size (buf r) - filled (buf r)) (fd r)) as [[l|] f] eqn:Eg.
  - destruct (fgets_spec (size (buf r) - filled (buf r)) _ _ _ ltac:(lia) Hf H2 Eg) as (F1 & F2 & F3 & F4 & F5 & F6 & F7). destruct (more_data_some r _ l f H1 Eg F2) as (b & Hb & Esz & E).
    destruct (seen_piece l F3) as [P1 P2]. destruct ((0 <? zlen (seen l)) && (List.last (seen l) 0 =? 10)) eqn:Eq; rewrite (bind_at more_data _ r _ _ E).
    + apply andb_prop in Eq as [_ Eq%Z.eqb_eq]. eapply outcome_mono; [|apply (line_goes_on r cur part l b f); try done; intros Hfe; by apply F6]. destruct (_ =? 1); lia.
    + assert (List.last (seen l) 0 <> 10) as Hl. { intros El. rewrite El in Eq. destruct (seen l); [done|]. cbn [length] in Eq. destruct (Z.ltb_spec 0 (Z.of_nat (S (length l0)))); [done|lia]. }
      eapply goes_on_mono; [|apply (part_goes_on r cur part l b f); try done; [intros Hfe; by apply F6|by apply piece_last]].
      destruct l; [rewrite (F7 eq_refl); done|]. destruct (_ =? 1); lia.
  - pose proof (fgets_spec (size (buf r) - filled (buf r)) _ _ _ ltac:(lia) Hf H2 Eg) as F.
    pose proof (more_data_none r f Eg) as E. cbn beta iota in F. destruct (ferror f); rewrite (bind_at more_data _ r _ _ E).
    + split; [by eexists|]. split; [|done]. intros [_ C]. congruence.
    + destruct F as (-> & F1 & F2). exists cur, part, []. split_and!.
      * unfold measure. cbn. rewrite Hs, Hf, F1. destruct (Z.eqb_spec (size (buf r) - filled (buf r)) 1); [lia|]. cbn. lia.
      * intros _. by split.
      * intros T. cbn. split; [unfold line_of; cbn; lia|done].
      * done.
      * unfold comes_from. cbn. by rewrite F1.
      * intros C. cbn. rewrite F1. split; [by apply not_elem_of_nil|done].
Qed.

#[local] Abbreviation the_step := (step ok realloc_ok inet_aton getaddrinfo sections).
Lemma step_phases r : the_step r =
  (x ← (if need_more_space r then more_space realloc_ok else mret Go); match x with Return | Continue => mret x | Go => data_tokens end) r.
Proof. done. Qed.
Lemma step_goes_on r cur part : head r cur part -> error (context (ps r)) = false -> feof (fd r) = false -> outcome r cur part (measure r) (the_step r).
Proof.
  intros Hh He Hf. pose proof Hh as [H1 H2 H3 H4 H5]. rewrite step_phases. destruct (need_more_space r) eqn:Es.
  2:{ rewrite (bind_at (mret Go) _ r Go r) by done. destruct (need_more_data r) eqn:Ed; [eapply outcome_mono; [|by apply data_goes_on]; destruct (_ =? 1); lia|].
      destruct H5 as (_ & _ & -> & _). unfold data_tokens. rewrite (bind_at (gets id) _ r r r) by done. rewrite Ed, (bind_at (mret Go) _ r Go r) by done.
      by apply comment_goes_on. }
  destruct (need_more_data r) eqn:Ed; [|by destruct H5 as (_ & _ & _ & ? & _)].
  destruct (realloc_ok (grown r)) eqn:Er.
  2:{ erewrite (bind_at (more_space realloc_ok)).
      2:{ unfold more_space. do 3 erewrite bind_at by reflexivity. rewrite Er. reflexivity. }
      split; [by exists "realloc failure"%string|]. split; [|done]. intros [C _]. congruence. }
  set (r1 := mkRun (ps r) (mkBuffer (size (buf r) * 2) (filled (buf r)) (data (buf r) ++ repeat None (Z.to_nat (size (buf r))))) (fd r) (S (grown r)) (in_comment r) false (need_more_data r)).
  rewrite (bind_at (more_space realloc_ok) _ r Go r1).
  2:{ unfold more_space. do 3 erewrite bind_at by reflexivity. rewrite Er. reflexivity. }
  destruct (open_filled _ _ H1) as [Ef Hroom].
  assert (Hh1 : head r1 cur part).
  { split; [|exact H2|cbn; rewrite Ed; exact H3|exact H4|cbn; rewrite Ed; exact H5]. destruct H1 as [Ht (j & Hj & Eb)]. split; [done|]. cbn [buf r1]. rewrite Eb. cbn [size filled data cells].
    exists (j ++ repeat None (length (map Some (cur ++ part) ++ j))). split; [by destruct j|]. unfold cells. rewrite Nat2Z.id, <- app_assoc. f_equal.
    rewrite app_assoc, (length_app (_ ++ _)), repeat_length. lia. }
  pose proof (data_goes_on r1 cur part Hh1 Ed eq_refl He Hf) as H. cbn [buf size filled r1] in H.
  destruct (Z.eqb_spec (size (buf r) * 2 - filled (buf r)) 1); [lia|]. assert (measure r1 = S (measure r)) as Em by (unfold measure; cbn; rewrite Es; lia).
  rewrite Em, Nat.sub_succ, Nat.sub_0_r in H. destruct (data_tokens r1) as [[[] r']| |]; exact H.
Qed.

(** ** The end *)
Inductive ending := Eof | Failed (msg : string).
(** The checks at the end of the file, or the error that stopped the parser. *)
Definition conclude (e : ending) : act Z :=
  b ← is_error;
  match e with
  | Failed msg => if b : bool then finish else _ ← parser_error msg; mret (-1)
  | Eof => finish
  end.
Definition parse_text (lines : Z) (s : list Z) (e : ending) : act Z := _ ← reading lines s; conclude e.
Lemma conclude_error e p : error (context p) = true -> conclude e p = finish p.
Proof. intros E. destruct e; unfold conclude; rewrite (bind_at is_error _ p true p); unfold is_error, gets; by rewrite ?E. Qed.
Lemma parse_stopped lines s e p : error (context p) = true -> parse_text lines s e p = finish p.
Proof. intros E. unfold parse_text. rewrite (bind_at (reading _ _) _ p tt p) by (by apply reading_error). by apply conclude_error. Qed.
Lemma head_end r cur part : head r cur part -> need_more_data r = true -> reading (line_of r + 0) (ahead r cur []) (ps r) = Ret (tt, ps r).
Proof.
  intros [H1 H2 H3 H4 H5] Hd. rewrite Hd in H5. unfold reading. rewrite read_text_S. destruct (error (context (ps r))) eqn:E; [done|].
  assert (scan (ahead r cur []) = End) as ->; [|apply set_line_same; unfold line_of; lia]. unfold ahead. rewrite app_nil_r. destruct (in_comment r); [by rewrite H5|by destruct H5].
Qed.

#[local] Abbreviation the_loop := (run_loop ok realloc_ok inet_aton getaddrinfo sections).
Definition final (x : cres (Z * run_state A)) : cres (Z * parsing A) := '(z, r) ← x; Ret (z, ps r).
Lemma run_loop_end fuel r : error (context (ps r)) || feof (fd r) = true -> final (the_loop (S fuel) r) = finish (ps r).
Proof.
  intros E. cbn [run_loop]. rewrite (bind_at (on_ps is_error) _ r (error (context (ps r))) r) by (by destruct r). rewrite (bind_at (gets fd) _ r (fd r) r) by done. rewrite E.
  unfold final, on_ps. destruct (finish (ps r)) as [[z p]| |]; done.
Qed.
Lemma run_loop_step fuel r : error (context (ps r)) || feof (fd r) = false ->
  the_loop (S fuel) r = (x ← the_step; match x with Return => mret (-1) | _ => the_loop fuel end) r.
Proof.
  intros E. cbn [run_loop]. rewrite (bind_at (on_ps is_error) _ r (error (context (ps r))) r) by (by destruct r). rewrite (bind_at (gets fd) _ r (fd r) r) by done. by rewrite E.
Qed.
(** The text [T] that is read of the lines of [s], and the ending [e]. *)
Record text_read (r : run_state A) (s T : list Z) (e : ending) : Prop := {
  t_sub : T `sublist_of` s;
  t_prefix : 0 ∉ rest (fd r) -> T `prefix_of` full_lines s /\ (e = Eof -> T = full_lines s);
  t_end : works r -> e = Eof }.
Lemma run_sim fuel r cur part : (measure r < fuel)%nat -> (error (context (ps r)) = false -> head r cur part) -> exists T e,
  final (the_loop fuel r) = parse_text (line_of r + nl T) (ahead r cur T) e (ps r) /\ text_read r (part ++ rest (fd r)) T e.
Proof.
  revert r cur part. induction fuel as [|fuel IH]; intros r cur part Hm Hh; [lia|]. destruct (error (context (ps r))) eqn:He.
  { exists (full_lines (part ++ rest (fd r))), Eof. split; [|by split; [apply full_lines_sublist|..]]. rewrite run_loop_end by (by rewrite He). by rewrite parse_stopped. }
  specialize (Hh eq_refl). destruct (feof (fd r)) eqn:Hf.
  { destruct (h_feof _ _ _ Hh Hf) as [Er Hd]. exists [], Eof.
    split; [|split; [apply sublist_nil_l|rewrite Er, app_nil_r; intros _; by rewrite (full_lines_part _ (h_part _ _ _ Hh))|done]].
    rewrite run_loop_end by (by rewrite He, Hf). unfold parse_text. by rewrite (bind_at (reading _ _) _ _ _ _ (head_end r cur part Hh Hd)). }
  pose proof (step_goes_on r cur part Hh He Hf) as H. rewrite run_loop_step by (by rewrite He, Hf). unfold mbind, prog_bind, final.
  assert (Hgo : forall r', goes_on r cur part (measure r) r' -> exists T e,
    final (the_loop fuel r') = parse_text (line_of r + nl T) (ahead r cur T) e (ps r) /\ text_read r (part ++ rest (fd r)) T e).
  { intros r' (cur' & part' & X & H1 & H2 & HR & Hb & Hs & H4). destruct (IH r' cur' part' ltac:(lia) H2) as (T & e & E & [Ts Tp Te]). exists (X ++ T), e. split.
    - rewrite E. destruct (HR T) as [El R]. unfold parse_text, mbind, prog_bind. rewrite nl_app, Z.add_assoc, El. by rewrite R.
    - split.
      + etransitivity; [|exact Hs]. by apply sublist_app.
      + intros C. destruct (H4 C) as [C' ->]. destruct (Tp C') as [Tp1 Tp2]. split; [by apply prefix_app|]. intros He'. by rewrite Tp2.
      + intros [W1 W2]. apply Te. by split; [|apply Hb]. }
  assert (Hst : forall x y, stuck r cur part x -> (forall k : unit * parsing A -> cres (Z * parsing A), (x ≫= k) = y) -> exists T e,
    y = parse_text (line_of r + nl T) (ahead r cur T) e (ps r) /\ text_read r (part ++ rest (fd r)) T e).
  { intros x y (X & Y & H1 & Hs & H2) Hy. exists (X ++ Y), Eof. split; [|split; [done|intros C; by rewrite (H2 C)|done]].
    unfold parse_text, mbind, prog_bind. rewrite H1. symmetry. apply Hy. }
  destruct (the_step r) as [[[] r']| |]; [apply (Hgo r' H)|apply (Hgo r' H)| |by apply (Hst _ _ H)|by apply (Hst _ _ H)].
  destruct H as ((msg & Ep) & Hnc & Hd). exists [], (Failed msg).
  split; [|by split; [apply sublist_nil_l|intros _; split; [apply prefix_nil|done]|]]. cbn. rewrite Ep. unfold parse_text.
  rewrite (bind_at (reading _ _) _ _ _ _ (head_end r cur part Hh Hd)). unfold conclude. rewrite (bind_at is_error _ _ false (ps r)) by (unfold is_error, gets; by rewrite He). done.
Qed.
Definition start (a : A) (n : nat) : parsing A := mkParsing (mkContext a n 0 false []) None None None None.
Lemma parser_run_sim a n text broken : exists T e,
  parser_run ok realloc_ok inet_aton getaddrinfo sections a n text broken = ('(z, p) ← parse_text (nl T) T e (start a n); Ret (z, context p)) /\
  T `sublist_of` text /\ (0 ∉ text -> T `prefix_of` full_lines text /\ (e = Eof -> T = full_lines text)) /\
  ((forall n, realloc_ok n = true) -> broken = false -> e = Eof).
Proof.
  destruct (run_sim (4 * length text + 4) (parser_start a n text broken) [] []) as (T & e & E & [Ts Tp Te]).
  - unfold measure. cbn. lia.
  - intros _. split; try done. split; [constructor|]. by exists (repeat None 128).
  - exists T, e. split; [|split; [done|split; [done|intros; by apply Te]]].
    unfold parser_run. unfold final in E. unfold line_of, ahead in E. cbn [parser_start ps context line in_comment app] in E.
    rewrite Z.add_0_l in E. unfold start. rewrite <- E. by destruct (the_loop _ _) as [[z r]| |].
Qed.
(** The handlers run over tokens, whose spelling tells the line. *)
Fixpoint take_items (lines : Z) (l : list item) : act unit :=
  match l with
  | [] => e ← is_error; if e : bool then mret tt else set_line lines
  | i :: l =>
      e ← is_error;
      if e : bool then mret tt else
      _ ← set_line (lines + 1 - nl (gap i ++ text_of l));
      x ← alloc ok;
      if negb x then parser_error "malloc failed" else
      _ ← handler (token i);
      take_items lines l
  end.
Lemma reading_gap lines g s p : forallb isspace g = true -> reading lines (g ++ s) p = reading lines s p.
Proof. intros H. apply reading_scan. by apply skip_gap. Qed.
Lemma reading_items lines l p : Forall item_ok l -> reading lines (text_of l) p = take_items lines l p.
Proof.
  intros H. revert p. induction H as [|i l (H1 & H2 & H3 & H4) Hl IH]; intros p; cbn [take_items].
  { unfold reading. rewrite read_text_S. rewrite (bind_at is_error _ p (error (context p)) p) by done. by destruct (error (context p)). }
  rewrite (bind_at is_error _ p (error (context p)) p) by done. destruct (error (context p)) eqn:E; [by apply reading_error|].
  assert (Et : text_of (i :: l) = spelling i ++ gap i ++ text_of l) by (unfold text_of; cbn; by rewrite <- app_assoc). rewrite Et.
  assert (Es : scan (spelling i ++ gap i ++ text_of l) = Got (token i) (gap i ++ text_of l)).
  { destruct (gap i) as [|d g]; [done|]. cbn in H4. apply andb_prop in H4 as [Hd _]. by apply scan_spelled. }
  unfold reading. rewrite read_text_S, E, Es. unfold read_token. rewrite H2.
  assert (Ec : continue_at (token i) (gap i ++ text_of l) = gap i ++ text_of l).
  { unfold continue_at, is_comment in *. apply orb_false_iff in H2 as [-> ->]. done. }
  rewrite Ec. apply bind_ext. intros _ p1. apply bind_ext. intros x p2. destruct x; [|done]. apply bind_ext. intros _ p3. cbn [negb].
  rewrite reading_fuel, reading_gap by (done || (pose proof (scan_parts (spelling i ++ gap i ++ text_of l)) as Hp; rewrite Es in Hp; destruct Hp as (y & c & -> & _); llia)).
  apply IH.
Qed.
End text.
End ParserText.
