(* ===== verification/RedsocksConfig.v ===== *)
(** * redsocks: configuration

    The sections that main.c registers with the parser on Android: [redsocks], with
    one instance per section, and [base]. The file ends with the theorems on the
    parser: it reads the text of the file whatever the sizes of lines and buffers, it
    takes back the tokens that were written, and a configuration that it accepts has
    what the theorems on connections assume. *)
From Stdlib Require Import String.
From S2P Require Import Prelude Handlers Redsocks RedsocksInv RedsocksParser ParserText.
Import RedsocksParser ParserText.
Local Open Scope Z_scope.

Module RedsocksConfig.

(** ** Data *)
(** [redsocks_config] and the part of [redsocks_instance] that the parser sets. *)
Record instance_config := mkInstance {
  local_ip : Z; local_port : Z; ip : Z; port : Z;
  type : option (list Z); login : option (list Z); password : option (list Z);
  listenq : Z; min_backoff_ms : Z; max_backoff_ms : Z;
  relay_ss : option (list Z) }.
Record base_instance := mkBase {
  configured : bool; chroot : option (list Z); user : option (list Z); group : option (list Z);
  redirector_name : option (list Z); redirector : option (list Z); log_name : option (list Z);
  log_debug : bool; log_info : bool; daemon : bool }.
(** The data of the program: [data] of the section [redsocks], the list of
    instances, and [instance] of base.c. *)
Record config := mkConfig { section_data : option instance_config; instances : list instance_config; base : base_instance }.
Definition base_zero : base_instance := mkBase false None None None None None None false false false.
Definition initial : config := mkConfig None [] base_zero.

#[local] Abbreviation handler := (prog (env config)).
Definition the_config : handler config := gets it.
Definition put (c : config) : handler unit := sets (fun e => mkEnv c (env_asked e) (reported e)).
Definition parser_error (msg : string) : handler unit := sets (fun e => mkEnv (it e) (env_asked e) (reported e ++ [msg])).

(** ** The section [redsocks] *)
Definition INADDR_LOOPBACK : Z := 2130706433.
Definition SOMAXCONN : Z := 128.
Definition htonl (x : Z) : Z := be_val (le_bytes 4 x).
Definition htons (x : Z) : Z := be_val (le_bytes 2 x).
Definition relay_subsystems : list (list Z) := map chars ["http-connect"; "http-relay"; "socks4"; "socks5"]%string.
Definition redsocks_entries : list (list Z * parser_type) := map (fun '(k, t) => (chars k, t))
  [("local_ip", pt_in_addr); ("local_port", pt_uint16); ("ip", pt_in_addr); ("port", pt_uint16); ("type", pt_pchar); ("login", pt_pchar);
   ("password", pt_pchar); ("listenq", pt_uint16); ("min_accept_backoff", pt_uint16); ("max_accept_backoff", pt_uint16)]%string.
Definition new_instance : instance_config :=
  mkInstance (htonl INADDR_LOOPBACK) 0 (htonl INADDR_LOOPBACK) 0 None None None SOMAXCONN 100 60000 None.

Section onenter.
Context (ok : nat -> bool).
Definition redsocks_onenter : handler bool :=
  e ← gets id; _ ← sets (fun e => mkEnv (it e) (S (env_asked e)) (reported e));
  if negb (ok (env_asked e)) then _ ← parser_error "Not enough memory"; mret false else
  c ← the_config; _ ← put (mkConfig (Some new_instance) (instances c) (base c)); mret true.
End onenter.
(** Writes through the addresses that [redsocks_onenter] set in the entries. *)
Definition redsocks_store (key : list Z) (v : value) (c : config) : option config :=
  match section_data c with
  | None => None
  | Some i =>
      let set i := Some (mkConfig (Some i) (instances c) (base c)) in
      match v with
      | VAddr a =>
          if equal key (chars "local_ip") then set (mkInstance a (local_port i) (ip i) (port i) (type i) (login i) (password i) (listenq i) (min_backoff_ms i) (max_backoff_ms i) (relay_ss i))
          else if equal key (chars "ip") then set (mkInstance (local_ip i) (local_port i) a (port i) (type i) (login i) (password i) (listenq i) (min_backoff_ms i) (max_backoff_ms i) (relay_ss i))
          else None
      | VUint16 n =>
          if equal key (chars "local_port") then set (mkInstance (local_ip i) n (ip i) (port i) (type i) (login i) (password i) (listenq i) (min_backoff_ms i) (max_backoff_ms i) (relay_ss i))
          else if equal key (chars "port") then set (mkInstance (local_ip i) (local_port i) (ip i) n (type i) (login i) (password i) (listenq i) (min_backoff_ms i) (max_backoff_ms i) (relay_ss i))
          else if equal key (chars "listenq") then set (mkInstance (local_ip i) (local_port i) (ip i) (port i) (type i) (login i) (password i) n (min_backoff_ms i) (max_backoff_ms i) (relay_ss i))
          else if equal key (chars "min_accept_backoff") then set (mkInstance (local_ip i) (local_port i) (ip i) (port i) (type i) (login i) (password i) (listenq i) n (max_backoff_ms i) (relay_ss i))
          else if equal key (chars "max_accept_backoff") then set (mkInstance (local_ip i) (local_port i) (ip i) (port i) (type i) (login i) (password i) (listenq i) (min_backoff_ms i) n (relay_ss i))
          else None
      | VStr s =>
          if equal key (chars "type") then set (mkInstance (local_ip i) (local_port i) (ip i) (port i) (Some s) (login i) (password i) (listenq i) (min_backoff_ms i) (max_backoff_ms i) (relay_ss i))
          else if equal key (chars "login") then set (mkInstance (local_ip i) (local_port i) (ip i) (port i) (type i) (Some s) (password i) (listenq i) (min_backoff_ms i) (max_backoff_ms i) (relay_ss i))
          else if equal key (chars "password") then set (mkInstance (local_ip i) (local_port i) (ip i) (port i) (type i) (login i) (Some s) (listenq i) (min_backoff_ms i) (max_backoff_ms i) (relay_ss i))
          else None
      | _ => None
      end
  end.
Definition find_relay (t : list Z) : option (list Z) := find (equal t) relay_subsystems.
Definition redsocks_onexit : handler bool :=
  c ← the_config; i ← lift (of_option (section_data c));
  let i := mkInstance (local_ip i) (htons (local_port i)) (ip i) (htons (port i)) (type i) (login i) (password i) (listenq i) (min_backoff_ms i) (max_backoff_ms i) (relay_ss i) in
  '(i, err) ← (match type i with
    | Some t =>
        match find_relay t with
        | Some ss =>
            let i := mkInstance (local_ip i) (local_port i) (ip i) (port i) (type i) (login i) (password i) (listenq i) (min_backoff_ms i) (max_backoff_ms i) (Some ss) in
            _ ← put (mkConfig None (i :: instances c) (base c)); mret (i, None)
        | None => _ ← put (mkConfig None (instances c) (base c)); mret (i, Some "invalid `type` for redsocks"%string)
        end
    | None => _ ← put (mkConfig None (instances c) (base c)); mret (i, Some "no `type` for redsocks"%string)
    end);
  let err := match err with
    | Some _ => err
    | None =>
        if min_backoff_ms i =? 0 then Some "`min_accept_backoff` must be positive, 0 ms is too low"%string
        else if max_backoff_ms i =? 0 then Some "`max_accept_backoff` must be positive, 0 ms is too low"%string
        else if negb (min_backoff_ms i <? max_backoff_ms i) then Some "`min_accept_backoff` must be less than `max_accept_backoff`"%string
        else None
    end in
  match err with Some msg => _ ← parser_error msg; mret false | None => mret true end.
Definition redsocks_conf_section (ok : nat -> bool) : parser_section config :=
  mkSection (chars "redsocks") redsocks_entries (Some (redsocks_onenter ok)) (Some redsocks_onexit) redsocks_store.

(** ** The section [base] *)
Definition redirector_subsystems : list (list Z) := map chars ["iptables"; "generic"]%string.
Definition base_entries : list (list Z * parser_type) := map (fun '(k, t) => (chars k, t))
  [("chroot", pt_pchar); ("user", pt_pchar); ("group", pt_pchar); ("redirector", pt_pchar); ("log", pt_pchar);
   ("log_debug", pt_bool); ("log_info", pt_bool); ("daemon", pt_bool)]%string.
Definition base_onenter : handler bool :=
  c ← the_config;
  if configured (base c) then _ ← parser_error "only one instance of base is valid"; mret false
  else _ ← put (mkConfig (section_data c) (instances c) base_zero); mret true.
Definition base_store (key : list Z) (v : value) (c : config) : option config :=
  let b := base c in
  let set b := Some (mkConfig (section_data c) (instances c) b) in
  match v with
  | VStr s =>
      if equal key (chars "chroot") then set (mkBase (configured b) (Some s) (user b) (group b) (redirector_name b) (redirector b) (log_name b) (log_debug b) (log_info b) (daemon b))
      else if equal key (chars "user") then set (mkBase (configured b) (chroot b) (Some s) (group b) (redirector_name b) (redirector b) (log_name b) (log_debug b) (log_info b) (daemon b))
      else if equal key (chars "group") then set (mkBase (configured b) (chroot b) (user b) (Some s) (redirector_name b) (redirector b) (log_name b) (log_debug b) (log_info b) (daemon b))
      else if equal key (chars "redirector") then set (mkBase (configured b) (chroot b) (user b) (group b) (Some s) (redirector b) (log_name b) (log_debug b) (log_info b) (daemon b))
      else if equal key (chars "log") then set (mkBase (configured b) (chroot b) (user b) (group b) (redirector_name b) (redirector b) (Some s) (log_debug b) (log_info b) (daemon b))
      else None
  | VBool x =>
      if equal key (chars "log_debug") then set (mkBase (configured b) (chroot b) (user b) (group b) (redirector_name b) (redirector b) (log_name b) x (log_info b) (daemon b))
      else if equal key (chars "log_info") then set (mkBase (configured b) (chroot b) (user b) (group b) (redirector_name b) (redirector b) (log_name b) (log_debug b) x (daemon b))
      else if equal key (chars "daemon") then set (mkBase (configured b) (chroot b) (user b) (group b) (redirector_name b) (redirector b) (log_name b) (log_debug b) (log_info b) x)
      else None
  | _ => None
  end.
Definition base_onexit : handler bool :=
  c ← the_config;
  let b := base c in
  match redirector_name b with
  | None => _ ← parser_error "no `redirector` set"; mret false
  | Some n =>
      match find (equal n) redirector_subsystems with
      | None => _ ← parser_error "invalid `redirector` set"; mret false
      | Some ss =>
          _ ← put (mkConfig (section_data c) (instances c) (mkBase true (chroot b) (user b) (group b) (redirector_name b) (Some ss) (log_name b) (log_debug b) (log_info b) (daemon b)));
          mret true
      end
  end.
Definition base_conf_section : parser_section config :=
  mkSection (chars "base") base_entries (Some base_onenter) (Some base_onexit) base_store.

(** [parser_add_section] puts a section in front. *)
Definition parser_add_section {A} (sections : list (parser_section A)) (s : parser_section A) : list (parser_section A) := s :: sections.
Definition subsystems (ok : nat -> bool) : list (parser_section config) := [redsocks_conf_section ok; base_conf_section].
Definition all_sections (ok : nat -> bool) : list (parser_section config) := fold_left parser_add_section (subsystems ok) [].
(** What [main] does with the file. *)
Definition load (ok realloc_ok : nat -> bool) (inet_aton : list Z -> option Z) (getaddrinfo : list Z -> Z + string) (text : list Z) (broken : bool) : cres (Z * parser_context config) :=
  parser_run ok realloc_ok inet_aton getaddrinfo (all_sections ok) initial 2 text broken.
(** ** A configuration that is accepted *)
(** The instance as the connections see it (the HTTP proxies are not modelled there). *)
Definition runtime (i : instance_config) (t : Redsocks.proxy_type) : Redsocks.redsocks_config :=
  Redsocks.mkConfig t (login i) (password i) (min_backoff_ms i) (max_backoff_ms i).
Definition in_range (i : instance_config) : Prop := 0 <= min_backoff_ms i < 2 ^ 16 /\ 0 <= max_backoff_ms i < 2 ^ 16.
Definition instance_ok (i : instance_config) : Prop :=
  (exists t, type i = Some t /\ relay_ss i = Some t /\ t ∈ relay_subsystems) /\ 0 < min_backoff_ms i /\ min_backoff_ms i < max_backoff_ms i < 2 ^ 16.

Section accepted.
Context (ok realloc_ok : nat -> bool) (inet_aton : list Z -> option Z) (getaddrinfo : list Z -> Z + string).
#[local] Abbreviation act := (prog (parsing config)).
Definition config_ok (c : config) : Prop := Forall instance_ok (instances c) /\ forall i, section_data c = Some i -> in_range i.
Record parsing_ok (p : parsing config) : Prop := {
  p_section : forall s, section p = Some s -> s ∈ all_sections ok;
  p_clean : error (context p) = false -> log (context p) = [] /\ config_ok (own (context p)) }.
(** [safe m]: [m] keeps [parsing_ok]. *)
Definition safe {B} (m : act B) : Prop := forall p b p', parsing_ok p -> m p = Ret (b, p') -> parsing_ok p'.
Lemma safe_bind {B D} (m : act B) (k : B -> act D) : safe m -> (forall b, safe (k b)) -> safe (m ≫= k).
Proof.
  intros Hm Hk p d p' Hp E. unfold mbind, prog_bind in E. destruct (m p) as [[b p1]| |] eqn:E1; [|done|done]. cbn in E.
  eapply (Hk b); [|exact E]. by eapply Hm.
Qed.
(** What is known of the state that is read. *)
Lemma safe_read {B} (k : parsing config -> act B) : (forall p, parsing_ok p -> forall b p', k p p = Ret (b, p') -> parsing_ok p') -> safe (p ← gets id; k p).
Proof. intros H p b p' Hp E. by eapply (H p). Qed.
Lemma safe_ret {B} (b : B) : safe (mret b : act B).
Proof. intros p b' p' Hp [= _ <-]. done. Qed.
Lemma safe_lift {B} (x : cres B) : safe (lift x : act B).
Proof. intros p b p' Hp E. destruct x; [|done|done]. by injection E as _ <-. Qed.
Lemma safe_gets {B} (f : parsing config -> B) : safe (gets f).
Proof. intros p b p' Hp [= _ <-]. done. Qed.
Lemma safe_tokens st kt vt : safe (sets (fun p => mkParsing (context p) (section p) (st p) (kt p) (vt p))).
Proof. intros p b p' [H1 H2] [= _ <-]. by split. Qed.
Lemma safe_error msg : safe (RedsocksParser.parser_error msg : act unit).
Proof. intros p b p' [H1 H2] [= _ <-]. by split. Qed.
Lemma safe_alloc : safe (alloc ok : act bool).
Proof. intros p b p' [H1 H2] [= _ <-]. by split. Qed.
Lemma safe_set_line n : safe (set_line n : act unit).
Proof. intros p b p' [H1 H2] [= _ <-]. by split. Qed.
Lemma safe_section s : (forall x, s = Some x -> x ∈ all_sections ok) -> safe (set_section s : act unit).
Proof. intros Hs p b p' [H1 H2] [= _ <-]. by split. Qed.
Create HintDb safe_db.
#[local] Hint Resolve safe_ret safe_lift safe_gets safe_error safe_alloc safe_set_line : safe_db.
Ltac safe := repeat first [solve [eauto with safe_db] | apply safe_bind; [|intros ?] | solve [apply (safe_tokens)]
  | match goal with |- safe (match ?x with _ => _ end) => destruct x end ].

(** Storing a value. *)
Definition value_ok (v : value) : Prop := match v with VUint16 n => 0 <= n < 2 ^ 16 | _ => True end.
Lemma store_ok s key v c c' : s ∈ all_sections ok -> value_ok v -> store_at s key v c = Some c' -> config_ok c -> config_ok c'.
Proof.
  intros Hs Hv E [H1 H2]. apply elem_of_cons in Hs as [->|Hs]; [|apply list_elem_of_singleton in Hs as ->]; cbn [store_at base_conf_section redsocks_conf_section] in E.
  - unfold base_store in E. destruct v; try done; repeat (destruct (equal key _); [injection E as <-; by split|]); done.
  - unfold redsocks_store in E. destruct (section_data c) as [i|]; [|done]. destruct (H2 i eq_refl) as [R1 R2].
    destruct v; try done; repeat (destruct (equal key _); [injection E as <-; split; [done|]; intros ? [= <-]; by split|]); done.
Qed.
Definition address_ok (a : option (parser_section config * list Z)) : Prop := forall s k, a = Some (s, k) -> s ∈ all_sections ok.
Lemma safe_write a v : address_ok a -> value_ok v -> safe (write_at a v : act unit).
Proof.
  intros Ha Hv. destruct a as [[s k]|]; cbn [write_at]; [|apply safe_lift]. specialize (Ha s k eq_refl). intros p b p' [H1 H2] E.
  unfold gets, mbind, prog_bind in E. cbn in E. destruct (store_at s k v (own (context p))) as [c|] eqn:Es; [|done]. injection E as _ <-.
  split; [done|]. intros He. destruct (H2 He) as [L C]. split; [done|]. by eapply store_ok.
Qed.
Lemma safe_value t a tok : address_ok a -> safe (value_parser_by_type ok inet_aton getaddrinfo t a tok : act bool).
Proof.
  intros Ha. assert (forall v, value_ok v -> safe (write_at a v : act unit)) as Hw by (intros; by apply safe_write).
  destruct t; cbn [value_parser_by_type]; unfold vp_pbool, vp_pchar, vp_uint16, vp_in_addr, vp_in_addr2, vp_mask; safe; try (by apply Hw).
  apply Hw. apply u16_range.
Qed.
Lemma found_entry_ok (s : parser_section config) key : s ∈ all_sections ok -> address_ok (find_entry s key).2.
Proof. intros Hs s' k. unfold find_entry. destruct (find _ _); [|done]. cbn. by intros [= <- _]. Qed.
Lemma safe_assign s k v : s ∈ all_sections ok -> safe (assign ok inet_aton getaddrinfo s k v : act unit).
Proof.
  intros Hs. unfold assign. pose proof (found_entry_ok s k Hs) as Ha. destruct (find_entry s k) as [t a]. cbn in Ha. unfold when. safe. by apply safe_value.
Qed.
(** The functions of the sections. *)
Definition calls_ok (f : prog (env config) bool) : Prop := forall c n e, config_ok c -> f (mkEnv c n []) = Ret (true, e) -> config_ok (it e).
Lemma report_clean msgs (p p' : parsing config) u : report msgs p = Ret (u, p') -> section p' = section p /\ (error (context p') = false -> p' = p).
Proof.
  revert p. induction msgs as [|m msgs IH]; intros p E; cbn [report] in E; [by injection E as _ <-|].
  unfold mbind, prog_bind in E. cbn in E. destruct (IH _ E) as [H1 H2]. split; [done|]. intros He. specialize (H2 He). subst p'. done.
Qed.
Lemma safe_call f msg : calls_ok f -> safe (call (Some f) msg : act unit).
Proof.
  intros Hf p b p' [H1 H2] E. cbn [call] in E. unfold gets, mbind, prog_bind in E. cbn in E.
  destruct (f (mkEnv (own (context p)) (asked (context p)) [])) as [[r e]| |] eqn:Ef; [|done|done]. cbn in E. unfold in_context, sets in E. cbn in E.
  destruct (report _ _) as [[u p1]| |] eqn:Er; [|done|done]. cbn in E. destruct (report_clean _ _ _ _ Er) as [R1 R2]. cbn in R1. destruct r; cbn in E; injection E as _ <-.
  - split; [by rewrite R1|]. intros He. specialize (R2 He). subst p1. cbn in He |- *. destruct (H2 He) as [L C]. split; [done|]. by eapply Hf.
  - split; cbn; [by rewrite R1|done].
Qed.
(** Runs the calls at the start of a function. *)
Ltac run_in E := repeat (erewrite bind_at in E by reflexivity); cbn [it negb env_asked reported] in E.
Lemma base_onenter_ok : calls_ok base_onenter.
Proof.
  intros c n e [C1 C2] E. unfold base_onenter in E. run_in E. destruct (configured (base c)); run_in E; [done|]. injection E as <-. by split.
Qed.
Lemma base_onexit_ok : calls_ok base_onexit.
Proof.
  intros c n e [C1 C2] E. unfold base_onexit in E. run_in E. destruct (redirector_name (base c)) as [x|]; run_in E; [|done].
  destruct (find _ _); run_in E; [|done]. injection E as <-. by split.
Qed.
Lemma redsocks_onenter_ok : calls_ok (redsocks_onenter ok).
Proof.
  intros c n e [C1 C2] E. unfold redsocks_onenter in E. run_in E. change (env_asked (id _)) with n in E. destruct (ok n); cbn [negb] in E; run_in E; [|done].
  injection E as <-. split; [done|]. intros i [= <-]. split; cbn; lia.
Qed.
Lemma find_relay_ok t ss : find_relay t = Some ss -> ss = t /\ t ∈ relay_subsystems.
Proof.
  intros [H1 H2]%find_some. apply bool_decide_eq_true in H2 as ->. split; [done|]. by apply list_elem_of_In.
Qed.
Lemma redsocks_onexit_ok : calls_ok redsocks_onexit.
Proof.
  intros c n e [C1 C2] E. unfold redsocks_onexit in E. rewrite (bind_at the_config _ _ c (mkEnv c n [])) in E by done.
  destruct (section_data c) as [i|] eqn:Ei; [|done]. destruct (C2 i eq_refl) as [R1 R2]. rewrite (bind_at (lift _) _ _ i (mkEnv c n [])) in E by done.
  cbn [type min_backoff_ms max_backoff_ms] in E. destruct (type i) as [t|] eqn:Et; [|done]. destruct (find_relay t) as [ss|] eqn:Er; [|done].
  run_in E. cbn [min_backoff_ms max_backoff_ms] in E. destruct (Z.eqb_spec (min_backoff_ms i) 0); [done|]. destruct (Z.eqb_spec (max_backoff_ms i) 0); [done|].
  destruct (Z.ltb_spec (min_backoff_ms i) (max_backoff_ms i)); [|done]. injection E as <-. destruct (find_relay_ok _ _ Er) as [-> Hr].
  split; [|done]. constructor; [|done]. split; [by exists t|cbn; lia].
Qed.
Lemma safe_onenter s msg : s ∈ all_sections ok -> safe (call (onenter s) msg : act unit).
Proof. intros Hs. apply elem_of_cons in Hs as [->|Hs]; [|apply list_elem_of_singleton in Hs as ->]; apply safe_call; [apply base_onenter_ok|apply redsocks_onenter_ok]. Qed.
Lemma safe_onexit s msg : s ∈ all_sections ok -> safe (call (onexit s) msg : act unit).
Proof. intros Hs. apply elem_of_cons in Hs as [->|Hs]; [|apply list_elem_of_singleton in Hs as ->]; apply safe_call; [apply base_onexit_ok|apply redsocks_onexit_ok]. Qed.

(** ** Every token keeps the configuration correct *)
Lemma safe_token tok : safe (on_token ok inet_aton getaddrinfo (all_sections ok) tok : act unit).
Proof.
  unfold on_token. repeat match goal with |- safe (if ?x then _ else _) => destruct x end.
  - apply safe_read. intros p Hp b p' E. destruct (section p); [by eapply safe_error|]. destruct (section_token p) as [t|]; [|by eapply safe_error].
    refine (safe_bind _ _ _ _ p b p' Hp E); [|intros _; apply safe_bind; [|intros _; apply (safe_tokens (fun _ => None) key_token value_token)]].
    + apply safe_section. intros x Hx. apply find_some in Hx as [Hx _]. by apply list_elem_of_In.
    + destruct (find _ _) as [s|] eqn:Ef; [|apply safe_error]. apply safe_onenter. apply find_some in Ef as [Ef _]. by apply list_elem_of_In.
  - apply safe_read. intros p Hp b p' E. destruct (section p) as [s|] eqn:Es; [|by eapply safe_error].
    refine (safe_bind _ _ _ _ p b p' Hp E); [apply safe_onexit; by apply (p_section _ Hp)|intros _; by apply safe_section].
  - unfold equals_sign. safe.
  - apply safe_read. intros p Hp b p' E.
    refine (safe_bind _ _ _ _ p b p' Hp E); [|intros _; apply safe_bind; [apply (safe_tokens section_token (fun _ => None) value_token)|intros _; apply (safe_tokens section_token key_token (fun _ => None))]].
    destruct (section p) as [s|] eqn:Es; [|apply safe_error]. destruct (key_token p), (value_token p); try apply safe_ret; try apply safe_error.
    apply safe_assign. by apply (p_section _ Hp).
  - unfold plain_token. apply safe_read. intros p Hp b p' E. revert E.
    destruct (section p), (section_token p), (key_token p), (value_token p); try (by eapply safe_error; exact Hp);
      first [by eapply (safe_tokens (fun _ => Some tok) key_token value_token) | by eapply (safe_tokens section_token (fun _ => Some tok) value_token)
            | by eapply (safe_tokens section_token key_token (fun _ => Some tok))].
Qed.
Lemma safe_reading n lines s : safe (read_text ok inet_aton getaddrinfo (all_sections ok) n lines s : act unit).
Proof.
  revert s. induction n as [|n IH]; intros s; cbn [read_text]; [apply safe_lift|]. safe; by apply safe_token.
Qed.
Lemma safe_conclude e : safe (conclude e : act Z).
Proof. unfold conclude, finish. safe. Qed.
Lemma bind_inv {S B D} (m : prog S B) (k : B -> prog S D) p d p' : (m ≫= k) p = Ret (d, p') -> exists b p1, m p = Ret (b, p1) /\ k b p1 = Ret (d, p').
Proof. unfold mbind, prog_bind. destruct (m p) as [[b p1]| |]; [|done|done]. cbn. eauto. Qed.
Lemma finish_zero (p p' : parsing config) : finish p = Ret (0, p') -> error (context p') = false.
Proof.
  unfold finish. intros E. do 5 apply bind_inv in E as (? & ? & _ & E). apply bind_inv in E as (e & p1 & [= <- <-] & E).
  destruct (error (context _)) eqn:Ee; [done|]. by injection E as <-.
Qed.
Lemma conclude_zero e (p p' : parsing config) : conclude e p = Ret (0, p') -> error (context p') = false.
Proof.
  unfold conclude. intros E. rewrite (bind_at is_error _ p (error (context p)) p) in E by done. destruct e; [by apply finish_zero in E|].
  destruct (error (context p)); [by apply finish_zero in E|done].
Qed.
End accepted.
(** ** Claims *)

(** C12: buffers do not matter. For every file, with any outcome of the allocations and of reading, the parser ends, stays inside its buffer and
    never reads a cell that it did not write, and it does what reading a text [T] token by token does, with the same
    calls of the sections, errors and line numbers; then it makes the checks at the end, or reports why it stopped reading. It stops
    before the end only if [realloc] or reading fails. In a file without zero bytes [T] is the first lines of the file that end in a newline:
    all of them, unless reading stopped; a last line without a newline is not read. Of a file with zero bytes, characters are lost. *)
Theorem parser_reads_text {A} (ok realloc_ok : nat -> bool) (inet_aton : list Z -> option Z) (getaddrinfo : list Z -> Z + string)
    (sections : list (parser_section A)) (a : A) (n : nat) (text : list Z) (broken : bool) : exists T e,
  parser_run ok realloc_ok inet_aton getaddrinfo sections a n text broken =
    ('(z, p) ← parse_text ok inet_aton getaddrinfo sections (nl T) T e (start a n); Ret (z, context p)) /\
  T `sublist_of` text /\ (0 ∉ text -> T `prefix_of` full_lines text /\ (e = Eof -> T = full_lines text)) /\
  ((forall k, realloc_ok k = true) -> broken = false -> e = Eof).
Proof. apply parser_run_sim. Qed.


(** C32: a configuration that is accepted can be used. If the parser returns 0, nothing was reported, and every instance has a known
    type, which selects its relay, and delays that the theorems on connections assume. *)
Theorem accepted_config_ok (ok realloc_ok : nat -> bool) (inet_aton : list Z -> option Z) (getaddrinfo : list Z -> Z + string) (text : list Z) (broken : bool)
    (c : parser_context config) : load ok realloc_ok inet_aton getaddrinfo text broken = Ret (0, c) ->
  log c = [] /\ Forall (fun i => instance_ok i /\ forall t, RedsocksInv.backoff_ok (runtime i t)) (instances (own c)).
Proof.
  intros E. unfold load in E. destruct (parser_run_sim ok realloc_ok inet_aton getaddrinfo (all_sections ok) initial 2 text broken) as (T & e & E' & _).
  rewrite E' in E. destruct (parse_text _ _ _ _ _ _ _ _) as [[z p]| |] eqn:Ep; [|done|done]. injection E as -> <-.
  unfold parse_text in Ep. apply bind_inv in Ep as (u & p1 & E1 & E2).
  assert (parsing_ok ok p) as Hp.
  { apply (safe_conclude ok e p1 0 p); [|done]. eapply (safe_reading ok inet_aton getaddrinfo); [|exact E1]. by split. }
  destruct (p_clean _ _ Hp (conclude_zero _ _ _ E2)) as [L [C _]]. split; [done|]. eapply List.Forall_impl; [|exact C].
  intros i Hi. split; [done|]. intros t. destruct Hi as (_ & H1 & H2). split; cbn; lia.
Qed.

(** ** Concrete configurations *)
Definition always (n : nat) : bool := true.
Definition aton (s : list Z) : option Z := if equal s (chars "127.0.0.1") then Some 16777343 else None.
Definition no_addr (s : list Z) : Z + string := inr "Name or service not known"%string.
Definition newline : string := String (Ascii.ascii_of_nat 10) EmptyString.
Definition load_text (s : string) : cres (Z * parser_context config) := load always always aton no_addr (chars (s ++ newline)) false.
(** What the application writes: one line that is longer than the first buffer. *)
Definition app_config : string := ("base { log_debug = off; log_info = off; log = stderr; daemon = on; redirector = iptables;}" ++
  "redsocks { local_ip = 127.0.0.1; local_port = 8123; ip = 127.0.0.1; port = 1080; type = socks5;}")%string.
Definition app_instance : instance_config :=
  mkInstance 16777343 (htons 8123) 16777343 (htons 1080) (Some (chars "socks5")) None None 128 100 60000 (Some (chars "socks5")).
Definition app_context : parser_context config :=
  match load_text app_config with Ret (_, c) => c | _ => mkContext initial 0 0 true [] end.
Lemma accepted_config_ok_witness : instances (own app_context) = [app_instance] /\ log app_context = [] /\
  Forall (fun i => instance_ok i /\ forall t, RedsocksInv.backoff_ok (runtime i t)) (instances (own app_context)).
Proof.
  split; [vm_compute; reflexivity|]. apply (accepted_config_ok always always aton no_addr (chars (app_config ++ newline)) false app_context). vm_compute. reflexivity.
Defined.

(** ** What goes wrong *)

(** An unknown key is not reported as such: it is read as a boolean, and a boolean is written to address 0. *)
Theorem unknown_key_crashes : load_text "base { log_verbose = on; redirector = generic; }" = Undef /\
  match load_text "base { log_verbose = 3; redirector = generic; }" with
  | Ret (z, c) => z = -1 /\ List.hd_error (map fst (log c)) = Some "boolean is not parsed"%string
  | _ => False
  end.
Proof. vm_compute. auto. Qed.
(** Outside of the sections, a number with a mask that is no number hides the rest of the file, and so does a string that is not closed. *)
Theorem rest_ignored : match load_text ("0/mask" ++ newline ++ "% no configuration") with Ret (z, c) => z = 0 /\ log c = [] /\ own c = initial | _ => False end /\
  match load_text (String (Ascii.ascii_of_nat 34) "open" ++ newline ++ "% no configuration") with Ret (z, c) => z = 0 /\ log c = [] /\ own c = initial | _ => False end.
Proof. vm_compute. auto. Qed.
(** A quoted string that looks like punctuation is taken for it. *)
Theorem quoted_punctuation : match load always always aton no_addr (chars "redsocks { type = socks5; password = " ++ [34; 59; 34; 59; 125; 10]) false with
  | Ret (z, c) => z = -1 /\ List.hd_error (map fst (log c)) = Some "assignment has only key but no value"%string
  | _ => False
  end.
Proof. vm_compute. auto. Qed.
(** A last line without a newline is not read. *)
Theorem last_line_lost : match load always always aton no_addr (chars (app_config ++ newline ++ "%")) false with
  | Ret (z, c) => z = 0 /\ log c = []
  | _ => False
  end.
Proof. vm_compute. auto. Qed.
End RedsocksConfig.
